(* ===== verification/_CoqProject ===== *)
-Q . S2P
Prelude.v
TransitionValidator.v
Bpf.v
SchedHooks.v
ChannelGroup.v
GpreemptTransport.v
ChannelGroupCtor.v
ChannelGroupPolicy.v
PageMask.v
PerfTree.v
UvmBpf.v
PerfPrefetch.v
PerfPrefetchSpec.v
PmmTypes.v
PmmLists.v
PmmChunks.v
PmmWalk.v
PmmEvict.v
PmmAlloc.v
PmmInv.v
PmmSpec.v
RbTree.v
RangeTree.v
RangeAllocator.v
Pushbuffer.v
PushbufferSpec.v
GpuSemaphore.v
Channel.v
ChannelSpec.v
StateMonad.v
Tracker.v
TrackerOps.v
TrackerSpec.v
TrackerSystem.v
Push.v
PushSpec.v
MmuTypes.v
MmuMaxwell.v
MmuPascal.v
MmuHopper.v
MmuModes.v
MmuPush.v
PteBatch.v
TlbBatch.v
PageTree.v
PageTreeInv.v
PageTreeRun.v
PageTreeWalk.v
PageTreeMem.v
PageTreeOps.v
PageTreeGet.v
PageTreePut.v
PageTreeHw.v
PageTreeSys.v
PageTreeInit.v
PageTreeApi.v
PageTreeExample.v
PageTreeCorrect.v
