(* ===== verification/Prelude.v ===== *)
(** * Verification of the gpu_ext NVIDIA kernel modules

    The repository is NVIDIA's open GPU kernel modules with an extension,
    gpu_ext: eBPF programs, registered as struct_ops, take part in decisions of
    the driver.  This development models the extension and the driver code it
    acts on, and proves what policies can and cannot do to it.  It also models
    parts of the unified memory driver that the rest stands on: range trees and
    range allocators, the push buffer, the channels that send work to the GPU,
    trackers of that work, and the page table formats of the GPUs.

    ** The program and its models

    A policy callback decides by calling kfuncs, which only record requests;
    after the callback the driver validates what was recorded against the state
    it started from and then applies, ignores or rejects it.  Three subsystems
    follow this pattern: channel group scheduling in the resource manager (RM),
    page prefetching and physical memory eviction in the unified memory driver
    (UVM).

    - [Prelude]: machine integers as [Z] with explicit wrap-around, status
      codes, record update, tactics.
    - [Bpf]: callbacks.  [bpf_prog] is the type of all terminating behaviours of
      a callback over a set of kfuncs; theorems quantify over it.  The slot that
      holds registered operations changes by compare-and-exchange.
    - [TransitionValidator]: common/inc/nv-gpu-transition-validator.h, the
      recording and validation of requests, shared by all hooks.
    - [SchedHooks]: nvidia/nv-gpu-sched-hooks.{c,h} and
      nv-gpu-timeslice-control.h, the scheduling hooks.
    - [ChannelGroup], [ChannelGroupCtor], [ChannelGroupPolicy]: channel groups of
      the resource manager (kernel_channel_group_api.c, kernel_channel_group.c,
      kernel_fifo*.c): timeslice, interleave and scheduling controls, and the
      constructor with its resources and locks.
    - [GpreemptTransport]: nv-gpreempt-transport.h and RmGPreemptTransport of
      escape.c, the ioctl by which a process finds and preempts its groups.
    - [PageMask], [PerfTree]: regions, masks and loops of uvm_va_block.h and the
      bitmap tree of uvm_perf_prefetch.{c,h}, uvm_perf_utils.h.
    - [UvmBpf]: nvidia-uvm/uvm_bpf_struct_ops.{c,h}, the UVM hooks and kfuncs.
    - [PerfPrefetch], [PerfPrefetchSpec]: uvm_perf_prefetch.c and its theorems.
    - [PmmTypes], [PmmLists], [PmmChunks], [PmmWalk], [PmmEvict], [PmmAlloc]:
      uvm_pmm_gpu.{c,h}, the allocator of GPU memory chunks: data and monad; lists
      and policy requests; chunk operations; tree walks; eviction; allocation,
      PMA callbacks, creation and destruction.
    - [PmmInv], [PmmSpec]: its invariant and its theorems.
    - [RbTree], [RangeTree], [RangeAllocator]: uvm_rb_tree.{c,h}, uvm_range_tree.{c,h}
      and uvm_range_allocator.{c,h}: trees of keys and of address ranges, on nodes
      reached by pointers, and the allocator on top of them.  The Linux red-black
      tree is the class [RbTree] with the laws [RbTreeLaws].
    - [Pushbuffer], [PushbufferSpec]: uvm_pushbuffer.{c,h}, memory for the methods
      of pushes, in chunks that are used as rings.
    - [GpuSemaphore], [Channel], [ChannelSpec]: the tracking semaphores of
      uvm_gpu_semaphore.{c,h} and the GPFIFO rings of uvm_channel.{c,h}.  Channels
      use the push buffer through the laws of the class [PushbufferLaws], which
      [PushbufferSpec] satisfies.
    - [StateMonad]: the state monad with failure of the later models, and the
      rules of its specifications.
    - [Tracker], [TrackerOps], [TrackerSpec], [TrackerSystem]: uvm_tracker.{c,h}, sets
      of GPU work to wait for, over the channels of all GPUs.
    - [Push], [PushSpec]: uvm_push.{c,h}, building, ending and waiting for pushes.
    - [MmuTypes], [MmuMaxwell], [MmuPascal], [MmuHopper], [MmuModes]: the page table
      formats of uvm_{maxwell,pascal,volta,turing,ampere,hopper,blackwell}_mmu.c as
      records of functions ([uvm_mmu_mode_hal_t]); the class [hal_ok] states what
      page table code may rely on, against the formats that the hardware reads.
    - [MmuPush], [PteBatch], [TlbBatch]: the commands by which page tables are written
      and cached translations removed, and their batches in uvm_pte_batch.{c,h} and
      uvm_tlb_batch.{c,h}.
    - [PageTree], [PageTreeInv]: the page trees of uvm_mmu.{c,h}, with directories as
      objects in a store and writes to page tables in a log; the structural
      invariant of the store and the changes that keep it.
    - [PageTreeRun], [PageTreeWalk], [PageTreeMem], [PageTreeOps]: what the writers of
      tables, the walk down the tree and the updates of memory do; [PageTreeGet] and
      [PageTreePut]: the critical sections of getting and putting entries.
    - [PageTreeSys], [PageTreeApi], [PageTreeInit]: the laws of the allocators and of
      other threads, and the operations of the interface under them; [PageTreeHw]:
      the walk of the MMU through memory; [PageTreeExample]: an instance of the laws;
      [PageTreeCorrect]: the theorems.

    Stateful code is explicit state passing; code that can fail an assertion or
    follow a bad pointer returns [option], and [None] is that failure, so a
    theorem that a function returns [Some] also says that its assertions hold.
    The allocator's functions are in the state monad [PmmTypes.M] over a store of
    chunks reached by pointers ([chunk_id]), so aliasing is as in the code.

    ** What the theorems show

    - Requests: the recording functions refine a latch; validation applies a
      request exactly when the state is unchanged, the calls agree and the value
      is in range ([TransitionValidator]).
    - Scheduling: the exact effect of the timeslice and schedule hooks; a policy
      can veto or tune but not widen; a failed constructor releases what it
      acquired, but for a list node and locks of other devices on one path and
      for everything on another, and reports once ([SchedHooks], [ChannelGroup*]).
    - Transport: only owned groups of the caller are changed, queries are exact
      ([GpreemptTransport]).
    - Prefetching: iteration over masks terminates and is exact; the tree stands
      for the pages; the native heuristic equals a reference definition; hints
      are safe under every policy ([PageMask], [PerfPrefetchSpec]).
    - Memory: lists and metadata agree in every reachable state under every
      policy and interleaving of critical sections; the exact effect of the hooks
      and of the guard that keeps them from pinned and evicted chunks, and
      their confinement to one chunk; the choice of the victim; a state that the
      destruction of the allocator rejects ([PmmSpec]).
    - Ranges: range trees refine ordered lists of disjoint ranges; the allocator
      is first-fit, its allocations never overlap, and freeing everything gives
      back the whole range ([RangeTree], [RangeAllocator]).
    - GPU work: pushes never share memory, in any order of completion; space
      comes back and waiting threads get it; 64-bit completed values are exact
      although the hardware counts 32 bits; rings reclaim only finished pushes;
      three error paths leak or release what they should not ([PushbufferSpec],
      [ChannelSpec]).  Trackers refine sets of obligations, a push that acquired a
      tracker waits for all of them despite 32-bit wrap-around, waits return
      ([TrackerSystem], [PushSpec]); these are for channels that fail with one code
      ([one_error]), and with two an assertion can fail.
    - Page table formats: every HAL has the interface of [hal_ok]; page table and
      directory entries read back as what they were made from, and special entries
      as what they stand for ([MmuModes]).
    - Page table updates: batches write what was asked for, in order, and end with
      the barrier that is due; every translation that was to go is removed, unless
      the count of pages wraps around ([PteBatch], [TlbBatch]).
    - Page trees: getting and putting entries fails no assertion among other threads
      and keeps the tree coherent: [PageTreeSys.coherent] says that it consists of the
      root, of what the caller holds and of what the others own ([holdings]), which
      changes only as they change it; the MMU finds the tables that the tree has, for
      the entries that a caller got in particular; new tables are initialised before
      they can be found, and tables are freed after they can no longer be found and
      the TLB was invalidated ([PageTreeCorrect]).  Failing pushes and waits return
      one code ([fatal_code]) there.

    ** Bounds

    Loops of the prefetcher are bounded by the number of pages or levels and
    proved to terminate.  In the allocator [fuel] bounds tree walks (a tree has
    at most 2^22 nodes), retries and waits; a run that exceeds it has no result,
    and the theorems that claim a result are about operations without such
    loops.  [MAX_CHUNK_LEVELS] is 22: chunk sizes are powers of two up to 2MB.
    The loops over range trees have the number of nodes as fuel and are proved
    not to exhaust it; waiting loops of the push buffer and of channels have fuel,
    and the liveness theorem says how much is enough.  Getting page table entries
    retries at most once for each of the five levels of directories ([GET_FUEL]).

    ** Not modelled

    Code outside the models is an environment that may answer anything: the BPF
    runtime, GSP firmware and remote controls, PMA, the Linux kernel's
    allocators, VA block code and other threads (as arbitrary sequences of
    allocator calls, or functions that take any steps of the model).  Locks are modelled where a theorem is about them (the
    constructor, the transport); in the allocator the units of interleaving are
    the critical sections, as they are for the push buffer and the channels.  The
    GPU is a step that releases the next semaphore value in order.  Lists are
    sequences: linking or initialising a node that is linked has no result.
    Checks that a transfer or a semaphore is valid on its channel, the encoding of
    methods other than their size, and the callbacks of push infos are left out.
    Confidential
    Computing (encrypted semaphores and pushes, indirect submission, key
    rotation), semaphore pools, the submission registers and the contents of
    pushes are not modelled.  The theorems on page trees are for GPUs without the
    promotion of remapped pages, which only GA100 has, and for trees without ranges
    set aside for ATS.  Page table vectors and the identity mappings of
    uvm_mmu.c, HMM and P2P page maps, display, NVLink, NVSwitch, generated code
    and third-party libraries are not modelled: they do not take part in the
    decisions above, or are driven by hardware. *)

From stdpp Require Export prelude list gmap.
From Stdlib Require Export ZArith Lia Zbitwise.
Open Scope Z_scope.

(** ** Machine integers

    C unsigned integers of width [w] are elements of [Z] in the range
    [0 <= x < 2^w]; arithmetic that the source performs at that width is
    followed by [wrap w]. *)
Definition wrap (w x : Z) : Z := x mod 2 ^ w.
Definition in_width (w x : Z) : Prop := 0 <= x < 2 ^ w.

Definition NvU8 : Z -> Z := wrap 8.
Definition NvU16 : Z -> Z := wrap 16.
Definition NvU32 : Z -> Z := wrap 32.
Definition NvU64 : Z -> Z := wrap 64.

Definition NV_U64_MAX : Z := 2 ^ 64 - 1.
Definition NV_U32_MAX : Z := 2 ^ 32 - 1.
Definition NV_U16_MAX : Z := 2 ^ 16 - 1.

(** Signed reinterpretation of a [w]-bit pattern. *)
Definition sign (w x : Z) : Z :=
  if wrap w x <? 2 ^ (w - 1) then wrap w x else wrap w x - 2 ^ w.
Definition NvS8 : Z -> Z := sign 8.

(** ** Status codes (nvstatuscodes.h) used by the modelled code *)
Definition NV_STATUS := Z.
Definition NV_OK : NV_STATUS := 0x00000000.
Definition NV_ERR_BUFFER_TOO_SMALL : NV_STATUS := 0x00000002.
Definition NV_ERR_BUSY_RETRY : NV_STATUS := 0x00000003.
Definition NV_ERR_IN_USE : NV_STATUS := 0x00000017.
Definition NV_ERR_INSUFFICIENT_PERMISSIONS : NV_STATUS := 0x0000001B.
Definition NV_ERR_INVALID_ARGUMENT : NV_STATUS := 0x0000001F.
Definition NV_ERR_INVALID_OBJECT : NV_STATUS := 0x00000031.
Definition NV_ERR_INVALID_STATE : NV_STATUS := 0x00000040.
Definition NV_ERR_MORE_DATA_AVAILABLE : NV_STATUS := 0x0000004C.
Definition NV_ERR_NO_MEMORY : NV_STATUS := 0x00000051.
Definition NV_ERR_NOT_SUPPORTED : NV_STATUS := 0x00000056.
Definition NV_ERR_OBJECT_NOT_FOUND : NV_STATUS := 0x00000057.
Definition NV_ERR_OUT_OF_RANGE : NV_STATUS := 0x0000005B.
Definition NV_ERR_INSUFFICIENT_RESOURCES : NV_STATUS := 0x0000001A.
Definition NV_ERR_INVALID_LOCK_STATE : NV_STATUS := 0x0000002F.
Definition NV_ERR_GENERIC : NV_STATUS := 0x0000FFFF.
Definition NV_ERR_UVM_ADDRESS_IN_USE : NV_STATUS := 0x00000068.
Definition NV_ERR_INVALID_ADDRESS : NV_STATUS := 0x0000001E.
Definition NV_ERR_MORE_PROCESSING_REQUIRED : NV_STATUS := 0x0000004D.
Definition NV_WARN_MORE_PROCESSING_REQUIRED : NV_STATUS := 0x00010005.
Definition NV_ERR_TIMEOUT_RETRY : NV_STATUS := 0x00000066.
Definition NV_ERR_RC_ERROR : NV_STATUS := 0x00000060.
Definition NV_ERR_ECC_ERROR : NV_STATUS := 0x0000000B.
Definition NV_ERR_STATE_IN_USE : NV_STATUS := 0x00000063.
Definition NV_ERR_OPERATING_SYSTEM : NV_STATUS := 0x00000059.
Definition NV_ERR_PAGE_TABLE_NOT_AVAIL : NV_STATUS := 0x0000005D.
Definition NV_WARN_NOTHING_TO_DO : NV_STATUS := 0x00010006.

(** ** Record update

    [r <| f := v |>] is the record [r] with the field [f] set to [v], the
    counterpart of a C assignment to one field.  A record type supports it
    once its eta-expansion is declared as a [Settable] instance. *)
Class Settable (R : Type) := rebuild : R -> R.
Class Setter {R T : Type} (field : R -> T) := update_field : (T -> T) -> R -> R.

Ltac find_setter :=
  match goal with
  | |- @Setter ?R ?T ?field =>
      let eta := constr:(_ : Settable R) in
      let eta := eval hnf in eta in
      match eval pattern field in eta with
      | ?build _ => exact (fun g r => build (fun x => g (field x)) r)
      end
  end.
#[export] Hint Extern 0 (Setter _) => find_setter : typeclass_instances.

Declare Scope nv_scope.
Delimit Scope nv_scope with nv.
Notation "r <| f := v |>" := (update_field (field := f) (fun _ => v) r)
  (at level 12, f at level 0, left associativity) : nv_scope.
Open Scope nv_scope.

(** ** Tactics and hints *)
Create HintDb nv discriminated.

(** Split every [if]/[match] on a boolean test, turn the resulting boolean
    equations into arithmetic and close what [lia] or [done] can close. *)
Ltac split_ifs :=
  repeat match goal with
  | |- context [if ?b then _ else _] => destruct b eqn:?
  | H : context [if ?b then _ else _] |- _ => destruct b eqn:?
  end.

Ltac nv_solve := simplify_eq/=; try done; try lia; eauto with nv.

(** Case analysis on every test of the goal and hypotheses, then closing. *)
Ltac nv_cases := split_ifs; nv_solve.

(** ** Arithmetic lemmas shared by the components *)
Lemma pow2_pos w : 0 <= w -> 0 < 2 ^ w.
Proof. intros. by apply Z.pow_pos_nonneg. Qed.

Lemma wrap_small w x : in_width w x -> wrap w x = x.
Proof. apply Z.mod_small. Qed.

Lemma NvU32_small x : 0 <= x < 2 ^ 32 -> NvU32 x = x.
Proof. apply wrap_small. Qed.

Lemma NvU64_small x : 0 <= x < 2 ^ 64 -> NvU64 x = x.
Proof. apply wrap_small. Qed.

Lemma wrap_range w x : 0 <= w -> in_width w (wrap w x).
Proof. intros. by apply Z.mod_pos_bound, pow2_pos. Qed.

Lemma wrap_idemp w x : wrap w (wrap w x) = wrap w x.
Proof. apply Zmod_mod. Qed.

Lemma NvS8_small x : -128 <= x < 128 -> NvS8 x = x.
Proof.
  intros. unfold NvS8, sign. change (2 ^ (8 - 1)) with 128. change (2 ^ 8) with 256.
  destruct (decide (0 <= x)).
  - rewrite wrap_small by (unfold in_width; lia). nv_cases.
  - assert (wrap 8 x = x + 256) as ->; [|nv_cases].
    unfold wrap. change (2 ^ 8) with 256. symmetry. apply (Z.mod_unique_pos _ _ (-1)); lia.
Qed.

#[export] Hint Resolve pow2_pos wrap_range : nv.

(** Takes a successful run of the option monad apart. *)
Ltac binds H :=
  repeat match type of H with
  | (_ ≫= _) = Some _ => let x := fresh "x" in let Hx := fresh "Hx" in apply bind_Some in H as (x & Hx & H)
  | (if ?b then _ else _) = Some _ => let Hb := fresh "Hb" in destruct b eqn:Hb; [|done]
  | (let '(_, _) := ?p in _) = Some _ => destruct p
  end; simplify_eq/=.
