(* ===== verification/TransitionValidator.v ===== *)
(** * The transition validator

    Model of kernel-open/common/inc/nv-gpu-transition-validator.h: the pure
    code that every BPF policy decision passes through before the driver acts
    on it.  A callback records at most one request in a driver-owned request
    structure (the [record_*] functions); after the callback the driver
    validates the request against the driver's own state (the [validate_*]
    functions) and maps the verdict to an effect.

    C structures passed by pointer and updated in place are arguments that are
    returned updated; the C return value is the second component. *)

From S2P Require Import Prelude.

(** ** Data *)

Inductive nv_gpu_transition_result : Set :=
| NV_GPU_TRANSITION_APPLY
| NV_GPU_TRANSITION_NOOP_DEFAULT
| NV_GPU_TRANSITION_NOOP_REPEAT
| NV_GPU_TRANSITION_NOOP_STALE
| NV_GPU_TRANSITION_NOOP_CONFLICT
| NV_GPU_TRANSITION_REJECT_ACTION
| NV_GPU_TRANSITION_REJECT_RANGE
| NV_GPU_TRANSITION_REJECT_IDENTITY.

#[export] Instance nv_gpu_transition_result_eq_dec : EqDecision nv_gpu_transition_result.
Proof. solve_decision. Defined.

(** The enumerator's integer value: kfuncs and diagnostics carry it as an int. *)
Definition result_code (r : nv_gpu_transition_result) : Z :=
  match r with
  | NV_GPU_TRANSITION_APPLY => 0
  | NV_GPU_TRANSITION_NOOP_DEFAULT => 1
  | NV_GPU_TRANSITION_NOOP_REPEAT => 2
  | NV_GPU_TRANSITION_NOOP_STALE => 3
  | NV_GPU_TRANSITION_NOOP_CONFLICT => 4
  | NV_GPU_TRANSITION_REJECT_ACTION => 5
  | NV_GPU_TRANSITION_REJECT_RANGE => 6
  | NV_GPU_TRANSITION_REJECT_IDENTITY => 7
  end.

(** [result != NV_GPU_TRANSITION_APPLY] in the source. *)
Definition is_apply (r : nv_gpu_transition_result) : bool :=
  bool_decide (r = NV_GPU_TRANSITION_APPLY).

Definition NV_GPU_TRANSITION_ACTION_DEFAULT : Z := 0.
Definition NV_GPU_TRANSITION_ACTION_BYPASS : Z := 1.
Definition NV_GPU_TRANSITION_ACTION_ENTER_LOOP : Z := 2.

Definition NV_GPU_PMM_DESTINATION_USED : Z := 1.
Definition NV_GPU_PMM_DESTINATION_UNUSED : Z := 2.
Definition NV_GPU_PMM_POSITION_HEAD : Z := 1.
Definition NV_GPU_PMM_POSITION_TAIL : Z := 2.

Inductive nv_gpu_pmm_access_effect : Set :=
| NV_GPU_PMM_ACCESS_NATIVE
| NV_GPU_PMM_ACCESS_PRESERVE
| NV_GPU_PMM_ACCESS_COMMIT.

Inductive nv_gpu_prefetch_initial_effect : Set :=
| NV_GPU_PREFETCH_INITIAL_NATIVE
| NV_GPU_PREFETCH_INITIAL_BYPASS
| NV_GPU_PREFETCH_INITIAL_ITERATE.

Inductive nv_gpu_prefetch_iterator_effect : Set :=
| NV_GPU_PREFETCH_ITERATOR_IGNORE
| NV_GPU_PREFETCH_ITERATOR_COMMIT.

#[export] Instance nv_gpu_pmm_access_effect_eq_dec : EqDecision nv_gpu_pmm_access_effect.
Proof. solve_decision. Defined.
#[export] Instance nv_gpu_prefetch_initial_effect_eq_dec :
  EqDecision nv_gpu_prefetch_initial_effect.
Proof. solve_decision. Defined.
#[export] Instance nv_gpu_prefetch_iterator_effect_eq_dec :
  EqDecision nv_gpu_prefetch_iterator_effect.
Proof. solve_decision. Defined.

(** The four request structures share the [attempted]/[conflict] latch; their
    field names carry a prefix because Rocq projections are global. *)
Record nv_gpu_transition_u64_request_t := mk_u64_request {
  u64_attempted : bool;
  u64_conflict : bool;
  u64_value : Z;
}.

Record nv_gpu_transition_u32_request_t := mk_u32_request {
  u32_attempted : bool;
  u32_conflict : bool;
  u32_value : Z;
}.

Record nv_gpu_task_init_ctx := mk_task_init_ctx {
  ti_tsg_id : Z;
  ti_engine_type : Z;
  ti_default_timeslice : Z;
  ti_default_interleave : Z;
  ti_runlist_id : Z;
}.

Record nv_gpu_task_init_decision_ctx := mk_task_init_decision_ctx {
  tid_input : nv_gpu_task_init_ctx;
  tid_timeslice_request : nv_gpu_transition_u64_request_t;
  tid_interleave_request : nv_gpu_transition_u32_request_t;
}.

Record nv_gpu_scheduler_snapshot_t := mk_scheduler_snapshot {
  ss_tsg_id : Z;
  ss_runlist_id : Z;
  ss_phase : Z;
}.

Record nv_gpu_scheduler_validation_t := mk_scheduler_validation {
  sv_timeslice_result : nv_gpu_transition_result;
  sv_interleave_result : nv_gpu_transition_result;
  sv_timeslice : Z;
  sv_interleave : Z;
}.

Record nv_gpu_prefetch_decision_t := mk_prefetch_decision {
  pd_attempted : bool;
  pd_conflict : bool;
  pd_first : Z;
  pd_outer : Z;
}.

Record nv_gpu_transition_region_t := mk_transition_region {
  tr_first : Z;
  tr_outer : Z;
}.

Record nv_gpu_pmm_request_t := mk_pmm_request {
  pr_attempted : bool;
  pr_conflict : bool;
  pr_destination : Z;
  pr_position : Z;
}.

Record nv_gpu_pmm_snapshot_t := mk_pmm_snapshot {
  ps_owner_id : Z;
  ps_root_id : Z;
  ps_generation : Z;
  ps_source : Z;
}.

#[export] Instance nv_gpu_pmm_snapshot_eq_dec : EqDecision nv_gpu_pmm_snapshot_t.
Proof. solve_decision. Defined.

(** The [= {0}] initialisers. *)
Definition u64_request_zero := mk_u64_request false false 0.
Definition u32_request_zero := mk_u32_request false false 0.
Definition prefetch_decision_zero := mk_prefetch_decision false false 0 0.
Definition pmm_request_zero := mk_pmm_request false false 0 0.
Definition region_zero := mk_transition_region 0 0.

(** ** Recording *)

Definition nv_gpu_transition_record_u64 (request : nv_gpu_transition_u64_request_t) (value : Z)
    : nv_gpu_transition_u64_request_t * nv_gpu_transition_result :=
  if negb (u64_attempted request) then
    (mk_u64_request true (u64_conflict request) value, NV_GPU_TRANSITION_APPLY)
  else if u64_conflict request then
    (request, NV_GPU_TRANSITION_NOOP_CONFLICT)
  else if u64_value request =? value then
    (request, NV_GPU_TRANSITION_NOOP_REPEAT)
  else
    (mk_u64_request (u64_attempted request) true (u64_value request),
     NV_GPU_TRANSITION_NOOP_CONFLICT).

Definition nv_gpu_transition_record_u32 (request : nv_gpu_transition_u32_request_t) (value : Z)
    : nv_gpu_transition_u32_request_t * nv_gpu_transition_result :=
  if negb (u32_attempted request) then
    (mk_u32_request true (u32_conflict request) value, NV_GPU_TRANSITION_APPLY)
  else if u32_conflict request then
    (request, NV_GPU_TRANSITION_NOOP_CONFLICT)
  else if u32_value request =? value then
    (request, NV_GPU_TRANSITION_NOOP_REPEAT)
  else
    (mk_u32_request (u32_attempted request) true (u32_value request),
     NV_GPU_TRANSITION_NOOP_CONFLICT).

Definition nv_gpu_transition_record_prefetch (decision : nv_gpu_prefetch_decision_t)
    (first outer : Z) : nv_gpu_prefetch_decision_t * nv_gpu_transition_result :=
  if negb (pd_attempted decision) then
    (mk_prefetch_decision true (pd_conflict decision) first outer, NV_GPU_TRANSITION_APPLY)
  else if pd_conflict decision then
    (decision, NV_GPU_TRANSITION_NOOP_CONFLICT)
  else if (pd_first decision =? first) && (pd_outer decision =? outer) then
    (decision, NV_GPU_TRANSITION_NOOP_REPEAT)
  else
    (mk_prefetch_decision (pd_attempted decision) true (pd_first decision) (pd_outer decision),
     NV_GPU_TRANSITION_NOOP_CONFLICT).

Definition nv_gpu_transition_record_pmm (request : nv_gpu_pmm_request_t)
    (destination position : Z) : nv_gpu_pmm_request_t * nv_gpu_transition_result :=
  if negb (pr_attempted request) then
    (mk_pmm_request true (pr_conflict request) destination position, NV_GPU_TRANSITION_APPLY)
  else if pr_conflict request then
    (request, NV_GPU_TRANSITION_NOOP_CONFLICT)
  else if (pr_destination request =? destination) && (pr_position request =? position) then
    (request, NV_GPU_TRANSITION_NOOP_REPEAT)
  else
    (mk_pmm_request (pr_attempted request) true (pr_destination request) (pr_position request),
     NV_GPU_TRANSITION_NOOP_CONFLICT).

(** ** Scheduler validation *)

Definition nv_gpu_transition_validate_snapshot
    (expected observed : nv_gpu_scheduler_snapshot_t) : nv_gpu_transition_result :=
  if negb (ss_tsg_id expected =? ss_tsg_id observed)
     || negb (ss_runlist_id expected =? ss_runlist_id observed)
  then NV_GPU_TRANSITION_REJECT_IDENTITY
  else if negb (ss_phase expected =? ss_phase observed)
  then NV_GPU_TRANSITION_NOOP_STALE
  else NV_GPU_TRANSITION_APPLY.

Definition nv_gpu_transition_validate_scheduler
    (expected observed : nv_gpu_scheduler_snapshot_t)
    (native_timeslice native_interleave minimum_timeslice : Z)
    (timeslice_request : nv_gpu_transition_u64_request_t)
    (interleave_request : nv_gpu_transition_u32_request_t) : nv_gpu_scheduler_validation_t :=
  let snapshot_result := nv_gpu_transition_validate_snapshot expected observed in
  if negb (is_apply snapshot_result) then
    mk_scheduler_validation snapshot_result snapshot_result native_timeslice native_interleave
  else
    let '(timeslice_result, timeslice) :=
      if u64_conflict timeslice_request then
        (NV_GPU_TRANSITION_NOOP_CONFLICT, native_timeslice)
      else if u64_attempted timeslice_request then
        if u64_value timeslice_request <? minimum_timeslice
        then (NV_GPU_TRANSITION_REJECT_RANGE, native_timeslice)
        else (NV_GPU_TRANSITION_APPLY, u64_value timeslice_request)
      else (NV_GPU_TRANSITION_NOOP_DEFAULT, native_timeslice) in
    let '(interleave_result, interleave) :=
      if u32_conflict interleave_request then
        (NV_GPU_TRANSITION_NOOP_CONFLICT, native_interleave)
      else if u32_attempted interleave_request then
        if 2 <? u32_value interleave_request
        then (NV_GPU_TRANSITION_REJECT_RANGE, native_interleave)
        else (NV_GPU_TRANSITION_APPLY, u32_value interleave_request)
      else (NV_GPU_TRANSITION_NOOP_DEFAULT, native_interleave) in
    mk_scheduler_validation timeslice_result interleave_result timeslice interleave.

(** ** Actions and effects *)

Definition nv_gpu_transition_validate_initial_action (raw_action : Z)
    : Z * nv_gpu_transition_result :=
  if (raw_action <? NV_GPU_TRANSITION_ACTION_DEFAULT)
     || (NV_GPU_TRANSITION_ACTION_ENTER_LOOP <? raw_action)
  then (NV_GPU_TRANSITION_ACTION_DEFAULT, NV_GPU_TRANSITION_REJECT_ACTION)
  else (NvU32 raw_action, NV_GPU_TRANSITION_APPLY).

Definition nv_gpu_transition_validate_iterator_action (raw_action : Z)
    : Z * nv_gpu_transition_result :=
  if negb (raw_action =? NV_GPU_TRANSITION_ACTION_DEFAULT)
     && negb (raw_action =? NV_GPU_TRANSITION_ACTION_BYPASS)
  then (NV_GPU_TRANSITION_ACTION_DEFAULT, NV_GPU_TRANSITION_REJECT_ACTION)
  else (NvU32 raw_action, NV_GPU_TRANSITION_APPLY).

Definition nv_gpu_transition_prefetch_initial_effect (raw_action : Z)
    (region_result : nv_gpu_transition_result) : nv_gpu_prefetch_initial_effect :=
  let '(action, verdict) := nv_gpu_transition_validate_initial_action raw_action in
  if negb (is_apply verdict) then NV_GPU_PREFETCH_INITIAL_NATIVE
  else if action =? NV_GPU_TRANSITION_ACTION_ENTER_LOOP then NV_GPU_PREFETCH_INITIAL_ITERATE
  else if (action =? NV_GPU_TRANSITION_ACTION_BYPASS) && is_apply region_result
  then NV_GPU_PREFETCH_INITIAL_BYPASS
  else NV_GPU_PREFETCH_INITIAL_NATIVE.

Definition nv_gpu_transition_prefetch_iterator_effect (raw_action : Z)
    (region_result : nv_gpu_transition_result) : nv_gpu_prefetch_iterator_effect :=
  let '(action, verdict) := nv_gpu_transition_validate_iterator_action raw_action in
  if negb (is_apply verdict) then NV_GPU_PREFETCH_ITERATOR_IGNORE
  else if (action =? NV_GPU_TRANSITION_ACTION_BYPASS) && is_apply region_result
  then NV_GPU_PREFETCH_ITERATOR_COMMIT
  else NV_GPU_PREFETCH_ITERATOR_IGNORE.

(** ** Regions *)

Definition nv_gpu_transition_validate_region (decision : nv_gpu_prefetch_decision_t)
    (max_first max_outer block_outer type_outer : Z)
    : nv_gpu_transition_region_t * nv_gpu_transition_result :=
  if pd_conflict decision then (region_zero, NV_GPU_TRANSITION_NOOP_CONFLICT)
  else if negb (pd_attempted decision) then (region_zero, NV_GPU_TRANSITION_NOOP_DEFAULT)
  else if (pd_first decision =? 0) && (pd_outer decision =? 0) then
    (region_zero, NV_GPU_TRANSITION_APPLY)
  else if (max_outer <? max_first) || (block_outer <? max_outer) || (type_outer <? max_outer)
  then (region_zero, NV_GPU_TRANSITION_REJECT_RANGE)
  else if (pd_outer decision <=? pd_first decision)
          || (pd_first decision <? max_first)
          || (max_outer <? pd_outer decision)
          || (block_outer <? pd_first decision)
          || (block_outer <? pd_outer decision)
          || (type_outer <? pd_first decision)
          || (type_outer <? pd_outer decision)
  then (region_zero, NV_GPU_TRANSITION_REJECT_RANGE)
  else (mk_transition_region (pd_first decision) (pd_outer decision), NV_GPU_TRANSITION_APPLY).

Definition nv_gpu_transition_translate_endpoint
    (max_first relative_endpoint tree_offset max_outer block_outer type_outer : Z)
    : Z * nv_gpu_transition_result :=
  if NvU64 (NV_U64_MAX - max_first) <? relative_endpoint
  then (0, NV_GPU_TRANSITION_REJECT_RANGE)
  else
    let widened := NvU64 (max_first + relative_endpoint) in
    if widened <? tree_offset then (0, NV_GPU_TRANSITION_REJECT_RANGE)
    else
      let widened := NvU64 (widened - tree_offset) in
      if (widened <? max_first) || (max_outer <? widened)
         || (block_outer <? widened) || (type_outer <? widened)
      then (0, NV_GPU_TRANSITION_REJECT_RANGE)
      else (widened, NV_GPU_TRANSITION_APPLY).

Definition nv_gpu_transition_translate_region
    (max_first relative_first relative_outer tree_offset max_outer block_outer type_outer : Z)
    : nv_gpu_transition_region_t * nv_gpu_transition_result :=
  let '(first, result) := nv_gpu_transition_translate_endpoint
        max_first relative_first tree_offset max_outer block_outer type_outer in
  if negb (is_apply result) then (mk_transition_region first 0, result)
  else
    let '(outer, result) := nv_gpu_transition_translate_endpoint
          max_first relative_outer tree_offset max_outer block_outer type_outer in
    if negb (is_apply result) then (mk_transition_region 0 outer, result)
    else if outer <=? first then (region_zero, NV_GPU_TRANSITION_REJECT_RANGE)
    else (mk_transition_region first outer, NV_GPU_TRANSITION_APPLY).

(** ** PMM reorder requests *)

Definition nv_gpu_transition_validate_pmm (expected observed : nv_gpu_pmm_snapshot_t)
    (request : nv_gpu_pmm_request_t) : nv_gpu_transition_result :=
  if negb (ps_owner_id expected =? ps_owner_id observed)
     || negb (ps_root_id expected =? ps_root_id observed)
  then NV_GPU_TRANSITION_REJECT_IDENTITY
  else if negb (ps_generation expected =? ps_generation observed)
          || negb (ps_source expected =? ps_source observed)
  then NV_GPU_TRANSITION_NOOP_STALE
  else if pr_conflict request then NV_GPU_TRANSITION_NOOP_CONFLICT
  else if negb (pr_attempted request) then NV_GPU_TRANSITION_NOOP_DEFAULT
  else if (negb (pr_destination request =? NV_GPU_PMM_DESTINATION_USED)
           && negb (pr_destination request =? NV_GPU_PMM_DESTINATION_UNUSED))
          || (negb (pr_position request =? NV_GPU_PMM_POSITION_HEAD)
              && negb (pr_position request =? NV_GPU_PMM_POSITION_TAIL))
  then NV_GPU_TRANSITION_REJECT_RANGE
  else NV_GPU_TRANSITION_APPLY.

Definition nv_gpu_transition_pmm_access_effect (raw_action : Z)
    (request_result : nv_gpu_transition_result) : nv_gpu_pmm_access_effect :=
  if negb (raw_action =? NV_GPU_TRANSITION_ACTION_DEFAULT)
     && negb (raw_action =? NV_GPU_TRANSITION_ACTION_BYPASS)
  then NV_GPU_PMM_ACCESS_PRESERVE
  else if is_apply request_result then NV_GPU_PMM_ACCESS_COMMIT
  else if bool_decide (request_result = NV_GPU_TRANSITION_NOOP_DEFAULT)
          && (raw_action =? NV_GPU_TRANSITION_ACTION_DEFAULT)
  then NV_GPU_PMM_ACCESS_NATIVE
  else NV_GPU_PMM_ACCESS_PRESERVE.

Definition nv_gpu_transition_pmm_activate_effect (request_result : nv_gpu_transition_result)
    : nv_gpu_pmm_access_effect :=
  if is_apply request_result then NV_GPU_PMM_ACCESS_COMMIT else NV_GPU_PMM_ACCESS_PRESERVE.

(** ** The recording protocol as an interface

    [Recorder R V] is what the four request structures have in common: a
    latch with a first value and a conflict flag, and an operation that
    records one more value.  The client theorems below are proved against
    the laws; each structure discharges them. *)
Class Recorder (R V : Type) := {
  rec_zero : R;
  rec_attempted : R -> bool;
  rec_conflict : R -> bool;
  rec_value : R -> V;
  rec_record : R -> V -> R * nv_gpu_transition_result;
}.

Class RecorderLaws (R V : Type) `{Recorder R V} : Prop := {
  zero_law : rec_attempted rec_zero = false /\ rec_conflict rec_zero = false;
  first_law r v : rec_attempted r = false ->
    let '(r', res) := rec_record r v in
    rec_attempted r' = true /\ rec_conflict r' = rec_conflict r /\ rec_value r' = v
    /\ res = NV_GPU_TRANSITION_APPLY;
  conflict_law r v : rec_attempted r = true -> rec_conflict r = true ->
    rec_record r v = (r, NV_GPU_TRANSITION_NOOP_CONFLICT);
  repeat_law r : rec_attempted r = true -> rec_conflict r = false ->
    rec_record r (rec_value r) = (r, NV_GPU_TRANSITION_NOOP_REPEAT);
  mismatch_law r v : rec_attempted r = true -> rec_conflict r = false -> v <> rec_value r ->
    let '(r', res) := rec_record r v in
    rec_attempted r' = true /\ rec_conflict r' = true /\ rec_value r' = rec_value r
    /\ res = NV_GPU_TRANSITION_NOOP_CONFLICT;
}.

#[export] Instance u64_recorder : Recorder nv_gpu_transition_u64_request_t Z :=
  {| rec_zero := u64_request_zero; rec_attempted := u64_attempted;
     rec_conflict := u64_conflict; rec_value := u64_value;
     rec_record := nv_gpu_transition_record_u64 |}.

#[export] Instance u32_recorder : Recorder nv_gpu_transition_u32_request_t Z :=
  {| rec_zero := u32_request_zero; rec_attempted := u32_attempted;
     rec_conflict := u32_conflict; rec_value := u32_value;
     rec_record := nv_gpu_transition_record_u32 |}.

#[export] Instance prefetch_recorder : Recorder nv_gpu_prefetch_decision_t (Z * Z) :=
  {| rec_zero := prefetch_decision_zero; rec_attempted := pd_attempted;
     rec_conflict := pd_conflict; rec_value d := (pd_first d, pd_outer d);
     rec_record d v := nv_gpu_transition_record_prefetch d v.1 v.2 |}.

#[export] Instance pmm_recorder : Recorder nv_gpu_pmm_request_t (Z * Z) :=
  {| rec_zero := pmm_request_zero; rec_attempted := pr_attempted;
     rec_conflict := pr_conflict; rec_value r := (pr_destination r, pr_position r);
     rec_record r v := nv_gpu_transition_record_pmm r v.1 v.2 |}.

(** Abstract view: a callback is the sequence [vs] of values it recorded. *)
Section protocol.
Context {R V : Type} `{EqDecision V} `{Recorder R V}.

Definition record_all (vs : list V) : R :=
  foldl (fun r v => (rec_record r v).1) rec_zero vs.

Definition agreed (vs : list V) : bool :=
  match vs with
  | [] => true
  | v :: rest => forallb (fun v' => bool_decide (v' = v)) rest
  end.

(** What the call that follows the history [vs] returns. *)
Definition spec_result (vs : list V) (v : V) : nv_gpu_transition_result :=
  match vs with
  | [] => NV_GPU_TRANSITION_APPLY
  | _ => if agreed (vs ++ [v]) then NV_GPU_TRANSITION_NOOP_REPEAT
         else NV_GPU_TRANSITION_NOOP_CONFLICT
  end.

Definition latch_spec (vs : list V) (r : R) : Prop :=
  rec_attempted r = bool_decide (vs <> [])
  /\ rec_conflict r = negb (agreed vs)
  /\ (forall v rest, vs = v :: rest -> rec_value r = v).
End protocol.

(** ** Theorems: recording *)

Ltac recorder_laws :=
  constructor; cbn; intros;
  unfold nv_gpu_transition_record_u64, nv_gpu_transition_record_u32,
    nv_gpu_transition_record_prefetch, nv_gpu_transition_record_pmm; cbn;
  repeat match goal with
  | H : _ = true |- _ => rewrite H
  | H : _ = false |- _ => rewrite H
  end; cbn; rewrite ?Z.eqb_refl; nv_cases.

Ltac pair_mismatch :=
  match goal with
  | H : (_ =? _) && (_ =? _) = true |- _ =>
      apply andb_true_iff in H as [?%Z.eqb_eq ?%Z.eqb_eq]; naive_solver
  end.

#[export] Instance u64_recorder_laws : RecorderLaws nv_gpu_transition_u64_request_t Z.
Proof. recorder_laws. Qed.
#[export] Instance u32_recorder_laws : RecorderLaws nv_gpu_transition_u32_request_t Z.
Proof. recorder_laws. Qed.
#[export] Instance prefetch_recorder_laws : RecorderLaws nv_gpu_prefetch_decision_t (Z * Z).
Proof. recorder_laws; destruct v; cbn in *; [done|pair_mismatch]. Qed.
#[export] Instance pmm_recorder_laws : RecorderLaws nv_gpu_pmm_request_t (Z * Z).
Proof. recorder_laws; destruct v; cbn in *; [done|pair_mismatch]. Qed.

Section protocol_facts.
Context {R V : Type} `{EqDecision V} `{RecorderLaws R V}.
Implicit Types vs : list V.

Lemma agreed_snoc v vs w :
  agreed ((v :: vs) ++ [w]) = agreed (v :: vs) && bool_decide (w = v).
Proof. cbn. rewrite forallb_app. cbn. by rewrite andb_true_r. Qed.

Lemma record_all_snoc vs v :
  record_all (R := R) (vs ++ [v]) = (rec_record (record_all vs) v).1.
Proof. unfold record_all. by rewrite foldl_app. Qed.

Lemma record_step vs v (r : R) :
  latch_spec vs r ->
  let '(r', res) := rec_record r v in latch_spec (vs ++ [v]) r' /\ res = spec_result vs v.
Proof.
  intros (Ha & Hc & Hv). destruct vs as [|v0 vs].
  - pose proof (first_law r v) as Hf. rewrite bool_decide_false in Ha by naive_solver.
    destruct (rec_record r v) as [r' res]. cbn in *.
    destruct Hf as (? & Hc' & ? & ?); [done|]. split; [|done].
    split_and!; [done|by rewrite Hc', Hc|naive_solver].
  - rewrite bool_decide_true in Ha by done. specialize (Hv v0 vs eq_refl).
    unfold spec_result. rewrite agreed_snoc.
    destruct (agreed (v0 :: vs)) eqn:Hag; cbn [negb andb] in *.
    + destruct (decide (v = v0)) as [->|Hne].
      * pose proof (repeat_law r Ha Hc) as Hr. rewrite Hv in Hr. rewrite Hr.
        rewrite bool_decide_true by done. split; [|done].
        split_and!; [done|by rewrite agreed_snoc, Hag, bool_decide_true|naive_solver].
      * pose proof (mismatch_law r v Ha Hc) as Hm. destruct (rec_record r v) as [r' res].
        destruct Hm as (? & ? & ? & ->); [congruence|]. rewrite bool_decide_false by done.
        split; [|done].
        split_and!; [done|by rewrite agreed_snoc, Hag, bool_decide_false|naive_solver].
    + rewrite (conflict_law r v Ha Hc). split; [|done].
      split_and!; [done|by rewrite agreed_snoc, Hag|naive_solver].
Qed.

Lemma record_all_latch vs : latch_spec vs (record_all (R := R) vs).
Proof.
  induction vs as [|v vs IH] using rev_ind.
  - destruct zero_law. split_and!; naive_solver.
  - rewrite record_all_snoc. pose proof (record_step vs v _ IH) as Hs.
    by destruct (rec_record _ v), Hs.
Qed.

Lemma record_all_result vs v :
  (rec_record (record_all (R := R) vs) v).2 = spec_result vs v.
Proof.
  pose proof (record_step vs v _ (record_all_latch vs)) as Hs.
  by destruct (rec_record _ v), Hs.
Qed.
End protocol_facts.

(** The callback recorded [v] at least once and nothing else. *)
Definition unanimous {V : Type} (vs : list V) (v : V) : Prop := vs <> [] /\ Forall (eq v) vs.
Arguments unanimous : simpl never.

Lemma unanimous_elem {V : Type} (vs : list V) v : unanimous vs v -> v ∈ vs.
Proof.
  intros [Hn Hf]. destruct vs as [|w vs]; [done|]. inversion Hf; subst. apply elem_of_cons. by left.
Qed.

Section latch_view.
Context {R V : Type} `{EqDecision V} `{RecorderLaws R V}.

Lemma agreed_unanimous (v : V) vs : agreed (v :: vs) = true <-> unanimous (v :: vs) v.
Proof.
  unfold unanimous. cbn. rewrite forallb_forall, Forall_cons, Forall_forall. split.
  - intros Hf. split_and!; [done..|]. intros x Hx%list_elem_of_In. by apply Hf, bool_decide_eq_true in Hx.
  - intros (_ & _ & Hf) x Hx%list_elem_of_In. apply bool_decide_eq_true. by rewrite (Hf x).
Qed.

(** The three states a request can be in after a callback. *)
Lemma record_all_cases (vs : list V) :
  let r := record_all (R := R) vs in
  (vs = [] /\ rec_attempted r = false /\ rec_conflict r = false)
  \/ vs <> [] /\ rec_conflict r = true /\ (forall v, ~ unanimous vs v)
  \/ vs <> [] /\ rec_attempted r = true /\ rec_conflict r = false
     /\ (forall v, unanimous vs v <-> v = rec_value r).
Proof.
  destruct (record_all_latch (R := R) vs) as (Ha & Hc & Hv). cbn.
  destruct vs as [|v0 vs]; [by left; rewrite Ha, Hc|right].
  rewrite bool_decide_true in Ha by done. specialize (Hv v0 vs eq_refl).
  assert (Hhd : forall v, unanimous (v0 :: vs) v -> v = v0)
    by (intros v [_ Hf]; by inversion Hf).
  destruct (agreed (v0 :: vs)) eqn:Hag.
  - apply agreed_unanimous in Hag. right. rewrite Hv. split_and!; [done..|].
    intros v. split; [by apply Hhd|by intros ->].
  - left. split_and!; [done..|]. intros v Hu. pose proof (Hhd v Hu); subst.
    apply agreed_unanimous in Hu. congruence.
Qed.
End latch_view.

(** ** Theorems: what a callback can make the driver do *)

(** C10: the recording functions of the four request structures refine the
    abstract latch.  After a callback that made the calls [vs] in order, the
    structure is marked attempted exactly when [vs] is non-empty, marked
    conflicting exactly when two calls differ, and holds the value of the
    first call; the next call returns APPLY, REPEAT or CONFLICT as
    [spec_result] says. *)
Theorem record_refines_latch :
  (forall vs v, latch_spec vs (record_all (R := nv_gpu_transition_u64_request_t) vs)
     /\ (nv_gpu_transition_record_u64 (record_all vs) v).2 = spec_result vs v)
  /\ (forall vs v, latch_spec vs (record_all (R := nv_gpu_transition_u32_request_t) vs)
     /\ (nv_gpu_transition_record_u32 (record_all vs) v).2 = spec_result vs v)
  /\ (forall vs f o, latch_spec vs (record_all (R := nv_gpu_prefetch_decision_t) vs)
     /\ (nv_gpu_transition_record_prefetch (record_all vs) f o).2 = spec_result vs (f, o))
  /\ (forall vs d p, latch_spec vs (record_all (R := nv_gpu_pmm_request_t) vs)
     /\ (nv_gpu_transition_record_pmm (record_all vs) d p).2 = spec_result vs (d, p)).
Proof.
  split_and!.
  - intros vs v. split; [apply record_all_latch|].
    exact (record_all_result (R := nv_gpu_transition_u64_request_t) vs v).
  - intros vs v. split; [apply record_all_latch|].
    exact (record_all_result (R := nv_gpu_transition_u32_request_t) vs v).
  - intros vs f o. split; [apply record_all_latch|].
    exact (record_all_result (R := nv_gpu_prefetch_decision_t) vs (f, o)).
  - intros vs d p. split; [apply record_all_latch|].
    exact (record_all_result (R := nv_gpu_pmm_request_t) vs (d, p)).
Qed.

Lemma validate_snapshot_apply expected observed :
  nv_gpu_transition_validate_snapshot expected observed = NV_GPU_TRANSITION_APPLY
  <-> expected = observed.
Proof.
  unfold nv_gpu_transition_validate_snapshot. destruct expected, observed; cbn.
  split; [intros; split_ifs; simplify_eq; f_equal; lia|].
  intros [= -> -> ->]. by rewrite !Z.eqb_refl.
Qed.

Ltac split_channels Ht Hi :=
  destruct Ht as [(-> & -> & ->)|[(_ & -> & ?)|(_ & -> & -> & Ht)]];
  destruct Hi as [(-> & -> & ->)|[(_ & -> & ?)|(_ & -> & -> & Hi)]]; cbn.

Ltac channel :=
  split_and!; try done; intros x; (split; [intros [? <-]|intros (? & ? & ?)]); try done;
  repeat match goal with
  | H : forall v, _ <-> v = _, H' : _ /\ _ |- _ => apply H in H'
  | H : forall v, ~ _, H' : _ /\ _ |- _ => by destruct (H _ H')
  | H : forall v, _ <-> v = _ |- _ /\ _ => split; [done|split; [by apply H|lia]]
  end; try lia; try naive_solver.

Lemma validate_scheduler_spec expected observed native_ts native_il minimum ts ils :
  let v := nv_gpu_transition_validate_scheduler expected observed native_ts native_il minimum
             (record_all ts) (record_all ils) in
  (forall x, sv_timeslice_result v = NV_GPU_TRANSITION_APPLY /\ sv_timeslice v = x
     <-> expected = observed /\ unanimous ts x /\ minimum <= x)
  /\ (sv_timeslice_result v <> NV_GPU_TRANSITION_APPLY -> sv_timeslice v = native_ts)
  /\ (forall x, sv_interleave_result v = NV_GPU_TRANSITION_APPLY /\ sv_interleave v = x
     <-> expected = observed /\ unanimous ils x /\ x <= 2)
  /\ (sv_interleave_result v <> NV_GPU_TRANSITION_APPLY -> sv_interleave v = native_il).
Proof.
  pose proof (validate_snapshot_apply expected observed) as Hs.
  pose proof (record_all_cases (R := nv_gpu_transition_u64_request_t) ts) as Ht.
  pose proof (record_all_cases (R := nv_gpu_transition_u32_request_t) ils) as Hi.
  unfold nv_gpu_transition_validate_scheduler, is_apply.
  destruct (decide (nv_gpu_transition_validate_snapshot expected observed
                    = NV_GPU_TRANSITION_APPLY)) as [Heq|Hne].
  - pose proof (proj1 Hs Heq) as Hsame. rewrite Heq, bool_decide_true by done. cbn in *.
    split_channels Ht Hi; split_ifs; cbn; unfold unanimous in *; channel.
  - rewrite bool_decide_false by done. cbn. split_and!; [|done| |done]; tauto.
Qed.

(** The exact effect of a task-init policy.  Whatever calls [ts] and [ils]
    the policy made, its timeslice [x] is applied if and only if the TSG
    identity and phase are unchanged, it called with [x] and no other value,
    and [x] is at least the minimum; in every other case the native timeslice
    is kept.  The same holds of the interleave level with the bound 2, and
    neither request affects the other. *)
Theorem validate_scheduler_exact expected observed native_ts native_il minimum ts ils :
  let v := nv_gpu_transition_validate_scheduler expected observed native_ts native_il minimum
             (record_all ts) (record_all ils) in
  (forall x, sv_timeslice_result v = NV_GPU_TRANSITION_APPLY /\ sv_timeslice v = x
     <-> expected = observed /\ unanimous ts x /\ minimum <= x)
  /\ (sv_timeslice_result v <> NV_GPU_TRANSITION_APPLY -> sv_timeslice v = native_ts)
  /\ (forall x, sv_interleave_result v = NV_GPU_TRANSITION_APPLY /\ sv_interleave v = x
     <-> expected = observed /\ unanimous ils x /\ x <= 2)
  /\ (sv_interleave_result v <> NV_GPU_TRANSITION_APPLY -> sv_interleave v = native_il).
Proof. apply validate_scheduler_spec. Qed.

(** The region verdict in terms of what the callback recorded. *)
Lemma validate_region_spec vs max_first max_outer block_outer type_outer :
  let res := nv_gpu_transition_validate_region (record_all vs)
               max_first max_outer block_outer type_outer in
  (forall region, res = (region, NV_GPU_TRANSITION_APPLY)
     <-> unanimous vs (tr_first region, tr_outer region)
         /\ (region = region_zero
             \/ (max_first <= tr_first region < tr_outer region
                 /\ tr_outer region <= max_outer
                 /\ max_outer <= block_outer /\ max_outer <= type_outer)))
  /\ (res.2 <> NV_GPU_TRANSITION_APPLY -> res.1 = region_zero).
Proof.
  pose proof (record_all_cases (R := nv_gpu_prefetch_decision_t) vs) as Hp.
  unfold nv_gpu_transition_validate_region.
  destruct (record_all vs) as [att con f o]; cbn in *.
  destruct con; [naive_solver|]. destruct att; cbn.
  2: { destruct Hp as [(->&_&_)|[(_&?&_)|(_&?&_)]]; unfold unanimous; naive_solver. }
  destruct Hp as [(_&?&_)|[(_&?&_)|(_&_&_&Hu)]]; [done..|].
  assert (Hu' : forall r, unanimous vs (tr_first r, tr_outer r) <-> r = mk_transition_region f o).
  { intros [f' o']. rewrite Hu. naive_solver. }
  unfold region_zero. split_ifs; cbn; (split; [intros r; rewrite Hu'|done]);
    (split; [intros [= <-]|intros [-> Hr]]); try done; cbn in *;
    repeat match goal with
    | H : _ && _ = true |- _ => apply andb_true_iff in H as [->%Z.eqb_eq ->%Z.eqb_eq]
    end; first [done | f_equal; lia | destruct Hr as [[=]|]; lia | split; [done|lia] | naive_solver lia].
Qed.

(** A prefetch request names the region [region] and is applied if and
    only if all the callback's calls named that region and it is the empty
    region (0,0) or a non-empty subregion of [max_first, max_outer), itself
    inside the block and the type's range; on every other outcome the region
    returned is empty. *)
Theorem validate_region_exact vs max_first max_outer block_outer type_outer :
  let res := nv_gpu_transition_validate_region (record_all vs)
               max_first max_outer block_outer type_outer in
  (forall region, res = (region, NV_GPU_TRANSITION_APPLY)
     <-> unanimous vs (tr_first region, tr_outer region)
         /\ (region = region_zero
             \/ (max_first <= tr_first region < tr_outer region
                 /\ tr_outer region <= max_outer
                 /\ max_outer <= block_outer /\ max_outer <= type_outer)))
  /\ (res.2 <> NV_GPU_TRANSITION_APPLY -> res.1 = region_zero).
Proof. apply validate_region_spec. Qed.

(** Whatever was recorded, an applied region is empty or inside the limits. *)
Lemma validate_region_within decision max_first max_outer block_outer type_outer region :
  nv_gpu_transition_validate_region decision max_first max_outer block_outer type_outer
    = (region, NV_GPU_TRANSITION_APPLY) ->
  region = region_zero
  \/ (max_first <= tr_first region < tr_outer region /\ tr_outer region <= max_outer).
Proof.
  unfold nv_gpu_transition_validate_region. split_ifs; intros [= <-]; [by left|right; cbn; lia].
Qed.

(** [nv_gpu_transition_translate_endpoint] in exact arithmetic. *)
Lemma translate_endpoint_apply max_first rel off max_outer block_outer type_outer :
  in_width 64 max_first -> in_width 64 rel -> in_width 64 off ->
  nv_gpu_transition_translate_endpoint max_first rel off max_outer block_outer type_outer =
    if (max_first + rel <=? NV_U64_MAX) && (off <=? rel) && (max_first + rel - off <=? max_outer)
       && (max_first + rel - off <=? block_outer) && (max_first + rel - off <=? type_outer)
    then (max_first + rel - off, NV_GPU_TRANSITION_APPLY)
    else (0, NV_GPU_TRANSITION_REJECT_RANGE).
Proof.
  intros. unfold nv_gpu_transition_translate_endpoint, NvU64, NV_U64_MAX, in_width in *.
  rewrite (wrap_small 64 (2 ^ 64 - 1 - max_first)) by (unfold in_width; lia).
  destruct (_ <? rel) eqn:?; [nv_cases|].
  rewrite (wrap_small 64 (max_first + rel)) by (unfold in_width; lia).
  destruct (_ <? off) eqn:?; [nv_cases|].
  rewrite wrap_small by (unfold in_width; lia). nv_cases.
Qed.

(** The translation of a region in exact arithmetic. *)
Lemma translate_region_spec max_first rel_first rel_outer off max_outer block_outer type_outer :
  in_width 64 max_first -> in_width 64 rel_first -> in_width 64 rel_outer -> in_width 64 off ->
  let res := nv_gpu_transition_translate_region max_first rel_first rel_outer off
               max_outer block_outer type_outer in
  let outer := max_first + rel_outer - off in
  (off <= rel_first < rel_outer /\ max_first + rel_outer <= NV_U64_MAX
     /\ outer <= max_outer /\ outer <= block_outer /\ outer <= type_outer ->
   res = (mk_transition_region (max_first + rel_first - off) outer, NV_GPU_TRANSITION_APPLY))
  /\ (~ (off <= rel_first < rel_outer /\ max_first + rel_outer <= NV_U64_MAX
       /\ outer <= max_outer /\ outer <= block_outer /\ outer <= type_outer) ->
   res = (region_zero, NV_GPU_TRANSITION_REJECT_RANGE)).
Proof.
  intros H1 H2 H3 H4. cbn zeta. unfold nv_gpu_transition_translate_region.
  rewrite !translate_endpoint_apply by done.
  split; intros Hc; repeat case_match; simplify_eq; unfold is_apply in *; cbn in *;
    simplify_eq; try done; exfalso; lia.
Qed.

(** Translating the tree-relative region [rel_first, rel_outer) to block
    pages is exact 64-bit arithmetic: it is applied, giving the region shifted
    by [max_first - off], if and only if the sum does not overflow, the region
    is non-empty, starts at or after the tree offset and ends inside the
    maximum region, the block and the type; otherwise the result is the empty
    region with REJECT_RANGE. *)
Theorem translate_region_exact max_first rel_first rel_outer off max_outer block_outer type_outer :
  in_width 64 max_first -> in_width 64 rel_first -> in_width 64 rel_outer -> in_width 64 off ->
  let res := nv_gpu_transition_translate_region max_first rel_first rel_outer off
               max_outer block_outer type_outer in
  let outer := max_first + rel_outer - off in
  (off <= rel_first < rel_outer /\ max_first + rel_outer <= NV_U64_MAX
     /\ outer <= max_outer /\ outer <= block_outer /\ outer <= type_outer ->
   res = (mk_transition_region (max_first + rel_first - off) outer, NV_GPU_TRANSITION_APPLY))
  /\ (~ (off <= rel_first < rel_outer /\ max_first + rel_outer <= NV_U64_MAX
       /\ outer <= max_outer /\ outer <= block_outer /\ outer <= type_outer) ->
   res = (region_zero, NV_GPU_TRANSITION_REJECT_RANGE)).
Proof. apply translate_region_spec. Qed.

Lemma translate_region_exact_witness :
  nv_gpu_transition_translate_region 16 2 6 2 20 512 65535
  = (mk_transition_region 16 20, NV_GPU_TRANSITION_APPLY).
Proof.
  apply (translate_region_exact 16 2 6 2 20 512 65535); unfold in_width, NV_U64_MAX; lia.
Defined.

Lemma validate_pmm_match expected observed request :
  nv_gpu_transition_validate_pmm expected observed request = NV_GPU_TRANSITION_APPLY
  \/ nv_gpu_transition_validate_pmm expected observed request = NV_GPU_TRANSITION_NOOP_DEFAULT ->
  expected = observed.
Proof.
  unfold nv_gpu_transition_validate_pmm. destruct expected, observed; cbn.
  intros Hr. split_ifs; naive_solver (f_equal; lia).
Qed.

(** What the access hook of the physical-memory policy decides.  The
    driver moves the chunk where the policy asked (COMMIT) if and only if the
    chunk's identity, generation and list are as they were before the
    callback, the policy returned DEFAULT or BYPASS, and all its calls asked
    for one valid destination and position; it runs its own list update
    (NATIVE) if and only if the snapshot is unchanged, the policy made no
    call and returned DEFAULT. *)
Theorem pmm_access_effect_exact expected observed vs raw_action :
  let effect := nv_gpu_transition_pmm_access_effect raw_action
                  (nv_gpu_transition_validate_pmm expected observed (record_all vs)) in
  (effect = NV_GPU_PMM_ACCESS_COMMIT
     <-> expected = observed /\ (raw_action = 0 \/ raw_action = 1)
         /\ exists d p, unanimous vs (d, p) /\ (d = 1 \/ d = 2) /\ (p = 1 \/ p = 2))
  /\ (effect = NV_GPU_PMM_ACCESS_NATIVE
     <-> expected = observed /\ vs = [] /\ raw_action = 0).
Proof.
  pose proof (record_all_cases (R := nv_gpu_pmm_request_t) vs) as Hp.
  destruct (decide (expected = observed)) as [->|Hne].
  - unfold nv_gpu_transition_validate_pmm. rewrite !Z.eqb_refl. cbn.
    unfold nv_gpu_transition_pmm_access_effect, is_apply,
      NV_GPU_TRANSITION_ACTION_DEFAULT, NV_GPU_TRANSITION_ACTION_BYPASS,
      NV_GPU_PMM_DESTINATION_USED, NV_GPU_PMM_DESTINATION_UNUSED,
      NV_GPU_PMM_POSITION_HEAD, NV_GPU_PMM_POSITION_TAIL.
    destruct (record_all vs) as [att con d p]; cbn in *.
    destruct Hp as [(-> & -> & ->)|[(? & -> & Hn)|(? & -> & -> & Hu)]]; cbn.
    + split_ifs; unfold unanimous; naive_solver lia.
    + split_ifs; (split; [|naive_solver]); split; try done;
        intros (_ & _ & d' & p' & ? & _); by destruct (Hn (d', p')).
    + assert (Hdp : unanimous vs (d, p)) by by apply Hu.
      assert (Heq : forall d' p', unanimous vs (d', p') -> d' = d /\ p' = p)
        by (intros d' p' Hv; apply Hu in Hv; naive_solver).
      clear Hu. split_ifs; cbn in *; try done; (split; [|naive_solver]);
        split; try done; try (intros (_ & ? & d' & p' & Hv & ?); destruct (Heq _ _ Hv); lia);
        intros _; split_and!; [done|lia|exists d, p; split_and!; [done|lia|lia]].
  - assert (Hr : forall r, r = nv_gpu_transition_validate_pmm expected observed (record_all vs) ->
       r <> NV_GPU_TRANSITION_APPLY /\ r <> NV_GPU_TRANSITION_NOOP_DEFAULT).
    { intros r ->. split; intros Hr; apply Hne; eapply validate_pmm_match; eauto. }
    destruct (Hr _ eq_refl) as [H1 H2]. unfold nv_gpu_transition_pmm_access_effect, is_apply.
    rewrite !bool_decide_false by done. split_ifs; naive_solver.
Qed.
