(* ===== verification/Bpf.v ===== *)
(** * BPF programs and the struct_ops slot

    A BPF policy is code outside this repository.  What the driver can observe
    of one callback is the sequence of kfunc calls it makes, each call chosen
    after seeing the results of the earlier ones, and its return value; the
    verifier guarantees that it terminates and rejects direct writes to the
    context.  [bpf_prog] is the type of all such behaviours, so a theorem
    quantified over it holds for every policy.

    The second part is the slot in which a subsystem keeps its registered
    struct_ops: a pointer changed only by [cmpxchg]. *)

From S2P Require Import Prelude.

Inductive bpf_prog (K : Type) : Type :=
| bpf_exit (ret : Z)
| bpf_call (k : K) (next : Z -> bpf_prog K).
Arguments bpf_exit {K} _.
Arguments bpf_call {K} _ _.

(** Running a callback against the driver's kfunc implementation [kfunc],
    which updates the driver-owned decision of type [D]. *)
Section run.
Context {D K : Type} (kfunc : D -> K -> D * Z).

Fixpoint bpf_run (p : bpf_prog K) (d : D) : D * Z :=
  match p with
  | bpf_exit ret => (d, ret)
  | bpf_call k next => let '(d', ret) := kfunc d k in bpf_run (next ret) d'
  end.

(** The kfunc calls the callback made. *)
Fixpoint bpf_trace (p : bpf_prog K) (d : D) : list K :=
  match p with
  | bpf_exit _ => []
  | bpf_call k next => let '(d', ret) := kfunc d k in k :: bpf_trace (next ret) d'
  end.

Lemma bpf_run_trace p d :
  (bpf_run p d).1 = foldl (fun d k => (kfunc d k).1) d (bpf_trace p d).
Proof.
  revert d. induction p as [ret|k next IH]; intros d; cbn; [done|].
  destruct (kfunc d k) as [d' ret] eqn:Hk. rewrite IH. cbn. by rewrite Hk.
Qed.

(** A callback cannot leave an invariant of the kfuncs. *)
Lemma bpf_run_inv (P : D -> Prop) p d :
  (forall d k, P d -> P (kfunc d k).1) -> P d -> P (bpf_run p d).1.
Proof.
  intros Hk. revert d. induction p as [ret|k next IH]; intros d Hd; cbn; [done|].
  specialize (Hk d k Hd). destruct (kfunc d k) as [d' ret]. by apply IH.
Qed.
End run.

(** ** The registered operations

    The atomic [cmpxchg] of the kernel on a pointer-sized slot: the slot takes
    the new value when it holds the old one, and the previous value is
    returned.  A registration is identified by the address of its operations. *)
Definition cmpxchg {A : Type} `{EqDecision A} (slot old new : option A)
    : option A * option A :=
  (if decide (slot = old) then new else slot, slot).

Definition EEXIST : Z := 17.
Definition EINVAL : Z := 22.
Definition ENOMEM : Z := 12.
Definition EIO : Z := 5.
Definition EACCES : Z := 13.
