(* ===== verification/SchedHooks.v ===== *)
(** * Scheduler hooks

    Model of kernel-open/common/inc/nv-gpu-timeslice-control.h and of
    kernel-open/nvidia/nv-gpu-sched-hooks.c: the contexts handed to a
    scheduling policy, the kfuncs it may call, the struct_ops slot and the
    hooks that the resource manager calls.

    A context pointer that the C code tests against NULL is an [option]. *)

From S2P Require Import Prelude TransitionValidator Bpf.

(** ** The timeslice control boundary *)

Definition NV_GPU_TIMESLICE_CONTROL_PHASE : Z := 1.
Definition NV_GPU_TIMESLICE_CONTROL_MAX_US : Z := 1000000.

Record nv_gpu_timeslice_control_ctx := mk_timeslice_control_ctx {
  tc_tsg_id : Z;
  tc_requested_timeslice_us : Z;
  tc_engine_type : Z;
  tc_runlist_id : Z;
  tc_hclient : Z;
  tc_htsg : Z;
  tc_gpu_instance : Z;
  tc_phase : Z;
}.

Record nv_gpu_timeslice_control_decision_ctx := mk_timeslice_control_decision_ctx {
  tcd_input : nv_gpu_timeslice_control_ctx;
  tcd_request : nv_gpu_transition_u64_request_t;
}.

Definition nv_gpu_timeslice_control_eligible (value minimum : Z) : bool :=
  (1 <=? value) && (minimum <=? value) && (value <=? NV_GPU_TIMESLICE_CONTROL_MAX_US).

Definition nv_gpu_timeslice_control_record
    (decision : nv_gpu_timeslice_control_decision_ctx) (value : Z)
    : nv_gpu_timeslice_control_decision_ctx * nv_gpu_transition_result :=
  let '(request, result) := nv_gpu_transition_record_u64 (tcd_request decision) value in
  (mk_timeslice_control_decision_ctx (tcd_input decision) request,
   if is_apply result && negb (nv_gpu_timeslice_control_eligible value 0)
   then NV_GPU_TRANSITION_REJECT_RANGE else result).

(** Returns the effective timeslice and the verdict. *)
Definition nv_gpu_timeslice_control_validate (expected observed : nv_gpu_timeslice_control_ctx)
    (minimum : Z) (request : nv_gpu_transition_u64_request_t) : Z * nv_gpu_transition_result :=
  let effective := tc_requested_timeslice_us expected in
  if negb (tc_tsg_id expected =? tc_tsg_id observed)
     || negb (tc_runlist_id expected =? tc_runlist_id observed)
     || negb (tc_engine_type expected =? tc_engine_type observed)
     || negb (tc_hclient expected =? tc_hclient observed)
     || negb (tc_htsg expected =? tc_htsg observed)
     || negb (tc_gpu_instance expected =? tc_gpu_instance observed)
     || negb (tc_requested_timeslice_us expected =? tc_requested_timeslice_us observed)
     || (tc_hclient expected =? 0) || (tc_htsg expected =? 0)
  then (effective, NV_GPU_TRANSITION_REJECT_IDENTITY)
  else if negb (tc_phase expected =? NV_GPU_TIMESLICE_CONTROL_PHASE)
          || negb (tc_phase expected =? tc_phase observed)
  then (effective, NV_GPU_TRANSITION_NOOP_STALE)
  else if negb (u64_attempted request) then (effective, NV_GPU_TRANSITION_NOOP_DEFAULT)
  else if u64_conflict request then (effective, NV_GPU_TRANSITION_NOOP_CONFLICT)
  else if negb (nv_gpu_timeslice_control_eligible (tc_requested_timeslice_us expected) minimum)
          || negb (nv_gpu_timeslice_control_eligible (u64_value request) minimum)
  then (effective, NV_GPU_TRANSITION_REJECT_RANGE)
  else (u64_value request, NV_GPU_TRANSITION_APPLY).

(** ** Hook contexts *)

Record nv_gpu_bind_ctx := mk_bind_ctx {
  bc_tsg_id : Z;
  bc_runlist_id : Z;
  bc_channel_count : Z;
  bc_timeslice_us : Z;
  bc_interleave_level : Z;
  bc_allow : Z;
}.
#[export] Instance eta_bind_ctx : Settable nv_gpu_bind_ctx := fun x =>
  mk_bind_ctx (bc_tsg_id x) (bc_runlist_id x) (bc_channel_count x) (bc_timeslice_us x)
    (bc_interleave_level x) (bc_allow x).

Record nv_gpu_token_request_ctx := mk_token_request_ctx {
  tk_channel_id : Z;
  tk_tsg_id : Z;
  tk_token : Z;
}.

Record nv_gpu_task_destroy_ctx := mk_task_destroy_ctx {
  td_tsg_id : Z;
  td_runlist_id : Z;
  td_engine_type : Z;
}.

(** ** The kfuncs

    A kfunc receives the context and recovers the enclosing decision with
    [container_of]; the decision is what is passed here. *)

Definition bpf_nv_gpu_override_timeslice
    (decision : option nv_gpu_timeslice_control_decision_ctx) (timeslice_us : Z)
    : option nv_gpu_timeslice_control_decision_ctx * Z :=
  match decision with
  | None => (None, result_code NV_GPU_TRANSITION_REJECT_IDENTITY)
  | Some decision =>
      let '(decision, result) := nv_gpu_timeslice_control_record decision (NvU64 timeslice_us) in
      (Some decision, result_code result)
  end.

Definition bpf_nv_gpu_set_timeslice (decision : option nv_gpu_task_init_decision_ctx)
    (timeslice_us : Z) : option nv_gpu_task_init_decision_ctx * Z :=
  match decision with
  | None => (None, result_code NV_GPU_TRANSITION_REJECT_IDENTITY)
  | Some d =>
      let '(request, result) :=
        nv_gpu_transition_record_u64 (tid_timeslice_request d) (NvU64 timeslice_us) in
      (Some (mk_task_init_decision_ctx (tid_input d) request (tid_interleave_request d)),
       result_code result)
  end.

Definition bpf_nv_gpu_set_interleave (decision : option nv_gpu_task_init_decision_ctx)
    (interleave_level : Z) : option nv_gpu_task_init_decision_ctx * Z :=
  match decision with
  | None => (None, result_code NV_GPU_TRANSITION_REJECT_IDENTITY)
  | Some d =>
      let '(request, result) :=
        nv_gpu_transition_record_u32 (tid_interleave_request d) (NvU32 interleave_level) in
      (Some (mk_task_init_decision_ctx (tid_input d) (tid_timeslice_request d) request),
       result_code result)
  end.

Definition bpf_nv_gpu_reject_bind (ctx : option nv_gpu_bind_ctx) : option nv_gpu_bind_ctx :=
  match ctx with
  | None => None
  | Some ctx => Some (ctx <| bc_allow := 0 |>)
  end.

(** The kernel-internal preemption entry (osapi.c) issues one fixed control on
    the named object with kernel privilege; [control] is the RM control path. *)
Record preempt_control := mk_preempt_control {
  pc_hClient : Z;
  pc_hObject : Z;
  pc_cmd : Z;
  pc_bWait : bool;
  pc_bManualTimeout : bool;
  pc_timeoutUs : Z;
  pc_kernel_privilege : bool;
}.

Definition nv_gpu_sched_do_preempt (control : preempt_control -> NV_STATUS) (hClient hTsg : Z)
    : NV_STATUS :=
  control (mk_preempt_control hClient hTsg 0xa06c0105 true true 100000 true).

Definition bpf_nv_gpu_preempt_tsg (stack_alloc : Z) (control : preempt_control -> NV_STATUS)
    (hClient hTsg : Z) : Z :=
  if (hClient =? 0) || (hTsg =? 0) then - EINVAL
  else if negb (stack_alloc =? 0) then - ENOMEM
  else if nv_gpu_sched_do_preempt control hClient hTsg =? 0 then 0 else - EIO.

(** The verifier callbacks: a policy may only read its context. *)
Inductive bpf_access_type := BPF_READ | BPF_WRITE.

Definition nv_gpu_sched_ops_is_valid_access (btf_ctx_access : Z -> Z -> bool)
    (off size : Z) (type : bpf_access_type) : bool :=
  match type with
  | BPF_WRITE => false
  | BPF_READ => btf_ctx_access off size
  end.

Definition nv_gpu_sched_ops_btf_struct_access (off size : Z) : Z := - EACCES.

(** ** The struct_ops *)

(** What a task-init callback may call. *)
Inductive task_init_kfunc :=
| call_set_timeslice (timeslice_us : Z)
| call_set_interleave (interleave_level : Z).

Inductive bind_kfunc := call_reject_bind.
Inductive timeslice_kfunc := call_override_timeslice (timeslice_us : Z).

Record nv_gpu_sched_ops := mk_sched_ops {
  on_task_init : option (nv_gpu_task_init_ctx -> bpf_prog task_init_kfunc);
  on_bind : option (nv_gpu_bind_ctx -> bpf_prog bind_kfunc);
  on_task_destroy : option (nv_gpu_task_destroy_ctx -> bpf_prog Empty_set);
  on_timeslice_control : option (nv_gpu_timeslice_control_ctx -> bpf_prog timeslice_kfunc);
}.

Definition nv_gpu_sched_ops_reg (slot : option nat) (kdata : nat) : option nat * Z :=
  let '(slot, prev) := cmpxchg slot None (Some kdata) in
  match prev with
  | Some _ => (slot, - EEXIST)
  | None => (slot, 0)
  end.

(** The second component is false when the driver warns of an unexpected
    unregistration. *)
Definition nv_gpu_sched_ops_unreg (slot : option nat) (kdata : nat) : option nat * bool :=
  let '(slot, prev) := cmpxchg slot (Some kdata) None in
  (slot, bool_decide (prev = Some kdata)).

(** *** Kfunc dispatch of a running callback *)

Definition task_init_dispatch (d : option nv_gpu_task_init_decision_ctx) (k : task_init_kfunc)
    : option nv_gpu_task_init_decision_ctx * Z :=
  match k with
  | call_set_timeslice v => bpf_nv_gpu_set_timeslice d v
  | call_set_interleave v => bpf_nv_gpu_set_interleave d v
  end.

Definition bind_dispatch (c : option nv_gpu_bind_ctx) (_ : bind_kfunc)
    : option nv_gpu_bind_ctx * Z :=
  (bpf_nv_gpu_reject_bind c, 0).

Definition timeslice_dispatch (d : option nv_gpu_timeslice_control_decision_ctx)
    (k : timeslice_kfunc) : option nv_gpu_timeslice_control_decision_ctx * Z :=
  match k with call_override_timeslice v => bpf_nv_gpu_override_timeslice d v end.

(** *** The hooks: [ops] is the operations the slot points to *)

Definition nv_gpu_sched_bpf_on_task_init (ops : option nv_gpu_sched_ops)
    (d : nv_gpu_task_init_decision_ctx) : nv_gpu_task_init_decision_ctx :=
  match ops with
  | Some o =>
      match on_task_init o with
      | Some cb => default d (bpf_run task_init_dispatch (cb (tid_input d)) (Some d)).1
      | None => d
      end
  | None => d
  end.

Definition nv_gpu_sched_bpf_on_bind (ops : option nv_gpu_sched_ops) (ctx : nv_gpu_bind_ctx)
    : nv_gpu_bind_ctx :=
  match ops with
  | Some o =>
      match on_bind o with
      | Some cb => default ctx (bpf_run bind_dispatch (cb ctx) (Some ctx)).1
      | None => ctx
      end
  | None => ctx
  end.

Definition nv_gpu_sched_bpf_on_task_destroy (ops : option nv_gpu_sched_ops)
    (ctx : nv_gpu_task_destroy_ctx) : nv_gpu_task_destroy_ctx :=
  match ops with
  | Some o =>
      match on_task_destroy o with
      | Some cb => (bpf_run (fun d (k : Empty_set) => (d, 0)) (cb ctx) ctx).1
      | None => ctx
      end
  | None => ctx
  end.

Definition nv_gpu_sched_timeslice_control (ops : option nv_gpu_sched_ops)
    (decision : nv_gpu_timeslice_control_decision_ctx) : nv_gpu_timeslice_control_decision_ctx :=
  match ops with
  | Some o =>
      match on_timeslice_control o with
      | Some cb =>
          default decision (bpf_run timeslice_dispatch (cb (tcd_input decision)) (Some decision)).1
      | None => decision
      end
  | None => decision
  end.

Definition nv_gpu_sched_task_init := nv_gpu_sched_bpf_on_task_init.

Definition nv_gpu_sched_bind (ops : option nv_gpu_sched_ops) (ctx : nv_gpu_bind_ctx)
    : nv_gpu_bind_ctx :=
  nv_gpu_sched_bpf_on_bind ops (ctx <| bc_allow := 1 |>).

Definition nv_gpu_sched_task_destroy := nv_gpu_sched_bpf_on_task_destroy.

(** ** What a callback asks for

    The calls a policy makes in a hook, read off its run; an absent policy or
    an absent callback makes none. *)

Definition task_init_calls (ops : option nv_gpu_sched_ops) (d : nv_gpu_task_init_decision_ctx)
    : list task_init_kfunc :=
  match ops ≫= on_task_init with
  | Some cb => bpf_trace task_init_dispatch (cb (tid_input d)) (Some d)
  | None => []
  end.

Definition timeslice_values (ks : list task_init_kfunc) : list Z :=
  omap (fun k => match k with call_set_timeslice v => Some (NvU64 v) | _ => None end) ks.
Definition interleave_values (ks : list task_init_kfunc) : list Z :=
  omap (fun k => match k with call_set_interleave v => Some (NvU32 v) | _ => None end) ks.

Definition timeslice_control_values (ops : option nv_gpu_sched_ops)
    (d : nv_gpu_timeslice_control_decision_ctx) : list Z :=
  match ops ≫= on_timeslice_control with
  | Some cb =>
      (fun k => match k with call_override_timeslice v => NvU64 v end)
        <$> bpf_trace timeslice_dispatch (cb (tcd_input d)) (Some d)
  | None => []
  end.

Definition bind_calls (ops : option nv_gpu_sched_ops) (ctx : nv_gpu_bind_ctx) : list bind_kfunc :=
  match ops ≫= on_bind with
  | Some cb => bpf_trace bind_dispatch (cb ctx) (Some ctx)
  | None => []
  end.

Lemma task_init_dispatch_fold ks input r1 r2 :
  foldl (fun d k => (task_init_dispatch d k).1) (Some (mk_task_init_decision_ctx input r1 r2)) ks
  = Some (mk_task_init_decision_ctx input
            (foldl (fun r v => (nv_gpu_transition_record_u64 r v).1) r1 (timeslice_values ks))
            (foldl (fun r v => (nv_gpu_transition_record_u32 r v).1) r2 (interleave_values ks))).
Proof.
  revert r1 r2. induction ks as [|[v|v] ks IH]; intros r1 r2; cbn; [done| |].
  - destruct (nv_gpu_transition_record_u64 r1 (NvU64 v)) eqn:?. cbn. by rewrite IH.
  - destruct (nv_gpu_transition_record_u32 r2 (NvU32 v)) eqn:?. cbn. by rewrite IH.
Qed.

(** A task-init policy leaves the context alone and records its calls. *)
Lemma task_init_hook ops input :
  let d := mk_task_init_decision_ctx input u64_request_zero u32_request_zero in
  let ks := task_init_calls ops d in
  nv_gpu_sched_task_init ops d
  = mk_task_init_decision_ctx input
      (record_all (timeslice_values ks)) (record_all (interleave_values ks)).
Proof.
  unfold nv_gpu_sched_task_init, nv_gpu_sched_bpf_on_task_init, task_init_calls.
  destruct ops as [o|]; [|done]. cbn. destruct (on_task_init o) as [cb|]; [|done].
  rewrite bpf_run_trace, task_init_dispatch_fold. done.
Qed.

Lemma timeslice_dispatch_fold ks input r :
  foldl (fun d k => (timeslice_dispatch d k).1)
    (Some (mk_timeslice_control_decision_ctx input r)) ks
  = Some (mk_timeslice_control_decision_ctx input
      (foldl (fun r v => (nv_gpu_transition_record_u64 r v).1) r
         ((fun k => match k with call_override_timeslice v => NvU64 v end) <$> ks))).
Proof.
  revert r. induction ks as [|[v] ks IH]; intros r; cbn; [done|].
  unfold nv_gpu_timeslice_control_record. cbn.
  destruct (nv_gpu_transition_record_u64 r (NvU64 v)) eqn:?. cbn. by rewrite IH.
Qed.

(** A timeslice-control policy leaves the context alone and records its calls. *)
Lemma timeslice_control_hook ops input :
  let d := mk_timeslice_control_decision_ctx input u64_request_zero in
  nv_gpu_sched_timeslice_control ops d
  = mk_timeslice_control_decision_ctx input (record_all (timeslice_control_values ops d)).
Proof.
  unfold nv_gpu_sched_timeslice_control, timeslice_control_values.
  destruct ops as [o|]; [|done]. cbn. destruct (on_timeslice_control o) as [cb|]; [|done].
  rewrite bpf_run_trace, timeslice_dispatch_fold. done.
Qed.

Lemma bind_dispatch_fold ks ctx :
  foldl (fun c k => (bind_dispatch c k).1) (Some ctx) ks
  = Some (if decide (ks = []) then ctx else ctx <| bc_allow := 0 |>).
Proof.
  revert ctx. induction ks as [|k ks IH]; intros ctx; cbn; [done|].
  rewrite IH. by destruct (decide (ks = [])).
Qed.

(** A bind policy decides admission and nothing else. *)
Lemma bind_hook ops ctx :
  nv_gpu_sched_bind ops ctx =
  ctx <| bc_allow := if decide (bind_calls ops (ctx <| bc_allow := 1 |>) = []) then 1 else 0 |>.
Proof.
  unfold nv_gpu_sched_bind, nv_gpu_sched_bpf_on_bind, bind_calls.
  destruct ops as [o|]; [|done]. cbn. destruct (on_bind o) as [cb|]; [|done].
  rewrite bpf_run_trace, bind_dispatch_fold. by destruct (decide _).
Qed.

Lemma timeslice_values_width ks v : v ∈ timeslice_values ks -> in_width 64 v.
Proof.
  unfold timeslice_values. rewrite list_elem_of_omap. intros ([x|x] & _ & [= <-]).
  by apply wrap_range.
Qed.

Lemma interleave_values_width ks v : v ∈ interleave_values ks -> in_width 32 v.
Proof.
  unfold interleave_values. rewrite list_elem_of_omap. intros ([x|x] & _ & [= <-]).
  by apply wrap_range.
Qed.

Lemma timeslice_control_values_width ops d v :
  v ∈ timeslice_control_values ops d -> in_width 64 v.
Proof.
  unfold timeslice_control_values. destruct (ops ≫= _); [|by intros ?%elem_of_nil].
  rewrite list_elem_of_fmap. intros ([x] & -> & _). by apply wrap_range.
Qed.

Lemma timeslice_control_spec ops input minimum x :
  let d := mk_timeslice_control_decision_ctx input u64_request_zero in
  let d' := nv_gpu_sched_timeslice_control ops d in
  let vs := timeslice_control_values ops d in
  let '(effective, result) :=
    nv_gpu_timeslice_control_validate input (tcd_input d') minimum (tcd_request d') in
  (result = NV_GPU_TRANSITION_APPLY /\ effective = x
     <-> tc_hclient input <> 0 /\ tc_htsg input <> 0
         /\ tc_phase input = NV_GPU_TIMESLICE_CONTROL_PHASE
         /\ unanimous vs x
         /\ Z.max 1 minimum <= tc_requested_timeslice_us input <= 1000000
         /\ Z.max 1 minimum <= x <= 1000000)
  /\ (result <> NV_GPU_TRANSITION_APPLY -> effective = tc_requested_timeslice_us input).
Proof.
  cbn zeta. rewrite timeslice_control_hook. cbn [tcd_input tcd_request].
  set (vs := timeslice_control_values _ _).
  pose proof (record_all_cases (R := nv_gpu_transition_u64_request_t) vs) as Hv. cbn in Hv.
  unfold nv_gpu_timeslice_control_validate, nv_gpu_timeslice_control_eligible,
    NV_GPU_TIMESLICE_CONTROL_PHASE, NV_GPU_TIMESLICE_CONTROL_MAX_US.
  rewrite !Z.eqb_refl. cbn [negb orb].
  destruct Hv as [(Hn & -> & ->)|[(Hn & -> & Hu)|(Hn & -> & -> & Hu)]]; cbn.
  - rewrite Hn. split_ifs; (split; [|done]); (split; [by intros [? _]|]);
      intros (? & ? & ? & [[] _] & _); done.
  - destruct (u64_attempted _); cbn; split_ifs; (split; [|done]); (split; [by intros [? _]|]);
      intros (? & ? & ? & Hx & _); by destruct (Hu x).
  - split_ifs; rewrite Hu; (split; [|done]); split;
      first [by intros [? _] | intros (? & ? & ? & -> & ?); lia | intros [_ <-]; lia | naive_solver lia].
Qed.

(** The exact effect of a policy at the timeslice control.  For every
    policy, with [vs] the values it asked for at this call, the control uses
    [x] instead of the requested timeslice if and only if both handles are
    non-zero, [vs] is non-empty and all equal to [x], and both the requested
    timeslice and [x] lie in [max(1, minimum), 1000000]; in every other case
    the requested timeslice stays. *)
Theorem timeslice_control_exact ops input minimum x :
  let d := mk_timeslice_control_decision_ctx input u64_request_zero in
  let d' := nv_gpu_sched_timeslice_control ops d in
  let vs := timeslice_control_values ops d in
  let '(effective, result) :=
    nv_gpu_timeslice_control_validate input (tcd_input d') minimum (tcd_request d') in
  (result = NV_GPU_TRANSITION_APPLY /\ effective = x
     <-> tc_hclient input <> 0 /\ tc_htsg input <> 0
         /\ tc_phase input = NV_GPU_TIMESLICE_CONTROL_PHASE
         /\ unanimous vs x
         /\ Z.max 1 minimum <= tc_requested_timeslice_us input <= 1000000
         /\ Z.max 1 minimum <= x <= 1000000)
  /\ (result <> NV_GPU_TRANSITION_APPLY -> effective = tc_requested_timeslice_us input).
Proof. apply timeslice_control_spec. Qed.
