(* ===== verification/ChannelGroup.v ===== *)
(** * Channel groups of the resource manager

    Model of the scheduling parts of
    src/nvidia/src/kernel/gpu/fifo/{kernel_channel_group_api.c,
    kernel_channel_group.c, kernel_fifo.c} and of the generated HAL stubs they
    call: the setters of timeslice and interleave level, the controls that
    read and write them, the schedule control with its admission hook, and the
    constructor of a channel group with the task-init policy.

    What the constructor and the controls call in the rest of the resource
    manager, in the GSP firmware and in the operating system is an argument
    (a field of [ctor_env], or a function from the request to a status): the
    theorems hold for every answer of that code.  The broadcast loops
    (SLI_LOOP) run for the one GPU of the call. *)

From S2P Require Import Prelude TransitionValidator Bpf SchedHooks.

(** ** State *)

Definition NVA06C_CTRL_INTERLEAVE_LEVEL_LOW : Z := 0.
Definition NVA06C_CTRL_INTERLEAVE_LEVEL_MEDIUM : Z := 1.
Definition NVA06C_CTRL_INTERLEAVE_LEVEL_HIGH : Z := 2.
Definition NVA06C_CTRL_CMD_SET_TIMESLICE : Z := 0xa06c0103.
Definition NVA06C_CTRL_CMD_SET_INTERLEAVE_LEVEL : Z := 0xa06c0107.
Definition INVALID_RUNLIST_ID : Z := 0xFFFFFFFF.
Definition NV_GPU_SCHED_PHASE_DEFAULTS_READY : Z := 1.

(** RM engine types (gpu_engine_type.h). *)
Definition RM_ENGINE_TYPE_NULL : Z := 0.
Definition RM_ENGINE_TYPE_GR0 : Z := 1.
Definition RM_ENGINE_TYPE_LAST : Z := 0x54.
Definition RM_ENGINE_TYPE_GR_SIZE : Z := 8.
Definition RM_ENGINE_TYPE_IS_GR (i : Z) : bool :=
  (RM_ENGINE_TYPE_GR0 <=? i) && (i <? RM_ENGINE_TYPE_GR0 + RM_ENGINE_TYPE_GR_SIZE).
Definition RM_ENGINE_TYPE_IS_VALID (i : Z) : bool :=
  (RM_ENGINE_TYPE_NULL <? i) && (i <? RM_ENGINE_TYPE_LAST).

Record OBJGPU := mk_gpu {
  gpuInstance : Z;
  gpu_subdev : Z;
  IS_VIRTUAL : bool;
  IS_GSP_CLIENT : bool;
  IS_VIRTUAL_WITH_FULL_SRIOV : bool;
}.

Record KernelChannel := mk_channel {
  ch_id : Z;
  ch_runlistId : Z;
  ch_runlist_set : bool;
  ch_schedulable : bool;
}.

Record KernelChannelGroup := mk_kcg {
  grpID : Z;
  runlistId : Z;
  bRunlistAssigned : bool;
  bAllocatedByRm : bool;
  engineType : Z;
  timesliceUs : Z;
  pInterleaveLevel : gmap Z Z;
  chanCount : Z;
  tsgUniqueId : Z;
  pChanList : list KernelChannel;
  pCtxBufPool : bool;
  pChannelBufPool : bool;
}.
#[export] Instance eta_kcg : Settable KernelChannelGroup := fun x =>
  mk_kcg (grpID x) (runlistId x) (bRunlistAssigned x) (bAllocatedByRm x) (engineType x)
    (timesliceUs x) (pInterleaveLevel x) (chanCount x) (tsgUniqueId x) (pChanList x)
    (pCtxBufPool x) (pChannelBufPool x).

(** The array is zeroed when the group is initialised. *)
Definition interleave_of (kcg : KernelChannelGroup) (subdev : Z) : Z :=
  default 0 (pInterleaveLevel kcg !! subdev).

(** ** Setters *)

Definition kfifoRunlistGetMinTimeSlice : Z := 0.
Definition kfifoChannelGroupSetTimesliceSched (kcg : KernelChannelGroup) (timeslice : Z)
    : NV_STATUS := NV_OK.
Definition kchangrpSetInterleaveLevelSched (kcg : KernelChannelGroup) (value : Z)
    : NV_STATUS := NV_OK.

Definition kfifoChannelGroupSetTimeslice (kcg : KernelChannelGroup) (timeslice : Z)
    : KernelChannelGroup * NV_STATUS :=
  if timeslice <? kfifoRunlistGetMinTimeSlice then (kcg, NV_ERR_NOT_SUPPORTED)
  else
    let kcg := kcg <| timesliceUs := timeslice |> in
    (kcg, kfifoChannelGroupSetTimesliceSched kcg timeslice).

Definition kchangrpSetInterleaveLevel (gpu : OBJGPU) (kcg : KernelChannelGroup) (value : Z)
    : KernelChannelGroup * NV_STATUS :=
  if (value =? NVA06C_CTRL_INTERLEAVE_LEVEL_LOW)
     || (value =? NVA06C_CTRL_INTERLEAVE_LEVEL_MEDIUM)
     || (value =? NVA06C_CTRL_INTERLEAVE_LEVEL_HIGH)
  then
    let kcg := kcg <| pInterleaveLevel := <[gpu_subdev gpu := value]> (pInterleaveLevel kcg) |> in
    (kcg, kchangrpSetInterleaveLevelSched kcg value)
  else (kcg, NV_ERR_INVALID_ARGUMENT).

(** ** Controls on an existing group

    [ce_rpc cmd value] is the status of the remote control with that payload and
    what the reply of the firmware leaves in the parameter block, which it
    overwrites; [ce_physical] is the same for the internal control.  The controls return the group, the parameter block, the remote controls
    they issued and their status. *)

Definition kchangrpapiCtrlCmdGetTimeslice (group : option KernelChannelGroup) (params : Z)
    : Z * NV_STATUS :=
  match group with
  | None => (params, NV_ERR_INVALID_OBJECT)
  | Some kcg => (timesliceUs kcg, NV_OK)
  end.

Record control_env := mk_control_env {
  ce_gpu : OBJGPU;
  ce_hClient : Z;
  ce_hObject : Z;
  ce_cmd : Z;
  ce_class_found : bool;
  ce_rpc : Z -> Z -> NV_STATUS * Z;
  ce_physical : Z -> NV_STATUS * Z;
}.

Record control_result := mk_control_result {
  cr_group : option KernelChannelGroup;
  cr_params : Z;
  cr_rpcs : list (Z * Z);
  cr_status : NV_STATUS;
}.

(** The policy's part of the control (the block guarded by IS_GSP_CLIENT and
    the eligibility of the input): the timeslice to send, or a refusal. *)
Definition settimeslice_policy (env : control_env) (ops : option nv_gpu_sched_ops)
    (kcg : KernelChannelGroup) (params : Z) : Z + NV_STATUS :=
  if IS_GSP_CLIENT (ce_gpu env)
     && nv_gpu_timeslice_control_eligible params kfifoRunlistGetMinTimeSlice
  then
    let expected := mk_timeslice_control_ctx (grpID kcg) params (engineType kcg)
          (runlistId kcg) (ce_hClient env) (ce_hObject env) (gpuInstance (ce_gpu env))
          NV_GPU_TIMESLICE_CONTROL_PHASE in
    let decision := nv_gpu_sched_timeslice_control ops
          (mk_timeslice_control_decision_ctx expected u64_request_zero) in
    if u64_attempted (tcd_request decision) then
      let '(effective, result) := nv_gpu_timeslice_control_validate expected
            (tcd_input decision) kfifoRunlistGetMinTimeSlice (tcd_request decision) in
      if negb (is_apply result) then inr NV_ERR_INVALID_ARGUMENT else inl effective
    else inl params
  else inl params.

Definition kchangrpapiCtrlCmdSetTimeslice (env : control_env) (ops : option nv_gpu_sched_ops)
    (group : option KernelChannelGroup) (params : Z) : control_result :=
  match group with
  | None => mk_control_result group params [] NV_ERR_INVALID_OBJECT
  | Some kcg =>
      if negb (ce_class_found env) then mk_control_result group params [] NV_ERR_NOT_SUPPORTED
      else if IS_VIRTUAL (ce_gpu env) || IS_GSP_CLIENT (ce_gpu env) then
        match settimeslice_policy env ops kcg params with
        | inr status => mk_control_result group params [] status
        | inl sent =>
            let '(status, reply) := ce_rpc env (ce_cmd env) sent in
            mk_control_result
              (Some (if status =? NV_OK then kcg <| timesliceUs := reply |> else kcg))
              reply [(ce_cmd env, sent)] status
        end
      else
        let '(status, reply) := ce_physical env params in
        mk_control_result group reply [] status
  end.

Definition kchangrpapiCtrlCmdGetInfo (group : option KernelChannelGroup) (params : Z)
    : Z * NV_STATUS :=
  match group with
  | None => (params, NV_ERR_INVALID_OBJECT)
  | Some kcg => (grpID kcg, NV_OK)
  end.

Definition kchangrpapiCtrlCmdSetInterleaveLevel (env : control_env) (kcg : KernelChannelGroup)
    (level : Z) : control_result :=
  if negb (ce_class_found env) then mk_control_result (Some kcg) level [] NV_ERR_NOT_SUPPORTED
  else
    let remote := IS_VIRTUAL (ce_gpu env) || IS_GSP_CLIENT (ce_gpu env) in
    let rpcs := if remote then [(ce_cmd env, level)] else [] in
    let '(status, reply) := if remote then ce_rpc env (ce_cmd env) level else (NV_OK, level) in
    if negb (status =? NV_OK)
    then mk_control_result (Some kcg) reply rpcs NV_ERR_NOT_SUPPORTED
    else
      let '(kcg, status) := kchangrpSetInterleaveLevel (ce_gpu env) kcg reply in
      mk_control_result (Some kcg) reply rpcs status.

Definition kchangrpapiCtrlCmdGetInterleaveLevel (gpu : OBJGPU)
    (group : option KernelChannelGroup) (params : Z) : Z * NV_STATUS :=
  match group with
  | None => (params, NV_ERR_INVALID_OBJECT)
  | Some kcg => (interleave_of kcg (gpu_subdev gpu), NV_OK)
  end.

(** ** Destruction *)

Definition kchangrpDestruct (ops : option nv_gpu_sched_ops) (kcg : KernelChannelGroup)
    : nv_gpu_task_destroy_ctx :=
  nv_gpu_sched_task_destroy ops (mk_task_destroy_ctx (grpID kcg) (runlistId kcg) (engineType kcg)).

(** ** The schedule control: admission and runlist assignment *)

(** [tsg_header_supported] is the HAL query of the runlist.  The channel's
    group is the group being scheduled. *)
Definition kfifoRunlistSetId (tsg_header_supported : Z -> bool) (kcg : KernelChannelGroup)
    (chan : KernelChannel) (rl : Z) : KernelChannelGroup * KernelChannel * NV_STATUS :=
  if negb (rl =? ch_runlistId chan) && ch_runlist_set chan then (kcg, chan, NV_ERR_INVALID_STATE)
  else if negb (tsg_header_supported rl) && negb (bAllocatedByRm kcg)
  then (kcg, chan, NV_ERR_INVALID_STATE)
  else
    let chan' := mk_channel (ch_id chan) rl true (ch_schedulable chan) in
    if (chanCount kcg =? 1) || negb (bRunlistAssigned kcg) then
      (kcg <| runlistId := rl |> <| bRunlistAssigned := true |>, chan', NV_OK)
    else if negb (runlistId kcg =? rl) then (kcg, chan, NV_ERR_INVALID_STATE)
    else (kcg, chan', NV_OK).

(** The first walk: the runlist of the group, else of the first channel that
    has one. *)
Fixpoint schedule_pick_runlist (rl : Z) (chans : list KernelChannel) : Z :=
  match chans with
  | [] => rl
  | c :: rest =>
      schedule_pick_runlist
        (if ch_runlist_set c && (rl =? INVALID_RUNLIST_ID) then ch_runlistId c else rl) rest
  end.

(** The second walk: channels without a runlist get [rl]; the status of
    kfifoRunlistSetId is ignored, as in the source. *)
Fixpoint schedule_assign (supported : Z -> bool) (rl : Z) (kcg : KernelChannelGroup)
    (chans : list KernelChannel) : KernelChannelGroup * list KernelChannel :=
  match chans with
  | [] => (kcg, [])
  | c :: rest =>
      let '(kcg, c) :=
        if negb (ch_runlist_set c) then (kfifoRunlistSetId supported kcg c rl).1 else (kcg, c) in
      let '(kcg, rest) := schedule_assign supported rl kcg rest in
      (kcg, c :: rest)
  end.

Record schedule_env := mk_schedule_env {
  se_gpu : OBJGPU;
  se_class_found : bool;
  se_tsg_header_supported : Z -> bool;
  se_default_runlist : Z -> Z;
  se_submit : NV_STATUS;
}.

(** [se_submit] is the status of the control that follows (remote on a virtual
    GPU or a GSP client, internal otherwise); the list of Z says whether it
    was issued. *)
Definition kchangrpapiCtrlCmdGpFifoSchedule (env : schedule_env) (ops : option nv_gpu_sched_ops)
    (group : option KernelChannelGroup) : option KernelChannelGroup * bool * NV_STATUS :=
  match group with
  | None => (None, false, NV_ERR_INVALID_OBJECT)
  | Some kcg =>
      if negb (se_class_found env) then (Some kcg, false, NV_ERR_NOT_SUPPORTED)
      else
        let ctx := mk_bind_ctx (grpID kcg) (runlistId kcg) (chanCount kcg) (timesliceUs kcg)
              (interleave_of kcg (gpu_subdev (se_gpu env))) 1 in
        if bc_allow (nv_gpu_sched_bind ops ctx) =? 0 then (Some kcg, false, NV_ERR_BUSY_RETRY)
        else if negb (forallb ch_schedulable (pChanList kcg))
        then (Some kcg, false, NV_ERR_INVALID_STATE)
        else
          let rl := schedule_pick_runlist (runlistId kcg) (pChanList kcg) in
          let rl := if rl =? INVALID_RUNLIST_ID then se_default_runlist env (engineType kcg)
                    else rl in
          let kcg := kcg <| runlistId := rl |> in
          let '(kcg, chans) :=
            schedule_assign (se_tsg_header_supported env) rl kcg (pChanList kcg) in
          (Some (kcg <| pChanList := chans |>), true, se_submit env)
  end.

(** ** Theorems: the timeslice control *)

(** The context the control shows the policy. *)
Definition settimeslice_ctx (env : control_env) (kcg : KernelChannelGroup) (params : Z)
    : nv_gpu_timeslice_control_ctx :=
  mk_timeslice_control_ctx (grpID kcg) params (engineType kcg) (runlistId kcg) (ce_hClient env)
    (ce_hObject env) (gpuInstance (ce_gpu env)) NV_GPU_TIMESLICE_CONTROL_PHASE.

Definition settimeslice_values (env : control_env) (ops : option nv_gpu_sched_ops)
    (kcg : KernelChannelGroup) (params : Z) : list Z :=
  timeslice_control_values ops
    (mk_timeslice_control_decision_ctx (settimeslice_ctx env kcg params) u64_request_zero).

(** What the policy block sends on. *)
Lemma settimeslice_policy_spec env ops kcg params :
  IS_GSP_CLIENT (ce_gpu env) = true ->
  let vs := settimeslice_values env ops kcg params in
  (forall sent, settimeslice_policy env ops kcg params = inl sent <->
     (sent = params /\ (~ 1 <= params <= 1000000 \/ vs = []))
     \/ (1 <= params <= 1000000 /\ unanimous vs sent /\ 1 <= sent <= 1000000
         /\ ce_hClient env <> 0 /\ ce_hObject env <> 0))
  /\ (forall st, settimeslice_policy env ops kcg params = inr st -> st = NV_ERR_INVALID_ARGUMENT).
Proof.
  intros Hg vs. unfold settimeslice_policy. rewrite Hg. cbn [andb].
  fold (settimeslice_ctx env kcg params).
  set (e := settimeslice_ctx env kcg params).
  pose proof (timeslice_control_hook ops e) as Hh. cbv zeta in Hh.
  pose proof (fun x => timeslice_control_spec ops e kfifoRunlistGetMinTimeSlice x) as Hx.
  cbv zeta in Hx. rewrite Hh in *. cbn [tcd_request tcd_input] in *.
  change (timeslice_control_values ops (mk_timeslice_control_decision_ctx e u64_request_zero))
    with vs in *.
  pose proof (record_all_cases (R := nv_gpu_transition_u64_request_t) vs) as Hv. cbn in Hv.
  destruct (nv_gpu_timeslice_control_eligible params _) eqn:He;
    unfold nv_gpu_timeslice_control_eligible, NV_GPU_TIMESLICE_CONTROL_MAX_US,
      kfifoRunlistGetMinTimeSlice in He.
  - destruct (u64_attempted (record_all vs)) eqn:Ha.
    + destruct (nv_gpu_timeslice_control_validate _ _ _ _) as [eff res].
      assert (Hn : vs <> []) by naive_solver.
      unfold kfifoRunlistGetMinTimeSlice, NV_GPU_TIMESLICE_CONTROL_PHASE in Hx. cbn in Hx.
      unfold is_apply. destruct (bool_decide_reflect (res = NV_GPU_TRANSITION_APPLY)) as [->|Hr]; cbn.
      * split; [|done]. intros sent. destruct (Hx sent) as [Hs _]. split.
        -- intros [= ->]. right. destruct (proj1 Hs (conj eq_refl eq_refl)) as (?&?&_&?&?&?).
           split_and!; (done || lia).
        -- intros [[_ [?|?]]|(?&?&?&?&?)]; [lia|done|]. f_equal. apply Hs. split_and!; (done || lia).
      * split; [|by intros ? [= <-]]. intros sent. destruct (Hx sent) as [Hs _]. split; [done|].
        intros [[_ [?|?]]|(?&?&?&?&?)]; [lia|done|]. exfalso. apply Hr, Hs.
        split_and!; (done || lia).
    + assert (Hn : vs = []).
      { destruct Hv as [[? _]|[(Hne & _)|(_ & ? & _)]]; [done| |congruence].
        destruct (record_all_latch (R := nv_gpu_transition_u64_request_t) vs) as (Hat & _).
        cbn in Hat. rewrite Ha in Hat. symmetry in Hat. apply bool_decide_eq_false in Hat.
        destruct vs; [done|]. by destruct Hat. }
      rewrite Hn. unfold unanimous. split; [|done]. intros sent. split; [intros [= <-]; by auto|].
      intros [[-> _]|(_ & [[] _] & _)]; done.
  - split; [|done]. intros sent. split; [intros [= <-]; left; split; [done|left; lia]|].
    intros [[-> _]|[? _]]; [done|lia].
Qed.

(** C29: the timeslice control of a GSP client with a policy attached.  For
    every policy, with [vs] the values it asked for: the control sends exactly
    one remote control, carrying the requested timeslice when the request is
    outside [1, 1000000] or the policy asked for nothing, and the value [x] when
    all its calls ask for [x], [x] is in [1, 1000000] and both handles are
    non-zero; in every other case it sends nothing, changes nothing and returns
    INVALID_ARGUMENT.  The group's timeslice changes exactly when the firmware
    accepted the control, to the value that its reply has left in the parameter
    block, which is the value that was sent if the reply does not change it;
    nothing else of the group changes. *)
Theorem settimeslice_effect env ops kcg params :
  IS_GSP_CLIENT (ce_gpu env) = true -> ce_class_found env = true ->
  let vs := settimeslice_values env ops kcg params in
  let r := kchangrpapiCtrlCmdSetTimeslice env ops (Some kcg) params in
  (forall sent, cr_rpcs r = [(ce_cmd env, sent)] <->
     (sent = params /\ (~ 1 <= params <= 1000000 \/ vs = []))
     \/ (1 <= params <= 1000000 /\ unanimous vs sent /\ 1 <= sent <= 1000000
         /\ ce_hClient env <> 0 /\ ce_hObject env <> 0))
  /\ ((forall sent, cr_rpcs r <> [(ce_cmd env, sent)]) ->
      r = mk_control_result (Some kcg) params [] NV_ERR_INVALID_ARGUMENT)
  /\ (forall sent, cr_rpcs r = [(ce_cmd env, sent)] ->
      let '(status, reply) := ce_rpc env (ce_cmd env) sent in
      cr_params r = reply /\ cr_status r = status
      /\ cr_group r = Some (if status =? NV_OK then kcg <| timesliceUs := reply |> else kcg)).
Proof.
  intros Hg Hc vs. destruct (settimeslice_policy_spec env ops kcg params Hg) as [Hs He].
  fold vs in Hs. unfold kchangrpapiCtrlCmdSetTimeslice. rewrite Hc, Hg, orb_true_r. cbn [negb].
  destruct (settimeslice_policy env ops kcg params) as [x|st]; cbn.
  - destruct (ce_rpc env (ce_cmd env) x) as [status reply] eqn:Hrpc. cbn. split_and!.
    + intros sent. rewrite <- Hs. split; [by intros [= ->]|by intros [= ->]].
    + intros H. by destruct (H x).
    + intros sent [= <-]. by rewrite Hrpc.
  - split_and!.
    + intros sent. rewrite <- Hs. by split.
    + intros _. by rewrite (He st eq_refl).
    + by intros sent.
Qed.

(** A policy that stretches a 2000us request to 4000us, of which the firmware makes
    3900us. *)
Lemma settimeslice_effect_witness :
  let env := mk_control_env (mk_gpu 0 0 false true false) 1 2 NVA06C_CTRL_CMD_SET_TIMESLICE true
       (fun _ v => (NV_OK, v - 100)) (fun v => (NV_OK, v)) in
  let ops := Some (mk_sched_ops None None None
       (Some (fun _ => bpf_call (call_override_timeslice 4000) (fun _ => bpf_exit 0)))) in
  let kcg := mk_kcg 5 3 false false 1 1000 ∅ 0 7 [] false false in
  let r := kchangrpapiCtrlCmdSetTimeslice env ops (Some kcg) 2000 in
  cr_rpcs r = [(NVA06C_CTRL_CMD_SET_TIMESLICE, 4000)] /\ cr_group r = Some (kcg <| timesliceUs := 3900 |>).
Proof.
  intros env ops kcg r. destruct (settimeslice_effect env ops kcg 2000 eq_refl eq_refl) as (H1 & _ & H3).
  assert (Hr : cr_rpcs r = [(NVA06C_CTRL_CMD_SET_TIMESLICE, 4000)]).
  { apply H1. right. vm_compute. split_and!; try done. repeat constructor. }
  split; [exact Hr|]. exact (proj2 (proj2 (H3 4000 Hr))).
Defined.

(** ** Theorems: the schedule control *)

Definition schedule_bind_ctx (env : schedule_env) (kcg : KernelChannelGroup) : nv_gpu_bind_ctx :=
  mk_bind_ctx (grpID kcg) (runlistId kcg) (chanCount kcg) (timesliceUs kcg)
    (interleave_of kcg (gpu_subdev (se_gpu env))) 1.

Lemma schedule_bind_allow env ops kcg :
  bc_allow (nv_gpu_sched_bind ops (schedule_bind_ctx env kcg))
  = if decide (bind_calls ops (schedule_bind_ctx env kcg) = []) then 1 else 0.
Proof. by rewrite bind_hook. Qed.

(** Admission control.  A bind policy can veto a schedule request and
    nothing more: if it calls reject, the request fails with BUSY_RETRY before
    the group or the hardware is touched; if it does not, the request behaves
    as if no policy were attached. *)
Theorem schedule_policy_only_vetoes env ops kcg :
  let calls := bind_calls ops (schedule_bind_ctx env kcg) in
  (calls <> [] /\ se_class_found env = true ->
     kchangrpapiCtrlCmdGpFifoSchedule env ops (Some kcg) = (Some kcg, false, NV_ERR_BUSY_RETRY))
  /\ (calls = [] -> kchangrpapiCtrlCmdGpFifoSchedule env ops (Some kcg)
                   = kchangrpapiCtrlCmdGpFifoSchedule env None (Some kcg)).
Proof.
  cbn zeta. unfold kchangrpapiCtrlCmdGpFifoSchedule. fold (schedule_bind_ctx env kcg).
  rewrite !schedule_bind_allow. split.
  - intros [Hn ->]. by rewrite decide_False.
  - intros ->. by rewrite !decide_True.
Qed.

Lemma schedule_pick_valid rl chans :
  rl <> INVALID_RUNLIST_ID -> schedule_pick_runlist rl chans = rl.
Proof.
  intros Hrl. induction chans as [|c chans IH]; [done|]. cbn.
  by rewrite (proj2 (Z.eqb_neq _ _) Hrl), andb_false_r.
Qed.

Lemma schedule_pick_uniform r0 chans :
  r0 <> INVALID_RUNLIST_ID ->
  (forall c, c ∈ chans -> ch_runlist_set c = true -> ch_runlistId c = r0) ->
  schedule_pick_runlist INVALID_RUNLIST_ID chans
  = if existsb ch_runlist_set chans then r0 else INVALID_RUNLIST_ID.
Proof.
  intros Hr. induction chans as [|c chans IH]; intros Hu; [done|]. cbn.
  destruct (ch_runlist_set c) eqn:Hc; cbn.
  - rewrite Hu by (set_solver || done). by apply schedule_pick_valid.
  - apply IH. intros c' Hc'. apply Hu. set_solver.
Qed.

Lemma schedule_assign_spec supported rl kcg chans :
  runlistId kcg = rl -> supported rl || bAllocatedByRm kcg = true ->
  let '(kcg', chans') := schedule_assign supported rl kcg chans in
  runlistId kcg' = rl
  /\ Forall2 (fun c c' => ch_id c' = ch_id c /\ ch_runlist_set c' = true
       /\ ch_runlistId c' = if ch_runlist_set c then ch_runlistId c else rl) chans chans'.
Proof.
  revert kcg. induction chans as [|c chans IH]; intros kcg Hk Hs; cbn; [by split|].
  assert (Hstep : exists kcg1 c1, (if negb (ch_runlist_set c)
      then (kfifoRunlistSetId supported kcg c rl).1 else (kcg, c)) = (kcg1, c1)
      /\ runlistId kcg1 = rl /\ bAllocatedByRm kcg1 = bAllocatedByRm kcg
      /\ ch_id c1 = ch_id c /\ ch_runlist_set c1 = true
      /\ ch_runlistId c1 = if ch_runlist_set c then ch_runlistId c else rl).
  { unfold kfifoRunlistSetId. destruct (ch_runlist_set c) eqn:Hc; cbn; [by eexists _, _|].
    rewrite andb_false_r, Hk, Z.eqb_refl.
    destruct (supported rl), (bAllocatedByRm kcg) eqn:?; try done; cbn;
      destruct ((chanCount kcg =? 1) || _); (eexists _, _; split_and!; try done; congruence). }
  destruct Hstep as (kcg1 & c1 & -> & Hk1 & Hb1 & Hc1).
  specialize (IH kcg1 Hk1). rewrite Hb1 in IH. specialize (IH Hs).
  destruct (schedule_assign supported rl kcg1 chans) as [kcg2 rest]. destruct IH as [? ?].
  split; [done|]. by constructor.
Qed.

(** Scheduling puts a group on one runlist.  If the channels that already
    have a runlist agree on [r0] and the group has no runlist or [r0], then
    after a schedule request that reached the hardware every channel has a
    runlist, all of them the group's, provided that runlist supports groups
    (or the driver itself allocated the group). *)
Theorem schedule_unifies_runlists env ops kcg kcg' st r0 :
  kchangrpapiCtrlCmdGpFifoSchedule env ops (Some kcg) = (Some kcg', true, st) ->
  r0 <> INVALID_RUNLIST_ID ->
  (forall c, c ∈ pChanList kcg -> ch_runlist_set c = true -> ch_runlistId c = r0) ->
  runlistId kcg = INVALID_RUNLIST_ID \/ runlistId kcg = r0 ->
  bAllocatedByRm kcg = true \/ (forall rl, se_tsg_header_supported env rl = true) ->
  Forall (fun c => ch_runlist_set c = true /\ ch_runlistId c = runlistId kcg') (pChanList kcg')
  /\ ch_id <$> pChanList kcg' = ch_id <$> pChanList kcg.
Proof.
  unfold kchangrpapiCtrlCmdGpFifoSchedule. intros Hrun Hr0 Hu Hk Hs.
  destruct (negb (se_class_found env)); [done|]. destruct (bc_allow _ =? 0); [done|].
  destruct (negb (forallb _ _)); [done|].
  set (rl := if schedule_pick_runlist _ _ =? INVALID_RUNLIST_ID then _ else _) in Hrun.
  set (k1 := kcg <| runlistId := rl |>) in Hrun.
  change (pChanList k1) with (pChanList kcg) in Hrun.
  pose proof (schedule_assign_spec (se_tsg_header_supported env) rl k1 (pChanList kcg) eq_refl) as Ha.
  cbn [bAllocatedByRm k1] in Ha.
  destruct (schedule_assign (se_tsg_header_supported env) rl k1 (pChanList kcg)) as [k2 chans].
  destruct Ha as [Hrl Hf]; [cbn; destruct Hs as [-> | ->]; [apply orb_true_r|done]|].
  injection Hrun as <- _. cbn.
  assert (Hset : forall c, c ∈ pChanList kcg -> ch_runlist_set c = true -> rl = r0).
  { intros c Hin Hc. unfold rl. assert (Hex : existsb ch_runlist_set (pChanList kcg) = true)
      by (apply existsb_exists; exists c; split; [by apply list_elem_of_In|done]).
    destruct Hk as [->| ->];
      [rewrite (schedule_pick_uniform r0), Hex by done | rewrite schedule_pick_valid by done];
      by rewrite (proj2 (Z.eqb_neq _ _) Hr0). }
  split.
  - clear Hs. rewrite Hrl. clear Hrl. revert Hu Hset Hf. generalize (pChanList kcg).
    intros l Hu Hset Hf. induction Hf as [|c c' l l' (? & ? & Hc) ? IH]; constructor.
    + split; [done|]. rewrite Hc. destruct (ch_runlist_set c) eqn:Hcs; [|done].
      rewrite (Hu c), (Hset c); set_solver.
    + apply IH; intros; [apply Hu|eapply Hset]; set_solver.
  - clear -Hf. induction Hf as [|c c' l l' (? & _) ? IH]; cbn; congruence.
Qed.

Lemma schedule_unifies_runlists_witness :
  let kcg := mk_kcg 5 INVALID_RUNLIST_ID false false 1 1000 ∅ 2 7
    [mk_channel 1 0 false true; mk_channel 2 4 true true] false false in
  let env := mk_schedule_env (mk_gpu 0 0 false true false) true (fun _ => true) (fun _ => 0) NV_OK in
  Forall (fun c => ch_runlist_set c = true /\ ch_runlistId c = 4)
    (pChanList (default kcg (kchangrpapiCtrlCmdGpFifoSchedule env None (Some kcg)).1.1)).
Proof.
  cbn zeta.
  set (kcg := mk_kcg _ _ _ _ _ _ _ _ _ _ _ _). set (env := mk_schedule_env _ _ _ _ _).
  destruct (schedule_unifies_runlists env None kcg
    (default kcg (kchangrpapiCtrlCmdGpFifoSchedule env None (Some kcg)).1.1) NV_OK 4) as [H _];
    [reflexivity|done| |by left|by right|exact H].
  intros c Hc. repeat (apply elem_of_cons in Hc as [->|Hc]); [done..|by apply elem_of_nil in Hc].
Defined.
