(* ===== verification/GpreemptTransport.v ===== *)
(** * The GPreempt transport

    Model of kernel-open/common/inc/nv-gpreempt-transport.h and of
    RmGPreemptTransport (src/nvidia/arch/nvalloc/unix/src/escape.c) with its
    escape dispatch: the query that finds the one channel group a thread of the
    calling process created, and the endpoint that sets its timeslice.

    The client database is a list of clients with their resources in iteration
    order.  User copies, locks, process identity and the resource manager's
    control path are answered by [transport_env]; the effects of a call are a
    trace of events.  A retained process object is identified by a non-zero
    number, as a pointer is. *)

From S2P Require Import Prelude ChannelGroup.

Definition NV_GPREEMPT_V1_SET_TIMESLICE : Z := 0x00010001.
Definition NV_GPREEMPT_SET_TIMESLICE_CMD : Z := 0xa06c0103.
Definition NV_GPREEMPT_MAX_CHANNELS : Z := 64.

Inductive gpreempt_op :=
| NV_GPREEMPT_INVALID
| NV_GPREEMPT_QUERY
| NV_GPREEMPT_SET_TIMESLICE.
#[export] Instance gpreempt_op_eq_dec : EqDecision gpreempt_op.
Proof. solve_decision. Defined.

Definition nv_gpreempt_operation (flags cmd hClient hObject : Z) (hasParams : bool)
    (paramsSize channelsSize : Z) : gpreempt_op :=
  if (hClient =? 0) || negb hasParams then NV_GPREEMPT_INVALID
  else if (flags =? 0) && (cmd =? 0) && (hObject =? 0) && (paramsSize =? channelsSize)
  then NV_GPREEMPT_QUERY
  else if (flags =? NV_GPREEMPT_V1_SET_TIMESLICE) && (cmd =? NV_GPREEMPT_SET_TIMESLICE_CMD)
          && negb (hObject =? 0) && (paramsSize =? 8)
  then NV_GPREEMPT_SET_TIMESLICE
  else NV_GPREEMPT_INVALID.

Definition nv_gpreempt_owned_user (currentPidInfo ownerPidInfo : Z) (isUserClient : bool) : bool :=
  isUserClient && negb (currentPidInfo =? 0) && (currentPidInfo =? ownerPidInfo).

Definition nv_gpreempt_timeslice_allowed (value : Z) : bool := (value =? 1) || (value =? 1000000).

Definition nv_gpreempt_channel_slot_available (count : Z) : bool := count <? NV_GPREEMPT_MAX_CHANNELS.

Definition nv_gpreempt_add_unique_match (matches : Z) : Z * bool :=
  if negb (matches =? 0) then (2, false) else (1, true).

Definition nv_gpreempt_query_complete (matches channels : Z) : bool :=
  (matches =? 1) && (0 <? channels) && (channels <=? NV_GPREEMPT_MAX_CHANNELS).

(** ** The database and the request *)

(** A resource of class KernelChannelGroupApi: its handle, its group if any,
    the thread that created it, and its KernelChannel children. *)
Record group_api := mk_group_api {
  ga_hResource : Z;
  ga_group : option KernelChannelGroup;
  gpreemptCreatorThreadId : Z;
  ga_gsp_client : bool;
  ga_channels : list Z;
}.

Record RmClient := mk_client {
  cl_hClient : Z;
  cl_pOsPidInfo : Z;
  cl_user : bool;
  cl_groups : list group_api;
}.

Record NVOS54_PARAMETERS := mk_nvos54 {
  api_hClient : Z;
  api_hObject : Z;
  api_cmd : Z;
  api_flags : Z;
  api_params : Z;
  api_paramsSize : Z;
}.
#[export] Instance eta_nvos54 : Settable NVOS54_PARAMETERS := fun x =>
  mk_nvos54 (api_hClient x) (api_hObject x) (api_cmd x) (api_flags x) (api_params x)
    (api_paramsSize x).

Inductive transport_event :=
| te_lock_api | te_unlock_api | te_lock_gpus | te_unlock_gpus
| te_control (hClient hObject cmd timeslice : Z)
| te_copy_out (hClients hChannels : list Z).

Record transport_env := mk_transport_env {
  env_channels_size : Z;
  env_copy_in : NV_STATUS * Z;
  env_pidInfo : Z;
  env_api_lock : NV_STATUS;
  env_gpu_lock : NV_STATUS;
  env_clients : list RmClient;
  env_control : Z -> Z -> Z -> NV_STATUS;
  env_copy_out : NV_STATUS;
}.

(** ** The scan

    [scan_go] continues with the variables; [scan_stop] is [goto unlock_gpu]. *)
Record scan_vars := mk_scan {
  sv_matches : Z;
  selectedClient : Z;
  selectedObject : Z;
  channels : list (Z * Z);
}.
Definition scan_zero : scan_vars := mk_scan 0 0 0 [].

Inductive scan_result :=
| scan_go (v : scan_vars)
| scan_stop (v : scan_vars) (status : NV_STATUS) (evs : list transport_event).

(** The child loop: one slot per channel of the selected group. *)
Fixpoint scan_channels (v : scan_vars) (chs : list Z) : scan_result :=
  match chs with
  | [] => scan_go v
  | ch :: rest =>
      if negb (nv_gpreempt_channel_slot_available (Z.of_nat (length (channels v))))
      then scan_stop v NV_ERR_BUFFER_TOO_SMALL []
      else scan_channels (mk_scan (sv_matches v) (selectedClient v) (selectedObject v)
                            (channels v ++ [(selectedClient v, ch)])) rest
  end.

Section scan.
Context (env : transport_env) (operation : gpreempt_op)
  (requestedClient requestedObject timeslice : Z).

Definition scan_group (hClient : Z) (v : scan_vars) (g : group_api) : scan_result :=
  match ga_group g with
  | None => scan_go v
  | Some kcg =>
      if negb (RM_ENGINE_TYPE_IS_GR (engineType kcg)) then scan_go v
      else if bool_decide (operation = NV_GPREEMPT_SET_TIMESLICE) then
        if negb (ga_hResource g =? requestedObject) then scan_go v
        else if negb (ga_gsp_client g) then scan_stop v NV_ERR_NOT_SUPPORTED []
        else scan_stop v (env_control env requestedClient requestedObject timeslice)
               [te_control requestedClient requestedObject NVA06C_CTRL_CMD_SET_TIMESLICE timeslice]
      else if negb (gpreemptCreatorThreadId g =? requestedClient) then scan_go v
      else
        let '(matches, unique) := nv_gpreempt_add_unique_match (sv_matches v) in
        if negb unique
        then scan_stop (mk_scan matches (selectedClient v) (selectedObject v) (channels v))
               NV_ERR_INVALID_STATE []
        else scan_channels (mk_scan matches hClient (ga_hResource g) (channels v)) (ga_channels g)
  end.

Fixpoint scan_groups (hClient : Z) (v : scan_vars) (gs : list group_api) : scan_result :=
  match gs with
  | [] => scan_go v
  | g :: rest =>
      match scan_group hClient v g with
      | scan_go v => scan_groups hClient v rest
      | stop => stop
      end
  end.

Definition scan_client (v : scan_vars) (c : RmClient) : scan_result :=
  if negb (nv_gpreempt_owned_user (env_pidInfo env) (cl_pOsPidInfo c) (cl_user c)) then scan_go v
  else if bool_decide (operation = NV_GPREEMPT_SET_TIMESLICE)
          && negb (cl_hClient c =? requestedClient) then scan_go v
  else scan_groups (cl_hClient c) v (cl_groups c).

Fixpoint scan_clients (v : scan_vars) (cs : list RmClient) : scan_result :=
  match cs with
  | [] => scan_go v
  | c :: rest =>
      match scan_client v c with
      | scan_go v => scan_clients v rest
      | stop => stop
      end
  end.
End scan.

(** ** The transport *)

Definition RmGPreemptTransport (env : transport_env) (pApi : NVOS54_PARAMETERS)
    : NVOS54_PARAMETERS * list transport_event * NV_STATUS :=
  let requestedClient := api_hClient pApi in
  let requestedObject := api_hObject pApi in
  let operation := nv_gpreempt_operation (api_flags pApi) (api_cmd pApi) requestedClient
        requestedObject (negb (api_params pApi =? 0)) (api_paramsSize pApi)
        (env_channels_size env) in
  let pApi := if api_flags pApi =? 0 then pApi <| api_hClient := 0 |> <| api_hObject := 0 |>
              else pApi in
  if bool_decide (operation = NV_GPREEMPT_INVALID) then (pApi, [], NV_ERR_INVALID_ARGUMENT)
  else
    let set := bool_decide (operation = NV_GPREEMPT_SET_TIMESLICE) in
    let '(copied, timeslice) := if set then env_copy_in env else (NV_OK, 0) in
    if negb (copied =? NV_OK) then (pApi, [], copied)
    else if set && negb (nv_gpreempt_timeslice_allowed timeslice)
    then (pApi, [], NV_ERR_INVALID_ARGUMENT)
    else if env_pidInfo env =? 0 then (pApi, [], NV_ERR_INSUFFICIENT_PERMISSIONS)
    else if negb (env_api_lock env =? NV_OK) then (pApi, [], env_api_lock env)
    else if negb (env_gpu_lock env =? NV_OK)
    then (pApi, [te_lock_api; te_unlock_api], env_gpu_lock env)
    else
      let '(v, status, evs) :=
        match scan_clients env operation requestedClient requestedObject timeslice scan_zero
                (env_clients env) with
        | scan_stop v status evs => (v, status, evs)
        | scan_go v =>
            (v, if bool_decide (operation = NV_GPREEMPT_QUERY)
                   && nv_gpreempt_query_complete (sv_matches v) (Z.of_nat (length (channels v)))
                then NV_OK else NV_ERR_OBJECT_NOT_FOUND, [])
        end in
      let trace := [te_lock_api; te_lock_gpus] ++ evs ++ [te_unlock_gpus; te_unlock_api] in
      if (status =? NV_OK) && bool_decide (operation = NV_GPREEMPT_QUERY) then
        let trace := trace ++ [te_copy_out (channels v).*1 (channels v).*2] in
        if env_copy_out env =? NV_OK then
          (pApi <| api_hClient := selectedClient v |> <| api_hObject := selectedObject v |>,
           trace, NV_OK)
        else (pApi, trace, env_copy_out env)
      else (pApi, trace, status).

(** The escape: only with the exact structure, only on the control device.
    The last two components are the status written to the structure, if any,
    and the status of the ioctl. *)
Definition escape_query_group (env : transport_env) (control_device : bool)
    (dataSize structSize : Z) (pApi : NVOS54_PARAMETERS)
    : NVOS54_PARAMETERS * list transport_event * option NV_STATUS * NV_STATUS :=
  if negb (dataSize =? structSize) then (pApi, [], None, NV_ERR_INVALID_ARGUMENT)
  else if negb control_device then (pApi, [], Some NV_ERR_INVALID_ARGUMENT, NV_ERR_INVALID_ARGUMENT)
  else
    let '(pApi, evs, status) := RmGPreemptTransport env pApi in (pApi, evs, Some status, NV_OK).

(** ** The set endpoint is authorised *)

(** A user client of the calling process, which is identified. *)
Definition owned (env : transport_env) (c : RmClient) : bool :=
  cl_user c && negb (env_pidInfo env =? 0) && (env_pidInfo env =? cl_pOsPidInfo c).

Lemma owned_user_owned env c :
  nv_gpreempt_owned_user (env_pidInfo env) (cl_pOsPidInfo c) (cl_user c) = owned env c.
Proof. done. Qed.
Definition is_gr_group (g : group_api) : bool :=
  match ga_group g with Some kcg => RM_ENGINE_TYPE_IS_GR (engineType kcg) | None => false end.

(** A control event names an object the caller owns. *)
Definition authorized (env : transport_env) (pApi : NVOS54_PARAMETERS) (e : transport_event) : Prop :=
  match e with
  | te_control hClient hObject cmd ts =>
      hClient = api_hClient pApi /\ hObject = api_hObject pApi
      /\ cmd = NVA06C_CTRL_CMD_SET_TIMESLICE /\ (ts = 1 \/ ts = 1000000)
      /\ api_flags pApi = NV_GPREEMPT_V1_SET_TIMESLICE
      /\ exists c g, c ∈ env_clients env /\ owned env c = true /\ cl_hClient c = hClient
           /\ g ∈ cl_groups c /\ ga_hResource g = hObject /\ is_gr_group g = true
           /\ ga_gsp_client g = true
  | _ => True
  end.

Definition is_control (e : transport_event) : bool :=
  match e with te_control _ _ _ _ => true | _ => false end.

(** Locks are taken and released in nested order, controls are issued under
    both, and user memory is written under neither. *)
Fixpoint locks_ok (api gpus : bool) (tr : list transport_event) : bool :=
  match tr with
  | [] => negb api && negb gpus
  | te_lock_api :: rest => negb api && negb gpus && locks_ok true gpus rest
  | te_lock_gpus :: rest => api && negb gpus && locks_ok api true rest
  | te_unlock_gpus :: rest => api && gpus && locks_ok api false rest
  | te_unlock_api :: rest => api && negb gpus && locks_ok false gpus rest
  | te_control _ _ _ _ :: rest => api && gpus && locks_ok api gpus rest
  | te_copy_out _ _ :: rest => negb api && negb gpus && locks_ok api gpus rest
  end.

(** Where a stop of the scan comes from. *)
Definition stop_ok (env : transport_env) (op : gpreempt_op) (rc ro ts : Z)
    (c : RmClient) (g : group_api) (evs : list transport_event) : Prop :=
  evs = []
  \/ (evs = [te_control rc ro NVA06C_CTRL_CMD_SET_TIMESLICE ts]
      /\ op = NV_GPREEMPT_SET_TIMESLICE /\ owned env c = true /\ cl_hClient c = rc
      /\ ga_hResource g = ro /\ is_gr_group g = true /\ ga_gsp_client g = true).

Lemma scan_channels_stop v chs v' st evs :
  scan_channels v chs = scan_stop v' st evs -> evs = [] /\ st = NV_ERR_BUFFER_TOO_SMALL.
Proof.
  revert v. induction chs as [|ch chs IH]; intros v; cbn; [done|].
  destruct (negb _); [by intros [= <- <- <-]|apply IH].
Qed.

Lemma scan_clients_stop env op rc ro ts v cs v' st evs :
  scan_clients env op rc ro ts v cs = scan_stop v' st evs ->
  evs = [] \/ exists c g, c ∈ cs /\ g ∈ cl_groups c /\ stop_ok env op rc ro ts c g evs.
Proof.
  revert v. induction cs as [|c cs IH]; intros v; cbn; [done|].
  destruct (scan_client env op rc ro ts v c) as [v1|v1 st1 evs1] eqn:Hc.
  { intros [?|(c' & g & ? & ?)]%IH; [by left|]. right. exists c', g. set_solver. }
  intros [= -> -> ->]. clear IH. unfold scan_client in Hc. rewrite owned_user_owned in Hc.
  destruct (owned env c) eqn:Ho; [|done]. cbn in Hc.
  destruct (bool_decide (op = NV_GPREEMPT_SET_TIMESLICE) && _) eqn:Hset; [done|].
  assert (Hg : evs = [] \/ exists g, g ∈ cl_groups c /\ stop_ok env op rc ro ts c g evs).
  { revert v Hc. generalize (cl_groups c) as gs. induction gs as [|g gs IHg]; intros v; cbn; [done|].
    destruct (scan_group env op rc ro ts (cl_hClient c) v g) as [v2|v2 st2 evs2] eqn:Hsg.
    { intros [?|(g' & ? & ?)]%IHg; [by left|]. right. exists g'. set_solver. }
    intros [= -> -> ->]. unfold scan_group in Hsg.
    destruct (ga_group g) as [kcg|] eqn:Hgg; [|done].
    destruct (RM_ENGINE_TYPE_IS_GR (engineType kcg)) eqn:Hgr; [|done]. cbn in Hsg.
    case_bool_decide as Hop.
    - destruct (ga_hResource g =? ro) eqn:Hro; [|done]. cbn in Hsg.
      destruct (ga_gsp_client g) eqn:Hgsp; cbn in Hsg; simplify_eq; [|by left].
      right. exists g. split; [set_solver|]. right. cbn in Hset.
      split_and!; try done; [lia..|]. unfold is_gr_group. by rewrite Hgg.
    - destruct (gpreemptCreatorThreadId g =? rc); [|done]. cbn in Hsg.
      destruct (nv_gpreempt_add_unique_match _) as [m u].
      destruct (negb u); [simplify_eq; by left|].
      left. by apply scan_channels_stop in Hsg as [-> _]. }
  destruct Hg as [?|(g & ? & ?)]; [by left|]. right. exists c, g. set_solver.
Qed.

Lemma operation_set flags cmd hc ho hp ps cs :
  nv_gpreempt_operation flags cmd hc ho hp ps cs = NV_GPREEMPT_SET_TIMESLICE ->
  flags = NV_GPREEMPT_V1_SET_TIMESLICE.
Proof. unfold nv_gpreempt_operation. nv_cases. Qed.

Ltac plain_trace :=
  split_and!; [repeat (constructor; [done|])|vm_compute; lia|done]; try constructor; try done.

(** C11: the timeslice endpoint is authorised.  Whatever the client database
    and the request, the transport issues at most one control; it is the fixed
    SET_TIMESLICE command with the value 1 or 1000000, on the client and object
    the caller named, and that object is a graphics channel group of a user
    client that belongs to the calling process; locks are balanced, the control
    is issued under both and user memory is written under neither. *)
Theorem transport_authorized env pApi :
  let '(_, tr, _) := RmGPreemptTransport env pApi in
  Forall (authorized env pApi) tr
  /\ (length (filter is_control tr) <= 1)%nat
  /\ locks_ok false false tr = true.
Proof.
  unfold RmGPreemptTransport.
  set (op := nv_gpreempt_operation _ _ _ _ _ _ _).
  set (api := if api_flags pApi =? 0 then _ else pApi).
  case_bool_decide as Hinv; [plain_trace|].
  destruct (if bool_decide (op = NV_GPREEMPT_SET_TIMESLICE) then env_copy_in env else _)
    as [copied ts] eqn:Hts.
  destruct (negb (copied =? NV_OK)); [plain_trace|].
  destruct (bool_decide _ && negb (nv_gpreempt_timeslice_allowed ts)) eqn:Hal; [plain_trace|].
  destruct (env_pidInfo env =? 0); [plain_trace|].
  destruct (negb (env_api_lock env =? NV_OK)); [plain_trace|].
  destruct (negb (env_gpu_lock env =? NV_OK)); [plain_trace|].
  assert (Hevs : forall v st evs, match scan_clients env op (api_hClient pApi) (api_hObject pApi) ts
      scan_zero (env_clients env) with
      | scan_stop v' st' evs' => (v', st', evs')
      | scan_go v' => (v', if bool_decide (op = NV_GPREEMPT_QUERY)
          && nv_gpreempt_query_complete (sv_matches v') (Z.of_nat (length (channels v')))
          then NV_OK else NV_ERR_OBJECT_NOT_FOUND, [])
      end = (v, st, evs) ->
      evs = [] \/ exists e, evs = [e] /\ authorized env pApi e
        /\ exists a b c d, e = te_control a b c d).
  { intros v st evs. destruct (scan_clients _ _ _ _ _ _ _) as [v1|v1 st1 evs1] eqn:Hsc;
      intros [= <- <- <-]; [by left|].
    apply scan_clients_stop in Hsc as [?|(c & g & Hc & Hg & [?|(-> & Hop & ? & ? & ? & ? & ?)])];
      [by left..|right].
    eexists. split_and!; [reflexivity| |by eexists _, _, _, _]. cbn.
    split_and!; [done..| | |by exists c, g].
    - rewrite Hop, bool_decide_true in Hal by done. unfold nv_gpreempt_timeslice_allowed in Hal.
      cbn in Hal. lia.
    - by eapply operation_set. }
  match type of Hevs with forall v st evs, ?m = _ -> _ => destruct m as [[v st] evs] end.
  destruct (Hevs _ _ _ eq_refl) as [->|(e & -> & Ha & (a & b & c & d & ->))];
    destruct ((st =? NV_OK) && _); [destruct (env_copy_out env =? NV_OK)| |
      destruct (env_copy_out env =? NV_OK)|]; plain_trace.
Qed.

(** ** The query finds the one group of a thread *)

(** Reference definition: every group of class GR that the thread [tid]
    created and a client of the calling process owns, with its client. *)
Definition thread_groups (env : transport_env) (tid : Z) : list (Z * group_api) :=
  flat_map (fun c => if owned env c
      then (pair (cl_hClient c))
             <$> List.filter (fun g => is_gr_group g && (gpreemptCreatorThreadId g =? tid)) (cl_groups c)
      else []) (env_clients env).

(** The scan as a walk over these groups. *)
Fixpoint scan_matches (v : scan_vars) (ms : list (Z * group_api)) : scan_result :=
  match ms with
  | [] => scan_go v
  | (hClient, g) :: rest =>
      match
        (if negb (sv_matches v =? 0)
         then scan_stop (mk_scan 2 (selectedClient v) (selectedObject v) (channels v))
                NV_ERR_INVALID_STATE []
         else scan_channels (mk_scan 1 hClient (ga_hResource g) (channels v)) (ga_channels g))
      with
      | scan_go v => scan_matches v rest
      | stop => stop
      end
  end.

Lemma scan_matches_app v ms ms' :
  scan_matches v (ms ++ ms')
  = match scan_matches v ms with scan_go v => scan_matches v ms' | stop => stop end.
Proof.
  revert v. induction ms as [|[hc g] ms IH]; intros v; cbn; [done|].
  destruct (if negb _ then _ else _); [apply IH|done].
Qed.

Lemma scan_query_matches env tid ro ts v cs :
  scan_clients env NV_GPREEMPT_QUERY tid ro ts v cs
  = scan_matches v (flat_map (fun c => if owned env c
      then (pair (cl_hClient c))
             <$> List.filter (fun g => is_gr_group g && (gpreemptCreatorThreadId g =? tid)) (cl_groups c)
      else []) cs).
Proof.
  revert v. induction cs as [|c cs IH]; intros v; cbn; [done|].
  rewrite scan_matches_app. unfold scan_client. rewrite owned_user_owned.
  destruct (owned env c); cbn; [|apply IH].
  assert (Hg : forall gs v, scan_groups env NV_GPREEMPT_QUERY tid ro ts (cl_hClient c) v gs
    = scan_matches v ((pair (cl_hClient c))
        <$> List.filter (fun g => is_gr_group g && (gpreemptCreatorThreadId g =? tid)) gs)).
  { clear. induction gs as [|g gs IH]; intros v; cbn; [done|].
    unfold scan_group, is_gr_group. destruct (ga_group g) as [kcg|]; [|apply IH].
    destruct (RM_ENGINE_TYPE_IS_GR (engineType kcg)); cbn; [|apply IH].
    destruct (gpreemptCreatorThreadId g =? tid); cbn; [|apply IH].
    unfold nv_gpreempt_add_unique_match. destruct (sv_matches v =? 0); cbn; [|done].
    destruct (scan_channels _ _); [apply IH|done]. }
  rewrite Hg. destruct (scan_matches v _); [apply IH|done].
Qed.

Lemma scan_channels_go v chs :
  (length (channels v) + length chs <= 64)%nat ->
  scan_channels v chs
  = scan_go (mk_scan (sv_matches v) (selectedClient v) (selectedObject v)
               (channels v ++ (pair (selectedClient v) <$> chs))).
Proof.
  revert v. induction chs as [|ch chs IH]; intros v; cbn; intros Hl.
  - rewrite app_nil_r. by destruct v.
  - unfold nv_gpreempt_channel_slot_available, NV_GPREEMPT_MAX_CHANNELS.
    rewrite (proj2 (Z.ltb_lt _ _)) by lia. cbn. rewrite IH; cbn.
    + by rewrite <- app_assoc.
    + rewrite length_app. cbn. lia.
Qed.

Lemma scan_channels_full v chs :
  (length (channels v) <= 64 < length (channels v) + length chs)%nat ->
  exists v', scan_channels v chs = scan_stop v' NV_ERR_BUFFER_TOO_SMALL [].
Proof.
  revert v. induction chs as [|ch chs IH]; intros v; cbn; intros Hl; [lia|].
  unfold nv_gpreempt_channel_slot_available, NV_GPREEMPT_MAX_CHANNELS.
  destruct (Z.ltb_spec (Z.of_nat (length (channels v))) 64); cbn; [|by eexists].
  apply IH. cbn. rewrite length_app. cbn. lia.
Qed.

(** What the scan concludes from the list of the thread's groups. *)
Lemma scan_matches_result ms :
  match scan_matches scan_zero ms with
  | scan_go v =>
      (nv_gpreempt_query_complete (sv_matches v) (Z.of_nat (length (channels v))) = true <->
       exists hc g, ms = [(hc, g)] /\ (1 <= length (ga_channels g) <= 64)%nat)
      /\ (forall hc g, ms = [(hc, g)] ->
          v = mk_scan 1 hc (ga_hResource g) (pair hc <$> ga_channels g))
  | scan_stop _ st _ =>
      st <> NV_OK /\ ~ exists hc g, ms = [(hc, g)] /\ (1 <= length (ga_channels g) <= 64)%nat
  end.
Proof.
  destruct ms as [|[hc g] ms]; cbn.
  { split; [split; [done|naive_solver]|done]. }
  destruct (decide (length (ga_channels g) <= 64)%nat) as [Hle|Hgt].
  - rewrite scan_channels_go by (cbn; lia). cbn. destruct ms as [|[hc' g'] ms]; cbn.
    + unfold nv_gpreempt_query_complete, NV_GPREEMPT_MAX_CHANNELS. cbn. rewrite length_fmap.
      split; [|by intros hc' g' [= -> ->]]. split.
      * intros Hq. exists hc, g. split; [done|]. lia.
      * intros (hc' & g' & [= -> ->] & ?). lia.
    + split; [done|]. by intros (? & ? & ? & _).
  - destruct (scan_channels_full (mk_scan 1 hc (ga_hResource g) []) (ga_channels g)) as [v ->];
      [cbn; lia|]. split; [done|]. intros (hc' & g' & ? & ?). simplify_eq. lia.
Qed.

Definition copies (tr : list transport_event) : list (list Z * list Z) :=
  omap (fun e => match e with te_copy_out a b => Some (a, b) | _ => None end) tr.

(** C32: the query names exactly one group or none.  With the locks, the process
    identity and the user copy available, a query for the thread [tid]
    succeeds if and only if the calling process owns exactly one graphics
    channel group created by that thread and the group has between 1 and 64
    channels; then it returns that group's client and object and copies out its
    channels, each with its client.  Otherwise the returned handles are zero
    and nothing is copied to the user. *)
Theorem query_exact env tid params :
  tid <> 0 -> params <> 0 -> env_pidInfo env <> 0 ->
  env_api_lock env = NV_OK -> env_gpu_lock env = NV_OK -> env_copy_out env = NV_OK ->
  let '(api, tr, status) := RmGPreemptTransport env
        (mk_nvos54 tid 0 0 0 params (env_channels_size env)) in
  (status = NV_OK <->
     exists hc g, thread_groups env tid = [(hc, g)] /\ (1 <= length (ga_channels g) <= 64)%nat)
  /\ (forall hc g, status = NV_OK -> thread_groups env tid = [(hc, g)] ->
      api_hClient api = hc /\ api_hObject api = ga_hResource g
      /\ copies tr = [(replicate (length (ga_channels g)) hc, ga_channels g)])
  /\ (status <> NV_OK -> api_hClient api = 0 /\ api_hObject api = 0 /\ copies tr = []).
Proof.
  intros Ht Hp Hpid Ha Hg Hco. unfold RmGPreemptTransport, nv_gpreempt_operation.
  cbn [api_hClient api_hObject api_cmd api_flags api_params api_paramsSize].
  rewrite (proj2 (Z.eqb_neq _ _) Ht), (proj2 (Z.eqb_neq _ _) Hp), (proj2 (Z.eqb_neq _ _) Hpid),
    !Z.eqb_refl, Ha, Hg, Hco. cbn.
  change (bool_decide (NV_GPREEMPT_QUERY = NV_GPREEMPT_INVALID)) with false.
  change (bool_decide (NV_GPREEMPT_QUERY = NV_GPREEMPT_SET_TIMESLICE)) with false.
  change (bool_decide (NV_GPREEMPT_QUERY = NV_GPREEMPT_QUERY)) with true. cbn.
  rewrite scan_query_matches. fold (thread_groups env tid).
  pose proof (scan_matches_result (thread_groups env tid)) as Hm.
  destruct (scan_matches scan_zero (thread_groups env tid)) as [v|v st evs] eqn:Hs.
  - destruct Hm as [Hiff Hv].
    destruct (nv_gpreempt_query_complete _ _) eqn:Hq; cbn.
    + split_and!; [tauto| |done]. intros hc g _ Heq. rewrite (Hv hc g Heq). cbn.
      rewrite <- !list_fmap_compose. cbn. split_and!; [done..|].
      f_equal. f_equal; [|apply list_fmap_id].
      clear. induction (ga_channels g); cbn; congruence.
    + split_and!; [|done|done]. split; [done|]. intros H. by apply Hiff in H.
  - destruct Hm as [Hst Hno]. rewrite (proj2 (Z.eqb_neq _ _) Hst). cbn.
    assert (Hev : evs = []).
    { unfold thread_groups in Hs. rewrite <- (scan_query_matches env tid 0 0) in Hs.
      apply scan_clients_stop in Hs as [?|(c & g & _ & _ & [?|(_ & ? & _)])]; done. }
    subst evs. cbn. split_and!; [|done|done]. split; [done|]. by intros H.
Qed.

(** One process with a client that owns one graphics group of two channels. *)
Lemma query_exact_witness :
  let kcg := mk_kcg 5 3 false false RM_ENGINE_TYPE_GR0 1000 ∅ 2 7 [] false false in
  let env := mk_transport_env 516 (NV_OK, 0) 77 NV_OK NV_OK
    [mk_client 10 77 true [mk_group_api 20 (Some kcg) 4242 true [31; 32]];
     mk_client 11 78 true [mk_group_api 21 (Some kcg) 4242 true [33]]] (fun _ _ _ => NV_OK) NV_OK in
  (RmGPreemptTransport env (mk_nvos54 4242 0 0 0 1 516)).2 = NV_OK.
Proof.
  cbn zeta. set (env := mk_transport_env _ _ _ _ _ _ _ _).
  pose proof (query_exact env 4242 1 ltac:(done) ltac:(done) ltac:(done) eq_refl eq_refl eq_refl) as H.
  change (mk_nvos54 4242 0 0 0 1 516) with (mk_nvos54 4242 0 0 0 1 (env_channels_size env)).
  destruct (RmGPreemptTransport env _) as [[api tr] status]. apply H.
  eexists _, _. split; [reflexivity|]. cbn. lia.
Defined.
