(* ===== verification/ChannelGroupCtor.v ===== *)
(** * Construction of a channel group

    Model of kchangrpapiConstruct_IMPL
    (src/nvidia/src/kernel/gpu/fifo/kernel_channel_group_api.c): the whole
    control flow of the constructor, with its [failed] and [done] labels, the
    task-init policy, the replay of the policy's decision to the firmware and
    the rollback.

    [ctor_env] answers every call that leaves this function; the theorems are
    about all answers.  Resources the function acquires and releases are
    events of a trace, GPU locks a set of GPU instances.  The fields of the
    diagnostic structure, which no driver code reads, are reduced to the
    phase, the field tag and the constructor status of each report. *)

From S2P Require Import Prelude TransitionValidator Bpf SchedHooks ChannelGroup.

Inductive nv_gpu_sched_init_diagnostic_phase :=
| NV_GPU_SCHED_INIT_DIAGNOSTIC_VALIDATED
| NV_GPU_SCHED_INIT_DIAGNOSTIC_NATIVE_RETURN
| NV_GPU_SCHED_INIT_DIAGNOSTIC_CONSTRUCTOR_RETURN.

Inductive nv_gpu_sched_init_diagnostic_field :=
| NV_GPU_SCHED_INIT_DIAGNOSTIC_FIELD_NONE
| NV_GPU_SCHED_INIT_DIAGNOSTIC_FIELD_TIMESLICE
| NV_GPU_SCHED_INIT_DIAGNOSTIC_FIELD_INTERLEAVE.

Inductive ctor_resource :=
| res_bufinfo | res_share | res_tsg | res_ctxpool | res_chanpool | res_grctx | res_remote
| res_apinode.
#[export] Instance ctor_resource_eq_dec : EqDecision ctor_resource.
Proof. solve_decision. Defined.

Inductive ctor_event :=
| ev_acquire (r : ctor_resource)
| ev_release (r : ctor_resource)
| ev_rpc_control (cmd value : Z)
| ev_rpc_free (status : NV_STATUS)
| ev_add_dependant (hVASpace : Z)
| ev_diag (phase : nv_gpu_sched_init_diagnostic_phase)
    (field : nv_gpu_sched_init_diagnostic_field) (status : NV_STATUS).

(** ** The answers of the code the constructor calls *)
Record ctor_env := mk_ctor_env {
  ce_gpu0 : OBJGPU;
  (* lines 122-155 *)
  env_copy_ctor : bool;
  env_copy_construct : NV_STATUS;
  env_lock_is_owner : bool;
  env_bufinfo_alloc : bool;
  env_device_lock : NV_STATUS;
  env_device_gpus : gset Z;
  env_all_gpus : gset Z;
  (* lines 157-307 *)
  env_alloc_share : NV_STATUS;
  env_class_supported : bool;
  env_get_client : NV_STATUS;
  env_get_device : NV_STATUS;
  env_chram_in_hw : bool;
  env_engine_type : Z;
  env_mig_in_use : bool;
  env_mig_ref : NV_STATUS;
  env_mig_local_to_global : Z -> NV_STATUS * Z;
  env_multiple_vaspaces : bool;
  env_hVASpace : Z;
  env_vaspace : NV_STATUS * bool;
  env_sriov : bool;
  env_vgpu_plugin : bool;
  env_gfid : NV_STATUS;
  env_platform_gsp : bool;
  env_internal_client : bool;
  env_ctxpool_init : NV_STATUS * bool;
  env_chanpool_init : NV_STATUS * bool;
  (* lines 309-334: what kchangrpInit leaves in the group *)
  env_init : NV_STATUS;
  env_init_grpID : Z;
  env_init_runlistId : Z;
  env_init_timeslice : Z;
  env_init_unique : Z;
  env_vaspace_ref : NV_STATUS;
  (* lines 429-549 *)
  env_confcompute : bool;
  env_scrub_in_progress : bool;
  env_kernel_priv : bool;
  env_engine_in_instance : bool;
  env_engdesc : NV_STATUS;
  env_has_falcon : bool;
  env_t234d : bool;
  env_grctx_alloc : NV_STATUS;
  (* lines 551-684 *)
  env_skip_rpc : bool;
  env_rpc_alloc : NV_STATUS;
  env_rpc_control : Z -> Z -> NV_STATUS;
  env_promote : NV_STATUS;
  env_list_append : bool;
  (* lines 686-790 *)
  env_rpc_free : NV_STATUS;
  env_reserve : NV_STATUS;
  env_all_lock : NV_STATUS;
}.

(** ** Local variables and effects *)
Record ctor_state := mk_ctor_state {
  cs_group : KernelChannelGroup;
  cs_has_group : bool;
  bTsgAllocated : bool;
  bPolicyTimeslice : bool;
  bPolicyInterleave : bool;
  bPolicyRemoteAllocated : bool;
  bLockAcquired : bool;
  cs_locked : gset Z;
  bReserveMem : bool;
  bufInfoList : bool;
  hKernelGraphicsContext : bool;
  bRpcFree : bool;
  apiObjList : bool;
  bSchedDiagnosticActive : bool;
  cs_trace : list ctor_event;
}.
#[export] Instance eta_ctor_state : Settable ctor_state := fun x =>
  mk_ctor_state (cs_group x) (cs_has_group x) (bTsgAllocated x) (bPolicyTimeslice x)
    (bPolicyInterleave x) (bPolicyRemoteAllocated x) (bLockAcquired x) (cs_locked x)
    (bReserveMem x) (bufInfoList x) (hKernelGraphicsContext x) (bRpcFree x) (apiObjList x) (bSchedDiagnosticActive x)
    (cs_trace x).

Definition kcg_zero : KernelChannelGroup := mk_kcg 0 0 false false 0 0 ∅ 0 0 [] false false.
Definition ctor_state_zero : ctor_state :=
  mk_ctor_state kcg_zero false false false false false false ∅ false false false false false false [].

(** How control leaves a block: by [goto failed], [goto done] or [return]. *)
Inductive ctor_exit :=
| exit_failed (status : NV_STATUS)
| exit_done (status : NV_STATUS)
| exit_return (status : NV_STATUS).

Definition ctor (A : Type) : Type := ctor_state -> ctor_state * (A + ctor_exit).
Definition ctor_ret {A} (a : A) : ctor A := fun s => (s, inl a).
Definition ctor_bind {A B} (c : ctor A) (f : A -> ctor B) : ctor B := fun s =>
  match c s with
  | (s, inl a) => f a s
  | (s, inr e) => (s, inr e)
  end.
Definition ctor_throw {A} (e : ctor_exit) : ctor A := fun s => (s, inr e).
Definition ctor_upd (f : ctor_state -> ctor_state) : ctor unit := fun s => (f s, inl tt).
Definition ctor_get : ctor ctor_state := fun s => (s, inl s).
Definition emit (e : ctor_event) (s : ctor_state) : ctor_state :=
  s <| cs_trace := cs_trace s ++ [e] |>.
Definition ctor_emit (e : ctor_event) : ctor unit := ctor_upd (emit e).

Declare Scope ctor_scope.
Delimit Scope ctor_scope with ctor.
Notation "'let!' x ':=' c 'in' k" := (ctor_bind c (fun x => k))
  (at level 200, x name, c at level 100, k at level 200, right associativity) : ctor_scope.
Notation "c ';;;' k" := (ctor_bind c (fun _ => k)) (at level 100, right associativity) : ctor_scope.
Open Scope ctor_scope.

(** NV_ASSERT_OK_OR_GOTO(rmStatus, status, failed) *)
Definition ok_or_failed (status : NV_STATUS) : ctor unit :=
  if status =? NV_OK then ctor_ret tt else ctor_throw (exit_failed status).
Definition failed_unless (b : bool) (status : NV_STATUS) : ctor unit :=
  if b then ctor_ret tt else ctor_throw (exit_failed status).
Definition ctor_when (b : bool) (c : ctor unit) : ctor unit := if b then c else ctor_ret tt.
Definition upd_group (f : KernelChannelGroup -> KernelChannelGroup) : ctor unit :=
  ctor_upd (fun s => s <| cs_group := f (cs_group s) |>).

(** Acquiring [r], recorded in a local variable by [f]. *)
Definition acquire (r : ctor_resource) (f : ctor_state -> ctor_state) : ctor unit :=
  ctor_upd (fun s => emit (ev_acquire r) (f s)).
Definition set_group (f : KernelChannelGroup -> KernelChannelGroup) (s : ctor_state) : ctor_state :=
  s <| cs_group := f (cs_group s) |>.

Definition ctor_lock (gpus : gset Z) : ctor unit :=
  ctor_upd (fun s => s <| bLockAcquired := true |> <| cs_locked := cs_locked s ∪ gpus |>).

(** ** The constructor, block by block *)

Definition ctor_prologue (env : ctor_env) : ctor unit :=
  let device_lock :=
    (if env_device_lock env =? NV_OK then ctor_ret tt
     else ctor_throw (exit_done (env_device_lock env))) ;;;
    ctor_lock (env_device_gpus env) in
  ctor_when (env_copy_ctor env)
    (device_lock ;;; ctor_throw (exit_done (env_copy_construct env))) ;;;
  ctor_when (env_lock_is_owner env) (ctor_throw (exit_return NV_ERR_INVALID_LOCK_STATE)) ;;;
  ctor_when (negb (env_bufinfo_alloc env)) (ctor_throw (exit_return NV_ERR_NO_MEMORY)) ;;;
  acquire res_bufinfo (fun s => s <| bufInfoList := true |>) ;;;
  device_lock.

Definition ctor_engine (env : ctor_env) : ctor unit :=
  ctor_when (env_chram_in_hw env)
    (failed_unless (RM_ENGINE_TYPE_IS_VALID (env_engine_type env)) NV_ERR_INVALID_ARGUMENT ;;;
     upd_group (fun g => g <| engineType := env_engine_type env |>)) ;;;
  if env_mig_in_use env then
    let! s := ctor_get in
    failed_unless (RM_ENGINE_TYPE_IS_VALID (engineType (cs_group s))) NV_ERR_INVALID_STATE ;;;
    ok_or_failed (env_mig_ref env) ;;;
    ok_or_failed (env_mig_local_to_global env (env_engine_type env)).1 ;;;
    upd_group (fun g => g <| engineType := (env_mig_local_to_global env (env_engine_type env)).2 |>)
  else
    failed_unless (negb (RM_ENGINE_TYPE_IS_GR (env_engine_type env)
                         && negb (env_engine_type env =? RM_ENGINE_TYPE_GR0)))
      NV_ERR_INVALID_ARGUMENT.

Definition ctor_pools (env : ctor_env) : ctor unit :=
  ctor_when (negb (env_platform_gsp env) && negb (env_internal_client env))
    (ok_or_failed (env_ctxpool_init env).1 ;;;
     ctor_when (env_ctxpool_init env).2
       (acquire res_ctxpool (set_group (fun g => g <| pCtxBufPool := true |>))) ;;;
     ok_or_failed (env_chanpool_init env).1 ;;;
     ctor_when (env_chanpool_init env).2
       (acquire res_chanpool (set_group (fun g => g <| pChannelBufPool := true |>)))).

Definition ctor_params (env : ctor_env) : ctor unit :=
  ok_or_failed (env_alloc_share env) ;;;
  acquire res_share (fun s => s <| cs_has_group := true |>) ;;;
  failed_unless (env_class_supported env) NV_ERR_NOT_SUPPORTED ;;;
  failed_unless (env_get_client env =? NV_OK) NV_ERR_INVALID_ARGUMENT ;;;
  failed_unless (env_get_device env =? NV_OK) NV_ERR_INVALID_ARGUMENT ;;;
  ctor_engine env ;;;
  ctor_when (negb (env_multiple_vaspaces env) || negb (env_hVASpace env =? 0))
    (ok_or_failed (env_vaspace env).1 ;;;
     failed_unless (env_vaspace env).2 NV_ERR_INVALID_STATE) ;;;
  ctor_when (negb (env_sriov env && env_vgpu_plugin env)) (ok_or_failed (env_gfid env)) ;;;
  ctor_pools env.

Definition ctor_init (env : ctor_env) : ctor unit :=
  ok_or_failed (env_init env) ;;;
  upd_group (fun g => g <| grpID := env_init_grpID env |>
    <| runlistId := env_init_runlistId env |> <| timesliceUs := env_init_timeslice env |>
    <| pInterleaveLevel := ∅ |> <| tsgUniqueId := env_init_unique env |>) ;;;
  acquire res_tsg (fun s => s <| bTsgAllocated := true |>) ;;;
  ctor_when (negb (env_hVASpace env =? 0) && (env_vaspace_ref env =? NV_OK))
    (ctor_emit (ev_add_dependant (env_hVASpace env))) ;;;
  let! s := ctor_get in
  let '(g, status) := kchangrpSetInterleaveLevel (ce_gpu0 env) (cs_group s)
                        NVA06C_CTRL_INTERLEAVE_LEVEL_MEDIUM in
  upd_group (fun _ => g) ;;; ok_or_failed status.

(** The task-init policy.  [_kchangrpapiPolicyValueApplies] is [is_apply]. *)
Definition _kchangrpapiPolicyValueApplies (result : nv_gpu_transition_result) : bool :=
  match result with
  | NV_GPU_TRANSITION_APPLY => true
  | NV_GPU_TRANSITION_NOOP_DEFAULT
  | NV_GPU_TRANSITION_NOOP_REPEAT
  | NV_GPU_TRANSITION_NOOP_STALE
  | NV_GPU_TRANSITION_NOOP_CONFLICT
  | NV_GPU_TRANSITION_REJECT_ACTION
  | NV_GPU_TRANSITION_REJECT_RANGE
  | NV_GPU_TRANSITION_REJECT_IDENTITY => false
  end.

Definition policy_decision (env : ctor_env) (g : KernelChannelGroup)
    : nv_gpu_task_init_decision_ctx :=
  mk_task_init_decision_ctx
    (mk_task_init_ctx (grpID g) (engineType g) (timesliceUs g)
       (interleave_of g (gpu_subdev (ce_gpu0 env))) (runlistId g))
    u64_request_zero u32_request_zero.

Definition policy_validation (env : ctor_env) (ops : option nv_gpu_sched_ops)
    (g : KernelChannelGroup) : nv_gpu_scheduler_validation_t :=
  let decision := nv_gpu_sched_task_init ops (policy_decision env g) in
  let snapshot := mk_scheduler_snapshot (grpID g) (runlistId g)
                    NV_GPU_SCHED_PHASE_DEFAULTS_READY in
  nv_gpu_transition_validate_scheduler snapshot snapshot (timesliceUs g)
    (interleave_of g (gpu_subdev (ce_gpu0 env))) kfifoRunlistGetMinTimeSlice
    (tid_timeslice_request decision) (tid_interleave_request decision).

Definition ctor_policy (env : ctor_env) (ops : option nv_gpu_sched_ops) : ctor unit :=
  let! s := ctor_get in
  let v := policy_validation env ops (cs_group s) in
  ctor_upd (fun s =>
    emit (ev_diag NV_GPU_SCHED_INIT_DIAGNOSTIC_VALIDATED
            NV_GPU_SCHED_INIT_DIAGNOSTIC_FIELD_NONE 0)
      (s <| bSchedDiagnosticActive := true |>)) ;;;
  ctor_when (_kchangrpapiPolicyValueApplies (sv_timeslice_result v))
    (let! s := ctor_get in
     let '(g, status) := kfifoChannelGroupSetTimeslice (cs_group s) (sv_timeslice v) in
     upd_group (fun _ => g) ;;;
     ctor_emit (ev_diag NV_GPU_SCHED_INIT_DIAGNOSTIC_NATIVE_RETURN
                  NV_GPU_SCHED_INIT_DIAGNOSTIC_FIELD_TIMESLICE 0) ;;;
     ok_or_failed status ;;;
     ctor_upd (fun s => s <| bPolicyTimeslice := true |>)) ;;;
  ctor_when (_kchangrpapiPolicyValueApplies (sv_interleave_result v))
    (let! s := ctor_get in
     let '(g, status) := kchangrpSetInterleaveLevel (ce_gpu0 env) (cs_group s)
                           (sv_interleave v) in
     upd_group (fun _ => g) ;;;
     ctor_emit (ev_diag NV_GPU_SCHED_INIT_DIAGNOSTIC_NATIVE_RETURN
                  NV_GPU_SCHED_INIT_DIAGNOSTIC_FIELD_INTERLEAVE 0) ;;;
     ok_or_failed status ;;;
     ctor_upd (fun s => s <| bPolicyInterleave := true |>)).

Definition ctor_buffers (env : ctor_env) : ctor unit :=
  let! s := ctor_get in
  let g := cs_group s in
  ctor_when (env_confcompute env && env_scrub_in_progress env
             && pChannelBufPool g && pCtxBufPool g)
    (failed_unless (env_kernel_priv env) NV_ERR_INVALID_ARGUMENT) ;;;
  ctor_when (pCtxBufPool g && (negb (env_mig_in_use env) || env_engine_in_instance env))
    (if RM_ENGINE_TYPE_IS_GR (engineType g) then
       ctor_upd (fun s => s <| bReserveMem := true |>)
     else
       ctor_when (IS_GSP_CLIENT (ce_gpu0 env))
         (ok_or_failed (env_engdesc env) ;;;
          ctor_when (env_has_falcon env) (ctor_upd (fun s => s <| bReserveMem := true |>)))) ;;;
  ctor_when ((negb (env_mig_in_use env) || RM_ENGINE_TYPE_IS_GR (engineType g))
             && negb (env_t234d env))
    (ok_or_failed (env_grctx_alloc env) ;;;
     acquire res_grctx (fun s => s <| hKernelGraphicsContext := true |>)).

Definition ctor_replay (env : ctor_env) (b : bool) (cmd value : Z) : ctor unit :=
  ctor_when (IS_GSP_CLIENT (ce_gpu0 env) && b)
    (ctor_emit (ev_rpc_control cmd value) ;;; ok_or_failed (env_rpc_control env cmd value)).

Definition ctor_remote (env : ctor_env) : ctor unit :=
  ctor_when ((IS_VIRTUAL (ce_gpu0 env) || IS_GSP_CLIENT (ce_gpu0 env)) && negb (env_skip_rpc env))
    (ctor_upd (fun s => s <| bRpcFree := true |>) ;;;
     ok_or_failed (env_rpc_alloc env) ;;;
     acquire res_remote (fun s => s <| bPolicyRemoteAllocated :=
       IS_GSP_CLIENT (ce_gpu0 env) && (bPolicyTimeslice s || bPolicyInterleave s) |>) ;;;
     let! s := ctor_get in
     ctor_replay env (bPolicyTimeslice s) NVA06C_CTRL_CMD_SET_TIMESLICE
       (timesliceUs (cs_group s)) ;;;
     ctor_replay env (bPolicyInterleave s) NVA06C_CTRL_CMD_SET_INTERLEAVE_LEVEL
       (interleave_of (cs_group s) (gpu_subdev (ce_gpu0 env))) ;;;
     ctor_when (IS_VIRTUAL_WITH_FULL_SRIOV (ce_gpu0 env) || IS_GSP_CLIENT (ce_gpu0 env))
       (ok_or_failed (env_promote env))).

Definition ctor_register (env : ctor_env) : ctor unit :=
  failed_unless (env_list_append env) NV_ERR_INSUFFICIENT_RESOURCES ;;;
  acquire res_apinode (fun s => s <| apiObjList := true |>).

Definition ctor_body (env : ctor_env) (ops : option nv_gpu_sched_ops) : ctor unit :=
  ctor_prologue env ;;; ctor_params env ;;; ctor_init env ;;; ctor_policy env ops ;;;
  ctor_buffers env ;;; ctor_remote env ;;; ctor_register env.

(** *** The labels *)

Definition release_if (b : bool) (r : ctor_resource) (s : ctor_state) : ctor_state :=
  if b then emit (ev_release r) s else s.

Definition ctor_return_diag (status : NV_STATUS) (s : ctor_state) : ctor_state :=
  if bSchedDiagnosticActive s then
    emit (ev_diag NV_GPU_SCHED_INIT_DIAGNOSTIC_CONSTRUCTOR_RETURN
            NV_GPU_SCHED_INIT_DIAGNOSTIC_FIELD_NONE status) s
      <| bSchedDiagnosticActive := false |>
  else s.

Definition ctor_failed (env : ctor_env) (status : NV_STATUS) (s : ctor_state) : ctor_state :=
  if status =? NV_OK then s
  else
    let s := ctor_return_diag status s in
    let s := if bPolicyRemoteAllocated s then emit (ev_rpc_free (env_rpc_free env)) s else s in
    let s := if bPolicyRemoteAllocated s && (env_rpc_free env =? NV_OK)
             then emit (ev_release res_remote) s <| bRpcFree := false |> else s in
    let s := release_if (hKernelGraphicsContext s) res_grctx s in
    let s :=
      if cs_has_group s then
        let s := release_if (bTsgAllocated s) res_tsg s in
        let s := release_if (pCtxBufPool (cs_group s)) res_ctxpool s in
        let s := s <| cs_group := cs_group s <| pCtxBufPool := false |> |> in
        let s := release_if (pChannelBufPool (cs_group s)) res_chanpool s in
        s <| cs_group := cs_group s <| pChannelBufPool := false |> |>
      else s in
    release_if (cs_has_group s) res_share s.

Definition ctor_unlock (env : ctor_env) (s : ctor_state) : ctor_state :=
  if bLockAcquired s then s <| cs_locked := cs_locked s ∖ env_device_gpus env |> else s.

Definition ctor_finish (status : NV_STATUS) (s : ctor_state) : ctor_state * NV_STATUS :=
  (ctor_return_diag status (release_if (bufInfoList s) res_bufinfo s), status).

Definition ctor_done (env : ctor_env) (status : NV_STATUS) (s : ctor_state)
    : ctor_state * NV_STATUS :=
  let s := ctor_unlock env s in
  if (status =? NV_OK) && bReserveMem s && negb (env_reserve env =? NV_OK) then
    if negb (env_all_lock env =? NV_OK) then
      (ctor_return_diag (env_all_lock env) s, env_all_lock env)
    else
      let s := s <| cs_locked := cs_locked s ∪ env_all_gpus env |> <| bLockAcquired := true |> in
      let s := ctor_failed env (env_reserve env) s in
      ctor_finish (env_reserve env) (ctor_unlock env s)
  else ctor_finish status s.

Definition kchangrpapiConstruct (env : ctor_env) (ops : option nv_gpu_sched_ops)
    : ctor_state * NV_STATUS :=
  match ctor_body env ops ctor_state_zero with
  | (s, inl _) => ctor_done env NV_OK (ctor_failed env NV_OK s)
  | (s, inr (exit_failed status)) => ctor_done env status (ctor_failed env status s)
  | (s, inr (exit_done status)) => ctor_done env status s
  | (s, inr (exit_return status)) => (s, status)
  end.

(** ** Program logic of the constructor monad

    [triple P c Q E]: from a state in [P], [c] falls through into [Q] or
    leaves by a jump [e] into [E e]. *)
Definition triple {A : Type} (P : ctor_state -> Prop) (c : ctor A)
    (Q : A -> ctor_state -> Prop) (E : ctor_exit -> ctor_state -> Prop) : Prop :=
  forall s, P s ->
    match c s with
    | (s', inl a) => Q a s'
    | (s', inr e) => E e s'
    end.

(** The jump is to [failed] with an error, and [P] holds there. *)
Definition on_failed (P : ctor_state -> Prop) (e : ctor_exit) (s : ctor_state) : Prop :=
  match e with exit_failed st => st <> NV_OK /\ P s | _ => False end.

Section rules.
Context {A B : Type}.
Implicit Types (P : ctor_state -> Prop) (E : ctor_exit -> ctor_state -> Prop).

Lemma triple_bind P (c : ctor A) (f : A -> ctor B) Q R E :
  triple P c Q E -> (forall a, triple (Q a) (f a) R E) -> triple P (ctor_bind c f) R E.
Proof.
  intros Hc Hf s Hs. specialize (Hc s Hs). unfold ctor_bind.
  destruct (c s) as [s' [a|e]]; [by apply Hf|done].
Qed.

Lemma triple_get P (f : ctor_state -> ctor B) R E :
  (forall s0, triple (fun s => s = s0 /\ P s) (f s0) R E) -> triple P (ctor_bind ctor_get f) R E.
Proof. intros H s Hs. by apply (H s s). Qed.

Lemma triple_conseq P P' (c : ctor A) (Q Q' : A -> ctor_state -> Prop) E E' :
  triple P' c Q' E' -> (forall s, P s -> P' s) -> (forall a s, Q' a s -> Q a s) ->
  (forall e s, E' e s -> E e s) -> triple P c Q E.
Proof.
  intros Hc HP HQ HE s Hs. specialize (Hc s (HP s Hs)). destruct (c s) as [s' [a|e]]; auto.
Qed.

Lemma triple_pre P P' (c : ctor A) (Q : A -> ctor_state -> Prop) E :
  triple P' c Q E -> (forall s, P s -> P' s) -> triple P c Q E.
Proof. intros Hc HP s Hs. exact (Hc s (HP s Hs)). Qed.

Lemma triple_exit P (c : ctor A) (Q : A -> ctor_state -> Prop) E E' :
  triple P c Q E' -> (forall e s, E' e s -> E e s) -> triple P c Q E.
Proof. intros Hc HE s Hs. specialize (Hc s Hs). destruct (c s) as [s' [a|e]]; auto. Qed.
End rules.

Lemma triple_upd P f (Q : unit -> ctor_state -> Prop) E :
  (forall s, P s -> Q tt (f s)) -> triple P (ctor_upd f) Q E.
Proof. intros H s Hs. by apply H. Qed.

Lemma triple_when P b c (Q : unit -> ctor_state -> Prop) E :
  (b = true -> triple P c Q E) -> (b = false -> forall s, P s -> Q tt s) ->
  triple P (ctor_when b c) Q E.
Proof. intros ?? s Hs. unfold ctor_when. destruct b; [by apply H|by apply H0]. Qed.

(** Preservation of one predicate, the common case. *)
Definition keeps {A : Type} (P : ctor_state -> Prop) (c : ctor A) : Prop :=
  triple P c (fun _ => P) (on_failed P).

Lemma keeps_bind {A B} P (c : ctor A) (f : A -> ctor B) :
  keeps P c -> (forall a, keeps P (f a)) -> keeps P (ctor_bind c f).
Proof. intros. by eapply triple_bind. Qed.
Lemma keeps_upd P f : (forall s, P s -> P (f s)) -> keeps P (ctor_upd f).
Proof. intros. by apply triple_upd. Qed.
Lemma keeps_ok P status : keeps P (ok_or_failed status).
Proof. intros s Hs. unfold ok_or_failed. destruct (Z.eqb_spec status NV_OK); done. Qed.
Lemma keeps_unless P b status : status <> NV_OK -> keeps P (failed_unless b status).
Proof. intros Hst s Hs. unfold failed_unless. by destruct b. Qed.
Lemma keeps_when P b c : (b = true -> keeps P c) -> keeps P (ctor_when b c).
Proof. intros. by apply triple_when. Qed.
Lemma keeps_get {B} P (f : ctor_state -> ctor B) :
  (forall s0, keeps P (f s0)) -> keeps P (ctor_bind ctor_get f).
Proof. intros H s Hs. exact (H s s Hs). Qed.
(** A setter of the group: read it, compute its update, write it back. *)
Lemma keeps_setter {B} P (F : KernelChannelGroup -> KernelChannelGroup * NV_STATUS)
    (f : NV_STATUS -> ctor B) :
  (forall s, P s -> P (s <| cs_group := (F (cs_group s)).1 |>)) ->
  (forall status, keeps P (f status)) ->
  keeps P (let! s := ctor_get in
           let '(g, status) := F (cs_group s) in
           upd_group (fun _ => g) ;;; f status).
Proof.
  intros HF Hf s Hs. specialize (HF s Hs). unfold ctor_bind at 1. cbn.
  destruct (F (cs_group s)) as [g status]. exact (Hf status _ HF).
Qed.
Lemma keeps_then {A B} P (c : ctor A) (f : A -> ctor B) R (E : ctor_state -> Prop) :
  keeps P c -> (forall s, P s -> E s) -> (forall a, triple P (f a) R (on_failed E)) ->
  triple P (ctor_bind c f) R (on_failed E).
Proof.
  intros Hc HE Hf. eapply triple_bind; [|exact Hf].
  eapply triple_conseq; [exact Hc|done|done|]. intros [] ?; [|done..].
  intros [? ?]; split; auto.
Qed.
Lemma keeps_end {A} P (c : ctor A) (E : ctor_state -> Prop) :
  keeps P c -> (forall s, P s -> E s) -> triple P c (fun _ => P) (on_failed E).
Proof.
  intros Hc HE. eapply triple_conseq; [exact Hc|done|done|]. intros [] ?; [|done..].
  intros [? ?]; split; auto.
Qed.

Ltac keeps_step :=
  lazymatch goal with
  | |- keeps _ (let! s := ctor_get in
                let '(g, status) := kchangrpSetInterleaveLevel ?gpu (cs_group s) ?v in _) =>
      apply (keeps_setter _ (fun g => kchangrpSetInterleaveLevel gpu g v)); [intros|intros ?]
  | |- keeps _ (let! s := ctor_get in
                let '(g, status) := kfifoChannelGroupSetTimeslice (cs_group s) ?v in _) =>
      apply (keeps_setter _ (fun g => kfifoChannelGroupSetTimeslice g v)); [intros|intros ?]
  | |- keeps _ (ctor_bind ctor_get _) => apply keeps_get; intros ?
  | |- keeps _ (ctor_bind _ _) => apply keeps_bind; [|intros ?]
  | |- keeps _ (ok_or_failed _) => apply keeps_ok
  | |- keeps _ (failed_unless _ _) => apply keeps_unless; done
  | |- keeps _ (ctor_when _ _) => apply keeps_when; intros ?
  | |- keeps _ (match ?x with (_, _) => _ end) => destruct x eqn:?
  | |- keeps _ (if ?b then _ else _) => destruct b eqn:?
  | |- keeps _ (ctor_upd _) => apply keeps_upd; intros
  | |- keeps _ (upd_group _) => apply keeps_upd; intros
  | |- keeps _ (acquire _ _) => apply keeps_upd; intros
  | |- keeps _ (ctor_lock _) => apply keeps_upd; intros
  | |- keeps _ (ctor_emit _) => apply keeps_upd; intros
  end.

(** ** Resources *)

Definition delta (r : ctor_resource) (e : ctor_event) : Z :=
  match e with
  | ev_acquire r' => if decide (r = r') then 1 else 0
  | ev_release r' => if decide (r = r') then -1 else 0
  | _ => 0
  end.
Definition held (r : ctor_resource) (tr : list ctor_event) : Z :=
  foldr (fun e n => delta r e + n) 0 tr.
Arguments held : simpl never.

Definition is_return_diag (e : ctor_event) : bool :=
  match e with ev_diag NV_GPU_SCHED_INIT_DIAGNOSTIC_CONSTRUCTOR_RETURN _ _ => true | _ => false end.
Definition is_validated_diag (e : ctor_event) : bool :=
  match e with ev_diag NV_GPU_SCHED_INIT_DIAGNOSTIC_VALIDATED _ _ => true | _ => false end.

Lemma held_snoc r tr e : held r (tr ++ [e]) = held r tr + delta r e.
Proof. unfold held. induction tr; cbn in *; lia. Qed.

(** The local variable that says whether [r] is held. *)
Definition flag (r : ctor_resource) (s : ctor_state) : bool :=
  match r with
  | res_bufinfo => bufInfoList s
  | res_share => cs_has_group s
  | res_tsg => bTsgAllocated s
  | res_ctxpool => pCtxBufPool (cs_group s)
  | res_chanpool => pChannelBufPool (cs_group s)
  | res_grctx => hKernelGraphicsContext s
  | res_remote => negb (held res_remote (cs_trace s) =? 0)
  | res_apinode => apiObjList s
  end.

Definition policy_applied (s : ctor_state) : bool := bPolicyTimeslice s || bPolicyInterleave s.

(** What the local variables say of the trace while the body runs. *)
Record ctor_inv (env : ctor_env) (s : ctor_state) : Prop := {
  inv_held r : held r (cs_trace s) = Z.b2z (flag r s);
  inv_remote : bPolicyRemoteAllocated s
               = flag res_remote s && IS_GSP_CLIENT (ce_gpu0 env) && policy_applied s;
  inv_group : bTsgAllocated s || pCtxBufPool (cs_group s) || pChannelBufPool (cs_group s)
              = true -> cs_has_group s = true;
  inv_locked : cs_locked s = if bLockAcquired s then env_device_gpus env else ∅;
  inv_return : filter is_return_diag (cs_trace s) = [];
  inv_validated : Z.of_nat (length (filter is_validated_diag (cs_trace s)))
                  = Z.b2z (bSchedDiagnosticActive s);
}.

(** The invariant at a point of the body before which [rs] have not been
    acquired nor, with [d], the policy consulted, and, with [h], after the
    group was allocated. *)
Definition stage (env : ctor_env) (rs : list ctor_resource) (d h : bool) (s : ctor_state) : Prop :=
  ctor_inv env s /\ Forall (fun r => flag r s = false) rs
  /\ (d = true -> bSchedDiagnosticActive s = false) /\ (h = true -> cs_has_group s = true).

Lemma stage_exit env rs d h s : res_apinode ∈ rs -> stage env rs d h s -> stage env [res_apinode] false false s.
Proof.
  intros Hin (Hi & Hf & Hd). split_and!; [done| |done|done]. apply Forall_singleton. by apply (proj1 (Forall_forall _ _) Hf).
Qed.

Ltac nv_flags :=
  repeat match goal with
  | H : ?x = false |- context [?x] => rewrite H
  | H : ?x = false, H' : context [?x] |- _ => rewrite H in H'
  | H : ?x = true |- context [?x] => rewrite H
  | |- context [decide _] => first [rewrite decide_True by done | rewrite decide_False by done]
  end; cbn in *; try done; try lia.

(** Closes the goal that one assignment or event keeps or advances the stage. *)
Ltac stage_upd :=
  match goal with
  | H : stage _ _ _ _ ?s |- stage _ _ _ _ _ =>
      let Hh := fresh "Hh" in let Hr := fresh "Hr" in let Hg := fresh "Hg" in
      let Hl := fresh "Hl" in let Hn := fresh "Hn" in let Hv := fresh "Hv" in
      let Hf := fresh "Hf" in let Hd := fresh "Hd" in let Hs := fresh "Hs" in
      destruct H as ([Hh Hr Hg Hl Hn Hv] & Hf & Hd & Hs);
      cbn in Hf;
      repeat (let Hx := fresh "Hx" in apply Forall_cons in Hf as [Hx Hf]; cbn in Hx);
      split_and!;
        [constructor; unfold policy_applied in *; cbn in *;
          [let r := fresh "r" in intros r; specialize (Hh r); destruct r; cbn in *;
             rewrite ?held_snoc; cbn in *; rewrite ?Z.add_0_r; try done; nv_flags
          | rewrite ?held_snoc; cbn in *; rewrite ?Z.add_0_r; try done
          | try done; intros; auto
          | try done; try (by rewrite Hl)
          | rewrite ?filter_app; cbn; rewrite ?Hn; try done
          | rewrite ?filter_app, ?length_app; cbn; rewrite ?Nat.add_0_r; try done ]
        | repeat (apply Forall_cons; split); cbn in *; rewrite ?held_snoc; cbn in *;
            rewrite ?Z.add_0_r; try done
        | cbn in *; done
        | cbn in *; done ]
  end.

Ltac keep := repeat keeps_step.

Lemma prologue_stage env :
  triple (eq ctor_state_zero) (ctor_prologue env)
    (fun _ => stage env [res_share; res_ctxpool; res_chanpool; res_tsg; res_grctx; res_remote; res_apinode]
                true false)
    (fun e s => match e with
       | exit_failed _ => False
       | exit_done st => (stage env [res_share; res_ctxpool; res_chanpool; res_tsg; res_grctx;
                                     res_remote; res_apinode] true false s /\ bReserveMem s = false)
                         /\ (env_copy_ctor env = false -> st <> NV_OK)
       | exit_return st => s = ctor_state_zero /\ st <> NV_OK
       end).
Proof.
  intros s <-. unfold ctor_prologue, ctor_when, ctor_bind, ctor_throw, ctor_ret, acquire,
    ctor_lock, ctor_upd. cbn zeta.
  repeat case_match; simplify_eq; try done;
    try (match goal with |- (stage _ _ _ _ _ /\ _) /\ _ => split; [split; [|done]|try done] end);
    try (intros; by apply Z.eqb_neq);
    (split_and!; [constructor; try done|repeat constructor|done|done]);
    try (intros []; done); set_solver.
Qed.

Ltac through := eapply keeps_then; [keep|intros ?; apply stage_exit; set_solver|intros ?].
Ltac finally := apply keeps_end; [keep|intros ?; apply stage_exit; set_solver].

Lemma engine_stage env rs d h : keeps (stage env rs d h) (ctor_engine env).
Proof. unfold ctor_engine. keep. all: stage_upd. Qed.

Lemma pools_stage env :
  triple (stage env [res_ctxpool; res_chanpool; res_tsg; res_grctx; res_remote; res_apinode] true true)
    (ctor_pools env) (fun _ => stage env [res_tsg; res_grctx; res_remote; res_apinode] true true)
    (on_failed (stage env [res_apinode] false false)).
Proof.
  apply triple_when; [intros _|intros _ s ?; stage_upd]. through.
  eapply (triple_bind _ _ _
    (fun _ => stage env [res_chanpool; res_tsg; res_grctx; res_remote; res_apinode] true true)).
  - apply triple_when; intros _; [apply triple_upd|]; intros s ?; stage_upd.
  - intros _. through. apply triple_when; intros _; [apply triple_upd|]; intros s ?; stage_upd.
Qed.

Lemma params_stage env :
  triple (stage env [res_share; res_ctxpool; res_chanpool; res_tsg; res_grctx; res_remote; res_apinode]
            true false)
    (ctor_params env) (fun _ => stage env [res_tsg; res_grctx; res_remote; res_apinode] true true)
    (on_failed (stage env [res_apinode] false false)).
Proof.
  unfold ctor_params. through.
  eapply (triple_bind _ _ _
    (fun _ => stage env [res_ctxpool; res_chanpool; res_tsg; res_grctx; res_remote; res_apinode] true true));
    [apply triple_upd; intros s ?; stage_upd|intros _].
  do 3 through. eapply keeps_then; [apply engine_stage|intros ?; apply stage_exit; set_solver|intros _].
  do 2 through. apply pools_stage.
Qed.

Lemma set_interleave_pools gpu g v :
  let g' := (kchangrpSetInterleaveLevel gpu g v).1 in
  pCtxBufPool g' = pCtxBufPool g /\ pChannelBufPool g' = pChannelBufPool g.
Proof. unfold kchangrpSetInterleaveLevel. by split_ifs. Qed.

Lemma set_timeslice_pools g v :
  let g' := (kfifoChannelGroupSetTimeslice g v).1 in
  pCtxBufPool g' = pCtxBufPool g /\ pChannelBufPool g' = pChannelBufPool g.
Proof. unfold kfifoChannelGroupSetTimeslice. by split_ifs. Qed.

(** Replacing the group by one with the same pools keeps the stage. *)
Lemma stage_group env rs d h s g :
  pCtxBufPool g = pCtxBufPool (cs_group s) /\ pChannelBufPool g = pChannelBufPool (cs_group s) ->
  stage env rs d h s -> stage env rs d h (s <| cs_group := g |>).
Proof.
  intros [H1 H2] ([Hh Hr Hg Hl Hn Hv] & Hf & Hd & Hs).
  assert (Hflag : forall r, flag r (s <| cs_group := g |>) = flag r s)
    by (intros []; cbn; congruence).
  split_and!; [constructor| | |]; try done.
  - intros r. rewrite Hflag. apply Hh.
  - cbn. by rewrite H1, H2.
  - eapply Forall_impl; [done|]. cbn. intros r. by rewrite Hflag.
Qed.

Lemma init_stage env :
  triple (stage env [res_tsg; res_grctx; res_remote; res_apinode] true true) (ctor_init env)
    (fun _ => stage env [res_grctx; res_remote; res_apinode] true true)
    (on_failed (stage env [res_apinode] false false)).
Proof.
  unfold ctor_init. through. through; [by apply stage_group|].
  eapply (triple_bind _ _ _ (fun _ => stage env [res_grctx; res_remote; res_apinode] true true));
    [apply triple_upd; intros s ?; stage_upd|intros _].
  finally; [stage_upd|]. apply stage_group; [apply set_interleave_pools|done].
Qed.

Lemma policy_stage env ops :
  triple (stage env [res_grctx; res_remote; res_apinode] true true) (ctor_policy env ops)
    (fun _ => stage env [res_grctx; res_remote; res_apinode] false true)
    (on_failed (stage env [res_apinode] false false)).
Proof.
  unfold ctor_policy. apply triple_get. intros s0.
  eapply (triple_bind _ _ _ (fun _ => stage env [res_grctx; res_remote; res_apinode] false true)).
  { apply triple_upd. intros s [_ ?]. stage_upd.
    rewrite Hd in Hv by done. rewrite decide_True by done. cbn in *. lia. }
  intros _. apply keeps_end; [|intros ?; apply stage_exit; set_solver].
  keep;
    first [apply stage_group; [apply set_interleave_pools || apply set_timeslice_pools|done]
          | stage_upd; nv_flags].
Qed.

Lemma buffers_stage env :
  triple (stage env [res_grctx; res_remote; res_apinode] false true) (ctor_buffers env)
    (fun _ => stage env [res_remote; res_apinode] false true)
    (on_failed (stage env [res_apinode] false false)).
Proof.
  unfold ctor_buffers. apply triple_get. intros s0.
  apply (triple_pre _ (stage env [res_grctx; res_remote; res_apinode] false true)); [|by intros s [_ ?]].
  through. through; try stage_upd.
  apply triple_when; intros _; [|intros s ?; stage_upd].
  through. apply triple_upd. intros s ?. stage_upd.
Qed.

Lemma remote_stage env :
  triple (stage env [res_remote; res_apinode] false true) (ctor_remote env)
    (fun _ => stage env [res_apinode] false true)
    (on_failed (stage env [res_apinode] false false)).
Proof.
  unfold ctor_remote, ctor_replay. apply triple_when; intros _; [|intros s ?; stage_upd].
  through; [stage_upd|]. through.
  eapply (triple_bind _ _ _ (fun _ => stage env [res_apinode] false true)).
  { apply triple_upd. intros s ?. stage_upd.
    - by rewrite Hh.
    - rewrite decide_True by done. specialize (Hh res_remote). cbn in Hh.
      rewrite Hx in Hh. cbn in Hh. by rewrite Hh. }
  intros _. finally; stage_upd.
Qed.

Lemma body_stage env ops :
  triple (eq ctor_state_zero) (ctor_body env ops) (fun _ s => stage env [] false true s /\ apiObjList s = true)
    (fun e s => match e with
       | exit_failed st => st <> NV_OK /\ stage env [res_apinode] false false s
       | exit_done st => (stage env [res_share; res_ctxpool; res_chanpool; res_tsg; res_grctx;
                                     res_remote; res_apinode] true false s /\ bReserveMem s = false)
                         /\ (env_copy_ctor env = false -> st <> NV_OK)
       | exit_return st => s = ctor_state_zero /\ st <> NV_OK
       end).
Proof.
  eapply triple_bind; [eapply triple_exit; [apply prologue_stage|by intros []]|].
  intros []. eapply (triple_exit _ _ _ _ (on_failed (stage env [res_apinode] false false))); [|by intros []].
  eapply triple_bind; [apply params_stage|intros []].
  eapply triple_bind; [apply init_stage|intros []].
  eapply triple_bind; [apply policy_stage|intros []].
  eapply triple_bind; [apply buffers_stage|intros []].
  eapply triple_bind; [apply remote_stage|intros []].
  unfold ctor_register. through. apply triple_upd. intros s ?. split; [stage_upd|done].
Qed.

(** ** Theorems *)

Definition local_resources : list ctor_resource :=
  [res_bufinfo; res_share; res_tsg; res_ctxpool; res_chanpool; res_grctx].

(** What the error path appends to the trace. *)
Definition when_ev (b : bool) (e : ctor_event) : list ctor_event := if b then [e] else [].
Definition return_diag (status : NV_STATUS) : ctor_event :=
  ev_diag NV_GPU_SCHED_INIT_DIAGNOSTIC_CONSTRUCTOR_RETURN
    NV_GPU_SCHED_INIT_DIAGNOSTIC_FIELD_NONE status.
Definition failed_events (env : ctor_env) (status : NV_STATUS) (s : ctor_state) : list ctor_event :=
  when_ev (bSchedDiagnosticActive s) (return_diag status)
  ++ when_ev (bPolicyRemoteAllocated s) (ev_rpc_free (env_rpc_free env))
  ++ when_ev (bPolicyRemoteAllocated s && (env_rpc_free env =? NV_OK)) (ev_release res_remote)
  ++ when_ev (hKernelGraphicsContext s) (ev_release res_grctx)
  ++ when_ev (cs_has_group s && bTsgAllocated s) (ev_release res_tsg)
  ++ when_ev (cs_has_group s && pCtxBufPool (cs_group s)) (ev_release res_ctxpool)
  ++ when_ev (cs_has_group s && pChannelBufPool (cs_group s)) (ev_release res_chanpool)
  ++ when_ev (cs_has_group s) (ev_release res_share).

(** [s'] is [s] after the events [evs], with the variables the error path
    reads unchanged. *)
Record extends (s s' : ctor_state) (evs : list ctor_event) : Prop := {
  ext_trace : cs_trace s' = cs_trace s ++ evs;
  ext_remote : bPolicyRemoteAllocated s' = bPolicyRemoteAllocated s;
  ext_grctx : hKernelGraphicsContext s' = hKernelGraphicsContext s;
  ext_has_group : cs_has_group s' = cs_has_group s;
  ext_tsg : bTsgAllocated s' = bTsgAllocated s;
  ext_locked : cs_locked s' = cs_locked s;
  ext_lock : bLockAcquired s' = bLockAcquired s;
  ext_bufinfo : bufInfoList s' = bufInfoList s;
  ext_applied : policy_applied s' = policy_applied s;
  ext_apinode : apiObjList s' = apiObjList s;
}.

Lemma extends_trans s1 s2 s3 e1 e2 :
  extends s1 s2 e1 -> extends s2 s3 e2 -> extends s1 s3 (e1 ++ e2).
Proof. intros [] []. constructor; try congruence. rewrite app_assoc. congruence. Qed.

Lemma release_if_step b r s :
  extends s (release_if b r s) (when_ev b (ev_release r))
  /\ cs_group (release_if b r s) = cs_group s
  /\ bSchedDiagnosticActive (release_if b r s) = bSchedDiagnosticActive s.
Proof. destruct b; (split; [constructor|]); cbn; rewrite ?app_nil_r; done. Qed.

Lemma set_group_step g s :
  extends s (s <| cs_group := g |>) []
  /\ bSchedDiagnosticActive (s <| cs_group := g |>) = bSchedDiagnosticActive s.
Proof. (split; [constructor|]); cbn; rewrite ?app_nil_r; done. Qed.

Lemma return_diag_step st s :
  extends s (ctor_return_diag st s) (when_ev (bSchedDiagnosticActive s) (return_diag st))
  /\ cs_group (ctor_return_diag st s) = cs_group s
  /\ bSchedDiagnosticActive (ctor_return_diag st s) = false.
Proof.
  unfold ctor_return_diag. destruct (bSchedDiagnosticActive s) eqn:?;
    (split; [constructor|]); cbn; rewrite ?app_nil_r; done.
Qed.

Lemma failed_group_step s :
  cs_has_group s = true ->
  let s1 := release_if (bTsgAllocated s) res_tsg s in
  let s2 := release_if (pCtxBufPool (cs_group s1)) res_ctxpool s1 in
  let s3 := s2 <| cs_group := cs_group s2 <| pCtxBufPool := false |> |> in
  let s4 := release_if (pChannelBufPool (cs_group s3)) res_chanpool s3 in
  let s5 := s4 <| cs_group := cs_group s4 <| pChannelBufPool := false |> |> in
  extends s s5 (when_ev (bTsgAllocated s) (ev_release res_tsg)
                ++ when_ev (pCtxBufPool (cs_group s)) (ev_release res_ctxpool)
                ++ when_ev (pChannelBufPool (cs_group s)) (ev_release res_chanpool))
  /\ bSchedDiagnosticActive s5 = bSchedDiagnosticActive s.
Proof.
  intros Hg s1. destruct (release_if_step (bTsgAllocated s) res_tsg s) as (E1 & G1 & D1).
  fold s1 in E1, G1, D1. clearbody s1. intros s2.
  destruct (release_if_step (pCtxBufPool (cs_group s1)) res_ctxpool s1) as (E2 & G2 & D2).
  fold s2 in E2, G2, D2. rewrite G1 in E2. clearbody s2. intros s3.
  destruct (set_group_step (cs_group s2 <| pCtxBufPool := false |>) s2) as (E3 & D3).
  assert (G3 : pChannelBufPool (cs_group s3) = pChannelBufPool (cs_group s))
    by (cbn; congruence).
  fold s3 in E3, D3. clearbody s3. intros s4.
  destruct (release_if_step (pChannelBufPool (cs_group s3)) res_chanpool s3) as (E4 & G4 & D4).
  fold s4 in E4, G4, D4. rewrite G3 in E4. clearbody s4. intros s5.
  destruct (set_group_step (cs_group s4 <| pChannelBufPool := false |>) s4) as (E5 & D5).
  fold s5 in E5, D5. clearbody s5. split; [|congruence].
  pose proof (extends_trans _ _ _ _ _ E1 (extends_trans _ _ _ _ _ E2
    (extends_trans _ _ _ _ _ E3 (extends_trans _ _ _ _ _ E4 E5)))) as E.
  by rewrite app_nil_r in E.
Qed.

(** The remote object is freed by an RPC, which may fail. *)
Lemma remote_free_step env s : exists s2 s3,
  s2 = (if bPolicyRemoteAllocated s then emit (ev_rpc_free (env_rpc_free env)) s else s)
  /\ s3 = (if bPolicyRemoteAllocated s2 && (env_rpc_free env =? NV_OK)
           then emit (ev_release res_remote) s2 <| bRpcFree := false |> else s2)
  /\ extends s s2 (when_ev (bPolicyRemoteAllocated s) (ev_rpc_free (env_rpc_free env)))
  /\ extends s2 s3 (when_ev (bPolicyRemoteAllocated s2 && (env_rpc_free env =? NV_OK)) (ev_release res_remote))
  /\ cs_group s2 = cs_group s /\ cs_group s3 = cs_group s2
  /\ bSchedDiagnosticActive s2 = bSchedDiagnosticActive s /\ bSchedDiagnosticActive s3 = bSchedDiagnosticActive s2.
Proof.
  eexists _, _. split; [reflexivity|]. split; [reflexivity|].
  destruct (bPolicyRemoteAllocated s) eqn:Hr, (env_rpc_free env =? NV_OK); cbn; rewrite ?Hr; cbn;
    split_and!; try done; constructor; cbn; rewrite ?app_nil_r; done.
Qed.

Lemma ctor_failed_eq env st s :
  st <> NV_OK ->
  extends s (ctor_failed env st s) (failed_events env st s)
  /\ bSchedDiagnosticActive (ctor_failed env st s) = false.
Proof.
  intros Hst. unfold ctor_failed. rewrite (proj2 (Z.eqb_neq _ _) Hst).
  destruct (return_diag_step st s) as (E1 & G1 & D1). revert E1 G1 D1.
  generalize (ctor_return_diag st s). intros s1 E1 G1 D1.
  destruct (remote_free_step env s1) as (s2 & s3 & H2 & H3 & E2 & E3 & G2 & G3 & D2 & D3).
  cbv zeta. rewrite <- H2, <- H3. rewrite (ext_remote _ _ _ E2), (ext_remote _ _ _ E1) in E3. rewrite (ext_remote _ _ _ E1) in E2.
  clear H2 H3.
  destruct (release_if_step (hKernelGraphicsContext s3) res_grctx s3) as (E4 & G4 & D4).
  revert E4 G4 D4. generalize (release_if (hKernelGraphicsContext s3) res_grctx s3).
  intros s4 E4 G4 D4.
  pose proof (extends_trans _ _ _ _ _ E1 (extends_trans _ _ _ _ _ E2 E3)) as E13.
  rewrite (ext_grctx _ _ _ E13) in E4.
  pose proof (extends_trans _ _ _ _ _ E13 E4) as E14.
  pose proof (failed_group_step s4) as H5. cbv zeta in H5.
  rewrite (ext_has_group _ _ _ E14) in *. unfold failed_events.
  destruct (cs_has_group s) eqn:Hg; cbn [andb].
  - destruct (H5 eq_refl) as (E5 & D5). revert E5 D5. cbv zeta.
    match goal with |- extends s4 ?x _ -> _ => generalize x end. intros s5 E5 D5.
    rewrite (ext_tsg _ _ _ E14), G4, G3, G2, G1 in E5.
    pose proof (extends_trans _ _ _ _ _ E14 E5) as E15.
    rewrite (ext_has_group _ _ _ E15), Hg.
    destruct (release_if_step true res_share s5) as (E6 & _ & D6).
    pose proof (extends_trans _ _ _ _ _ E15 E6) as E16.
    repeat rewrite <- app_assoc in E16. split; [exact E16|congruence].
  - rewrite (ext_has_group _ _ _ E14), Hg. cbn. repeat rewrite app_nil_r in *.
    repeat rewrite <- app_assoc in E14. split; [exact E14|congruence].
Qed.

Lemma held_app r tr tr' : held r (tr ++ tr') = held r tr + held r tr'.
Proof. unfold held. induction tr; cbn in *; lia. Qed.

Lemma held_when r b e : held r (when_ev b e) = if b then delta r e else 0.
Proof. destruct b; unfold held; cbn; lia. Qed.

(** The part of the invariant that is about resources. *)
Definition resources_ok (env : ctor_env) (s : ctor_state) : Prop :=
  (forall r, held r (cs_trace s) = Z.b2z (flag r s))
  /\ bPolicyRemoteAllocated s = flag res_remote s && IS_GSP_CLIENT (ce_gpu0 env) && policy_applied s
  /\ (bTsgAllocated s || pCtxBufPool (cs_group s) || pChannelBufPool (cs_group s) = true ->
      cs_has_group s = true).

Lemma stage_resources env rs d h s : stage env rs d h s -> resources_ok env s.
Proof. by intros ([] & _). Qed.

Lemma resources_lock env s gpus b :
  resources_ok env s -> resources_ok env (s <| cs_locked := gpus |> <| bLockAcquired := b |>).
Proof. intros (Hh & Hr & Hg). split_and!; [intros r; specialize (Hh r); by destruct r|done..]. Qed.

Lemma resources_unlock env s : resources_ok env s -> resources_ok env (ctor_unlock env s).
Proof.
  intros (Hh & Hr & Hg). unfold ctor_unlock. destruct (bLockAcquired s); [|done].
  split_and!; [intros r; specialize (Hh r); by destruct r|done..].
Qed.

(** The error path releases what the body acquired. *)
Lemma failed_held env st s r :
  st <> NV_OK -> resources_ok env s ->
  held r (cs_trace (ctor_failed env st s)) =
    match r with
    | res_bufinfo => Z.b2z (bufInfoList s)
    | res_remote => Z.b2z (flag res_remote s && negb (bPolicyRemoteAllocated s && (env_rpc_free env =? NV_OK)))
    | res_apinode => Z.b2z (apiObjList s)
    | _ => 0
    end.
Proof.
  intros Hst (Hh & Hr & Hg). destruct (ctor_failed_eq env st s Hst) as [Ht _].
  rewrite (ext_trace _ _ _ Ht), held_app, Hh. unfold failed_events, when_ev.
  assert (Hrem : bPolicyRemoteAllocated s = true -> flag res_remote s = true) by (rewrite Hr; destruct (flag res_remote s); done).
  destruct r; cbn [flag] in *;
    destruct (bSchedDiagnosticActive s), (cs_has_group s) eqn:?, (bTsgAllocated s),
      (pCtxBufPool _), (pChannelBufPool _), (hKernelGraphicsContext s);
    cbn in *; try (by specialize (Hg eq_refl)); clear Hg Hh Hr Ht;
    destruct (bPolicyRemoteAllocated s), (env_rpc_free env =? NV_OK), (bufInfoList s), (apiObjList s), (negb _);
    cbn in *; try (by specialize (Hrem eq_refl)); vm_compute; done.
Qed.

Lemma unlock_fields env s :
  cs_trace (ctor_unlock env s) = cs_trace s
  /\ bufInfoList (ctor_unlock env s) = bufInfoList s
  /\ bReserveMem (ctor_unlock env s) = bReserveMem s
  /\ bLockAcquired (ctor_unlock env s) = bLockAcquired s
  /\ (policy_applied (ctor_unlock env s) = policy_applied s
      /\ bPolicyRemoteAllocated (ctor_unlock env s) = bPolicyRemoteAllocated s /\ apiObjList (ctor_unlock env s) = apiObjList s)
  /\ cs_locked (ctor_unlock env s)
     = if bLockAcquired s then cs_locked s ∖ env_device_gpus env else cs_locked s.
Proof. unfold ctor_unlock. by destruct (bLockAcquired s) eqn:?. Qed.

Lemma finish_fields st s :
  let s' := (ctor_finish st s).1 in
  (forall r, held r (cs_trace s')
     = held r (cs_trace s) - (if decide (r = res_bufinfo) then Z.b2z (bufInfoList s) else 0))
  /\ cs_locked s' = cs_locked s /\ policy_applied s' = policy_applied s
  /\ bPolicyRemoteAllocated s' = bPolicyRemoteAllocated s /\ (forall e, e ∈ cs_trace s -> e ∈ cs_trace s').
Proof.
  unfold ctor_finish. cbn [fst].
  destruct (release_if_step (bufInfoList s) res_bufinfo s) as (E1 & _).
  destruct (return_diag_step st (release_if (bufInfoList s) res_bufinfo s)) as (E2 & _).
  pose proof (extends_trans _ _ _ _ _ E1 E2) as [Ht -> _ _ _ -> _ _ -> _].
  split_and!; [|done..|intros e He; rewrite Ht; apply elem_of_app; by left]. intros r. rewrite Ht, !held_app, !held_when.
  destruct (bufInfoList s), (bSchedDiagnosticActive _), (decide (r = res_bufinfo)); subst; cbn;
    try (rewrite decide_True by done); try (rewrite decide_False by done); lia.
Qed.

(** Nothing is held but, with [n], the node in the list of API objects, and the
    remote object if the RPC that frees it has failed. *)
Record clean (env : ctor_env) (n : bool) (s : ctor_state) : Prop := {
  cl_local r : r ∈ local_resources -> held r (cs_trace s) = 0;
  cl_apinode : held res_apinode (cs_trace s) = Z.b2z n;
  cl_remote : IS_GSP_CLIENT (ce_gpu0 env) = true -> policy_applied s = true ->
    held res_remote (cs_trace s) = Z.b2z (bPolicyRemoteAllocated s && negb (env_rpc_free env =? NV_OK));
  cl_free : bPolicyRemoteAllocated s = true -> ev_rpc_free (env_rpc_free env) ∈ cs_trace s
}.

Lemma finish_clean env n st s :
  (forall r, r ∈ local_resources -> r <> res_bufinfo -> held r (cs_trace s) = 0) ->
  held res_bufinfo (cs_trace s) = Z.b2z (bufInfoList s) ->
  held res_apinode (cs_trace s) = Z.b2z n ->
  (IS_GSP_CLIENT (ce_gpu0 env) = true -> policy_applied s = true ->
   held res_remote (cs_trace s) = Z.b2z (bPolicyRemoteAllocated s && negb (env_rpc_free env =? NV_OK))) ->
  (bPolicyRemoteAllocated s = true -> ev_rpc_free (env_rpc_free env) ∈ cs_trace s) ->
  clean env n (ctor_finish st s).1.
Proof.
  intros Hr Hb Hn Hp He. destruct (finish_fields st s) as (Hf & _ & Ha & Hrem & Htr). constructor.
  - intros r Hin. rewrite Hf. destruct (decide (r = res_bufinfo)) as [->|]; [lia|].
    rewrite Hr by done. lia.
  - rewrite Hf, decide_False by done. rewrite Hn. lia.
  - intros ? Hpa. rewrite Hf, decide_False by done. rewrite Ha in Hpa. rewrite Hp, Hrem by done. lia.
  - rewrite Hrem. auto.
Qed.

Lemma failed_free_event env st s : st <> NV_OK -> bPolicyRemoteAllocated s = true ->
  ev_rpc_free (env_rpc_free env) ∈ cs_trace (ctor_failed env st s).
Proof.
  intros Hst Hr. destruct (ctor_failed_eq env st s Hst) as [E _]. rewrite (ext_trace _ _ _ E). unfold failed_events, when_ev. rewrite Hr.
  rewrite !elem_of_app. right. right. left. by apply list_elem_of_singleton.
Qed.

Lemma failed_clean env st st' s :
  st <> NV_OK -> resources_ok env s ->
  clean env (apiObjList s) (ctor_finish st' (ctor_unlock env (ctor_failed env st s))).1.
Proof.
  intros Hst Hok. destruct (ctor_failed_eq env st s Hst) as [E _].
  destruct (unlock_fields env (ctor_failed env st s)) as (Ht & Hb & _ & _ & (Ha & Hrem & _) & _).
  apply finish_clean; rewrite ?Ht, ?Hb, ?Ha, ?Hrem, ?(ext_bufinfo _ _ _ E), ?(ext_applied _ _ _ E), ?(ext_remote _ _ _ E).
  - intros r Hin Hne. rewrite failed_held by done.
    by destruct r; repeat (apply elem_of_cons in Hin as [?|Hin]); try done;
      apply elem_of_nil in Hin.
  - by rewrite failed_held.
  - by rewrite failed_held.
  - intros Hg Hp. rewrite failed_held by done. destruct Hok as (_ & Hr & _). rewrite Hg, Hp, !andb_true_r in Hr. rewrite Hr.
    by destruct (flag res_remote s), (env_rpc_free env =? NV_OK).
  - by apply failed_free_event.
Qed.

Lemma unlock_locked env s :
  cs_locked s = (if bLockAcquired s then env_device_gpus env else ∅) ->
  cs_locked (ctor_unlock env s) = ∅.
Proof.
  intros Hl. destruct (unlock_fields env s) as (_ & _ & _ & _ & _ & ->). rewrite Hl.
  destruct (bLockAcquired s); set_solver.
Qed.

Lemma ctor_failed_ok env s : ctor_failed env NV_OK s = s.
Proof. done. Qed.

Lemma ctor_done_error env st s :
  st <> NV_OK -> ctor_done env st s = ctor_finish st (ctor_unlock env s).
Proof. intros Hst. unfold ctor_done. by rewrite (proj2 (Z.eqb_neq _ _) Hst). Qed.

(** The second pass through the error path, after reserving memory failed; without the
    locks of all GPUs it is skipped. *)
Lemma ctor_done_reserve env s :
  let s1 := ctor_unlock env s in
  let s2 := s1 <| cs_locked := cs_locked s1 ∪ env_all_gpus env |> <| bLockAcquired := true |> in
  (ctor_done env NV_OK s).2 <> NV_OK ->
  env_reserve env <> NV_OK /\ bReserveMem s = true
  /\ ctor_done env NV_OK s
     = if env_all_lock env =? NV_OK
       then ctor_finish (env_reserve env) (ctor_unlock env (ctor_failed env (env_reserve env) s2))
       else (ctor_return_diag (env_all_lock env) s1, env_all_lock env).
Proof.
  intros s1 s2. destruct (unlock_fields env s) as (_ & _ & <- & _). fold s1. unfold ctor_done. fold s1. intros H.
  destruct (decide (env_reserve env = NV_OK)) as [He|He].
  - rewrite He in H. cbn in H. by rewrite andb_false_r in H.
  - rewrite (proj2 (Z.eqb_neq _ _) He) in *. destruct (bReserveMem s1); [|done]. cbn. by destruct (env_all_lock env =? NV_OK).
Qed.

Definition lock_bound (env : ctor_env) (s : ctor_state) : Prop :=
  cs_locked s ⊆ env_all_gpus env ∖ env_device_gpus env.

(** Reserving memory failed and the locks could not be retaken: nothing that was held
    in [s0] is released. *)
Definition relock_failed (env : ctor_env) (s0 s : ctor_state) (status : NV_STATUS) : Prop :=
  env_reserve env <> NV_OK /\ env_all_lock env <> NV_OK /\ status = env_all_lock env /\
  (forall r, held r (cs_trace s) = held r (cs_trace s0)) /\ cs_locked s = ∅.

Lemma done_ok_releases env rs d h s s' status :
  stage env rs d h s -> ctor_done env NV_OK s = (s', status) -> status <> NV_OK ->
  bReserveMem s = true /\ (relock_failed env s s' status \/ clean env (apiObjList s) s' /\ lock_bound env s').
Proof.
  intros Hb Hc Hst. pose proof (stage_resources _ _ _ _ _ Hb) as Hr.
  destruct Hb as ([_ _ _ Hl _ _] & _).
  destruct (ctor_done_reserve env s) as (Hne & Hres & Heq); [by rewrite Hc|]. split; [done|].
  rewrite Heq in Hc. set (s1 := ctor_unlock env s) in *.
  destruct (unlock_fields env s) as (Ht1 & _ & _ & _ & (_ & _ & Ha1) & _).
  set (s2 := s1 <| cs_locked := _ |> <| bLockAcquired := true |>) in *.
  assert (Hs : s' = (s', status).1) by done. rewrite <- Hc in Hs. destruct (Z.eqb_spec (env_all_lock env) NV_OK) as [Hall|Hall].
  - right. destruct (ctor_failed_eq env _ s2 Hne) as [E _]. subst s'. split.
    + replace (apiObjList s) with (apiObjList s2) by exact Ha1. by apply failed_clean, resources_lock, resources_unlock.
    + unfold lock_bound. rewrite (proj1 (proj2 (finish_fields _ _))).
      destruct (unlock_fields env (ctor_failed env (env_reserve env) s2)) as (_&_&_&_&_&->).
      rewrite (ext_lock _ _ _ E), (ext_locked _ _ _ E). cbn.
      unfold s1. rewrite unlock_locked by done. set_solver.
  - left. injection Hc as _ Hst'. cbn in Hs. subst s'. destruct (return_diag_step (env_all_lock env) s1) as (E & _). split_and!; try done.
    + intros r. rewrite (ext_trace _ _ _ E), held_app. unfold s1. rewrite Ht1, held_when. unfold return_diag. cbn [delta]. destruct (bSchedDiagnosticActive _); lia.
    + rewrite (ext_locked _ _ _ E). by apply unlock_locked.
Qed.

Lemma failed_releases env st s :
  st <> NV_OK -> stage env [res_apinode] false false s ->
  let s' := (ctor_done env st (ctor_failed env st s)).1 in clean env false s' /\ lock_bound env s'.
Proof.
  intros Hne Hb. rewrite ctor_done_error by done. split.
  - pose proof (proj1 (proj2 Hb)) as Hf. rewrite Forall_singleton in Hf. cbn in Hf. rewrite <- Hf.
    by apply failed_clean, (stage_resources _ _ _ _ _ Hb).
  - destruct Hb as ([_ _ _ Hl _ _] & _). destruct (ctor_failed_eq env st s Hne) as [E _].
    unfold lock_bound. cbn zeta. rewrite (proj1 (proj2 (finish_fields _ _))), unlock_locked;
      [set_solver|]. by rewrite (ext_lock _ _ _ E), (ext_locked _ _ _ E).
Qed.

Lemma aborted_releases env st s :
  st <> NV_OK ->
  stage env [res_share; res_ctxpool; res_chanpool; res_tsg; res_grctx; res_remote; res_apinode] true false s ->
  let s' := (ctor_done env st s).1 in clean env false s' /\ lock_bound env s'.
Proof.
  intros Hne ([Hh Hr _ Hl _ _] & Hf & _). rewrite ctor_done_error by done.
  rewrite !Forall_cons in Hf. destruct Hf as (? & ? & ? & ? & ? & Hrem & ? & _). rewrite Hrem in Hr. cbn in Hr.
  destruct (unlock_fields env s) as (Ht & Hb & _ & _ & (_ & Hp & _) & _). split.
  - apply finish_clean; rewrite ?Ht, ?Hb, ?Hp, ?Hr.
    + intros r Hin Hnr. rewrite Hh. by destruct r; nv_flags.
    + apply Hh.
    + rewrite Hh. by nv_flags.
    + intros _ _. rewrite Hh. by nv_flags.
    + done.
  - unfold lock_bound. cbn zeta. rewrite (proj1 (proj2 (finish_fields _ _))), unlock_locked;
      [set_solver|done].
Qed.

(** The body of the constructor, up to the entry in the list of API objects, succeeds. *)
Definition registered (env : ctor_env) (ops : option nv_gpu_sched_ops) : bool :=
  match ctor_body env ops ctor_state_zero with (_, inl _) => true | _ => false end.

(** C28: what a failed constructor leaves behind, whatever the rest of the driver,
    the firmware and the policy do.  If constructing a channel group fails, then
    either reserving memory failed after all else had succeeded and the GPU locks
    could not be retaken for the error path: then nothing is released.  Or the
    context buffer list, the group, its channel-group id, both buffer pools and the
    graphics context have all been released exactly once for each acquisition; the
    node of the group's list of API objects is left over exactly if it had been
    added, that is if reserving memory failed; a remote object whose policy was
    applied has been freed on the firmware exactly if the RPC that frees it, which
    was sent, has succeeded; and the only GPU locks that can still be held are
    those of other devices. *)
Theorem construct_failure_releases env ops s status :
  kchangrpapiConstruct env ops = (s, status) -> status <> NV_OK ->
  (exists s0, ctor_body env ops ctor_state_zero = (s0, inl tt) /\ relock_failed env s0 s status)
  \/ (forall r, r ∈ [res_bufinfo; res_share; res_tsg; res_ctxpool; res_chanpool; res_grctx] ->
        held r (cs_trace s) = 0)
     /\ held res_apinode (cs_trace s) = Z.b2z (registered env ops)
     /\ (IS_GSP_CLIENT (ce_gpu0 env) = true -> policy_applied s = true ->
         held res_remote (cs_trace s) = Z.b2z (bPolicyRemoteAllocated s && negb (env_rpc_free env =? NV_OK)))
     /\ (bPolicyRemoteAllocated s = true -> ev_rpc_free (env_rpc_free env) ∈ cs_trace s)
     /\ cs_locked s ⊆ env_all_gpus env ∖ env_device_gpus env.
Proof.
  unfold kchangrpapiConstruct, registered. intros Hc Hst. pose proof (body_stage env ops ctor_state_zero eq_refl) as Hb.
  destruct (ctor_body env ops ctor_state_zero) as [s0 [[]|[st|st|st]]].
  - rewrite ctor_failed_ok in Hc. destruct (done_ok_releases _ _ _ _ _ _ _ (proj1 Hb) Hc Hst) as [_ [Hf|[[] Hl]]]; [left; by exists s0|right].
    rewrite (proj2 Hb) in cl_apinode0. by split_and!.
  - right. destruct Hb as [Hne Hb]. pose proof (failed_releases env st s0 Hne Hb) as H. rewrite Hc in H. destruct H as [[] ?]. by split_and!.
  - right. destruct Hb as [[Hb Hno] _]. destruct (decide (st = NV_OK)) as [->|Hne].
    + destruct (done_ok_releases _ _ _ _ _ _ _ Hb Hc Hst) as [Hyes _]. congruence.
    + pose proof (aborted_releases env st s0 Hne Hb) as H. rewrite Hc in H. destruct H as [[] ?]. by split_and!.
  - right. destruct Hb as [-> _]. injection Hc as <- <-. split_and!; [|done..|cbn; set_solver].
    intros r Hr. by repeat (apply elem_of_cons in Hr as [->|Hr]); [..|apply elem_of_nil in Hr].
Qed.
