(* ===== verification/ChannelGroupPolicy.v ===== *)
(** * The task-init policy of a channel group

    What the constructor of ChannelGroupCtor leaves behind when it succeeds:
    the timeslice and interleave level of the group, the values replayed to
    the firmware, and the diagnostic reports. *)

From S2P Require Import Prelude TransitionValidator Bpf SchedHooks ChannelGroup ChannelGroupCtor.

(** *** What a successful constructor leaves in the group and in the firmware *)

Definition rpcs (tr : list ctor_event) : list (Z * Z) :=
  omap (fun e => match e with ev_rpc_control cmd v => Some (cmd, v) | _ => None end) tr.

Lemma rpcs_snoc tr e :
  rpcs (tr ++ [e]) = rpcs tr ++ match e with ev_rpc_control cmd v => [(cmd, v)] | _ => [] end.
Proof. unfold rpcs. rewrite omap_app. by destruct e. Qed.

(** The group as the native defaults leave it. *)
Definition native_group (env : ctor_env) (g : KernelChannelGroup) : Prop :=
  grpID g = env_init_grpID env /\ runlistId g = env_init_runlistId env
  /\ timesliceUs g = env_init_timeslice env
  /\ interleave_of g (gpu_subdev (ce_gpu0 env)) = NVA06C_CTRL_INTERLEAVE_LEVEL_MEDIUM.

Definition before_policy (s : ctor_state) : Prop :=
  rpcs (cs_trace s) = [] /\ bPolicyTimeslice s = false /\ bPolicyInterleave s = false.

(** The policy's decision [v] is in force: in the group, in the flags. *)
Definition in_force (env : ctor_env) (v : nv_gpu_scheduler_validation_t) (s : ctor_state) : Prop :=
  timesliceUs (cs_group s) = sv_timeslice v
  /\ interleave_of (cs_group s) (gpu_subdev (ce_gpu0 env)) = sv_interleave v
  /\ bPolicyTimeslice s = is_apply (sv_timeslice_result v)
  /\ bPolicyInterleave s = is_apply (sv_interleave_result v).

Definition replayed (env : ctor_env) (v : nv_gpu_scheduler_validation_t) : list (Z * Z) :=
  if IS_GSP_CLIENT (ce_gpu0 env) && negb (env_skip_rpc env) then
    (if is_apply (sv_timeslice_result v)
     then [(NVA06C_CTRL_CMD_SET_TIMESLICE, sv_timeslice v)] else [])
    ++ (if is_apply (sv_interleave_result v)
        then [(NVA06C_CTRL_CMD_SET_INTERLEAVE_LEVEL, sv_interleave v)] else [])
  else [].

Ltac plain := intros; unfold before_policy, in_force in *; cbn in *; rewrite ?rpcs_snoc, ?app_nil_r; cbn; tauto.

Lemma prologue_before env :
  triple (eq ctor_state_zero) (ctor_prologue env) (fun _ => before_policy) (fun _ _ => True).
Proof.
  intros s <-. unfold ctor_prologue, ctor_when, ctor_bind, ctor_throw, ctor_ret, acquire,
    ctor_lock, ctor_upd. cbn zeta. repeat case_match; simplify_eq; done.
Qed.

Lemma params_before env : keeps before_policy (ctor_params env).
Proof. unfold ctor_params, ctor_engine, ctor_pools. keep; plain. Qed.

Lemma set_interleave_ok gpu g v g' :
  kchangrpSetInterleaveLevel gpu g v = (g', NV_OK) ->
  interleave_of g' (gpu_subdev gpu) = v /\ timesliceUs g' = timesliceUs g
  /\ grpID g' = grpID g /\ runlistId g' = runlistId g /\ engineType g' = engineType g.
Proof.
  unfold kchangrpSetInterleaveLevel. split_ifs; intros [= <-].
  unfold interleave_of. cbn. by rewrite lookup_insert_eq.
Qed.

Lemma init_native env :
  triple before_policy (ctor_init env)
    (fun _ s => before_policy s /\ native_group env (cs_group s)) (fun _ _ => True).
Proof.
  intros s Hs. unfold ctor_init, ctor_bind, ok_or_failed, upd_group, acquire, ctor_upd, ctor_get,
    ctor_ret, ctor_throw, ctor_when, ctor_emit, ctor_upd. destruct (env_init env =? NV_OK); [|done]. cbn.
  destruct (negb _ && _); cbn; unfold before_policy, native_group, interleave_of; cbn;
    by rewrite lookup_insert_eq, !rpcs_snoc, !app_nil_r.
Qed.

Lemma policy_validation_eq env ops g :
  let ks := task_init_calls ops (policy_decision env g) in
  let sn := mk_scheduler_snapshot (grpID g) (runlistId g) NV_GPU_SCHED_PHASE_DEFAULTS_READY in
  policy_validation env ops g
  = nv_gpu_transition_validate_scheduler sn sn (timesliceUs g)
      (interleave_of g (gpu_subdev (ce_gpu0 env))) kfifoRunlistGetMinTimeSlice
      (record_all (timeslice_values ks)) (record_all (interleave_values ks)).
Proof.
  unfold policy_validation. cbv zeta. unfold policy_decision. by rewrite task_init_hook.
Qed.

(** The validation never applies a value the setters refuse, and keeps the
    native one when it does not apply. *)
Lemma policy_validation_range env ops g :
  let v := policy_validation env ops g in
  (sv_timeslice_result v = NV_GPU_TRANSITION_APPLY -> 0 <= sv_timeslice v)
  /\ (sv_timeslice_result v <> NV_GPU_TRANSITION_APPLY -> sv_timeslice v = timesliceUs g)
  /\ (sv_interleave_result v = NV_GPU_TRANSITION_APPLY -> 0 <= sv_interleave v <= 2)
  /\ (sv_interleave_result v <> NV_GPU_TRANSITION_APPLY ->
      sv_interleave v = interleave_of g (gpu_subdev (ce_gpu0 env))).
Proof.
  rewrite policy_validation_eq. cbv zeta.
  set (ks := task_init_calls _ _). set (sn := mk_scheduler_snapshot _ _ _).
  destruct (validate_scheduler_spec sn sn (timesliceUs g)
    (interleave_of g (gpu_subdev (ce_gpu0 env))) kfifoRunlistGetMinTimeSlice
    (timeslice_values ks) (interleave_values ks)) as (H1 & H2 & H3 & H4).
  split_and!; [|exact H2| |exact H4]; intros Ha.
  - by destruct (proj1 (H1 _) (conj Ha eq_refl)) as (_ & _ & ?).
  - destruct (proj1 (H3 _) (conj Ha eq_refl)) as (_ & Hu & ?).
    apply unanimous_elem, interleave_values_width in Hu. unfold in_width in Hu. lia.
Qed.

Lemma applies_is_apply r : _kchangrpapiPolicyValueApplies r = is_apply r.
Proof. by destruct r. Qed.

Lemma set_timeslice_range g v :
  0 <= v -> kfifoChannelGroupSetTimeslice g v = (g <| timesliceUs := v |>, NV_OK).
Proof.
  intros. unfold kfifoChannelGroupSetTimeslice, kfifoRunlistGetMinTimeSlice.
  by rewrite (proj2 (Z.ltb_ge _ _)) by lia.
Qed.

Lemma set_interleave_range gpu g v :
  0 <= v <= 2 -> kchangrpSetInterleaveLevel gpu g v
  = (g <| pInterleaveLevel := <[gpu_subdev gpu := v]> (pInterleaveLevel g) |>, NV_OK).
Proof.
  intros. unfold kchangrpSetInterleaveLevel, NVA06C_CTRL_INTERLEAVE_LEVEL_LOW,
    NVA06C_CTRL_INTERLEAVE_LEVEL_MEDIUM, NVA06C_CTRL_INTERLEAVE_LEVEL_HIGH.
  destruct (_ || _) eqn:?; [done|lia].
Qed.

(** A setter of the group that succeeds. *)
Lemma triple_setter {B} P Q (F : KernelChannelGroup -> KernelChannelGroup * NV_STATUS)
    (f : NV_STATUS -> ctor B) R E :
  (forall s, P s -> exists g, F (cs_group s) = (g, NV_OK) /\ Q (s <| cs_group := g |>)) ->
  triple Q (f NV_OK) R E ->
  triple P (let! s := ctor_get in
            let '(g, status) := F (cs_group s) in
            upd_group (fun _ => g) ;;; f status) R E.
Proof.
  intros HF Hf s Hs. destruct (HF s Hs) as (g & Hg & HQ).
  unfold ctor_bind at 1. cbn [ctor_get]. rewrite Hg. exact (Hf _ HQ).
Qed.

(** One of the two halves of the policy block: it installs the value if it
    applies, with [P] before and [Q] after. *)
Lemma policy_half (P Q : ctor_state -> Prop) (b : bool)
    (F : KernelChannelGroup -> KernelChannelGroup * NV_STATUS) field mark :
  (b = true -> forall s, P s -> exists g, F (cs_group s) = (g, NV_OK)
     /\ Q (mark (emit (ev_diag NV_GPU_SCHED_INIT_DIAGNOSTIC_NATIVE_RETURN field 0)
                   (s <| cs_group := g |>)))) ->
  (b = false -> forall s, P s -> Q s) ->
  triple P
    (ctor_when b
      (let! s := ctor_get in
       let '(g, status) := F (cs_group s) in
       upd_group (fun _ => g) ;;;
       ctor_emit (ev_diag NV_GPU_SCHED_INIT_DIAGNOSTIC_NATIVE_RETURN field 0) ;;;
       ok_or_failed status ;;; ctor_upd mark))
    (fun _ => Q) (fun _ _ => True).
Proof.
  intros H1 H2. apply triple_when; [intros Hb|exact H2].
  apply (triple_setter _ (fun s => Q (mark (emit (ev_diag
    NV_GPU_SCHED_INIT_DIAGNOSTIC_NATIVE_RETURN field 0) s)))); [by apply H1|].
  by intros s Hs.
Qed.

(** The state between the two halves. *)
Definition half_force (env : ctor_env) (v : nv_gpu_scheduler_validation_t)
    (g0 : KernelChannelGroup) (s : ctor_state) : Prop :=
  timesliceUs (cs_group s) = sv_timeslice v
  /\ interleave_of (cs_group s) (gpu_subdev (ce_gpu0 env))
     = interleave_of g0 (gpu_subdev (ce_gpu0 env))
  /\ bPolicyTimeslice s = is_apply (sv_timeslice_result v)
  /\ bPolicyInterleave s = false /\ rpcs (cs_trace s) = [].

Lemma is_apply_true r : is_apply r = true -> r = NV_GPU_TRANSITION_APPLY.
Proof. by intros ?%bool_decide_eq_true. Qed.
Lemma is_apply_false r : is_apply r = false -> r <> NV_GPU_TRANSITION_APPLY.
Proof. by intros ?%bool_decide_eq_false. Qed.

Lemma policy_in_force env ops :
  triple (fun s => before_policy s /\ native_group env (cs_group s)) (ctor_policy env ops)
    (fun _ s => exists g, native_group env g /\ in_force env (policy_validation env ops g) s
                         /\ rpcs (cs_trace s) = [])
    (fun _ _ => True).
Proof.
  unfold ctor_policy. apply triple_get. intros s0.
  pose proof (policy_validation_range env ops (cs_group s0)) as (V1 & V2 & V3 & V4).
  assert (Hex : forall v, v = policy_validation env ops (cs_group s0) ->
    native_group env (cs_group s0) -> forall s, in_force env v s /\ rpcs (cs_trace s) = [] ->
    exists g, native_group env g /\ in_force env (policy_validation env ops g) s
              /\ rpcs (cs_trace s) = []) by (intros ? -> ? s [? ?]; eauto).
  specialize (Hex _ eq_refl).
  set (g0 := cs_group s0) in *. set (v := policy_validation env ops g0) in *. clearbody v.
  rewrite !applies_is_apply.
  apply (triple_bind _ _ _ (fun _ s => native_group env g0 /\ before_policy s /\ cs_group s = g0)).
  { apply triple_upd. intros s [-> [Hb Hg]]. split_and!; [done| |done].
    unfold before_policy in *. cbn. by rewrite rpcs_snoc, app_nil_r. }
  intros []. apply (triple_bind _ _ _ (fun _ s => native_group env g0 /\ half_force env v g0 s)).
  - apply (policy_half _ _ _ (fun g => kfifoChannelGroupSetTimeslice g (sv_timeslice v))).
    + intros Ha s (Hg & (Hr & Ht & Hi) & Hs). eexists. split.
      { by apply set_timeslice_range, V1, is_apply_true. }
      split; [done|]. unfold half_force. cbn. rewrite rpcs_snoc, app_nil_r, Hs, Ha. done.
    + intros Ha s (Hg & (Hr & Ht & Hi) & Hs). split; [done|]. unfold half_force.
      rewrite Hs, Ha, V2 by by apply is_apply_false. done.
  - intros []. apply (triple_conseq _ (fun s => native_group env g0 /\ half_force env v g0 s) _ _
      (fun _ s => native_group env g0 /\ in_force env v s /\ rpcs (cs_trace s) = []) _
      (fun _ _ => True)); [|done|intros _ s (? & ?); by apply Hex|done].
    apply (policy_half _ (fun s => native_group env g0 /\ in_force env v s /\ rpcs (cs_trace s) = [])
      _ (fun g => kchangrpSetInterleaveLevel (ce_gpu0 env) g (sv_interleave v))).
    + intros Ha s (Hg & Ht & Hi & Hpt & Hpi & Hr). eexists. split.
      { by apply set_interleave_range, V3, is_apply_true. }
      split; [done|]. unfold in_force, interleave_of. cbn.
      rewrite rpcs_snoc, app_nil_r, lookup_insert_eq, Ha. done.
    + intros Ha s (Hg & Ht & Hi & Hpt & Hpi & Hr). split; [done|]. unfold in_force.
      rewrite Ha, Hi, V4 by by apply is_apply_false. done.
Qed.

Lemma buffers_in_force env P :
  (forall s b, P s -> P (s <| bReserveMem := b |>)) ->
  (forall s, P s -> P (emit (ev_acquire res_grctx) (s <| hKernelGraphicsContext := true |>))) ->
  keeps P (ctor_buffers env).
Proof. intros H1 H2. unfold ctor_buffers. keep; auto. Qed.

Lemma replay_step env v l b cmd value :
  triple (fun s => in_force env v s /\ rpcs (cs_trace s) = l) (ctor_replay env b cmd value)
    (fun _ s => in_force env v s
       /\ rpcs (cs_trace s) = l ++ if IS_GSP_CLIENT (ce_gpu0 env) && b then [(cmd, value)] else [])
    (on_failed (fun _ => True)).
Proof.
  apply triple_when; intros ->; [|by intros s [? ->]; rewrite app_nil_r].
  apply (triple_bind _ _ _ (fun _ s => in_force env v s /\ rpcs (cs_trace s) = l ++ [(cmd, value)]));
    [apply triple_upd|intros []; apply keeps_end; [apply keeps_ok|done]].
  cbn. intros s [? <-]. by rewrite rpcs_snoc.
Qed.

Lemma remote_replays env v :
  triple (fun s => in_force env v s /\ rpcs (cs_trace s) = []) (ctor_remote env)
    (fun _ s => in_force env v s /\ rpcs (cs_trace s) = replayed env v)
    (on_failed (fun _ => True)).
Proof.
  unfold ctor_remote, replayed. apply triple_when; intros Hc.
  2: { intros s [? ->]. split; [done|]. destruct (IS_GSP_CLIENT _); [|done].
       rewrite orb_true_r in Hc. by rewrite Hc. }
  eapply keeps_then; [keep; plain|done|intros []].
  eapply keeps_then; [keep; plain|done|intros []].
  eapply keeps_then; [keep; plain|done|intros []].
  apply triple_get. intros s0 s [-> Hs]. destruct Hs as [Hf Hr].
  pose proof Hf as (Ht & Hi & Hpt & Hpi). rewrite Ht, Hi, Hpt, Hpi.
  cut (triple (fun s => in_force env v s /\ rpcs (cs_trace s) = [])
    (ctor_replay env (is_apply (sv_timeslice_result v)) NVA06C_CTRL_CMD_SET_TIMESLICE
       (sv_timeslice v) ;;;
     ctor_replay env (is_apply (sv_interleave_result v)) NVA06C_CTRL_CMD_SET_INTERLEAVE_LEVEL
       (sv_interleave v) ;;;
     ctor_when (IS_VIRTUAL_WITH_FULL_SRIOV (ce_gpu0 env) || IS_GSP_CLIENT (ce_gpu0 env))
       (ok_or_failed (env_promote env)))
    (fun _ s => in_force env v s /\ rpcs (cs_trace s) = replayed env v) (on_failed (fun _ => True)));
    [intros H; exact (H s0 (conj Hf Hr))|].
  eapply triple_bind; [apply replay_step|intros []].
  eapply triple_bind; [apply replay_step|intros []].
  apply (triple_pre _ (fun s => in_force env v s /\ rpcs (cs_trace s) = replayed env v));
    [apply keeps_end; [keep|done]|].
  intros s [? ->]. split; [done|]. unfold replayed. apply andb_true_iff in Hc as [_ ->].
  by destruct (IS_GSP_CLIENT _).
Qed.

(** A body that falls through has the policy's decision in force and replayed. *)
Lemma body_policy env ops :
  triple (eq ctor_state_zero) (ctor_body env ops)
    (fun _ s => exists g, native_group env g /\ in_force env (policy_validation env ops g) s
       /\ rpcs (cs_trace s) = replayed env (policy_validation env ops g))
    (fun _ _ => True).
Proof.
  eapply triple_bind; [apply prologue_before|intros []].
  eapply triple_bind; [eapply triple_exit; [apply params_before|done]|intros []].
  eapply triple_bind; [apply init_native|intros []].
  eapply triple_bind; [apply policy_in_force|intros []].
  eapply triple_bind; [eapply triple_exit; [apply buffers_in_force|done]|intros []].
  { intros s b Hs. exact Hs. }
  { intros s (g & ? & ? & Hr). exists g. cbn. by rewrite rpcs_snoc, app_nil_r. }
  apply (triple_bind _ _ _ (fun _ s => exists g, native_group env g
    /\ in_force env (policy_validation env ops g) s
    /\ rpcs (cs_trace s) = replayed env (policy_validation env ops g))).
  - intros s (g & Hg & Hs). pose proof (remote_replays env (policy_validation env ops g) s Hs) as H.
    destruct (ctor_remote env s) as [s' [[]|e]]; [|done]. exists g. by split.
  - intros []. eapply triple_exit; [apply (keeps_end _ _ (fun _ => True)); [unfold ctor_register; keep|done]|done].
    destruct H as (g & ? & ? & Hr). exists g. cbn. by rewrite rpcs_snoc, app_nil_r.
Qed.

Lemma finish_policy st s env :
  let s' := (ctor_finish st (ctor_unlock env s)).1 in
  cs_group s' = cs_group s /\ rpcs (cs_trace s') = rpcs (cs_trace s).
Proof.
  unfold ctor_finish. cbn [fst].
  destruct (release_if_step (bufInfoList (ctor_unlock env s)) res_bufinfo (ctor_unlock env s))
    as ([E1 _ _ _ _ _ _ _ _ _] & G1 & _).
  destruct (return_diag_step st (release_if (bufInfoList (ctor_unlock env s)) res_bufinfo
    (ctor_unlock env s))) as ([E2 _ _ _ _ _ _ _ _ _] & G2 & _).
  destruct (unlock_fields env s) as (Ht & _).
  assert (Hg : cs_group (ctor_unlock env s) = cs_group s)
    by (unfold ctor_unlock; by destruct (bLockAcquired s)).
  split; [congruence|]. rewrite E2, E1, Ht. unfold rpcs. rewrite !omap_app.
  by destruct (bufInfoList _), (bSchedDiagnosticActive _); cbn; rewrite ?app_nil_r.
Qed.

Lemma done_ok_ok env s s' :
  ctor_done env NV_OK s = (s', NV_OK) -> s' = (ctor_finish NV_OK (ctor_unlock env s)).1.
Proof.
  unfold ctor_done. destruct (_ && _ && _) eqn:Hb; [|by intros ->].
  apply andb_true_iff in Hb as [_ Hr].
  assert (He : env_reserve env <> NV_OK) by (intros He; by rewrite He in Hr).
  destruct (Z.eqb_spec (env_all_lock env) NV_OK) as [Hl|Hl]; cbn [negb].
  - unfold ctor_finish. intros [=]. done.
  - intros [=]. done.
Qed.

Lemma construct_ok_body env ops s :
  kchangrpapiConstruct env ops = (s, NV_OK) -> env_copy_ctor env = false ->
  exists s0, ctor_body env ops ctor_state_zero = (s0, inl tt)
             /\ s = (ctor_finish NV_OK (ctor_unlock env s0)).1.
Proof.
  unfold kchangrpapiConstruct. intros Hc Hcopy.
  pose proof (body_stage env ops ctor_state_zero eq_refl) as Hb.
  destruct (ctor_body env ops ctor_state_zero) as [s0 [[]|[st|st|st]]].
  - exists s0. split; [done|]. rewrite ctor_failed_ok in Hc. by apply done_ok_ok.
  - destruct Hb as [Hne _]. rewrite ctor_done_error in Hc by done. by inversion Hc.
  - destruct Hb as [_ Hne]. rewrite ctor_done_error in Hc by auto. inversion Hc. by destruct Hne.
  - destruct Hb as [_ Hne]. by inversion Hc.
Qed.

(** C30: the effect of a task-init policy on a channel group, from its calls to
    the firmware.  For every policy, when constructing a group succeeds: the
    timeslice is the one the policy asked for if all its timeslice calls agree,
    and the native default otherwise; the interleave level is the one asked for
    if all its interleave calls agree on a level of at most 2, and MEDIUM
    otherwise; and the controls replayed to the firmware are exactly the values
    that were applied, in that order, and none when no value was applied or the
    GPU is not a GSP client. *)
Theorem construct_policy_effect env ops s :
  kchangrpapiConstruct env ops = (s, NV_OK) -> env_copy_ctor env = false ->
  exists g, native_group env g /\
    let ks := task_init_calls ops (policy_decision env g) in
    let v := policy_validation env ops g in
    let level := interleave_of (cs_group s) (gpu_subdev (ce_gpu0 env)) in
    (forall x, unanimous (timeslice_values ks) x -> timesliceUs (cs_group s) = x)
    /\ ((forall x, ~ unanimous (timeslice_values ks) x) ->
        timesliceUs (cs_group s) = env_init_timeslice env)
    /\ (forall x, unanimous (interleave_values ks) x -> x <= 2 -> level = x)
    /\ ((forall x, unanimous (interleave_values ks) x -> 2 < x) ->
        level = NVA06C_CTRL_INTERLEAVE_LEVEL_MEDIUM)
    /\ rpcs (cs_trace s) = replayed env v.
Proof.
  intros Hc Hcopy. destruct (construct_ok_body env ops s Hc Hcopy) as (s0 & Hbody & ->).
  destruct (finish_policy NV_OK s0 env) as [-> ->].
  pose proof (body_policy env ops ctor_state_zero eq_refl) as Hb. rewrite Hbody in Hb.
  destruct Hb as (g & Hn & (F1 & F2 & _ & _) & Hrp). exists g. split; [done|].
  cbv zeta. rewrite Hrp. rewrite policy_validation_eq in *. cbv zeta in *.
  set (ks := task_init_calls _ _) in *. set (sn := mk_scheduler_snapshot _ _ _) in *.
  destruct (validate_scheduler_spec sn sn (timesliceUs g)
    (interleave_of g (gpu_subdev (ce_gpu0 env))) kfifoRunlistGetMinTimeSlice
    (timeslice_values ks) (interleave_values ks)) as (H1 & H2 & H3 & H4).
  set (v := nv_gpu_transition_validate_scheduler _ _ _ _ _ _ _) in *. clearbody v.
  destruct Hn as (_ & _ & Hts & Hil). rewrite F1, F2. split_and!; [| | | |done].
  - intros x Hx. apply (proj2 (H1 x)). split_and!; [done..|].
    apply unanimous_elem, timeslice_values_width in Hx. apply Hx.
  - intros Hno. rewrite H2, Hts; [done|]. intros Ha. apply (Hno (sv_timeslice v)).
    by apply (proj1 (H1 _) (conj Ha eq_refl)).
  - intros x Hx Hle. by apply (proj2 (H3 x)).
  - intros Hno. rewrite H4, Hil; [done|]. intros Ha.
    destruct (proj1 (H3 _) (conj Ha eq_refl)) as (_ & Hu & ?). specialize (Hno _ Hu). lia.
Qed.

(** *** Diagnostic reports *)

Lemma filter_return_failed env st s :
  filter is_return_diag (failed_events env st s) = when_ev (bSchedDiagnosticActive s) (return_diag st)
  /\ filter is_validated_diag (failed_events env st s) = [].
Proof.
  unfold failed_events, when_ev.
  by destruct (bSchedDiagnosticActive s), (bPolicyRemoteAllocated s), (env_rpc_free env =? NV_OK), (hKernelGraphicsContext s),
    (cs_has_group s), (bTsgAllocated s), (pCtxBufPool _), (pChannelBufPool _).
Qed.

(** The reports of the trace [tr]: one return report, with the status, exactly
    when the policy was consulted. *)
Definition reports (st : NV_STATUS) (tr : list ctor_event) : Prop :=
  filter is_return_diag tr
  = (if decide (filter is_validated_diag tr = []) then [] else [return_diag st])
  /\ (length (filter is_validated_diag tr) <= 1)%nat.

Definition unreported (s : ctor_state) : Prop :=
  filter is_return_diag (cs_trace s) = []
  /\ Z.of_nat (length (filter is_validated_diag (cs_trace s))) = Z.b2z (bSchedDiagnosticActive s).

Lemma reports_extend st s evs :
  unreported s ->
  filter is_return_diag evs = when_ev (bSchedDiagnosticActive s) (return_diag st) ->
  filter is_validated_diag evs = [] -> reports st (cs_trace s ++ evs).
Proof.
  intros [Hr Hv] H1 H2. unfold reports. rewrite !filter_app, Hr, H1, H2, app_nil_r.
  revert Hv. generalize (filter is_validated_diag (cs_trace s)).
  intros [|e [|e' l]]; destruct (bSchedDiagnosticActive s); cbn; intros; try lia;
    (split; [|lia]); by first [rewrite decide_True by done | rewrite decide_False by done].
Qed.

Lemma return_diag_reports st s : unreported s -> reports st (cs_trace (ctor_return_diag st s)).
Proof.
  intros Hs. destruct (return_diag_step st s) as ([-> _ _ _ _ _ _ _ _ _] & _).
  apply reports_extend; [done|..]; by destruct (bSchedDiagnosticActive s).
Qed.

Lemma release_unreported b r s : unreported s -> unreported (release_if b r s).
Proof.
  intros [Hr Hv]. destruct b; [|done]. unfold unreported, release_if, emit. cbn [cs_trace].
  cbn. rewrite !filter_app, Hr. cbn. rewrite app_nil_r. done.
Qed.

Lemma failed_reported env st s :
  st <> NV_OK -> unreported s -> reports st (cs_trace (ctor_failed env st s))
  /\ bSchedDiagnosticActive (ctor_failed env st s) = false.
Proof.
  intros Hne Hs. destruct (ctor_failed_eq env st s Hne) as [[-> _ _ _ _ _ _ _ _ _] Ha].
  split; [|done]. destruct (filter_return_failed env st s). by apply reports_extend.
Qed.

Lemma finish_reported st st' env s :
  reports st (cs_trace s) -> bSchedDiagnosticActive s = false ->
  reports st (cs_trace (ctor_finish st' (ctor_unlock env s)).1).
Proof.
  intros Hr Ha. unfold ctor_finish. cbn [fst].
  assert (Hu : cs_trace (ctor_unlock env s) = cs_trace s /\
               bSchedDiagnosticActive (ctor_unlock env s) = false)
    by (unfold ctor_unlock; by destruct (bLockAcquired s)).
  destruct Hu as [Hut Hua]. unfold release_if, ctor_return_diag, reports in *.
  destruct (bufInfoList _); cbn; rewrite Hua; cbn; rewrite Hut; [|done].
  rewrite !filter_app. cbn. by rewrite !app_nil_r.
Qed.

Lemma stage_unreported env rs d h s : stage env rs d h s -> unreported s.
Proof. by intros ([] & _). Qed.

Lemma unlock_unreported env s : unreported s -> unreported (ctor_unlock env s).
Proof. unfold ctor_unlock. by destruct (bLockAcquired s). Qed.

Lemma finish_reports st s : unreported s -> reports st (cs_trace (ctor_finish st s).1).
Proof. intros. by apply return_diag_reports, release_unreported. Qed.

Lemma done_ok_reports env s :
  unreported s -> let '(s', st) := ctor_done env NV_OK s in reports st (cs_trace s').
Proof.
  intros Hs. pose proof (unlock_unreported env s Hs) as Hu. unfold ctor_done.
  destruct (_ && _) eqn:Hb; [|by apply finish_reports].
  apply andb_true_iff in Hb as [_ Hr].
  assert (He : env_reserve env <> NV_OK) by (intros He; by rewrite He in Hr).
  destruct (Z.eqb_spec (env_all_lock env) NV_OK); cbn [negb]; [|by apply return_diag_reports].
  destruct (failed_reported env (env_reserve env) (ctor_unlock env s
    <| cs_locked := cs_locked (ctor_unlock env s) ∪ env_all_gpus env |> <| bLockAcquired := true |>))
    as [H1 H2]; [done|done|]. by apply finish_reported.
Qed.

(** Scheduler diagnostics are complete.  For every environment and policy,
    a constructor that consulted the policy emits exactly one
    constructor-return report, carrying the status it returns, on every
    success and failure path; one that did not consult it emits none. *)
Theorem construct_reports_once env ops :
  let '(s, status) := kchangrpapiConstruct env ops in
  filter is_return_diag (cs_trace s)
  = (if decide (filter is_validated_diag (cs_trace s) = []) then [] else [return_diag status])
  /\ (length (filter is_validated_diag (cs_trace s)) <= 1)%nat.
Proof.
  unfold kchangrpapiConstruct.
  pose proof (body_stage env ops ctor_state_zero eq_refl) as Hb.
  destruct (ctor_body env ops ctor_state_zero) as [s0 [[]|[st|st|st]]].
  - rewrite ctor_failed_ok. destruct Hb as [Hb _]. by eapply done_ok_reports, stage_unreported.
  - destruct Hb as [Hne Hb%stage_unreported]. rewrite ctor_done_error by done.
    destruct (failed_reported env st s0 Hne Hb). by apply finish_reported.
  - destruct Hb as [[Hb%stage_unreported _] _]. destruct (decide (st = NV_OK)) as [->|].
    + by apply done_ok_reports.
    + rewrite ctor_done_error by done. by apply finish_reports, unlock_unreported.
  - destruct Hb as [-> _]. split; [by rewrite decide_True|cbn; lia].
Qed.

(** ** Witnesses

    A GSP client in a system with a second GPU, and a policy that asks for a
    timeslice of 500us and the highest interleave level. *)
Definition demo_env (engine : Z) (promote reserve : NV_STATUS) : ctor_env :=
  mk_ctor_env (mk_gpu 0 0 false true false) false NV_OK false true NV_OK {[0]} {[0; 1]}
    NV_OK true NV_OK NV_OK true engine false NV_OK (fun e => (NV_OK, e)) false 0 (NV_OK, true)
    false false NV_OK false false (NV_OK, true) (NV_OK, true)
    NV_OK 5 3 2000 7 NV_OK
    false false false true NV_OK false false NV_OK
    false NV_OK (fun _ _ => NV_OK) promote true
    NV_OK reserve NV_OK.

Definition demo_ops : option nv_gpu_sched_ops :=
  Some (mk_sched_ops
    (Some (fun _ => bpf_call (call_set_timeslice 500) (fun _ =>
                    bpf_call (call_set_interleave 2) (fun _ => bpf_exit 0))))
    None None None).

(** Promoting the method buffers fails after the remote object was allocated, which is
    freed. *)
Lemma construct_failure_releases_witness :
  held res_remote (cs_trace (kchangrpapiConstruct (demo_env 1 NV_ERR_GENERIC NV_OK) demo_ops).1) = 0.
Proof.
  destruct (construct_failure_releases (demo_env 1 NV_ERR_GENERIC NV_OK) demo_ops
           (kchangrpapiConstruct (demo_env 1 NV_ERR_GENERIC NV_OK) demo_ops).1 NV_ERR_GENERIC)
    as [(s0 & _ & Hr & _)|(_ & _ & Hrem & _)]; [vm_compute; reflexivity|discriminate| |].
  - by destruct Hr.
  - exact (Hrem eq_refl ltac:(vm_compute; reflexivity)).
Defined.

Lemma construct_policy_effect_witness :
  let s := (kchangrpapiConstruct (demo_env 1 NV_OK NV_OK) demo_ops).1 in
  timesliceUs (cs_group s) = 500
  /\ rpcs (cs_trace s) = [(NVA06C_CTRL_CMD_SET_TIMESLICE, 500);
                          (NVA06C_CTRL_CMD_SET_INTERLEAVE_LEVEL, 2)].
Proof.
  split; [|vm_compute; reflexivity].
  destruct (construct_policy_effect (demo_env 1 NV_OK NV_OK) demo_ops
    (kchangrpapiConstruct (demo_env 1 NV_OK NV_OK) demo_ops).1) as (g & _ & Ht & _);
    [vm_compute; reflexivity..|].
  apply Ht. vm_compute. split; [done|repeat constructor].
Defined.

(** C31: a flaw of the cleanup path.  When reserving the context buffers of a
    fully constructed group fails, the constructor takes the locks of all GPUs
    again but releases only those of its own device: it returns with the locks
    of every other GPU held. *)
Theorem construct_leaks_other_locks env ops s0 :
  ctor_body env ops ctor_state_zero = (s0, inl tt) -> bReserveMem s0 = true ->
  env_reserve env <> NV_OK -> env_all_lock env = NV_OK ->
  let '(s, status) := kchangrpapiConstruct env ops in
  status = env_reserve env /\ cs_locked s = env_all_gpus env ∖ env_device_gpus env.
Proof.
  intros Hbody Hrm Hres Hall. unfold kchangrpapiConstruct.
  pose proof (body_stage env ops ctor_state_zero eq_refl) as Hb. rewrite Hbody in *.
  rewrite ctor_failed_ok. destruct Hb as [([_ _ _ Hl _ _] & _) _].
  assert (Hd : (ctor_done env NV_OK s0).2 <> NV_OK).
  { unfold ctor_done. destruct (unlock_fields env s0) as (_ & _ & -> & _).
    by rewrite Hrm, Hall, (proj2 (Z.eqb_neq _ _) Hres). }
  destruct (ctor_done_reserve env s0 Hd) as (_ & _ & ->). rewrite Hall, Z.eqb_refl.
  set (s2 := _ <| bLockAcquired := true |>). destruct (ctor_failed_eq env _ s2 Hres) as [E _].
  pose proof (finish_fields (env_reserve env)
    (ctor_unlock env (ctor_failed env (env_reserve env) s2))) as (_ & Hf & _).
  unfold ctor_finish in *. split; [done|]. cbn [fst] in Hf. rewrite Hf.
  destruct (unlock_fields env (ctor_failed env (env_reserve env) s2)) as (_&_&_&_&_&->).
  rewrite (ext_lock _ _ _ E), (ext_locked _ _ _ E). cbn.
  rewrite unlock_locked by done. set_solver.
Qed.

Lemma construct_leaks_other_locks_witness :
  1 ∈ cs_locked (kchangrpapiConstruct (demo_env 1 NV_OK NV_ERR_NO_MEMORY) demo_ops).1.
Proof.
  assert (H := construct_leaks_other_locks (demo_env 1 NV_OK NV_ERR_NO_MEMORY) demo_ops
    (ctor_body (demo_env 1 NV_OK NV_ERR_NO_MEMORY) demo_ops ctor_state_zero).1).
  do 4 (let X := fresh in match type of H with ?P -> _ =>
    assert (X : P) by (vm_compute; done); specialize (H X); clear X end).
  destruct (kchangrpapiConstruct _ _) as [s st]. destruct H as [_ H]. cbn [fst]. rewrite H.
  apply elem_of_difference. cbn [env_all_gpus env_device_gpus demo_env]. set_solver.
Defined.
