(* ===== verification/PageMask.v ===== *)
(** * VA block regions and page masks

    Model of the [uvm_va_block_region_t] and [uvm_page_mask_t] helpers of
    kernel-open/nvidia-uvm/uvm_va_block.h and of the big-page regions of
    uvm_va_block.c.  A page mask is the integer whose bit [i] is the bitmap's
    bit [i]; a write past the 512 bits of the array is a bit set at or above
    512, so that "the mask stays inside the block" is also memory safety.

    [UVM_ASSERT] is part of the model: a function that contains one, or calls
    such a function, returns an option, and [None] is a failed assertion. *)

From S2P Require Import Prelude.

(** ** Constants and data (uvm_va_block_types.h) *)
Definition PAGE_SHIFT : Z := 12.
Definition PAGE_SIZE : Z := 4096.
Definition UVM_VA_BLOCK_SIZE : Z := 2 ^ 21.
Definition PAGES_PER_UVM_VA_BLOCK : Z := 512.
Definition UVM_PAGE_SIZE_64K : Z := 65536.
Definition UVM_PAGE_SIZE_2M : Z := 2 ^ 21.

(** The type of page indices is the narrowest that holds twice the pages of
    a block: 16 bits for 4KB pages. *)
Definition uvm_page_index_t : Z -> Z := NvU16.

Record uvm_va_block_region_t := mk_region {
  first : Z;
  outer : Z;
}.

#[export] Instance eta_region : Settable uvm_va_block_region_t :=
  fun r => mk_region (first r) (outer r).
#[export] Instance region_eq_dec : EqDecision uvm_va_block_region_t.
Proof. solve_decision. Defined.

Definition uvm_page_mask_t := Z.

(** What the helpers use of a VA block: its inclusive address range. *)
Record va_range := mk_va_range {
  start : Z;
  end_ : Z;
}.

(** [UVM_ASSERT(b)] followed by the rest of the function. *)
Notation "'UVM_ASSERT' b ; k" := (if b then k else None)
  (at level 100, b at level 99, k at level 200, right associativity) : nv_scope.

(** ** The kernel's bitmap library *)

(** The first index of [i, i + n) where [p] holds, or [i + n]. *)
Fixpoint scan (p : Z -> bool) (n : nat) (i : Z) : Z :=
  match n with
  | O => i
  | S n => if p i then i else scan p n (i + 1)
  end.

Definition find_next (p : Z -> bool) (size offset : Z) : Z :=
  if size <=? offset then size else scan p (Z.to_nat (size - offset)) offset.

Definition find_next_bit (m : Z) (size offset : Z) : Z := find_next (Z.testbit m) size offset.
Definition find_next_zero_bit (m : Z) (size offset : Z) : Z :=
  find_next (fun i => negb (Z.testbit m i)) size offset.

(** The number of indices of [i, i + n) where [p] holds. *)
Fixpoint count (p : Z -> bool) (n : nat) (i : Z) : Z :=
  match n with
  | O => 0
  | S n => Z.b2z (p i) + count p n (i + 1)
  end.

Definition bitmap_weight (m : Z) (nbits : Z) : Z := count (Z.testbit m) (Z.to_nat nbits) 0.
Definition bitmap_set (m : Z) (pos nbits : Z) : Z := Z.lor m (Z.shiftl (Z.ones nbits) pos).
Definition bitmap_clear (m : Z) (pos nbits : Z) : Z := Z.ldiff m (Z.shiftl (Z.ones nbits) pos).
Definition bitmap_shift_right (m shift nbits : Z) : Z :=
  Z.shiftr (Z.land m (Z.ones nbits)) shift.
Definition bitmap_shift_left (m shift nbits : Z) : Z :=
  Z.land (Z.shiftl m shift) (Z.ones nbits).

(** ** Regions *)
Definition uvm_va_block_region (f o : Z) : option uvm_va_block_region_t :=
  let f := uvm_page_index_t f in
  let o := uvm_page_index_t o in
  UVM_ASSERT (f <=? o);
  Some (mk_region f o).

Definition uvm_va_block_region_for_page (page_index : Z) : option uvm_va_block_region_t :=
  uvm_va_block_region page_index (page_index + 1).

(** A [size_t] difference of two page indices. *)
Definition uvm_va_block_region_num_pages (region : uvm_va_block_region_t) : Z :=
  NvU64 (outer region - first region).

Definition uvm_va_block_region_size (region : uvm_va_block_region_t) : Z :=
  NvU64 (uvm_va_block_region_num_pages region * PAGE_SIZE).

Definition uvm_va_block_region_start (b : va_range) (region : uvm_va_block_region_t) : Z :=
  NvU64 (start b + first region * PAGE_SIZE).

Definition uvm_va_block_region_end (b : va_range) (region : uvm_va_block_region_t) : Z :=
  NvU64 (start b + outer region * PAGE_SIZE - 1).

Definition uvm_va_block_region_contains_region (region subregion : uvm_va_block_region_t) : bool :=
  (first region <=? first subregion) && (outer subregion <=? outer region).

Definition uvm_va_block_region_contains_page (region : uvm_va_block_region_t) (page_index : Z)
    : option bool :=
  page ← uvm_va_block_region_for_page page_index;
  Some (uvm_va_block_region_contains_region region page).

Definition PAGE_ALIGNED (addr : Z) : bool := addr mod PAGE_SIZE =? 0.

Definition uvm_va_block_size (b : va_range) : option Z :=
  let size := NvU64 (end_ b - start b + 1) in
  UVM_ASSERT PAGE_ALIGNED size;
  UVM_ASSERT (PAGE_SIZE <=? size);
  UVM_ASSERT (size <=? UVM_VA_BLOCK_SIZE);
  Some size.

Definition uvm_va_block_num_cpu_pages (b : va_range) : option Z :=
  size ← uvm_va_block_size b; Some (size / PAGE_SIZE).

Definition uvm_va_block_cpu_page_address (b : va_range) (page_index : Z) : option Z :=
  n ← uvm_va_block_num_cpu_pages b;
  UVM_ASSERT (page_index <? n);
  Some (NvU64 (start b + PAGE_SIZE * page_index)).

Definition uvm_va_block_cpu_page_index (b : va_range) (addr : Z) : option Z :=
  UVM_ASSERT (start b <=? addr);
  UVM_ASSERT (addr <=? end_ b);
  Some (uvm_page_index_t ((addr - start b) / PAGE_SIZE)).

Definition uvm_va_block_region_from_start_end (b : va_range) (s e : Z)
    : option uvm_va_block_region_t :=
  UVM_ASSERT (s <? e);
  UVM_ASSERT (start b <=? s);
  UVM_ASSERT (e <=? end_ b);
  UVM_ASSERT PAGE_ALIGNED s;
  UVM_ASSERT PAGE_ALIGNED (NvU64 (e + 1));
  f ← uvm_va_block_cpu_page_index b s;
  o ← uvm_va_block_cpu_page_index b e;
  Some (mk_region f (uvm_page_index_t (o + 1))).

Definition uvm_va_block_region_from_start_size (b : va_range) (s size : Z)
    : option uvm_va_block_region_t :=
  uvm_va_block_region_from_start_end b s (NvU64 (s + size - 1)).

Definition uvm_va_block_region_from_block (b : va_range) : option uvm_va_block_region_t :=
  n ← uvm_va_block_num_cpu_pages b; uvm_va_block_region 0 n.

(** The alignment macros of uvm_common.h at 64 bits. *)
Definition is_power_of_2 (a : Z) : bool := (0 <? a) && (2 ^ Z.log2 a =? a).

Definition UVM_ALIGN_DOWN (x a : Z) : option Z :=
  UVM_ASSERT is_power_of_2 a;
  Some (Z.ldiff x (a - 1)).

Definition UVM_ALIGN_UP (x a : Z) : option Z :=
  UVM_ASSERT is_power_of_2 a;
  Some (Z.ldiff (NvU64 (x + a - 1)) (a - 1)).

(** [ilog2] is a right shift amount. *)
Definition uvm_div_pow2_64 (numerator denominator_pow2 : Z) : option Z :=
  UVM_ASSERT is_power_of_2 denominator_pow2;
  UVM_ASSERT negb (denominator_pow2 =? 0);
  Some (Z.shiftr numerator (Z.log2 denominator_pow2)).

Definition uvm_va_block_chunk_region (b : va_range) (chunk_size page_index : Z)
    : option uvm_va_block_region_t :=
  page_addr ← uvm_va_block_cpu_page_address b page_index;
  chunk_start_addr ← UVM_ALIGN_DOWN page_addr chunk_size;
  let f := uvm_page_index_t (NvU64 (chunk_start_addr - start b) / PAGE_SIZE) in
  uvm_va_block_region f (f + chunk_size / PAGE_SIZE).

(** The pages of [s, e] that lie in whole big pages, relative to [s]
    (uvm_va_block.c). *)
Definition range_big_page_region_all (s e big_page_size : Z) : option uvm_va_block_region_t :=
  first_addr ← UVM_ALIGN_UP s big_page_size;
  outer_addr ← UVM_ALIGN_DOWN (NvU64 (e + 1)) big_page_size;
  s_down ← UVM_ALIGN_DOWN s UVM_VA_BLOCK_SIZE;
  e_down ← UVM_ALIGN_DOWN e UVM_VA_BLOCK_SIZE;
  UVM_ASSERT (s_down =? e_down);
  if outer_addr <=? first_addr then uvm_va_block_region 0 0
  else uvm_va_block_region (NvU64 (first_addr - s) / PAGE_SIZE) (NvU64 (outer_addr - s) / PAGE_SIZE).

Definition range_num_big_pages (s e big_page_size : Z) : option Z :=
  region ← range_big_page_region_all s e big_page_size;
  uvm_div_pow2_64 (uvm_va_block_region_size region) big_page_size.

Definition uvm_va_block_big_page_region_all (b : va_range) (big_page_size : Z)
    : option uvm_va_block_region_t :=
  range_big_page_region_all (start b) (end_ b) big_page_size.

Definition uvm_va_block_big_page_region_subset (b : va_range) (region : uvm_va_block_region_t)
    (big_page_size : Z) : option uvm_va_block_region_t :=
  let s := uvm_va_block_region_start b region in
  let e := uvm_va_block_region_end b region in
  UVM_ASSERT (s <? end_ b);
  UVM_ASSERT (e <=? end_ b);
  big_region ← range_big_page_region_all s e big_page_size;
  if negb (outer big_region =? 0) then
    Some (mk_region (uvm_page_index_t (first big_region + first region))
                    (uvm_page_index_t (outer big_region + first region)))
  else Some big_region.

Definition uvm_va_block_num_big_pages (b : va_range) (big_page_size : Z) : option Z :=
  range_num_big_pages (start b) (end_ b) big_page_size.

Definition uvm_va_block_big_page_addr (b : va_range) (big_page_index big_page_size : Z)
    : option Z :=
  base ← UVM_ALIGN_UP (start b) big_page_size;
  let addr := NvU64 (base + big_page_index * big_page_size) in
  UVM_ASSERT (start b <=? addr);
  UVM_ASSERT (addr <? end_ b);
  Some addr.

Definition uvm_va_block_big_page_region (b : va_range) (big_page_index big_page_size : Z)
    : option uvm_va_block_region_t :=
  page_addr ← uvm_va_block_big_page_addr b big_page_index big_page_size;
  UVM_ASSERT (PAGE_SIZE <=? big_page_size);
  uvm_va_block_region_from_start_size b page_addr big_page_size.

Definition MAX_BIG_PAGES_PER_UVM_VA_BLOCK : Z := UVM_VA_BLOCK_SIZE / UVM_PAGE_SIZE_64K.

Definition uvm_va_block_big_page_index (b : va_range) (page_index big_page_size : Z) : option Z :=
  big_region_all ← uvm_va_block_big_page_region_all b big_page_size;
  if (page_index <? first big_region_all) || (outer big_region_all <=? page_index)
  then Some MAX_BIG_PAGES_PER_UVM_VA_BLOCK
  else
    big_index ← uvm_div_pow2_64 (NvU64 ((page_index - first big_region_all) * PAGE_SIZE))
                  big_page_size;
    addr ← uvm_va_block_big_page_addr b big_index big_page_size;
    UVM_ASSERT (start b <=? addr);
    UVM_ASSERT (NvU64 (addr + big_page_size) <=? NvU64 (end_ b + 1));
    Some big_index.

(** [find_last_bit]: the highest set bit below [size], or [size]. *)
Definition find_last_bit (m size : Z) : Z :=
  match filter (fun i => Z.testbit m i = true) (reverse (seqZ 0 size)) with
  | i :: _ => i
  | [] => size
  end.

(** [va_block == NULL] is [None]. *)
Definition uvm_va_block_region_from_mask (b : option va_range) (page_mask : uvm_page_mask_t)
    : option uvm_va_block_region_t :=
  o ← match b with
      | Some b => uvm_va_block_num_cpu_pages b
      | None => Some PAGES_PER_UVM_VA_BLOCK
      end;
  let f := find_next_bit page_mask o 0 in
  if o <=? f then uvm_va_block_region 0 0
  else
    let o' := find_last_bit page_mask o + 1 in
    UVM_ASSERT (o' <=? o);
    Some (mk_region f o').

(** ** Page masks *)
Definition uvm_page_mask_test (mask : uvm_page_mask_t) (page_index : Z) : option bool :=
  UVM_ASSERT (page_index <? PAGES_PER_UVM_VA_BLOCK);
  Some (Z.testbit mask page_index).

Definition uvm_page_mask_set (mask : uvm_page_mask_t) (page_index : Z) : option uvm_page_mask_t :=
  UVM_ASSERT (page_index <? PAGES_PER_UVM_VA_BLOCK);
  Some (Z.setbit mask page_index).

Definition uvm_page_mask_clear (mask : uvm_page_mask_t) (page_index : Z) : option uvm_page_mask_t :=
  UVM_ASSERT (page_index <? PAGES_PER_UVM_VA_BLOCK);
  Some (Z.clearbit mask page_index).

Definition uvm_page_mask_test_and_set (mask : uvm_page_mask_t) (page_index : Z)
    : option (bool * uvm_page_mask_t) :=
  UVM_ASSERT (page_index <? PAGES_PER_UVM_VA_BLOCK);
  Some (Z.testbit mask page_index, Z.setbit mask page_index).

Definition uvm_page_mask_test_and_clear (mask : uvm_page_mask_t) (page_index : Z)
    : option (bool * uvm_page_mask_t) :=
  UVM_ASSERT (page_index <? PAGES_PER_UVM_VA_BLOCK);
  Some (Z.testbit mask page_index, Z.clearbit mask page_index).

Definition uvm_page_mask_region_test (mask : option uvm_page_mask_t)
    (region : uvm_va_block_region_t) (page_index : Z) : option bool :=
  inside ← uvm_va_block_region_contains_page region page_index;
  if negb inside then Some false
  else match mask with
       | None => Some true
       | Some mask => uvm_page_mask_test mask page_index
       end.

Definition uvm_page_mask_region_weight (mask : uvm_page_mask_t) (region : uvm_va_block_region_t)
    : Z :=
  let weight_before := if 0 <? first region then bitmap_weight mask (first region) else 0 in
  NvU32 (bitmap_weight mask (outer region) - weight_before).

Definition uvm_page_mask_region_empty (mask : uvm_page_mask_t) (region : uvm_va_block_region_t)
    : bool :=
  find_next_bit mask (outer region) (first region) =? outer region.

Definition uvm_page_mask_region_full (mask : uvm_page_mask_t) (region : uvm_va_block_region_t)
    : bool :=
  find_next_zero_bit mask (outer region) (first region) =? outer region.

Definition uvm_page_mask_region_fill (mask : uvm_page_mask_t) (region : uvm_va_block_region_t)
    : uvm_page_mask_t :=
  bitmap_set mask (first region) (outer region - first region).

Definition uvm_page_mask_region_clear (mask : uvm_page_mask_t) (region : uvm_va_block_region_t)
    : uvm_page_mask_t :=
  bitmap_clear mask (first region) (outer region - first region).

Definition uvm_page_mask_region_clear_outside (mask : uvm_page_mask_t)
    (region : uvm_va_block_region_t) : uvm_page_mask_t :=
  let mask := if 0 <? first region then bitmap_clear mask 0 (first region) else mask in
  if outer region <? PAGES_PER_UVM_VA_BLOCK
  then bitmap_clear mask (outer region) (PAGES_PER_UVM_VA_BLOCK - outer region)
  else mask.

Definition uvm_page_mask_zero : uvm_page_mask_t := 0.
Definition uvm_page_mask_fill : uvm_page_mask_t := Z.ones PAGES_PER_UVM_VA_BLOCK.
Definition uvm_page_mask_empty (mask : uvm_page_mask_t) : bool := mask =? 0.
Definition uvm_page_mask_full (mask : uvm_page_mask_t) : bool :=
  mask =? Z.ones PAGES_PER_UVM_VA_BLOCK.

(** The operations with an output mask return it; [uvm_page_mask_and] and
    [uvm_page_mask_andnot] also return whether it is non-empty. *)
Definition uvm_page_mask_and (in1 in2 : uvm_page_mask_t) : uvm_page_mask_t * bool :=
  let out := Z.land in1 in2 in (out, negb (out =? 0)).
Definition uvm_page_mask_andnot (in1 in2 : uvm_page_mask_t) : uvm_page_mask_t * bool :=
  let out := Z.ldiff in1 in2 in (out, negb (out =? 0)).
Definition uvm_page_mask_or (in1 in2 : uvm_page_mask_t) : uvm_page_mask_t := Z.lor in1 in2.
Definition uvm_page_mask_complement (m : uvm_page_mask_t) : uvm_page_mask_t :=
  Z.ldiff (Z.ones PAGES_PER_UVM_VA_BLOCK) m.
Definition uvm_page_mask_copy (m : uvm_page_mask_t) : uvm_page_mask_t := m.
Definition uvm_page_mask_weight (mask : uvm_page_mask_t) : Z :=
  bitmap_weight mask PAGES_PER_UVM_VA_BLOCK.
Definition uvm_page_mask_subset (subset mask : uvm_page_mask_t) : bool :=
  Z.ldiff subset mask =? 0.
Definition uvm_page_mask_equal (in1 in2 : uvm_page_mask_t) : bool := in1 =? in2.
Definition uvm_page_mask_intersects (mask1 mask2 : uvm_page_mask_t) : bool :=
  negb (Z.land mask1 mask2 =? 0).
Definition uvm_page_mask_shift_right (m shift : Z) : uvm_page_mask_t :=
  bitmap_shift_right m shift PAGES_PER_UVM_VA_BLOCK.
Definition uvm_page_mask_shift_left (m shift : Z) : uvm_page_mask_t :=
  bitmap_shift_left m shift PAGES_PER_UVM_VA_BLOCK.

Definition uvm_page_mask_init_from_region (region : uvm_va_block_region_t)
    (mask_in : option uvm_page_mask_t) : uvm_page_mask_t * bool :=
  let out := uvm_page_mask_region_fill uvm_page_mask_zero region in
  match mask_in with
  | Some mask_in => uvm_page_mask_and out mask_in
  | None => (out, true)
  end.

(** ** Iteration *)
Definition uvm_va_block_first_subregion_in_mask (region : uvm_va_block_region_t)
    (page_mask : option uvm_page_mask_t) : uvm_va_block_region_t :=
  match page_mask with
  | None => region
  | Some m =>
      let f := uvm_page_index_t (find_next_bit m (outer region) (first region)) in
      mk_region f (uvm_page_index_t (find_next_zero_bit m (outer region) (f + 1)))
  end.

Definition uvm_va_block_next_subregion_in_mask (region : uvm_va_block_region_t)
    (page_mask : option uvm_page_mask_t) (previous_subregion : uvm_va_block_region_t)
    : uvm_va_block_region_t :=
  match page_mask with
  | None => mk_region (outer region) (outer region)
  | Some m =>
      let f := uvm_page_index_t (find_next_bit m (outer region) (outer previous_subregion + 1)) in
      mk_region f (uvm_page_index_t (find_next_zero_bit m (outer region) (f + 1)))
  end.

(** [for_each_va_block_subregion_in_mask]: the subregions visited, in order.
    [fuel] bounds the number of visits. *)
Fixpoint subregions_from (fuel : nat) (region : uvm_va_block_region_t)
    (page_mask : option uvm_page_mask_t) (subregion : uvm_va_block_region_t)
    : option (list uvm_va_block_region_t) :=
  if first subregion =? outer region then Some []
  else match fuel with
       | O => None
       | S fuel =>
           rest ← subregions_from fuel region page_mask
                    (uvm_va_block_next_subregion_in_mask region page_mask subregion);
           Some (subregion :: rest)
       end.

Definition for_each_va_block_subregion_in_mask (page_mask : option uvm_page_mask_t)
    (region : uvm_va_block_region_t) : option (list uvm_va_block_region_t) :=
  subregions_from (Z.to_nat PAGES_PER_UVM_VA_BLOCK) region page_mask
    (uvm_va_block_first_subregion_in_mask region page_mask).

Definition uvm_va_block_first_page_in_mask (region : uvm_va_block_region_t)
    (page_mask : option uvm_page_mask_t) : Z :=
  match page_mask with
  | Some m => uvm_page_index_t (find_next_bit m (outer region) (first region))
  | None => first region
  end.

Definition uvm_va_block_next_page_in_mask (region : uvm_va_block_region_t)
    (page_mask : option uvm_page_mask_t) (previous_page : Z) : option Z :=
  match page_mask with
  | Some m => Some (uvm_page_index_t (find_next_bit m (outer region) (previous_page + 1)))
  | None =>
      UVM_ASSERT (previous_page <? outer region);
      Some (uvm_page_index_t (previous_page + 1))
  end.

Definition uvm_va_block_first_unset_page_in_mask (region : uvm_va_block_region_t)
    (page_mask : option uvm_page_mask_t) : Z :=
  match page_mask with
  | Some m => uvm_page_index_t (find_next_zero_bit m (outer region) (first region))
  | None => first region
  end.

Definition uvm_va_block_next_unset_page_in_mask (region : uvm_va_block_region_t)
    (page_mask : option uvm_page_mask_t) (previous_page : Z) : option Z :=
  match page_mask with
  | Some m => Some (uvm_page_index_t (find_next_zero_bit m (outer region) (previous_page + 1)))
  | None =>
      UVM_ASSERT (previous_page <? outer region);
      Some (uvm_page_index_t (previous_page + 1))
  end.

(** [for_each_va_block_page_in_region_mask] with a loop body on a state; the
    body says with its boolean whether it breaks out of the loop. *)
Section for_each_page.
Context {S : Type} (body : Z -> S -> option (S * bool)).

Fixpoint pages_from (fuel : nat) (region : uvm_va_block_region_t)
    (page_mask : option uvm_page_mask_t) (page_index : Z) (s : S) : option S :=
  if page_index =? outer region then Some s
  else match fuel with
       | O => None
       | Datatypes.S fuel =>
           '(s, stop) ← body page_index s;
           if stop : bool then Some s
           else
             next ← uvm_va_block_next_page_in_mask region page_mask page_index;
             pages_from fuel region page_mask next s
       end.

Definition for_each_va_block_page_in_region_mask (page_mask : option uvm_page_mask_t)
    (region : uvm_va_block_region_t) (s : S) : option S :=
  pages_from (Z.to_nat PAGES_PER_UVM_VA_BLOCK) region page_mask
    (uvm_va_block_first_page_in_mask region page_mask) s.
End for_each_page.

(** ** Lemmas: the bitmap library *)

#[local] Coercion Z.of_nat : nat >-> Z.

Lemma scan_spec p n i :
  i <= scan p n i <= i + n
  /\ (forall j, i <= j < scan p n i -> p j = false)
  /\ (scan p n i < i + n -> p (scan p n i) = true).
Proof.
  revert i. induction n as [|n IH]; intros i; cbn; [split_and!; [lia..|intros; lia]|].
  destruct (p i) eqn:Hp; [split_and!; [lia..|done]|].
  destruct (IH (i + 1)) as (?&Hb&Ht). split_and!; [lia..| |intros; apply Ht; lia].
  intros j Hj. destruct (decide (j = i)) as [->|]; [done|]. apply Hb. lia.
Qed.

Lemma find_next_spec p size off :
  let r := find_next p size off in
  (off <= size -> off <= r) /\ r <= size
  /\ (forall j, off <= j < r -> p j = false)
  /\ (r < size -> p r = true /\ off <= r).
Proof.
  cbn zeta. unfold find_next. case_match; [split_and!; try lia; intros; lia|].
  destruct (scan_spec p (Z.to_nat (size - off)) off) as (?&?&?).
  rewrite !Z2Nat.id in * by lia. split_and!; [lia..|done|intros; split; [|lia]; apply H2; lia].
Qed.

(** [find_next] is determined by its specification. *)
Lemma find_next_all p size off :
  off <= size -> find_next p size off = size <-> (forall j, off <= j < size -> p j = false).
Proof.
  destruct (find_next_spec p size off) as (?&?&Hb&Ht). split.
  - intros Heq j ?. apply Hb. lia.
  - intros Hall. destruct (decide (find_next p size off < size)); [|lia].
    destruct Ht as [Ht ?]; [lia|]. rewrite Hall in Ht by lia. done.
Qed.

Lemma count_bounds p n i : 0 <= count p n i <= n.
Proof.
  revert i. induction n as [|n IH]; intros i; cbn; [lia|].
  specialize (IH (i + 1)). destruct (p i); cbn; lia.
Qed.

Lemma count_app p n m i : count p (n + m) i = count p n i + count p m (i + n).
Proof.
  revert i. induction n as [|n IH]; intros i; cbn [count Nat.add];
    [by rewrite Z.add_0_l, Z.add_0_r|].
  rewrite IH. replace (i + 1 + n) with (i + S n) by lia. lia.
Qed.

Lemma count_ext p q (n : nat) i :
  (forall j, i <= j < i + n -> p j = q j) -> count p n i = count q n i.
Proof.
  revert i. induction n as [|n IH]; intros i Heq; cbn; [done|].
  rewrite Heq by lia. f_equal. apply IH. intros. apply Heq. lia.
Qed.

Lemma count_zero p (n : nat) i : count p n i = 0 <-> (forall j, i <= j < i + n -> p j = false).
Proof.
  revert i. induction n as [|n IH]; intros i; cbn; [split; [intros; lia|done]|].
  pose proof (count_bounds p n (i + 1)) as Hb. split.
  - intros Hz j Hj. destruct (p i) eqn:Hp; cbn in Hz; [lia|].
    destruct (decide (j = i)) as [->|]; [done|]. apply (IH (i + 1)); lia.
  - intros Hall. rewrite (Hall i) by lia. cbn. apply IH. intros. apply Hall. lia.
Qed.

(** *** Bits of the mask operations *)
Lemma bitmap_set_spec m pos n i :
  0 <= pos -> 0 <= n ->
  Z.testbit (bitmap_set m pos n) i = Z.testbit m i || ((pos <=? i) && (i <? pos + n)).
Proof.
  intros. unfold bitmap_set. rewrite Z.lor_spec. f_equal.
  destruct (decide (0 <= i)); [|rewrite Z.testbit_neg_r by lia; lia].
  rewrite Z.shiftl_spec by lia.
  destruct (decide (pos <= i < pos + n)).
  - rewrite Z.ones_spec_low by lia. lia.
  - destruct (decide (pos <= i)); [rewrite Z.ones_spec_high by lia|rewrite Z.testbit_neg_r by lia]; lia.
Qed.

Lemma bitmap_clear_spec m pos n i :
  0 <= pos -> 0 <= n ->
  Z.testbit (bitmap_clear m pos n) i = Z.testbit m i && negb ((pos <=? i) && (i <? pos + n)).
Proof.
  intros. unfold bitmap_clear. rewrite Z.ldiff_spec.
  replace (Z.shiftl (Z.ones n) pos) with (bitmap_set 0 pos n) by apply Z.lor_0_l.
  by rewrite bitmap_set_spec, Z.bits_0.
Qed.

Lemma ones_spec n i : 0 <= n -> Z.testbit (Z.ones n) i = (0 <=? i) && (i <? n).
Proof.
  intros. destruct (decide (0 <= i)); [|rewrite Z.testbit_neg_r by lia; lia].
  destruct (decide (i < n)); [rewrite Z.ones_spec_low by lia|rewrite Z.ones_spec_high by lia]; lia.
Qed.

Lemma shift_right_spec m s i :
  0 <= s -> Z.testbit (uvm_page_mask_shift_right m s) i
            = (0 <=? i) && (i + s <? PAGES_PER_UVM_VA_BLOCK) && Z.testbit m (i + s).
Proof.
  intros. unfold uvm_page_mask_shift_right, bitmap_shift_right.
  destruct (decide (0 <= i)); [|rewrite Z.testbit_neg_r by lia; lia].
  rewrite Z.shiftr_spec, Z.land_spec, ones_spec by (done || lia).
  destruct (Z.testbit m (i + s)); lia.
Qed.

Lemma shift_left_spec m s i :
  0 <= s -> Z.testbit (uvm_page_mask_shift_left m s) i
            = (i <? PAGES_PER_UVM_VA_BLOCK) && Z.testbit m (i - s).
Proof.
  intros. unfold uvm_page_mask_shift_left, bitmap_shift_left.
  rewrite Z.land_spec, ones_spec by done.
  destruct (decide (0 <= i)); [rewrite Z.shiftl_spec by lia|rewrite !Z.testbit_neg_r by lia; lia].
  destruct (Z.testbit m (i - s)); lia.
Qed.

(** ** Well-formed regions *)
Definition wf_region (r : uvm_va_block_region_t) : Prop :=
  0 <= first r <= outer r /\ outer r <= PAGES_PER_UVM_VA_BLOCK.

(** Every page of the mask lies in the region. *)
Definition mask_within (m : uvm_page_mask_t) (r : uvm_va_block_region_t) : Prop :=
  forall i, Z.testbit m i = true -> first r <= i < outer r.

Lemma page_index_small x : 0 <= x < 65536 -> uvm_page_index_t x = x.
Proof. intros. by apply wrap_small. Qed.

Lemma region_some f o :
  0 <= f <= o -> o < 65536 -> uvm_va_block_region f o = Some (mk_region f o).
Proof.
  intros. unfold uvm_va_block_region. rewrite !page_index_small by lia.
  by replace (f <=? o) with true by lia.
Qed.

Lemma num_pages_eq r : wf_region r -> uvm_va_block_region_num_pages r = outer r - first r.
Proof.
  intros [? ?]. apply wrap_small. unfold in_width, PAGES_PER_UVM_VA_BLOCK in *. lia.
Qed.

Lemma region_fill_spec m r i :
  0 <= first r <= outer r ->
  Z.testbit (uvm_page_mask_region_fill m r) i
  = Z.testbit m i || ((first r <=? i) && (i <? outer r)).
Proof.
  intros. unfold uvm_page_mask_region_fill. rewrite bitmap_set_spec by lia.
  by replace (first r + (outer r - first r)) with (outer r) by lia.
Qed.

Lemma region_clear_spec m r i :
  0 <= first r <= outer r ->
  Z.testbit (uvm_page_mask_region_clear m r) i
  = Z.testbit m i && negb ((first r <=? i) && (i <? outer r)).
Proof.
  intros. unfold uvm_page_mask_region_clear. rewrite bitmap_clear_spec by lia.
  by replace (first r + (outer r - first r)) with (outer r) by lia.
Qed.

Lemma region_empty_spec m r :
  first r <= outer r ->
  uvm_page_mask_region_empty m r = true
  <-> (forall i, first r <= i < outer r -> Z.testbit m i = false).
Proof.
  intros. unfold uvm_page_mask_region_empty, find_next_bit. rewrite Z.eqb_eq.
  by apply find_next_all.
Qed.

Lemma region_weight_spec m r :
  wf_region r ->
  uvm_page_mask_region_weight m r
  = count (Z.testbit m) (Z.to_nat (outer r - first r)) (first r).
Proof.
  intros [? Ho]. unfold uvm_page_mask_region_weight, bitmap_weight.
  pose proof (count_bounds (Z.testbit m) (Z.to_nat (outer r - first r)) (first r)) as Hb.
  assert (Hs : count (Z.testbit m) (Z.to_nat (outer r)) 0
               = count (Z.testbit m) (Z.to_nat (first r)) 0
                 + count (Z.testbit m) (Z.to_nat (outer r - first r)) (first r)).
  { replace (Z.to_nat (outer r)) with (Z.to_nat (first r) + Z.to_nat (outer r - first r))%nat by lia.
    rewrite count_app. do 2 f_equal. lia. }
  unfold PAGES_PER_UVM_VA_BLOCK in Ho. rewrite Hs.
  replace (if 0 <? first r then _ else 0) with (count (Z.testbit m) (Z.to_nat (first r)) 0).
  2: { case_match; [done|]. by replace (Z.to_nat (first r)) with 0%nat by lia. }
  rewrite Z.add_simpl_l. apply wrap_small. unfold in_width. lia.
Qed.

(** ** The iteration macros visit exactly the pages of the mask *)

(** The page selection of a possibly NULL mask. *)
Definition mask_bit (page_mask : option uvm_page_mask_t) (i : Z) : bool :=
  match page_mask with Some m => Z.testbit m i | None => true end.

Definition pages_in (page_mask : option uvm_page_mask_t) (f o : Z) : list Z :=
  filter (fun i => mask_bit page_mask i = true) (seqZ f (o - f)).

Lemma pages_in_nil page_mask f o :
  (forall j, f <= j < o -> mask_bit page_mask j = false) -> pages_in page_mask f o = [].
Proof.
  intros Hz. unfold pages_in.
  destruct (filter _ _) as [|j l] eqn:Hl; [done|].
  assert (Hj : j ∈ j :: l) by left. rewrite <- Hl in Hj.
  apply list_elem_of_filter in Hj as [Hj ?%elem_of_seqZ]. by rewrite Hz in Hj by lia.
Qed.

Lemma pages_in_skip page_mask f g o :
  f <= g <= o -> (forall j, f <= j < g -> mask_bit page_mask j = false) ->
  pages_in page_mask f o = pages_in page_mask g o.
Proof.
  intros Hfg Hz. unfold pages_in. replace (o - f) with ((g - f) + (o - g)) by lia.
  rewrite seqZ_app by lia. rewrite filter_app.
  pose proof (pages_in_nil page_mask f g Hz) as Hn. unfold pages_in in Hn. rewrite Hn.
  cbn. by replace (f + (g - f)) with g by lia.
Qed.

Lemma pages_in_cons page_mask f o :
  f < o -> mask_bit page_mask f = true ->
  pages_in page_mask f o = f :: pages_in page_mask (f + 1) o.
Proof.
  intros ? Hf. unfold pages_in. rewrite seqZ_cons by lia.
  rewrite filter_cons_True by done. do 3 f_equal; lia.
Qed.

Lemma pages_in_next page_mask f o :
  f <= o ->
  pages_in page_mask f o = pages_in page_mask (find_next (mask_bit page_mask) o f) o.
Proof.
  intros ?. destruct (find_next_spec (mask_bit page_mask) o f) as (?&?&Hb&_).
  apply pages_in_skip; [lia|done].
Qed.

Lemma next_page_eq r page_mask page :
  wf_region r -> 0 <= page < outer r ->
  uvm_va_block_next_page_in_mask r page_mask page
  = Some (find_next (mask_bit page_mask) (outer r) (page + 1)).
Proof.
  intros [? Ho] ?. unfold PAGES_PER_UVM_VA_BLOCK in Ho.
  destruct (find_next_spec (mask_bit page_mask) (outer r) (page + 1)) as (?&?&?&?).
  destruct page_mask as [m|]; cbn.
  - change (find_next_bit m) with (find_next (mask_bit (Some m))). by rewrite page_index_small by lia.
  - replace (page <? outer r) with true by lia. rewrite page_index_small by lia.
    f_equal. unfold find_next. case_match; [lia|].
    by destruct (Z.to_nat (outer r - (page + 1))) eqn:?; [lia|].
Qed.

Lemma first_page_eq r page_mask :
  wf_region r ->
  uvm_va_block_first_page_in_mask r page_mask
  = find_next (mask_bit page_mask) (outer r) (first r).
Proof.
  intros [? Ho]. unfold PAGES_PER_UVM_VA_BLOCK in Ho.
  destruct (find_next_spec (mask_bit page_mask) (outer r) (first r)) as (?&?&?&?).
  destruct page_mask as [m|]; cbn.
  - change (find_next_bit m) with (find_next (mask_bit (Some m))). by rewrite page_index_small by lia.
  - unfold find_next. case_match; [lia|].
    by destruct (Z.to_nat (outer r - first r)) eqn:?; [lia|].
Qed.

Section visit.
Context {S : Type} (body : Z -> S -> option (S * bool)).

(** The loop over a list of pages, with the body's break. *)
Fixpoint visit (pages : list Z) (s : S) : option S :=
  match pages with
  | [] => Some s
  | p :: pages => '(s, stop) ← body p s; if stop : bool then Some s else visit pages s
  end.

Lemma pages_from_visit r page_mask (fuel : nat) f s :
  wf_region r -> 0 <= f <= outer r -> outer r - f <= fuel ->
  pages_from body fuel r page_mask (find_next (mask_bit page_mask) (outer r) f) s
  = visit (pages_in page_mask f (outer r)) s.
Proof.
  intros Hr. revert f s. induction fuel as [|fuel IH]; intros f s Hf Hfuel.
  - assert (f = outer r) as -> by lia. cbn. unfold find_next.
    replace (outer r <=? outer r) with true by lia. rewrite Z.eqb_refl.
    unfold pages_in. by rewrite Z.sub_diag.
  - rewrite pages_in_next by lia.
    destruct (find_next_spec (mask_bit page_mask) (outer r) f) as (?&?&_&Ht).
    set (p := find_next _ _ _) in *. cbn. case_match.
    { assert (p = outer r) as -> by lia. unfold pages_in. by rewrite Z.sub_diag. }
    rewrite pages_in_cons by (lia || apply Ht; lia). cbn.
    destruct (body p s) as [[s' []]|]; cbn; [done| |done].
    rewrite next_page_eq by (done || lia). cbn. apply IH; lia.
Qed.

Lemma for_each_page_visit page_mask r s :
  wf_region r ->
  for_each_va_block_page_in_region_mask body page_mask r s
  = visit (pages_in page_mask (first r) (outer r)) s.
Proof.
  intros Hr. unfold for_each_va_block_page_in_region_mask. rewrite first_page_eq by done.
  destruct Hr as [? ?]. apply pages_from_visit; [done|lia|]. unfold PAGES_PER_UVM_VA_BLOCK in *. lia.
Qed.

(** A loop whose body succeeds on the visited pages and keeps [I] succeeds
    and ends in [I]. *)
Lemma visit_inv (I : S -> Prop) pages s :
  (forall p s, p ∈ pages -> I s -> exists s' stop, body p s = Some (s', stop) /\ I s') ->
  I s -> exists s', visit pages s = Some s' /\ I s'.
Proof.
  revert s. induction pages as [|p pages IH]; intros s Hb Hs; cbn; [by eexists|].
  destruct (Hb p s) as (s'&stop&->&Hs'); [by left|done|]. cbn.
  destruct stop; [by eexists|]. apply IH; [|done]. intros. apply Hb; [by right|done].
Qed.
End visit.

Lemma elem_of_pages_in page_mask f o p :
  p ∈ pages_in page_mask f o <-> f <= p < o /\ mask_bit page_mask p = true.
Proof.
  unfold pages_in. rewrite list_elem_of_filter, elem_of_seqZ.
  split; intros; naive_solver lia.
Qed.

(** C34: the macro for_each_va_block_page_in_region_mask visits exactly the
    pages of the region that are set in the mask (all of them for a NULL
    mask), each once and in increasing order, runs the body on them until the
    body breaks, and terminates: it is the loop over the filtered list of the
    region's pages. *)
Theorem for_each_page_exact {S} (body : Z -> S -> option (S * bool)) page_mask r s :
  wf_region r ->
  for_each_va_block_page_in_region_mask body page_mask r s
  = visit body (filter (fun i => mask_bit page_mask i = true) (seqZ (first r) (outer r - first r))) s.
Proof. apply for_each_page_visit. Qed.

Lemma for_each_page_exact_witness :
  for_each_va_block_page_in_region_mask (fun p s => Some (s ++ [p], p =? 9)) (Some 0xA52)
    (mk_region 2 12) []
  = Some [4; 6; 9].
Proof.
  rewrite (for_each_page_exact (fun p s => Some (s ++ [p], p =? 9)) (Some 0xA52) (mk_region 2 12) []);
    [vm_compute; reflexivity|].
  unfold wf_region, PAGES_PER_UVM_VA_BLOCK; cbn; lia.
Defined.

(** ** Blocks and their big pages *)

(** A VA block: page aligned, inside one 2MB-aligned window of the user
    half of the address space. *)
Definition wf_block (b : va_range) : Prop :=
  0 <= start b < end_ b
  /\ start b mod PAGE_SIZE = 0 /\ (end_ b + 1) mod PAGE_SIZE = 0
  /\ start b / UVM_VA_BLOCK_SIZE = end_ b / UVM_VA_BLOCK_SIZE
  /\ end_ b < 2 ^ 63.

(** A big page size is a power of two between a page and the block size. *)
Definition big_size (j : Z) : Z := PAGE_SIZE * 2 ^ j.

Lemma big_size_pow2 j : 0 <= j -> big_size j = 2 ^ (12 + j).
Proof. intros. unfold big_size. by rewrite Z.pow_add_r. Qed.

Lemma is_power_of_2_pow k : 0 <= k -> is_power_of_2 (2 ^ k) = true.
Proof.
  intros. unfold is_power_of_2. rewrite Z.log2_pow2 by done.
  pose proof (pow2_pos k). lia.
Qed.

Lemma ldiff_pow2 x k : 0 <= k -> Z.ldiff x (2 ^ k - 1) = 2 ^ k * (x / 2 ^ k).
Proof.
  intros. replace (2 ^ k - 1) with (Z.ones k) by (rewrite Z.ones_equiv; lia).
  rewrite Z.ldiff_ones_r, Z.shiftr_div_pow2, Z.shiftl_mul_pow2 by done. lia.
Qed.

Lemma align_down_pow2 x k : 0 <= k -> UVM_ALIGN_DOWN x (2 ^ k) = Some (2 ^ k * (x / 2 ^ k)).
Proof. intros. unfold UVM_ALIGN_DOWN. by rewrite is_power_of_2_pow, ldiff_pow2. Qed.

Lemma align_up_pow2 x k :
  0 <= k -> in_width 64 (x + 2 ^ k - 1) ->
  UVM_ALIGN_UP x (2 ^ k) = Some (2 ^ k * ((x + 2 ^ k - 1) / 2 ^ k)).
Proof.
  intros ? Hw. unfold UVM_ALIGN_UP. rewrite is_power_of_2_pow by done.
  unfold NvU64. by rewrite wrap_small, ldiff_pow2 by done.
Qed.

(** Dividing page-aligned addresses by a big page size is dividing their page
    numbers. *)
Lemma page_div p j : 0 <= j -> PAGE_SIZE * p / big_size j = p / 2 ^ j.
Proof.
  intros. unfold big_size. pose proof (pow2_pos j).
  rewrite Z.div_mul_cancel_l; [done|lia|done].
Qed.

Lemma page_div_up p j :
  0 <= j -> (PAGE_SIZE * p + big_size j - 1) / big_size j = (p + 2 ^ j - 1) / 2 ^ j.
Proof.
  intros. unfold big_size. pose proof (pow2_pos j) as Hp.
  set (n := 2 ^ j) in *. unfold PAGE_SIZE.
  replace (4096 * p + 4096 * n - 1) with (4095 + (p + n - 1) * 4096) by lia.
  rewrite <- Z.div_div by lia. rewrite Z.div_add by lia.
  by change (4095 / 4096) with 0.
Qed.

(** [range_big_page_region_all] in page numbers. *)
Lemma range_big_pages_spec p q j :
  0 <= p < q -> p / 512 = (q - 1) / 512 -> 0 <= j <= 9 -> PAGE_SIZE * q + UVM_VA_BLOCK_SIZE < 2 ^ 64 ->
  let f := 2 ^ j * ((p + 2 ^ j - 1) / 2 ^ j) in
  let o := 2 ^ j * (q / 2 ^ j) in
  range_big_page_region_all (PAGE_SIZE * p) (PAGE_SIZE * q - 1) (big_size j)
  = Some (if o <=? f then mk_region 0 0 else mk_region (f - p) (o - p)).
Proof.
  intros Hpq Hblk Hj Hw. cbn zeta.
  assert (Hn : 1 <= 2 ^ j <= 512).
  { split; [pose proof (pow2_pos j); lia|]. change 512 with (2 ^ 9). apply Z.pow_le_mono_r; lia. }
  assert (Hup : p <= 2 ^ j * ((p + 2 ^ j - 1) / 2 ^ j) < p + 2 ^ j).
  { pose proof (Z.div_mod (p + 2 ^ j - 1) (2 ^ j)). pose proof (Z.mod_pos_bound (p + 2 ^ j - 1) (2 ^ j)). lia. }
  assert (Hdn : q - 2 ^ j < 2 ^ j * (q / 2 ^ j) <= q).
  { pose proof (Z.div_mod q (2 ^ j)). pose proof (Z.mod_pos_bound q (2 ^ j)). lia. }
  unfold range_big_page_region_all, PAGE_SIZE, UVM_VA_BLOCK_SIZE in *.
  assert (Hbs : 4096 <= big_size j <= 2 ^ 21) by (unfold big_size, PAGE_SIZE; lia).
  rewrite big_size_pow2 in * by lia.
  rewrite align_up_pow2 by (lia || unfold in_width; lia).
  replace (4096 * q - 1 + 1) with (4096 * q) by lia.
  unfold NvU64 at 1. rewrite (wrap_small 64) by (unfold in_width; lia).
  rewrite !align_down_pow2 by lia. rewrite <- big_size_pow2 by lia.
  change 4096 with PAGE_SIZE. rewrite page_div_up, page_div by lia.
  change (2 ^ 21) with (big_size 9). rewrite page_div by lia.
  replace ((PAGE_SIZE * q - 1) / big_size 9) with ((q - 1) / 2 ^ 9).
  2: { unfold big_size, PAGE_SIZE. rewrite <- Z.div_div by lia.
       replace (4096 * q - 1) with (4095 + (q - 1) * 4096) by lia. by rewrite Z.div_add by lia. }
  cbn [mbind option_bind]. change (2 ^ 9) with 512. rewrite Hblk, Z.eqb_refl.
  unfold big_size. set (f := (p + 2 ^ j - 1) / 2 ^ j) in *. set (o := q / 2 ^ j) in *.
  replace (PAGE_SIZE * 2 ^ j * o <=? PAGE_SIZE * 2 ^ j * f) with (2 ^ j * o <=? 2 ^ j * f)
    by (unfold PAGE_SIZE; lia).
  destruct (_ <=? _) eqn:?; [done|].
  unfold NvU64. rewrite !wrap_small by (unfold in_width, PAGE_SIZE in *; lia).
  replace (PAGE_SIZE * 2 ^ j * f - PAGE_SIZE * p) with ((2 ^ j * f - p) * PAGE_SIZE) by lia.
  replace (PAGE_SIZE * 2 ^ j * o - PAGE_SIZE * p) with ((2 ^ j * o - p) * PAGE_SIZE) by lia.
  rewrite !Z.div_mul by done. apply region_some; [lia|].
  pose proof (Z.div_mod p 512). pose proof (Z.div_mod (q - 1) 512).
  pose proof (Z.mod_pos_bound p 512). pose proof (Z.mod_pos_bound (q - 1) 512). lia.
Qed.

(** The number of the block's first page, and of its pages. *)
Definition block_page (b : va_range) : Z := start b / PAGE_SIZE.
Definition block_npages (b : va_range) : Z := (end_ b + 1 - start b) / PAGE_SIZE.

Lemma wf_block_pages b :
  wf_block b ->
  start b = PAGE_SIZE * block_page b /\ end_ b = PAGE_SIZE * (block_page b + block_npages b) - 1
  /\ 0 <= block_page b /\ 1 <= block_npages b <= PAGES_PER_UVM_VA_BLOCK
  /\ block_page b / 512 = (block_page b + block_npages b - 1) / 512.
Proof.
  intros (?&Hs&He&Hw&?). unfold block_page, block_npages, PAGES_PER_UVM_VA_BLOCK in *.
  apply Z.div_exact in Hs; [|done]. apply Z.div_exact in He; [|done].
  set (P := start b / PAGE_SIZE) in *. set (Q := (end_ b + 1) / PAGE_SIZE) in *.
  unfold PAGE_SIZE, UVM_VA_BLOCK_SIZE in *.
  replace (end_ b + 1 - start b) with ((Q - P) * 4096) by lia. rewrite Z.div_mul by done.
  assert (Hblk : P / 512 = (Q - 1) / 512).
  { rewrite Hs in Hw. replace (end_ b) with (4095 + (Q - 1) * 4096) in Hw by lia.
    change (2 ^ 21) with (4096 * 512) in Hw. rewrite <- !Z.div_div in Hw by lia.
    rewrite Z.div_add in Hw by lia. replace (4096 * P) with (P * 4096) in Hw by lia.
    by rewrite Z.div_mul in Hw by lia. }
  pose proof (Z.div_mod P 512). pose proof (Z.div_mod (Q - 1) 512).
  pose proof (Z.mod_pos_bound P 512). pose proof (Z.mod_pos_bound (Q - 1) 512).
  split_and!; try lia. rewrite Hblk. f_equal. lia.
Qed.

Lemma num_cpu_pages_eq b : wf_block b -> uvm_va_block_num_cpu_pages b = Some (block_npages b).
Proof.
  intros Hwf. pose proof (wf_block_pages b Hwf) as (Hs&He&?&?&_).
  unfold uvm_va_block_num_cpu_pages, uvm_va_block_size, PAGE_ALIGNED, NvU64.
  set (P := block_page b) in *. set (N := block_npages b) in *.
  replace (end_ b - start b + 1) with (N * PAGE_SIZE) by lia.
  unfold PAGES_PER_UVM_VA_BLOCK in *.
  rewrite wrap_small by (unfold in_width, PAGE_SIZE; lia).
  rewrite Z.mod_mul by done. unfold PAGE_SIZE, UVM_VA_BLOCK_SIZE.
  replace (4096 <=? N * 4096) with true by lia. replace (N * 4096 <=? 2 ^ 21) with true by lia.
  cbn. by rewrite Z.div_mul.
Qed.

Lemma region_from_block_eq b :
  wf_block b -> uvm_va_block_region_from_block b = Some (mk_region 0 (block_npages b)).
Proof.
  intros Hwf. pose proof (wf_block_pages b Hwf) as (_&_&_&?&_).
  unfold uvm_va_block_region_from_block. rewrite num_cpu_pages_eq by done. cbn.
  unfold PAGES_PER_UVM_VA_BLOCK in *. apply region_some; lia.
Qed.

(** The big pages of a region: whole, aligned, inside the region, and leaving
    less than a big page before them; the big page the region starts in still
    fits in the block's window. *)
Lemma big_region_subset_spec b r j :
  wf_block b -> 0 <= first r < outer r -> outer r <= block_npages b -> 0 <= j <= 9 ->
  exists br, uvm_va_block_big_page_region_subset b r (big_size j) = Some br
    /\ (br = mk_region 0 0
        \/ (first r <= first br < outer br /\ outer br <= outer r
            /\ first br - first r < 2 ^ j
            /\ (2 ^ j | outer br - first br)
            /\ (first r < first br ->
                outer r - first r + (2 ^ j - (first br - first r)) <= PAGES_PER_UVM_VA_BLOCK))).
Proof.
  intros Hwf Hr Hro Hj. pose proof (wf_block_pages b Hwf) as (Hs&He&?&HN&Hblk).
  destruct Hwf as (_&_&_&_&Hend).
  unfold uvm_va_block_big_page_region_subset, uvm_va_block_region_start, uvm_va_block_region_end, NvU64.
  set (P := block_page b) in *. set (N := block_npages b) in *.
  unfold PAGES_PER_UVM_VA_BLOCK in *. assert (Hpg : PAGE_SIZE = 4096) by done.
  assert (H21 : UVM_VA_BLOCK_SIZE = 2097152) by done.
  rewrite !wrap_small by (unfold in_width; lia).
  replace (start b + first r * PAGE_SIZE) with (PAGE_SIZE * (P + first r)) by lia.
  replace (start b + outer r * PAGE_SIZE - 1) with (PAGE_SIZE * (P + outer r) - 1) by lia.
  replace (_ <? end_ b) with true by lia. replace (_ <=? end_ b) with true by lia.
  pose proof (Z.div_mod P 512). pose proof (Z.mod_pos_bound P 512).
  pose proof (Z.div_mod (P + N - 1) 512). pose proof (Z.mod_pos_bound (P + N - 1) 512).
  rewrite range_big_pages_spec; [|lia| |done|rewrite Hpg, H21; lia].
  2: { rewrite <- (Z.div_unique (P + first r) 512 (P / 512) (P + first r - 512 * (P / 512))) by lia.
       apply (Z.div_unique _ _ _ (P + outer r - 1 - 512 * (P / 512))); lia. }
  cbn [mbind option_bind]. assert (Hn : 1 <= 2 ^ j <= 512).
  { split; [pose proof (pow2_pos j); lia|]. change 512 with (2 ^ 9). apply Z.pow_le_mono_r; lia. }
  assert (Hdvd : (2 ^ j | 512)).
  { exists (2 ^ (9 - j)). rewrite <- Z.pow_add_r by lia. by replace (9 - j + j) with 9 by lia. }
  set (U := (P + first r + 2 ^ j - 1) / 2 ^ j) in *. set (D := (P + outer r) / 2 ^ j) in *.
  assert (Hup : P + first r <= 2 ^ j * U < P + first r + 2 ^ j).
  { pose proof (Z.div_mod (P + first r + 2 ^ j - 1) (2 ^ j)).
    pose proof (Z.mod_pos_bound (P + first r + 2 ^ j - 1) (2 ^ j)). lia. }
  assert (Hdn : 2 ^ j * D <= P + outer r) by (apply Z.mul_div_le; lia).
  destruct (_ <=? _) eqn:Hc; cbn [outer first]; [by eexists; split; [|left]|].
  replace (_ =? 0) with false by lia. cbn [negb].
  eexists. split; [done|]. right. cbn [outer first]. rewrite !page_index_small by lia. split_and!; try lia.
  { exists (D - U). lia. }
  intros Hlt. destruct Hdvd as [c Hc'].
  assert (c * (P / 512) < U) by nia. nia.
Qed.
