(* ===== verification/PerfTree.v ===== *)
(** * The prefetch bitmap tree

    Model of the tree traversal macros of kernel-open/nvidia-uvm/uvm_perf_utils.h
    as uvm_perf_prefetch.{h,c} instantiates them: a binary counter tree laid
    over a page mask, of which only the mask, the number of leaves and of
    levels are stored.  A branch traversal starts at a leaf and goes up to the
    root; at each level it looks at the aligned range of leaves under the node
    and at how many of them are set. *)

From S2P Require Import Prelude PageMask.

(** ** Data *)
Record uvm_perf_prefetch_bitmap_tree_t := mk_tree {
  pages : uvm_page_mask_t;
  offset : Z;
  leaf_count : Z;
  level_count : Z;
}.

#[export] Instance eta_tree : Settable uvm_perf_prefetch_bitmap_tree_t :=
  fun t => mk_tree (pages t) (offset t) (leaf_count t) (level_count t).

Record uvm_perf_prefetch_bitmap_tree_iter_t := mk_iter {
  level_idx : Z;
  node_idx : Z;
}.

#[export] Instance eta_iter : Settable uvm_perf_prefetch_bitmap_tree_iter_t :=
  fun i => mk_iter (level_idx i) (node_idx i).

(** ** The traversal macros *)

(** [(typeof(leaf_count))1 << ...]: the shift is done at the width of int. *)
Definition uvm_perf_tree_iter_max_leaves (t : uvm_perf_prefetch_bitmap_tree_t)
    (iter : uvm_perf_prefetch_bitmap_tree_iter_t) : Z :=
  NvU32 (Z.shiftl 1 (level_count t - 1 - level_idx iter)).

(** [UVM_ALIGN_DOWN] at the width of [node_idx]. *)
Definition uvm_perf_tree_iter_leaf_range_start (t : uvm_perf_prefetch_bitmap_tree_t)
    (iter : uvm_perf_prefetch_bitmap_tree_iter_t) : option Z :=
  UVM_ALIGN_DOWN (node_idx iter) (uvm_page_index_t (uvm_perf_tree_iter_max_leaves t iter)).

Definition uvm_perf_tree_iter_leaf_range (t : uvm_perf_prefetch_bitmap_tree_t)
    (iter : uvm_perf_prefetch_bitmap_tree_iter_t) : option Z :=
  let range_leaves := NvU16 (uvm_perf_tree_iter_max_leaves t iter) in
  s ← uvm_perf_tree_iter_leaf_range_start t iter;
  let range_start := NvU16 s in
  let range_end_max := NvU16 (range_start + range_leaves) in
  let range_end := Z.min range_end_max (leaf_count t) in
  Some (range_end - range_start).

Definition uvm_perf_prefetch_bitmap_tree_iter_init (t : uvm_perf_prefetch_bitmap_tree_t)
    (page_index : Z) : option uvm_perf_prefetch_bitmap_tree_iter_t :=
  UVM_ASSERT (0 <? level_count t);
  UVM_ASSERT (page_index <? leaf_count t);
  Some (mk_iter (NvS8 (level_count t - 1)) page_index).

Definition uvm_perf_prefetch_bitmap_tree_iter_get_range (t : uvm_perf_prefetch_bitmap_tree_t)
    (iter : uvm_perf_prefetch_bitmap_tree_iter_t) : option uvm_va_block_region_t :=
  range_leaves ← uvm_perf_tree_iter_leaf_range t iter;
  range_start ← uvm_perf_tree_iter_leaf_range_start t iter;
  let range_leaves := NvU16 range_leaves in
  let range_start := NvU16 range_start in
  subregion ← uvm_va_block_region range_start (range_start + range_leaves);
  UVM_ASSERT (0 <=? level_idx iter);
  UVM_ASSERT (level_idx iter <? level_count t);
  Some subregion.

Definition uvm_perf_prefetch_bitmap_tree_iter_get_count (t : uvm_perf_prefetch_bitmap_tree_t)
    (iter : uvm_perf_prefetch_bitmap_tree_iter_t) : option Z :=
  subregion ← uvm_perf_prefetch_bitmap_tree_iter_get_range t iter;
  Some (NvU16 (uvm_page_mask_region_weight (pages t) subregion)).

(** [uvm_perf_prefetch_bitmap_tree_traverse_counters]: the loop body receives
    the counter and the iterator of each level.  The iterator's level is a
    signed byte, so 128 rounds are enough for the loop to end. *)
Section traverse.
Context {S : Type} (body : Z -> uvm_perf_prefetch_bitmap_tree_iter_t -> S -> option S).

Fixpoint traverse_levels (fuel : nat) (t : uvm_perf_prefetch_bitmap_tree_t) (counter : Z)
    (iter : uvm_perf_prefetch_bitmap_tree_iter_t) (s : S) : option S :=
  if level_idx iter <? 0 then Some s
  else match fuel with
       | O => None
       | Datatypes.S fuel =>
           s ← body counter iter s;
           let iter := iter <| level_idx := NvS8 (level_idx iter - 1) |> in
           counter ← (if level_idx iter <? 0 then Some 0
                      else uvm_perf_prefetch_bitmap_tree_iter_get_count t iter);
           traverse_levels fuel t counter iter s
       end.

Definition uvm_perf_prefetch_bitmap_tree_traverse_counters (t : uvm_perf_prefetch_bitmap_tree_t)
    (page : Z) (s : S) : option S :=
  iter ← uvm_perf_prefetch_bitmap_tree_iter_init t (uvm_page_index_t page);
  counter ← uvm_perf_prefetch_bitmap_tree_iter_get_count t iter;
  traverse_levels 128 t counter iter s.
End traverse.

(** ** Well-formed trees and the ranges of a branch *)

(** [level_count = ilog2(roundup_pow_of_two(leaf_count)) + 1], as both
    builders of a tree compute it. *)
Definition roundup_pow_of_two (n : Z) : Z := 2 ^ Z.log2_up n.
Definition ilog2 (n : Z) : Z := Z.log2 n.

Definition wf_tree (t : uvm_perf_prefetch_bitmap_tree_t) : Prop :=
  1 <= leaf_count t <= PAGES_PER_UVM_VA_BLOCK
  /\ level_count t = ilog2 (roundup_pow_of_two (leaf_count t)) + 1
  /\ 0 <= offset t < leaf_count t.

(** The leaves under the node at height [h] above leaf [p]: the aligned run
    of [2^h] leaves that contains [p], cut at the end of the tree. *)
Definition leaf_range (t : uvm_perf_prefetch_bitmap_tree_t) (p h : Z) : uvm_va_block_region_t :=
  let s := 2 ^ h * (p / 2 ^ h) in
  mk_region s (Z.min (s + 2 ^ h) (leaf_count t)).

(** The number of set leaves in it. *)
Definition leaf_range_count (t : uvm_perf_prefetch_bitmap_tree_t) (p h : Z) : Z :=
  let r := leaf_range t p h in
  count (Z.testbit (pages t)) (Z.to_nat (outer r - first r)) (first r).

Lemma wf_tree_levels t : wf_tree t -> 1 <= level_count t <= 10.
Proof.
  intros (?&->&_). unfold ilog2, roundup_pow_of_two, PAGES_PER_UVM_VA_BLOCK in *.
  rewrite Z.log2_pow2 by apply Z.log2_up_nonneg.
  pose proof (Z.log2_up_nonneg (leaf_count t)).
  pose proof (Z.log2_up_le_mono (leaf_count t) 512). change (Z.log2_up 512) with 9 in *. lia.
Qed.

Lemma leaf_range_bounds t p h :
  wf_tree t -> 0 <= p < leaf_count t -> 0 <= h ->
  0 <= first (leaf_range t p h) <= p /\ p < outer (leaf_range t p h) <= leaf_count t
  /\ outer (leaf_range t p h) - first (leaf_range t p h) <= 2 ^ h.
Proof.
  intros [Hl _] Hp Hh. cbn. pose proof (pow2_pos h Hh).
  pose proof (Z.div_mod p (2 ^ h)). pose proof (Z.mod_pos_bound p (2 ^ h)).
  pose proof (Z.div_pos p (2 ^ h)). nia.
Qed.

Lemma leaf_range_count_bounds t p h :
  wf_tree t -> 0 <= p < leaf_count t -> 0 <= h ->
  0 <= leaf_range_count t p h <= outer (leaf_range t p h) - first (leaf_range t p h).
Proof.
  intros. destruct (leaf_range_bounds t p h) as (?&?&?); [done..|].
  unfold leaf_range_count.
  pose proof (count_bounds (Z.testbit (pages t))
    (Z.to_nat (outer (leaf_range t p h) - first (leaf_range t p h))) (first (leaf_range t p h))). lia.
Qed.

(** The iterator at height [h] above leaf [p]. *)
Definition iter_at (t : uvm_perf_prefetch_bitmap_tree_t) (p h : Z)
    : uvm_perf_prefetch_bitmap_tree_iter_t :=
  mk_iter (level_count t - 1 - h) p.

Section branch.
Context (t : uvm_perf_prefetch_bitmap_tree_t) (p : Z).
Hypothesis Hwf : wf_tree t.
Hypothesis Hp : 0 <= p < leaf_count t.

Lemma pow_height h : 0 <= h < level_count t -> 1 <= 2 ^ h <= 512.
Proof.
  intros Hh. pose proof (wf_tree_levels t Hwf). split; [pose proof (pow2_pos h); lia|].
  change 512 with (2 ^ 9). apply Z.pow_le_mono_r; lia.
Qed.

Lemma max_leaves_eq h :
  0 <= h < level_count t -> uvm_perf_tree_iter_max_leaves t (iter_at t p h) = 2 ^ h.
Proof.
  intros Hh. unfold uvm_perf_tree_iter_max_leaves, NvU32. cbn.
  replace (level_count t - 1 - (level_count t - 1 - h)) with h by lia.
  rewrite Z.shiftl_1_l. pose proof (pow_height h Hh). apply wrap_small. unfold in_width. lia.
Qed.

Lemma range_start_eq h :
  0 <= h < level_count t ->
  uvm_perf_tree_iter_leaf_range_start t (iter_at t p h) = Some (2 ^ h * (p / 2 ^ h)).
Proof.
  intros Hh. unfold uvm_perf_tree_iter_leaf_range_start.
  pose proof (pow_height h Hh). rewrite max_leaves_eq, page_index_small by lia.
  apply align_down_pow2. lia.
Qed.

Lemma get_range_eq h :
  0 <= h < level_count t ->
  uvm_perf_prefetch_bitmap_tree_iter_get_range t (iter_at t p h) = Some (leaf_range t p h).
Proof.
  intros Hh. pose proof (pow_height h Hh) as Hh2.
  destruct (leaf_range_bounds t p h) as (?&?&?); [done..|lia|]. cbn in *.
  pose proof Hwf as ([? ?]&_). unfold PAGES_PER_UVM_VA_BLOCK in *.
  unfold uvm_perf_prefetch_bitmap_tree_iter_get_range, uvm_perf_tree_iter_leaf_range.
  rewrite range_start_eq, max_leaves_eq by done. cbn [mbind option_bind].
  set (s := 2 ^ h * (p / 2 ^ h)) in *. unfold NvU16.
  rewrite (wrap_small 16 s), (wrap_small 16 (2 ^ h)) by (unfold in_width; lia).
  rewrite (wrap_small 16 (s + 2 ^ h)) by (unfold in_width; lia).
  rewrite (wrap_small 16 (_ - s)) by (unfold in_width; lia).
  rewrite region_some by lia. cbn.
  replace (0 <=? level_count t - 1 - h) with true by lia.
  replace (level_count t - 1 - h <? level_count t) with true by lia.
  unfold leaf_range. fold s. do 2 f_equal. lia.
Qed.

Lemma get_count_eq h :
  0 <= h < level_count t ->
  uvm_perf_prefetch_bitmap_tree_iter_get_count t (iter_at t p h) = Some (leaf_range_count t p h).
Proof.
  intros Hh. unfold uvm_perf_prefetch_bitmap_tree_iter_get_count.
  rewrite get_range_eq by done. cbn [mbind option_bind].
  destruct (leaf_range_bounds t p h) as (?&?&?); [done..|lia|].
  pose proof Hwf as ([? ?]&_).
  rewrite region_weight_spec by (split; lia). f_equal. apply wrap_small.
  unfold leaf_range_count. unfold PAGES_PER_UVM_VA_BLOCK in *.
  pose proof (count_bounds (Z.testbit (pages t))
    (Z.to_nat (outer (leaf_range t p h) - first (leaf_range t p h))) (first (leaf_range t p h))).
  unfold in_width. lia.
Qed.

Section climb.
Context {S : Type} (body : Z -> uvm_perf_prefetch_bitmap_tree_iter_t -> S -> option S).

(** The branch walk: the heights [h, h + 1, ...], [n] of them. *)
Fixpoint climb (n : nat) (h : Z) (s : S) : option S :=
  match n with
  | O => Some s
  | Datatypes.S n => s ← body (leaf_range_count t p h) (iter_at t p h) s; climb n (h + 1) s
  end.

Lemma traverse_levels_climb fuel n h s :
  0 <= h < level_count t -> Z.of_nat n = level_count t - h -> (n <= fuel)%nat ->
  traverse_levels body fuel t (leaf_range_count t p h) (iter_at t p h) s = climb n h s.
Proof.
  pose proof (wf_tree_levels t Hwf) as Hlv.
  revert n h s. induction fuel as [|fuel IH]; intros [|n] h s Hh Hn Hf; [lia..|].
  cbn -[Z.sub]. replace (level_count t - 1 - h <? 0) with false by lia.
  destruct (body _ _ s) as [s'|]; cbn [mbind option_bind]; [|done].
  rewrite NvS8_small by lia.
  assert (Hnext : iter_at t p h <| level_idx := level_count t - 1 - h - 1 |> = iter_at t p (h + 1))
    by (unfold iter_at, update_field; f_equal; lia).
  rewrite Hnext.
  replace (level_count t - 1 - h - 1 <? 0) with (level_count t - 1 - (h + 1) <? 0) by lia.
  destruct n as [|n].
  - assert (h = level_count t - 1) as -> by lia.
    replace (level_count t - 1 - (level_count t - 1 + 1) <? 0) with true by lia. cbn.
    destruct fuel; cbn; by replace (level_count t - 1 - (level_count t - 1 + 1) <? 0) with true by lia.
  - replace (level_count t - 1 - (h + 1) <? 0) with false by lia.
    rewrite get_count_eq by lia. cbn [mbind option_bind]. apply (IH (Datatypes.S n)); lia.
Qed.

Lemma traverse_climb s :
  uvm_perf_prefetch_bitmap_tree_traverse_counters body t p s
  = climb (Z.to_nat (level_count t)) 0 s.
Proof.
  pose proof (wf_tree_levels t Hwf) as Hlv. pose proof Hwf as ([? ?]&_).
  unfold PAGES_PER_UVM_VA_BLOCK in *.
  unfold uvm_perf_prefetch_bitmap_tree_traverse_counters, uvm_perf_prefetch_bitmap_tree_iter_init.
  rewrite page_index_small by lia.
  replace (0 <? level_count t) with true by lia. replace (p <? leaf_count t) with true by lia.
  replace (mk_iter (NvS8 (level_count t - 1)) p) with (iter_at t p 0).
  2: { rewrite NvS8_small by lia. unfold iter_at. f_equal. lia. }
  cbn [mbind option_bind]. rewrite get_count_eq by lia. cbn [mbind option_bind].
  apply traverse_levels_climb; lia.
Qed.

Lemma climb_inv (I : S -> Prop) n h s :
  (forall h' s, h <= h' < h + Z.of_nat n -> I s ->
     exists s', body (leaf_range_count t p h') (iter_at t p h') s = Some s' /\ I s') ->
  I s -> exists s', climb n h s = Some s' /\ I s'.
Proof.
  revert h s. induction n as [|n IH]; intros h s Hb Hs; cbn; [by eexists|].
  destruct (Hb h s) as (s'&->&?); [lia|done|]. cbn. apply IH; [|done].
  intros. apply Hb; [lia|done].
Qed.
End climb.
End branch.
