(* ===== verification/UvmBpf.v ===== *)
(** * The memory-policy struct_ops

    Model of kernel-open/nvidia-uvm/uvm_bpf_struct_ops.{c,h}: the kfuncs a
    memory policy may call, the registration slot, the module's init and exit,
    the proc trigger, and the wrappers through which the prefetcher calls the
    policy.  The wrappers for the chunk allocator's hooks are in PmmLists.v,
    next to the state they observe.

    A policy that keeps state in BPF maps may answer two calls of the same
    callback differently, and it may be replaced between two calls.  A client
    therefore receives [nat -> option ops], the operations that the n-th
    dereference of the slot finds. *)

From S2P Require Import Prelude TransitionValidator Bpf PageMask PerfTree.

Definition UVM_BPF_ACTION_DEFAULT : Z := 0.
Definition UVM_BPF_ACTION_BYPASS : Z := 1.
Definition UVM_BPF_ACTION_ENTER_LOOP : Z := 2.

(** ** The kfuncs *)

Record uvm_bpf_prefetch_decision_t := mk_uvm_prefetch_decision {
  pdc_request : nv_gpu_prefetch_decision_t;
}.

Definition bpf_gpu_strstr : Z := -1.

(** The arguments are 64-bit values; a NULL context is [None]. *)
Definition bpf_gpu_set_prefetch_region (decision_ctx : option uvm_bpf_prefetch_decision_t)
    (f o : Z) : option uvm_bpf_prefetch_decision_t * Z :=
  match decision_ctx with
  | None => (None, result_code NV_GPU_TRANSITION_REJECT_IDENTITY)
  | Some d =>
      let '(request, r) := nv_gpu_transition_record_prefetch (pdc_request d) (NvU64 f) (NvU64 o) in
      (Some (mk_uvm_prefetch_decision request), result_code r)
  end.

(** The context of a PMM decision: the driver's pointers are identified by
    the integers that the snapshot carries. *)
Record uvm_bpf_pmm_decision_ctx_t := mk_pmm_decision_ctx {
  pc_pmm : Z;
  pc_root_chunk : Z;
  pc_observed : nv_gpu_pmm_snapshot_t;
  pc_request : nv_gpu_pmm_request_t;
}.

Definition bpf_gpu_request_reorder (decision_ctx : option uvm_bpf_pmm_decision_ctx_t)
    (destination position : Z) : option uvm_bpf_pmm_decision_ctx_t * Z :=
  match decision_ctx with
  | None => (None, result_code NV_GPU_TRANSITION_REJECT_IDENTITY)
  | Some d =>
      let '(request, r) :=
        nv_gpu_transition_record_pmm (pc_request d) (NvU64 destination) (NvU64 position) in
      (Some (mk_pmm_decision_ctx (pc_pmm d) (pc_root_chunk d) (pc_observed d) request),
       result_code r)
  end.

Inductive prefetch_kfunc :=
| call_set_prefetch_region (f o : Z)
| call_prefetch_strstr.

Inductive pmm_kfunc :=
| call_request_reorder (destination position : Z)
| call_pmm_strstr.

Definition prefetch_dispatch (d : option uvm_bpf_prefetch_decision_t) (k : prefetch_kfunc)
    : option uvm_bpf_prefetch_decision_t * Z :=
  match k with
  | call_set_prefetch_region f o => bpf_gpu_set_prefetch_region d f o
  | call_prefetch_strstr => (d, bpf_gpu_strstr)
  end.

Definition pmm_dispatch (d : option uvm_bpf_pmm_decision_ctx_t) (k : pmm_kfunc)
    : option uvm_bpf_pmm_decision_ctx_t * Z :=
  match k with
  | call_request_reorder dest pos => bpf_gpu_request_reorder d dest pos
  | call_pmm_strstr => (d, bpf_gpu_strstr)
  end.

(** ** The operations

    The PMM callbacks may read the allocator's state, of type [P], and the
    chunk; [btf_struct_access] rejects every write.  [bpf_gpu_request_reorder] takes
    a decision context and is declared with KF_TRUSTED_ARGS; [gpu_evict_prepare] is
    given no decision context, so the verifier rejects a program that calls the
    kfunc from it, and [bpf_gpu_strstr] does not touch the allocator. *)
Record gpu_mem_ops (P C : Type) := mk_mem_ops {
  gpu_test_trigger : option (list Z -> Z -> Z);
  gpu_page_prefetch : option (Z -> uvm_perf_prefetch_bitmap_tree_t -> uvm_va_block_region_t
                              -> bpf_prog prefetch_kfunc);
  gpu_page_prefetch_iter : option (uvm_perf_prefetch_bitmap_tree_t -> uvm_va_block_region_t
                                   -> uvm_va_block_region_t -> Z -> bpf_prog prefetch_kfunc);
  gpu_block_activate : option (P -> C -> bpf_prog pmm_kfunc);
  gpu_block_access : option (P -> C -> bpf_prog pmm_kfunc);
  gpu_evict_prepare : option (P -> list C -> list C -> bpf_prog Empty_set);
}.
Arguments gpu_test_trigger {P C}.
Arguments gpu_page_prefetch {P C}.
Arguments gpu_page_prefetch_iter {P C}.
Arguments gpu_block_activate {P C}.
Arguments gpu_block_access {P C}.
Arguments gpu_evict_prepare {P C}.
Arguments mk_mem_ops {P C}.

Definition gpu_mem_ops_btf_struct_access : Z := - EACCES.

(** Registration identifies the operations by the address of their map. *)
Definition gpu_mem_ops_reg (uvm_ops : option nat) (kdata : nat) : option nat * Z :=
  let '(uvm_ops, prev) := cmpxchg uvm_ops None (Some kdata) in
  match prev with
  | Some _ => (uvm_ops, - EEXIST)
  | None => (uvm_ops, 0)
  end.

(** The boolean is false when the driver warns of an unexpected call. *)
Definition gpu_mem_ops_unreg (uvm_ops : option nat) (kdata : nat) : option nat * bool :=
  let '(uvm_ops, prev) := cmpxchg uvm_ops (Some kdata) None in
  (uvm_ops, bool_decide (prev = Some kdata)).

(** ** Module init, exit and the proc trigger

    The kernel's registration services are given by their return values; the
    second component is what has been registered: kfuncs for struct_ops,
    kfuncs for kprobes, the struct_ops, the proc file. *)
Record bpf_registered := mk_registered {
  reg_kfuncs : bool;
  reg_kprobe_kfuncs : bool;
  reg_struct_ops : bool;
  reg_trigger_file : bool;
}.

Definition uvm_bpf_struct_ops_init (kfunc_ret kprobe_ret ops_ret : Z) (trigger_file : bool)
    : Z * bpf_registered :=
  if negb (kfunc_ret =? 0) then (kfunc_ret, mk_registered false false false false)
  else
    let kprobe := kprobe_ret =? 0 in
    if negb (ops_ret =? 0) then (ops_ret, mk_registered true kprobe false false)
    else if negb trigger_file then (- ENOMEM, mk_registered true kprobe true false)
    else (0, mk_registered true kprobe true true).

Definition uvm_bpf_struct_ops_exit (r : bpf_registered) : bpf_registered :=
  mk_registered (reg_kfuncs r) (reg_kprobe_kfuncs r) (reg_struct_ops r) false.

Definition EFAULT : Z := 14.

(** [copied] is what [copy_from_user] delivers for the clamped count, or
    [None] for a fault.  Returns the value of the write and the callback's
    return value, if it was called. *)
Definition trigger_write {P C} (ops : option (gpu_mem_ops P C))
    (copied : Z -> option (list Z)) (cnt : Z) : Z * option Z :=
  let cnt := if 64 <=? cnt then 63 else cnt in
  match copied cnt with
  | None => (- EFAULT, None)
  | Some bytes =>
      let kbuf := bytes ++ [0] in
      match ops with
      | Some o =>
          match gpu_test_trigger o with
          | Some cb => (cnt, Some (cb kbuf cnt))
          | None => (cnt, None)
          end
      | None => (cnt, None)
      end
  end.

(** ** The prefetch hooks *)

(** A callback returns a C int. *)
Definition bpf_int (ret : Z) : Z := sign 32 ret.

(** Runs the callback, if there is one, on a zeroed decision. *)
Definition run_prefetch_hook (cb : option (bpf_prog prefetch_kfunc))
    : nv_gpu_prefetch_decision_t * Z :=
  let decision_ctx := mk_uvm_prefetch_decision prefetch_decision_zero in
  match cb with
  | Some p =>
      let '(d, ret) := bpf_run prefetch_dispatch p (Some decision_ctx) in
      (pdc_request (default decision_ctx d), bpf_int ret)
  | None => (pdc_request decision_ctx, UVM_BPF_ACTION_DEFAULT)
  end.

Definition uvm_bpf_call_gpu_page_prefetch {P C} (ops : option (gpu_mem_ops P C))
    (page_index : Z) (bitmap_tree : uvm_perf_prefetch_bitmap_tree_t)
    (max_prefetch_region : uvm_va_block_region_t) : nv_gpu_prefetch_decision_t * Z :=
  run_prefetch_hook
    (cb ← ops ≫= gpu_page_prefetch; Some (cb page_index bitmap_tree max_prefetch_region)).

Definition uvm_bpf_call_gpu_page_prefetch_iter {P C} (ops : option (gpu_mem_ops P C))
    (bitmap_tree : uvm_perf_prefetch_bitmap_tree_t)
    (max_prefetch_region current_region : uvm_va_block_region_t) (counter : Z)
    : nv_gpu_prefetch_decision_t * Z :=
  run_prefetch_hook
    (cb ← ops ≫= gpu_page_prefetch_iter;
     Some (cb bitmap_tree max_prefetch_region current_region counter)).

(** ** What a prefetch callback asks for *)

Definition prefetch_values (ks : list prefetch_kfunc) : list (Z * Z) :=
  omap (fun k => match k with
                 | call_set_prefetch_region f o => Some (NvU64 f, NvU64 o)
                 | call_prefetch_strstr => None
                 end) ks.

(** The regions a callback named, in order. *)
Definition prefetch_requests (cb : option (bpf_prog prefetch_kfunc)) : list (Z * Z) :=
  match cb with
  | Some p => prefetch_values (bpf_trace prefetch_dispatch p
                                 (Some (mk_uvm_prefetch_decision prefetch_decision_zero)))
  | None => []
  end.

Lemma prefetch_dispatch_fold ks r :
  foldl (fun d k => (prefetch_dispatch d k).1) (Some (mk_uvm_prefetch_decision r)) ks
  = Some (mk_uvm_prefetch_decision
            (foldl (fun r v => (nv_gpu_transition_record_prefetch r v.1 v.2).1) r
               (prefetch_values ks))).
Proof.
  revert r. induction ks as [|[f o|] ks IH]; intros r; cbn; [done| |apply IH].
  destruct (nv_gpu_transition_record_prefetch r (NvU64 f) (NvU64 o)) eqn:?. cbn. by rewrite IH.
Qed.

(** The decision a prefetch hook leaves is the record of its requests. *)
Lemma run_prefetch_hook_records cb :
  (run_prefetch_hook cb).1 = record_all (prefetch_requests cb).
Proof.
  destruct cb as [p|]; cbn; [|done].
  pose proof (bpf_run_trace prefetch_dispatch p
                (Some (mk_uvm_prefetch_decision prefetch_decision_zero))) as Ht.
  destruct (bpf_run _ _ _) as [d ret]. cbn in *. subst d. rewrite prefetch_dispatch_fold. done.
Qed.

(** ** What a PMM callback asks for *)

Definition pmm_values (ks : list pmm_kfunc) : list (Z * Z) :=
  omap (fun k => match k with
                 | call_request_reorder d p => Some (NvU64 d, NvU64 p)
                 | call_pmm_strstr => None
                 end) ks.

Lemma pmm_dispatch_fold ks pmm root obs r :
  foldl (fun d k => (pmm_dispatch d k).1) (Some (mk_pmm_decision_ctx pmm root obs r)) ks
  = Some (mk_pmm_decision_ctx pmm root obs
            (foldl (fun r v => (nv_gpu_transition_record_pmm r v.1 v.2).1) r (pmm_values ks))).
Proof.
  revert r. induction ks as [|[f o|] ks IH]; intros r; cbn; [done| |apply IH].
  destruct (nv_gpu_transition_record_pmm r (NvU64 f) (NvU64 o)) eqn:?. cbn. by rewrite IH.
Qed.

(** A PMM callback changes nothing of its context but the request, which is
    the record of its calls. *)
Lemma pmm_run_records p pmm root obs :
  let ctx := Some (mk_pmm_decision_ctx pmm root obs pmm_request_zero) in
  (bpf_run pmm_dispatch p ctx).1
  = Some (mk_pmm_decision_ctx pmm root obs
            (record_all (pmm_values (bpf_trace pmm_dispatch p ctx)))).
Proof. cbn zeta. rewrite bpf_run_trace, pmm_dispatch_fold. done. Qed.
