(* ===== verification/PerfPrefetch.v ===== *)
(** * The page prefetcher

    Model of kernel-open/nvidia-uvm/uvm_perf_prefetch.c: from the pages that
    faulted, the pages already resident and the registered policy, compute the
    pages to migrate along.  The functions are translated one by one, with the
    policy's hooks, the diagnostics and the assertions; the hint for a VA
    block and the one for an ATS block are at the end. *)

From S2P Require Import Prelude TransitionValidator Bpf PageMask PerfTree UvmBpf.

(** ** Module parameters *)
Definition UVM_PREFETCH_THRESHOLD_DEFAULT : Z := 51.
Definition UVM_PREFETCH_MIN_FAULTS_MIN : Z := 1.
Definition UVM_PREFETCH_MIN_FAULTS_DEFAULT : Z := 1.
Definition UVM_PREFETCH_MIN_FAULTS_MAX : Z := 20.

Record prefetch_globals := mk_prefetch_globals {
  g_uvm_perf_prefetch_enable : bool;
  g_uvm_perf_prefetch_threshold : Z;
  g_uvm_perf_prefetch_min_faults : Z;
}.

(** The zero-initialised globals of a module not yet initialised. *)
Definition prefetch_globals_zero := mk_prefetch_globals false 0 0.

Definition uvm_perf_prefetch_init (enable threshold min_faults : Z) (g : prefetch_globals)
    : prefetch_globals * NV_STATUS :=
  let g_enable := negb (enable =? 0) in
  if negb g_enable then
    (mk_prefetch_globals false (g_uvm_perf_prefetch_threshold g)
       (g_uvm_perf_prefetch_min_faults g), NV_OK)
  else
    let g_threshold := if threshold <=? 100 then threshold else UVM_PREFETCH_THRESHOLD_DEFAULT in
    let g_min_faults :=
      if (UVM_PREFETCH_MIN_FAULTS_MIN <=? min_faults) && (min_faults <=? UVM_PREFETCH_MIN_FAULTS_MAX)
      then min_faults else UVM_PREFETCH_MIN_FAULTS_DEFAULT in
    (mk_prefetch_globals true g_threshold g_min_faults, NV_OK).

(** ** The diagnostic observed by a tracing program *)
Inductive uvm_bpf_prefetch_diagnostic_phase :=
| UVM_BPF_PREFETCH_DIAG_SELECTED
| UVM_BPF_PREFETCH_DIAG_FINISHED.

Record uvm_bpf_prefetch_diagnostic_ctx := mk_prefetch_diagnostic {
  dg_raw_action : Z;
  dg_requested_first : Z;
  dg_requested_outer : Z;
  dg_max_first : Z;
  dg_max_outer : Z;
  dg_output_first : Z;
  dg_output_outer : Z;
  dg_phase : uvm_bpf_prefetch_diagnostic_phase;
  dg_request_attempted : bool;
  dg_request_conflict : bool;
  dg_initial_region_result : nv_gpu_transition_result;
  dg_initial_effect : nv_gpu_prefetch_initial_effect;
  dg_native_iterations : Z;
  dg_native_completed : bool;
}.

#[export] Instance eta_prefetch_diagnostic : Settable uvm_bpf_prefetch_diagnostic_ctx :=
  fun d => mk_prefetch_diagnostic (dg_raw_action d) (dg_requested_first d) (dg_requested_outer d)
    (dg_max_first d) (dg_max_outer d) (dg_output_first d) (dg_output_outer d) (dg_phase d)
    (dg_request_attempted d) (dg_request_conflict d) (dg_initial_region_result d)
    (dg_initial_effect d) (dg_native_iterations d) (dg_native_completed d).

(** What the prefetcher leaves behind besides its result: how often it has
    dereferenced the policy slot, and the diagnostics it has emitted. *)
Record hook_log := mk_hook_log {
  hook_calls : nat;
  diagnostics : list uvm_bpf_prefetch_diagnostic_ctx;
}.

#[export] Instance eta_hook_log : Settable hook_log :=
  fun l => mk_hook_log (hook_calls l) (diagnostics l).

Definition uvm_bpf_prefetch_diagnostic (ctx : uvm_bpf_prefetch_diagnostic_ctx) (l : hook_log)
    : hook_log :=
  l <| diagnostics := diagnostics l ++ [ctx] |>.

(** [(NvU64)(uvm_page_index_t)~0U] *)
Definition type_outer : Z := uvm_page_index_t (2 ^ 32 - 1).

(** The cast of a validated region to page indices. *)
Definition to_block_region (r : nv_gpu_transition_region_t) : uvm_va_block_region_t :=
  mk_region (uvm_page_index_t (tr_first r)) (uvm_page_index_t (tr_outer r)).

Section compute.
Context {P C : Type} (uvm_ops : nat -> option (gpu_mem_ops P C)) (threshold : Z).

(** One level of the policy's own walk up the tree. *)
Definition iterate_body (t : uvm_perf_prefetch_bitmap_tree_t) (max_region : uvm_va_block_region_t)
    (counter : Z) (iter : uvm_perf_prefetch_bitmap_tree_iter_t)
    (s : uvm_va_block_region_t * nat) : option (uvm_va_block_region_t * nat) :=
  let '(prefetch_region, n) := s in
  relative_region ← uvm_perf_prefetch_bitmap_tree_iter_get_range t iter;
  _ ← uvm_va_block_region 0 0;
  let '(absolute_region, translate_result) :=
    nv_gpu_transition_translate_region (first max_region) (first relative_region)
      (outer relative_region) (offset t) (outer max_region) PAGES_PER_UVM_VA_BLOCK type_outer in
  if negb (is_apply translate_result) then Some (prefetch_region, n)
  else
    let current_region := to_block_region absolute_region in
    let '(iterator_decision, iterator_action) :=
      uvm_bpf_call_gpu_page_prefetch_iter (uvm_ops n) t max_region current_region counter in
    let '(validated_region, iterator_region_result) :=
      nv_gpu_transition_validate_region iterator_decision (first max_region) (outer max_region)
        PAGES_PER_UVM_VA_BLOCK type_outer in
    match nv_gpu_transition_prefetch_iterator_effect iterator_action iterator_region_result with
    | NV_GPU_PREFETCH_ITERATOR_COMMIT => Some (to_block_region validated_region, S n)
    | NV_GPU_PREFETCH_ITERATOR_IGNORE => Some (prefetch_region, S n)
    end.

(** One level of the native walk: the largest subregion above the threshold,
    and the number of levels visited. *)
Definition native_body (t : uvm_perf_prefetch_bitmap_tree_t)
    (counter : Z) (iter : uvm_perf_prefetch_bitmap_tree_iter_t)
    (s : uvm_va_block_region_t * Z) : option (uvm_va_block_region_t * Z) :=
  let '(relative_region, iterations) := s in
  subregion ← uvm_perf_prefetch_bitmap_tree_iter_get_range t iter;
  let subregion_pages := NvU16 (uvm_va_block_region_num_pages subregion) in
  UVM_ASSERT (counter <=? subregion_pages);
  Some (if NvU32 (subregion_pages * threshold) <? NvU32 (counter * 100)
        then subregion else relative_region,
        NvU32 (iterations + 1)).

Definition compute_prefetch_region (page_index : Z) (t : uvm_perf_prefetch_bitmap_tree_t)
    (max_region : uvm_va_block_region_t) (l : hook_log)
    : option (uvm_va_block_region_t * hook_log) :=
  prefetch_region ← uvm_va_block_region 0 0;
  let '(initial_decision, raw_action) :=
    uvm_bpf_call_gpu_page_prefetch (uvm_ops (hook_calls l)) page_index t max_region in
  let l := l <| hook_calls := S (hook_calls l) |> in
  let '(validated_region, region_result) :=
    nv_gpu_transition_validate_region initial_decision (first max_region) (outer max_region)
      PAGES_PER_UVM_VA_BLOCK type_outer in
  let initial_effect := nv_gpu_transition_prefetch_initial_effect raw_action region_result in
  let diagnostic :=
    mk_prefetch_diagnostic raw_action (pd_first initial_decision) (pd_outer initial_decision)
      (first max_region) (outer max_region) 0 0 UVM_BPF_PREFETCH_DIAG_SELECTED
      (pd_attempted initial_decision) (pd_conflict initial_decision) region_result
      initial_effect 0 false in
  let l := uvm_bpf_prefetch_diagnostic diagnostic l in
  let page := page_index - first max_region + offset t in
  '(prefetch_region, diagnostic, l) ←
    match initial_effect with
    | NV_GPU_PREFETCH_INITIAL_BYPASS => Some (to_block_region validated_region, diagnostic, l)
    | NV_GPU_PREFETCH_INITIAL_ITERATE =>
        '(prefetch_region, n) ←
          uvm_perf_prefetch_bitmap_tree_traverse_counters (iterate_body t max_region) t page
            (prefetch_region, hook_calls l);
        Some (prefetch_region, diagnostic, l <| hook_calls := n |>)
    | NV_GPU_PREFETCH_INITIAL_NATIVE =>
        relative_region ← uvm_va_block_region 0 0;
        '(relative_region, iterations) ←
          uvm_perf_prefetch_bitmap_tree_traverse_counters (native_body t) t page
            (relative_region, dg_native_iterations diagnostic);
        let diagnostic :=
          diagnostic <| dg_native_iterations := iterations |> <| dg_native_completed := true |> in
        if negb (outer relative_region =? 0) then
          let '(validated_region, region_result) :=
            nv_gpu_transition_translate_region (first max_region) (first relative_region)
              (outer relative_region) (offset t) (outer max_region)
              PAGES_PER_UVM_VA_BLOCK type_outer in
          if is_apply region_result
          then Some (to_block_region validated_region, diagnostic, l)
          else Some (prefetch_region, diagnostic, l)
        else Some (prefetch_region, diagnostic, l)
    end;
  let diagnostic :=
    diagnostic <| dg_output_first := first prefetch_region |>
               <| dg_output_outer := outer prefetch_region |>
               <| dg_phase := UVM_BPF_PREFETCH_DIAG_FINISHED |> in
  Some (prefetch_region, uvm_bpf_prefetch_diagnostic diagnostic l).
End compute.

(** ** Building the tree *)

Definition grow_fault_granularity_if_no_thrashing (t : uvm_perf_prefetch_bitmap_tree_t)
    (region : uvm_va_block_region_t) (f : Z) (faulted_pages : uvm_page_mask_t)
    (thrashing_pages : option uvm_page_mask_t) : option uvm_perf_prefetch_bitmap_tree_t :=
  if negb (uvm_page_mask_region_empty faulted_pages region)
     && match thrashing_pages with
        | None => true
        | Some thrashing => uvm_page_mask_region_empty thrashing region
        end
  then
    UVM_ASSERT (f <=? first region);
    let region := mk_region (uvm_page_index_t (first region - f + offset t))
                            (uvm_page_index_t (outer region - f + offset t)) in
    UVM_ASSERT (outer region <=? leaf_count t);
    Some (t <| pages := uvm_page_mask_region_fill (pages t) region |>)
  else Some t.

(** The loop over the big pages; [fuel] bounds the number of rounds. *)
Fixpoint grow_big_pages (fuel : nat) (t : uvm_perf_prefetch_bitmap_tree_t)
    (page_index pages_per_big_page last f : Z) (faulted_pages : uvm_page_mask_t)
    (thrashing_pages : option uvm_page_mask_t) : option uvm_perf_prefetch_bitmap_tree_t :=
  if negb (page_index <? last) then Some t
  else match fuel with
       | O => None
       | S fuel =>
           big_region ← uvm_va_block_region page_index (page_index + pages_per_big_page);
           t ← grow_fault_granularity_if_no_thrashing t big_region f faulted_pages thrashing_pages;
           grow_big_pages fuel t (uvm_page_index_t (page_index + pages_per_big_page))
             pages_per_big_page last f faulted_pages thrashing_pages
       end.

Definition grow_fault_granularity (t : uvm_perf_prefetch_bitmap_tree_t) (big_page_size : Z)
    (big_pages_region max_region : uvm_va_block_region_t) (faulted_pages : uvm_page_mask_t)
    (thrashing_pages : option uvm_page_mask_t) : option uvm_perf_prefetch_bitmap_tree_t :=
  let pages_per_big_page := uvm_page_index_t (big_page_size / PAGE_SIZE) in
  if outer big_pages_region =? 0 then
    grow_fault_granularity_if_no_thrashing t max_region (first max_region)
      faulted_pages thrashing_pages
  else
    t ← (if first max_region <? first big_pages_region then
           prefix_region ← uvm_va_block_region (first max_region) (first big_pages_region);
           grow_fault_granularity_if_no_thrashing t prefix_region (first max_region)
             faulted_pages thrashing_pages
         else Some t);
    t ← grow_big_pages (Z.to_nat PAGES_PER_UVM_VA_BLOCK) t (first big_pages_region)
          pages_per_big_page (outer big_pages_region) (first max_region)
          faulted_pages thrashing_pages;
    if outer big_pages_region <? outer max_region then
      suffix_region ← uvm_va_block_region (outer big_pages_region) (outer max_region);
      grow_fault_granularity_if_no_thrashing t suffix_region (first max_region)
        faulted_pages thrashing_pages
    else Some t.

(** The previous contents of the tree are overwritten. *)
Definition init_bitmap_tree_from_region (max_region : uvm_va_block_region_t)
    (resident_mask : option uvm_page_mask_t) (faulted_pages : uvm_page_mask_t)
    : uvm_perf_prefetch_bitmap_tree_t :=
  let m := match resident_mask with
           | Some resident => uvm_page_mask_or resident faulted_pages
           | None => uvm_page_mask_copy faulted_pages
           end in
  let m := uvm_page_mask_shift_right m (first max_region) in
  let leaves := NvU16 (uvm_va_block_region_num_pages max_region) in
  mk_tree m 0 leaves (NvU8 (ilog2 (roundup_pow_of_two leaves) + 1)).

(** [big_page_size] is the big page size of the new residency; the test of
    the second branch is on C ints, so a missing big page region (0,0) never
    takes it. *)
Definition update_bitmap_tree_from_va_block (t : uvm_perf_prefetch_bitmap_tree_t) (b : va_range)
    (big_page_size : Z) (thrashing_pages : option uvm_page_mask_t)
    (faulted_pages : uvm_page_mask_t) (max_region : uvm_va_block_region_t)
    : option uvm_perf_prefetch_bitmap_tree_t :=
  big_pages_region ← uvm_va_block_big_page_region_subset b max_region big_page_size;
  t ← (if 0 <? first big_pages_region - first max_region then
         let off := uvm_page_index_t (big_page_size / PAGE_SIZE
                                      - (first big_pages_region - first max_region)) in
         let leaves := NvU16 (uvm_va_block_region_num_pages max_region + off) in
         UVM_ASSERT (off <? big_page_size / PAGE_SIZE);
         UVM_ASSERT (leaves <=? PAGES_PER_UVM_VA_BLOCK);
         Some (mk_tree (uvm_page_mask_shift_left (pages t) off) off leaves
                 (NvU8 (ilog2 (roundup_pow_of_two leaves) + 1)))
       else Some t);
  grow_fault_granularity t big_page_size big_pages_region max_region
    faulted_pages thrashing_pages.

Section mask.
Context {P C : Type} (uvm_ops : nat -> option (gpu_mem_ops P C)) (threshold : Z).

Definition mask_body (max_region : uvm_va_block_region_t) (t : uvm_perf_prefetch_bitmap_tree_t)
    (page_index : Z) (s : uvm_page_mask_t * hook_log)
    : option (uvm_page_mask_t * hook_log * bool) :=
  let '(out_prefetch_mask, l) := s in
  '(region, l) ← compute_prefetch_region uvm_ops threshold page_index t max_region l;
  Some (uvm_page_mask_region_fill out_prefetch_mask region, l,
        outer region =? outer max_region).

Definition compute_prefetch_mask (faulted_region max_region : uvm_va_block_region_t)
    (t : uvm_perf_prefetch_bitmap_tree_t) (faulted_pages : uvm_page_mask_t) (l : hook_log)
    : option (uvm_page_mask_t * hook_log) :=
  for_each_va_block_page_in_region_mask (mask_body max_region t) (Some faulted_pages)
    faulted_region (uvm_page_mask_zero, l).
End mask.

(** ** The hint for a VA block *)

Inductive uvm_processor_id_t :=
| UVM_ID_CPU
| UVM_ID_GPU (index : nat)
| UVM_ID_INVALID.

#[export] Instance uvm_processor_id_eq_dec : EqDecision uvm_processor_id_t.
Proof. solve_decision. Defined.

Definition UVM_ID_IS_CPU (id : uvm_processor_id_t) : bool := bool_decide (id = UVM_ID_CPU).

(** What the prefetcher uses of [uvm_va_block_t]. *)
Record uvm_va_block_t := mk_va_block {
  vb_range : va_range;
  vb_is_hmm : bool;
  (* processors with resident pages *)
  vb_resident : list uvm_processor_id_t;
  vb_cpu_resident : uvm_page_mask_t;
  (* gpus[index] and its resident mask *)
  vb_gpu_resident : nat -> option uvm_page_mask_t;
  (* cpu.pte_bits[UVM_PTE_BITS_CPU_READ] *)
  vb_cpu_pte_read : uvm_page_mask_t;
  vb_last_migration_proc_id : uvm_processor_id_t;
  vb_fault_migrations_to_last_proc : Z;
}.

#[export] Instance eta_va_block : Settable uvm_va_block_t :=
  fun b => mk_va_block (vb_range b) (vb_is_hmm b) (vb_resident b) (vb_cpu_resident b)
    (vb_gpu_resident b) (vb_cpu_pte_read b) (vb_last_migration_proc_id b)
    (vb_fault_migrations_to_last_proc b).

Definition uvm_va_block_resident_mask_get (b : uvm_va_block_t) (id : uvm_processor_id_t)
    : option uvm_page_mask_t :=
  match id with
  | UVM_ID_CPU => Some (vb_cpu_resident b)
  | UVM_ID_GPU i => vb_gpu_resident b i
  | UVM_ID_INVALID => None
  end.

(** The state of the VA space and of the other UVM modules that the
    prefetcher reads: the policy of the faulted region (its preferred location
    and, for a non-default HMM policy, its range), the VMA and the hole in the
    policy tree for HMM blocks, the pages thrashing, the big page size of each
    GPU registered in the VA space, the range group ranges that overlap the
    block, and the test knob. *)
Record prefetch_env := mk_prefetch_env {
  pe_preferred_location : uvm_processor_id_t;
  pe_policy_node : option va_range;
  pe_vma : Z * Z;
  pe_find_hole_in : Z -> Z -> Z -> option (Z * Z);
  pe_thrashing_pages : option uvm_page_mask_t;
  pe_gpu_big_page_size : nat -> option Z;
  pe_range_groups : list va_range;
  pe_page_prefetch_enabled : bool;
}.

Definition uvm_hmm_get_prefetch_region (env : prefetch_env) (b : uvm_va_block_t) (address : Z)
    : option uvm_va_block_region_t :=
  UVM_ASSERT vb_is_hmm b;
  let s := Z.max (start (vb_range b)) (pe_vma env).1 in
  let e := Z.min (end_ (vb_range b)) (NvU64 ((pe_vma env).2 - 1)) in
  '(s, e) ← match pe_policy_node env with
            | None => pe_find_hole_in env address s e
            | Some node => Some (Z.max s (start node), Z.min e (end_ node))
            end;
  uvm_va_block_region_from_start_end (vb_range b) s e.

(** The big page size [update_bitmap_tree_from_va_block] chooses. *)
Definition residency_big_page_size (env : prefetch_env) (new_residency : uvm_processor_id_t) : Z :=
  match new_residency with
  | UVM_ID_GPU i => default UVM_PAGE_SIZE_64K (pe_gpu_big_page_size env i)
  | _ => UVM_PAGE_SIZE_64K
  end.

Definition max_prefetch_region (env : prefetch_env) (b : uvm_va_block_t)
    (faulted_region : uvm_va_block_region_t) : option uvm_va_block_region_t :=
  if vb_is_hmm b
  then uvm_hmm_get_prefetch_region env b (uvm_va_block_region_start (vb_range b) faulted_region)
  else uvm_va_block_region_from_block (vb_range b).

Definition uvm_perf_prefetch_enabled (g : prefetch_globals) (env : prefetch_env) : bool :=
  if negb (g_uvm_perf_prefetch_enable g) then false else pe_page_prefetch_enabled env.

Section hint.
Context {P C : Type} (uvm_ops : nat -> option (gpu_mem_ops P C)) (g : prefetch_globals).

(** Returns the updated block, the pages to prefetch, their number and the
    hook log. *)
Definition uvm_perf_prefetch_prenotify_fault_migrations (env : prefetch_env) (b : uvm_va_block_t)
    (new_residency : uvm_processor_id_t) (faulted_pages : uvm_page_mask_t)
    (faulted_region : uvm_va_block_region_t) (l : hook_log)
    : option (uvm_va_block_t * uvm_page_mask_t * Z * hook_log) :=
  let thrashing_pages := pe_thrashing_pages env in
  let b := if negb (bool_decide (vb_last_migration_proc_id b = new_residency))
           then b <| vb_last_migration_proc_id := new_residency |>
                  <| vb_fault_migrations_to_last_proc := 0 |>
           else b in
  max_region ← max_prefetch_region env b faulted_region;
  resident_mask ←
    match new_residency with
    | UVM_ID_CPU => Some (uvm_va_block_resident_mask_get b new_residency)
    | UVM_ID_GPU i =>
        match vb_gpu_resident b i with
        | Some _ => Some (uvm_va_block_resident_mask_get b new_residency)
        | None => Some None
        end
    | UVM_ID_INVALID => None (* no such index in gpus[] *)
    end;
  '(prefetch_pages, l) ←
    (if bool_decide (vb_resident b = []) && bool_decide (new_residency = pe_preferred_location env)
     then Some (uvm_page_mask_region_fill uvm_page_mask_zero max_region, l)
     else
       let t := init_bitmap_tree_from_region max_region resident_mask faulted_pages in
       t ← update_bitmap_tree_from_va_block t (vb_range b)
             (residency_big_page_size env new_residency) thrashing_pages faulted_pages max_region;
       let scratch := match thrashing_pages with
                      | Some thrashing => (uvm_page_mask_andnot faulted_pages thrashing).1
                      | None => uvm_page_mask_copy faulted_pages
                      end in
       compute_prefetch_mask uvm_ops (g_uvm_perf_prefetch_threshold g) faulted_region max_region
         t scratch l);
  let prefetch_pages := (uvm_page_mask_andnot prefetch_pages faulted_pages).1 in
  prefetch_pages ←
    (if UVM_ID_IS_CPU new_residency && negb (vb_is_hmm b)
     then
       resident ← resident_mask;
       let scratch := (uvm_page_mask_and resident (vb_cpu_pte_read b)).1 in
       Some (uvm_page_mask_andnot prefetch_pages scratch).1
     else Some prefetch_pages);
  let prefetch_pages := match thrashing_pages with
                        | Some thrashing => (uvm_page_mask_andnot prefetch_pages thrashing).1
                        | None => prefetch_pages
                        end in
  let b := b <| vb_fault_migrations_to_last_proc :=
                  NvU16 (vb_fault_migrations_to_last_proc b
                         + uvm_page_mask_region_weight faulted_pages faulted_region) |> in
  Some (b, prefetch_pages, uvm_page_mask_weight prefetch_pages, l).

Record uvm_perf_prefetch_hint_t := mk_hint {
  prefetch_pages_mask : uvm_page_mask_t;
  residency : uvm_processor_id_t;
}.

(** Clears the range group ranges in which no page faulted; the boolean says
    whether any was cleared. *)
Fixpoint clear_idle_range_groups (b : va_range) (faulted_pages : uvm_page_mask_t)
    (rgrs : list va_range) (s : uvm_page_mask_t * bool) : option (uvm_page_mask_t * bool) :=
  match rgrs with
  | [] => Some s
  | rgr :: rgrs =>
      let '(prefetch_pages, changed) := s in
      region ← uvm_va_block_region_from_start_end b (Z.max (start rgr) (start b))
                 (Z.min (end_ rgr) (end_ b));
      clear_idle_range_groups b faulted_pages rgrs
        (if uvm_page_mask_region_empty faulted_pages region
            && negb (uvm_page_mask_region_empty prefetch_pages region)
         then (uvm_page_mask_region_clear prefetch_pages region, true)
         else (prefetch_pages, changed))
  end.

Definition uvm_perf_prefetch_get_hint_va_block (env : prefetch_env) (b : uvm_va_block_t)
    (new_residency : uvm_processor_id_t) (faulted_pages : uvm_page_mask_t)
    (faulted_region : uvm_va_block_region_t) (l : hook_log)
    : option (uvm_va_block_t * uvm_perf_prefetch_hint_t * hook_log) :=
  if negb (uvm_perf_prefetch_enabled g env)
  then Some (b, mk_hint uvm_page_mask_zero UVM_ID_INVALID, l)
  else
    '(b, prefetch_pages, pending_prefetch_pages, l) ←
      uvm_perf_prefetch_prenotify_fault_migrations env b new_residency faulted_pages
        faulted_region l;
    if (g_uvm_perf_prefetch_min_faults g <=? vb_fault_migrations_to_last_proc b)
       && (0 <? pending_prefetch_pages)
    then
      '(prefetch_pages, changed) ←
        clear_idle_range_groups (vb_range b) faulted_pages (pe_range_groups env)
          (prefetch_pages, false);
      let pending_prefetch_pages :=
        if changed : bool then uvm_page_mask_weight prefetch_pages else pending_prefetch_pages in
      Some (b, mk_hint prefetch_pages
                 (if 0 <? pending_prefetch_pages then vb_last_migration_proc_id b
                  else UVM_ID_INVALID), l)
    else Some (b, mk_hint prefetch_pages UVM_ID_INVALID, l).

(** ** The hint for an ATS block *)
Definition uvm_perf_prefetch_compute_ats (env : prefetch_env) (faulted_pages : uvm_page_mask_t)
    (faulted_region max_region : uvm_va_block_region_t) (residency_mask : option uvm_page_mask_t)
    (l : hook_log) : option (uvm_page_mask_t * hook_log) :=
  if negb (uvm_perf_prefetch_enabled g env) then Some (uvm_page_mask_zero, l)
  else
    let t := init_bitmap_tree_from_region max_region residency_mask faulted_pages in
    compute_prefetch_mask uvm_ops (g_uvm_perf_prefetch_threshold g) faulted_region max_region
      t faulted_pages l.
End hint.
