(* ===== verification/PerfPrefetchSpec.v ===== *)
(** * Correctness of the page prefetcher

    The native heuristic against its specification (the largest enclosing
    subregion above the threshold), the tree against the pages it stands for,
    and the guarantees that hold under every policy: the prefetcher returns,
    no assertion fails, and nothing outside the allowed region, no faulting
    page and no thrashing page is ever prefetched. *)

From S2P Require Import Prelude TransitionValidator Bpf PageMask PerfTree UvmBpf PerfPrefetch.

(** ** One faulting page *)

(** A region to prefetch: empty, or a non-empty part of the allowed region. *)
Definition contained (r max_region : uvm_va_block_region_t) : Prop :=
  r = mk_region 0 0
  \/ (first max_region <= first r < outer r /\ outer r <= outer max_region).

(** A tree over the pages of the allowed region. *)
Definition tree_for (t : uvm_perf_prefetch_bitmap_tree_t) (max_region : uvm_va_block_region_t)
    : Prop :=
  wf_tree t /\ leaf_count t = outer max_region - first max_region + offset t.

(** The module parameters in force after a successful enable are in range,
    which is the threshold hypothesis of the theorems below. *)
Lemma init_globals_in_range enable threshold min_faults g :
  0 <= threshold ->
  let '(g', status) := uvm_perf_prefetch_init enable threshold min_faults g in
  status = NV_OK
  /\ g_uvm_perf_prefetch_enable g' = negb (enable =? 0)
  /\ (enable <> 0 -> 0 <= g_uvm_perf_prefetch_threshold g' <= 100
                     /\ 1 <= g_uvm_perf_prefetch_min_faults g' <= 20).
Proof.
  intros. unfold uvm_perf_prefetch_init. destruct (enable =? 0) eqn:He; cbn.
  { split_and!; [done..|]. apply Z.eqb_eq in He. done. }
  unfold UVM_PREFETCH_THRESHOLD_DEFAULT, UVM_PREFETCH_MIN_FAULTS_MIN,
    UVM_PREFETCH_MIN_FAULTS_MAX, UVM_PREFETCH_MIN_FAULTS_DEFAULT.
  split_and!; [done..|]. intros _. split; case_match; lia.
Qed.

(** ** The native heuristic *)

(** The subregion at height [h] is above the threshold. *)
Definition hot (threshold : Z) (t : uvm_perf_prefetch_bitmap_tree_t) (p h : Z) : bool :=
  (outer (leaf_range t p h) - first (leaf_range t p h)) * threshold
  <? leaf_range_count t p h * 100.

(** The largest height below [n] at which it is. *)
Fixpoint hottest (threshold : Z) (t : uvm_perf_prefetch_bitmap_tree_t) (p : Z) (n : nat)
    : option Z :=
  match n with
  | O => None
  | S n => if hot threshold t p (Z.of_nat n) then Some (Z.of_nat n)
           else hottest threshold t p n
  end.

(** The region the native path returns for leaf [p]: the largest hot subregion
    in block pages, unless it starts in the alignment padding. *)
Definition native_region (threshold : Z) (t : uvm_perf_prefetch_bitmap_tree_t)
    (max_region : uvm_va_block_region_t) (p : Z) : uvm_va_block_region_t :=
  match hottest threshold t p (Z.to_nat (level_count t)) with
  | None => mk_region 0 0
  | Some h =>
      let r := leaf_range t p h in
      if offset t <=? first r
      then mk_region (first max_region + first r - offset t) (first max_region + outer r - offset t)
      else mk_region 0 0
  end.

Lemma hottest_bounds threshold t p n h :
  hottest threshold t p n = Some h -> 0 <= h < Z.of_nat n.
Proof.
  induction n as [|n IH]; cbn [hottest]; [done|]. case_match; [intros [= <-]; lia|].
  intros ?%IH. lia.
Qed.

(** The policy's region is used only when it has been validated. *)
Lemma initial_bypass_apply a res :
  nv_gpu_transition_prefetch_initial_effect a res = NV_GPU_PREFETCH_INITIAL_BYPASS ->
  res = NV_GPU_TRANSITION_APPLY.
Proof.
  unfold nv_gpu_transition_prefetch_initial_effect.
  destruct (nv_gpu_transition_validate_initial_action a) as [act v].
  destruct (negb (is_apply v)), (act =? NV_GPU_TRANSITION_ACTION_ENTER_LOOP); try done.
  by destruct (act =? NV_GPU_TRANSITION_ACTION_BYPASS), res.
Qed.

Lemma iterator_commit_apply a res :
  nv_gpu_transition_prefetch_iterator_effect a res = NV_GPU_PREFETCH_ITERATOR_COMMIT ->
  res = NV_GPU_TRANSITION_APPLY.
Proof.
  unfold nv_gpu_transition_prefetch_iterator_effect.
  destruct (nv_gpu_transition_validate_iterator_action a) as [act v].
  destruct (negb (is_apply v)); try done.
  by destruct (act =? NV_GPU_TRANSITION_ACTION_BYPASS), res.
Qed.

Section one_page.
Context {P C : Type} (uvm_ops : nat -> option (gpu_mem_ops P C)) (threshold : Z).
Context (t : uvm_perf_prefetch_bitmap_tree_t) (max_region : uvm_va_block_region_t) (page : Z).
Hypothesis Hthr : 0 <= threshold <= 100.
Hypothesis Ht : tree_for t max_region.
Hypothesis Hmax : wf_region max_region.
Hypothesis Hpage : first max_region <= page < outer max_region.

(** The page's leaf. *)
Definition leaf := page - first max_region + offset t.

Lemma leaf_bounds : 0 <= leaf < leaf_count t.
Proof. unfold leaf. destruct Ht as [(?&_&?) ?]. lia. Qed.

(** A range of leaves translates to the same range of pages, unless it starts
    in the padding. *)
Lemma translate_leaves h :
  0 <= h ->
  let r := leaf_range t leaf h in
  nv_gpu_transition_translate_region (first max_region) (first r) (outer r) (offset t)
    (outer max_region) PAGES_PER_UVM_VA_BLOCK type_outer
  = if offset t <=? first r
    then (mk_transition_region (first max_region + first r - offset t)
            (first max_region + outer r - offset t), NV_GPU_TRANSITION_APPLY)
    else (region_zero, NV_GPU_TRANSITION_REJECT_RANGE).
Proof.
  intros Hh r. pose proof leaf_bounds.
  destruct Ht as [Hwf Hlc]. pose proof Hwf as (?&_&?). destruct Hmax as [? ?].
  destruct (leaf_range_bounds t leaf h) as (?&?&?); [done..|]. fold r in H3, H4, H5.
  unfold PAGES_PER_UVM_VA_BLOCK in *. change type_outer with 65535.
  destruct (translate_region_spec (first max_region) (first r) (outer r) (offset t)
              (outer max_region) 512 65535) as [Hok Hno]; [unfold in_width; lia..|].
  case_match; [apply Hok|apply Hno]; unfold NV_U64_MAX; lia.
Qed.

Lemma native_step h r i :
  0 <= h < level_count t -> 0 <= i < 2 ^ 32 - 1 ->
  native_body threshold t (leaf_range_count t leaf h) (iter_at t leaf h) (r, i)
  = Some (if hot threshold t leaf h then leaf_range t leaf h else r, i + 1).
Proof.
  pose proof leaf_bounds as Hp. destruct Ht as [Hwf Hlc]. intros Hh Hi.
  pose proof Hwf as (?&_&?). unfold native_body. rewrite get_range_eq by done.
  destruct (leaf_range_bounds t leaf h) as (?&?&?); [done..|lia|].
  cbn [mbind option_bind]. unfold PAGES_PER_UVM_VA_BLOCK in *.
  rewrite num_pages_eq by (unfold wf_region, PAGES_PER_UVM_VA_BLOCK; lia).
  unfold hot. pose proof (leaf_range_count_bounds t leaf h Hwf Hp ltac:(lia)).
  set (r' := leaf_range t leaf h) in *.
  unfold NvU16, NvU32. rewrite (wrap_small 16) by (unfold in_width; lia).
  rewrite !(wrap_small 32) by (unfold in_width; nia).
  by replace (_ <=? _) with true by lia.
Qed.

(** The native walk from height [k] on. *)
Lemma native_climb n k r i :
  (n + k <= Z.to_nat (level_count t))%nat -> 0 <= i -> i + Z.of_nat n < 2 ^ 32 ->
  climb t leaf (native_body threshold t) n (Z.of_nat k)
    (match hottest threshold t leaf k with Some h => leaf_range t leaf h | None => r end, i)
  = Some (match hottest threshold t leaf (n + k) with Some h => leaf_range t leaf h | None => r end,
          i + Z.of_nat n).
Proof.
  revert k i. induction n as [|n IH]; intros k i Hk Hi Hn.
  { cbn [climb]. do 2 f_equal. lia. }
  cbn [climb]. rewrite native_step by lia. cbn [mbind option_bind].
  replace (if hot threshold t leaf (Z.of_nat k) then _ else _)
    with (match hottest threshold t leaf (S k) with Some h => leaf_range t leaf h | None => r end)
    by (cbn [hottest]; by destruct (hot threshold t leaf (Z.of_nat k))).
  replace (Z.of_nat k + 1) with (Z.of_nat (S k)) by lia.
  rewrite IH, Nat.add_succ_r by lia. cbn. do 2 f_equal; lia.
Qed.
Lemma native_region_contained :
  contained (native_region threshold t max_region leaf) max_region
  /\ forall h, hottest threshold t leaf (Z.to_nat (level_count t)) = Some h ->
     0 <= h < level_count t /\ 0 < outer (leaf_range t leaf h).
Proof.
  pose proof leaf_bounds as Hp. destruct Ht as [Hwf Hlc].
  assert (Hh : forall h, hottest threshold t leaf (Z.to_nat (level_count t)) = Some h ->
    0 <= h < level_count t /\ 0 < outer (leaf_range t leaf h)).
  { intros h ?%hottest_bounds. destruct (leaf_range_bounds t leaf h) as (?&?&?); [done|done|lia|]. lia. }
  split; [|done]. unfold native_region.
  destruct (hottest _ _ _ _) as [h|]; [|by left]. destruct (Hh h) as [? ?]; [done|].
  destruct (leaf_range_bounds t leaf h) as (?&?&?); [done|done|lia|].
  destruct (offset t <=? _) eqn:?; [right|by left]. cbn [first outer]. lia.
Qed.

(** The end of the native branch, with [k] the rest of the function. *)
Lemma native_translate {X} (k : uvm_va_block_region_t -> X) :
  let rel := match hottest threshold t leaf (Z.to_nat (level_count t)) with
             | Some h => leaf_range t leaf h
             | None => mk_region 0 0
             end in
  (if negb (outer rel =? 0) then
     let '(vr, res) := nv_gpu_transition_translate_region (first max_region) (first rel) (outer rel)
                         (offset t) (outer max_region) PAGES_PER_UVM_VA_BLOCK type_outer in
     if is_apply res then k (to_block_region vr) else k (mk_region 0 0)
   else k (mk_region 0 0))
  = k (native_region threshold t max_region leaf).
Proof.
  destruct native_region_contained as [Hc Hh]. unfold native_region in *. cbn zeta.
  destruct (hottest _ _ _ _) as [h|]; [|done]. destruct (Hh h) as [? ?]; [done|].
  replace (outer (leaf_range t leaf h) =? 0) with false by lia. cbn [negb].
  rewrite translate_leaves by lia. destruct (offset t <=? _) eqn:?; [|done].
  pose proof leaf_bounds as Hp. destruct Ht as [Hwf Hlc]. destruct Hmax as [? ?].
  destruct (leaf_range_bounds t leaf h) as (?&?&?); [done|done|lia|].
  change (is_apply NV_GPU_TRANSITION_APPLY) with true. unfold PAGES_PER_UVM_VA_BLOCK in *.
  unfold to_block_region. cbn [tr_first tr_outer]. by rewrite !page_index_small by lia.
Qed.

(** *** The three branches *)

Definition initial_hook (l : hook_log) : nv_gpu_prefetch_decision_t * Z :=
  uvm_bpf_call_gpu_page_prefetch (uvm_ops (hook_calls l)) page t max_region.

Definition initial_region (l : hook_log) : nv_gpu_transition_region_t * nv_gpu_transition_result :=
  nv_gpu_transition_validate_region (initial_hook l).1 (first max_region) (outer max_region)
    PAGES_PER_UVM_VA_BLOCK type_outer.

Definition initial_effect (l : hook_log) : nv_gpu_prefetch_initial_effect :=
  nv_gpu_transition_prefetch_initial_effect (initial_hook l).2 (initial_region l).2.

(** The log after a call that dereferenced the slot [n] times in all and
    returned [r]. *)
Definition reported (l l' : hook_log) (n : nat) (r : uvm_va_block_region_t) : Prop :=
  hook_calls l' = n
  /\ exists d1 d2, diagnostics l' = diagnostics l ++ [d1; d2]
     /\ dg_phase d1 = UVM_BPF_PREFETCH_DIAG_SELECTED
     /\ dg_phase d2 = UVM_BPF_PREFETCH_DIAG_FINISHED
     /\ dg_initial_effect d1 = initial_effect l /\ dg_initial_effect d2 = initial_effect l
     /\ dg_output_first d2 = first r /\ dg_output_outer d2 = outer r
     /\ dg_native_completed d2 = bool_decide (initial_effect l = NV_GPU_PREFETCH_INITIAL_NATIVE).

Lemma contained_to_block_region r :
  r = region_zero
  \/ (first max_region <= tr_first r < tr_outer r /\ tr_outer r <= outer max_region) ->
  to_block_region r = mk_region (tr_first r) (tr_outer r)
  /\ contained (to_block_region r) max_region.
Proof.
  destruct Hmax as [? ?]. unfold PAGES_PER_UVM_VA_BLOCK in *.
  intros [->|?]; [by split; [|left]|]. unfold to_block_region.
  rewrite !page_index_small by lia. split; [done|]. right. cbn. lia.
Qed.

Lemma initial_region_contained l :
  (initial_region l).2 = NV_GPU_TRANSITION_APPLY ->
  to_block_region (initial_region l).1
    = mk_region (tr_first (initial_region l).1) (tr_outer (initial_region l).1)
  /\ contained (to_block_region (initial_region l).1) max_region.
Proof.
  intros Hap. apply contained_to_block_region. unfold initial_region in *.
  destruct (nv_gpu_transition_validate_region _ _ _ _ _) as [r res] eqn:Hv. cbn in *. subst res.
  by apply validate_region_within in Hv.
Qed.
Lemma iterate_step h r n :
  0 <= h < level_count t -> contained r max_region ->
  exists r' n', iterate_body uvm_ops t max_region (leaf_range_count t leaf h) (iter_at t leaf h)
                  (r, n) = Some (r', n') /\ contained r' max_region /\ (n <= n' <= S n)%nat.
Proof.
  pose proof leaf_bounds as Hp. intros Hh Hr. pose proof Ht as [Hwf Hlc]. unfold iterate_body.
  rewrite get_range_eq by done. cbn [mbind option_bind]. rewrite region_some by lia.
  cbn [mbind option_bind]. rewrite translate_leaves by lia. cbn zeta.
  destruct (offset t <=? _); cbn; [|exists r, n; split_and!; by (done || lia)].
  destruct (uvm_bpf_call_gpu_page_prefetch_iter _ _ _ _ _) as [d a].
  destruct (nv_gpu_transition_validate_region d _ _ _ _) as [vr res] eqn:Hv.
  destruct (nv_gpu_transition_prefetch_iterator_effect a res) eqn:He;
    [exists r, (S n); split_and!; by (done || lia)|].
  exists (to_block_region vr), (S n). split_and!; [done| |lia..].
  apply contained_to_block_region. assert (res = NV_GPU_TRANSITION_APPLY) as ->.
  { by apply iterator_commit_apply in He. }
  by apply validate_region_within in Hv.
Qed.

Lemma iterate_climb n0 k r n :
  0 <= k -> k + Z.of_nat n0 <= level_count t -> contained r max_region ->
  exists r' n', climb t leaf (iterate_body uvm_ops t max_region) n0 k (r, n) = Some (r', n')
    /\ contained r' max_region /\ (n <= n' <= n + n0)%nat.
Proof.
  revert k r n. induction n0 as [|n0 IH]; intros k r n Hk Hn Hr.
  { exists r, n. split_and!; by (done || lia). }
  cbn [climb]. destruct (iterate_step k r n) as (r1&n1&->&?&?); [lia|done|]. cbn [mbind option_bind].
  destruct (IH (k + 1) r1 n1) as (r2&n2&->&?&?); [lia..|done|].
  exists r2, n2. split_and!; by (done || lia).
Qed.

(** [compute_prefetch_region] on its three branches. *)
Lemma compute_spec l :
  exists r l' n, compute_prefetch_region uvm_ops threshold page t max_region l = Some (r, l')
    /\ contained r max_region /\ reported l l' n r
    /\ (S (hook_calls l) <= n <= S (hook_calls l) + Z.to_nat (level_count t))%nat
    /\ match initial_effect l with
       | NV_GPU_PREFETCH_INITIAL_NATIVE => r = native_region threshold t max_region leaf
       | NV_GPU_PREFETCH_INITIAL_BYPASS =>
           r = mk_region (tr_first (initial_region l).1) (tr_outer (initial_region l).1)
       | NV_GPU_PREFETCH_INITIAL_ITERATE => True
       end.
Proof.
  pose proof leaf_bounds as Hp. pose proof Ht as [Hwf Hlc].
  pose proof (wf_tree_levels t Hwf) as Hlv.
  unfold compute_prefetch_region. rewrite !region_some by lia. cbn [mbind option_bind].
  pose proof (initial_region_contained l) as Hreg.
  unfold reported, initial_effect, initial_region, initial_hook in *.
  destruct (uvm_bpf_call_gpu_page_prefetch _ _ _ _) as [d a]. cbn [fst snd] in *.
  destruct (nv_gpu_transition_validate_region d _ _ _ _) as [vr res] eqn:Hv. cbn [fst snd] in *.
  fold leaf. destruct (nv_gpu_transition_prefetch_initial_effect a res) eqn:He.
  - rewrite traverse_climb by done.
    pose proof (native_climb (Z.to_nat (level_count t)) 0 (mk_region 0 0) 0) as Hn.
    cbn [hottest] in Hn. change (Z.of_nat 0) with 0 in Hn.
    cbn [dg_native_iterations]. rewrite Hn by lia. clear Hn.
    rewrite Nat.add_0_r. cbn [mbind option_bind].
    rewrite (native_translate (fun r => Some (r, _, _))). cbn [mbind option_bind].
    do 3 eexists. split; [done|]. split; [apply native_region_contained|].
    split_and!; cbn; [done| |lia|lia|done]. do 2 eexists. by rewrite <- app_assoc.
  - destruct Hreg as [Hid Hc].
    { by apply initial_bypass_apply in He. }
    cbn [mbind option_bind]. do 3 eexists. split; [done|]. split; [done|].
    rewrite Hid. split_and!; cbn; [done| |lia|lia|done].
    do 2 eexists. by rewrite <- app_assoc.
  - rewrite traverse_climb by done.
    destruct (iterate_climb (Z.to_nat (level_count t)) 0 (mk_region 0 0) (S (hook_calls l)))
      as (r&n&Hc&?&?); [lia..|by left|].
    cbn [hook_calls uvm_bpf_prefetch_diagnostic update_field]. rewrite Hc. cbn [mbind option_bind].
    do 3 eexists. split; [done|]. split; [done|].
    split_and!; cbn; [done| |lia|lia|done]. do 2 eexists. by rewrite <- app_assoc.
Qed.
End one_page.

(** Under every policy (any callback, any kfunc calls, any return values,
    replaced at any time) the prefetcher's answer for a faulting page is
    computed without failing an assertion; it is the empty region or a
    non-empty region inside the allowed one; the policy slot is dereferenced
    once and then at most once per tree level; and exactly two diagnostics are
    emitted, the second of which reports the region returned. *)
Theorem prefetch_region_contained {P C} (uvm_ops : nat -> option (gpu_mem_ops P C))
    threshold t max_region page l :
  0 <= threshold <= 100 -> tree_for t max_region -> wf_region max_region ->
  first max_region <= page < outer max_region ->
  exists r l' n,
    compute_prefetch_region uvm_ops threshold page t max_region l = Some (r, l')
    /\ contained r max_region
    /\ reported uvm_ops t max_region page l l' n r
    /\ (S (hook_calls l) <= n <= S (hook_calls l) + Z.to_nat (level_count t))%nat.
Proof.
  intros Hthr Ht Hmax Hpage.
  destruct (compute_spec uvm_ops threshold t max_region page Hthr Ht Hmax Hpage l)
    as (r&l'&n&?&?&?&?&_). by exists r, l', n.
Qed.

(** C26: without a policy the answer is the native heuristic: of the aligned
    subregions of the tree that contain the faulting page, the largest one
    whose set leaves exceed the threshold percentage, translated to block
    pages, or nothing when no subregion does or the largest one starts in the
    alignment padding.  The same holds under any policy whose verdict is
    NATIVE, and a missing policy or callback has that verdict. *)
Theorem native_prefetch_exact {P C} (uvm_ops : nat -> option (gpu_mem_ops P C))
    threshold t max_region page l :
  0 <= threshold <= 100 -> tree_for t max_region -> wf_region max_region ->
  first max_region <= page < outer max_region ->
  (uvm_ops (hook_calls l) ≫= gpu_page_prefetch = None ->
   initial_effect uvm_ops t max_region page l = NV_GPU_PREFETCH_INITIAL_NATIVE)
  /\ (initial_effect uvm_ops t max_region page l = NV_GPU_PREFETCH_INITIAL_NATIVE ->
      exists l', compute_prefetch_region uvm_ops threshold page t max_region l
        = Some (native_region threshold t max_region (page - first max_region + offset t), l')).
Proof.
  intros Hthr Ht Hmax Hpage. split.
  - intros Hno. unfold initial_effect, initial_region, initial_hook, uvm_bpf_call_gpu_page_prefetch.
    by rewrite Hno.
  - intros He. destruct (compute_spec uvm_ops threshold t max_region page Hthr Ht Hmax Hpage l)
      as (r&l'&n&Hc&_&_&_&Hr). rewrite He in Hr. exists l'. by rewrite Hc, Hr.
Qed.

(** A policy decides the region by returning BYPASS: if all the regions
    its calls named are one region, and that is (0,0) or a non-empty part of
    the allowed region, it is returned unchanged; if it named none, several,
    or one outside the allowed region, the answer is the native one. *)
Theorem bypass_policy_exact {P C} (uvm_ops : nat -> option (gpu_mem_ops P C))
    threshold t max_region page l cb :
  0 <= threshold <= 100 -> tree_for t max_region -> wf_region max_region ->
  first max_region <= page < outer max_region ->
  uvm_ops (hook_calls l) ≫= gpu_page_prefetch = Some cb ->
  let p := cb page t max_region in
  let vs := prefetch_requests (Some p) in
  bpf_int (bpf_run prefetch_dispatch p
             (Some (mk_uvm_prefetch_decision prefetch_decision_zero))).2 = UVM_BPF_ACTION_BYPASS ->
  (forall r, unanimous vs (first r, outer r) -> contained r max_region ->
     exists l', compute_prefetch_region uvm_ops threshold page t max_region l = Some (r, l'))
  /\ ((forall r, unanimous vs (first r, outer r) -> ~ contained r max_region) ->
      exists l', compute_prefetch_region uvm_ops threshold page t max_region l
        = Some (native_region threshold t max_region (page - first max_region + offset t), l')).
Proof.
  intros Hthr Ht Hmax Hpage Hcb p vs Hret.
  destruct (compute_spec uvm_ops threshold t max_region page Hthr Ht Hmax Hpage l)
    as (r0&l'&n&Hc&_&_&_&Hr).
  assert (Hh : initial_hook uvm_ops t max_region page l = (record_all vs, UVM_BPF_ACTION_BYPASS)).
  { unfold initial_hook, uvm_bpf_call_gpu_page_prefetch. rewrite Hcb. cbn [mbind option_bind].
    fold p. rewrite <- Hret. unfold vs. rewrite <- run_prefetch_hook_records.
    cbn. by destruct (bpf_run _ _ _). }
  destruct (validate_region_spec vs (first max_region) (outer max_region)
              PAGES_PER_UVM_VA_BLOCK type_outer) as [Hv _]. cbn zeta in Hv.
  destruct Hmax as [? Hout]. assert (Hty : PAGES_PER_UVM_VA_BLOCK <= type_outer) by done.
  unfold initial_effect, initial_region in Hr. rewrite Hh in Hr. cbn [fst snd] in Hr.
  destruct (nv_gpu_transition_validate_region _ _ _ _ _) as [vr res]. cbn [fst snd] in Hr. split.
  - intros r Hu Hcon. destruct (Hv (mk_transition_region (first r) (outer r))) as [_ Hv'].
    assert (Heq : (vr, res) = (mk_transition_region (first r) (outer r), NV_GPU_TRANSITION_APPLY)).
    { apply Hv'. split; [done|]. destruct Hcon as [->|?]; [by left|right; cbn; lia]. }
    simplify_eq.
    exists l'. cbn in Hr. rewrite Hc, Hr. by destruct r.
  - intros Hno. exists l'. rewrite Hc. do 2 f_equal.
    destruct (decide (res = NV_GPU_TRANSITION_APPLY)) as [->|Hres].
    + destruct (Hv vr) as [Hv' _]. destruct Hv' as [Hu Hin]; [done|].
      destruct (Hno (mk_region (tr_first vr) (tr_outer vr)) Hu).
      destruct Hin as [->|?]; [by left|right; cbn; lia].
    + replace (nv_gpu_transition_prefetch_initial_effect _ res)
        with NV_GPU_PREFETCH_INITIAL_NATIVE in Hr by by destruct res. done.
Qed.

Lemma padded_native_region threshold t max_region p :
  tree_for t max_region -> 0 <= p < leaf_count t -> 0 < offset t ->
  hot threshold t p (level_count t - 1) = true ->
  native_region threshold t max_region p = mk_region 0 0.
Proof.
  intros [Hwf _] Hp Ho Hhot. pose proof (wf_tree_levels t Hwf) as Hlv. pose proof Hwf as (?&Hlev&_).
  unfold native_region.
  replace (Z.to_nat (level_count t)) with (S (Z.to_nat (level_count t - 1))) by lia.
  cbn [hottest]. rewrite Z2Nat.id by lia. rewrite Hhot.
  assert (Hf : first (leaf_range t p (level_count t - 1)) = 0).
  { cbn. rewrite Z.div_small; [lia|]. split; [lia|].
    replace (level_count t - 1) with (Z.log2_up (leaf_count t)).
    2: { rewrite Hlev. unfold ilog2, roundup_pow_of_two.
         rewrite Z.log2_pow2 by apply Z.log2_up_nonneg. lia. }
    destruct (decide (leaf_count t = 1)) as [Hl|]; [rewrite Hl in *; cbn; lia|].
    pose proof (Z.log2_up_spec (leaf_count t)). lia. }
  rewrite Hf. by replace (offset t <=? 0) with false by lia.
Qed.

(** Alignment padding suppresses the native prefetch: when the tree has
    padding leaves (its offset is positive) and the tree as a whole is above
    the threshold, the prefetcher without a policy prefetches nothing for any
    faulting page, however dense the block is: the largest hot subregion is
    the whole tree, which starts in the padding and is rejected, not
    clamped. *)
Theorem padding_suppresses_native {P C} (uvm_ops : nat -> option (gpu_mem_ops P C))
    threshold t max_region page l :
  0 <= threshold <= 100 -> tree_for t max_region -> wf_region max_region ->
  first max_region <= page < outer max_region ->
  uvm_ops (hook_calls l) ≫= gpu_page_prefetch = None ->
  0 < offset t -> hot threshold t (page - first max_region + offset t) (level_count t - 1) = true ->
  exists l', compute_prefetch_region uvm_ops threshold page t max_region l = Some (mk_region 0 0, l').
Proof.
  intros Hthr Ht Hmax Hpage Hno Ho Hhot.
  destruct (compute_spec uvm_ops threshold t max_region page Hthr Ht Hmax Hpage l)
    as (r&l'&n&Hc&_&_&_&Hr). exists l'. rewrite Hc.
  assert (He : initial_effect uvm_ops t max_region page l = NV_GPU_PREFETCH_INITIAL_NATIVE)
    by (unfold initial_effect, initial_region, initial_hook, uvm_bpf_call_gpu_page_prefetch;
        by rewrite Hno).
  rewrite He in Hr. rewrite Hr, padded_native_region; [done|done| |done|done].
  by eapply leaf_bounds.
Qed.

(** ** The tree stands for the pages of the allowed region *)

(** The block page of leaf [i]. *)
Definition leaf_page (t : uvm_perf_prefetch_bitmap_tree_t) (max_region : uvm_va_block_region_t)
    (i : Z) : Z := first max_region + i - offset t.

(** The big page that contains page [p], or the whole prefix or suffix of the
    allowed region that no big page covers ([n] pages per big page). *)
Definition granule (n : Z) (big_region max_region : uvm_va_block_region_t) (p : Z)
    : uvm_va_block_region_t :=
  if outer big_region =? 0 then max_region
  else if p <? first big_region then mk_region (first max_region) (first big_region)
  else if p <? outer big_region then
    let s := first big_region + n * ((p - first big_region) / n) in mk_region s (s + n)
  else mk_region (outer big_region) (outer max_region).

(** A granule grows when a page of it faulted and none is thrashing. *)
Definition grows (faulted_pages : uvm_page_mask_t) (thrashing_pages : option uvm_page_mask_t)
    (g : uvm_va_block_region_t) : bool :=
  negb (uvm_page_mask_region_empty faulted_pages g)
  && match thrashing_pages with
     | None => true
     | Some thrashing => uvm_page_mask_region_empty thrashing g
     end.

Definition region_has (r : uvm_va_block_region_t) (p : Z) : bool :=
  (first r <=? p) && (p <? outer r).

Section grow.
Context (max_region : uvm_va_block_region_t) (faulted : uvm_page_mask_t)
  (thrashing : option uvm_page_mask_t).
Hypothesis Hmax : wf_region max_region.
Notation grow_region t g :=
  (grow_fault_granularity_if_no_thrashing t g (first max_region) faulted thrashing).

(** [t'] is [t] with the pages selected by [sel] added. *)
Definition grown_by (t t' : uvm_perf_prefetch_bitmap_tree_t) (sel : Z -> bool) : Prop :=
  offset t' = offset t /\ leaf_count t' = leaf_count t /\ level_count t' = level_count t
  /\ forall i, Z.testbit (pages t') i = Z.testbit (pages t) i || sel (leaf_page t max_region i).

Lemma grown_by_tree_for t t' sel :
  grown_by t t' sel -> tree_for t max_region -> tree_for t' max_region.
Proof.
  intros (Ho&Hl&Hv&_) [(?&?&?) ?]. unfold tree_for, wf_tree. by rewrite Ho, Hl, Hv.
Qed.

Lemma grown_by_trans t1 t2 t3 s1 s2 s :
  grown_by t1 t2 s1 -> grown_by t2 t3 s2 -> (forall p, s p = s1 p || s2 p) -> grown_by t1 t3 s.
Proof.
  intros (Ho&Hl&Hv&Hb) (Ho'&Hl'&Hv'&Hb') Hs. unfold grown_by.
  rewrite Ho', Hl', Hv', Ho, Hl, Hv. split_and!; [done..|]. intros i.
  rewrite Hb', Hb, Hs. unfold leaf_page. rewrite Ho. by rewrite orb_assoc.
Qed.

Lemma grow_region_spec t g :
  tree_for t max_region -> first max_region <= first g <= outer g -> outer g <= outer max_region ->
  exists t', grow_region t g = Some t'
    /\ grown_by t t' (fun p => grows faulted thrashing g && region_has g p).
Proof.
  intros [(?&?&?) Hlc] Hg Hgo. destruct Hmax as [? ?]. unfold PAGES_PER_UVM_VA_BLOCK in *.
  unfold grow_fault_granularity_if_no_thrashing.
  change (negb (uvm_page_mask_region_empty faulted g) && _) with (grows faulted thrashing g).
  destruct (grows faulted thrashing g).
  - replace (first max_region <=? first g) with true by lia. cbn zeta.
    rewrite !page_index_small by lia. cbn [outer].
    replace (_ <=? leaf_count t) with true by lia. eexists. split; [done|].
    unfold grown_by. cbn. split_and!; [done..|]. intros i. rewrite region_fill_spec by (cbn; lia).
    cbn. unfold region_has, leaf_page. f_equal. lia.
  - exists t. unfold grown_by. cbn. split_and!; [done..|]. intros. by rewrite orb_false_r.
Qed.

Lemma div_shift n x page : 0 < n -> page + n + n * ((x - (page + n)) / n) = page + n * ((x - page) / n).
Proof.
  intros. replace (x - page) with ((x - (page + n)) + 1 * n) by lia. rewrite Z.div_add by lia. lia.
Qed.

Lemma grow_big_pages_spec fuel t page n last :
  tree_for t max_region -> 0 < n -> first max_region <= page <= last -> last <= outer max_region ->
  (n | last - page) -> last - page <= Z.of_nat fuel ->
  exists t', grow_big_pages fuel t page n last (first max_region) faulted thrashing = Some t'
    /\ grown_by t t' (fun p => (page <=? p) && (p <? last)
         && grows faulted thrashing (mk_region (page + n * ((p - page) / n))
                                               (page + n * ((p - page) / n) + n))).
Proof.
  intros Ht Hn. revert t page Ht.
  assert (Hdone : forall t page, last <= page ->
    grown_by t t (fun p => (page <=? p) && (p <? last)
      && grows faulted thrashing (mk_region (page + n * ((p - page) / n))
                                            (page + n * ((p - page) / n) + n)))).
  { intros t page Hp. unfold grown_by. split_and!; [done..|]. intros i.
    set (p := leaf_page _ _ _). replace ((page <=? p) && (p <? last)) with false by lia.
    by rewrite orb_false_r. }
  induction fuel as [|fuel IH]; intros t page Ht Hp Hl [c Hc] Hf; cbn [grow_big_pages].
  { replace (page <? last) with false by lia. cbn. exists t. split; [done|]. apply Hdone. lia. }
  destruct (page <? last) eqn:Hlt; cbn [negb]; [|exists t; split; [done|]; apply Hdone; lia].
  apply Z.ltb_lt in Hlt. assert (0 < c) by nia. assert (page + n <= last) by nia.
  pose proof Hmax as [? Ho]. unfold PAGES_PER_UVM_VA_BLOCK in Ho.
  rewrite region_some by lia. cbn [mbind option_bind].
  destruct (grow_region_spec t (mk_region page (page + n))) as (t1&->&Hg1); [done|cbn; lia..|].
  cbn [mbind option_bind]. rewrite page_index_small by lia.
  destruct (IH t1 (page + n)) as (t2&->&Hg2);
    [by eapply grown_by_tree_for|lia..|exists (c - 1); lia|lia|].
  exists t2. split; [done|]. eapply grown_by_trans; [done..|]. intros p. cbn.
  rewrite div_shift by done. unfold region_has. cbn.
  destruct (decide (page <= p < page + n)).
  - rewrite (Z.div_small (p - page) n) by lia. rewrite Z.mul_0_r, Z.add_0_r.
    destruct (grows _ _ _); lia.
  - destruct (grows _ _ (mk_region (page + n * ((p - page) / n)) _)), (grows _ _ _); lia.
Qed.
(** An optional step on one region, as the prefix and the suffix take it. *)
Lemma grow_optional t (c : bool) f o :
  tree_for t max_region -> first max_region <= f -> o <= outer max_region -> (c = true -> f <= o) ->
  exists t', (if c then g ← uvm_va_block_region f o; grow_region t g else Some t) = Some t'
    /\ grown_by t t' (fun p => c && (grows faulted thrashing (mk_region f o) && region_has (mk_region f o) p)).
Proof.
  intros Ht Hf Ho Hc. pose proof Hmax as [? Hm]. unfold PAGES_PER_UVM_VA_BLOCK in Hm.
  destruct c; cbn.
  - specialize (Hc eq_refl). rewrite region_some by lia. cbn [mbind option_bind].
    apply grow_region_spec; [done|cbn; lia..].
  - exists t. split; [done|]. unfold grown_by. split_and!; [done..|].
    intros. by rewrite orb_false_r.
Qed.

Lemma grow_fault_granularity_spec t j big_region :
  tree_for t max_region -> 0 <= j <= 9 ->
  big_region = mk_region 0 0
  \/ (first max_region <= first big_region < outer big_region
      /\ outer big_region <= outer max_region /\ (2 ^ j | outer big_region - first big_region)) ->
  exists t', grow_fault_granularity t (big_size j) big_region max_region faulted thrashing = Some t'
    /\ grown_by t t' (fun p => region_has max_region p
         && grows faulted thrashing (granule (2 ^ j) big_region max_region p)).
Proof.
  intros Ht Hj Hbr. pose proof Hmax as [? Ho]. unfold PAGES_PER_UVM_VA_BLOCK in Ho.
  assert (Hn : 1 <= 2 ^ j <= 512).
  { split; [pose proof (pow2_pos j); lia|]. change 512 with (2 ^ 9). apply Z.pow_le_mono_r; lia. }
  unfold grow_fault_granularity, granule.
  destruct Hbr as [->|(Hf&Hl&Hd)]; cbn [outer first].
  { destruct (grow_region_spec t max_region) as (t1&->&Hg); [done|lia..|]. exists t1. split; [done|].
    destruct Hg as (?&?&?&Hb). unfold grown_by. split_and!; [done..|].
    intros i. rewrite Hb. cbn. f_equal. apply andb_comm. }
  replace (outer big_region =? 0) with false by lia.
  unfold big_size, PAGE_SIZE. rewrite Z.mul_comm, Z.div_mul, page_index_small by lia.
  destruct (grow_optional t (first max_region <? first big_region) (first max_region)
              (first big_region)) as (t1&->&Hg1); [done|lia..|].
  cbn [mbind option_bind].
  destruct (grow_big_pages_spec (Z.to_nat PAGES_PER_UVM_VA_BLOCK) t1 (first big_region) (2 ^ j)
              (outer big_region)) as (t2&->&Hg2);
    [by eapply grown_by_tree_for|lia..|done|unfold PAGES_PER_UVM_VA_BLOCK; lia|].
  cbn [mbind option_bind].
  destruct (grow_optional t2 (outer big_region <? outer max_region) (outer big_region)
              (outer max_region)) as (t3&->&Hg3);
    [by eapply grown_by_tree_for; [|eapply grown_by_tree_for]|lia..|].
  exists t3. split; [done|].
  eapply grown_by_trans; [done|eapply grown_by_trans; [done..|intros; reflexivity]|].
  intros p. unfold region_has. cbn [first outer].
  destruct (decide (p < first big_region)).
  { replace (p <? first big_region) with true by lia. destruct (grows _ _ _); lia. }
  replace (p <? first big_region) with false by lia.
  destruct (decide (p < outer big_region)).
  - replace (p <? outer big_region) with true by lia. destruct (grows _ _ (mk_region (_ + _) _)); lia.
  - replace (p <? outer big_region) with false by lia. destruct (grows _ _ (mk_region (outer _) _)); lia.
Qed.
End grow.

(** The page is resident on the destination, or faulting. *)
Definition present (resident : option uvm_page_mask_t) (faulted : uvm_page_mask_t) (p : Z) : bool :=
  match resident with Some r => Z.testbit r p | None => false end || Z.testbit faulted p.

(** The number of levels computed for [n] leaves. *)
Lemma levels_width n : 1 <= n <= 512 -> NvU8 (ilog2 (roundup_pow_of_two n) + 1)
                                        = ilog2 (roundup_pow_of_two n) + 1.
Proof.
  intros. unfold ilog2, roundup_pow_of_two. rewrite Z.log2_pow2 by apply Z.log2_up_nonneg.
  pose proof (Z.log2_up_nonneg n). pose proof (Z.log2_up_le_mono n 512).
  change (Z.log2_up 512) with 9 in *. apply wrap_small. unfold in_width. lia.
Qed.

Lemma init_tree_spec max_region resident faulted :
  wf_region max_region -> first max_region < outer max_region ->
  let t := init_bitmap_tree_from_region max_region resident faulted in
  tree_for t max_region /\ offset t = 0
  /\ forall i, 0 <= i -> first max_region + i < PAGES_PER_UVM_VA_BLOCK ->
     Z.testbit (pages t) i = present resident faulted (first max_region + i).
Proof.
  intros Hmax Hne. pose proof Hmax as [? Ho]. unfold PAGES_PER_UVM_VA_BLOCK in Ho.
  unfold init_bitmap_tree_from_region. rewrite num_pages_eq by done. unfold NvU16.
  rewrite (wrap_small 16) by (unfold in_width; lia). rewrite levels_width by lia.
  cbn zeta. unfold tree_for, wf_tree. cbn [offset leaf_count level_count pages].
  unfold PAGES_PER_UVM_VA_BLOCK. split_and!; try done; try lia.
  intros i Hi Hlt. rewrite shift_right_spec by lia. unfold PAGES_PER_UVM_VA_BLOCK.
  replace (0 <=? i) with true by lia. replace (i + _ <? 512) with true by lia.
  rewrite (Z.add_comm i). cbn [andb]. unfold present.
  destruct resident; [apply Z.lor_spec|done].
Qed.

(** Moving the leaves to big page alignment; [n] is the pages per big page. *)
Lemma align_tree_spec n br max_region resident faulted :
  wf_region max_region -> first max_region < outer max_region -> 1 <= n <= 512 ->
  (0 < first br - first max_region ->
   first br - first max_region < n
   /\ outer max_region - first max_region + (n - (first br - first max_region)) <= 512) ->
  let t0 := init_bitmap_tree_from_region max_region resident faulted in
  exists t1,
    (if 0 <? first br - first max_region then
       let off := uvm_page_index_t (n - (first br - first max_region)) in
       let leaves := NvU16 (uvm_va_block_region_num_pages max_region + off) in
       UVM_ASSERT (off <? n); UVM_ASSERT (leaves <=? PAGES_PER_UVM_VA_BLOCK);
       Some (mk_tree (uvm_page_mask_shift_left (pages t0) off) off leaves
               (NvU8 (ilog2 (roundup_pow_of_two leaves) + 1)))
     else Some t0) = Some t1
    /\ tree_for t1 max_region
    /\ forall i, 0 <= i < leaf_count t1 ->
         Z.testbit (pages t1) i
         = (offset t1 <=? i) && present resident faulted (leaf_page t1 max_region i).
Proof.
  intros Hmax Hne Hn Hfit t0. pose proof Hmax as [? Ho].
  destruct (init_tree_spec max_region resident faulted) as (Ht&Hoff&Hbits); [done..|].
  fold t0 in Ht, Hoff, Hbits. unfold PAGES_PER_UVM_VA_BLOCK in *.
  destruct (0 <? first br - first max_region) eqn:Hpad; cbn zeta.
  - destruct Hfit as [? ?]; [lia|]. rewrite num_pages_eq by done.
    set (off := n - (first br - first max_region)) in *. rewrite !page_index_small by lia.
    rewrite levels_width by lia.
    replace (off <? n) with true by lia. replace (_ <=? 512) with true by lia.
    eexists. split; [done|]. unfold tree_for, wf_tree, leaf_page.
    cbn [offset leaf_count level_count pages]. unfold PAGES_PER_UVM_VA_BLOCK.
    split_and!; try done; try lia. intros i Hi. rewrite shift_left_spec by lia.
    unfold PAGES_PER_UVM_VA_BLOCK. replace (i <? 512) with true by lia. cbn [andb].
    destruct (off <=? i) eqn:Hoi; [|by rewrite Z.testbit_neg_r by lia].
    rewrite Hbits by lia. cbn. f_equal. lia.
  - exists t0. split; [done|]. split; [done|]. intros i Hi. destruct Ht as [_ Hlc].
    rewrite Hbits by lia. unfold leaf_page. rewrite Hoff. replace (0 <=? i) with true by lia.
    cbn. f_equal. lia.
Qed.

Lemma update_tree_spec b j max_region resident faulted thrashing :
  wf_block b -> 0 <= first max_region < outer max_region -> outer max_region <= block_npages b ->
  0 <= j <= 9 ->
  exists t br,
    uvm_va_block_big_page_region_subset b max_region (big_size j) = Some br
    /\ update_bitmap_tree_from_va_block (init_bitmap_tree_from_region max_region resident faulted)
         b (big_size j) thrashing faulted max_region = Some t
    /\ tree_for t max_region
    /\ forall i, 0 <= i < leaf_count t ->
         let p := leaf_page t max_region i in
         Z.testbit (pages t) i
         = (offset t <=? i)
           && (present resident faulted p || grows faulted thrashing (granule (2 ^ j) br max_region p)).
Proof.
  intros Hb Hf Hlast Hj. pose proof (wf_block_pages b Hb) as (_&_&_&HN&_).
  assert (Hmax : wf_region max_region) by (split; lia).
  destruct (big_region_subset_spec b max_region j) as (br&Hbr&Hcase); [done..|].
  unfold update_bitmap_tree_from_va_block. rewrite Hbr. cbn [mbind option_bind].
  assert (Hn : 1 <= 2 ^ j <= 512).
  { split; [pose proof (pow2_pos j); lia|]. change 512 with (2 ^ 9). apply Z.pow_le_mono_r; lia. }
  replace (big_size j / PAGE_SIZE) with (2 ^ j)
    by (unfold big_size; rewrite Z.mul_comm; by rewrite Z.div_mul).
  destruct (align_tree_spec (2 ^ j) br max_region resident faulted) as (t1&Hs&Ht1&Hb1);
    [done|lia|done| |].
  { destruct Hcase as [->|(?&?&?&?&?)]; cbn [first]; [lia|].
    unfold PAGES_PER_UVM_VA_BLOCK in *. lia. }
  cbn zeta in Hs |- *. rewrite Hs. cbn [mbind option_bind].
  destruct (grow_fault_granularity_spec max_region faulted thrashing Hmax t1 j br)
    as (t2&Hg&Hgr); [done..|naive_solver|].
  exists t2, br. split; [done|]. rewrite Hg. split; [done|].
  split; [by eapply grown_by_tree_for|].
  destruct Hgr as (Ho&Hl&_&Hb2). intros i Hi. cbn zeta. rewrite Hb2, Hb1 by lia.
  unfold leaf_page. rewrite Ho. fold (leaf_page t1 max_region i).
  set (p := leaf_page t1 max_region i). destruct Ht1 as [_ Hlc].
  replace (region_has max_region p) with (offset t1 <=? i); [by destruct (offset t1 <=? i)|].
  unfold region_has, p, leaf_page. lia.
Qed.

(** C25: the tree built for a fault represents the allowed region exactly.
    Every assertion holds; leaf [i] below the offset is clear; any other leaf
    stands for a page of the allowed region and is set if and only if that
    page is resident on the destination, is faulting, or lies in a big page
    (or in the prefix or suffix without big pages) in which some page faulted
    and none is thrashing. *)
Theorem prefetch_tree_exact b j max_region resident faulted thrashing :
  wf_block b -> 0 <= first max_region < outer max_region -> outer max_region <= block_npages b ->
  0 <= j <= 9 ->
  exists t br,
    uvm_va_block_big_page_region_subset b max_region (big_size j) = Some br
    /\ update_bitmap_tree_from_va_block (init_bitmap_tree_from_region max_region resident faulted)
         b (big_size j) thrashing faulted max_region = Some t
    /\ tree_for t max_region
    /\ forall i, 0 <= i < leaf_count t ->
         let p := leaf_page t max_region i in
         Z.testbit (pages t) i
         = (offset t <=? i)
           && (present resident faulted p || grows faulted thrashing (granule (2 ^ j) br max_region p)).
Proof. apply update_tree_spec. Qed.

(** ** The mask and the hints *)

Lemma fill_within m r max_region :
  wf_region max_region -> mask_within m max_region -> contained r max_region ->
  mask_within (uvm_page_mask_region_fill m r) max_region.
Proof.
  intros [? _] Hm Hr i.
  rewrite region_fill_spec by (destruct Hr as [->|?]; [cbn|]; lia).
  destruct (Z.testbit m i) eqn:Hi; [intros _; by apply Hm|]. cbn.
  intros ?. destruct Hr as [->|?]; [cbn in *|]; lia.
Qed.

Lemma zero_within r : mask_within uvm_page_mask_zero r.
Proof. intros i. by rewrite Z.bits_0. Qed.

Lemma compute_mask_within {P C} (uvm_ops : nat -> option (gpu_mem_ops P C)) threshold
    faulted_region max_region t faulted l :
  0 <= threshold <= 100 -> tree_for t max_region -> wf_region max_region -> wf_region faulted_region ->
  uvm_va_block_region_contains_region max_region faulted_region = true ->
  exists m l', compute_prefetch_mask uvm_ops threshold faulted_region max_region t faulted l
               = Some (m, l') /\ mask_within m max_region.
Proof.
  intros Hthr Ht Hmax Hfr Hin. unfold compute_prefetch_mask. rewrite for_each_page_visit by done.
  destruct (visit_inv (mask_body uvm_ops threshold max_region t)
              (fun s => mask_within s.1 max_region)
              (pages_in (Some faulted) (first faulted_region) (outer faulted_region))
              (uvm_page_mask_zero, l)) as ([m l']&->&Hm).
  - intros p [m l0] [Hp _]%elem_of_pages_in Hm. unfold uvm_va_block_region_contains_region in Hin.
    destruct (compute_spec uvm_ops threshold t max_region p Hthr Ht Hmax ltac:(lia) l0)
      as (r&l1&n&Hc&Hr&_). unfold mask_body. rewrite Hc. cbn.
    do 2 eexists. split; [done|]. cbn. by apply fill_within.
  - apply zero_within.
  - by exists m, l'.
Qed.

(** Removing pages. *)
Lemma andnot_spec m n i :
  Z.testbit (uvm_page_mask_andnot m n).1 i = Z.testbit m i && negb (Z.testbit n i).
Proof. apply Z.ldiff_spec. Qed.

Lemma weight_pos m : 0 < uvm_page_mask_weight m -> exists i, Z.testbit m i = true.
Proof.
  unfold uvm_page_mask_weight, bitmap_weight. intros Hw.
  destruct (decide (find_next (Z.testbit m) PAGES_PER_UVM_VA_BLOCK 0 = PAGES_PER_UVM_VA_BLOCK)) as [Hz|Hz].
  - rewrite find_next_all in Hz by done. exfalso.
    pose proof (count_zero (Z.testbit m) (Z.to_nat PAGES_PER_UVM_VA_BLOCK) 0) as [_ Hc].
    rewrite Hc in Hw; [lia|]. intros j Hj. apply Hz. unfold PAGES_PER_UVM_VA_BLOCK in *. lia.
  - destruct (find_next_spec (Z.testbit m) PAGES_PER_UVM_VA_BLOCK 0) as (_&?&_&Ht).
    eexists. apply Ht. lia.
Qed.

(** A region built from addresses inside the block is a region of the block. *)
Lemma region_from_start_end_within b s e r :
  wf_block b -> uvm_va_block_region_from_start_end b s e = Some r ->
  0 <= first r < outer r /\ outer r <= block_npages b.
Proof.
  intros Hb. pose proof (wf_block_pages b Hb) as (Hs&He&?&HN&_).
  unfold uvm_va_block_region_from_start_end, uvm_va_block_cpu_page_index. intros Hr.
  repeat case_match; try done. cbn in Hr. simplify_eq. cbn.
  unfold PAGES_PER_UVM_VA_BLOCK in *.
  assert (Hse : (s - start b) / PAGE_SIZE <= (e - start b) / PAGE_SIZE)
    by (apply Z.div_le_mono; [done|lia]).
  assert (Hle : (e - start b) / PAGE_SIZE < block_npages b)
    by (apply Z.div_lt_upper_bound; [done|lia]).
  assert (0 <= (s - start b) / PAGE_SIZE) by (apply Z.div_pos; [lia|done]).
  rewrite !page_index_small by (rewrite ?page_index_small; lia). lia.
Qed.

(** The allowed region is a non-empty region of the block. *)
Lemma max_region_within env b fr max_region :
  wf_block (vb_range b) -> max_prefetch_region env b fr = Some max_region ->
  0 <= first max_region < outer max_region /\ outer max_region <= block_npages (vb_range b).
Proof.
  intros Hb. unfold max_prefetch_region, uvm_hmm_get_prefetch_region.
  destruct (vb_is_hmm b).
  - destruct (match pe_policy_node env with Some _ => _ | None => _ end) as [[s e]|]; cbn; [|done].
    by apply region_from_start_end_within.
  - rewrite region_from_block_eq by done. intros [= <-].
    pose proof (wf_block_pages _ Hb) as (_&_&_&?&_). cbn. lia.
Qed.

(** What the prefetcher relies on from the rest of the driver: the big page
    sizes are powers of two between a page and 2MB, and the range group
    ranges given are page aligned and overlap the block. *)
Definition rgr_overlaps (b rgr : va_range) : Prop :=
  start rgr mod PAGE_SIZE = 0 /\ (end_ rgr + 1) mod PAGE_SIZE = 0
  /\ 0 <= start rgr < end_ rgr /\ start rgr <= end_ b /\ start b <= end_ rgr.

Definition env_ok (env : prefetch_env) (b : uvm_va_block_t) : Prop :=
  (forall i s, pe_gpu_big_page_size env i = Some s -> exists j, 0 <= j <= 9 /\ s = big_size j)
  /\ Forall (rgr_overlaps (vb_range b)) (pe_range_groups env).

Lemma residency_big_page_size_ok env b res :
  env_ok env b -> exists j, 0 <= j <= 9 /\ residency_big_page_size env res = big_size j.
Proof.
  intros [Hs _]. assert (H64 : exists j, 0 <= j <= 9 /\ UVM_PAGE_SIZE_64K = big_size j).
  { exists 4. split; [lia|done]. }
  destruct res as [|i|]; cbn; try done.
  destruct (pe_gpu_big_page_size env i) eqn:Hi; cbn; [by eapply Hs|done].
Qed.

(** A page-aligned range that overlaps the block meets it in a region. *)
Lemma rgr_region_some b rgr :
  wf_block b -> rgr_overlaps b rgr ->
  exists r, uvm_va_block_region_from_start_end b (Z.max (start rgr) (start b))
              (Z.min (end_ rgr) (end_ b)) = Some r.
Proof.
  intros Hb (Hs&He&?&?&?). pose proof Hb as (?&Hbs&Hbe&_&?).
  apply Z.div_exact in Hs, He, Hbs, Hbe; try done.
  set (s := Z.max _ _). set (e := Z.min _ _). unfold PAGE_SIZE in *.
  assert (Hsm : s mod 4096 = 0).
  { apply Z.div_exact; [done|]. unfold s. destruct (Z.max_spec (start rgr) (start b)) as [[_ ->]|[_ ->]]; lia. }
  assert (Hem : (e + 1) mod 4096 = 0).
  { apply Z.div_exact; [done|]. unfold e. destruct (Z.min_spec (end_ rgr) (end_ b)) as [[_ ->]|[_ ->]]; lia. }
  assert (s < e) by (unfold s, e; lia).
  unfold uvm_va_block_region_from_start_end, uvm_va_block_cpu_page_index, PAGE_ALIGNED, PAGE_SIZE, NvU64.
  rewrite wrap_small by (unfold in_width, e; lia). rewrite Hsm, Hem.
  replace (s <? e) with true by lia. replace (start b <=? s) with true by lia.
  replace (e <=? end_ b) with true by lia. replace (s <=? end_ b) with true by lia.
  replace (start b <=? e) with true by lia. cbn. by eexists.
Qed.

(** Clearing range groups removes pages only, clears every range without a
    fault, and reports a change when it made one. *)
Lemma clear_idle_spec b faulted rgrs m changed :
  wf_block b -> Forall (rgr_overlaps b) rgrs ->
  exists m' changed',
    clear_idle_range_groups b faulted rgrs (m, changed) = Some (m', changed')
    /\ (forall i, Z.testbit m' i = true -> Z.testbit m i = true)
    /\ (changed' = false -> changed = false /\ m' = m)
    /\ (forall rgr r, rgr ∈ rgrs ->
          uvm_va_block_region_from_start_end b (Z.max (start rgr) (start b))
            (Z.min (end_ rgr) (end_ b)) = Some r ->
          uvm_page_mask_region_empty faulted r = true -> uvm_page_mask_region_empty m' r = true).
Proof.
  intros Hb. revert m changed. induction rgrs as [|rgr rgrs IH]; intros m changed Hall; cbn.
  { exists m, changed. split_and!; try done. by intros ? ? ?%elem_of_nil. }
  apply Forall_cons in Hall as [Hrgr Hall].
  destruct (rgr_region_some b rgr Hb Hrgr) as (r&Hr). rewrite Hr. cbn [mbind option_bind].
  destruct (region_from_start_end_within _ _ _ _ Hb Hr) as [? ?].
  set (c := _ && _). set (m1 := if c then uvm_page_mask_region_clear m r else m).
  replace (if c then _ else _) with (m1, if c then true else changed) by (unfold m1; by destruct c).
  assert (Hsub : forall i, Z.testbit m1 i = true -> Z.testbit m i = true).
  { intros i. unfold m1. destruct c; [|done]. rewrite region_clear_spec by lia.
    by intros [? _]%andb_true_iff. }
  destruct (IH m1 (if c then true else changed) Hall) as (m'&ch'&->&Hm'&Hch&Hclr).
  exists m', ch'. split_and!; [done|by auto| |].
  { intros Hf. destruct (Hch Hf) as [? ->]. unfold m1 in *. by destruct c. }
  intros rgr' r' [->|Hin]%elem_of_cons Hr' Hfe; [|by eapply Hclr].
  rewrite Hr in Hr'. simplify_eq. apply region_empty_spec; [lia|]. intros i Hi.
  destruct (Z.testbit m' i) eqn:Hbit; [|done]. exfalso. apply Hm' in Hbit.
  unfold m1, c in Hbit. rewrite Hfe in Hbit. cbn in Hbit.
  destruct (uvm_page_mask_region_empty m r') eqn:Hme; cbn in Hbit.
  - rewrite region_empty_spec in Hme by lia. by rewrite Hme in Hbit.
  - rewrite region_clear_spec in Hbit by lia. lia.
Qed.

(** The pages left after the filters of the fault path. *)
Definition wanted (env : prefetch_env) (b : uvm_va_block_t) (res : uvm_processor_id_t)
    (faulted : uvm_page_mask_t) (max_region : uvm_va_block_region_t) (p : Z) : Prop :=
  first max_region <= p < outer max_region
  /\ Z.testbit faulted p = false
  /\ (forall thrashing, pe_thrashing_pages env = Some thrashing -> Z.testbit thrashing p = false)
  /\ (res = UVM_ID_CPU -> vb_is_hmm b = false ->
      Z.testbit (vb_cpu_resident b) p && Z.testbit (vb_cpu_pte_read b) p = false).

Section hint_facts.
Context {P C : Type} (uvm_ops : nat -> option (gpu_mem_ops P C)) (g : prefetch_globals).
Context (env : prefetch_env) (b : uvm_va_block_t) (res : uvm_processor_id_t).
Context (faulted : uvm_page_mask_t) (fr max_region : uvm_va_block_region_t).
Hypothesis Hthr : 0 <= g_uvm_perf_prefetch_threshold g <= 100.
Hypothesis Hb : wf_block (vb_range b).
Hypothesis Hres : res <> UVM_ID_INVALID.
Hypothesis Henv : env_ok env b.
Hypothesis Hmaxr : max_prefetch_region env b fr = Some max_region.
Hypothesis Hfr : wf_region fr.
Hypothesis Hin : uvm_va_block_region_contains_region max_region fr = true.

Lemma max_region_wf : wf_region max_region.
Proof.
  destruct (max_region_within env b fr max_region Hb Hmaxr).
  pose proof (wf_block_pages _ Hb) as (_&_&_&?&_). split; lia.
Qed.

(** The candidate pages of either branch lie in the allowed region. *)
Lemma candidates_spec resident thrashing l :
  exists m l',
    (if bool_decide (vb_resident b = []) && bool_decide (res = pe_preferred_location env)
     then Some (uvm_page_mask_region_fill uvm_page_mask_zero max_region, l)
     else
       t ← update_bitmap_tree_from_va_block (init_bitmap_tree_from_region max_region resident faulted)
             (vb_range b) (residency_big_page_size env res) thrashing faulted max_region;
       compute_prefetch_mask uvm_ops (g_uvm_perf_prefetch_threshold g) fr max_region t
         (match thrashing with
          | Some th => (uvm_page_mask_andnot faulted th).1
          | None => uvm_page_mask_copy faulted
          end) l) = Some (m, l')
    /\ mask_within m max_region.
Proof.
  pose proof max_region_wf as Hwf. destruct (max_region_within env b fr max_region Hb Hmaxr).
  destruct (_ && _).
  - do 2 eexists. split; [done|]. apply fill_within; [done|apply zero_within|right; lia].
  - destruct (residency_big_page_size_ok env b res Henv) as (j&?&->).
    destruct (update_tree_spec (vb_range b) j max_region resident faulted thrashing)
      as (t&br&_&->&Ht&_); [done..|]. cbn [mbind option_bind]. by apply compute_mask_within.
Qed.

(** The filters applied to the candidates. *)
Lemma filters_wanted m0 p :
  mask_within m0 max_region ->
  let m1 := (uvm_page_mask_andnot m0 faulted).1 in
  let m2 := if UVM_ID_IS_CPU res && negb (vb_is_hmm b)
            then (uvm_page_mask_andnot m1
                    (uvm_page_mask_and (vb_cpu_resident b) (vb_cpu_pte_read b)).1).1 else m1 in
  Z.testbit (match pe_thrashing_pages env with
             | Some thrashing => (uvm_page_mask_andnot m2 thrashing).1
             | None => m2
             end) p = true ->
  wanted env b res faulted max_region p.
Proof.
  intros Hm0 m1 m2 Hp.
  assert (Hp2 : Z.testbit m2 p = true
    /\ forall th, pe_thrashing_pages env = Some th -> Z.testbit th p = false).
  { destruct (pe_thrashing_pages env) as [th|]; [|by split; [|intros ? [=]]].
    rewrite andnot_spec in Hp. apply andb_true_iff in Hp as [? ?%negb_true_iff].
    split; [done|]. by intros ? [= <-]. }
  destruct Hp2 as [Hp2 Hth].
  assert (Hp1 : Z.testbit m1 p = true
    /\ (res = UVM_ID_CPU -> vb_is_hmm b = false ->
        Z.testbit (vb_cpu_resident b) p && Z.testbit (vb_cpu_pte_read b) p = false)).
  { unfold m2, UVM_ID_IS_CPU in Hp2.
    destruct (bool_decide (res = UVM_ID_CPU) && negb (vb_is_hmm b)) eqn:Hc.
    - rewrite andnot_spec in Hp2. apply andb_true_iff in Hp2 as [? Hn%negb_true_iff].
      split; [done|]. intros _ _. rewrite <- Hn. symmetry. apply Z.land_spec.
    - split; [done|]. intros Hr Hh. by rewrite Hr, Hh in Hc. }
  destruct Hp1 as [Hp1 Hmap]. unfold m1 in Hp1. rewrite andnot_spec in Hp1.
  apply andb_true_iff in Hp1 as [Hp0 Hnf%negb_true_iff].
  split_and!; [by apply Hm0..|done|done|done].
Qed.

Lemma prenotify_spec l :
  exists b' m l',
    uvm_perf_prefetch_prenotify_fault_migrations uvm_ops g env b res faulted fr l
      = Some (b', m, uvm_page_mask_weight m, l')
    /\ vb_range b' = vb_range b /\ vb_last_migration_proc_id b' = res
    /\ vb_fault_migrations_to_last_proc b'
       = NvU16 ((if bool_decide (vb_last_migration_proc_id b = res)
                 then vb_fault_migrations_to_last_proc b else 0)
                + uvm_page_mask_region_weight faulted fr)
    /\ (forall p, Z.testbit m p = true -> wanted env b res faulted max_region p).
Proof.
  unfold uvm_perf_prefetch_prenotify_fault_migrations.
  set (b1 := if negb _ then _ else b).
  assert (Hb1 : vb_range b1 = vb_range b /\ vb_is_hmm b1 = vb_is_hmm b /\ vb_resident b1 = vb_resident b
    /\ vb_cpu_resident b1 = vb_cpu_resident b /\ vb_cpu_pte_read b1 = vb_cpu_pte_read b
    /\ vb_gpu_resident b1 = vb_gpu_resident b /\ vb_last_migration_proc_id b1 = res
    /\ vb_fault_migrations_to_last_proc b1
       = (if bool_decide (vb_last_migration_proc_id b = res)
          then vb_fault_migrations_to_last_proc b else 0)).
  { unfold b1. case_bool_decide; cbn; by split_and!. }
  destruct Hb1 as (Hr1&Hh1&Hre1&Hcr1&Hpt1&Hg1&Hl1&Hf1).
  replace (max_prefetch_region env b1 fr) with (Some max_region)
    by (rewrite <- Hmaxr; unfold max_prefetch_region, uvm_hmm_get_prefetch_region; by rewrite Hr1, Hh1).
  cbn [mbind option_bind].
  assert (Hm : exists resident, match res with
      | UVM_ID_CPU => Some (uvm_va_block_resident_mask_get b1 res)
      | UVM_ID_GPU i => match vb_gpu_resident b1 i with
                        | Some _ => Some (uvm_va_block_resident_mask_get b1 res)
                        | None => Some None end
      | UVM_ID_INVALID => None end = Some resident
      /\ (res = UVM_ID_CPU -> resident = Some (vb_cpu_resident b))).
  { destruct res as [|i|]; [|destruct (vb_gpu_resident b1 i)|by destruct Hres];
      eexists; (split; [done|]); try done.
    intros _. cbn. by rewrite Hcr1. }
  destruct Hm as (resident&->&Hcpu). cbn [mbind option_bind].
  rewrite Hre1, Hr1, Hh1, Hpt1. cbn zeta.
  destruct (candidates_spec resident (pe_thrashing_pages env) l) as (m0&l'&->&Hm0).
  cbn [mbind option_bind].
  set (m1 := (uvm_page_mask_andnot m0 faulted).1).
  set (m2 := if UVM_ID_IS_CPU res && negb (vb_is_hmm b)
             then (uvm_page_mask_andnot m1
                     (uvm_page_mask_and (vb_cpu_resident b) (vb_cpu_pte_read b)).1).1 else m1).
  replace (if UVM_ID_IS_CPU res && _ then _ else Some m1) with (Some m2).
  2: { unfold m2, UVM_ID_IS_CPU. destruct (bool_decide (res = UVM_ID_CPU)) eqn:Hc; [|done].
       apply bool_decide_eq_true in Hc. rewrite (Hcpu Hc). by destruct (vb_is_hmm b). }
  cbn [mbind option_bind]. do 3 eexists. split; [done|]. cbn [vb_range]. split_and!.
  1-3: by cbn; rewrite ?Hr1, ?Hl1, ?Hf1.
  intros p. by apply (filters_wanted m0).
Qed.
End hint_facts.

(** C2: the prefetch hint of a VA block is safe under every policy.  The
    function returns and no assertion fails.  Every page of the hint lies in
    the allowed region (the block, or for HMM the part of it in the VMA and
    policy range), is not itself faulting, is not thrashing, and, when the
    destination is the CPU and the block is managed memory, is not already
    mapped and resident there.  The hint names a destination only if that is
    the faulting processor, some page is to be prefetched, the block has seen
    the minimum number of fault migrations to that processor, and no page is
    prefetched in a range group range in which nothing faulted. *)
Theorem prefetch_hint_safe {P C} (uvm_ops : nat -> option (gpu_mem_ops P C)) g env b res
    faulted fr max_region l :
  0 <= g_uvm_perf_prefetch_threshold g <= 100 -> wf_block (vb_range b) -> res <> UVM_ID_INVALID ->
  env_ok env b -> max_prefetch_region env b fr = Some max_region -> wf_region fr ->
  uvm_va_block_region_contains_region max_region fr = true ->
  exists b' hint l',
    uvm_perf_prefetch_get_hint_va_block uvm_ops g env b res faulted fr l = Some (b', hint, l')
    /\ (forall p, Z.testbit (prefetch_pages_mask hint) p = true ->
          wanted env b res faulted max_region p)
    /\ (residency hint = UVM_ID_INVALID
        \/ (residency hint = res
            /\ vb_last_migration_proc_id b' = res
            /\ g_uvm_perf_prefetch_min_faults g <= vb_fault_migrations_to_last_proc b'
            /\ (exists p, Z.testbit (prefetch_pages_mask hint) p = true)
            /\ forall rgr r, rgr ∈ pe_range_groups env ->
                 uvm_va_block_region_from_start_end (vb_range b)
                   (Z.max (start rgr) (start (vb_range b))) (Z.min (end_ rgr) (end_ (vb_range b)))
                   = Some r ->
                 uvm_page_mask_region_empty faulted r = true ->
                 uvm_page_mask_region_empty (prefetch_pages_mask hint) r = true)).
Proof.
  intros Hthr Hb Hres Henv Hmax Hfr Hin. unfold uvm_perf_prefetch_get_hint_va_block.
  destruct (negb _).
  { do 3 eexists. split; [done|]. split; [|by left]. cbn. intros p. by rewrite Z.bits_0. }
  destruct (prenotify_spec uvm_ops g env b res faulted fr max_region Hthr Hb Hres Henv Hmax Hfr Hin l)
    as (b'&m&l'&->&Hr&Hl&_&Hw). cbn [mbind option_bind].
  destruct (_ && _) eqn:Hc; [|do 3 eexists; split; [done|]; split; [done|by left]].
  rewrite Hr. destruct (clear_idle_spec (vb_range b) faulted (pe_range_groups env) m false)
    as (m'&ch&->&Hsub&Hch&Hclr); [done|apply Henv|].
  cbn [mbind option_bind]. do 3 eexists. split; [done|]. cbn [prefetch_pages_mask residency].
  split; [by auto|].
  replace (if ch then _ else _) with (uvm_page_mask_weight m')
    by (destruct ch; [done|]; by destruct Hch as [_ ->]).
  destruct (0 <? uvm_page_mask_weight m') eqn:Hw'; [right|by left].
  split_and!; [done|done|lia|apply weight_pos; lia|done].
Qed.

(** Prefetching for an ATS block, under every policy: the function
    returns, no assertion fails, and only pages of the allowed region are
    prefetched. *)
Theorem ats_prefetch_safe {P C} (uvm_ops : nat -> option (gpu_mem_ops P C)) g env
    faulted fr max_region residency_mask l :
  0 <= g_uvm_perf_prefetch_threshold g <= 100 ->
  wf_region max_region -> first max_region < outer max_region -> wf_region fr ->
  uvm_va_block_region_contains_region max_region fr = true ->
  exists m l',
    uvm_perf_prefetch_compute_ats uvm_ops g env faulted fr max_region residency_mask l
      = Some (m, l')
    /\ mask_within m max_region
    /\ (uvm_perf_prefetch_enabled g env = false -> m = 0).
Proof.
  intros Hthr Hwf Hne Hfr Hin. unfold uvm_perf_prefetch_compute_ats.
  destruct (uvm_perf_prefetch_enabled g env); cbn [negb].
  - destruct (init_tree_spec max_region residency_mask faulted) as (Ht&_); [done..|].
    destruct (compute_mask_within uvm_ops (g_uvm_perf_prefetch_threshold g) fr max_region
      _ faulted l Hthr Ht Hwf Hfr Hin) as (m&l'&->&?). by exists m, l'.
  - exists 0, l. split_and!; [done|apply zero_within|done].
Qed.

(** ** Concrete instances *)

(** Sixteen pages, of which the first eight and page 12 are set. *)
Definition demo_tree := mk_tree 0x10FF 0 16 5.
Definition demo_max := mk_region 0 16.
Definition demo_log := mk_hook_log 0 [].

(** A policy that asks for pages 4 to 8 and bypasses the native path. *)
Definition demo_bypass : nat -> option (gpu_mem_ops unit unit) := fun _ =>
  Some (mk_mem_ops None
    (Some (fun _ _ _ => bpf_call (call_set_prefetch_region 4 8) (fun _ => bpf_exit 1)))
    None None None None).

(** A policy that walks the tree itself and always asks for too much. *)
Definition demo_greedy : nat -> option (gpu_mem_ops unit unit) := fun _ =>
  Some (mk_mem_ops None
    (Some (fun _ _ _ => bpf_exit 2))
    (Some (fun _ _ _ _ => bpf_call (call_set_prefetch_region 0 1000) (fun _ => bpf_exit 1)))
    None None None).

Lemma demo_tree_for : tree_for demo_tree demo_max.
Proof. split; [|done]. split_and!; cbn; unfold PAGES_PER_UVM_VA_BLOCK; lia || done. Qed.

Lemma demo_max_wf : wf_region demo_max.
Proof. unfold wf_region, PAGES_PER_UVM_VA_BLOCK. cbn. lia. Qed.

Lemma prefetch_region_contained_witness :
  exists r l' n,
    compute_prefetch_region demo_greedy 51 12 demo_tree demo_max demo_log = Some (r, l')
    /\ contained r demo_max
    /\ reported demo_greedy demo_tree demo_max 12 demo_log l' n r
    /\ (1 <= n <= 1 + 5)%nat.
Proof.
  apply (prefetch_region_contained demo_greedy 51 demo_tree demo_max 12 demo_log);
    [lia|apply demo_tree_for|apply demo_max_wf|cbn; lia].
Defined.

Lemma native_prefetch_exact_witness :
  exists l', compute_prefetch_region (P := unit) (C := unit) (fun _ => None) 51 12 demo_tree demo_max
               demo_log = Some (mk_region 0 16, l').
Proof.
  apply (native_prefetch_exact (P := unit) (C := unit) (fun _ => None) 51 demo_tree demo_max 12 demo_log);
    [lia|apply demo_tree_for|apply demo_max_wf|cbn; lia|].
  vm_compute. reflexivity.
Defined.

Lemma bypass_policy_exact_witness :
  exists l', compute_prefetch_region demo_bypass 51 12 demo_tree demo_max demo_log
             = Some (mk_region 4 8, l').
Proof.
  apply (bypass_policy_exact demo_bypass 51 demo_tree demo_max 12 demo_log
           (fun _ _ _ => bpf_call (call_set_prefetch_region 4 8) (fun _ => bpf_exit 1)));
    [lia|apply demo_tree_for|apply demo_max_wf|cbn; lia|reflexivity|vm_compute; reflexivity| |].
  - split; [done|]. vm_compute. constructor; [done|constructor].
  - right. cbn. lia.
Defined.

Lemma padding_suppresses_native_witness :
  exists l', compute_prefetch_region (P := unit) (C := unit) (fun _ => None) 51 3
               (mk_tree 0xFF80 7 16 5) (mk_region 0 9) demo_log = Some (mk_region 0 0, l').
Proof.
  apply (padding_suppresses_native (P := unit) (C := unit) (fun _ => None) 51
           (mk_tree 0xFF80 7 16 5) (mk_region 0 9) 3 demo_log).
  - lia.
  - split; [|done]. split_and!; cbn; unfold PAGES_PER_UVM_VA_BLOCK; lia || done.
  - unfold wf_region, PAGES_PER_UVM_VA_BLOCK. cbn. lia.
  - cbn. lia.
  - reflexivity.
  - cbn. lia.
  - vm_compute. reflexivity.
Defined.

(** A managed block of 504 pages that starts eight pages into its 2MB window. *)
Definition demo_range := mk_va_range 0x8000 0x1FFFFF.
Definition demo_block :=
  mk_va_block demo_range false [UVM_ID_CPU] 0xFFFF (fun _ => None) 0xFF UVM_ID_INVALID 0.
Definition demo_env :=
  mk_prefetch_env UVM_ID_INVALID None (0, 0) (fun _ _ _ => None) (Some 0x4)
    (fun i => if (i =? 1)%nat then Some 131072 else None)
    [mk_va_range 0x0 0xFFFF; mk_va_range 0x100000 0x1FFFFF] true.

Lemma demo_range_wf : wf_block demo_range.
Proof. unfold wf_block. cbn. split_and!; lia || done. Qed.

Lemma demo_env_ok : env_ok demo_env demo_block.
Proof.
  split.
  - intros i s. cbn. destruct (i =? 1)%nat; [|done]. intros [= <-]. exists 5. split; [lia|done].
  - repeat constructor; cbn; lia || done.
Qed.

Lemma prefetch_tree_exact_witness :
  exists t br,
    uvm_va_block_big_page_region_subset demo_range (mk_region 0 504) (big_size 4) = Some br
    /\ update_bitmap_tree_from_va_block
         (init_bitmap_tree_from_region (mk_region 0 504) (Some 0xFF) 0x10)
         demo_range (big_size 4) (Some 0x4) 0x10 (mk_region 0 504) = Some t
    /\ tree_for t (mk_region 0 504)
    /\ forall i, 0 <= i < leaf_count t ->
         let p := leaf_page t (mk_region 0 504) i in
         Z.testbit (pages t) i
         = (offset t <=? i)
           && (present (Some 0xFF) 0x10 p
               || grows 0x10 (Some 0x4) (granule (2 ^ 4) br (mk_region 0 504) p)).
Proof.
  apply (prefetch_tree_exact demo_range 4 (mk_region 0 504) (Some 0xFF) 0x10 (Some 0x4));
    [apply demo_range_wf|cbn; lia|done|lia].
Defined.

Lemma prefetch_hint_safe_witness :
  exists b' hint l',
    uvm_perf_prefetch_get_hint_va_block demo_bypass (mk_prefetch_globals true 51 1) demo_env demo_block
      (UVM_ID_GPU 1) 0x10 (mk_region 4 6) demo_log = Some (b', hint, l')
    /\ (forall p, Z.testbit (prefetch_pages_mask hint) p = true ->
          wanted demo_env demo_block (UVM_ID_GPU 1) 0x10 (mk_region 0 504) p).
Proof.
  destruct (prefetch_hint_safe demo_bypass (mk_prefetch_globals true 51 1) demo_env demo_block
              (UVM_ID_GPU 1) 0x10 (mk_region 4 6) (mk_region 0 504) demo_log)
    as (b'&hint&l'&H1&H2&_).
  - cbn. lia.
  - apply demo_range_wf.
  - done.
  - apply demo_env_ok.
  - vm_compute. reflexivity.
  - unfold wf_region, PAGES_PER_UVM_VA_BLOCK. cbn. lia.
  - reflexivity.
  - exists b', hint, l'. by split.
Defined.

Lemma ats_prefetch_safe_witness :
  exists m l',
    uvm_perf_prefetch_compute_ats demo_greedy (mk_prefetch_globals true 51 1) demo_env
      0xFF0 (mk_region 0 12) demo_max (Some 0xF) demo_log = Some (m, l')
    /\ mask_within m demo_max.
Proof.
  destruct (ats_prefetch_safe demo_greedy (mk_prefetch_globals true 51 1) demo_env
              0xFF0 (mk_region 0 12) demo_max (Some 0xF) demo_log) as (m&l'&H1&H2&_).
  - cbn. lia.
  - apply demo_max_wf.
  - cbn. lia.
  - unfold wf_region, PAGES_PER_UVM_VA_BLOCK. cbn. lia.
  - reflexivity.
  - exists m, l'. by split.
Defined.
