(* ===== verification/PmmTypes.v ===== *)
(** * The GPU chunk allocator: state

    Data of kernel-open/nvidia-uvm/uvm_pmm_gpu.{h,c} (PMM).  Root chunks live
    in an array, one per 2MB of GPU memory; subchunks are separately allocated
    objects linked into a tree by parent pointers and suballocation arrays.
    Both are found by a [chunk_id], the model's pointer, in one shared store,
    so that aliasing is as in the code.  The lists of the allocator hold
    pointers; a chunk has one list node, so it can be on one list at most.

    Operations run in a state monad; [None] is a failed [UVM_ASSERT] or an
    access the C code must not make (a dangling pointer, linking a node that
    is already linked). *)

From S2P Require Import Prelude PageMask.

Inductive uvm_pmm_gpu_memory_type_t : Set :=
| UVM_PMM_GPU_MEMORY_TYPE_USER
| UVM_PMM_GPU_MEMORY_TYPE_KERNEL.

Inductive uvm_pmm_gpu_chunk_state_t : Set :=
| UVM_PMM_GPU_CHUNK_STATE_PMA_OWNED
| UVM_PMM_GPU_CHUNK_STATE_FREE
| UVM_PMM_GPU_CHUNK_STATE_IS_SPLIT
| UVM_PMM_GPU_CHUNK_STATE_TEMP_PINNED
| UVM_PMM_GPU_CHUNK_STATE_ALLOCATED.

Inductive uvm_pmm_list_zero_t : Set := UVM_PMM_LIST_ZERO | UVM_PMM_LIST_NO_ZERO.

Inductive uvm_pmm_root_list_state_t : Set :=
| UVM_PMM_ROOT_LIST_NONE
| UVM_PMM_ROOT_LIST_FREE
| UVM_PMM_ROOT_LIST_VA_BLOCK_USED
| UVM_PMM_ROOT_LIST_VA_BLOCK_UNUSED
| UVM_PMM_ROOT_LIST_EVICTION
| UVM_PMM_ROOT_LIST_LAZY_FREE.

Inductive uvm_pmm_root_list_op_t : Set :=
| UVM_PMM_ROOT_LIST_OP_INIT
| UVM_PMM_ROOT_LIST_OP_DEL_INIT
| UVM_PMM_ROOT_LIST_OP_ADD_TAIL
| UVM_PMM_ROOT_LIST_OP_MOVE_HEAD
| UVM_PMM_ROOT_LIST_OP_MOVE_TAIL.

#[export] Instance memory_type_eq_dec : EqDecision uvm_pmm_gpu_memory_type_t.
Proof. solve_decision. Defined.
#[export] Instance chunk_state_eq_dec : EqDecision uvm_pmm_gpu_chunk_state_t.
Proof. solve_decision. Defined.
#[export] Instance list_zero_eq_dec : EqDecision uvm_pmm_list_zero_t.
Proof. solve_decision. Defined.
#[export] Instance root_list_state_eq_dec : EqDecision uvm_pmm_root_list_state_t.
Proof. solve_decision. Defined.

(** The enumerators' values, as they appear in a policy snapshot. *)
Definition root_list_state_code (s : uvm_pmm_root_list_state_t) : Z :=
  match s with
  | UVM_PMM_ROOT_LIST_NONE => 0
  | UVM_PMM_ROOT_LIST_FREE => 1
  | UVM_PMM_ROOT_LIST_VA_BLOCK_USED => 2
  | UVM_PMM_ROOT_LIST_VA_BLOCK_UNUSED => 3
  | UVM_PMM_ROOT_LIST_EVICTION => 4
  | UVM_PMM_ROOT_LIST_LAZY_FREE => 5
  end.

(** Pointers to chunks: [&pmm->root_chunks.array[i].chunk], or an object of
    the chunk cache. *)
Inductive chunk_id : Set := Root (i : nat) | Sub (n : nat).

#[export] Instance chunk_id_eq_dec : EqDecision chunk_id.
Proof. solve_decision. Defined.

(** The list heads of [uvm_pmm_gpu_t]; a free list is found by memory type,
    index of the chunk size and zero state. *)
Inductive list_id : Set :=
| free_list (type : uvm_pmm_gpu_memory_type_t) (idx : nat) (zero : uvm_pmm_list_zero_t)
| va_block_unused
| va_block_used
| va_block_lazy_free.

#[export] Instance list_id_eq_dec : EqDecision list_id.
Proof. solve_decision. Defined.

Definition UVM_CHUNK_SIZE_MAX : Z := UVM_PAGE_SIZE_2M.
Definition UVM_CHUNK_SIZE_INVALID : Z := 2 * UVM_CHUNK_SIZE_MAX.

Record uvm_pmm_gpu_chunk_suballoc_t := mk_suballoc {
  allocated : Z;
  pinned_leaf_chunks : Z;
  subchunks : list chunk_id;
}.

#[export] Instance eta_suballoc : Settable uvm_pmm_gpu_chunk_suballoc_t :=
  fun s => mk_suballoc (allocated s) (pinned_leaf_chunks s) (subchunks s).

(** [va_block] names the VA block using the chunk. *)
Record uvm_gpu_chunk_t := mk_chunk {
  address : Z;
  gpu_index : Z;
  type : uvm_pmm_gpu_memory_type_t;
  in_eviction : bool;
  inject_split_error : bool;
  is_zero : bool;
  is_referenced : bool;
  state : uvm_pmm_gpu_chunk_state_t;
  log2_size : Z;
  va_block_page_index : Z;
  va_block : option nat;
  parent : option chunk_id;
  suballoc : option uvm_pmm_gpu_chunk_suballoc_t;
}.

#[export] Instance eta_chunk : Settable uvm_gpu_chunk_t :=
  fun c => mk_chunk (address c) (gpu_index c) (type c) (in_eviction c) (inject_split_error c) (is_zero c)
    (is_referenced c) (state c) (log2_size c) (va_block_page_index c) (va_block c) (parent c)
    (suballoc c).

Record uvm_gpu_root_chunk_t := mk_root_chunk {
  chunk : uvm_gpu_chunk_t;
  list_state : uvm_pmm_root_list_state_t;
  list_generation : Z;
}.

#[export] Instance eta_root_chunk : Settable uvm_gpu_root_chunk_t :=
  fun r => mk_root_chunk (chunk r) (list_state r) (list_generation r).

(** [pmm_id] is the address of the PMM; [env_calls] counts the calls out of
    the allocator, so that each can get an answer of its own.  The structure is
    part of its GPU's: [gpu_id] and [max_allocatable_address] are the GPU's. *)
Record uvm_pmm_gpu_t := mk_pmm {
  pmm_id : Z;
  gpu_id : Z;
  max_allocatable_address : N;
  initialized : bool;
  chunk_sizes : uvm_pmm_gpu_memory_type_t -> Z;
  root_chunks : list uvm_gpu_root_chunk_t;
  chunk_cache : gmap nat uvm_gpu_chunk_t;
  lists : list_id -> list chunk_id;
  inject_pma_evict_error_after_num_chunks : Z;
  env_calls : nat;
}.

#[export] Instance eta_pmm : Settable uvm_pmm_gpu_t :=
  fun p => mk_pmm (pmm_id p) (gpu_id p) (max_allocatable_address p) (initialized p) (chunk_sizes p) (root_chunks p) (chunk_cache p) (lists p)
    (inject_pma_evict_error_after_num_chunks p) (env_calls p).

(** ** The monad *)
Definition M (A : Type) : Type := uvm_pmm_gpu_t -> option (A * uvm_pmm_gpu_t).

#[export] Instance M_ret : MRet M := fun A a s => Some (a, s).
#[export] Instance M_bind : MBind M := fun A B f m s =>
  match m s with Some (a, s') => f a s' | None => None end.

Definition fail {A} : M A := fun _ => None.
Definition assert (b : bool) : M unit := fun s => if b then Some (tt, s) else None.
Definition get_pmm : M uvm_pmm_gpu_t := fun s => Some (s, s).
Definition modify (f : uvm_pmm_gpu_t -> uvm_pmm_gpu_t) : M unit := fun s => Some (tt, f s).
Definition of_option {A} (o : option A) : M A := fun s =>
  match o with Some a => Some (a, s) | None => None end.

(** Early return and loops over lists. *)
Definition when (b : bool) (m : M unit) : M unit := if b then m else mret tt.

Fixpoint for_each {A} (l : list A) (body : A -> M unit) : M unit :=
  match l with
  | [] => mret tt
  | a :: l => _ ← body a; for_each l body
  end.

(** ** The store *)
Definition chunk_at (s : uvm_pmm_gpu_t) (c : chunk_id) : option uvm_gpu_chunk_t :=
  match c with
  | Root i => chunk <$> root_chunks s !! i
  | Sub n => chunk_cache s !! n
  end.

Definition set_chunk_at (s : uvm_pmm_gpu_t) (c : chunk_id) (ch : uvm_gpu_chunk_t)
    : uvm_pmm_gpu_t :=
  match c with
  | Root i => s <| root_chunks := alter (fun r => r <| chunk := ch |>) i (root_chunks s) |>
  | Sub n => s <| chunk_cache := <[n := ch]> (chunk_cache s) |>
  end.

(** Reading and writing through a pointer. *)
Definition get_chunk (c : chunk_id) : M uvm_gpu_chunk_t := fun s =>
  match chunk_at s c with Some ch => Some (ch, s) | None => None end.

Definition update_chunk (c : chunk_id) (f : uvm_gpu_chunk_t -> uvm_gpu_chunk_t) : M unit :=
  ch ← get_chunk c; modify (fun s => set_chunk_at s c (f ch)).

Definition get_suballoc (c : chunk_id) : M uvm_pmm_gpu_chunk_suballoc_t :=
  ch ← get_chunk c; of_option (suballoc ch).

Definition update_suballoc (c : chunk_id)
    (f : uvm_pmm_gpu_chunk_suballoc_t -> uvm_pmm_gpu_chunk_suballoc_t) : M unit :=
  sub ← get_suballoc c; update_chunk c (fun ch => ch <| suballoc := Some (f sub) |>).

Definition is_state (ch : uvm_gpu_chunk_t) (st : uvm_pmm_gpu_chunk_state_t) : bool :=
  bool_decide (state ch = st).

Definition uvm_gpu_chunk_get_size (ch : uvm_gpu_chunk_t) : Z := Z.shiftl 1 (log2_size ch).

Definition uvm_gpu_chunk_set_size (ch : uvm_gpu_chunk_t) (size : Z) : uvm_gpu_chunk_t :=
  ch <| log2_size := Z.log2 size |>.

Definition uvm_gpu_chunk_is_user (ch : uvm_gpu_chunk_t) : bool :=
  bool_decide (type ch = UVM_PMM_GPU_MEMORY_TYPE_USER).

Definition chunk_is_root_chunk (ch : uvm_gpu_chunk_t) : bool :=
  uvm_gpu_chunk_get_size ch =? UVM_CHUNK_SIZE_MAX.

Definition root_chunk_from_address (addr : Z) : M nat :=
  let index := Z.to_nat (addr / UVM_CHUNK_SIZE_MAX) in
  s ← get_pmm;
  r ← of_option (root_chunks s !! index);
  _ ← assert (addr <=? Z.of_N (max_allocatable_address s));
  down ← of_option (UVM_ALIGN_DOWN addr UVM_CHUNK_SIZE_MAX);
  _ ← assert (address (chunk r) =? down);
  mret index.

Definition root_chunk_from_chunk (c : chunk_id) : M nat :=
  ch ← get_chunk c; root_chunk_from_address (address ch).

Definition get_root (i : nat) : M uvm_gpu_root_chunk_t :=
  s ← get_pmm; of_option (root_chunks s !! i).

(** ** Chunk sizes *)
Definition uvm_chunk_find_last_size (sizes : Z) : option Z :=
  UVM_ASSERT negb (sizes =? 0); Some (Z.shiftl 1 (Z.log2 sizes)).

(** [__ffs]: the lowest set bit, found by isolating it. *)
Definition lowest_size (sizes : Z) : Z := Z.land sizes (- sizes).

Definition uvm_chunk_find_first_size (sizes : Z) : option Z :=
  UVM_ASSERT negb (sizes =? 0); Some (lowest_size sizes).

Definition uvm_chunk_find_next_size (sizes chunk_size : Z) : option Z :=
  UVM_ASSERT is_power_of_2 chunk_size;
  UVM_ASSERT negb (Z.land sizes chunk_size =? 0);
  Some (lowest_size (Z.lor (Z.ldiff sizes (Z.shiftl chunk_size 1 - 1)) UVM_CHUNK_SIZE_INVALID)).

Definition uvm_chunk_find_prev_size (sizes chunk_size : Z) : option Z :=
  UVM_ASSERT is_power_of_2 chunk_size;
  UVM_ASSERT negb (Z.land sizes chunk_size =? 0);
  let sizes := Z.land sizes (chunk_size - 1) in
  Some (if sizes =? 0 then UVM_CHUNK_SIZE_INVALID else Z.shiftl 1 (Z.log2 sizes)).

(** ** The environment

    What the allocator learns from code outside this model.  The [nat] of an
    answer is the number of the call, so a later call may answer differently.

    The operations another thread, or the VA block code the allocator calls
    with its lock dropped, may run on the allocator meanwhile. *)
Inductive pmm_call : Type :=
| call_mark_chunk_evicted (c : chunk_id)
| call_free (c : chunk_id)
| call_unpin (c : chunk_id) (block : nat * Z) (referenced : bool)
| call_set_page_index (c : chunk_id) (index : Z)
| call_mark_root_chunk_used (c : chunk_id)
| call_mark_root_chunk_unused (c : chunk_id)
| call_claim_free_chunk (t : uvm_pmm_gpu_memory_type_t) (chunk_size : Z)
| call_alloc_root_chunk (t : uvm_pmm_gpu_memory_type_t) (flags : Z)
| call_split_chunk (c : chunk_id) (subchunk_size : Z)
| call_merge_chunk (c : chunk_id)
| call_devmem_page_free (c : chunk_id)
| call_process_lazy_free.

Record pmm_env := mk_env {
  (* properties of the GPU and module parameters *)
  numa_enabled : bool;
  memory_window_start : Z;
  memory_window_end : Z;
  conf_computing_enabled : bool;
  isSimulated : bool;
  supports_eviction : bool;      (* uvm_parent_gpu_supports_eviction *)
  uvm_global_oversubscription : bool;
  mem_info_size : Z;
  mmu_user_chunk_sizes : Z;
  mmu_kernel_chunk_sizes : Z;
  uvm_mem_kernel_chunk_sizes : Z;
  uvm_perf_pma_batch_nonpinned_order : Z;
  (* the kernel: whether the k-th allocation of a group succeeds, and the
     reference count of a page *)
  kmem : nat -> nat -> bool;
  page_count : nat -> Z -> Z;
  (* the trackers of pending GPU work *)
  uvm_tracker_add_tracker_safe : nat -> NV_STATUS;
  uvm_tracker_wait : nat -> NV_STATUS;
  (* PMA: page addresses and whether they are zero, or an error *)
  nvUvmInterfacePmaAllocPages : nat -> Z -> Z -> NV_STATUS + list Z * bool;
  nvUvmInterfacePmaPinPages : nat -> Z -> Z -> NV_STATUS;
  nvUvmInterfaceGetPmaObject : nat -> NV_STATUS;
  nvUvmInterfacePmaRegisterEvictionCallbacks : nat -> NV_STATUS;
  (* the VA block code, with what runs while the lock is dropped *)
  uvm_va_block_evict_chunks : nat -> nat -> nat -> list pmm_call * NV_STATUS;
  (* the spin loop that waits for a chunk: [true] when it times out *)
  UVM_SPIN_LOOP : nat -> list pmm_call * bool;
}.

Definition gpu_supports_pma_eviction (E : pmm_env) : bool :=
  uvm_global_oversubscription E && supports_eviction E.

(** Flags of the interface to PMA (nv_uvm_types.h). *)
Definition UVM_PMA_ALLOCATE_DONT_EVICT : Z := Z.shiftl 1 0.
Definition UVM_PMA_ALLOCATE_PINNED : Z := Z.shiftl 1 1.
Definition UVM_PMA_ALLOCATE_PROTECTED_REGION : Z := Z.shiftl 1 8.
Definition UVM_PMA_ALLOCATE_NO_ZERO : Z := Z.shiftl 1 10.
Definition UVM_PMA_ALLOCATE_ALLOW_PARTIAL : Z := Z.shiftl 1 12.
Definition UVM_PMA_FREE_IS_ZERO : Z := Z.shiftl 1 0.
Definition UVM_PMA_CALLED_FROM_PMA_EVICTION : Z := 16384.

Definition has_flag (flags flag : Z) : bool := negb (Z.land flags flag =? 0).

(** The number of the next call out. *)
Definition next_call : M nat :=
  s ← get_pmm;
  _ ← modify (fun s => s <| env_calls := S (env_calls s) |>);
  mret (env_calls s).
