(* ===== verification/PmmLists.v ===== *)
(** * The GPU chunk allocator: root lists and policy

    Model of the list primitives of uvm_pmm_gpu.c and of the code through
    which an eviction policy acts on them: the single mutation point
    [uvm_pmm_root_list_update_locked], the validation and commit of a policy's
    reorder request, and the hook wrappers of uvm_bpf_struct_ops.c that the
    allocator calls. *)

From S2P Require Import Prelude TransitionValidator Bpf PageMask PerfTree UvmBpf PmmTypes.

(** ** Kernel lists *)

Definition set_list (l : list_id) (v : list chunk_id) (s : uvm_pmm_gpu_t) : uvm_pmm_gpu_t :=
  s <| lists := fun l' => if decide (l' = l) then v else lists s l' |>.

(** [list_empty(&chunk->list)] negated: the node is linked into some list.
    The free lists of a type have at most [UVM_MAX_CHUNK_SIZES] indices. *)
Definition UVM_MAX_CHUNK_SIZES : nat := 6.

Definition all_lists : list list_id :=
  va_block_unused :: va_block_used :: va_block_lazy_free ::
  (t ← [UVM_PMM_GPU_MEMORY_TYPE_USER; UVM_PMM_GPU_MEMORY_TYPE_KERNEL];
   i ← seq 0 UVM_MAX_CHUNK_SIZES;
   z ← [UVM_PMM_LIST_ZERO; UVM_PMM_LIST_NO_ZERO];
   [free_list t i z]).

Definition on_list (s : uvm_pmm_gpu_t) (c : chunk_id) : bool :=
  existsb (fun l => bool_decide (c ∈ lists s l)) all_lists.

Definition list_empty_node (c : chunk_id) : M bool := s ← get_pmm; mret (negb (on_list s c)).

Definition not_this (c c' : chunk_id) : Prop := c' <> c.
#[export] Instance not_this_dec c c' : Decision (not_this c c') := _.

(** [INIT_LIST_HEAD] makes the node a list of its own.  Doing that to a
    linked node would leave its neighbours pointing at it: the source does not
    check for that, and lists as sequences cannot represent the result, so here, as
    in adding a linked node, the operation has no result. *)
Definition INIT_LIST_HEAD (c : chunk_id) : M unit := s ← get_pmm; assert (negb (on_list s c)).

Definition list_del_init (c : chunk_id) : M unit :=
  modify (fun s => s <| lists := fun l => filter (not_this c) (lists s l) |>).

(** Adding a node that is already linked corrupts both lists. *)
Definition list_add_tail (c : chunk_id) (l : list_id) : M unit :=
  s ← get_pmm; _ ← assert (negb (on_list s c)); modify (set_list l (lists s l ++ [c])).

Definition list_add (c : chunk_id) (l : list_id) : M unit :=
  s ← get_pmm; _ ← assert (negb (on_list s c)); modify (set_list l (c :: lists s l)).

Definition list_move (c : chunk_id) (l : list_id) : M unit := _ ← list_del_init c; list_add c l.
Definition list_move_tail (c : chunk_id) (l : list_id) : M unit :=
  _ ← list_del_init c; list_add_tail c l.

Definition list_first_chunk (l : list_id) : M (option chunk_id) :=
  s ← get_pmm; mret (head (lists s l)).

(** [find_free_list] with [hweight_long]. *)
Definition hweight (x : Z) : nat :=
  length (filter (fun i => Z.testbit x i = true) (seqZ 0 64)).

Definition find_free_list (t : uvm_pmm_gpu_memory_type_t) (chunk_size : Z)
    (zero_type : uvm_pmm_list_zero_t) : M list_id :=
  s ← get_pmm;
  let idx := hweight (Z.land (chunk_sizes s t) (chunk_size - 1)) in
  _ ← assert (is_power_of_2 chunk_size);
  _ ← assert (negb (Z.land chunk_size (chunk_sizes s t) =? 0));
  _ ← assert (idx <? UVM_MAX_CHUNK_SIZES)%nat;
  mret (free_list t idx zero_type).

Definition find_free_list_chunk (c : chunk_id) : M list_id :=
  ch ← get_chunk c;
  find_free_list (type ch) (uvm_gpu_chunk_get_size ch)
    (if is_zero ch then UVM_PMM_LIST_ZERO else UVM_PMM_LIST_NO_ZERO).

(** ** The root-list mutation point *)

Definition is_null {A} (o : option A) : bool := match o with Some _ => false | None => true end.

(** Updates the membership metadata of a root chunk: the generation advances
    when the state changes. *)
Definition set_root_list_state (i : nat) (root_state : uvm_pmm_root_list_state_t) : M unit :=
  r ← get_root i;
  modify (fun s => s <| root_chunks :=
    alter (fun r => r <| list_generation :=
                           if bool_decide (list_state r = root_state) then list_generation r
                           else NvU64 (list_generation r + 1) |>
                      <| list_state := root_state |>) i (root_chunks s) |>).

Definition uvm_pmm_root_list_update_locked (c : chunk_id) (destination : option list_id)
    (root_state : uvm_pmm_root_list_state_t) (operation : uvm_pmm_root_list_op_t) : M unit :=
  ch ← get_chunk c;
  root_chunk ←
    (if chunk_is_root_chunk ch then
       i ← root_chunk_from_chunk c;
       _ ← assert (bool_decide (c = Root i));
       mret (Some i)
     else mret None);
  _ ← match operation with
      | UVM_PMM_ROOT_LIST_OP_INIT => _ ← assert (is_null destination); INIT_LIST_HEAD c
      | UVM_PMM_ROOT_LIST_OP_DEL_INIT => _ ← assert (is_null destination); list_del_init c
      | UVM_PMM_ROOT_LIST_OP_ADD_TAIL => d ← of_option destination; list_add_tail c d
      | UVM_PMM_ROOT_LIST_OP_MOVE_HEAD => d ← of_option destination; list_move c d
      | UVM_PMM_ROOT_LIST_OP_MOVE_TAIL => d ← of_option destination; list_move_tail c d
      end;
  match root_chunk with
  | None => mret tt
  | Some i => set_root_list_state i root_state
  end.

(** ** Policy requests *)

Definition snapshot (s : uvm_pmm_gpu_t) (i : nat) (r : uvm_gpu_root_chunk_t)
    : nv_gpu_pmm_snapshot_t :=
  mk_pmm_snapshot (pmm_id s) (Z.of_nat i) (list_generation r) (root_list_state_code (list_state r)).

(** Returns the destination list and state with the verdict. *)
Definition pmm_bpf_validate_reorder_locked (c : chunk_id)
    (decision_ctx : option uvm_bpf_pmm_decision_ctx_t)
    : M (nv_gpu_transition_result * option list_id * uvm_pmm_root_list_state_t) :=
  let none r := mret (r, None, UVM_PMM_ROOT_LIST_NONE) in
  ch ← get_chunk c;
  match decision_ctx with
  | None => none NV_GPU_TRANSITION_REJECT_IDENTITY
  | Some d =>
      if negb (chunk_is_root_chunk ch) then none NV_GPU_TRANSITION_REJECT_IDENTITY
      else
        i ← root_chunk_from_chunk c;
        if negb (bool_decide (c = Root i)) then none NV_GPU_TRANSITION_REJECT_IDENTITY
        else
          s ← get_pmm;
          r ← get_root i;
          let observed_now := snapshot s i r in
          let result := nv_gpu_transition_validate_pmm (pc_observed d) observed_now (pc_request d) in
          if negb (is_apply result) then none result
          else if negb (pc_pmm d =? pmm_id s) || negb (pc_root_chunk d =? Z.of_nat i)
          then none NV_GPU_TRANSITION_REJECT_IDENTITY
          else if negb (bool_decide (list_state r = UVM_PMM_ROOT_LIST_VA_BLOCK_USED))
                  && negb (bool_decide (list_state r = UVM_PMM_ROOT_LIST_VA_BLOCK_UNUSED))
          then none NV_GPU_TRANSITION_NOOP_STALE
          else if pr_destination (pc_request d) =? NV_GPU_PMM_DESTINATION_USED
          then mret (NV_GPU_TRANSITION_APPLY, Some va_block_used, UVM_PMM_ROOT_LIST_VA_BLOCK_USED)
          else mret (NV_GPU_TRANSITION_APPLY, Some va_block_unused, UVM_PMM_ROOT_LIST_VA_BLOCK_UNUSED)
  end.

Definition pmm_bpf_commit_reorder_locked (c : chunk_id)
    (decision_ctx : option uvm_bpf_pmm_decision_ctx_t) : M nv_gpu_transition_result :=
  '(result, destination, destination_state) ← pmm_bpf_validate_reorder_locked c decision_ctx;
  if negb (is_apply result) then mret result
  else
    d ← of_option decision_ctx;
    _ ← uvm_pmm_root_list_update_locked c destination destination_state
          (if pr_position (pc_request d) =? NV_GPU_PMM_POSITION_HEAD
           then UVM_PMM_ROOT_LIST_OP_MOVE_HEAD else UVM_PMM_ROOT_LIST_OP_MOVE_TAIL);
    mret NV_GPU_TRANSITION_APPLY.

Definition uvm_pmm_bpf_apply_access_locked (c : chunk_id)
    (decision_ctx : option uvm_bpf_pmm_decision_ctx_t) (raw_action : Z)
    : M nv_gpu_pmm_access_effect :=
  '(result, _, _) ← pmm_bpf_validate_reorder_locked c decision_ctx;
  let effect := nv_gpu_transition_pmm_access_effect raw_action result in
  if bool_decide (effect = NV_GPU_PMM_ACCESS_COMMIT) then
    result ← pmm_bpf_commit_reorder_locked c decision_ctx;
    if negb (is_apply result) then mret NV_GPU_PMM_ACCESS_PRESERVE else mret effect
  else mret effect.

Definition uvm_pmm_bpf_apply_activate_locked (c : chunk_id)
    (decision_ctx : option uvm_bpf_pmm_decision_ctx_t) : M nv_gpu_transition_result :=
  '(result, _, _) ← pmm_bpf_validate_reorder_locked c decision_ctx;
  if bool_decide (nv_gpu_transition_pmm_activate_effect result = NV_GPU_PMM_ACCESS_COMMIT)
  then pmm_bpf_commit_reorder_locked c decision_ctx
  else mret result.

(** ** The hook wrappers (uvm_bpf_struct_ops.c)

    The callbacks may read the whole allocator.  [container_of] is only
    meaningful on a root chunk. *)
Definition pmm_ops := gpu_mem_ops uvm_pmm_gpu_t chunk_id.

Section hooks.
Context (uvm_ops : nat -> option pmm_ops).

Definition deref_uvm_ops : M (option pmm_ops) :=
  n ← next_call; mret (uvm_ops n).

Definition pmm_decision_ctx (c : chunk_id) : M uvm_bpf_pmm_decision_ctx_t :=
  match c with
  | Root i =>
      s ← get_pmm;
      r ← get_root i;
      mret (mk_pmm_decision_ctx (pmm_id s) (Z.of_nat i) (snapshot s i r) pmm_request_zero)
  | Sub _ => fail
  end.

Definition uvm_bpf_call_gpu_block_activate (c : chunk_id) : M unit :=
  decision_ctx ← pmm_decision_ctx c;
  ops ← deref_uvm_ops;
  s ← get_pmm;
  let decision_ctx :=
    match ops ≫= gpu_block_activate with
    | Some cb => (bpf_run pmm_dispatch (cb s c) (Some decision_ctx)).1
    | None => Some decision_ctx
    end in
  _ ← uvm_pmm_bpf_apply_activate_locked c decision_ctx;
  mret tt.

Definition uvm_bpf_call_gpu_block_access (c : chunk_id) : M nv_gpu_pmm_access_effect :=
  decision_ctx ← pmm_decision_ctx c;
  ops ← deref_uvm_ops;
  s ← get_pmm;
  let '(decision_ctx, raw_action) :=
    match ops ≫= gpu_block_access with
    | Some cb =>
        let '(d, ret) := bpf_run pmm_dispatch (cb s c) (Some decision_ctx) in (d, bpf_int ret)
    | None => (Some decision_ctx, UVM_BPF_ACTION_DEFAULT)
    end in
  uvm_pmm_bpf_apply_access_locked c decision_ctx raw_action.

(** The callback gets no decision context and can call no reorder kfunc. *)
Definition uvm_bpf_call_gpu_evict_prepare : M unit :=
  ops ← deref_uvm_ops;
  s ← get_pmm;
  match ops ≫= gpu_evict_prepare with
  | Some cb =>
      let '(s, _) := bpf_run (fun (d : uvm_pmm_gpu_t) (k : Empty_set) => (d, 0))
                       (cb s (lists s va_block_used) (lists s va_block_unused)) s in
      modify (fun _ => s)
  | None => mret tt
  end.
End hooks.
