(* ===== verification/PmmChunks.v ===== *)
(** * The GPU chunk allocator: chunks

    Model of the operations of uvm_pmm_gpu.c on chunks: pinning, list
    placement, splitting and merging, freeing, and allocation from the free
    lists and from PMA.  Each function is translated with its assertions; the
    locks and the trackers of pending GPU work are not part of the state.

    What other code decides is asked of the environment [E] and of the policy
    slot [uvm_ops]. *)

From S2P Require Import Prelude TransitionValidator Bpf PageMask PerfTree UvmBpf PmmTypes PmmLists.

Section chunks.
Context (E : pmm_env) (uvm_ops : nat -> option pmm_ops).

(** ** Pinning *)

Definition chunk_is_root_chunk_pinned (c : chunk_id) : M bool :=
  i ← root_chunk_from_chunk c;
  root ← get_chunk (Root i);
  if is_state root UVM_PMM_GPU_CHUNK_STATE_TEMP_PINNED then mret true
  else if negb (is_state root UVM_PMM_GPU_CHUNK_STATE_IS_SPLIT) then mret false
  else
    sub ← of_option (suballoc root);
    mret (0 <? pinned_leaf_chunks sub).

Definition chunk_pin (c : chunk_id) : M unit :=
  i ← root_chunk_from_chunk c;
  ch ← get_chunk c;
  _ ← assert (negb (is_state ch UVM_PMM_GPU_CHUNK_STATE_TEMP_PINNED));
  _ ← update_chunk c (fun ch => ch <| state := UVM_PMM_GPU_CHUNK_STATE_TEMP_PINNED |>);
  if chunk_is_root_chunk ch then mret tt
  else
    root ← get_chunk (Root i);
    _ ← assert (is_state root UVM_PMM_GPU_CHUNK_STATE_IS_SPLIT);
    update_suballoc (Root i) (fun sub =>
      sub <| pinned_leaf_chunks := NvU32 (pinned_leaf_chunks sub + 1) |>).

Definition chunk_unpin (c : chunk_id) (new_state : uvm_pmm_gpu_chunk_state_t) : M unit :=
  i ← root_chunk_from_chunk c;
  ch ← get_chunk c;
  _ ← assert (is_state ch UVM_PMM_GPU_CHUNK_STATE_TEMP_PINNED);
  _ ← assert (is_null (va_block ch));
  pinned ← chunk_is_root_chunk_pinned c;
  _ ← assert pinned;
  _ ← assert (negb (bool_decide (new_state = UVM_PMM_GPU_CHUNK_STATE_TEMP_PINNED)));
  _ ← update_chunk c (fun ch => ch <| state := new_state |>);
  if chunk_is_root_chunk ch then mret tt
  else
    root ← get_chunk (Root i);
    _ ← assert (is_state root UVM_PMM_GPU_CHUNK_STATE_IS_SPLIT);
    sub ← get_suballoc (Root i);
    _ ← assert (negb (pinned_leaf_chunks sub =? 0));
    update_suballoc (Root i) (fun sub =>
      sub <| pinned_leaf_chunks := NvU32 (pinned_leaf_chunks sub - 1) |>).

Definition uvm_gpu_chunk_set_in_eviction (c : chunk_id) (b : bool) : M unit :=
  ch ← get_chunk c;
  _ ← assert (uvm_gpu_chunk_is_user ch);
  _ ← assert (uvm_gpu_chunk_get_size ch =? UVM_CHUNK_SIZE_MAX);
  update_chunk c (fun ch => ch <| in_eviction := b |>).

Definition chunk_is_in_eviction (c : chunk_id) : M bool :=
  i ← root_chunk_from_chunk c;
  root ← get_chunk (Root i);
  mret (in_eviction root).

(** ** List placement *)

Definition chunk_update_lists_locked (c : chunk_id) : M unit :=
  i ← root_chunk_from_chunk c;
  ch ← get_chunk c;
  _ ← (if uvm_gpu_chunk_is_user ch then
         pinned ← chunk_is_root_chunk_pinned c;
         root ← get_chunk (Root i);
         if pinned : bool then
           _ ← assert (is_state root UVM_PMM_GPU_CHUNK_STATE_IS_SPLIT
                       || is_state root UVM_PMM_GPU_CHUNK_STATE_TEMP_PINNED);
           uvm_pmm_root_list_update_locked (Root i) None UVM_PMM_ROOT_LIST_NONE
             UVM_PMM_ROOT_LIST_OP_DEL_INIT
         else if negb (is_state root UVM_PMM_GPU_CHUNK_STATE_FREE) then
           _ ← assert (is_state root UVM_PMM_GPU_CHUNK_STATE_IS_SPLIT
                       || is_state root UVM_PMM_GPU_CHUNK_STATE_ALLOCATED);
           _ ← uvm_pmm_root_list_update_locked (Root i) (Some va_block_used)
                 UVM_PMM_ROOT_LIST_VA_BLOCK_USED UVM_PMM_ROOT_LIST_OP_MOVE_TAIL;
           uvm_bpf_call_gpu_block_activate uvm_ops (Root i)
         else mret tt
       else mret tt);
  ch ← get_chunk c;
  if is_state ch UVM_PMM_GPU_CHUNK_STATE_FREE then
    l ← find_free_list_chunk c;
    uvm_pmm_root_list_update_locked c (Some l) UVM_PMM_ROOT_LIST_FREE UVM_PMM_ROOT_LIST_OP_MOVE_TAIL
  else if is_state ch UVM_PMM_GPU_CHUNK_STATE_TEMP_PINNED then
    uvm_pmm_root_list_update_locked c None UVM_PMM_ROOT_LIST_NONE UVM_PMM_ROOT_LIST_OP_DEL_INIT
  else mret tt.

(** [block] is the VA block and its number of pages. *)
Definition gpu_unpin_temp (c : chunk_id) (block : nat * Z) (referenced : bool) : M unit :=
  ch ← get_chunk c;
  _ ← assert (is_state ch UVM_PMM_GPU_CHUNK_STATE_TEMP_PINNED);
  _ ← assert (uvm_gpu_chunk_is_user ch);
  _ ← uvm_pmm_root_list_update_locked c None UVM_PMM_ROOT_LIST_NONE UVM_PMM_ROOT_LIST_OP_INIT;
  _ ← assert (is_null (va_block ch));
  _ ← assert (va_block_page_index ch <? block.2);
  _ ← chunk_unpin c UVM_PMM_GPU_CHUNK_STATE_ALLOCATED;
  _ ← update_chunk c (fun ch => ch <| is_referenced := referenced |>
                                   <| va_block := Some block.1 |>);
  chunk_update_lists_locked c.

Definition uvm_pmm_gpu_unpin_allocated (c : chunk_id) (block : nat * Z) : M unit :=
  gpu_unpin_temp c block false.
Definition uvm_pmm_gpu_unpin_referenced (c : chunk_id) (block : nat * Z) : M unit :=
  gpu_unpin_temp c block true.

(** ** The chunk tree *)

Definition num_subchunks (c : chunk_id) : M Z :=
  ch ← get_chunk c;
  _ ← assert (is_state ch UVM_PMM_GPU_CHUNK_STATE_IS_SPLIT);
  sub ← of_option (suballoc ch);
  c0 ← of_option (subchunks sub !! 0%nat);
  child ← get_chunk c0;
  n ← of_option (uvm_div_pow2_64 (uvm_gpu_chunk_get_size ch) (uvm_gpu_chunk_get_size child));
  mret (NvU32 n).

Definition next_sibling (c : chunk_id) : M (option chunk_id) :=
  ch ← get_chunk c;
  p ← of_option (parent ch);
  pch ← get_chunk p;
  _ ← assert (is_state pch UVM_PMM_GPU_CHUNK_STATE_IS_SPLIT);
  index ← of_option (uvm_div_pow2_64 (NvU64 (address ch - address pch)) (uvm_gpu_chunk_get_size ch));
  n ← num_subchunks p;
  _ ← assert (index <? n);
  let index := index + 1 in
  if index =? n then mret None
  else
    sub ← of_option (suballoc pch);
    c' ← of_option (subchunks sub !! Z.to_nat index);
    mret (Some c').

(** The assertions on one child, with the previous child and the first. *)
Definition assert_child_mergeable (first_child : uvm_gpu_chunk_t) (prev cur : chunk_id) : M unit :=
  child ← get_chunk cur;
  prev_child ← get_chunk prev;
  _ ← assert (bool_decide (state child = state first_child));
  when (is_state first_child UVM_PMM_GPU_CHUNK_STATE_ALLOCATED && uvm_gpu_chunk_is_user first_child)
    (_ ← assert (bool_decide (va_block child = va_block first_child));
     _ ← assert (va_block_page_index child
                 =? va_block_page_index prev_child + uvm_gpu_chunk_get_size prev_child / PAGE_SIZE);
     assert (bool_decide (is_referenced child = is_referenced prev_child))).

Definition assert_chunk_mergeable (c : chunk_id) : M unit :=
  ch ← get_chunk c;
  sub ← of_option (suballoc ch);
  c0 ← of_option (subchunks sub !! 0%nat);
  first_child ← get_chunk c0;
  _ ← assert (is_state ch UVM_PMM_GPU_CHUNK_STATE_IS_SPLIT);
  _ ← assert (is_state first_child UVM_PMM_GPU_CHUNK_STATE_TEMP_PINNED
              || is_state first_child UVM_PMM_GPU_CHUNK_STATE_ALLOCATED);
  n ← num_subchunks c;
  let children := take (Z.to_nat n) (subchunks sub) in
  _ ← for_each (zip children (tail children)) (fun '(prev, cur) =>
        assert_child_mergeable first_child prev cur);
  assert (allocated sub =? n).

(** [pmm->lock] and the list lock are held around the two halves. *)
Definition merge_gpu_chunk (c : chunk_id) : M unit :=
  i ← root_chunk_from_chunk c;
  num_sub ← num_subchunks c;
  _ ← assert_chunk_mergeable c;
  sub ← get_suballoc c;
  c0 ← of_option (subchunks sub !! 0%nat);
  subchunk ← get_chunk c0;
  let child_state := state subchunk in
  _ ← (if bool_decide (child_state = UVM_PMM_GPU_CHUNK_STATE_ALLOCATED)
          && uvm_gpu_chunk_is_user subchunk then
         _ ← assert (negb (is_null (va_block subchunk)));
         update_chunk c (fun ch => ch <| va_block := va_block subchunk |>
                                      <| va_block_page_index := va_block_page_index subchunk |>
                                      <| is_referenced := is_referenced subchunk |>)
       else if bool_decide (child_state = UVM_PMM_GPU_CHUNK_STATE_TEMP_PINNED) then
         rsub ← get_suballoc (Root i);
         _ ← assert (num_sub <=? pinned_leaf_chunks rsub);
         update_suballoc (Root i) (fun rsub =>
           rsub <| pinned_leaf_chunks := NvU32 (pinned_leaf_chunks rsub + (1 - num_sub)) |>)
       else mret tt);
  _ ← update_chunk c (fun ch => ch <| state := child_state |> <| suballoc := None |>
                                   <| is_zero := false |>);
  for_each (take (Z.to_nat num_sub) (subchunks sub)) (fun d =>
    subchunk ← get_chunk d;
    unlinked ← list_empty_node d;
    _ ← assert unlinked;
    _ ← assert (negb (bool_decide (child_state = UVM_PMM_GPU_CHUNK_STATE_ALLOCATED)
                      && uvm_gpu_chunk_is_user subchunk)
                || negb (is_null (va_block subchunk)));
    match d with
    | Sub n => modify (fun s => s <| chunk_cache := delete n (chunk_cache s) |>)
    | Root _ => fail (* a root chunk is not an object of the cache *)
    end).

Definition new_subchunk (ch : uvm_gpu_chunk_t) (self : chunk_id) (subchunk_size : Z) (i : Z)
    : uvm_gpu_chunk_t :=
  let sub := mk_chunk (address ch + i * subchunk_size) (gpu_index ch) (type ch) false false (is_zero ch) false
               (state ch) (Z.log2 subchunk_size) PAGES_PER_UVM_VA_BLOCK None (Some self) None in
  if is_state ch UVM_PMM_GPU_CHUNK_STATE_ALLOCATED && uvm_gpu_chunk_is_user ch
  then sub <| va_block := va_block ch |>
           <| va_block_page_index :=
                uvm_page_index_t (va_block_page_index ch + i * subchunk_size / PAGE_SIZE) |>
           <| is_referenced := is_referenced ch |>
  else sub.

(** The objects [n] names that the cache does not hold, starting at [k]. *)
Definition fresh_ids (cache : gmap nat uvm_gpu_chunk_t) (n : nat) : list nat :=
  seq (S (max_list (map_to_list cache).*1)) n.

(** The kernel answers the allocation of the array and of each subchunk. *)
Definition split_gpu_chunk (c : chunk_id) : M NV_STATUS :=
  ch ← get_chunk c;
  s ← get_pmm;
  let chunk_size := uvm_gpu_chunk_get_size ch in
  i ← root_chunk_from_chunk c;
  _ ← assert (is_state ch UVM_PMM_GPU_CHUNK_STATE_ALLOCATED
              || is_state ch UVM_PMM_GPU_CHUNK_STATE_TEMP_PINNED);
  subchunk_size ← of_option (uvm_chunk_find_prev_size (chunk_sizes s (type ch)) chunk_size);
  _ ← assert (negb (subchunk_size =? UVM_CHUNK_SIZE_INVALID));
  let num_sub := chunk_size / subchunk_size in
  let n := Z.to_nat num_sub in
  call ← next_call;
  if negb (kmem E call 0%nat) then mret NV_ERR_NO_MEMORY
  else if inject_split_error ch || negb (forallb (kmem E call) (seq 1 n))
  then mret NV_ERR_NO_MEMORY (* the objects allocated so far are freed again *)
  else
    _ ← assert (negb (is_state ch UVM_PMM_GPU_CHUNK_STATE_ALLOCATED && uvm_gpu_chunk_is_user ch)
                || negb (is_null (va_block ch)));
    let ids := fresh_ids (chunk_cache s) n in
    _ ← for_each (zip ids (seqZ 0 num_sub)) (fun '(id, k) =>
          modify (fun s => s <| chunk_cache :=
            <[id := new_subchunk ch c subchunk_size k]> (chunk_cache s) |>));
    _ ← update_chunk c (fun ch => ch <| suballoc := Some (mk_suballoc num_sub 0 (Sub <$> ids)) |>);
    _ ← (if is_state ch UVM_PMM_GPU_CHUNK_STATE_ALLOCATED then
           update_chunk c (fun ch => ch <| va_block := None |>
                                        <| va_block_page_index := PAGES_PER_UVM_VA_BLOCK |>
                                        <| is_referenced := false |>)
         else
           _ ← update_suballoc (Root i) (fun rsub =>
                 rsub <| pinned_leaf_chunks := NvU32 (pinned_leaf_chunks rsub + (num_sub - 1)) |>);
           when (chunk_is_root_chunk ch)
             (update_suballoc (Root i) (fun rsub =>
                rsub <| pinned_leaf_chunks := NvU32 (pinned_leaf_chunks rsub + 1) |>)));
    _ ← update_chunk c (fun ch => ch <| state := UVM_PMM_GPU_CHUNK_STATE_IS_SPLIT |>);
    mret NV_OK.

(** The sanity checks run on a chunk being freed or allocated. *)
Definition check_chunk (c : chunk_id) : M unit :=
  s ← get_pmm;
  ch ← get_chunk c;
  let sizes := chunk_sizes s (type ch) in
  let chunk_size := uvm_gpu_chunk_get_size ch in
  _ ← assert (negb (Z.land chunk_size sizes =? 0));
  _ ← assert (address ch mod chunk_size =? 0);
  _ ← assert (gpu_index ch =? gpu_id s);
  _ ← (if is_state ch UVM_PMM_GPU_CHUNK_STATE_IS_SPLIT
       then smallest ← of_option (uvm_chunk_find_first_size sizes); assert (smallest <? chunk_size)
       else mret tt);
  match parent ch with
  | Some p =>
      pch ← get_chunk p;
      _ ← assert (bool_decide (type pch = type ch));
      let parent_size := uvm_gpu_chunk_get_size pch in
      next ← of_option (uvm_chunk_find_next_size sizes chunk_size);
      _ ← assert (next =? parent_size);
      last ← of_option (uvm_chunk_find_last_size sizes);
      _ ← assert (parent_size <=? last);
      _ ← assert (is_state pch UVM_PMM_GPU_CHUNK_STATE_IS_SPLIT);
      psub ← of_option (suballoc pch);
      _ ← assert (0 <? allocated psub);
      n ← num_subchunks p;
      _ ← assert (allocated psub <=? n);
      _ ← assert (address pch <=? address ch);
      assert (address ch <? address pch + parent_size)
  | None =>
      last ← of_option (uvm_chunk_find_last_size sizes);
      assert (chunk_size =? last)
  end.

(** ** Freeing *)

Definition chunk_is_last_allocated_child (c : chunk_id) : M bool :=
  ch ← get_chunk c;
  match parent ch with
  | None => mret false
  | Some p => psub ← get_suballoc p; mret (allocated psub =? 1)
  end.

Definition chunk_free_locked (c : chunk_id) : M unit :=
  i ← root_chunk_from_chunk c;
  ch ← get_chunk c;
  _ ← assert (is_state ch UVM_PMM_GPU_CHUNK_STATE_ALLOCATED
              || is_state ch UVM_PMM_GPU_CHUNK_STATE_TEMP_PINNED);
  root ← get_chunk (Root i);
  if in_eviction root then
    _ ← assert (is_state ch UVM_PMM_GPU_CHUNK_STATE_ALLOCATED);
    _ ← assert (negb (is_null (va_block ch)));
    _ ← assert (negb (va_block_page_index ch =? PAGES_PER_UVM_VA_BLOCK));
    unlinked ← list_empty_node c;
    _ ← assert unlinked;
    _ ← update_chunk c (fun ch => ch <| va_block := None |>
                                     <| va_block_page_index := PAGES_PER_UVM_VA_BLOCK |>
                                     <| is_zero := false |>);
    chunk_pin c
  else
    _ ← match parent ch with
        | Some p =>
            psub ← get_suballoc p;
            _ ← assert (0 <? allocated psub);
            update_suballoc p (fun psub => psub <| allocated := allocated psub - 1 |>)
        | None => mret tt
        end;
    _ ← (if is_state ch UVM_PMM_GPU_CHUNK_STATE_TEMP_PINNED
         then chunk_unpin c UVM_PMM_GPU_CHUNK_STATE_FREE
         else update_chunk c (fun ch => ch <| state := UVM_PMM_GPU_CHUNK_STATE_FREE |>
                                           <| va_block := None |>));
    _ ← update_chunk c (fun ch => ch <| va_block_page_index := PAGES_PER_UVM_VA_BLOCK |>
                                     <| is_zero := false |>);
    chunk_update_lists_locked c.

Definition try_chunk_free (c : chunk_id) : M bool :=
  ch ← get_chunk c;
  _ ← assert (negb (is_state ch UVM_PMM_GPU_CHUNK_STATE_ALLOCATED) || negb (is_referenced ch));
  _ ← update_chunk c (fun ch => ch <| inject_split_error := false |>);
  last ← chunk_is_last_allocated_child c;
  if negb last then _ ← chunk_free_locked c; mret true else mret false.

(** Returns the parent to merge, with all of its children pinned. *)
Definition free_or_prepare_for_merge (c : chunk_id) : M (option chunk_id) :=
  ch ← get_chunk c;
  match parent ch with
  | None => freed ← try_chunk_free c; _ ← assert freed; mret None
  | Some p =>
      last ← chunk_is_last_allocated_child c;
      _ ← chunk_free_locked c;
      psub ← get_suballoc p;
      if negb last then
        _ ← assert (negb (allocated psub =? 0));
        mret None
      else
        _ ← assert (allocated psub =? 0);
        n ← num_subchunks p;
        _ ← for_each (take (Z.to_nat n) (subchunks psub)) (fun d =>
              subchunk ← get_chunk d;
              _ ← assert (is_state subchunk UVM_PMM_GPU_CHUNK_STATE_FREE);
              _ ← uvm_pmm_root_list_update_locked d None UVM_PMM_ROOT_LIST_NONE
                    UVM_PMM_ROOT_LIST_OP_DEL_INIT;
              update_chunk d (fun ch => ch <| state := UVM_PMM_GPU_CHUNK_STATE_TEMP_PINNED |>));
        i ← root_chunk_from_chunk c;
        _ ← update_suballoc (Root i) (fun rsub =>
              rsub <| pinned_leaf_chunks := NvU32 (pinned_leaf_chunks rsub + n) |>);
        _ ← update_suballoc p (fun psub => psub <| allocated := n |>);
        mret (Some p)
  end.

(** The loop climbs at least one tree level per round; chunk sizes are powers
    of two up to 2MB, so there are at most 22 levels. *)
Fixpoint free_chunk_with_merges_loop (fuel : nat) (c : chunk_id) : M unit :=
  match fuel with
  | O => fail
  | S fuel =>
      _ ← check_chunk c;
      p ← free_or_prepare_for_merge c;
      match p with
      | None => mret tt
      | Some p => _ ← merge_gpu_chunk p; free_chunk_with_merges_loop fuel p
      end
  end.

Definition MAX_CHUNK_LEVELS : nat := 22.
Definition free_chunk_with_merges (c : chunk_id) : M unit :=
  free_chunk_with_merges_loop MAX_CHUNK_LEVELS c.

(** What becomes of the pages is PMA's business; PMM's state is the same for
    the three modes of freeing a root chunk. *)
Inductive free_root_chunk_mode_t : Set :=
| FREE_ROOT_CHUNK_MODE_DEFAULT
| FREE_ROOT_CHUNK_MODE_PMA_EVICTION
| FREE_ROOT_CHUNK_MODE_SKIP_PMA_FREE.

Inductive uvm_pmm_context_t : Set := PMM_CONTEXT_DEFAULT | PMM_CONTEXT_PMA_EVICTION.

Definition free_root_chunk_mode_from_pmm_context (c : uvm_pmm_context_t) : free_root_chunk_mode_t :=
  match c with
  | PMM_CONTEXT_DEFAULT => FREE_ROOT_CHUNK_MODE_DEFAULT
  | PMM_CONTEXT_PMA_EVICTION => FREE_ROOT_CHUNK_MODE_PMA_EVICTION
  end.

(** Returns the flags [nvUvmInterfacePmaFreePages] is called with, or [None]
    when the call is skipped. *)
Definition free_root_chunk (i : nat) (free_mode : free_root_chunk_mode_t) : M (option Z) :=
  let c := Root i in
  ch ← get_chunk c;
  _ ← assert (is_state ch UVM_PMM_GPU_CHUNK_STATE_TEMP_PINNED);
  unlinked ← list_empty_node c;
  _ ← assert unlinked;
  _ ← chunk_unpin c UVM_PMM_GPU_CHUNK_STATE_PMA_OWNED;
  let zero_flag := if is_zero ch then UVM_PMA_FREE_IS_ZERO else 0 in
  match free_mode with
  | FREE_ROOT_CHUNK_MODE_SKIP_PMA_FREE => mret None
  | FREE_ROOT_CHUNK_MODE_PMA_EVICTION =>
      mret (Some (Z.lor UVM_PMA_CALLED_FROM_PMA_EVICTION zero_flag))
  | FREE_ROOT_CHUNK_MODE_DEFAULT => mret (Some zero_flag)
  end.

(** The first root chunk of the free lists, non-zeroed chunks first. *)
Definition first_free_root (t : uvm_pmm_gpu_memory_type_t) : M (option chunk_id) :=
  l ← find_free_list t UVM_CHUNK_SIZE_MAX UVM_PMM_LIST_NO_ZERO;
  c ← list_first_chunk l;
  match c with
  | Some c => ch ← get_chunk c; _ ← assert (negb (is_zero ch)); mret (Some c)
  | None =>
      l ← find_free_list t UVM_CHUNK_SIZE_MAX UVM_PMM_LIST_ZERO;
      c ← list_first_chunk l;
      match c with
      | Some c => ch ← get_chunk c; _ ← assert (is_zero ch); mret (Some c)
      | None => mret None
      end
  end.

Definition free_next_available_root_chunk (t : uvm_pmm_gpu_memory_type_t) : M bool :=
  s ← get_pmm;
  last ← of_option (uvm_chunk_find_last_size (chunk_sizes s t));
  _ ← assert (last =? UVM_CHUNK_SIZE_MAX);
  result ← first_free_root t;
  match result with
  | Some c =>
      _ ← uvm_pmm_root_list_update_locked c None UVM_PMM_ROOT_LIST_NONE
            UVM_PMM_ROOT_LIST_OP_DEL_INIT;
      ch ← get_chunk c;
      _ ← assert (is_state ch UVM_PMM_GPU_CHUNK_STATE_FREE);
      _ ← assert (uvm_gpu_chunk_get_size ch =? UVM_CHUNK_SIZE_MAX);
      _ ← assert (bool_decide (type ch = t));
      _ ← chunk_pin c;
      i ← root_chunk_from_chunk c;
      _ ← free_root_chunk i FREE_ROOT_CHUNK_MODE_DEFAULT;
      mret true
  | None => mret false
  end.

Definition free_chunk (c : chunk_id) : M unit :=
  ch ← get_chunk c;
  let is_root := chunk_is_root_chunk ch in
  let t := type ch in
  _ ← assert (is_state ch UVM_PMM_GPU_CHUNK_STATE_ALLOCATED
              || is_state ch UVM_PMM_GPU_CHUNK_STATE_TEMP_PINNED);
  _ ← check_chunk c;
  freed ← try_chunk_free c;
  try_free ← (if freed : bool then mret is_root
              else _ ← free_chunk_with_merges c; mret true);
  if try_free : bool then _ ← free_next_available_root_chunk t; mret tt else mret tt.

(** The tracker of pending work joins the root chunk's. *)
Definition uvm_pmm_gpu_free (c : option chunk_id) : M unit :=
  match c with
  | None => mret tt
  | Some c =>
      ch ← get_chunk c;
      _ ← assert (is_state ch UVM_PMM_GPU_CHUNK_STATE_ALLOCATED
                  || is_state ch UVM_PMM_GPU_CHUNK_STATE_TEMP_PINNED);
      free_chunk c
  end.

(** ** Allocation from the free lists *)

Definition uvm_gpu_chunk_to_page (ch : uvm_gpu_chunk_t) : M Z :=
  let sys_addr := NvU64 (address ch + memory_window_start E) in
  _ ← assert (NvU64 (sys_addr + uvm_gpu_chunk_get_size ch) <=? NvU64 (memory_window_end E + 1));
  _ ← assert (numa_enabled E);
  mret (Z.shiftr sys_addr PAGE_SHIFT).

Definition root_chunk_has_elevated_page (i : nat) : M bool :=
  if negb (numa_enabled E) then mret false
  else
    ch ← get_chunk (Root i);
    page ← uvm_gpu_chunk_to_page ch;
    n ← next_call;
    mret (UVM_CHUNK_SIZE_MAX / PAGE_SIZE <? page_count E n page).

(** The candidates are the list's chunks when the scan starts; those in
    eviction are taken off the list. *)
Fixpoint find_free_chunk_in (zero_type : uvm_pmm_list_zero_t)
    (candidates : list chunk_id) : M (option chunk_id) :=
  match candidates with
  | [] => mret None
  | c :: candidates =>
      ch ← get_chunk c;
      _ ← assert (bool_decide (is_zero ch = bool_decide (zero_type = UVM_PMM_LIST_ZERO)));
      evicting ← chunk_is_in_eviction c;
      if evicting : bool then
        _ ← uvm_pmm_root_list_update_locked c None UVM_PMM_ROOT_LIST_EVICTION
              UVM_PMM_ROOT_LIST_OP_DEL_INIT;
        find_free_chunk_in zero_type candidates
      else
        i ← root_chunk_from_chunk c;
        elevated ← root_chunk_has_elevated_page i;
        if negb elevated then mret (Some c)
        else find_free_chunk_in zero_type candidates
  end.

Definition find_free_chunk_locked (t : uvm_pmm_gpu_memory_type_t)
    (chunk_size : Z) (zero_type : uvm_pmm_list_zero_t) : M (option chunk_id) :=
  l ← find_free_list t chunk_size zero_type;
  s ← get_pmm;
  find_free_chunk_in zero_type (lists s l).

Definition claim_free_chunk (t : uvm_pmm_gpu_memory_type_t)
    (chunk_size : Z) : M (option chunk_id) :=
  c ← find_free_chunk_locked t chunk_size UVM_PMM_LIST_ZERO;
  c ← match c with
      | Some c => mret (Some c)
      | None => find_free_chunk_locked t chunk_size UVM_PMM_LIST_NO_ZERO
      end;
  match c with
  | None => mret None
  | Some c =>
      ch ← get_chunk c;
      _ ← assert (uvm_gpu_chunk_get_size ch =? chunk_size);
      _ ← assert (bool_decide (type ch = t));
      _ ← assert (is_state ch UVM_PMM_GPU_CHUNK_STATE_FREE);
      evicting ← chunk_is_in_eviction c;
      _ ← assert (negb evicting);
      _ ← match parent ch with
          | Some p =>
              pch ← get_chunk p;
              psub ← of_option (suballoc pch);
              _ ← assert (bool_decide (type pch = t));
              n ← num_subchunks p;
              _ ← assert (allocated psub <? n);
              update_suballoc p (fun psub => psub <| allocated := allocated psub + 1 |>)
          | None => mret tt
          end;
      _ ← chunk_pin c;
      _ ← chunk_update_lists_locked c;
      mret (Some c)
  end.

(** ** Allocation from PMA *)

Definition init_root_chunk (t : uvm_pmm_gpu_memory_type_t) (i : nat)
    (initial_state : uvm_pmm_gpu_chunk_state_t) (zero : bool) : M unit :=
  let c := Root i in
  ch ← get_chunk c;
  _ ← assert (is_state ch UVM_PMM_GPU_CHUNK_STATE_PMA_OWNED);
  _ ← assert (is_null (parent ch));
  _ ← assert (is_null (suballoc ch));
  _ ← assert (is_null (va_block ch));
  _ ← assert (va_block_page_index ch =? PAGES_PER_UVM_VA_BLOCK);
  unlinked ← list_empty_node c;
  _ ← assert unlinked;
  _ ← assert (uvm_gpu_chunk_get_size ch =? UVM_CHUNK_SIZE_MAX);
  elevated ← root_chunk_has_elevated_page i;
  _ ← assert (negb elevated);
  _ ← assert (bool_decide (initial_state = UVM_PMM_GPU_CHUNK_STATE_FREE)
              || bool_decide (initial_state = UVM_PMM_GPU_CHUNK_STATE_TEMP_PINNED));
  _ ← update_chunk c (fun ch => ch <| type := t |> <| state := initial_state |> <| is_zero := zero |>);
  chunk_update_lists_locked c.

Definition UVM_PMM_ALLOC_FLAGS_NONE : Z := 0.
Definition UVM_PMM_ALLOC_FLAGS_EVICT : Z := Z.shiftl 1 0.
Definition UVM_PMM_ALLOC_FLAGS_DONT_BATCH : Z := Z.shiftl 1 1.
Definition UVM_PMM_ALLOC_FLAGS_MASK : Z := Z.shiftl 1 2 - 1.

(** The options and the number of pages of the request to PMA. *)
Definition pma_options (t : uvm_pmm_gpu_memory_type_t) : Z :=
  let o := UVM_PMA_ALLOCATE_DONT_EVICT in
  let o := if bool_decide (t = UVM_PMM_GPU_MEMORY_TYPE_KERNEL) || negb (gpu_supports_pma_eviction E)
           then Z.lor o UVM_PMA_ALLOCATE_PINNED else o in
  let o := if numa_enabled E then Z.lor o UVM_PMA_ALLOCATE_NO_ZERO else o in
  if conf_computing_enabled E then Z.lor o UVM_PMA_ALLOCATE_PROTECTED_REGION else o.

Definition pma_batched (options flags : Z) : bool :=
  let flags := if numa_enabled E then Z.lor flags UVM_PMM_ALLOC_FLAGS_DONT_BATCH else flags in
  negb (isSimulated E) && negb (has_flag options UVM_PMA_ALLOCATE_PINNED)
  && negb (has_flag flags UVM_PMM_ALLOC_FLAGS_DONT_BATCH).

(** One page of PMA's answer: the first is handed to the caller. *)
Definition init_pma_page (t : uvm_pmm_gpu_memory_type_t)
    (initial_state : uvm_pmm_gpu_chunk_state_t) (zero : bool) (pa : Z) : M nat :=
  i ← root_chunk_from_address pa;
  ch ← get_chunk (Root i);
  _ ← assert (pa mod UVM_CHUNK_SIZE_MAX =? 0);
  _ ← assert (address ch =? pa);
  _ ← init_root_chunk t i initial_state zero;
  mret i.

(** PMA returns at least one page when it succeeds. *)
Definition alloc_root_chunk (t : uvm_pmm_gpu_memory_type_t) (flags : Z)
    : M (NV_STATUS * option chunk_id) :=
  let options := pma_options t in
  let used_kmem_cache := pma_batched options flags in
  let num_chunks :=
    if used_kmem_cache then NvU32 (Z.shiftl 1 (uvm_perf_pma_batch_nonpinned_order E)) else 1 in
  let options :=
    if used_kmem_cache then Z.lor options UVM_PMA_ALLOCATE_ALLOW_PARTIAL else options in
  call ← next_call;
  if used_kmem_cache && negb (kmem E call 0%nat) then mret (NV_ERR_NO_MEMORY, None)
  else
    match nvUvmInterfacePmaAllocPages E call num_chunks options with
    | inl status => _ ← assert (negb (status =? NV_OK)); mret (status, None)
    | inr (pas, zero) =>
        _ ← assert (Z.of_nat (length pas) <=? num_chunks);
        match pas with
        | [] => fail
        | pa :: rest =>
            i ← init_pma_page t UVM_PMM_GPU_CHUNK_STATE_TEMP_PINNED zero pa;
            _ ← for_each rest (fun pa =>
                  _ ← init_pma_page t UVM_PMM_GPU_CHUNK_STATE_FREE zero pa; mret tt);
            mret (NV_OK, Some (Root i))
        end
    end.
End chunks.
