(* ===== verification/PmmWalk.v ===== *)
(** * The GPU chunk allocator: tree walks

    Model of [chunk_walk] of uvm_pmm_gpu.c and of its uses that split, merge
    and list chunks.  [fuel] bounds the iterations of the walk's loops; a walk
    that exceeds it has no result.  A tree of chunks has at most 2^22 nodes
    (the sizes are powers of two up to 2MB), so 2^22 is always enough. *)

From S2P Require Import Prelude TransitionValidator Bpf PageMask PerfTree UvmBpf PmmTypes PmmLists PmmChunks.

Inductive chunk_walk_order_t : Set := CHUNK_WALK_PRE_ORDER | CHUNK_WALK_POST_ORDER.

Definition assert_chunk_under (c ancestor : chunk_id) : M unit :=
  a ← get_chunk ancestor;
  ch ← get_chunk c;
  _ ← assert (is_state a UVM_PMM_GPU_CHUNK_STATE_IS_SPLIT);
  _ ← assert (negb (is_null (suballoc a)));
  _ ← assert (address a <=? address ch);
  _ ← assert (address ch <? address a + uvm_gpu_chunk_get_size a);
  assert (uvm_gpu_chunk_get_size ch <=? uvm_gpu_chunk_get_size a).

(** The callback gets and returns the data the walk threads through. *)
Section walk.
Context {D : Type} (order : chunk_walk_order_t) (func : D -> chunk_id -> M (NV_STATUS * D)).

(** The loop that goes to the next sibling or up: the walk returns ([inl]) or
    goes on at a chunk ([inr]). *)
Fixpoint walk_up (fuel : nat) (start curr : chunk_id) (d : D)
    : M ((NV_STATUS * D) + (chunk_id * D)) :=
  match fuel with
  | O => fail
  | S fuel =>
      if bool_decide (curr = start) then mret (inr (curr, d))
      else
        '(status, d) ← match order with
                       | CHUNK_WALK_POST_ORDER => func d curr
                       | CHUNK_WALK_PRE_ORDER => mret (NV_OK, d)
                       end;
        if negb (status =? NV_OK) then mret (inl (status, d))
        else
          sibling ← next_sibling curr;
          match sibling with
          | Some c => mret (inr (c, d))
          | None =>
              ch ← get_chunk curr;
              p ← of_option (parent ch);
              pch ← get_chunk p;
              _ ← assert (is_state pch UVM_PMM_GPU_CHUNK_STATE_IS_SPLIT);
              walk_up fuel start p d
          end
  end.

(** One iteration of the outer loop. *)
Definition walk_step (fuel : nat) (start curr : chunk_id) (d : D)
    : M ((NV_STATUS * D) + (chunk_id * D)) :=
  _ ← when (negb (bool_decide (curr = start))) (assert_chunk_under curr start);
  '(status, d) ← match order with
                 | CHUNK_WALK_PRE_ORDER => func d curr
                 | CHUNK_WALK_POST_ORDER => mret (NV_OK, d)
                 end;
  if negb (status =? NV_OK) && negb (status =? NV_WARN_NOTHING_TO_DO) then mret (inl (status, d))
  else
    ch ← get_chunk curr;
    if negb (status =? NV_WARN_NOTHING_TO_DO) && is_state ch UVM_PMM_GPU_CHUNK_STATE_IS_SPLIT then
      sub ← of_option (suballoc ch);
      c0 ← of_option (subchunks sub !! 0%nat);
      mret (inr (c0, d))
    else walk_up fuel start curr d.

Fixpoint walk_loop (fuel : nat) (start curr : chunk_id) (d : D) : M (NV_STATUS * D) :=
  match fuel with
  | O => fail
  | S fuel' =>
      r ← walk_step fuel start curr d;
      match r with
      | inl r => mret r
      | inr (curr, d) =>
          if negb (bool_decide (curr = start)) then walk_loop fuel' start curr d
          else
            match order with
            | CHUNK_WALK_POST_ORDER => func d curr
            | CHUNK_WALK_PRE_ORDER => mret (NV_OK, d)
            end
      end
  end.
End walk.

Definition chunk_walk {D} (fuel : nat) (start : chunk_id) (func : D -> chunk_id -> M (NV_STATUS * D))
    (data : D) (order : chunk_walk_order_t) : M (NV_STATUS * D) :=
  walk_loop order func fuel start start data.

Definition chunk_walk_pre_order {D} (fuel : nat) (start : chunk_id)
    (func : D -> chunk_id -> M (NV_STATUS * D)) (data : D) : M (NV_STATUS * D) :=
  chunk_walk fuel start func data CHUNK_WALK_PRE_ORDER.

Definition chunk_walk_post_order {D} (fuel : nat) (start : chunk_id)
    (func : D -> chunk_id -> M (NV_STATUS * D)) (data : D) : M (NV_STATUS * D) :=
  chunk_walk fuel start func data CHUNK_WALK_POST_ORDER.

Section walks.
Context (E : pmm_env) (fuel : nat).

(** ** Splitting and merging *)

(** The subchunks found so far, in order ([num_subchunks_curr] is their
    number); the array the caller passes is the result. *)
Record split_walk_t := mk_split_walk {
  min_size : Z;
  num_subchunks_total : Z;
  found : list chunk_id;
  inject_error : bool;
}.

Definition split_walk_func (args : split_walk_t) (c : chunk_id) : M (NV_STATUS * split_walk_t) :=
  s ← get_pmm;
  ch ← get_chunk c;
  let chunk_size := uvm_gpu_chunk_get_size ch in
  _ ← assert (min_size args <? chunk_size);
  child_size ← of_option (uvm_chunk_find_prev_size (chunk_sizes s (type ch)) chunk_size);
  _ ← assert (negb (child_size =? UVM_CHUNK_SIZE_INVALID));
  let num_children := chunk_size / child_size in
  _ ← when (inject_error args && (child_size =? min_size args)
            && (Z.of_nat (length (found args)) + num_children =? num_subchunks_total args))
        (update_chunk c (fun ch => ch <| inject_split_error := true |>));
  status ← split_gpu_chunk E c;
  if negb (status =? NV_OK) then mret (status, args)
  else if child_size =? min_size args then
    sub ← get_suballoc c;
    let children := take (Z.to_nat num_children) (subchunks sub) in
    _ ← assert (Z.of_nat (length (found args)) + num_children <=? num_subchunks_total args);
    mret (NV_WARN_NOTHING_TO_DO,
          mk_split_walk (min_size args) (num_subchunks_total args) (found args ++ children)
            (inject_error args))
  else mret (NV_OK, args).

Definition merge_walk_func (data : unit) (c : chunk_id) : M (NV_STATUS * unit) :=
  ch ← get_chunk c;
  _ ← when (is_state ch UVM_PMM_GPU_CHUNK_STATE_IS_SPLIT) (merge_gpu_chunk c);
  mret (NV_OK, data).

Definition uvm_pmm_gpu_merge_chunk_locked (c : chunk_id) : M unit :=
  ch ← get_chunk c;
  _ ← assert (is_state ch UVM_PMM_GPU_CHUNK_STATE_IS_SPLIT
              || is_state ch UVM_PMM_GPU_CHUNK_STATE_TEMP_PINNED
              || is_state ch UVM_PMM_GPU_CHUNK_STATE_ALLOCATED);
  '(status, _) ← chunk_walk_post_order fuel c merge_walk_func tt;
  _ ← assert (status =? NV_OK);
  ch ← get_chunk c;
  assert (is_state ch UVM_PMM_GPU_CHUNK_STATE_ALLOCATED
          || is_state ch UVM_PMM_GPU_CHUNK_STATE_TEMP_PINNED).

Definition uvm_pmm_gpu_merge_chunk (c : chunk_id) : M unit := uvm_pmm_gpu_merge_chunk_locked c.

(** Returns the subchunks written to the caller's array. *)
Definition uvm_pmm_gpu_split_chunk (c : chunk_id) (subchunk_size : Z)
    : M (NV_STATUS * list chunk_id) :=
  s ← get_pmm;
  ch ← get_chunk c;
  let walk_args := mk_split_walk subchunk_size (uvm_gpu_chunk_get_size ch / subchunk_size) []
                     (inject_split_error ch) in
  _ ← assert (is_power_of_2 subchunk_size);
  _ ← assert (has_flag subchunk_size (chunk_sizes s (type ch)));
  _ ← assert (subchunk_size <? uvm_gpu_chunk_get_size ch);
  _ ← assert (is_state ch UVM_PMM_GPU_CHUNK_STATE_ALLOCATED
              || is_state ch UVM_PMM_GPU_CHUNK_STATE_TEMP_PINNED);
  _ ← when (inject_error walk_args) (update_chunk c (fun ch => ch <| inject_split_error := false |>));
  '(status, walk_args) ← chunk_walk_pre_order fuel c split_walk_func walk_args;
  _ ← (if negb (status =? NV_OK) then uvm_pmm_gpu_merge_chunk_locked c
       else assert (Z.of_nat (length (found walk_args)) =? num_subchunks_total walk_args));
  mret (status, found walk_args).

Record get_subchunks_walk_t := mk_get_subchunks_walk {
  num_to_write : Z;
  num_to_skip : Z;
  written : list chunk_id;
}.

Definition get_subchunks_walk_func (args : get_subchunks_walk_t) (c : chunk_id)
    : M (NV_STATUS * get_subchunks_walk_t) :=
  ch ← get_chunk c;
  if is_state ch UVM_PMM_GPU_CHUNK_STATE_IS_SPLIT then mret (NV_OK, args)
  else
    _ ← assert (is_state ch UVM_PMM_GPU_CHUNK_STATE_ALLOCATED
                || is_state ch UVM_PMM_GPU_CHUNK_STATE_TEMP_PINNED);
    if negb (num_to_skip args =? 0) then
      mret (NV_OK, mk_get_subchunks_walk (num_to_write args) (num_to_skip args - 1) (written args))
    else
      _ ← assert (Z.of_nat (length (written args)) <? num_to_write args);
      let args := mk_get_subchunks_walk (num_to_write args) 0 (written args ++ [c]) in
      mret (if Z.of_nat (length (written args)) =? num_to_write args
            then NV_ERR_OUT_OF_RANGE else NV_OK, args).

(** The number written is the length of the result. *)
Definition uvm_pmm_gpu_get_subchunks (p : chunk_id) (start_index num_subchunks : Z)
    : M (list chunk_id) :=
  let walk_args := mk_get_subchunks_walk num_subchunks start_index [] in
  if num_subchunks =? 0 then mret []
  else
    pch ← get_chunk p;
    _ ← assert (is_state pch UVM_PMM_GPU_CHUNK_STATE_ALLOCATED
                || is_state pch UVM_PMM_GPU_CHUNK_STATE_TEMP_PINNED
                || is_state pch UVM_PMM_GPU_CHUNK_STATE_IS_SPLIT);
    '(status, walk_args) ← chunk_walk_post_order fuel p get_subchunks_walk_func walk_args;
    _ ← when (negb (status =? NV_OK))
          (_ ← assert (status =? NV_ERR_OUT_OF_RANGE);
           assert (Z.of_nat (length (written walk_args)) =? num_to_write walk_args));
    mret (written walk_args).
End walks.
