(* ===== verification/PmmEvict.v ===== *)
(** * The GPU chunk allocator: eviction and allocation

    Model of the eviction of root chunks, of allocation with eviction, of the
    callbacks PMA evicts through, and of the life of the allocator
    (uvm_pmm_gpu.c).  [fuel] bounds the loops: the walks, the retries of an
    eviction that lost a race, and the waits. *)

From S2P Require Import Prelude TransitionValidator Bpf PageMask PerfTree UvmBpf PmmTypes PmmLists PmmChunks PmmWalk.

Section evict.
Context (E : pmm_env) (uvm_ops : nat -> option pmm_ops) (fuel : nat).

(** ** Eviction lists *)

Definition root_chunk_update_eviction_list (c : chunk_id) (l : list_id)
    (destination_state : uvm_pmm_root_list_state_t) (invoke_access_hook : bool) : M unit :=
  ch ← get_chunk c;
  _ ← assert (uvm_gpu_chunk_get_size ch =? UVM_CHUNK_SIZE_MAX);
  _ ← assert (uvm_gpu_chunk_is_user ch);
  _ ← assert (is_state ch UVM_PMM_GPU_CHUNK_STATE_ALLOCATED
              || is_state ch UVM_PMM_GPU_CHUNK_STATE_TEMP_PINNED);
  pinned ← chunk_is_root_chunk_pinned c;
  evicting ← chunk_is_in_eviction c;
  if negb pinned && negb evicting then
    unlinked ← list_empty_node c;
    _ ← assert (negb unlinked);
    effect ← (if invoke_access_hook then uvm_bpf_call_gpu_block_access uvm_ops c
              else mret NV_GPU_PMM_ACCESS_NATIVE);
    if bool_decide (effect = NV_GPU_PMM_ACCESS_NATIVE)
    then uvm_pmm_root_list_update_locked c (Some l) destination_state UVM_PMM_ROOT_LIST_OP_MOVE_TAIL
    else mret tt
  else mret tt.

Definition uvm_pmm_gpu_mark_root_chunk_used (c : chunk_id) : M unit :=
  root_chunk_update_eviction_list c va_block_used UVM_PMM_ROOT_LIST_VA_BLOCK_USED true.

Definition uvm_pmm_gpu_mark_root_chunk_unused (c : chunk_id) : M unit :=
  root_chunk_update_eviction_list c va_block_unused UVM_PMM_ROOT_LIST_VA_BLOCK_UNUSED false.

(** ** Choosing a root chunk *)

Definition chunk_is_evictable (c : chunk_id) : M bool :=
  i ← root_chunk_from_chunk c;
  root ← get_chunk (Root i);
  if is_state root UVM_PMM_GPU_CHUNK_STATE_PMA_OWNED then mret false
  else
    pinned ← chunk_is_root_chunk_pinned c;
    if pinned : bool then mret false
    else
      evicting ← chunk_is_in_eviction c;
      if evicting : bool then mret false
      else
        unlinked ← list_empty_node (Root i);
        _ ← assert (negb unlinked);
        mret true.

Definition chunk_start_eviction (c : chunk_id) : M unit :=
  i ← root_chunk_from_chunk c;
  let c := Root i in
  evictable ← chunk_is_evictable c;
  _ ← assert evictable;
  unlinked ← list_empty_node c;
  _ ← assert (negb unlinked);
  _ ← uvm_pmm_root_list_update_locked c None UVM_PMM_ROOT_LIST_EVICTION
        UVM_PMM_ROOT_LIST_OP_DEL_INIT;
  uvm_gpu_chunk_set_in_eviction c true.

Definition pick_root_chunk_to_evict : M (option nat) :=
  chunk ← first_free_root UVM_PMM_GPU_MEMORY_TYPE_USER;
  _ ← when (is_null chunk) (uvm_bpf_call_gpu_evict_prepare uvm_ops);
  chunk ← (if is_null chunk then list_first_chunk va_block_unused else mret chunk);
  chunk ← (if is_null chunk then list_first_chunk va_block_used else mret chunk);
  match chunk with
  | Some c => _ ← chunk_start_eviction c; i ← root_chunk_from_chunk c; mret (Some i)
  | None => mret None
  end.

(** ** Lazy frees *)

(** The kernel's notification that an HMM page lost its last reference. *)
Definition devmem_page_free (c : chunk_id) : M unit :=
  ch ← get_chunk c;
  _ ← assert (is_referenced ch);
  _ ← update_chunk c (fun ch => ch <| is_referenced := false |>);
  uvm_pmm_root_list_update_locked c (Some va_block_lazy_free) UVM_PMM_ROOT_LIST_LAZY_FREE
    UVM_PMM_ROOT_LIST_OP_ADD_TAIL.

Fixpoint process_lazy_free_loop (n : nat) : M unit :=
  match n with
  | O => fail
  | S n =>
      c ← list_first_chunk va_block_lazy_free;
      match c with
      | None => mret tt
      | Some c =>
          _ ← uvm_pmm_root_list_update_locked c None UVM_PMM_ROOT_LIST_NONE
                UVM_PMM_ROOT_LIST_OP_DEL_INIT;
          _ ← free_chunk uvm_ops c;
          process_lazy_free_loop n
      end
  end.

Definition process_lazy_free : M unit := process_lazy_free_loop fuel.

(** ** Evicting a root chunk *)

Definition uvm_pmm_gpu_mark_chunk_evicted (c : chunk_id) : M unit :=
  evicting ← chunk_is_in_eviction c;
  _ ← assert evicting;
  ch ← get_chunk c;
  _ ← assert (is_state ch UVM_PMM_GPU_CHUNK_STATE_ALLOCATED);
  _ ← assert (negb (is_null (va_block ch)));
  _ ← update_chunk c (fun ch => ch <| va_block := None |>
                                   <| va_block_page_index := PAGES_PER_UVM_VA_BLOCK |>);
  chunk_pin c.

(** The VA block code places a pinned chunk before it unpins it. *)
Definition set_page_index (c : chunk_id) (index : Z) : M unit :=
  ch ← get_chunk c;
  _ ← assert (is_state ch UVM_PMM_GPU_CHUNK_STATE_TEMP_PINNED);
  update_chunk c (fun ch => ch <| va_block_page_index := uvm_page_index_t index |>).

Definition run_call (call : pmm_call) : M unit :=
  match call with
  | call_mark_chunk_evicted c => uvm_pmm_gpu_mark_chunk_evicted c
  | call_free c => uvm_pmm_gpu_free uvm_ops (Some c)
  | call_unpin c block referenced => gpu_unpin_temp uvm_ops c block referenced
  | call_set_page_index c index => set_page_index c index
  | call_mark_root_chunk_used c => uvm_pmm_gpu_mark_root_chunk_used c
  | call_mark_root_chunk_unused c => uvm_pmm_gpu_mark_root_chunk_unused c
  | call_claim_free_chunk t chunk_size => _ ← claim_free_chunk E uvm_ops t chunk_size; mret tt
  | call_alloc_root_chunk t flags => _ ← alloc_root_chunk E uvm_ops t flags; mret tt
  | call_split_chunk c subchunk_size =>
      _ ← uvm_pmm_gpu_split_chunk E fuel c subchunk_size; mret tt
  | call_merge_chunk c => uvm_pmm_gpu_merge_chunk fuel c
  | call_devmem_page_free c => devmem_page_free c
  | call_process_lazy_free => process_lazy_free
  end.

Definition evict_root_chunk_from_va_block (i : nat) (block : nat) : M NV_STATUS :=
  n ← next_call;
  let '(calls, status) := uvm_va_block_evict_chunks E n block i in
  _ ← for_each calls run_call;
  if status =? NV_OK then n ← next_call; mret (uvm_tracker_add_tracker_safe E n)
  else mret status.

Definition pin_free_chunks_func (data : unit) (c : chunk_id) : M (NV_STATUS * unit) :=
  evicting ← chunk_is_in_eviction c;
  _ ← assert evicting;
  ch ← get_chunk c;
  _ ← when (is_state ch UVM_PMM_GPU_CHUNK_STATE_FREE)
        (_ ← uvm_pmm_root_list_update_locked c None UVM_PMM_ROOT_LIST_EVICTION
               UVM_PMM_ROOT_LIST_OP_DEL_INIT;
         _ ← chunk_pin c;
         match parent ch with
         | Some p => update_suballoc p (fun psub => psub <| allocated := allocated psub + 1 |>)
         | None => mret tt
         end);
  mret (NV_OK, data).

Definition free_first_pinned_chunk_func (data : unit) (c : chunk_id) : M (NV_STATUS * unit) :=
  evicting ← chunk_is_in_eviction c;
  _ ← assert (negb evicting);
  ch ← get_chunk c;
  if is_state ch UVM_PMM_GPU_CHUNK_STATE_TEMP_PINNED
  then _ ← free_chunk_with_merges uvm_ops c; mret (NV_ERR_MORE_DATA_AVAILABLE, data)
  else mret (NV_OK, data).

(** The data is the VA block found. *)
Definition find_and_retain_va_block_to_evict (evict_data : option nat) (c : chunk_id)
    : M (NV_STATUS * option nat) :=
  _ ← assert (is_null evict_data);
  ch ← get_chunk c;
  _ ← assert (is_state ch UVM_PMM_GPU_CHUNK_STATE_ALLOCATED
              || is_state ch UVM_PMM_GPU_CHUNK_STATE_TEMP_PINNED
              || is_state ch UVM_PMM_GPU_CHUNK_STATE_IS_SPLIT);
  if is_state ch UVM_PMM_GPU_CHUNK_STATE_ALLOCATED then
    block ← of_option (va_block ch);
    mret (NV_ERR_MORE_DATA_AVAILABLE, Some block)
  else mret (NV_OK, evict_data).

(** The loop over VA blocks; returns the status it ends with. *)
Fixpoint evict_from_va_blocks (n : nat) (i : nat) : M NV_STATUS :=
  match n with
  | O => fail
  | S n =>
      '(status, evict) ← chunk_walk_pre_order fuel (Root i) find_and_retain_va_block_to_evict None;
      if negb (status =? NV_ERR_MORE_DATA_AVAILABLE) then
        _ ← assert (status =? NV_OK);
        mret NV_OK
      else
        block ← of_option evict;
        status ← evict_root_chunk_from_va_block i block;
        if negb (status =? NV_OK) then mret status else evict_from_va_blocks n i
  end.

Fixpoint free_pinned_chunks (n : nat) (i : nat) : M unit :=
  match n with
  | O => fail
  | S n =>
      '(free_status, _) ← chunk_walk_pre_order fuel (Root i) free_first_pinned_chunk_func tt;
      if free_status =? NV_ERR_MORE_DATA_AVAILABLE then free_pinned_chunks n i
      else assert (free_status =? NV_OK)
  end.

Definition evict_root_chunk (i : nat) (pmm_context : uvm_pmm_context_t) : M NV_STATUS :=
  let c := Root i in
  ch ← get_chunk c;
  let t := type ch in
  '(status, _) ← chunk_walk_pre_order fuel c pin_free_chunks_func tt;
  _ ← assert (status =? NV_OK);
  status ← evict_from_va_blocks fuel i;
  if status =? NV_OK then
    _ ← uvm_pmm_gpu_merge_chunk_locked fuel c;
    ch ← get_chunk c;
    _ ← assert (is_state ch UVM_PMM_GPU_CHUNK_STATE_TEMP_PINNED);
    _ ← uvm_gpu_chunk_set_in_eviction c false;
    _ ← update_chunk c (fun ch => ch <| is_zero := false |>);
    elevated ← root_chunk_has_elevated_page E i;
    if elevated : bool then
      _ ← free_root_chunk i (free_root_chunk_mode_from_pmm_context pmm_context);
      mret NV_ERR_IN_USE
    else
      _ ← check_chunk c;
      mret NV_OK
  else
    _ ← uvm_gpu_chunk_set_in_eviction c false;
    _ ← chunk_update_lists_locked uvm_ops c;
    _ ← free_pinned_chunks fuel i;
    _ ← free_next_available_root_chunk t;
    mret status.

Definition pick_and_evict_root_chunk (t : uvm_pmm_gpu_memory_type_t)
    (pmm_context : uvm_pmm_context_t) : M (NV_STATUS * option chunk_id) :=
  _ ← assert (supports_eviction E);
  root_chunk ← pick_root_chunk_to_evict;
  match root_chunk with
  | None => mret (NV_ERR_NO_MEMORY, None)
  | Some i =>
      status ← evict_root_chunk i pmm_context;
      if negb (status =? NV_OK) then mret (status, None)
      else if bool_decide (t = UVM_PMM_GPU_MEMORY_TYPE_KERNEL) then
        let flags := match pmm_context with
                     | PMM_CONTEXT_PMA_EVICTION => UVM_PMA_CALLED_FROM_PMA_EVICTION
                     | PMM_CONTEXT_DEFAULT => 0
                     end in
        ch ← get_chunk (Root i);
        n ← next_call;
        let status := nvUvmInterfacePmaPinPages E n (address ch) flags in
        if status =? NV_ERR_IN_USE then
          _ ← free_root_chunk i (free_root_chunk_mode_from_pmm_context pmm_context);
          mret (status, None)
        else
          _ ← assert (status =? NV_OK);
          _ ← update_chunk (Root i) (fun ch => ch <| type := t |>);
          mret (NV_OK, Some (Root i))
      else mret (NV_OK, Some (Root i))
  end.

Fixpoint pick_and_evict_retry (n : nat) (t : uvm_pmm_gpu_memory_type_t)
    (pmm_context : uvm_pmm_context_t) : M (NV_STATUS * option chunk_id) :=
  match n with
  | O => fail
  | S n =>
      r ← pick_and_evict_root_chunk t pmm_context;
      if r.1 =? NV_ERR_IN_USE then pick_and_evict_retry n t pmm_context else mret r
  end.

Definition pick_and_evict_root_chunk_retry (t : uvm_pmm_gpu_memory_type_t)
    (pmm_context : uvm_pmm_context_t) : M (NV_STATUS * option chunk_id) :=
  pick_and_evict_retry fuel t pmm_context.

End evict.
