(* ===== verification/PmmAlloc.v ===== *)
(** * The GPU chunk allocator: allocation, PMA callbacks, life cycle

    Model of the entry points of uvm_pmm_gpu.c that allocate chunks, of the
    two callbacks through which PMA takes memory back, and of the creation and
    destruction of the allocator. *)

From S2P Require Import Prelude TransitionValidator Bpf PageMask PerfTree UvmBpf PmmTypes PmmLists PmmChunks PmmWalk PmmEvict.

Section alloc.
Context (E : pmm_env) (uvm_ops : nat -> option pmm_ops) (fuel : nat).

(** ** Allocation *)

Definition alloc_or_evict_root_chunk (t : uvm_pmm_gpu_memory_type_t) (flags : Z)
    : M (NV_STATUS * option chunk_id) :=
  '(status, c) ← alloc_root_chunk E uvm_ops t flags;
  if negb (status =? NV_OK) then
    if has_flag flags UVM_PMM_ALLOC_FLAGS_EVICT && supports_eviction E
    then pick_and_evict_root_chunk_retry E uvm_ops fuel t PMM_CONTEXT_DEFAULT
    else mret (status, None)
  else mret (status, c).

(** The same with the PMM lock taken inside. *)
Definition alloc_or_evict_root_chunk_unlocked (t : uvm_pmm_gpu_memory_type_t) (flags : Z)
    : M (NV_STATUS * option chunk_id) := alloc_or_evict_root_chunk t flags.

(** [for_each_chunk_size_from]: the first size at which a chunk is free. *)
Fixpoint claim_bigger (n : nat) (t : uvm_pmm_gpu_memory_type_t) (cur_size : Z)
    : M (option (chunk_id * Z)) :=
  match n with
  | O => fail
  | S n =>
      if cur_size =? UVM_CHUNK_SIZE_INVALID then mret None
      else
        c ← claim_free_chunk E uvm_ops t cur_size;
        match c with
        | Some c => mret (Some (c, cur_size))
        | None =>
            s ← get_pmm;
            next ← of_option (uvm_chunk_find_next_size (chunk_sizes s t) cur_size);
            claim_bigger n t next
        end
  end.

(** [for_each_chunk_size_rev_from]: splits down to the size asked for. *)
Fixpoint split_down (n : nat) (t : uvm_pmm_gpu_memory_type_t) (chunk_size : Z) (c : chunk_id)
    (cur_size : Z) : M (NV_STATUS * option chunk_id) :=
  match n with
  | O => fail
  | S n =>
      _ ← assert (negb (cur_size =? UVM_CHUNK_SIZE_INVALID));
      s ← get_pmm;
      let sizes := chunk_sizes s t in
      ch ← get_chunk c;
      _ ← assert (uvm_gpu_chunk_get_size ch =? cur_size);
      _ ← assert (bool_decide (type ch = t));
      _ ← assert (is_state ch UVM_PMM_GPU_CHUNK_STATE_TEMP_PINNED);
      _ ← match parent ch with
          | Some p =>
              pch ← get_chunk p;
              psub ← of_option (suballoc pch);
              next ← of_option (uvm_chunk_find_next_size sizes cur_size);
              _ ← assert (uvm_gpu_chunk_get_size pch =? next);
              _ ← assert (bool_decide (type pch = t));
              n ← num_subchunks p;
              assert (allocated psub <=? n)
          | None => mret tt
          end;
      if cur_size =? chunk_size then mret (NV_OK, Some c)
      else
        status ← split_gpu_chunk E c;
        if negb (status =? NV_OK) then
          _ ← free_chunk_with_merges uvm_ops c;
          mret (status, None)
        else
          sub ← get_suballoc c;
          c0 ← of_option (subchunks sub !! 0%nat);
          num ← num_subchunks c;
          _ ← for_each (tail (take (Z.to_nat num) (subchunks sub))) (chunk_free_locked uvm_ops);
          prev ← of_option (uvm_chunk_find_prev_size sizes cur_size);
          split_down n t chunk_size c0 prev
  end.

Definition alloc_chunk_with_splits (t : uvm_pmm_gpu_memory_type_t) (chunk_size flags : Z)
    : M (NV_STATUS * option chunk_id) :=
  _ ← assert (negb (chunk_size =? UVM_CHUNK_SIZE_MAX));
  c ← claim_free_chunk E uvm_ops t chunk_size;
  match c with
  | Some c => _ ← check_chunk c; mret (NV_OK, Some c)
  | None =>
      bigger ← claim_bigger (S MAX_CHUNK_LEVELS) t chunk_size;
      match bigger with
      | Some (c, cur_size) => split_down (S MAX_CHUNK_LEVELS) t chunk_size c cur_size
      | None =>
          '(status, c) ← alloc_or_evict_root_chunk t flags;
          if negb (status =? NV_OK) then mret (status, None)
          else
            c ← of_option c;
            ch ← get_chunk c;
            _ ← assert (uvm_gpu_chunk_get_size ch =? UVM_CHUNK_SIZE_MAX);
            split_down (S MAX_CHUNK_LEVELS) t chunk_size c UVM_CHUNK_SIZE_MAX
      end
  end.

Definition alloc_chunk (t : uvm_pmm_gpu_memory_type_t) (chunk_size flags : Z)
    : M (NV_STATUS * option chunk_id) :=
  c ← claim_free_chunk E uvm_ops t chunk_size;
  match c with
  | Some c => mret (NV_OK, Some c)
  | None =>
      if chunk_size =? UVM_CHUNK_SIZE_MAX then alloc_or_evict_root_chunk_unlocked t flags
      else
        '(status, c) ← alloc_chunk_with_splits t chunk_size flags;
        if negb (status =? NV_OK) then
          _ ← free_next_available_root_chunk t;
          mret (status, None)
        else mret (NV_OK, c)
  end.

(** The loop over the chunks asked for: the status it ends with and the chunks
    allocated so far. *)
Fixpoint alloc_chunks (num_chunks : nat) (t : uvm_pmm_gpu_memory_type_t) (chunk_size flags : Z)
    (chunks : list chunk_id) : M (NV_STATUS * list chunk_id) :=
  match num_chunks with
  | O => mret (NV_OK, chunks)
  | S num_chunks =>
      '(status, c) ← alloc_chunk t chunk_size flags;
      if negb (status =? NV_OK) then mret (status, chunks)
      else
        c ← of_option c;
        _ ← root_chunk_from_chunk c;
        n ← next_call;
        let status := uvm_tracker_add_tracker_safe E n in
        if negb (status =? NV_OK) then mret (status, chunks ++ [c])
        else alloc_chunks num_chunks t chunk_size flags (chunks ++ [c])
  end.

(** Returns the array of chunks, empty (all null) on error; the status of the
    final wait is the caller's even though the chunks stay allocated. *)
Definition pmm_gpu_alloc (num_chunks : nat) (chunk_size : Z) (mem_type : uvm_pmm_gpu_memory_type_t)
    (flags : Z) (out_tracker : bool) : M (NV_STATUS * list chunk_id) :=
  s ← get_pmm;
  _ ← assert (is_power_of_2 chunk_size);
  _ ← assert (has_flag chunk_size (chunk_sizes s mem_type));
  _ ← assert (Z.land flags UVM_PMM_ALLOC_FLAGS_MASK =? flags);
  let error status chunks :=
    _ ← for_each (rev chunks) (free_chunk uvm_ops);
    mret (status, []) in
  '(status, chunks) ← alloc_chunks num_chunks mem_type chunk_size flags [];
  if negb (status =? NV_OK) then error status chunks
  else
    n ← next_call;
    let status := uvm_tracker_wait E n in
    if negb (status =? NV_OK) then error status chunks
    else if out_tracker then
      n ← next_call;
      let status := uvm_tracker_add_tracker_safe E n in
      if negb (status =? NV_OK) then error status chunks else mret (NV_OK, chunks)
    else
      n ← next_call;
      mret (uvm_tracker_wait E n, chunks).

Definition uvm_pmm_gpu_alloc_kernel (num_chunks : nat) (chunk_size flags : Z) (out_tracker : bool)
    : M (NV_STATUS * list chunk_id) :=
  '(status, chunks) ← pmm_gpu_alloc num_chunks chunk_size UVM_PMM_GPU_MEMORY_TYPE_KERNEL flags
                        out_tracker;
  if negb (status =? NV_OK) then mret (status, chunks)
  else
    _ ← for_each chunks (fun c =>
          ch ← get_chunk c;
          _ ← assert (is_state ch UVM_PMM_GPU_CHUNK_STATE_TEMP_PINNED);
          _ ← chunk_unpin c UVM_PMM_GPU_CHUNK_STATE_ALLOCATED;
          update_chunk c (fun ch => ch <| is_referenced := false |>));
    mret (NV_OK, chunks).

Definition uvm_pmm_gpu_alloc_user (num_chunks : nat) (chunk_size flags : Z) (out_tracker : bool)
    : M (NV_STATUS * list chunk_id) :=
  pmm_gpu_alloc num_chunks chunk_size UVM_PMM_GPU_MEMORY_TYPE_USER flags out_tracker.

(** ** PMA eviction callbacks *)

Definition uvm_pmm_should_inject_pma_eviction_error : M bool :=
  s ← get_pmm;
  let n := inject_pma_evict_error_after_num_chunks s in
  if 0 <? n then
    _ ← modify (fun s => s <| inject_pma_evict_error_after_num_chunks := n - 1 |>);
    mret (n - 1 =? 0)
  else mret false.

(** The pages handed to PMA. *)
Definition chunk_pages (addr page_size num : Z) : list Z :=
  (fun k => addr + k * page_size) <$> seqZ 0 num.

Fixpoint pma_evict_loop (n : nat) (page_size phys_start phys_end pages_per_chunk left : Z)
    (pages : list Z) : M (NV_STATUS * list Z) :=
  match n with
  | O => fail
  | S n =>
      if 0 <? left then
        let pages_this_time := Z.min pages_per_chunk left in
        inject ← uvm_pmm_should_inject_pma_eviction_error;
        '(status, c) ← (if inject : bool then mret (NV_ERR_NO_MEMORY, None)
                        else pick_and_evict_root_chunk_retry E uvm_ops fuel
                               UVM_PMM_GPU_MEMORY_TYPE_KERNEL PMM_CONTEXT_PMA_EVICTION);
        if negb (status =? NV_OK) then mret (status, pages)
        else
          c ← of_option c;
          i ← root_chunk_from_chunk c;
          ch ← get_chunk c;
          if (address ch <? phys_start) || (phys_end <? NvU64 (address ch + UVM_CHUNK_SIZE_MAX)) then
            _ ← free_root_chunk i FREE_ROOT_CHUNK_MODE_PMA_EVICTION;
            mret (NV_ERR_NO_MEMORY, pages)
          else
            _ ← free_root_chunk i FREE_ROOT_CHUNK_MODE_SKIP_PMA_FREE;
            pma_evict_loop n page_size phys_start phys_end pages_per_chunk (left - pages_this_time)
              (pages ++ chunk_pages (address ch) page_size pages_this_time)
      else mret (NV_OK, pages)
  end.

(** Returns the pages evicted, written to the caller's array.  The tail of a
    chunk evicted for fewer pages, and on error the pages, go back to PMA
    directly: PMM's state does not record them. *)
Definition uvm_pmm_gpu_pma_evict_pages (page_size num_pages_to_evict phys_start phys_end : Z)
    (mem_type_protected : bool) : M (NV_STATUS * list Z) :=
  let pages_per_chunk := UVM_CHUNK_SIZE_MAX / page_size in
  _ ← assert (UVM_CHUNK_SIZE_MAX mod page_size =? 0);
  _ ← assert (page_size <=? UVM_CHUNK_SIZE_MAX);
  if conf_computing_enabled E && negb mem_type_protected then mret (NV_ERR_INVALID_ARGUMENT, [])
  else pma_evict_loop fuel page_size phys_start phys_end pages_per_chunk num_pages_to_evict [].

(** The wait until eviction of the chunk can start or it is PMA's: [true] when
    it timed out.  Between two looks at the chunk other threads run. *)
Fixpoint wait_evictable (n : nat) (i : nat) : M (bool * bool) :=
  match n with
  | O => fail
  | S n =>
      ch ← get_chunk (Root i);
      eviction_started ←
        (if negb (is_state ch UVM_PMM_GPU_CHUNK_STATE_PMA_OWNED) then
           _ ← assert (uvm_gpu_chunk_is_user ch);
           evictable ← chunk_is_evictable (Root i);
           if evictable : bool then _ ← chunk_start_eviction (Root i); mret true else mret false
         else mret false);
      k ← next_call;
      let '(calls, timeout) := UVM_SPIN_LOOP E k in
      _ ← for_each calls (run_call E uvm_ops fuel);
      if timeout : bool then mret (true, eviction_started)
      else
        ch ← get_chunk (Root i);
        if negb eviction_started && negb (is_state ch UVM_PMM_GPU_CHUNK_STATE_PMA_OWNED)
        then wait_evictable n i
        else mret (false, eviction_started)
  end.

Fixpoint evict_range_loop (n : nat) (addr phys_end : Z) : M NV_STATUS :=
  match n with
  | O => fail
  | S n =>
      if phys_end <? addr then mret NV_OK
      else
        i ← root_chunk_from_address addr;
        '(timeout, _) ← wait_evictable fuel i;
        if timeout : bool then mret NV_ERR_NO_MEMORY
        else
          ch ← get_chunk (Root i);
          if is_state ch UVM_PMM_GPU_CHUNK_STATE_PMA_OWNED
          then evict_range_loop n (addr + UVM_CHUNK_SIZE_MAX) phys_end
          else
            status ← evict_root_chunk E uvm_ops fuel i PMM_CONTEXT_PMA_EVICTION;
            should_inject_error ← uvm_pmm_should_inject_pma_eviction_error;
            if negb (status =? NV_OK) then mret status
            else
              _ ← free_root_chunk i FREE_ROOT_CHUNK_MODE_PMA_EVICTION;
              if should_inject_error : bool then mret NV_ERR_NO_MEMORY
              else evict_range_loop n (addr + UVM_CHUNK_SIZE_MAX) phys_end
  end.

Definition uvm_pmm_gpu_pma_evict_range (phys_begin phys_end : Z) (mem_type_protected : bool)
    : M NV_STATUS :=
  addr ← of_option (UVM_ALIGN_DOWN phys_begin UVM_CHUNK_SIZE_MAX);
  _ ← assert (phys_begin <=? phys_end);
  s ← get_pmm;
  _ ← assert (phys_end <=? Z.of_N (max_allocatable_address s));
  if conf_computing_enabled E && negb mem_type_protected then mret NV_ERR_INVALID_ARGUMENT
  else evict_range_loop fuel addr phys_end.

(** ** Life cycle *)

(** Each round frees a root chunk. *)
Fixpoint release_loop (n : nat) (t : uvm_pmm_gpu_memory_type_t) : M unit :=
  match n with
  | O => fail
  | S n => more ← free_next_available_root_chunk t; if more : bool then release_loop n t else mret tt
  end.

Definition assert_empty (l : list_id) : M unit :=
  s ← get_pmm; assert (match lists s l with [] => true | _ => false end).

Definition release_free_root_chunks : M unit :=
  for_each [UVM_PMM_GPU_MEMORY_TYPE_USER; UVM_PMM_GPU_MEMORY_TYPE_KERNEL] (fun t =>
    s ← get_pmm;
    _ ← release_loop (S (length (root_chunks s))) t;
    for_each [UVM_PMM_LIST_ZERO; UVM_PMM_LIST_NO_ZERO] (fun z =>
      l ← find_free_list t UVM_CHUNK_SIZE_MAX z; assert_empty l)).

Definition free_lists : list list_id := drop 3 all_lists.

(** The final checks on a root chunk. *)
Definition deinit_root_ok (r : uvm_gpu_root_chunk_t) : bool :=
  is_state (chunk r) UVM_PMM_GPU_CHUNK_STATE_PMA_OWNED
  && bool_decide (list_state r = UVM_PMM_ROOT_LIST_NONE).

(** Flushing the queue runs the pending lazy frees.  The check for orphan HMM
    pages, which only looks at kernel pages, is left out. *)
Definition uvm_pmm_gpu_deinit : M unit :=
  s ← get_pmm;
  if negb (initialized s) then mret tt
  else
    _ ← process_lazy_free uvm_ops fuel;
    _ ← assert_empty va_block_lazy_free;
    _ ← release_free_root_chunks;
    _ ← for_each free_lists assert_empty;
    s ← get_pmm;
    _ ← for_each (root_chunks s) (fun r => assert (deinit_root_ok r));
    modify (fun s => s <| root_chunks := [] |> <| initialized := false |>).

(** A root chunk as [uvm_pmm_gpu_init] fills the zeroed array. *)
Definition init_root (gpu : Z) (i : nat) : uvm_gpu_root_chunk_t :=
  mk_root_chunk
    (uvm_gpu_chunk_set_size
       (mk_chunk (Z.of_nat i * UVM_CHUNK_SIZE_MAX) gpu UVM_PMM_GPU_MEMORY_TYPE_USER false false false
          false UVM_PMM_GPU_CHUNK_STATE_PMA_OWNED 0 PAGES_PER_UVM_VA_BLOCK None None None)
       UVM_CHUNK_SIZE_MAX)
    UVM_PMM_ROOT_LIST_NONE 0.

Definition UVM_GPU_MAX_PHYS_MEM : Z := 2 ^ 40.

Definition init_chunk_sizes (t : uvm_pmm_gpu_memory_type_t) : Z :=
  match t with
  | UVM_PMM_GPU_MEMORY_TYPE_USER =>
      Z.lor (Z.lor UVM_CHUNK_SIZE_MAX (mmu_user_chunk_sizes E)) 0
  | UVM_PMM_GPU_MEMORY_TYPE_KERNEL =>
      Z.lor (Z.lor UVM_CHUNK_SIZE_MAX (mmu_kernel_chunk_sizes E)) (uvm_mem_kernel_chunk_sizes E)
  end.

(** The kernel answers three allocations: the caches, the array and the
    bitlocks.  Every failure goes through [uvm_pmm_gpu_deinit]. *)
Definition uvm_pmm_gpu_init : M NV_STATUS :=
  let cleanup status := _ ← uvm_pmm_gpu_deinit; mret status in
  _ ← modify (fun s => s <| lists := fun _ => [] |> <| initialized := true |>
                         <| chunk_sizes := init_chunk_sizes |>);
  _ ← for_each [UVM_PMM_GPU_MEMORY_TYPE_USER; UVM_PMM_GPU_MEMORY_TYPE_KERNEL] (fun t =>
        _ ← assert (init_chunk_sizes t <? UVM_CHUNK_SIZE_INVALID);
        assert (hweight (init_chunk_sizes t) <=? UVM_MAX_CHUNK_SIZES)%nat);
  call ← next_call;
  if negb (kmem E call 0%nat) then cleanup NV_ERR_NO_MEMORY
  else
    s ← get_pmm;
    _ ← assert (Z.of_N (max_allocatable_address s) <? UVM_GPU_MAX_PHYS_MEM);
    up ← of_option (UVM_ALIGN_UP (Z.of_N (max_allocatable_address s)) UVM_CHUNK_SIZE_MAX);
    if negb (kmem E call 1%nat) then cleanup NV_ERR_NO_MEMORY
    else
      _ ← modify (fun s => s <| root_chunks :=
                             init_root (gpu_id s) <$> seq 0 (Z.to_nat (up / UVM_CHUNK_SIZE_MAX)) |>);
      _ ← for_each (seq 0 (Z.to_nat (up / UVM_CHUNK_SIZE_MAX))) (fun i =>
            uvm_pmm_root_list_update_locked (Root i) None UVM_PMM_ROOT_LIST_NONE
              UVM_PMM_ROOT_LIST_OP_INIT);
      if negb (kmem E call 2%nat) then cleanup NV_ERR_NO_MEMORY
      else if mem_info_size E =? 0 then mret NV_OK
      else
        n ← next_call;
        let status := nvUvmInterfaceGetPmaObject E n in
        if negb (status =? NV_OK) then cleanup status
        else if gpu_supports_pma_eviction E then
          n ← next_call;
          let status := nvUvmInterfacePmaRegisterEvictionCallbacks E n in
          if negb (status =? NV_OK) then cleanup status else mret NV_OK
        else mret NV_OK.
End alloc.
