(* ===== verification/PmmInv.v ===== *)
(** * The GPU chunk allocator: coherence of lists and root metadata

    The invariant of the root lists, [coherent], and the proof that every
    operation of the allocator keeps it.  The proofs follow the structure of
    the operations: [keeps m R] says that [m] preserves coherence and that its
    result satisfies [R], and there is one lemma per operation, found by the
    tactic [keep] through the hint database [pmm]. *)

From S2P Require Import Prelude TransitionValidator Bpf PageMask PerfTree UvmBpf PmmTypes PmmLists PmmChunks PmmWalk PmmEvict PmmAlloc.

(** The lists on which a root chunk with a given state may be. *)
Definition home (st : uvm_pmm_root_list_state_t) (l : list_id) : Prop :=
  match st, l with
  | UVM_PMM_ROOT_LIST_FREE, free_list _ _ _ => True
  | UVM_PMM_ROOT_LIST_VA_BLOCK_USED, va_block_used => True
  | UVM_PMM_ROOT_LIST_VA_BLOCK_UNUSED, va_block_unused => True
  | UVM_PMM_ROOT_LIST_LAZY_FREE, va_block_lazy_free => True
  | _, _ => False
  end.

Definition listed (st : uvm_pmm_root_list_state_t) : bool :=
  match st with UVM_PMM_ROOT_LIST_NONE | UVM_PMM_ROOT_LIST_EVICTION => false | _ => true end.

Definition is_root (c : chunk_id) : bool := match c with Root _ => true | Sub _ => false end.
Definition eviction_list (l : list_id) : bool :=
  match l with va_block_used | va_block_unused => true | _ => false end.

(** Every chunk is on at most one list, once, and is alive there; only root
    chunks are on the eviction lists; and the recorded state of a root chunk
    says exactly on which list it is. *)
Record coherent (s : uvm_pmm_gpu_t) : Prop := {
  co_root : forall i r, root_chunks s !! i = Some r ->
    address (chunk r) = Z.of_nat i * UVM_CHUNK_SIZE_MAX /\ log2_size (chunk r) = 21;
  co_sub : forall n ch, chunk_cache s !! n = Some ch -> 0 <= log2_size ch < 21;
  co_nodup : forall l, NoDup (lists s l);
  co_one : forall l l' c, c ∈ lists s l -> c ∈ lists s l' -> l = l';
  co_known : forall l c, c ∈ lists s l -> l ∈ all_lists;
  co_live : forall l c, c ∈ lists s l -> is_Some (chunk_at s c);
  co_evict : forall l c, eviction_list l = true -> c ∈ lists s l -> is_root c = true;
  co_home : forall i r l, root_chunks s !! i = Some r -> Root i ∈ lists s l -> home (list_state r) l;
  co_listed : forall i r, root_chunks s !! i = Some r -> listed (list_state r) = true ->
    exists l, Root i ∈ lists s l;
  co_max : forall i r, root_chunks s !! i = Some r -> address (chunk r) <= Z.of_N (max_allocatable_address s);
}.

(** ** The proof rules *)

Definition keeps {A} (m : M A) (R : A -> Prop) : Prop :=
  forall s a s', m s = Some (a, s') -> coherent s -> coherent s' /\ R a.

Notation kept m := (keeps m (fun _ => True)).

Create HintDb pmm discriminated.

Section rules.
Context {A B : Type}.

Lemma keeps_weaken (m : M A) (R R' : A -> Prop) :
  keeps m R -> (forall a, R a -> R' a) -> keeps m R'.
Proof. intros Hm HR s a s' E C. destruct (Hm _ _ _ E C); auto. Qed.

Lemma keeps_ret (a : A) (R : A -> Prop) : R a -> keeps (mret a) R.
Proof. intros HR s b s' [= <- <-] C. auto. Qed.

Lemma keeps_M_bind (m : M A) (f : A -> M B) R R' :
  keeps m R -> (forall a, R a -> keeps (f a) R') -> keeps (m ≫= f) R'.
Proof.
  intros Hm Hf s b s' E C. unfold mbind, M_bind in E.
  destruct (m s) as [[a s1]|] eqn:E1; [|done].
  destruct (Hm _ _ _ E1 C). by eapply Hf.
Qed.

Lemma keeps_fail (R : A -> Prop) : keeps fail R.
Proof. by intros s a s'. Qed.

Lemma keeps_of_option (o : option A) : keeps (of_option o) (fun a => o = Some a).
Proof. intros s a s' E C. unfold of_option in E. destruct o; naive_solver. Qed.
End rules.

Lemma keeps_assert b : keeps (assert b) (fun _ => b = true).
Proof. intros s a s' E C. unfold assert in E. destruct b; naive_solver. Qed.

Lemma keeps_M_get : keeps get_pmm coherent.
Proof. intros s a s' [= <- <-] C. auto. Qed.

Lemma keeps_modify f : (forall s, coherent s -> coherent (f s)) -> kept (modify f).
Proof. intros Hf s a s' [= <- <-] C. auto. Qed.

Lemma keeps_M_when b m : (b = true -> kept m) -> kept (when b m).
Proof. destruct b; intros Hm; [by apply Hm|by apply keeps_ret]. Qed.

Lemma keeps_for_each {A} (l : list A) body :
  (forall a, a ∈ l -> kept (body a)) -> kept (for_each l body).
Proof.
  induction l as [|a l IH]; intros Hb; cbn; [by apply keeps_ret|].
  eapply keeps_M_bind; [apply Hb; left|]. intros _ _. apply IH. intros b ?. apply Hb. by right.
Qed.

Lemma keeps_get_root i : keeps (get_root i) (fun r => log2_size (chunk r) = 21).
Proof.
  intros s r s' E C. unfold get_root, mbind, M_bind, of_option in E. cbn in E.
  destruct (root_chunks s !! i) eqn:Er; simplify_eq. split; [done|]. by eapply co_root.
Qed.

(** Coherence is about the root chunks, the cache and the lists. *)
Lemma coherent_ext s s' :
  root_chunks s' = root_chunks s -> chunk_cache s' = chunk_cache s -> lists s' = lists s ->
  max_allocatable_address s' = max_allocatable_address s -> coherent s -> coherent s'.
Proof.
  destruct s, s'; cbn. intros -> -> -> -> [C1 C2 C3 C4 C5 C6 C7 C8 C9 C10]. split; assumption.
Qed.

Lemma keeps_next_call : kept next_call.
Proof.
  intros s n s' [= <- <-] C. split; [|done]. by eapply coherent_ext; [| | | |exact C].
Qed.

(** A chunk of the allocator is a root chunk exactly when it has the size of
    one. *)
Lemma coherent_chunk s c ch : coherent s -> chunk_at s c = Some ch ->
  0 <= log2_size ch <= 21 /\ (log2_size ch = 21 <-> is_root c = true).
Proof.
  intros C E. destruct c as [i|n]; cbn in E.
  - apply fmap_Some in E as (r & Hr & ->). destruct (co_root _ C _ _ Hr). cbn. lia.
  - pose proof (co_sub _ C _ _ E). cbn. split; [lia|]. split; [lia|done].
Qed.

Lemma keeps_get_chunk c : keeps (get_chunk c) (fun ch =>
  0 <= log2_size ch <= 21 /\ (log2_size ch = 21 <-> is_root c = true)).
Proof.
  intros s ch s' E C. unfold get_chunk in E. destruct (chunk_at s c) eqn:Ec; simplify_eq.
  split; [done|]. by eapply coherent_chunk.
Qed.

#[export] Hint Resolve keeps_fail keeps_of_option keeps_assert keeps_M_get keeps_get_root
  keeps_next_call keeps_get_chunk : pmm.

(** Symbolic execution of [keeps] goals. *)
Ltac keep_step :=
  match goal with
  | |- keeps _ (fun _ => True) => first [solve [eauto 4 with pmm]
      | eapply keeps_weaken; [solve [eauto 4 with pmm]|done]]
  | |- keeps (_ ≫= _) _ =>
      eapply keeps_M_bind; [first [solve [eauto 4 with pmm] | instantiate (1 := fun _ => True)]|];
      cbv beta; [.. | let a := fresh "a" in let H := fresh "H" in intros a H]
  | |- keeps (mret _) _ => apply keeps_ret
  | |- keeps (when _ _) _ => apply keeps_M_when; intros ?
  | |- keeps (for_each _ _) _ => apply keeps_for_each; intros ? ?
  | |- keeps (modify _) _ => apply keeps_modify; intros ? ?
  | |- keeps (match ?x with _ => _ end) _ => destruct x eqn:?
  | |- True => exact I
  end.
Ltac keep := repeat (keep_step; cbv beta).

(** ** Reads *)

Lemma keeps_get_suballoc c : kept (get_suballoc c).
Proof. unfold get_suballoc. keep. Qed.
#[export] Hint Resolve keeps_get_suballoc : pmm.

Lemma keeps_root_chunk_from_address addr : kept (root_chunk_from_address addr).
Proof. unfold root_chunk_from_address. keep. Qed.
#[export] Hint Resolve keeps_root_chunk_from_address : pmm.

Lemma keeps_root_chunk_from_chunk c : kept (root_chunk_from_chunk c).
Proof. unfold root_chunk_from_chunk. keep. Qed.
#[export] Hint Resolve keeps_root_chunk_from_chunk : pmm.

Lemma keeps_list_empty_node c : kept (list_empty_node c).
Proof. unfold list_empty_node. keep. Qed.
Lemma keeps_list_first_chunk l : kept (list_first_chunk l).
Proof. unfold list_first_chunk. keep. Qed.
#[export] Hint Resolve keeps_list_empty_node keeps_list_first_chunk : pmm.

Lemma known_free_list t i z : (i < UVM_MAX_CHUNK_SIZES)%nat -> free_list t i z ∈ all_lists.
Proof.
  unfold UVM_MAX_CHUNK_SIZES. intros Hi.
  do 6 (destruct i as [|i]; [destruct t, z; vm_compute; set_solver|]). lia.
Qed.

Lemma keeps_find_free_list t size z :
  keeps (find_free_list t size z) (fun l => l ∈ all_lists /\ home UVM_PMM_ROOT_LIST_FREE l
                                            /\ eviction_list l = false).
Proof.
  unfold find_free_list. keep. split; [|done]. apply known_free_list. by apply Nat.ltb_lt.
Qed.
#[export] Hint Resolve keeps_find_free_list : pmm.

Lemma keeps_find_free_list_chunk c :
  keeps (find_free_list_chunk c) (fun l => l ∈ all_lists /\ home UVM_PMM_ROOT_LIST_FREE l
                                            /\ eviction_list l = false).
Proof. unfold find_free_list_chunk. keep. auto with pmm. Qed.
#[export] Hint Resolve keeps_find_free_list_chunk : pmm.

Lemma keeps_chunk_is_root_chunk_pinned c : kept (chunk_is_root_chunk_pinned c).
Proof. unfold chunk_is_root_chunk_pinned. keep. Qed.
Lemma keeps_chunk_is_in_eviction c : kept (chunk_is_in_eviction c).
Proof. unfold chunk_is_in_eviction. keep. Qed.
#[export] Hint Resolve keeps_chunk_is_root_chunk_pinned keeps_chunk_is_in_eviction : pmm.

Lemma keeps_num_subchunks c : kept (num_subchunks c).
Proof. unfold num_subchunks. keep. Qed.
#[export] Hint Resolve keeps_num_subchunks : pmm.
Lemma keeps_next_sibling c : kept (next_sibling c).
Proof. unfold next_sibling. keep. Qed.
Lemma keeps_assert_chunk_mergeable c : kept (assert_chunk_mergeable c).
Proof. unfold assert_chunk_mergeable, assert_child_mergeable. keep. Qed.
Lemma keeps_check_chunk c : kept (check_chunk c).
Proof. unfold check_chunk. keep. Qed.
Lemma keeps_chunk_is_last_allocated_child c : kept (chunk_is_last_allocated_child c).
Proof. unfold chunk_is_last_allocated_child. keep. Qed.
Lemma keeps_assert_chunk_under c a : kept (assert_chunk_under c a).
Proof. unfold assert_chunk_under. keep. Qed.
Lemma keeps_assert_empty l : kept (assert_empty l).
Proof. unfold assert_empty. keep. Qed.
Lemma keeps_root_chunk_has_elevated_page E i : kept (root_chunk_has_elevated_page E i).
Proof. unfold root_chunk_has_elevated_page, uvm_gpu_chunk_to_page. keep. Qed.
#[export] Hint Resolve keeps_next_sibling keeps_assert_chunk_mergeable keeps_check_chunk
  keeps_chunk_is_last_allocated_child keeps_assert_chunk_under keeps_assert_empty
  keeps_root_chunk_has_elevated_page : pmm.

(** ** Writes *)

(** Updates of a chunk leave its address and its size alone. *)
Definition same_place (f : uvm_gpu_chunk_t -> uvm_gpu_chunk_t) : Prop :=
  forall ch, address (f ch) = address ch /\ log2_size (f ch) = log2_size ch.

Lemma set_chunk_at_live s c ch c' :
  is_Some (chunk_at s c) -> is_Some (chunk_at s c') -> is_Some (chunk_at (set_chunk_at s c ch) c').
Proof.
  intros Hc Hc'. destruct c as [i|n], c' as [i'|n']; cbn in *; try done.
  - apply fmap_is_Some in Hc'. apply fmap_is_Some.
    by apply lookup_lt_is_Some; rewrite length_alter; apply lookup_lt_is_Some.
  - destruct (decide (n' = n)) as [->|?]; [rewrite lookup_insert_eq|rewrite lookup_insert_ne]; done.
Qed.

Lemma coherent_set_chunk s c ch ch' :
  coherent s -> chunk_at s c = Some ch -> address ch' = address ch -> log2_size ch' = log2_size ch ->
  coherent (set_chunk_at s c ch').
Proof.
  intros C E Ha Hl.
  assert (Hlive : forall c', is_Some (chunk_at s c') -> is_Some (chunk_at (set_chunk_at s c ch') c'))
    by (intros; apply set_chunk_at_live; eauto).
  destruct C as [C1 C2 C3 C4 C5 C6 C7 C8 C9 C10].
  destruct c as [i|n]; cbn in E.
  - apply fmap_Some in E as (r & Hr & ->).
    assert (Hst : forall j r', root_chunks (set_chunk_at s (Root i) ch') !! j = Some r' ->
              exists r0, root_chunks s !! j = Some r0 /\ list_state r' = list_state r0
                /\ address (chunk r') = address (chunk r0)
                /\ log2_size (chunk r') = log2_size (chunk r0)).
    { intros j r' Hj. cbn in Hj. rewrite list_lookup_alter in Hj.
      destruct (decide (i = j)) as [<-|?]; [rewrite Hr in Hj; simplify_eq/=|]; eauto. }
    split; try done; eauto.
    + intros j r' Hj. destruct (Hst _ _ Hj) as (r0 & H0 & _ & -> & ->). eauto.
    + intros j r' l Hj Hin. destruct (Hst _ _ Hj) as (r0 & H0 & -> & _). eauto.
    + intros j r' Hj Hin. destruct (Hst _ _ Hj) as (r0 & H0 & Heq & _). rewrite Heq in Hin. eauto.
    + intros j r' Hj. destruct (Hst _ _ Hj) as (r0 & H0 & _ & -> & _). eauto.
  - split; try done; eauto.
    intros m ch0 Hm. cbn in Hm. apply lookup_insert_Some in Hm as [[<- <-]|[? Hm]]; [|eauto].
    rewrite Hl. eauto.
Qed.

Lemma keeps_update_chunk c f : same_place f -> kept (update_chunk c f).
Proof.
  intros Hf s [] s' E C. unfold update_chunk, get_chunk, mbind, M_bind in E.
  destruct (chunk_at s c) as [ch|] eqn:Ec; [|done]. injection E as <-.
  split; [|done]. eapply coherent_set_chunk; [done..|apply Hf|apply Hf].
Qed.
#[export] Hint Extern 1 (same_place _) => (intros ?; split; reflexivity) : pmm.
#[export] Hint Resolve keeps_update_chunk : pmm.

Lemma keeps_update_suballoc c f : kept (update_suballoc c f).
Proof. unfold update_suballoc. keep. Qed.
#[export] Hint Resolve keeps_update_suballoc : pmm.

(** The effect of a list operation on [c]: it is afterwards on [dest] only. *)
Definition relisted (c : chunk_id) (dest : option list_id) (s s' : uvm_pmm_gpu_t) : Prop :=
  (forall l, NoDup (lists s' l)) /\
  forall l c', c' ∈ lists s' l <-> (c' <> c /\ c' ∈ lists s l) \/ (c' = c /\ dest = Some l).

(** The combinations of chunk, destination and state the callers use. *)
Definition dest_ok (c : chunk_id) (dest : option list_id) (st : uvm_pmm_root_list_state_t) : Prop :=
  match dest with
  | None => listed st = false
  | Some l => home st l /\ l ∈ all_lists /\ (eviction_list l = true -> is_root c = true)
  end.

(** The root's recorded state after the operation; a subchunk has none. *)
Definition restated (c : chunk_id) (st : uvm_pmm_root_list_state_t) (s s' : uvm_pmm_gpu_t) : Prop :=
  chunk_cache s' = chunk_cache s /\ max_allocatable_address s' = max_allocatable_address s /\
  forall j, exists g : Z -> Z, root_chunks s' !! j =
    (fun r => if decide (c = Root j)
              then r <| list_generation := g (list_generation r) |> <| list_state := st |>
              else r) <$> root_chunks s !! j.

Lemma coherent_relisted c dest st s s' :
  coherent s -> is_Some (chunk_at s c) -> dest_ok c dest st -> relisted c dest s s' ->
  restated c st s s' -> coherent s'.
Proof.
  intros [C1 C2 C3 C4 C5 C6 C7 C8 C9 C10] Hlive Hd [Hnd Hin] (Hcache & Hmax & Hroots).
  assert (Hr : forall j r', root_chunks s' !! j = Some r' -> exists r, root_chunks s !! j = Some r
            /\ chunk r' = chunk r /\ list_state r' = if decide (c = Root j) then st else list_state r).
  { intros j r' Hj. destruct (Hroots j) as [g Hg]. rewrite Hg in Hj.
    apply fmap_Some in Hj as (r & Hj & ->). exists r. by destruct (decide (c = Root j)). }
  assert (Hat : forall c', is_Some (chunk_at s c') -> is_Some (chunk_at s' c')).
  { intros [j|n] H; cbn in *; [|by rewrite Hcache].
    destruct (Hroots j) as [g ->]. apply fmap_is_Some. apply fmap_is_Some. by apply fmap_is_Some in H. }
  split.
  - intros j r' Hj. destruct (Hr _ _ Hj) as (r & ? & -> & _). eauto.
  - by rewrite Hcache.
  - done.
  - intros l l' c' H H'. apply Hin in H as [[? H]|[-> H]]; apply Hin in H' as [[? H']|[? H']];
      naive_solver.
  - intros l c' H. apply Hin in H as [[? H]|[-> H]]; [eauto|]. subst dest. apply Hd.
  - intros l c' H. apply Hin in H as [[? H]|[-> H]]; eauto.
  - intros l c' He H. apply Hin in H as [[? H]|[-> H]]; [eauto|]. subst dest. naive_solver.
  - intros j r' l Hj H. destruct (Hr _ _ Hj) as (r & Hjr & _ & ->).
    apply Hin in H as [[Hne H]|[<- H]].
    + rewrite decide_False by congruence. eauto.
    + rewrite decide_True by done. subst dest. apply Hd.
  - intros j r' Hj H. destruct (Hr _ _ Hj) as (r & Hjr & _ & Heq). rewrite Heq in H.
    destruct (decide (c = Root j)) as [->|?].
    + destruct dest as [l|]; [|by rewrite Hd in H]. exists l. apply Hin. auto.
    + destruct (C9 _ _ Hjr H) as [l Hl]. exists l. apply Hin. auto.
  - intros j r' Hj. destruct (Hr _ _ Hj) as (r & ? & -> & _). rewrite Hmax. eauto.
Qed.

(** ** The root-list mutation point *)

#[local] Arguments on_list : simpl never.

Lemma on_list_spec s c : coherent s -> on_list s c = true <-> exists l, c ∈ lists s l.
Proof.
  intros C. unfold on_list. rewrite existsb_exists. split.
  - intros (l & _ & H). exists l. by apply bool_decide_eq_true in H.
  - intros (l & H). exists l. split; [|by apply bool_decide_eq_true].
    apply list_elem_of_In. by eapply co_known.
Qed.

Lemma off_lists s c l : coherent s -> on_list s c = false -> c ∉ lists s l.
Proof. intros C H Hin. assert (on_list s c = true) by (apply on_list_spec; eauto). congruence. Qed.

Definition unlink (c : chunk_id) (s : uvm_pmm_gpu_t) : uvm_pmm_gpu_t :=
  s <| lists := fun l => filter (not_this c) (lists s l) |>.

Lemma unlink_off c s : on_list (unlink c s) c = false.
Proof.
  apply not_true_iff_false. unfold on_list. rewrite existsb_exists. intros (l & _ & H).
  apply bool_decide_eq_true in H. cbn in H. by apply list_elem_of_filter in H as [[] _].
Qed.

Lemma relisted_unlink c s : coherent s -> relisted c None s (unlink c s).
Proof.
  intros C. split; [intros l; cbn; apply NoDup_filter, C|]. intros l c'. cbn.
  rewrite list_elem_of_filter. unfold not_this. naive_solver.
Qed.

Lemma relisted_init c s : coherent s -> on_list s c = false -> relisted c None s s.
Proof.
  intros C Hoff. split; [apply C|]. intros l c'. split; [|naive_solver].
  intros H. left. split; [|done]. intros ->. by eapply off_lists.
Qed.

(** Adding [c] at either end of a list, once it is off all lists. *)
Definition placed (head : bool) (c : chunk_id) (l : list_id) (s : uvm_pmm_gpu_t) : uvm_pmm_gpu_t :=
  set_list l (if head then c :: lists s l else lists s l ++ [c]) s.

Lemma relisted_placed c l s s1 b :
  relisted c None s s1 -> relisted c (Some l) s (placed b c l s1).
Proof.
  intros [Hnd Hin].
  assert (Hoff : forall l', c ∉ lists s1 l') by (intros l' H; apply Hin in H; naive_solver).
  split.
  - intros l'. cbn. destruct (decide (l' = l)) as [->|]; [|done].
    destruct b; [by apply NoDup_cons|]. apply NoDup_app. split; [done|].
    split; [|apply NoDup_singleton]. intros c' H ->%list_elem_of_singleton. by eapply Hoff.
  - intros l' c'. cbn. destruct (decide (l' = l)) as [->|].
    + destruct b; [rewrite elem_of_cons|rewrite elem_of_app, list_elem_of_singleton];
        rewrite Hin; naive_solver.
    + rewrite Hin. naive_solver.
Qed.

(** The list operations in terms of [unlink] and [placed]. *)
Definition list_effect (op : uvm_pmm_root_list_op_t) (c : chunk_id) (dest : option list_id)
    (s : uvm_pmm_gpu_t) : uvm_pmm_gpu_t :=
  match op, dest with
  | UVM_PMM_ROOT_LIST_OP_DEL_INIT, _ => unlink c s
  | UVM_PMM_ROOT_LIST_OP_ADD_TAIL, Some l => placed false c l s
  | UVM_PMM_ROOT_LIST_OP_MOVE_HEAD, Some l => placed true c l (unlink c s)
  | UVM_PMM_ROOT_LIST_OP_MOVE_TAIL, Some l => placed false c l (unlink c s)
  | _, _ => s
  end.

Definition list_op_ok (op : uvm_pmm_root_list_op_t) (c : chunk_id) (dest : option list_id)
    (s : uvm_pmm_gpu_t) : bool :=
  match op with
  | UVM_PMM_ROOT_LIST_OP_INIT => is_null dest && negb (on_list s c)
  | UVM_PMM_ROOT_LIST_OP_DEL_INIT => is_null dest
  | UVM_PMM_ROOT_LIST_OP_ADD_TAIL => negb (is_null dest) && negb (on_list s c)
  | UVM_PMM_ROOT_LIST_OP_MOVE_HEAD | UVM_PMM_ROOT_LIST_OP_MOVE_TAIL => negb (is_null dest)
  end.

Lemma relisted_effect op c dest s :
  coherent s -> list_op_ok op c dest s = true -> relisted c dest s (list_effect op c dest s).
Proof.
  intros C H. destruct op, dest as [l|]; cbn in H; try done; cbn [list_effect].
  - apply relisted_init; [done|]. by destruct (on_list s c).
  - by apply relisted_unlink.
  - apply relisted_placed, relisted_init; [done|]. by destruct (on_list s c).
  - by apply relisted_placed, relisted_unlink.
  - by apply relisted_placed, relisted_unlink.
Qed.

(** The metadata update of a root chunk. *)
Definition set_state (c : chunk_id) (st : uvm_pmm_root_list_state_t) (s : uvm_pmm_gpu_t)
    : uvm_pmm_gpu_t :=
  match c with
  | Root i => s <| root_chunks :=
      alter (fun r => r <| list_generation :=
                             if bool_decide (list_state r = st) then list_generation r
                             else NvU64 (list_generation r + 1) |>
                        <| list_state := st |>) i (root_chunks s) |>
  | Sub _ => s
  end.

Lemma restated_set_state c st s : restated c st s (set_state c st s).
Proof.
  destruct c as [i|n]; (split_and!; [done|done|]); intros j; cbn [set_state].
  - destruct (root_chunks s !! i) as [r|] eqn:Hi.
    + exists (fun _ => if bool_decide (list_state r = st) then list_generation r
                       else NvU64 (list_generation r + 1)).
      cbn. rewrite list_lookup_alter. destruct (decide (i = j)) as [<-|?].
      * rewrite Hi. cbn. by rewrite decide_True.
      * destruct (root_chunks s !! j); cbn; [|done]. by rewrite decide_False by congruence.
    + exists id. cbn. rewrite list_lookup_alter. destruct (decide (i = j)) as [<-|?].
      * by rewrite Hi.
      * destruct (root_chunks s !! j); cbn; [|done]. by rewrite decide_False by congruence.
  - exists id. destruct (root_chunks s !! j); cbn; [|done]. by rewrite decide_False.
Qed.

Lemma root_from_root s i r :
  coherent s -> root_chunks s !! i = Some r -> root_chunk_from_chunk (Root i) s = Some (i, s).
Proof.
  intros C Hr. destruct (co_root _ C _ _ Hr) as [Ha _]. pose proof (co_max _ C _ _ Hr) as Hm.
  unfold root_chunk_from_chunk, get_chunk, mbind, M_bind. cbn. rewrite Hr. cbn.
  unfold root_chunk_from_address, mbind, M_bind, get_pmm, of_option, assert, mret, M_ret.
  apply Z.leb_le in Hm. rewrite Hm. rewrite Ha. rewrite Z.div_mul, Nat2Z.id, Hr by done.
  change UVM_CHUNK_SIZE_MAX with (2 ^ 21). rewrite align_down_pow2, Z.div_mul by lia.
  change UVM_CHUNK_SIZE_MAX with (2 ^ 21) in Ha. by rewrite Ha, Z.mul_comm, Z.eqb_refl.
Qed.

Lemma root_size s i r : coherent s -> root_chunks s !! i = Some r ->
  chunk_is_root_chunk (chunk r) = true.
Proof.
  intros C Hr. destruct (co_root _ C _ _ Hr) as [_ Hl].
  unfold chunk_is_root_chunk, uvm_gpu_chunk_get_size. by rewrite Hl.
Qed.

Lemma sub_size s n ch : coherent s -> chunk_cache s !! n = Some ch ->
  chunk_is_root_chunk ch = false.
Proof.
  intros C Hr. pose proof (co_sub _ C _ _ Hr).
  unfold chunk_is_root_chunk, uvm_gpu_chunk_get_size. rewrite Z.shiftl_1_l.
  change UVM_CHUNK_SIZE_MAX with (2 ^ 21). apply Z.eqb_neq.
  assert (2 ^ log2_size ch < 2 ^ 21) by (apply Z.pow_lt_mono_r; lia). lia.
Qed.

(** The list operation of the mutation point. *)
Definition list_op (op : uvm_pmm_root_list_op_t) (c : chunk_id) (destination : option list_id)
    : M unit :=
  match op with
  | UVM_PMM_ROOT_LIST_OP_INIT => _ ← assert (is_null destination); INIT_LIST_HEAD c
  | UVM_PMM_ROOT_LIST_OP_DEL_INIT => _ ← assert (is_null destination); list_del_init c
  | UVM_PMM_ROOT_LIST_OP_ADD_TAIL => d ← of_option destination; list_add_tail c d
  | UVM_PMM_ROOT_LIST_OP_MOVE_HEAD => d ← of_option destination; list_move c d
  | UVM_PMM_ROOT_LIST_OP_MOVE_TAIL => d ← of_option destination; list_move_tail c d
  end.

Lemma list_op_run op c dest s :
  list_op op c dest s =
    if list_op_ok op c dest s then Some (tt, list_effect op c dest s) else None.
Proof.
  unfold list_op, mbind, M_bind, assert, of_option, INIT_LIST_HEAD, list_del_init, list_move,
    list_move_tail, list_add, list_add_tail, get_pmm, mbind, M_bind, assert.
  pose proof (unlink_off c s) as Hoff. unfold unlink in Hoff.
  destruct op, dest as [l|]; cbn; try done; try (by destruct (on_list s c)); by rewrite Hoff.
Qed.

(** What the mutation point does, for any chunk of a coherent allocator. *)
Lemma update_locked_run s c ch dest st op :
  coherent s -> chunk_at s c = Some ch ->
  uvm_pmm_root_list_update_locked c dest st op s =
    if list_op_ok op c dest s then Some (tt, set_state c st (list_effect op c dest s)) else None.
Proof.
  intros C Hc. unfold uvm_pmm_root_list_update_locked. fold (list_op op c dest).
  unfold get_chunk, mbind, M_bind. rewrite Hc.
  destruct c as [i|n].
  - cbn in Hc. apply fmap_Some in Hc as (r & Hr & ->).
    erewrite root_size, root_from_root by done. unfold assert. rewrite bool_decide_true by done.
    unfold mret, M_ret. rewrite list_op_run. destruct (list_op_ok op (Root i) dest s); [|done].
    unfold set_root_list_state, get_root, get_pmm, of_option, mbind, M_bind, modify.
    assert (Hk : root_chunks (list_effect op (Root i) dest s) = root_chunks s)
      by (by destruct op, dest).
    by rewrite Hk, Hr.
  - cbn in Hc. erewrite sub_size by done. unfold mret, M_ret. rewrite list_op_run.
    by destruct (list_op_ok op (Sub n) dest s).
Qed.

Lemma update_locked_coherent s c ch dest st op :
  coherent s -> chunk_at s c = Some ch -> dest_ok c dest st -> list_op_ok op c dest s = true ->
  coherent (set_state c st (list_effect op c dest s)).
Proof.
  intros C Hc Hd Hop. apply (coherent_relisted c dest st s); [done|eauto|done| |].
  - destruct (relisted_effect op c dest s C Hop) as [H1 H2]. by destruct c.
  - destruct (restated_set_state c st (list_effect op c dest s)) as (H1 & Hm & H2).
    assert (Hk : root_chunks (list_effect op c dest s) = root_chunks s) by (by destruct op, dest).
    assert (Hk' : chunk_cache (list_effect op c dest s) = chunk_cache s) by (by destruct op, dest).
    assert (Hk2 : max_allocatable_address (list_effect op c dest s) = max_allocatable_address s)
      by (by destruct op, dest).
    split_and!; [by rewrite H1|by rewrite Hm|]. intros j. destruct (H2 j) as [g Hg]. exists g. by rewrite Hg, Hk.
Qed.

Lemma keeps_update_locked c dest st op :
  dest_ok c dest st -> kept (uvm_pmm_root_list_update_locked c dest st op).
Proof.
  intros Hd s [] s' H C. split; [|done].
  destruct (chunk_at s c) as [ch|] eqn:Hc.
  - erewrite update_locked_run in H by done.
    destruct (list_op_ok op c dest s) eqn:Hop; [|done]. injection H as <-.
    by eapply update_locked_coherent.
  - unfold uvm_pmm_root_list_update_locked, mbind, M_bind, get_chunk in H. by rewrite Hc in H.
Qed.

Lemma dest_ok_none c st : listed st = false -> dest_ok c None st.
Proof. done. Qed.
Lemma dest_ok_lazy c : dest_ok c (Some va_block_lazy_free) UVM_PMM_ROOT_LIST_LAZY_FREE.
Proof. split_and!; [done|by do 2 right; left|done]. Qed.
Lemma dest_ok_used c :
  is_root c = true -> dest_ok c (Some va_block_used) UVM_PMM_ROOT_LIST_VA_BLOCK_USED.
Proof. intros ?. split_and!; [done|by right; left|done]. Qed.
Lemma dest_ok_unused c :
  is_root c = true -> dest_ok c (Some va_block_unused) UVM_PMM_ROOT_LIST_VA_BLOCK_UNUSED.
Proof. intros ?. split_and!; [done|by left|done]. Qed.
Lemma dest_ok_free c l :
  l ∈ all_lists /\ home UVM_PMM_ROOT_LIST_FREE l /\ eviction_list l = false ->
  dest_ok c (Some l) UVM_PMM_ROOT_LIST_FREE.
Proof. intros (? & ? & Hl). split_and!; [done..|]. by rewrite Hl. Qed.
#[export] Hint Resolve keeps_update_locked dest_ok_none dest_ok_lazy dest_ok_used dest_ok_unused
  dest_ok_free : pmm.
#[export] Hint Extern 0 (listed _ = false) => reflexivity : pmm.
#[export] Hint Extern 0 (is_root (Root _) = true) => reflexivity : pmm.

#[local] Arguments dest_ok : simpl never.

(** ** Policies *)

Lemma keeps_validate_reorder c d :
  keeps (pmm_bpf_validate_reorder_locked c d) (fun r =>
    is_apply r.1.1 = true -> dest_ok c r.1.2 r.2 /\ d <> None).
Proof.
  unfold pmm_bpf_validate_reorder_locked. keep; cbn; try done.
  all: intros _; split; [|done].
  all: match goal with H : negb (bool_decide (_ = Root _)) = false |- _ =>
         apply negb_false_iff, bool_decide_eq_true in H; subst end.
  all: eauto with pmm.
Qed.
#[export] Hint Resolve keeps_validate_reorder : pmm.

Lemma keeps_commit_reorder c d : kept (pmm_bpf_commit_reorder_locked c d).
Proof.
  unfold pmm_bpf_commit_reorder_locked.
  eapply keeps_M_bind; [apply keeps_validate_reorder|]. intros [[r dest] st] H. cbn in H.
  destruct (is_apply r); cbn [negb]; [|keep]. destruct (H eq_refl). keep.
Qed.
#[export] Hint Resolve keeps_commit_reorder : pmm.

Lemma keeps_apply_access c d a : kept (uvm_pmm_bpf_apply_access_locked c d a).
Proof. unfold uvm_pmm_bpf_apply_access_locked. keep. Qed.
Lemma keeps_apply_activate c d : kept (uvm_pmm_bpf_apply_activate_locked c d).
Proof. unfold uvm_pmm_bpf_apply_activate_locked. keep. Qed.
#[export] Hint Resolve keeps_apply_access keeps_apply_activate : pmm.

Lemma keeps_pmm_decision_ctx c : kept (pmm_decision_ctx c).
Proof. unfold pmm_decision_ctx. keep. Qed.
#[export] Hint Resolve keeps_pmm_decision_ctx : pmm.

Section policy.
Context (uvm_ops : nat -> option pmm_ops).

Lemma keeps_deref : kept (deref_uvm_ops uvm_ops).
Proof. unfold deref_uvm_ops. keep. Qed.
#[local] Hint Resolve keeps_deref : pmm.

Lemma keeps_block_activate c : kept (uvm_bpf_call_gpu_block_activate uvm_ops c).
Proof. unfold uvm_bpf_call_gpu_block_activate. keep. Qed.
Lemma keeps_block_access c : kept (uvm_bpf_call_gpu_block_access uvm_ops c).
Proof. unfold uvm_bpf_call_gpu_block_access. keep. Qed.

(** A callback that can call no kfunc changes nothing. *)
Lemma bpf_run_inert {S} (p : bpf_prog Empty_set) (s : S) f :
  (bpf_run f p s).1 = s.
Proof. revert s. induction p as [r|k p IH]; intros s; cbn; [done|destruct k]. Qed.

Lemma keeps_evict_prepare : kept (uvm_bpf_call_gpu_evict_prepare uvm_ops).
Proof.
  unfold uvm_bpf_call_gpu_evict_prepare. keep.
  match goal with H : bpf_run _ _ _ = (?s, _) |- coherent ?s =>
    let H' := fresh in pose proof (f_equal fst H) as H'; rewrite bpf_run_inert in H'; by subst end.
Qed.
End policy.
#[export] Hint Resolve keeps_block_activate keeps_block_access keeps_evict_prepare : pmm.

(** ** Chunks *)

Lemma keeps_chunk_pin c : kept (chunk_pin c).
Proof. unfold chunk_pin. keep. Qed.
Lemma keeps_chunk_unpin c st : kept (chunk_unpin c st).
Proof. unfold chunk_unpin. keep. Qed.
Lemma keeps_set_in_eviction c b : kept (uvm_gpu_chunk_set_in_eviction c b).
Proof. unfold uvm_gpu_chunk_set_in_eviction. keep. Qed.
#[export] Hint Resolve keeps_chunk_pin keeps_chunk_unpin keeps_set_in_eviction : pmm.

(** Freeing the object of a subchunk that is on no list. *)
Lemma coherent_delete s n : coherent s -> on_list s (Sub n) = false ->
  coherent (s <| chunk_cache := delete n (chunk_cache s) |>).
Proof.
  intros C Hoff. pose proof (fun l => off_lists s (Sub n) l C Hoff) as Hl.
  destruct C as [C1 C2 C3 C4 C5 C6 C7 C8 C9 C10]. split; try done.
  - intros m ch Hm. cbn in Hm. apply lookup_delete_Some in Hm as [_ Hm]. eauto.
  - intros l [i|m] Hin; [exact (C6 _ _ Hin)|]. cbn.
    rewrite lookup_delete_ne by (intros <-; by eapply Hl). exact (C6 _ _ Hin).
Qed.

Lemma keeps_free_subchunk (d : chunk_id) (b : uvm_gpu_chunk_t -> bool) :
  kept (subchunk ← get_chunk d; unlinked ← list_empty_node d; _ ← assert unlinked;
        _ ← assert (b subchunk);
        match d with
        | Sub n => modify (fun s => s <| chunk_cache := delete n (chunk_cache s) |>)
        | Root _ => fail
        end).
Proof.
  intros s [] s' H C. split; [|done]. revert H.
  unfold mbind, M_bind, get_chunk. destruct (chunk_at s d) as [ch|]; [|done].
  unfold list_empty_node, get_pmm, mret, M_ret, mbind, M_bind, assert.
  destruct (on_list s d) eqn:Hoff; [done|]; cbn [negb]. destruct (b ch); [|done].
  destruct d; [done|]. intros [= <-]. by apply coherent_delete.
Qed.

Lemma keeps_merge_gpu_chunk c : kept (merge_gpu_chunk c).
Proof.
  unfold merge_gpu_chunk.
  repeat (match goal with |- kept (for_each _ _) =>
            apply keeps_for_each; intros; apply keeps_free_subchunk end || keep_step).
Qed.
#[export] Hint Resolve keeps_merge_gpu_chunk : pmm.

(** A subchunk is smaller than its parent, so never the size of a root. *)
Lemma prev_size_smaller sizes k size :
  0 <= k <= 21 -> uvm_chunk_find_prev_size sizes (Z.shiftl 1 k) = Some size ->
  size <> UVM_CHUNK_SIZE_INVALID -> 0 <= Z.log2 size < 21.
Proof.
  intros Hk H Hne. unfold uvm_chunk_find_prev_size in H.
  destruct (is_power_of_2 _); [|done]. destruct (negb _); [|done]. injection H as <-.
  split; [apply Z.log2_nonneg|]. destruct (Z.land _ _ =? 0) eqn:Hz; [done|].
  apply Z.eqb_neq in Hz. rewrite !Z.shiftl_1_l in *.
  change (2 ^ k - 1) with (Z.pred (2 ^ k)) in *. rewrite <- Z.ones_equiv in *.
  rewrite Z.land_ones in * by lia.
  pose proof (Z.mod_pos_bound sizes (2 ^ k) ltac:(by apply Z.pow_pos_nonneg; lia)) as Hm.
  rewrite Z.log2_pow2 by apply Z.log2_nonneg.
  apply Z.log2_lt_pow2; [lia|].
  assert (2 ^ k <= 2 ^ 21) by (apply Z.pow_le_mono_r; lia). lia.
Qed.

Lemma coherent_insert s n ch : coherent s -> 0 <= log2_size ch < 21 ->
  coherent (s <| chunk_cache := <[n := ch]> (chunk_cache s) |>).
Proof.
  intros [C1 C2 C3 C4 C5 C6 C7 C8 C9 C10] Hch. split; try done.
  - intros m ch' Hm. cbn in Hm. apply lookup_insert_Some in Hm as [[<- <-]|[_ Hm]]; eauto.
  - intros l [i|m] Hin; [exact (C6 _ _ Hin)|]. cbn. specialize (C6 _ _ Hin). cbn in C6.
    destruct (decide (n = m)) as [->|]; [by rewrite lookup_insert_eq|by rewrite lookup_insert_ne].
Qed.

Lemma new_subchunk_size ch c size i : log2_size (new_subchunk ch c size i) = Z.log2 size.
Proof. unfold new_subchunk. by destruct (_ && _). Qed.

Lemma keeps_split_gpu_chunk E c : kept (split_gpu_chunk E c).
Proof.
  unfold split_gpu_chunk. keep.
  all: apply coherent_insert; [done|]; rewrite new_subchunk_size.
  all: eapply prev_size_smaller; [|eassumption|]; [tauto|].
  all: match goal with H : negb (?a =? ?b) = true |- ?a <> ?b =>
         apply negb_true_iff, Z.eqb_neq in H; exact H end.
Qed.
#[export] Hint Resolve keeps_split_gpu_chunk : pmm.

Lemma keeps_first_free_root t : kept (first_free_root t).
Proof. unfold first_free_root. keep. Qed.
Lemma keeps_free_root_chunk i mode : kept (free_root_chunk i mode).
Proof. unfold free_root_chunk. keep. Qed.
#[export] Hint Resolve keeps_first_free_root keeps_free_root_chunk : pmm.
Lemma keeps_free_next_available_root_chunk t : kept (free_next_available_root_chunk t).
Proof. unfold free_next_available_root_chunk. keep. Qed.
#[export] Hint Resolve keeps_free_next_available_root_chunk : pmm.

Section chunks.
Context (E : pmm_env) (uvm_ops : nat -> option pmm_ops) (fuel : nat).

Lemma keeps_update_lists c : kept (chunk_update_lists_locked uvm_ops c).
Proof. unfold chunk_update_lists_locked. keep. Qed.
#[local] Hint Resolve keeps_update_lists : pmm.

Lemma keeps_gpu_unpin_temp c block b : kept (gpu_unpin_temp uvm_ops c block b).
Proof. unfold gpu_unpin_temp. keep. Qed.
Lemma keeps_chunk_free_locked c : kept (chunk_free_locked uvm_ops c).
Proof. unfold chunk_free_locked. keep. Qed.
#[local] Hint Resolve keeps_chunk_free_locked : pmm.
Lemma keeps_try_chunk_free c : kept (try_chunk_free uvm_ops c).
Proof. unfold try_chunk_free. keep. Qed.
#[local] Hint Resolve keeps_try_chunk_free : pmm.
Lemma keeps_free_or_prepare_for_merge c : kept (free_or_prepare_for_merge uvm_ops c).
Proof. unfold free_or_prepare_for_merge. keep. Qed.
#[local] Hint Resolve keeps_free_or_prepare_for_merge : pmm.

Lemma keeps_free_chunk_with_merges c : kept (free_chunk_with_merges uvm_ops c).
Proof.
  unfold free_chunk_with_merges. generalize MAX_CHUNK_LEVELS as n. intros n. revert c.
  induction n as [|n IH]; intros c; cbn [free_chunk_with_merges_loop]; keep; apply IH.
Qed.
#[local] Hint Resolve keeps_free_chunk_with_merges : pmm.

Lemma keeps_free_chunk c : kept (free_chunk uvm_ops c).
Proof. unfold free_chunk. keep. Qed.
#[local] Hint Resolve keeps_free_chunk : pmm.
Lemma keeps_uvm_pmm_gpu_free c : kept (uvm_pmm_gpu_free uvm_ops c).
Proof. unfold uvm_pmm_gpu_free. keep. Qed.

Lemma keeps_find_free_chunk_in z l : kept (find_free_chunk_in E z l).
Proof. induction l as [|c l IH]; cbn [find_free_chunk_in]; keep; apply IH. Qed.
#[local] Hint Resolve keeps_find_free_chunk_in : pmm.
Lemma keeps_find_free_chunk_locked t size z : kept (find_free_chunk_locked E t size z).
Proof. unfold find_free_chunk_locked. keep. Qed.
#[local] Hint Resolve keeps_find_free_chunk_locked : pmm.
Lemma keeps_claim_free_chunk t size : kept (claim_free_chunk E uvm_ops t size).
Proof. unfold claim_free_chunk. keep. Qed.

Lemma keeps_init_root_chunk t i st z : kept (init_root_chunk E uvm_ops t i st z).
Proof. unfold init_root_chunk. keep. Qed.
#[local] Hint Resolve keeps_init_root_chunk : pmm.
Lemma keeps_alloc_root_chunk t flags : kept (alloc_root_chunk E uvm_ops t flags).
Proof. unfold alloc_root_chunk, init_pma_page. keep. Qed.

(** ** Walks *)

Lemma keeps_chunk_walk {D} order (func : D -> chunk_id -> M (NV_STATUS * D)) start d :
  (forall d c, kept (func d c)) -> kept (chunk_walk fuel start func d order).
Proof.
  intros Hf. unfold chunk_walk.
  assert (Hup : forall n curr d, kept (walk_up order func n start curr d)).
  { induction n as [|n IH]; intros curr d'; cbn [walk_up]; keep; auto. }
  assert (Hstep : forall n curr d, kept (walk_step order func n start curr d))
    by (intros; unfold walk_step; keep; auto).
  generalize start at 2 as curr. revert d.
  induction fuel as [|n IH]; intros d' curr; cbn [walk_loop]; keep; auto.
Qed.

Lemma keeps_split_walk_func args c : kept (split_walk_func E args c).
Proof. unfold split_walk_func. keep. Qed.
Lemma keeps_merge_walk_func d c : kept (merge_walk_func d c).
Proof. unfold merge_walk_func. keep. Qed.
Lemma keeps_get_subchunks_walk_func args c : kept (get_subchunks_walk_func args c).
Proof. unfold get_subchunks_walk_func. keep. Qed.
#[local] Hint Resolve keeps_chunk_walk keeps_split_walk_func keeps_merge_walk_func
  keeps_get_subchunks_walk_func : pmm.

Lemma keeps_merge_chunk_locked c : kept (uvm_pmm_gpu_merge_chunk_locked fuel c).
Proof. unfold uvm_pmm_gpu_merge_chunk_locked, chunk_walk_post_order. keep. Qed.
#[local] Hint Resolve keeps_merge_chunk_locked : pmm.
Lemma keeps_merge_chunk c : kept (uvm_pmm_gpu_merge_chunk fuel c).
Proof. apply keeps_merge_chunk_locked. Qed.
Lemma keeps_split_chunk c size : kept (uvm_pmm_gpu_split_chunk E fuel c size).
Proof. unfold uvm_pmm_gpu_split_chunk, chunk_walk_pre_order. keep. Qed.
Lemma keeps_get_subchunks p i n : kept (uvm_pmm_gpu_get_subchunks fuel p i n).
Proof. unfold uvm_pmm_gpu_get_subchunks, chunk_walk_post_order. keep. Qed.
End chunks.
#[export] Hint Resolve keeps_update_lists keeps_gpu_unpin_temp keeps_chunk_free_locked
  keeps_try_chunk_free keeps_free_or_prepare_for_merge keeps_free_chunk_with_merges keeps_free_chunk
  keeps_uvm_pmm_gpu_free keeps_find_free_chunk_locked keeps_claim_free_chunk keeps_init_root_chunk
  keeps_alloc_root_chunk keeps_chunk_walk keeps_merge_chunk_locked keeps_merge_chunk
  keeps_split_chunk keeps_get_subchunks : pmm.

(** ** Eviction *)

Lemma size_is_root k (P : Prop) :
  0 <= k -> (k = 21 <-> P) -> (Z.shiftl 1 k =? UVM_CHUNK_SIZE_MAX) = true -> P.
Proof.
  intros Hk HP H. apply HP. apply Z.eqb_eq in H. rewrite Z.shiftl_1_l in H.
  change UVM_CHUNK_SIZE_MAX with (2 ^ 21) in H. by apply Z.pow_inj_r in H.
Qed.

Lemma keeps_chunk_is_evictable c : kept (chunk_is_evictable c).
Proof. unfold chunk_is_evictable. keep. Qed.
#[export] Hint Resolve keeps_chunk_is_evictable : pmm.
Lemma keeps_chunk_start_eviction c : kept (chunk_start_eviction c).
Proof. unfold chunk_start_eviction. keep. Qed.
Lemma keeps_devmem_page_free c : kept (devmem_page_free c).
Proof. unfold devmem_page_free. keep. Qed.
Lemma keeps_mark_chunk_evicted c : kept (uvm_pmm_gpu_mark_chunk_evicted c).
Proof. unfold uvm_pmm_gpu_mark_chunk_evicted. keep. Qed.
Lemma keeps_set_page_index c i : kept (set_page_index c i).
Proof. unfold set_page_index. keep. Qed.
Lemma keeps_pin_free_chunks_func d c : kept (pin_free_chunks_func d c).
Proof. unfold pin_free_chunks_func. keep. Qed.
Lemma keeps_find_and_retain d c : kept (find_and_retain_va_block_to_evict d c).
Proof. unfold find_and_retain_va_block_to_evict. keep. Qed.
Lemma keeps_should_inject : kept uvm_pmm_should_inject_pma_eviction_error.
Proof.
  unfold uvm_pmm_should_inject_pma_eviction_error. keep. by eapply coherent_ext; [..|eassumption].
Qed.
#[export] Hint Resolve keeps_chunk_start_eviction keeps_devmem_page_free keeps_mark_chunk_evicted
  keeps_set_page_index keeps_pin_free_chunks_func keeps_find_and_retain keeps_should_inject : pmm.

Section evict.
Context (E : pmm_env) (uvm_ops : nat -> option pmm_ops) (fuel : nat).

Lemma keeps_update_eviction_list c l st b :
  (is_root c = true -> dest_ok c (Some l) st) ->
  kept (root_chunk_update_eviction_list uvm_ops c l st b).
Proof.
  intros Hd. unfold root_chunk_update_eviction_list.
  eapply keeps_M_bind; [apply keeps_get_chunk|]. intros ch [Hk Hr].
  eapply keeps_M_bind; [apply keeps_assert|]. intros [] Hs.
  assert (is_root c = true) by (eapply size_is_root; [|exact Hr|exact Hs]; lia).
  keep.
Qed.

Lemma keeps_mark_used c : kept (uvm_pmm_gpu_mark_root_chunk_used uvm_ops c).
Proof. apply keeps_update_eviction_list. apply dest_ok_used. Qed.
Lemma keeps_mark_unused c : kept (uvm_pmm_gpu_mark_root_chunk_unused uvm_ops c).
Proof. apply keeps_update_eviction_list. apply dest_ok_unused. Qed.

Lemma keeps_pick : kept (pick_root_chunk_to_evict uvm_ops).
Proof. unfold pick_root_chunk_to_evict. keep. Qed.

Lemma keeps_process_lazy_free : kept (process_lazy_free uvm_ops fuel).
Proof.
  unfold process_lazy_free. induction fuel as [|n IH]; cbn [process_lazy_free_loop]; keep; apply IH.
Qed.
#[local] Hint Resolve keeps_mark_used keeps_mark_unused keeps_pick keeps_process_lazy_free : pmm.

Lemma keeps_run_call call : kept (run_call E uvm_ops fuel call).
Proof. destruct call; cbn [run_call]; keep. Qed.
#[local] Hint Resolve keeps_run_call : pmm.

Lemma keeps_evict_from_va_block i block : kept (evict_root_chunk_from_va_block E uvm_ops fuel i block).
Proof. unfold evict_root_chunk_from_va_block. keep. Qed.
Lemma keeps_free_first_pinned d c : kept (free_first_pinned_chunk_func uvm_ops d c).
Proof. unfold free_first_pinned_chunk_func. keep. Qed.
#[local] Hint Resolve keeps_evict_from_va_block keeps_free_first_pinned : pmm.

Lemma keeps_evict_from_va_blocks n i : kept (evict_from_va_blocks E uvm_ops fuel n i).
Proof.
  induction n as [|n IH]; cbn [evict_from_va_blocks]; unfold chunk_walk_pre_order; keep; apply IH.
Qed.
Lemma keeps_free_pinned_chunks n i : kept (free_pinned_chunks uvm_ops fuel n i).
Proof.
  induction n as [|n IH]; cbn [free_pinned_chunks]; unfold chunk_walk_pre_order; keep; apply IH.
Qed.
#[local] Hint Resolve keeps_evict_from_va_blocks keeps_free_pinned_chunks : pmm.

Lemma keeps_evict_root_chunk i ctx : kept (evict_root_chunk E uvm_ops fuel i ctx).
Proof. unfold evict_root_chunk, chunk_walk_pre_order. keep. Qed.
#[local] Hint Resolve keeps_evict_root_chunk : pmm.
Lemma keeps_pick_and_evict t ctx : kept (pick_and_evict_root_chunk E uvm_ops fuel t ctx).
Proof. unfold pick_and_evict_root_chunk. keep. Qed.
#[local] Hint Resolve keeps_pick_and_evict : pmm.
Lemma keeps_pick_and_evict_retry t ctx :
  kept (pick_and_evict_root_chunk_retry E uvm_ops fuel t ctx).
Proof.
  unfold pick_and_evict_root_chunk_retry. generalize fuel at 2 as n. intros n.
  induction n as [|n IH]; cbn [pick_and_evict_retry]; keep; apply IH.
Qed.
#[local] Hint Resolve keeps_pick_and_evict_retry : pmm.

(** ** Allocation and PMA callbacks *)

Lemma keeps_alloc_or_evict t flags : kept (alloc_or_evict_root_chunk E uvm_ops fuel t flags).
Proof. unfold alloc_or_evict_root_chunk. keep. Qed.
#[local] Hint Resolve keeps_alloc_or_evict : pmm.
Lemma keeps_claim_bigger n t size : kept (claim_bigger E uvm_ops n t size).
Proof. revert size. induction n as [|n IH]; intros size; cbn [claim_bigger]; keep; apply IH. Qed.
Lemma keeps_split_down n t size c cur : kept (split_down E uvm_ops n t size c cur).
Proof.
  revert c cur. induction n as [|n IH]; intros c cur; cbn [split_down]; keep; apply IH.
Qed.
#[local] Hint Resolve keeps_claim_bigger keeps_split_down : pmm.
Lemma keeps_alloc_chunk_with_splits t size flags :
  kept (alloc_chunk_with_splits E uvm_ops fuel t size flags).
Proof. unfold alloc_chunk_with_splits. keep. Qed.
#[local] Hint Resolve keeps_alloc_chunk_with_splits : pmm.
Lemma keeps_alloc_chunk t size flags : kept (alloc_chunk E uvm_ops fuel t size flags).
Proof. unfold alloc_chunk, alloc_or_evict_root_chunk_unlocked. keep. Qed.
#[local] Hint Resolve keeps_alloc_chunk : pmm.
Lemma keeps_alloc_chunks n t size flags l : kept (alloc_chunks E uvm_ops fuel n t size flags l).
Proof. revert l. induction n as [|n IH]; intros l; cbn [alloc_chunks]; keep; apply IH. Qed.
#[local] Hint Resolve keeps_alloc_chunks : pmm.
Lemma keeps_pmm_gpu_alloc n size t flags o : kept (pmm_gpu_alloc E uvm_ops fuel n size t flags o).
Proof. unfold pmm_gpu_alloc. keep. Qed.
#[local] Hint Resolve keeps_pmm_gpu_alloc : pmm.
Lemma keeps_alloc_kernel n size flags o :
  kept (uvm_pmm_gpu_alloc_kernel E uvm_ops fuel n size flags o).
Proof. unfold uvm_pmm_gpu_alloc_kernel. keep. Qed.
Lemma keeps_alloc_user n size flags o : kept (uvm_pmm_gpu_alloc_user E uvm_ops fuel n size flags o).
Proof. unfold uvm_pmm_gpu_alloc_user. keep. Qed.

Lemma keeps_pma_evict_loop n a b c d e l : kept (pma_evict_loop E uvm_ops fuel n a b c d e l).
Proof. revert e l. induction n as [|n IH]; intros e l; cbn [pma_evict_loop]; keep; apply IH. Qed.
#[local] Hint Resolve keeps_pma_evict_loop : pmm.
Lemma keeps_pma_evict_pages a b c d p :
  kept (uvm_pmm_gpu_pma_evict_pages E uvm_ops fuel a b c d p).
Proof. unfold uvm_pmm_gpu_pma_evict_pages. keep. Qed.

Lemma keeps_wait_evictable n i : kept (wait_evictable E uvm_ops fuel n i).
Proof. induction n as [|n IH]; cbn [wait_evictable]; keep; apply IH. Qed.
#[local] Hint Resolve keeps_wait_evictable : pmm.
Lemma keeps_evict_range_loop n a e : kept (evict_range_loop E uvm_ops fuel n a e).
Proof. revert a. induction n as [|n IH]; intros a; cbn [evict_range_loop]; keep; apply IH. Qed.
#[local] Hint Resolve keeps_evict_range_loop : pmm.
Lemma keeps_pma_evict_range a b p : kept (uvm_pmm_gpu_pma_evict_range E uvm_ops fuel a b p).
Proof. unfold uvm_pmm_gpu_pma_evict_range. keep. Qed.
End evict.
#[export] Hint Resolve keeps_mark_used keeps_mark_unused keeps_pick keeps_process_lazy_free
  keeps_run_call keeps_evict_root_chunk keeps_pick_and_evict_retry keeps_alloc_chunk
  keeps_alloc_kernel keeps_alloc_user keeps_pma_evict_pages keeps_pma_evict_range
  keeps_evict_from_va_block keeps_free_first_pinned : pmm.

(** ** Life cycle *)

Lemma bind_inv {A B} (m : M A) (f : A -> M B) s b s' :
  (m ≫= f) s = Some (b, s') -> exists a s1, m s = Some (a, s1) /\ f a s1 = Some (b, s').
Proof. unfold mbind, M_bind. destruct (m s) as [[a s1]|] eqn:Hm; [eauto|done]. Qed.

Lemma for_each_assert {A} (l : list A) f s :
  for_each l (fun r => assert (f r)) s = if forallb f l then Some (tt, s) else None.
Proof.
  induction l as [|a l IH]; cbn; [done|]. unfold mbind, M_bind, assert.
  destruct (f a); cbn; [apply IH|done].
Qed.

Lemma coherent_drop_roots s s' :
  coherent s -> forallb deinit_root_ok (root_chunks s) = true ->
  root_chunks s' = [] -> chunk_cache s' = chunk_cache s -> lists s' = lists s -> coherent s'.
Proof.
  intros C Hok Hr Hc Hl.
  assert (Hoff : forall i l, Root i ∉ lists s l).
  { intros i l Hin. destruct (co_live _ C _ _ Hin) as [ch Hch]. cbn in Hch.
    apply fmap_Some in Hch as (r & Hi & ->).
    rewrite forallb_forall in Hok.
    assert (Hok' : deinit_root_ok r = true)
      by (apply Hok; apply list_elem_of_In; by eapply list_elem_of_lookup_2).
    unfold deinit_root_ok in Hok'. apply andb_true_iff in Hok' as [_ Hst].
    apply bool_decide_eq_true in Hst. pose proof (co_home _ C _ _ _ Hi Hin) as Hh.
    by rewrite Hst in Hh. }
  destruct C as [C1 C2 C3 C4 C5 C6 C7 C8 C9 C10].
  split; rewrite ?Hr, ?Hc, ?Hl; try done.
  intros l [i|n] Hin; [by eapply Hoff in Hin|]. specialize (C6 _ _ Hin). cbn in *. by rewrite Hc.
Qed.

Section life.
Context (E : pmm_env) (uvm_ops : nat -> option pmm_ops) (fuel : nat).

Lemma keeps_release_loop n t : kept (release_loop n t).
Proof. induction n as [|n IH]; cbn [release_loop]; keep; apply IH. Qed.
#[local] Hint Resolve keeps_release_loop : pmm.
Lemma keeps_release_free_root_chunks : kept release_free_root_chunks.
Proof. unfold release_free_root_chunks. keep. Qed.
#[local] Hint Resolve keeps_release_free_root_chunks : pmm.

Lemma keeps_deinit : kept (uvm_pmm_gpu_deinit uvm_ops fuel).
Proof.
  unfold uvm_pmm_gpu_deinit.
  eapply keeps_M_bind; [apply keeps_M_get|]. intros s0 _. destruct (negb (initialized s0)); [keep|].
  do 4 (eapply (keeps_M_bind _ _ (fun _ => True)); [solve [keep]|intros ? _]).
  intros s [] s' H C. split; [|done]. apply bind_inv in H as (s1 & s2 & [= <- <-] & H).
  apply bind_inv in H as ([] & s3 & H1 & [= <-]). rewrite for_each_assert in H1.
  destruct (forallb _ _) eqn:Hok; [|done]. injection H1 as <-.
  by apply (coherent_drop_roots s).
Qed.
#[local] Hint Resolve keeps_deinit : pmm.

Lemma coherent_init s g n :
  chunk_cache s = ∅ -> (forall l, lists s l = []) -> root_chunks s = init_root g <$> seq 0 n ->
  (forall i, (i < n)%nat -> Z.of_nat i * UVM_CHUNK_SIZE_MAX <= Z.of_N (max_allocatable_address s)) -> coherent s.
Proof.
  intros Hc Hl Hr Hmax.
  assert (Hn : forall i r, root_chunks s !! i = Some r -> r = init_root g i /\ (i < n)%nat).
  { intros i r. rewrite Hr, list_lookup_fmap, fmap_Some. intros (j & Hj & ->).
    by apply lookup_seq in Hj as [-> ?]. }
  assert (Hi : forall i r, root_chunks s !! i = Some r -> r = init_root g i) by (intros i r H; by apply Hn).
  assert (Hno : forall l c, c ∉ lists s l) by (intros l c; rewrite Hl; apply not_elem_of_nil).
  split; try (by intros; exfalso; eapply Hno).
  - intros i r ->%Hi. by split.
  - rewrite Hc. by intros m ch ?%lookup_empty_Some.
  - intros l. rewrite Hl. constructor.
  - by intros i r ->%Hi.
  - intros i r [-> Hlt]%Hn. cbn. by apply Hmax.
Qed.

(** Every root chunk that the array is sized for starts below the limit. *)
Lemma roots_below_max (m : N) up i :
  Z.of_N m < UVM_GPU_MAX_PHYS_MEM -> UVM_ALIGN_UP (Z.of_N m) UVM_CHUNK_SIZE_MAX = Some up ->
  (i < Z.to_nat (up / UVM_CHUNK_SIZE_MAX))%nat -> Z.of_nat i * UVM_CHUNK_SIZE_MAX <= Z.of_N m.
Proof.
  change UVM_CHUNK_SIZE_MAX with (2 ^ 21). unfold UVM_GPU_MAX_PHYS_MEM. intros Hm Hup Hi.
  rewrite align_up_pow2 in Hup by (unfold in_width; lia). injection Hup as <-.
  rewrite Z.mul_comm, Z.div_mul in Hi by done.
  pose proof (Z.mul_div_le (Z.of_N m + 2 ^ 21 - 1) (2 ^ 21) ltac:(done)). lia.
Qed.

(** Creation establishes coherence whatever it returns, from a zeroed
    structure. *)
Lemma init_coherent s st s' :
  root_chunks s = [] -> chunk_cache s = ∅ ->
  uvm_pmm_gpu_init E uvm_ops fuel s = Some (st, s') -> coherent s'.
Proof.
  intros Hr Hc H. unfold uvm_pmm_gpu_init in H.
  apply bind_inv in H as ([] & s1 & [= <-] & H).
  apply bind_inv in H as ([] & s2 & H2 & H).
  assert (Hs2 : s2 = s <| lists := fun _ => [] |> <| initialized := true |>
                       <| chunk_sizes := init_chunk_sizes E |>).
  { revert H2. cbn [for_each]. unfold mbind, M_bind, assert, mret, M_ret.
    repeat match goal with |- context [if ?b then _ else None] => destruct b; [|done] end.
    by intros [= <-]. }
  clear H2. apply bind_inv in H as (call & s3 & [= <- <-] & H). subst s2.
  set (s1 := _ <| env_calls := _ |>) in H.
  assert (C1 : coherent s1) by (apply (coherent_init _ 0 0); done || lia).
  match type of H with (if negb (kmem E ?n ?k) then _ else _) _ = _ => destruct (negb (kmem E n k)) end.
  { assert (K : kept (_ ← uvm_pmm_gpu_deinit uvm_ops fuel; mret NV_ERR_NO_MEMORY)) by keep.
    exact (proj1 (K _ _ _ H C1)). }
  apply bind_inv in H as (sg & s3 & [= <- <-] & H).
  apply bind_inv in H as ([] & s3 & H3 & H). unfold assert in H3.
  destruct (_ <? _) eqn:Hlt; [|done]. injection H3 as <-.
  apply bind_inv in H as (up & s3 & H3 & H). unfold of_option in H3.
  destruct (UVM_ALIGN_UP _ _) as [up'|] eqn:Hup; [|done]. injection H3 as <- <-.
  match type of H with (if negb (kmem E ?n ?k) then _ else _) _ = _ => destruct (negb (kmem E n k)) end.
  { assert (K : kept (_ ← uvm_pmm_gpu_deinit uvm_ops fuel; mret NV_ERR_NO_MEMORY)) by keep.
    exact (proj1 (K _ _ _ H C1)). }
  apply bind_inv in H as ([] & s3 & [= <-] & H).
  refine (proj1 ((_ : kept _) _ _ _ H _)); [keep|].
  eapply coherent_init; [done|done|done|]. intros i Hi.
  apply (roots_below_max _ up'); [by apply Z.ltb_lt|done|done].
Qed.
End life.
#[export] Hint Resolve keeps_deinit : pmm.
