(* ===== verification/PmmSpec.v ===== *)
(** * The GPU chunk allocator: what eviction policies can do

    The properties of the allocator: its lists and metadata agree in every
    reachable state, whatever policies do; the exact effect of each policy
    hook on the lists, as a reference function of the callback's calls and
    return value; the choice of the root chunk to evict; and what is left of
    an evicted chunk when the allocator is destroyed. *)

From S2P Require Import Prelude TransitionValidator Bpf PageMask PerfTree UvmBpf PmmTypes PmmLists PmmChunks PmmWalk PmmEvict PmmAlloc PmmInv.

(** ** Reachable states *)

(** The entry points of the allocator. *)
Inductive pmm_op : Type :=
| op_call (call : pmm_call)
| op_alloc_kernel (num_chunks : nat) (chunk_size flags : Z) (out_tracker : bool)
| op_alloc_user (num_chunks : nat) (chunk_size flags : Z) (out_tracker : bool)
| op_get_subchunks (parent : chunk_id) (start_index num_subchunks : Z)
| op_pma_evict_pages (page_size num phys_start phys_end : Z) (protected : bool)
| op_pma_evict_range (phys_begin phys_end : Z) (protected : bool)
| op_deinit.

Definition void {A} (m : M A) : M unit := _ ← m; mret tt.

Section reach.
Context (E : pmm_env) (uvm_ops : nat -> option pmm_ops) (fuel : nat).

Definition run_op (op : pmm_op) : M unit :=
  match op with
  | op_call call => run_call E uvm_ops fuel call
  | op_alloc_kernel n size flags o => void (uvm_pmm_gpu_alloc_kernel E uvm_ops fuel n size flags o)
  | op_alloc_user n size flags o => void (uvm_pmm_gpu_alloc_user E uvm_ops fuel n size flags o)
  | op_get_subchunks p i n => void (uvm_pmm_gpu_get_subchunks fuel p i n)
  | op_pma_evict_pages a b c d p => void (uvm_pmm_gpu_pma_evict_pages E uvm_ops fuel a b c d p)
  | op_pma_evict_range a b p => void (uvm_pmm_gpu_pma_evict_range E uvm_ops fuel a b p)
  | op_deinit => uvm_pmm_gpu_deinit uvm_ops fuel
  end.

(** The critical sections under the list lock of which the entry points are
    made.  A thread may be anywhere between two of its sections, so another
    thread can see any of them run with any arguments. *)
Inductive locked_section : M unit -> Prop :=
| section_update_lists c : locked_section (chunk_update_lists_locked uvm_ops c)
| section_claim t size : locked_section (void (claim_free_chunk E uvm_ops t size))
| section_init_root t i st z : locked_section (init_root_chunk E uvm_ops t i st z)
| section_unpin c st : locked_section (chunk_unpin c st)
| section_try_free c : locked_section (void (try_chunk_free uvm_ops c))
| section_free c : locked_section (chunk_free_locked uvm_ops c)
| section_prepare_merge c : locked_section (void (free_or_prepare_for_merge uvm_ops c))
| section_merge c : locked_section (merge_gpu_chunk c)
| section_split c : locked_section (void (split_gpu_chunk E c))
| section_free_root i mode : locked_section (void (free_root_chunk i mode))
| section_free_next t : locked_section (void (free_next_available_root_chunk t))
| section_pick : locked_section (void (pick_root_chunk_to_evict uvm_ops))
| section_start_eviction c : locked_section (chunk_start_eviction c)
| section_pin_free c : locked_section (void (pin_free_chunks_func tt c))
| section_clear_eviction c : locked_section (uvm_gpu_chunk_set_in_eviction c false)
| section_set_type c t : locked_section (update_chunk c (fun ch => ch <| type := t |>))
| section_not_zero c : locked_section (update_chunk c (fun ch => ch <| is_zero := false |>))
| section_inject c b : locked_section (update_chunk c (fun ch => ch <| inject_split_error := b |>))
| section_not_referenced c :
    locked_section (update_chunk c (fun ch => ch <| is_referenced := false |>))
| section_lazy_pop c :
    locked_section (uvm_pmm_root_list_update_locked c None UVM_PMM_ROOT_LIST_NONE
                      UVM_PMM_ROOT_LIST_OP_DEL_INIT).

Inductive pmm_step : uvm_pmm_gpu_t -> uvm_pmm_gpu_t -> Prop :=
| step_op op s s' : run_op op s = Some (tt, s') -> pmm_step s s'
| step_section m s s' : locked_section m -> m s = Some (tt, s') -> pmm_step s s'.

Lemma keeps_void {A} (m : M A) : kept m -> kept (void m).
Proof. intros Hm. unfold void. keep. Qed.

Lemma step_coherent s s' : pmm_step s s' -> coherent s -> coherent s'.
Proof.
  intros [op s0 s1 H|m s0 s1 Hm H] C.
  - refine (proj1 ((_ : kept _) _ _ _ H C)).
    destruct op; cbn [run_op]; try apply keeps_void; auto with pmm.
  - refine (proj1 ((_ : kept _) _ _ _ H C)).
    destruct Hm; try apply keeps_void; eauto 4 with pmm.
Qed.

Lemma reachable_coherent s0 st s s' :
  root_chunks s0 = [] -> chunk_cache s0 = ∅ ->
  uvm_pmm_gpu_init E uvm_ops fuel s0 = Some (st, s) ->
  rtc pmm_step s s' -> coherent s'.
Proof.
  intros Hr Hc Hi Hs. assert (C : coherent s) by (by eapply init_coherent).
  clear Hi. induction Hs as [s|s s1 s2 H1 _ IH]; [done|]. apply IH. by eapply step_coherent.
Qed.

(** C1: the allocator's lists and the metadata of its root chunks agree in
    every state it can reach, for any eviction policy, even one replaced
    between calls, any answers of the kernel, PMA and the VA block code, and
    any interleaving of critical sections.  No chunk is on two lists or twice
    on one, none is on a list after it was freed, only root chunks are on the
    eviction lists, and the recorded [list_state] of a root chunk says on
    which list it is: on none for NONE and EVICTION, on the used, unused or
    lazy-free list or on a free list for the others. *)
Theorem allocator_coherent s0 st s s' :
  root_chunks s0 = [] -> chunk_cache s0 = ∅ ->
  uvm_pmm_gpu_init E uvm_ops fuel s0 = Some (st, s) ->
  rtc pmm_step s s' -> coherent s'.
Proof. apply reachable_coherent. Qed.
End reach.

(** ** A concrete allocator

    Two root chunks, page sizes of 4K, 64K and 2M; PMA hands out the first
    root chunk, then the second; the VA block evicts a whole root chunk. *)
Definition demo_pmm_env : pmm_env :=
  mk_env false 0 0 false true true true (2 * UVM_CHUNK_SIZE_MAX)
    0x211000 0x211000 0x211000 6 (fun _ _ => true) (fun _ _ => 0) (fun _ => NV_OK) (fun _ => NV_OK)
    (fun n _ _ => inr ([if (n <=? 4)%nat then 0 else UVM_CHUNK_SIZE_MAX], true)) (fun _ _ _ => NV_OK)
    (fun _ => NV_OK) (fun _ => NV_OK)
    (fun _ _ root => ([call_mark_chunk_evicted (Root root)], NV_OK)) (fun _ => ([], false)).

Definition demo_zeroed : uvm_pmm_gpu_t := mk_pmm 1 3 0x400000 false (fun _ => 0) [] ∅ (fun _ => []) 0 0.

(** A policy that sends every chunk it sees used to the head of the unused
    list. *)
Definition demo_policy : pmm_ops :=
  mk_mem_ops None None None None
    (Some (fun _ _ => bpf_call (call_request_reorder 2 1) (fun _ => bpf_exit 1))) None.

Definition demo_ops (n : nat) : option pmm_ops := Some demo_policy.

Fixpoint run_ops (uvm_ops : nat -> option pmm_ops) (ops : list pmm_op) : M unit :=
  match ops with
  | [] => mret tt
  | op :: ops => _ ← run_op demo_pmm_env uvm_ops 64 op; run_ops uvm_ops ops
  end.

Definition demo_life (uvm_ops : nat -> option pmm_ops) (ops : list pmm_op) : M unit :=
  status ← uvm_pmm_gpu_init demo_pmm_env uvm_ops 64;
  _ ← assert (status =? NV_OK);
  run_ops uvm_ops ops.

(** One 2M user allocation, given to VA block 7 and used. *)
Definition demo_alloc : list pmm_op :=
  [op_alloc_user 1 UVM_CHUNK_SIZE_MAX UVM_PMM_ALLOC_FLAGS_NONE true;
   op_call (call_set_page_index (Root 0) 0);
   op_call (call_unpin (Root 0) (7%nat, 512) false);
   op_call (call_mark_root_chunk_used (Root 0))].

Lemma run_ops_steps uvm_ops ops s s' :
  run_ops uvm_ops ops s = Some (tt, s') -> rtc (pmm_step demo_pmm_env uvm_ops 64) s s'.
Proof.
  revert s. induction ops as [|op ops IH]; intros s H; cbn [run_ops] in H.
  - injection H as <-. constructor.
  - apply bind_inv in H as ([] & s1 & H1 & H). eapply rtc_l; [by apply step_op in H1|auto].
Qed.

Lemma demo_life_steps uvm_ops ops s0 s :
  demo_life uvm_ops ops s0 = Some (tt, s) ->
  exists s1, uvm_pmm_gpu_init demo_pmm_env uvm_ops 64 s0 = Some (NV_OK, s1)
    /\ rtc (pmm_step demo_pmm_env uvm_ops 64) s1 s.
Proof.
  unfold demo_life. intros H. apply bind_inv in H as (st & s1 & H1 & H).
  apply bind_inv in H as ([] & s2 & H2 & H). unfold assert in H2.
  destruct (st =? NV_OK) eqn:Hst; [|discriminate H2]. injection H2 as <-.
  apply Z.eqb_eq in Hst. subst st. exists s1. split; [done|]. by eapply run_ops_steps.
Qed.

(** Running an operation and looking at the state it ends in. *)
Lemma run_view {A B} (m : M A) s (f : uvm_pmm_gpu_t -> B) b :
  (fun r => f r.2) <$> m s = Some b -> exists a s', m s = Some (a, s') /\ f s' = b.
Proof. destruct (m s) as [[a s']|]; [|done]. intros [= <-]. eauto. Qed.

Lemma allocator_coherent_witness :
  exists s, demo_life demo_ops (demo_alloc ++ [op_alloc_user 3 4096 0 true]) demo_zeroed
             = Some (tt, s) /\ lists s va_block_unused = [Root 0] /\ coherent s.
Proof.
  destruct (run_view (demo_life demo_ops (demo_alloc ++ [op_alloc_user 3 4096 0 true])) demo_zeroed
              (fun s => lists s va_block_unused) [Root 0] ltac:(vm_compute; reflexivity))
    as ([] & s & H & Hl).
  exists s. split; [exact H|]. split; [exact Hl|].
  destruct (demo_life_steps _ _ _ _ H) as (s1 & H1 & Hs).
  exact (allocator_coherent demo_pmm_env demo_ops 64 demo_zeroed NV_OK s1 s eq_refl eq_refl H1 Hs).
Defined.

(** ** Policy hooks *)

(** The place a callback asks for: a valid destination (used list or not) and
    position (head or not) that all its requests agree on. *)
Definition asked_for (vs : list (Z * Z)) : option (bool * bool) :=
  match vs with
  | [] => None
  | (d, p) :: _ =>
      if forallb (fun v => bool_decide (v = (d, p))) vs
         && ((d =? 1) || (d =? 2)) && ((p =? 1) || (p =? 2))
      then Some (d =? 1, p =? 1) else None
  end.

(** Root chunk [i] moved to one end of an eviction list, nothing else changed. *)
Definition moved (i : nat) (used head : bool) (s : uvm_pmm_gpu_t) : uvm_pmm_gpu_t :=
  let l := if used then va_block_used else va_block_unused in
  let st := if used then UVM_PMM_ROOT_LIST_VA_BLOCK_USED else UVM_PMM_ROOT_LIST_VA_BLOCK_UNUSED in
  set_state (Root i) st (placed head (Root i) l (unlink (Root i) s)).

(** What a callback did: the reorders it requested and what it returned. *)
Definition callback_context (i : nat) (s : uvm_pmm_gpu_t) (r : uvm_gpu_root_chunk_t) :=
  Some (mk_pmm_decision_ctx (pmm_id s) (Z.of_nat i) (snapshot s i r) pmm_request_zero).
Definition requests (cb : uvm_pmm_gpu_t -> chunk_id -> bpf_prog pmm_kfunc) i s r : list (Z * Z) :=
  pmm_values (bpf_trace pmm_dispatch (cb s (Root i)) (callback_context i s r)).
Definition returned (cb : uvm_pmm_gpu_t -> chunk_id -> bpf_prog pmm_kfunc) i s r : Z :=
  bpf_int (bpf_run pmm_dispatch (cb s (Root i)) (callback_context i s r)).2.

Lemma forallb_unanimous (v : Z * Z) vs :
  forallb (fun w => bool_decide (w = v)) (v :: vs) = true <-> unanimous (v :: vs) v.
Proof.
  rewrite forallb_forall. unfold unanimous. rewrite Forall_forall. split.
  - intros H. split; [done|]. intros x Hx. apply list_elem_of_In in Hx.
    by apply H, bool_decide_eq_true in Hx.
  - intros [_ H] x Hx. apply bool_decide_eq_true. symmetry. apply H. by apply list_elem_of_In.
Qed.

(** The verdict on an unchanged chunk, by the requests made. *)
Lemma validate_pmm_same snap vs :
  let r := record_all (R := nv_gpu_pmm_request_t) vs in
  nv_gpu_transition_validate_pmm snap snap r =
    match asked_for vs with
    | Some _ => NV_GPU_TRANSITION_APPLY
    | None => nv_gpu_transition_validate_pmm snap snap r
    end
  /\ (forall u h, asked_for vs = Some (u, h) ->
        (pr_destination r =? NV_GPU_PMM_DESTINATION_USED) = u
        /\ (pr_position r =? NV_GPU_PMM_POSITION_HEAD) = h)
  /\ (asked_for vs = None -> nv_gpu_transition_validate_pmm snap snap r <> NV_GPU_TRANSITION_APPLY)
  /\ (nv_gpu_transition_validate_pmm snap snap r = NV_GPU_TRANSITION_NOOP_DEFAULT <-> vs = []).
Proof.
  pose proof (record_all_cases (R := nv_gpu_pmm_request_t) vs) as Hp. cbn zeta in *.
  unfold nv_gpu_transition_validate_pmm. rewrite !Z.eqb_refl. cbn [negb orb].
  unfold NV_GPU_PMM_DESTINATION_USED, NV_GPU_PMM_DESTINATION_UNUSED, NV_GPU_PMM_POSITION_HEAD,
    NV_GPU_PMM_POSITION_TAIL.
  destruct (record_all vs) as [att con d p]; cbn in Hp |- *.
  destruct Hp as [(-> & -> & ->)|[(Hn & -> & Hu)|(Hn & -> & -> & Hu)]]; cbn.
  - done.
  - assert (Ha : asked_for vs = None).
    { destruct vs as [|[d0 p0] vs]; [done|]. unfold asked_for.
      destruct (forallb _ _) eqn:Hf; [|done]. apply forallb_unanimous in Hf. by destruct (Hu (d0, p0)). }
    rewrite Ha. done.
  - destruct vs as [|[d0 p0] vs]; [done|]. unfold asked_for.
    assert (Hd : unanimous ((d0, p0) :: vs) (d, p)) by (by apply Hu).
    assert ((d0, p0) = (d, p)) as [= -> ->].
    { destruct Hd as [_ Hd]. by apply Forall_cons in Hd as [-> _]. }
    replace (forallb _ _) with true by (symmetry; by apply forallb_unanimous).
    cbn [andb]. destruct (d =? 1) eqn:?, (d =? 2) eqn:?, (p =? 1) eqn:?, (p =? 2) eqn:?; cbn;
      naive_solver.
Qed.

Definition eviction_list_of (used : bool) : list_id :=
  if used then va_block_used else va_block_unused.
Definition eviction_state_of (used : bool) : uvm_pmm_root_list_state_t :=
  if used then UVM_PMM_ROOT_LIST_VA_BLOCK_USED else UVM_PMM_ROOT_LIST_VA_BLOCK_UNUSED.

(** The decision context of an unchanged chunk after requests [vs]. *)
Definition ctx_after (i : nat) (s : uvm_pmm_gpu_t) (r : uvm_gpu_root_chunk_t) (vs : list (Z * Z)) :=
  Some (mk_pmm_decision_ctx (pmm_id s) (Z.of_nat i) (snapshot s i r) (record_all vs)).

Lemma get_root_chunk s i r :
  root_chunks s !! i = Some r -> get_chunk (Root i) s = Some (chunk r, s).
Proof. intros Hr. unfold get_chunk. cbn. by rewrite Hr. Qed.

Lemma get_root_run s i r : root_chunks s !! i = Some r -> get_root i s = Some (r, s).
Proof. intros Hr. unfold get_root, mbind, M_bind, get_pmm, of_option. by rewrite Hr. Qed.

(** Rewriting one step of a run. *)
Lemma bind_run {A B} (m : M A) (f : A -> M B) s a s1 :
  m s = Some (a, s1) -> (m ≫= f) s = f a s1.
Proof. intros H. unfold mbind, M_bind. by rewrite H. Qed.

Ltac run_step tac := erewrite bind_run by tac; cbv beta iota.

Section root.
Context (s : uvm_pmm_gpu_t) (i : nat) (r : uvm_gpu_root_chunk_t).
Context (C : coherent s) (Hr : root_chunks s !! i = Some r).

Lemma validate_run vs : list_state r = UVM_PMM_ROOT_LIST_VA_BLOCK_USED
    \/ list_state r = UVM_PMM_ROOT_LIST_VA_BLOCK_UNUSED ->
  pmm_bpf_validate_reorder_locked (Root i) (ctx_after i s r vs) s =
    Some (match asked_for vs with
          | Some (u, _) =>
              (NV_GPU_TRANSITION_APPLY, Some (eviction_list_of u), eviction_state_of u)
          | None => (nv_gpu_transition_validate_pmm (snapshot s i r) (snapshot s i r) (record_all vs),
                     None, UVM_PMM_ROOT_LIST_NONE)
          end, s).
Proof using C Hr.
  intros Hst. destruct (validate_pmm_same (snapshot s i r) vs) as (Hv & Hd & Hn & _).
  unfold pmm_bpf_validate_reorder_locked. run_step ltac:(by apply get_root_chunk).
  cbn [ctx_after]. erewrite root_size by done. cbn [negb].
  run_step ltac:(by eapply root_from_root). rewrite bool_decide_true by done. cbn [negb].
  run_step ltac:(reflexivity). run_step ltac:(by apply get_root_run). cbn [pc_observed pc_request pc_pmm pc_root_chunk].
  destruct (asked_for vs) as [[u h]|].
  - rewrite Hv. destruct (Hd u h eq_refl) as [Hu _]. rewrite !Z.eqb_refl, Hu.
    destruct Hst as [-> | ->]; cbn; by destruct u.
  - specialize (Hn eq_refl). unfold is_apply. by rewrite bool_decide_false by done.
Qed.

(** Moving a root chunk by the mutation point. *)
Lemma move_run (u h : bool) :
  uvm_pmm_root_list_update_locked (Root i) (Some (eviction_list_of u)) (eviction_state_of u)
    (if h then UVM_PMM_ROOT_LIST_OP_MOVE_HEAD else UVM_PMM_ROOT_LIST_OP_MOVE_TAIL) s
  = Some (tt, moved i u h s).
Proof using C Hr.
  erewrite update_locked_run; [|done|cbn; by rewrite Hr]. by destruct u, h.
Qed.

Lemma commit_run vs u h : list_state r = UVM_PMM_ROOT_LIST_VA_BLOCK_USED
    \/ list_state r = UVM_PMM_ROOT_LIST_VA_BLOCK_UNUSED ->
  asked_for vs = Some (u, h) ->
  pmm_bpf_commit_reorder_locked (Root i) (ctx_after i s r vs) s
  = Some (NV_GPU_TRANSITION_APPLY, moved i u h s).
Proof using C Hr.
  intros Hst Ha. unfold pmm_bpf_commit_reorder_locked.
  run_step ltac:(by apply validate_run). rewrite Ha. cbn [is_apply].
  change (negb (is_apply NV_GPU_TRANSITION_APPLY)) with false. cbv iota.
  run_step ltac:(reflexivity). cbn [pc_request].
  destruct (validate_pmm_same (snapshot s i r) vs) as (_ & Hd & _).
  destruct (Hd u h Ha) as [_ ->]. run_step ltac:(apply move_run). done.
Qed.

Lemma apply_activate_run vs : list_state r = UVM_PMM_ROOT_LIST_VA_BLOCK_USED
    \/ list_state r = UVM_PMM_ROOT_LIST_VA_BLOCK_UNUSED ->
  snd <$> uvm_pmm_bpf_apply_activate_locked (Root i) (ctx_after i s r vs) s
  = Some (match asked_for vs with Some (u, h) => moved i u h s | None => s end).
Proof using C Hr.
  intros Hst. unfold uvm_pmm_bpf_apply_activate_locked. run_step ltac:(by apply validate_run).
  destruct (validate_pmm_same (snapshot s i r) vs) as (_ & _ & Hn & _).
  destruct (asked_for vs) as [[u h]|] eqn:Ha.
  - change (bool_decide _) with true. cbv iota. by rewrite (commit_run vs u h).
  - unfold nv_gpu_transition_pmm_activate_effect, is_apply.
    rewrite (bool_decide_false (_ = NV_GPU_TRANSITION_APPLY)) by auto. done.
Qed.

(** The effect the access hook reports with the state it leaves. *)
Lemma apply_access_run vs ret : list_state r = UVM_PMM_ROOT_LIST_VA_BLOCK_USED
    \/ list_state r = UVM_PMM_ROOT_LIST_VA_BLOCK_UNUSED ->
  uvm_pmm_bpf_apply_access_locked (Root i) (ctx_after i s r vs) ret s =
    Some (match asked_for vs with
          | Some (u, h) => if (ret =? 0) || (ret =? 1)
                           then (NV_GPU_PMM_ACCESS_COMMIT, moved i u h s)
                           else (NV_GPU_PMM_ACCESS_PRESERVE, s)
          | None => (if bool_decide (vs = []) && (ret =? 0)
                     then NV_GPU_PMM_ACCESS_NATIVE else NV_GPU_PMM_ACCESS_PRESERVE, s)
          end).
Proof using C Hr.
  intros Hst. unfold uvm_pmm_bpf_apply_access_locked. run_step ltac:(by apply validate_run).
  destruct (validate_pmm_same (snapshot s i r) vs) as (_ & _ & Hn & Hdef).
  unfold nv_gpu_transition_pmm_access_effect, NV_GPU_TRANSITION_ACTION_DEFAULT,
    NV_GPU_TRANSITION_ACTION_BYPASS.
  destruct (asked_for vs) as [[u h]|] eqn:Ha; cbn [is_apply].
  - change (is_apply NV_GPU_TRANSITION_APPLY) with true.
    destruct (ret =? 0), (ret =? 1); cbn [negb andb orb]; try done.
    all: rewrite bool_decide_true by done; by run_step ltac:(by apply commit_run).
  - unfold is_apply. rewrite (bool_decide_false (_ = NV_GPU_TRANSITION_APPLY)) by auto.
    rewrite (bool_decide_ext _ _ Hdef).
    destruct (ret =? 0) eqn:?, (ret =? 1) eqn:?, (bool_decide (vs = [])); done.
Qed.
End root.

(** The allocator after one more call out. *)
Definition called (s : uvm_pmm_gpu_t) : uvm_pmm_gpu_t := s <| env_calls := S (env_calls s) |>.

Lemma called_coherent s : coherent s -> coherent (called s).
Proof. by apply coherent_ext. Qed.

Section hooks.
Context (uvm_ops : nat -> option pmm_ops).
Context (s : uvm_pmm_gpu_t) (i : nat) (r : uvm_gpu_root_chunk_t).
Context (C : coherent s) (Hr : root_chunks s !! i = Some r).

Lemma decision_ctx_run :
  pmm_decision_ctx (Root i) s
  = Some (mk_pmm_decision_ctx (pmm_id s) (Z.of_nat i) (snapshot s i r) pmm_request_zero, s).
Proof using Hr. cbn. run_step ltac:(reflexivity). run_step ltac:(by apply get_root_run). done. Qed.

(** What the callback leaves in the context is the record of its requests. *)
Lemma callback_run cb :
  (bpf_run pmm_dispatch (cb (called s) (Root i))
     (Some (mk_pmm_decision_ctx (pmm_id s) (Z.of_nat i) (snapshot s i r) pmm_request_zero))).1
  = ctx_after i (called s) r (requests cb i (called s) r).
Proof using. unfold ctx_after, requests, callback_context. by rewrite pmm_run_records. Qed.

(** The state a policy leaves after the activation of root chunk [i]. *)
Definition after_activate : uvm_pmm_gpu_t :=
  match uvm_ops (env_calls s) ≫= gpu_block_activate with
  | None => called s
  | Some cb =>
      match asked_for (requests cb i (called s) r) with
      | Some (u, h) => moved i u h (called s)
      | None => called s
      end
  end.

(** The state after an access to it. *)
Definition after_access : uvm_pmm_gpu_t :=
  match uvm_ops (env_calls s) ≫= gpu_block_access with
  | None => moved i true false (called s)
  | Some cb =>
      let vs := requests cb i (called s) r in
      let ret := returned cb i (called s) r in
      match asked_for vs with
      | Some (u, h) => if (ret =? 0) || (ret =? 1) then moved i u h (called s) else called s
      | None => if bool_decide (vs = []) && (ret =? 0) then moved i true false (called s) else called s
      end
  end.

Context (Hst : list_state r = UVM_PMM_ROOT_LIST_VA_BLOCK_USED
               \/ list_state r = UVM_PMM_ROOT_LIST_VA_BLOCK_UNUSED).

Lemma activate_run :
  uvm_bpf_call_gpu_block_activate uvm_ops (Root i) s = Some (tt, after_activate).
Proof using C Hr Hst.
  unfold uvm_bpf_call_gpu_block_activate, after_activate. run_step ltac:(apply decision_ctx_run).
  run_step ltac:(reflexivity). run_step ltac:(reflexivity).
  change (s <| env_calls := S (env_calls s) |>) with (called s).
  pose proof (called_coherent s C) as C'.
  destruct (uvm_ops (env_calls s) ≫= gpu_block_activate) as [cb|].
  - rewrite callback_run.
    pose proof (apply_activate_run (called s) i r C' Hr (requests cb i (called s) r) Hst) as H.
    apply fmap_Some in H as ([a s'] & H & Hs). run_step ltac:(exact H).
    cbn in Hs. rewrite <- Hs. done.
  - pose proof (apply_activate_run (called s) i r C' Hr [] Hst) as H.
    apply fmap_Some in H as ([a s'] & H & Hs). run_step ltac:(exact H).
    cbn in Hs. by subst.
Qed.

Lemma access_run :
  exists e s', uvm_bpf_call_gpu_block_access uvm_ops (Root i) s = Some (e, s')
    /\ after_access = (if bool_decide (e = NV_GPU_PMM_ACCESS_NATIVE) then moved i true false s' else s')
    /\ (e = NV_GPU_PMM_ACCESS_NATIVE -> s' = called s).
Proof using C Hr Hst.
  unfold uvm_bpf_call_gpu_block_access, after_access.
  rewrite (bind_run _ _ s _ s decision_ctx_run). cbv beta.
  rewrite (bind_run _ _ s (uvm_ops (env_calls s)) (called s)) by reflexivity. cbv beta.
  rewrite (bind_run _ _ (called s) (called s) (called s)) by reflexivity. cbv beta.
  pose proof (called_coherent s C) as C'.
  destruct (uvm_ops (env_calls s) ≫= gpu_block_access) as [cb|].
  - destruct (bpf_run _ _ _) as [d ret] eqn:Hrun.
    pose proof (callback_run cb) as Hd. rewrite Hrun in Hd. cbn in Hd. subst d.
    assert (Hret : bpf_int ret = returned cb i (called s) r)
      by (symmetry; exact (f_equal (fun p => bpf_int p.2) Hrun)).
    rewrite Hret, (apply_access_run (called s) i r C' Hr _ _ Hst). cbn zeta.
    destruct (asked_for _) as [[u h]|].
    + destruct (_ || _); eexists _, _; split_and!; try done.
    + destruct (_ && _); eexists _, _; split_and!; try done.
  - eexists _, _. split_and!; [exact (apply_access_run (called s) i r C' Hr [] _ Hst)|done|done].
Qed.
End hooks.

(** A root chunk in use that may be moved: a user chunk, allocated, not being
    evicted, on one of the eviction lists. *)
Record in_use (r : uvm_gpu_root_chunk_t) : Prop := {
  iu_user : type (chunk r) = UVM_PMM_GPU_MEMORY_TYPE_USER;
  iu_allocated : state (chunk r) = UVM_PMM_GPU_CHUNK_STATE_ALLOCATED;
  iu_not_evicting : in_eviction (chunk r) = false;
  iu_listed : list_state r = UVM_PMM_ROOT_LIST_VA_BLOCK_USED
              \/ list_state r = UVM_PMM_ROOT_LIST_VA_BLOCK_UNUSED;
}.

Lemma root_pinned_run s i r :
  coherent s -> root_chunks s !! i = Some r ->
  state (chunk r) = UVM_PMM_GPU_CHUNK_STATE_ALLOCATED
  \/ state (chunk r) = UVM_PMM_GPU_CHUNK_STATE_TEMP_PINNED ->
  chunk_is_root_chunk_pinned (Root i) s
  = Some (is_state (chunk r) UVM_PMM_GPU_CHUNK_STATE_TEMP_PINNED, s).
Proof.
  intros C Hr Hs. unfold chunk_is_root_chunk_pinned. run_step ltac:(by eapply root_from_root).
  run_step ltac:(by apply get_root_chunk). unfold is_state. by destruct Hs as [-> | ->].
Qed.

Lemma in_use_pinned s i r :
  coherent s -> root_chunks s !! i = Some r -> state (chunk r) = UVM_PMM_GPU_CHUNK_STATE_ALLOCATED ->
  chunk_is_root_chunk_pinned (Root i) s = Some (false, s).
Proof.
  intros C Hr Hs. rewrite (root_pinned_run s i r C Hr (or_introl Hs)). unfold is_state. by rewrite Hs.
Qed.

Lemma in_eviction_run s i r :
  coherent s -> root_chunks s !! i = Some r ->
  chunk_is_in_eviction (Root i) s = Some (in_eviction (chunk r), s).
Proof.
  intros C Hr. unfold chunk_is_in_eviction. run_step ltac:(by eapply root_from_root).
  by run_step ltac:(by apply get_root_chunk).
Qed.

Lemma listed_on_list s i r : coherent s -> root_chunks s !! i = Some r ->
  listed (list_state r) = true -> on_list s (Root i) = true.
Proof. intros C Hr Hl. apply on_list_spec; [done|]. by eapply co_listed. Qed.

Lemma assert_run b s : b = true -> assert b s = Some (tt, s).
Proof. by intros ->. Qed.

(** The list update common to both marks, up to the hook. *)
Lemma update_eviction_list_run uvm_ops s i r l st hook :
  coherent s -> root_chunks s !! i = Some r -> in_use r ->
  root_chunk_update_eviction_list uvm_ops (Root i) l st hook s
  = (effect ← (if hook then uvm_bpf_call_gpu_block_access uvm_ops (Root i)
               else mret NV_GPU_PMM_ACCESS_NATIVE);
     if bool_decide (effect = NV_GPU_PMM_ACCESS_NATIVE)
     then uvm_pmm_root_list_update_locked (Root i) (Some l) st UVM_PMM_ROOT_LIST_OP_MOVE_TAIL
     else mret tt) s.
Proof.
  intros C Hr [Hu Ha He Hl]. unfold root_chunk_update_eviction_list.
  pose proof (root_size s i r C Hr) as Hsz. unfold chunk_is_root_chunk in Hsz.
  run_step ltac:(by apply get_root_chunk). run_step ltac:(by apply assert_run).
  run_step ltac:(by apply assert_run; unfold uvm_gpu_chunk_is_user; rewrite Hu).
  run_step ltac:(by apply assert_run; unfold is_state; rewrite Ha).
  run_step ltac:(by eapply in_use_pinned). run_step ltac:(by eapply in_eviction_run).
  rewrite He. cbn [negb andb]. run_step ltac:(reflexivity).
  rewrite (listed_on_list s i r) by (done || by destruct Hl as [-> | ->]).
  by run_step ltac:(reflexivity).
Qed.

(** A root chunk the marks accept: a user chunk, allocated or pinned. *)
Record markable (r : uvm_gpu_root_chunk_t) : Prop := {
  mk_user : type (chunk r) = UVM_PMM_GPU_MEMORY_TYPE_USER;
  mk_state : state (chunk r) = UVM_PMM_GPU_CHUNK_STATE_ALLOCATED
             \/ state (chunk r) = UVM_PMM_GPU_CHUNK_STATE_TEMP_PINNED;
}.

Definition held_back (r : uvm_gpu_root_chunk_t) : bool :=
  is_state (chunk r) UVM_PMM_GPU_CHUNK_STATE_TEMP_PINNED || in_eviction (chunk r).

Lemma markable_in_use r : markable r -> held_back r = false ->
  list_state r = UVM_PMM_ROOT_LIST_VA_BLOCK_USED \/ list_state r = UVM_PMM_ROOT_LIST_VA_BLOCK_UNUSED ->
  in_use r.
Proof.
  intros [Hu Hs] [Hp He]%orb_false_iff Hl. split; [done| |done|done].
  unfold is_state in Hp. apply bool_decide_eq_false in Hp. naive_solver.
Qed.

(** The guard of both marks: a pinned chunk and one being evicted are left
    where they are; any other must be on a list. *)
Lemma update_eviction_list_guard uvm_ops s i r l st hook :
  coherent s -> root_chunks s !! i = Some r -> markable r ->
  (held_back r = true -> root_chunk_update_eviction_list uvm_ops (Root i) l st hook s = Some (tt, s))
  /\ (held_back r = false -> on_list s (Root i) = false ->
      root_chunk_update_eviction_list uvm_ops (Root i) l st hook s = None).
Proof.
  intros C Hr [Hu Hs]. unfold root_chunk_update_eviction_list, held_back.
  pose proof (root_size s i r C Hr) as Hsz. unfold chunk_is_root_chunk in Hsz.
  rewrite (bind_run _ _ _ _ _ (get_root_chunk s i r Hr)).
  rewrite (bind_run _ _ _ _ _ (assert_run _ s Hsz)).
  assert (Hut : uvm_gpu_chunk_is_user (chunk r) = true) by (unfold uvm_gpu_chunk_is_user; by rewrite Hu).
  rewrite (bind_run _ _ _ _ _ (assert_run _ s Hut)).
  assert (Hst : is_state (chunk r) UVM_PMM_GPU_CHUNK_STATE_ALLOCATED
                || is_state (chunk r) UVM_PMM_GPU_CHUNK_STATE_TEMP_PINNED = true)
    by (unfold is_state; destruct Hs as [-> | ->]; done).
  rewrite (bind_run _ _ _ _ _ (assert_run _ s Hst)).
  rewrite (bind_run _ _ _ _ _ (root_pinned_run s i r C Hr Hs)).
  rewrite (bind_run _ _ _ _ _ (in_eviction_run s i r C Hr)).
  rewrite <- negb_orb. split; intros ->; [done|]. intros Hoff. cbn [negb].
  rewrite (bind_run _ _ s (negb (on_list s (Root i))) s eq_refl), Hoff. done.
Qed.

(** C9: what marking a user root chunk used or unused does to the eviction
    lists, for every policy.  A chunk that is pinned or being evicted is left
    alone: the operation completes, changes nothing and consults no policy.
    Any other allocated chunk must be on a list (the assertion fails if it is
    on none).  If it is on an eviction list, marking it used does this.  With
    no access hook the chunk goes to the tail of the used list.  With one, the
    chunk goes exactly where the callback's requests agree to put it, if they
    name a valid place and it returned DEFAULT or BYPASS; it goes to the tail
    of the used list if the callback made no request and returned DEFAULT; in
    every other case (conflicting or invalid requests, BYPASS without a
    request, any other return value) the lists stay as they were.  Marking it
    unused moves it to the tail of the unused list and consults no policy. *)
Theorem mark_used_policy_exact uvm_ops s i r :
  coherent s -> root_chunks s !! i = Some r -> markable r ->
  (held_back r = true ->
     uvm_pmm_gpu_mark_root_chunk_used uvm_ops (Root i) s = Some (tt, s)
     /\ uvm_pmm_gpu_mark_root_chunk_unused uvm_ops (Root i) s = Some (tt, s))
  /\ (held_back r = false -> on_list s (Root i) = false ->
     uvm_pmm_gpu_mark_root_chunk_used uvm_ops (Root i) s = None
     /\ uvm_pmm_gpu_mark_root_chunk_unused uvm_ops (Root i) s = None)
  /\ (held_back r = false ->
     list_state r = UVM_PMM_ROOT_LIST_VA_BLOCK_USED \/ list_state r = UVM_PMM_ROOT_LIST_VA_BLOCK_UNUSED ->
     uvm_pmm_gpu_mark_root_chunk_used uvm_ops (Root i) s = Some (tt, after_access uvm_ops s i r)
     /\ uvm_pmm_gpu_mark_root_chunk_unused uvm_ops (Root i) s = Some (tt, moved i false false s)).
Proof.
  intros C Hr Hm. unfold uvm_pmm_gpu_mark_root_chunk_used, uvm_pmm_gpu_mark_root_chunk_unused.
  split_and!.
  - split; by eapply update_eviction_list_guard.
  - split; by eapply update_eviction_list_guard.
  - intros Hh Hl. pose proof (markable_in_use r Hm Hh Hl) as Hin.
    rewrite !(update_eviction_list_run _ s i r) by done. split.
    + destruct (access_run uvm_ops s i r C Hr Hl) as (e & s' & H & -> & Hn).
      run_step ltac:(exact H).
      destruct (bool_decide_reflect (e = NV_GPU_PMM_ACCESS_NATIVE)) as [->|]; [|done].
      rewrite (Hn eq_refl). exact (move_run (called s) i r (called_coherent s C) Hr true false).
    + run_step ltac:(reflexivity). exact (move_run s i r C Hr false false).
Qed.

Definition root_view (s : uvm_pmm_gpu_t) :=
  (lists s va_block_unused,
   (fun r => (type (chunk r), state (chunk r), in_eviction (chunk r), list_state r))
     <$> root_chunks s !! 0%nat).

(** The concrete allocator after its first allocation, the policy having moved
    the chunk. *)
Lemma demo_in_use : exists s r,
  demo_life demo_ops demo_alloc demo_zeroed = Some (tt, s) /\ lists s va_block_unused = [Root 0]
  /\ coherent s /\ root_chunks s !! 0%nat = Some r /\ in_use r.
Proof.
  assert (Hrun : (fun x => root_view x.2) <$> demo_life demo_ops demo_alloc demo_zeroed
    = Some ([Root 0], Some (UVM_PMM_GPU_MEMORY_TYPE_USER, UVM_PMM_GPU_CHUNK_STATE_ALLOCATED, false,
                            UVM_PMM_ROOT_LIST_VA_BLOCK_UNUSED))) by (vm_compute; reflexivity).
  apply run_view in Hrun as ([] & s & H & Hv). injection Hv as Hl Hv. apply fmap_Some in Hv as (r & Hr & [= Ht Hst He Hls]).
  destruct (demo_life_steps _ _ _ _ H) as (s1 & H1 & Hs).
  exists s, r. split_and!; [done|done| |done|].
  - by eapply reachable_coherent; [..|exact H1|exact Hs].
  - split; [done|done|done|by right].
Qed.

(** The same chunk picked for eviction. *)
Lemma demo_evicting : exists s r,
  coherent s /\ root_chunks s !! 0%nat = Some r /\ markable r /\ in_eviction (chunk r) = true.
Proof.
  assert (Hrun : (fun x => root_view x.2)
      <$> (_ ← demo_life demo_ops demo_alloc; chunk_start_eviction (Root 0)) demo_zeroed
    = Some ([], Some (UVM_PMM_GPU_MEMORY_TYPE_USER, UVM_PMM_GPU_CHUNK_STATE_ALLOCATED, true,
                      UVM_PMM_ROOT_LIST_EVICTION))) by (vm_compute; reflexivity).
  apply run_view in Hrun as ([] & s & H & Hv). injection Hv as _ Hv.
  apply fmap_Some in Hv as (r & Hr & [= Ht Hst He Hls]).
  apply bind_inv in H as ([] & s0 & H0 & H). destruct (demo_life_steps _ _ _ _ H0) as (s1 & H1 & Hs).
  exists s, r. split_and!; [|done| |].
  - eapply keeps_chunk_start_eviction; [exact H|]. by eapply reachable_coherent; [..|exact H1|exact Hs].
  - split; [done|by left].
  - done.
Qed.

(** Without a policy the chunk moves to the tail of the used list; picked for
    eviction, it stays off the lists. *)
Lemma mark_used_policy_exact_witness :
  (exists s r, lists s va_block_unused = [Root 0] /\ root_chunks s !! 0%nat = Some r /\
    uvm_pmm_gpu_mark_root_chunk_used (fun _ => None) (Root 0) s
    = Some (tt, moved 0 true false (called s)))
  /\ (exists s r, root_chunks s !! 0%nat = Some r /\ in_eviction (chunk r) = true /\
    uvm_pmm_gpu_mark_root_chunk_used demo_ops (Root 0) s = Some (tt, s)).
Proof.
  split.
  - destruct demo_in_use as (s & r & _ & Hl & C & Hr & [Hu Ha He Hls]). exists s, r.
    split_and!; [exact Hl|exact Hr|].
    refine (proj1 (proj2 (proj2 (mark_used_policy_exact (fun _ => None) s 0 r C Hr
      {| mk_user := Hu; mk_state := or_introl Ha |})) _ Hls)).
    unfold held_back, is_state. by rewrite Ha, He.
  - destruct demo_evicting as (s & r & C & Hr & Hm & He). exists s, r. split_and!; [exact Hr|exact He|].
    refine (proj1 (proj1 (mark_used_policy_exact demo_ops s 0 r C Hr Hm) _)).
    unfold held_back. by rewrite He, orb_true_r.
Defined.

(** ** Activation *)

Lemma moved_root s i u h r : root_chunks s !! i = Some r ->
  root_chunks (moved i u h s) !! i
  = Some (r <| list_generation := if bool_decide (list_state r = eviction_state_of u)
                                  then list_generation r else NvU64 (list_generation r + 1) |>
            <| list_state := eviction_state_of u |>).
Proof.
  intros Hr. cbn. rewrite list_lookup_alter, decide_True by done. rewrite Hr. by destruct u.
Qed.

Lemma moved_coherent s i u h r :
  coherent s -> root_chunks s !! i = Some r -> coherent (moved i u h s).
Proof.
  intros C Hr. pose proof (move_run s i r C Hr u h) as H.
  refine (proj1 (keeps_update_locked _ _ _ _ _ _ _ _ H C)).
  destruct u; [by apply dest_ok_used|by apply dest_ok_unused].
Qed.

Lemma is_state_eq ch st st' : state ch = st -> is_state ch st' = bool_decide (st = st').
Proof. unfold is_state. by intros ->. Qed.

(** The activation hook leaves the chunk itself alone. *)
Lemma activate_keeps_chunk uvm_ops s i r : coherent s -> root_chunks s !! i = Some r ->
  exists r', root_chunks (after_activate uvm_ops s i r) !! i = Some r' /\ chunk r' = chunk r.
Proof.
  intros C Hr. unfold after_activate. destruct (uvm_ops (env_calls s) ≫= gpu_block_activate) as [cb|]; [|eauto].
  destruct (asked_for _) as [[u h]|]; [|eauto].
  eexists. split; [by apply moved_root|done].
Qed.

(** What the activation of a root chunk does, for every policy.  A user
    root chunk that becomes allocated goes to the tail of the used list; then
    the activation hook may move it, and only it, to where its requests agree,
    whatever it returns; with no hook, or no valid agreement, the chunk stays
    at the tail of the used list.  The operation always completes. *)
Theorem activation_policy_exact uvm_ops s i r :
  coherent s -> root_chunks s !! i = Some r ->
  type (chunk r) = UVM_PMM_GPU_MEMORY_TYPE_USER ->
  state (chunk r) = UVM_PMM_GPU_CHUNK_STATE_ALLOCATED ->
  exists r1, root_chunks (moved i true false s) !! i = Some r1
    /\ list_state r1 = UVM_PMM_ROOT_LIST_VA_BLOCK_USED
    /\ chunk_update_lists_locked uvm_ops (Root i) s
       = Some (tt, after_activate uvm_ops (moved i true false s) i r1).
Proof.
  intros C Hr Hu Ha. eexists. split_and!; [by apply moved_root|done|].
  unfold chunk_update_lists_locked. run_step ltac:(by eapply root_from_root).
  run_step ltac:(by apply get_root_chunk). unfold uvm_gpu_chunk_is_user. rewrite Hu.
  rewrite bool_decide_true by done.
  pose proof (moved_root s i true false r Hr) as Hr1.
  pose proof (moved_coherent s i true false r C Hr) as C1.
  erewrite bind_run.
  2:{ run_step ltac:(by eapply in_use_pinned). run_step ltac:(by apply get_root_chunk).
      rewrite !(is_state_eq _ _ _ Ha).
      rewrite (bool_decide_false (_ = UVM_PMM_GPU_CHUNK_STATE_FREE)) by done. cbn [negb].
      run_step ltac:(reflexivity). run_step ltac:(exact (move_run s i r C Hr true false)).
      apply activate_run; [done|exact Hr1|by left]. }
  cbv beta. pose proof (activate_keeps_chunk uvm_ops _ i _ C1 Hr1) as [r2 [Hr2 Hc2]].
  run_step ltac:(by apply get_root_chunk). by rewrite Hc2, !(is_state_eq _ _ _ Ha).
Qed.

Lemma activation_policy_exact_witness :
  exists s r1, lists s va_block_unused = [Root 0]
    /\ root_chunks (moved 0 true false s) !! 0%nat = Some r1
    /\ chunk_update_lists_locked demo_ops (Root 0) s
       = Some (tt, after_activate demo_ops (moved 0 true false s) 0 r1).
Proof.
  destruct demo_in_use as (s & r & _ & Hl & C & Hr & [Hu Ha _ _]). exists s.
  destruct (activation_policy_exact demo_ops s 0 r C Hr Hu Ha) as (r1 & H1 & _ & H2).
  exists r1. split; [exact Hl|]. split; [exact H1|exact H2].
Defined.

(** ** Confinement *)

(** From [s] to [s'] at most root chunk [i] moved, between the eviction lists:
    the other chunks keep their places and their relative order on every list,
    no chunk is changed, and the generation of [i] advances exactly with its
    list. *)
Record confined (i : nat) (s s' : uvm_pmm_gpu_t) : Prop := {
  cf_cache : chunk_cache s' = chunk_cache s;
  cf_sizes : chunk_sizes s' = chunk_sizes s;
  cf_id : pmm_id s' = pmm_id s;
  cf_others : forall j, j <> i -> root_chunks s' !! j = root_chunks s !! j;
  cf_self : forall r, root_chunks s !! i = Some r -> exists r', root_chunks s' !! i = Some r'
    /\ chunk r' = chunk r
    /\ list_generation r' = (if bool_decide (list_state r' = list_state r) then list_generation r
                             else NvU64 (list_generation r + 1));
  cf_order : forall l, filter (not_this (Root i)) (lists s' l) = filter (not_this (Root i)) (lists s l);
  cf_lists : forall l, eviction_list l = false -> lists s' l = lists s l;
}.

Lemma confined_refl i s : confined i s s.
Proof.
  split; try done. intros r Hr. exists r. by rewrite bool_decide_true.
Qed.

Lemma confined_called i s s' : confined i (called s) s' -> confined i s s'.
Proof. by intros [H1 H2 H3 H4 H5 H6 H7]. Qed.

Lemma filter_not_this_idem c (l : list chunk_id) :
  filter (not_this c) (filter (not_this c) l) = filter (not_this c) l.
Proof. by apply list_filter_filter_r. Qed.

Lemma filter_not_this_absent c (l : list chunk_id) : c ∉ l -> filter (not_this c) l = l.
Proof.
  induction l as [|d l IH]; [done|]. rewrite not_elem_of_cons. intros [Hne Hl].
  rewrite filter_cons_True by (unfold not_this; congruence). by rewrite IH.
Qed.

Lemma moved_lists s i u h l :
  lists (moved i u h s) l =
    let rest := filter (not_this (Root i)) (lists s l) in
    if decide (l = eviction_list_of u) then if h then Root i :: rest else rest ++ [Root i] else rest.
Proof.
  destruct u, h; cbn; by destruct (decide _) as [->|].
Qed.

Lemma confined_moved s i u h r :
  coherent s -> root_chunks s !! i = Some r ->
  (list_state r = UVM_PMM_ROOT_LIST_VA_BLOCK_USED
   \/ list_state r = UVM_PMM_ROOT_LIST_VA_BLOCK_UNUSED) ->
  confined i s (moved i u h s).
Proof.
  intros C Hr Hst.
  assert (Hoff : forall l, eviction_list l = false -> Root i ∉ lists s l).
  { intros l Hl Hin. pose proof (co_home _ C _ _ _ Hr Hin) as Hh.
    destruct Hst as [E|E]; rewrite E in Hh; by destruct l. }
  split; try done.
  - intros j Hj. cbn. by rewrite list_lookup_alter, decide_False by done.
  - intros r0 Hr0. simplify_eq. eexists. split; [by apply moved_root|].
    split; [done|]. cbn. destruct (bool_decide_reflect (list_state r = eviction_state_of u)) as [E|E].
    + by rewrite bool_decide_true.
    + by rewrite bool_decide_false by congruence.
  - intros l. rewrite moved_lists. destruct (decide _); [|apply filter_not_this_idem].
    destruct h.
    + rewrite filter_cons_False by (by intros []). apply filter_not_this_idem.
    + rewrite filter_app, filter_cons_False by (by intros []). cbn. rewrite app_nil_r.
      apply filter_not_this_idem.
  - intros l Hl. rewrite moved_lists, decide_False by (intros ->; by destruct u).
    apply filter_not_this_absent. auto.
Qed.

(** Preparing an eviction changes nothing. *)
Lemma evict_prepare_run uvm_ops s :
  uvm_bpf_call_gpu_evict_prepare uvm_ops s = Some (tt, called s).
Proof.
  unfold uvm_bpf_call_gpu_evict_prepare. run_step ltac:(reflexivity). run_step ltac:(reflexivity).
  change (s <| env_calls := S (env_calls s) |>) with (called s).
  destruct (uvm_ops (env_calls s) ≫= gpu_evict_prepare) as [cb|]; [|done].
  match goal with |- context [bpf_run ?f ?p ?x] => pose proof (bpf_run_inert p x f) as Hi;
    destruct (bpf_run f p x) as [s' ret] end.
  cbn in Hi. by subst.
Qed.

(** C24: a policy's reach on the allocator.  Whatever an eviction policy does,
    running its access or activation hook on a root chunk of the eviction
    lists changes nothing but the place of that chunk on those two lists: the
    order of all other chunks, every chunk's contents and the other lists stay
    the same, and the chunk's generation advances exactly when it changes
    list.  The hook that prepares an eviction changes nothing.  All three
    complete. *)
Theorem policy_confined uvm_ops s i r :
  coherent s -> root_chunks s !! i = Some r ->
  (list_state r = UVM_PMM_ROOT_LIST_VA_BLOCK_USED
   \/ list_state r = UVM_PMM_ROOT_LIST_VA_BLOCK_UNUSED) ->
  (exists e s', uvm_bpf_call_gpu_block_access uvm_ops (Root i) s = Some (e, s') /\ confined i s s')
  /\ (exists s', uvm_bpf_call_gpu_block_activate uvm_ops (Root i) s = Some (tt, s')
                 /\ confined i s s')
  /\ uvm_bpf_call_gpu_evict_prepare uvm_ops s = Some (tt, called s).
Proof.
  intros C Hr Hst. pose proof (called_coherent s C) as C'. split_and!.
  - destruct (access_run uvm_ops s i r C Hr Hst) as (e & s' & H & Ha & Hn).
    exists e, s'. split; [done|]. apply confined_called.
    destruct (bool_decide_reflect (e = NV_GPU_PMM_ACCESS_NATIVE)) as [He|He].
    + rewrite Hn by done. apply confined_refl.
    + rewrite <- Ha. unfold after_access.
      destruct (uvm_ops (env_calls s) ≫= gpu_block_access) as [cb|] eqn:Ho.
      * cbn zeta. destruct (asked_for _) as [[u h]|]; [destruct (_ || _)|destruct (_ && _)];
          by (apply confined_refl || eapply confined_moved).
      * by eapply confined_moved.
  - eexists. split; [by apply activate_run|]. apply confined_called. unfold after_activate.
    destruct (uvm_ops (env_calls s) ≫= gpu_block_activate) as [cb|]; [|apply confined_refl].
    destruct (asked_for _) as [[u h]|]; by (apply confined_refl || eapply confined_moved).
  - apply evict_prepare_run.
Qed.

Lemma policy_confined_witness :
  exists s e s', lists s va_block_unused = [Root 0]
    /\ uvm_bpf_call_gpu_block_access demo_ops (Root 0) s = Some (e, s') /\ confined 0 s s'.
Proof.
  destruct demo_in_use as (s & r & _ & Hl & C & Hr & Hin).
  destruct (policy_confined demo_ops s 0 r C Hr (iu_listed r Hin)) as ((e & s' & H & Hc) & _).
  exists s, e, s'. split; [exact Hl|]. split; [exact H|exact Hc].
Defined.

(** ** Choosing a root chunk to evict *)

(** The free list of whole user root chunks. *)
Definition root_free_list (s : uvm_pmm_gpu_t) (z : uvm_pmm_list_zero_t) : list_id :=
  free_list UVM_PMM_GPU_MEMORY_TYPE_USER
    (hweight (Z.land (chunk_sizes s UVM_PMM_GPU_MEMORY_TYPE_USER) (UVM_CHUNK_SIZE_MAX - 1))) z.

(** Root chunks are a size of user memory, as [uvm_pmm_gpu_init] makes sure. *)
Definition root_size_ok (s : uvm_pmm_gpu_t) : Prop :=
  Z.land UVM_CHUNK_SIZE_MAX (chunk_sizes s UVM_PMM_GPU_MEMORY_TYPE_USER) <> 0
  /\ (hweight (Z.land (chunk_sizes s UVM_PMM_GPU_MEMORY_TYPE_USER) (UVM_CHUNK_SIZE_MAX - 1))
      < UVM_MAX_CHUNK_SIZES)%nat.

(** A root chunk whose eviction may start: owned by the allocator, with no
    pinned part, not yet picked; its zero flag agrees with its free list. *)
Record pickable (s : uvm_pmm_gpu_t) (i : nat) (r : uvm_gpu_root_chunk_t) : Prop := {
  pk_root : root_chunks s !! i = Some r;
  pk_user : type (chunk r) = UVM_PMM_GPU_MEMORY_TYPE_USER;
  pk_owned : state (chunk r) <> UVM_PMM_GPU_CHUNK_STATE_PMA_OWNED;
  pk_whole : state (chunk r) <> UVM_PMM_GPU_CHUNK_STATE_TEMP_PINNED;
  pk_parts : state (chunk r) = UVM_PMM_GPU_CHUNK_STATE_IS_SPLIT ->
    exists sub, suballoc (chunk r) = Some sub /\ pinned_leaf_chunks sub <= 0;
  pk_not_evicting : in_eviction (chunk r) = false;
  pk_zero : forall z, Root i ∈ lists s (root_free_list s z) ->
    is_zero (chunk r) = bool_decide (z = UVM_PMM_LIST_ZERO);
}.

(** Root chunk [i] taken off its list and marked for eviction. *)
Definition evicting (i : nat) (s : uvm_pmm_gpu_t) : uvm_pmm_gpu_t :=
  let s := set_state (Root i) UVM_PMM_ROOT_LIST_EVICTION (unlink (Root i) s) in
  s <| root_chunks := alter (fun r => r <| chunk := chunk r <| in_eviction := true |> |>) i
                        (root_chunks s) |>.

Lemma is_state_ne ch st : state ch <> st -> is_state ch st = false.
Proof. intros H. unfold is_state. by apply bool_decide_eq_false. Qed.

Lemma pinned_run s i r : coherent s -> root_chunks s !! i = Some r ->
  state (chunk r) <> UVM_PMM_GPU_CHUNK_STATE_TEMP_PINNED ->
  (state (chunk r) = UVM_PMM_GPU_CHUNK_STATE_IS_SPLIT ->
    exists sub, suballoc (chunk r) = Some sub /\ pinned_leaf_chunks sub <= 0) ->
  chunk_is_root_chunk_pinned (Root i) s = Some (false, s).
Proof.
  intros C Hr Hw Hp. unfold chunk_is_root_chunk_pinned. run_step ltac:(by eapply root_from_root).
  run_step ltac:(by apply get_root_chunk). rewrite (is_state_ne _ _ Hw).
  destruct (is_state (chunk r) UVM_PMM_GPU_CHUNK_STATE_IS_SPLIT) eqn:Hs; [|done].
  apply bool_decide_eq_true in Hs. destruct (Hp Hs) as (sub & Hsub & Hle). cbn [negb].
  rewrite Hsub. run_step ltac:(reflexivity). apply Z.ltb_ge in Hle. by rewrite Hle.
Qed.

Section pick.
Context (s : uvm_pmm_gpu_t) (i : nat) (r : uvm_gpu_root_chunk_t) (l : list_id).
Context (C : coherent s) (Hk : pickable s i r) (Hin : Root i ∈ lists s l).

Lemma evictable_run : chunk_is_evictable (Root i) s = Some (true, s).
Proof using C Hk Hin.
  destruct Hk as [Hr Hu Ho Hw Hp He _]. unfold chunk_is_evictable.
  run_step ltac:(by eapply root_from_root). run_step ltac:(by apply get_root_chunk).
  rewrite (is_state_ne _ _ Ho). run_step ltac:(by eapply pinned_run).
  run_step ltac:(by eapply in_eviction_run). rewrite He. cbv iota. run_step ltac:(reflexivity).
  replace (on_list s (Root i)) with true by (symmetry; apply on_list_spec; eauto). done.
Qed.

Lemma start_eviction_run : chunk_start_eviction (Root i) s = Some (tt, evicting i s).
Proof using C Hk Hin.
  pose proof Hk as [Hr Hu Ho Hw Hp He _]. unfold chunk_start_eviction.
  run_step ltac:(by eapply root_from_root). run_step ltac:(apply evictable_run).
  run_step ltac:(reflexivity). run_step ltac:(reflexivity).
  replace (on_list s (Root i)) with true by (symmetry; apply on_list_spec; eauto).
  run_step ltac:(reflexivity).
  erewrite (bind_run _ _ s tt).
  2:{ erewrite update_locked_run; [|done|cbn; by rewrite Hr]. reflexivity. }
  set (s1 := set_state _ _ _).
  assert (Hr1 : root_chunks s1 !! i = Some (r <| list_generation :=
      if bool_decide (list_state r = UVM_PMM_ROOT_LIST_EVICTION) then list_generation r
      else NvU64 (list_generation r + 1) |> <| list_state := UVM_PMM_ROOT_LIST_EVICTION |>)).
  { subst s1. cbn. rewrite list_lookup_alter, decide_True by done. by rewrite Hr. }
  pose proof (root_size s i r C Hr) as Hsz. unfold chunk_is_root_chunk in Hsz.
  unfold uvm_gpu_chunk_set_in_eviction. run_step ltac:(by apply get_root_chunk).
  run_step ltac:(by apply assert_run; unfold uvm_gpu_chunk_is_user; cbn; rewrite Hu).
  run_step ltac:(by apply assert_run).
  unfold update_chunk. run_step ltac:(by apply get_root_chunk).
  unfold modify, evicting. fold s1. do 2 f_equal. unfold set_chunk_at.
  unfold update_field. cbn [root_chunks]. f_equal.
  apply list_alter_ext; [|done]. intros r0 H0. rewrite Hr1 in H0. by simplify_eq.
Qed.
End pick.

Lemma find_root_free_list_run s z : root_size_ok s ->
  find_free_list UVM_PMM_GPU_MEMORY_TYPE_USER UVM_CHUNK_SIZE_MAX z s = Some (root_free_list s z, s).
Proof.
  intros [Hm Hw]. unfold find_free_list. run_step ltac:(reflexivity).
  run_step ltac:(reflexivity). run_step ltac:(by apply assert_run; apply negb_true_iff, Z.eqb_neq).
  by run_step ltac:(by apply assert_run; apply Nat.ltb_lt).
Qed.

Lemma first_chunk_run l s : list_first_chunk l s = Some (head (lists s l), s).
Proof. done. Qed.

(** The order in which root chunks are considered. *)
Definition free_candidates (s : uvm_pmm_gpu_t) : list chunk_id :=
  lists s (root_free_list s UVM_PMM_LIST_NO_ZERO) ++ lists s (root_free_list s UVM_PMM_LIST_ZERO).
Definition used_candidates (s : uvm_pmm_gpu_t) : list chunk_id :=
  lists s va_block_unused ++ lists s va_block_used.

Lemma head_app_inv (a b : list chunk_id) c rest :
  a ++ b = c :: rest -> (exists a', a = c :: a') \/ (a = [] /\ exists b', b = c :: b').
Proof. destruct a as [|x a]; cbn; intros [=]; subst; eauto. Qed.

Lemma first_free_root_run s : root_size_ok s ->
  (forall i rest, free_candidates s = Root i :: rest -> exists r, pickable s i r) ->
  (forall n rest, free_candidates s <> Sub n :: rest) ->
  first_free_root UVM_PMM_GPU_MEMORY_TYPE_USER s = Some (head (free_candidates s), s).
Proof.
  intros Hs Hk Hsub. unfold first_free_root.
  run_step ltac:(by apply find_root_free_list_run). run_step ltac:(apply first_chunk_run).
  unfold free_candidates in *.
  destruct (lists s (root_free_list s UVM_PMM_LIST_NO_ZERO)) as [|[i|n] rest] eqn:Hno; cbn [head app].
  - run_step ltac:(by apply find_root_free_list_run). run_step ltac:(apply first_chunk_run).
    destruct (lists s (root_free_list s UVM_PMM_LIST_ZERO)) as [|[i|n] rest] eqn:Hz; cbn [head]; [done| |].
    + destruct (Hk i rest eq_refl) as (r & K). run_step ltac:(apply get_root_chunk, K).
      rewrite (pk_zero _ _ _ K UVM_PMM_LIST_ZERO) by (rewrite Hz; by left). done.
    + by destruct (Hsub n rest).
  - destruct (Hk i _ eq_refl) as (r & K). run_step ltac:(apply get_root_chunk, K).
    rewrite (pk_zero _ _ _ K UVM_PMM_LIST_NO_ZERO) by (rewrite Hno; by left). done.
  - by edestruct Hsub.
Qed.

Lemma start_and_return s i r l : coherent s -> pickable s i r -> Root i ∈ lists s l ->
  (_ ← chunk_start_eviction (Root i); j ← root_chunk_from_chunk (Root i); mret (Some j)) s
  = Some (Some i, evicting i s).
Proof.
  intros C Hk Hin. pose proof (start_eviction_run s i r l C Hk Hin) as H.
  run_step ltac:(exact H). destruct (keeps_chunk_start_eviction _ _ _ _ H C) as [C' _].
  assert (exists r', root_chunks (evicting i s) !! i = Some r') as [r' Hr'].
  { eexists. cbn. rewrite list_lookup_alter, decide_True by done.
    rewrite list_lookup_alter, decide_True by done. rewrite (pk_root _ _ _ Hk). done. }
  by run_step ltac:(by eapply root_from_root).
Qed.

Lemma pickable_called s i r : pickable s i r -> pickable (called s) i r.
Proof. intros [H1 H2 H3 H4 H5 H6 H7]. by split. Qed.

(** C27: which root chunk is evicted.  For every policy, the victim is the head
    of the free root chunks, non-zeroed before zeroed; when none is free, the
    head of the unused list, then of the used list, as earlier hooks left
    them: preparing an eviction cannot change the choice.  The victim leaves
    its list, its recorded state becomes EVICTION and it is marked in
    eviction, and nothing else changes.  With no candidate nothing is
    evicted. *)
Theorem pick_victim_exact uvm_ops s :
  coherent s -> root_size_ok s ->
  (forall n rest, free_candidates s <> Sub n :: rest) ->
  (forall i rest, free_candidates s ++ used_candidates s = Root i :: rest ->
     exists r, pickable s i r) ->
  pick_root_chunk_to_evict uvm_ops s =
    match head (free_candidates s), head (used_candidates s) with
    | Some (Root i), _ => Some (Some i, evicting i s)
    | None, Some (Root i) => Some (Some i, evicting i (called s))
    | _, _ => Some (None, called s)
    end.
Proof.
  intros C Hs Hsub Hk. unfold pick_root_chunk_to_evict.
  erewrite bind_run; [|apply first_free_root_run; [done| |done]].
  2:{ intros i rest E. eapply Hk. by rewrite E. }
  cbv beta iota. destruct (free_candidates s) as [|[i|n] rest] eqn:Hf; cbn [head is_null].
  - unfold when. run_step ltac:(apply evict_prepare_run). run_step ltac:(apply first_chunk_run).
    unfold used_candidates in *.
    change (lists (called s) va_block_unused) with (lists s va_block_unused).
    destruct (lists s va_block_unused) as [|[i|n] rest] eqn:Hun; cbn [head app is_null].
    + run_step ltac:(apply first_chunk_run).
      change (lists (called s) va_block_used) with (lists s va_block_used).
      destruct (lists s va_block_used) as [|[i|n] rest] eqn:Hus; cbn [head]; [done| |].
      * destruct (Hk i rest eq_refl) as [r K].
        eapply (start_and_return _ _ _ va_block_used); [by apply called_coherent|by apply pickable_called|].
        cbn. rewrite Hus. by left.
      * assert (is_root (Sub n) = true) by (apply (co_evict s C va_block_used); [done|rewrite Hus; by left]).
        done.
    + run_step ltac:(reflexivity). destruct (Hk i _ eq_refl) as [r K].
      eapply (start_and_return _ _ _ va_block_unused); [by apply called_coherent|by apply pickable_called|].
      cbn. rewrite Hun. by left.
    + assert (is_root (Sub n) = true) by (apply (co_evict s C va_block_unused); [done|rewrite Hun; by left]).
      done.
  - do 3 run_step ltac:(reflexivity). destruct (Hk i _ eq_refl) as [r K].
    assert (Hin : Root i ∈ free_candidates s) by (rewrite Hf; by left).
    apply elem_of_app in Hin as [Hin|Hin]; by eapply start_and_return.
  - by edestruct Hsub.
Qed.

Definition pick_view (s : uvm_pmm_gpu_t) :=
  (root_view s, free_candidates s, used_candidates s, chunk_sizes s UVM_PMM_GPU_MEMORY_TYPE_USER).

Lemma demo_pickable : exists s r, coherent s /\ root_size_ok s /\ free_candidates s = []
  /\ used_candidates s = [Root 0] /\ pickable s 0 r.
Proof.
  assert (Hrun : (fun x => pick_view x.2) <$> demo_life demo_ops demo_alloc demo_zeroed
    = Some (([Root 0], Some (UVM_PMM_GPU_MEMORY_TYPE_USER, UVM_PMM_GPU_CHUNK_STATE_ALLOCATED, false,
                             UVM_PMM_ROOT_LIST_VA_BLOCK_UNUSED)), [], [Root 0], 0x211000))
    by (vm_compute; reflexivity).
  apply run_view in Hrun as ([] & s & H & Hv). injection Hv as Hl Hv Hf Hu Hsz.
  apply fmap_Some in Hv as (r & Hr & [= Ht Hst He Hls]).
  destruct (demo_life_steps _ _ _ _ H) as (s1 & H1 & Hs).
  assert (C : coherent s) by (by eapply reachable_coherent; [..|exact H1|exact Hs]).
  exists s, r. split_and!; [done| |done|done|].
  - unfold root_size_ok. rewrite Hsz. split; [done|]. vm_compute. lia.
  - assert (Hno : forall z, Root 0 ∉ lists s (root_free_list s z)).
    { intros z Hz. pose proof (co_home _ C _ _ _ Hr Hz) as Hh. rewrite <- Hls in Hh. exact Hh. }
    split; [exact Hr|congruence..|]. intros z Hz. by destruct (Hno z).
Qed.

Lemma pick_victim_exact_witness :
  exists s, used_candidates s = [Root 0] /\
    pick_root_chunk_to_evict demo_ops s = Some (Some 0%nat, evicting 0 (called s)).
Proof.
  destruct demo_pickable as (s & r & C & Hs & Hf & Hu & Hk). exists s. split; [exact Hu|].
  pose proof (pick_victim_exact demo_ops s C Hs) as H. rewrite Hf, Hu in H.
  apply H.
  - intros n rest E. discriminate E.
  - intros i rest E. injection E as <- _. exists r. exact Hk.
Defined.

(** ** Destroying the allocator *)

(** Everything was given back: PMA owns every root chunk and no list holds a
    chunk. *)
Definition all_returned (s : uvm_pmm_gpu_t) : bool :=
  forallb (fun r => is_state (chunk r) UVM_PMM_GPU_CHUNK_STATE_PMA_OWNED) (root_chunks s)
  && forallb (fun l => match lists s l with [] => true | _ => false end) all_lists.

Lemma not_null_is_Some {A} (o : option A) : is_null o = false -> is_Some o.
Proof. destruct o; [eauto|done]. Qed.

(** C33: an eviction by PMA leaves the allocator in a state its destruction
    rejects.  After one user allocation, PMA evicts the range of its root
    chunk and succeeds; PMA then owns every root chunk and every list is
    empty, but the assertion of [uvm_pmm_gpu_deinit] that each root chunk's
    [list_state] is NONE fails, because the path that frees an evicted root
    chunk never resets EVICTION.  The same allocation freed instead of evicted
    lets the destruction complete. *)
Theorem pma_eviction_fails_deinit :
  let no_policy := fun _ : nat => @None pmm_ops in
  (exists s s', demo_life no_policy demo_alloc demo_zeroed = Some (tt, s)
     /\ uvm_pmm_gpu_pma_evict_range demo_pmm_env no_policy 64 0 (2 * UVM_CHUNK_SIZE_MAX - 1) true s
        = Some (NV_OK, s')
     /\ all_returned s' = true
     /\ uvm_pmm_gpu_deinit no_policy 64 s' = None)
  /\ is_Some (demo_life no_policy (demo_alloc ++ [op_call (call_free (Root 0)); op_deinit]) demo_zeroed).
Proof.
  cbn zeta. split; [|apply not_null_is_Some; vm_compute; reflexivity].
  assert (Hrun : (fun x => (all_returned x.2, is_null (uvm_pmm_gpu_deinit (fun _ => None) 64 x.2), x.1))
    <$> (_ ← demo_life (fun _ => None) demo_alloc;
         uvm_pmm_gpu_pma_evict_range demo_pmm_env (fun _ => None) 64 0 (2 * UVM_CHUNK_SIZE_MAX - 1) true)
        demo_zeroed = Some (true, true, NV_OK)) by (vm_compute; reflexivity).
  apply fmap_Some in Hrun as ([st s'] & H & Hv). apply bind_inv in H as ([] & s & H1 & H2).
  injection Hv as Ha Hd <-. exists s, s'. split_and!; [done|done|done|].
  by destruct (uvm_pmm_gpu_deinit _ 64 s').
Qed.
