(* ===== verification/RbTree.v ===== *)
(** * Red-black trees of UVM

    Model of kernel-open/nvidia-uvm/uvm_rb_tree.{c,h}, and of what it and
    uvm_range_tree.c share.

    A UVM tree keeps its nodes twice: in a Linux red-black tree, for lookup, and
    in a Linux list in key order, for iteration.  The code walks the links of the
    red-black tree itself and links new nodes at the bottom; rebalancing and
    erasing are [rb_insert_color] and [rb_erase] of the Linux kernel.  These are
    the operations of the class [RbTree], and [RbTreeLaws] is what the kernel
    documents of them: rebalancing keeps the nodes in their order, erasing takes
    one node out.  Colours are not modelled, the code does not read them.

    Nodes are pointers ([node_id]) into a store kept by the caller; following a
    pointer that is not in the store, and linking next to a node that is not on
    the list, has no result ([None]).  The main theorem shows that the trees
    implement finite maps. *)

From Stdlib Require Export Sorted.
From S2P Require Import Prelude.

Notation node_id := positive.

(** ** Linux red-black trees *)
Inductive rb_tree :=
| rb_nil
| rb_node (rb_left : rb_tree) (node : node_id) (rb_right : rb_tree).

Fixpoint inorder (t : rb_tree) : list node_id :=
  match t with
  | rb_nil => []
  | rb_node l n r => inorder l ++ n :: inorder r
  end.

(** Which link of the parent a new node is stored in. *)
Inductive rb_link := link_rb_left | link_rb_right.

(** [rb_link_node(node, parent, link)]: the link of the parent, or the root of
    the tree when there is no parent, points to the node from now on. *)
Fixpoint rb_link_under (node parent : node_id) (link : rb_link) (t : rb_tree) : rb_tree :=
  match t with
  | rb_nil => rb_nil
  | rb_node l n r =>
      if decide (n = parent) then
        match link with
        | link_rb_left => rb_node (rb_node rb_nil node rb_nil) n r
        | link_rb_right => rb_node l n (rb_node rb_nil node rb_nil)
        end
      else rb_node (rb_link_under node parent link l) n (rb_link_under node parent link r)
  end.

Definition rb_link_root (node : node_id) : rb_tree := rb_node rb_nil node rb_nil.

Class RbTree := {
  rb_insert_color : node_id -> rb_tree -> rb_tree;
  rb_erase : node_id -> rb_tree -> rb_tree;
}.

Class RbTreeLaws `{RbTree} := {
  rb_insert_color_inorder node t :
    NoDup (inorder t) -> node ∈ inorder t -> inorder (rb_insert_color node t) = inorder t;
  rb_erase_inorder node t :
    NoDup (inorder t) -> node ∈ inorder t ->
    inorder (rb_erase node t) = filter (fun n => n <> node) (inorder t);
}.

(** The walk of [range_node_find] and [uvm_rb_tree_find_node] from the root:
    the node where it stopped, if any, and the last node it went past. *)
Fixpoint rb_descend {A : Type} (deref : node_id -> option A) (less greater : A -> bool)
    (t : rb_tree) (parent : option node_id) : option (option node_id * option node_id) :=
  match t with
  | rb_nil => Some (None, parent)
  | rb_node l n r =>
      a ← deref n;
      if less a then rb_descend deref less greater l (Some n)
      else if greater a then rb_descend deref less greater r (Some n)
      else Some (Some n, parent)
  end.

(** ** Linux lists *)

(** [list_add(new, pos)] and [list_add_tail(new, pos)] with a node as position:
    right after it, right before it. *)
Fixpoint list_add_after (pos new : node_id) (l : list node_id) : option (list node_id) :=
  match l with
  | [] => None
  | x :: l' =>
      if decide (x = pos) then Some (x :: new :: l') else cons x <$> list_add_after pos new l'
  end.

Fixpoint list_add_before (pos new : node_id) (l : list node_id) : option (list node_id) :=
  match l with
  | [] => None
  | x :: l' =>
      if decide (x = pos) then Some (new :: x :: l') else cons x <$> list_add_before pos new l'
  end.

Definition list_del (node : node_id) (l : list node_id) : list node_id :=
  filter (fun n => n <> node) l.

(** [list_is_last] and [list_next_entry]: the successor of a node on the list. *)
Fixpoint list_next (node : node_id) (l : list node_id) : option (option node_id) :=
  match l with
  | [] => None
  | x :: l' => if decide (x = node) then Some (head l') else list_next node l'
  end.

(** [list_is_first] and [list_prev_entry]. *)
Fixpoint list_prev_from (prev : option node_id) (node : node_id) (l : list node_id)
    : option (option node_id) :=
  match l with
  | [] => None
  | x :: l' => if decide (x = node) then Some prev else list_prev_from (Some x) node l'
  end.

Definition list_prev : node_id -> list node_id -> option (option node_id) := list_prev_from None.

(** ** uvm_rb_tree *)
Record uvm_rb_tree_t := mk_rb_tree {
  rbt_root : rb_tree;
  rbt_head : list node_id;
}.

#[export] Instance eta_rb_tree : Settable uvm_rb_tree_t :=
  fun r => mk_rb_tree (rbt_root r) (rbt_head r).

(** The keys of the nodes. *)
Notation rb_keys := (gmap node_id Z).

Definition uvm_rb_tree_init : uvm_rb_tree_t := mk_rb_tree rb_nil [].

Definition uvm_rb_tree_first (tree : uvm_rb_tree_t) : option node_id := head (rbt_head tree).
Definition uvm_rb_tree_prev (tree : uvm_rb_tree_t) (node : node_id) : option (option node_id) :=
  list_prev node (rbt_head tree).
Definition uvm_rb_tree_next (tree : uvm_rb_tree_t) (node : node_id) : option (option node_id) :=
  list_next node (rbt_head tree).
Definition uvm_rb_tree_empty (tree : uvm_rb_tree_t) : bool := bool_decide (rbt_head tree = []).

(** The node with the key, the parent under which it would be linked, and, when
    the caller passes a pointer for it, the next node in key order. *)
Definition uvm_rb_tree_find_node (keys : rb_keys) (tree : uvm_rb_tree_t) (key : Z)
    (want_next : bool) : option (option node_id * option node_id * option node_id) :=
  r ← rb_descend (fun n => keys !! n) (fun k => key <? k) (fun k => k <? key)
        (rbt_root tree) None;
  let '(node, parent) := r in
  next ← (if negb want_next then Some None else
          match node, parent with
          | Some n, _ => uvm_rb_tree_next tree n
          | None, Some p =>
              k ← keys !! p;
              if key <? k then Some (Some p) else uvm_rb_tree_next tree p
          | None, None => Some None
          end);
  Some (node, parent, next).

Definition uvm_rb_tree_find (keys : rb_keys) (tree : uvm_rb_tree_t) (key : Z)
    : option (option node_id) :=
  r ← uvm_rb_tree_find_node keys tree key false;
  let '(node, _, _) := r in Some node.

Section uvm_rb_tree.
Context `{RbTree}.

Definition uvm_rb_tree_insert (keys : rb_keys) (tree : uvm_rb_tree_t) (node : node_id)
    : option (NV_STATUS * uvm_rb_tree_t) :=
  key ← keys !! node;
  r ← uvm_rb_tree_find_node keys tree key false;
  let '(match_, parent, _) := r in
  match match_, parent with
  | Some _, _ => Some (NV_ERR_IN_USE, tree)
  | None, None =>
      Some (NV_OK, mk_rb_tree (rb_insert_color node (rb_link_root node)) (node :: rbt_head tree))
  | None, Some p =>
      pkey ← keys !! p;
      if key <? pkey then
        l ← list_add_before p node (rbt_head tree);
        Some (NV_OK, mk_rb_tree
          (rb_insert_color node (rb_link_under node p link_rb_left (rbt_root tree))) l)
      else
        l ← list_add_after p node (rbt_head tree);
        Some (NV_OK, mk_rb_tree
          (rb_insert_color node (rb_link_under node p link_rb_right (rbt_root tree))) l)
  end.

Definition uvm_rb_tree_remove (tree : uvm_rb_tree_t) (node : node_id) : uvm_rb_tree_t :=
  mk_rb_tree (rb_erase node (rbt_root tree)) (list_del node (rbt_head tree)).
End uvm_rb_tree.

(** ** Lists *)
Lemma list_next_spec lo n hi : n ∉ lo -> list_next n (lo ++ n :: hi) = Some (head hi).
Proof.
  induction lo as [|x lo IH]; intros Hn; cbn.
  - by rewrite decide_True.
  - apply not_elem_of_cons in Hn as [??]. rewrite decide_False by done. by apply IH.
Qed.

Lemma list_prev_spec lo n hi : n ∉ lo -> list_prev n (lo ++ n :: hi) = Some (last lo).
Proof.
  unfold list_prev. intros Hn.
  enough (forall p, list_prev_from p n (lo ++ n :: hi)
    = Some (match last lo with Some x => Some x | None => p end)) as E
    by (rewrite E; by destruct (last lo)).
  induction lo as [|x lo IH]; intros p; cbn.
  - by rewrite decide_True.
  - apply not_elem_of_cons in Hn as [??]. rewrite decide_False, IH by done.
    rewrite last_cons. by destruct (last lo).
Qed.

Lemma list_add_after_spec lo p n hi :
  p ∉ lo -> list_add_after p n (lo ++ p :: hi) = Some (lo ++ p :: n :: hi).
Proof.
  induction lo as [|x lo IH]; intros Hn; cbn.
  - by rewrite decide_True.
  - apply not_elem_of_cons in Hn as [??]. by rewrite decide_False, IH.
Qed.

Lemma list_add_before_spec lo p n hi :
  p ∉ lo -> list_add_before p n (lo ++ p :: hi) = Some (lo ++ n :: p :: hi).
Proof.
  induction lo as [|x lo IH]; intros Hn; cbn.
  - by rewrite decide_True.
  - apply not_elem_of_cons in Hn as [??]. by rewrite decide_False, IH.
Qed.

Lemma filter_not_absent (n : node_id) (l : list node_id) : n ∉ l -> filter (fun x => x <> n) l = l.
Proof.
  induction l as [|x l IH]; intros Hn; [done|]. apply not_elem_of_cons in Hn as [??].
  rewrite filter_cons_True by done. by rewrite IH.
Qed.

Lemma list_del_spec lo n hi : NoDup (lo ++ n :: hi) -> list_del n (lo ++ n :: hi) = lo ++ hi.
Proof.
  intros Hd. apply NoDup_app in Hd as (_ & Hlo & [Hhi _]%NoDup_cons).
  unfold list_del. rewrite filter_app, filter_cons_False by auto.
  rewrite !filter_not_absent; [done|done|]. intros E. by apply (Hlo n E), list_elem_of_here.
Qed.

Lemma NoDup_mid (lo : list node_id) n hi : NoDup (lo ++ n :: hi) -> n ∉ lo /\ n ∉ hi.
Proof.
  intros (_ & Hlo & [Hhi _]%NoDup_cons)%NoDup_app. split; [|done].
  intros E. by apply (Hlo n E), list_elem_of_here.
Qed.

(** ** The walk down the tree *)
Lemma rb_link_under_absent n p k t : p ∉ inorder t -> rb_link_under n p k t = t.
Proof.
  induction t as [|l IHl x r IHr]; intros Hp; [done|]. cbn in *.
  rewrite elem_of_app, elem_of_cons in Hp.
  rewrite decide_False by (intros ->; tauto). rewrite IHl, IHr; tauto.
Qed.

Section descend.
Context {A : Type} (deref : node_id -> option A) (less greater : A -> bool).

(** The walk goes right, left, or stops at a node. *)
Definition goes_right (n : node_id) : Prop :=
  exists a, deref n = Some a /\ less a = false /\ greater a = true.
Definition goes_left (n : node_id) : Prop := exists a, deref n = Some a /\ less a = true.
Definition stops (n : node_id) : Prop :=
  exists a, deref n = Some a /\ less a = false /\ greater a = false.

Lemma descend_right l x r p :
  goes_right x -> rb_descend deref less greater (rb_node l x r) p
    = rb_descend deref less greater r (Some x).
Proof. intros (a & Ha & Hl & Hg). cbn. by rewrite Ha; cbn; rewrite Hl, Hg. Qed.

Lemma descend_left l x r p :
  goes_left x -> rb_descend deref less greater (rb_node l x r) p
    = rb_descend deref less greater l (Some x).
Proof. intros (a & Ha & Hl). cbn. by rewrite Ha; cbn; rewrite Hl. Qed.

Lemma descend_hit t lo n hi p :
  inorder t = lo ++ n :: hi -> Forall goes_right lo -> stops n -> Forall goes_left hi ->
  exists q, rb_descend deref less greater t p = Some (Some n, q).
Proof.
  revert lo hi p. induction t as [|l IHl x r IHr]; intros lo hi p Ht Hlo Hn Hhi.
  { by destruct lo. }
  cbn in Ht. apply app_eq_inv in Ht as [(k & Hl & Hk)|(k & -> & Hk)].
  - destruct k as [|y k].
    + rewrite app_nil_r in Hl. cbn in Hk. simplify_eq.
      destruct Hn as (a & Ha & Hl' & Hg). exists p. cbn. by rewrite Ha; cbn; rewrite Hl', Hg.
    + cbn in Hk. simplify_eq. rewrite Forall_app, Forall_cons in Hhi.
      destruct Hhi as (Hk & Hx & Hr). rewrite descend_left by done. eauto.
  - destruct k as [|y k].
    + cbn in Hk. simplify_eq. destruct Hn as (a & Ha & Hl' & Hg). exists p. cbn.
      by rewrite Ha; cbn; rewrite Hl', Hg.
    + cbn in Hk. simplify_eq. rewrite Forall_app, Forall_cons in Hlo.
      destruct Hlo as (Hk & Hx & Hr). rewrite descend_right by done. eauto.
Qed.

(** A walk that stops nowhere ends below a neighbour of the missing position,
    at the free link where a new node keeps the order. *)
Definition ends_at_gap (t : rb_tree) (lo hi : list node_id) (p : option node_id) : Prop :=
  (t = rb_nil /\ rb_descend deref less greater t p = Some (None, p)) \/
  (exists q, rb_descend deref less greater t p = Some (None, Some q) /\
    ((exists lo', lo = lo' ++ [q]
      /\ forall n, inorder (rb_link_under n q link_rb_right t) = lo ++ n :: hi) \/
     (exists hi', hi = q :: hi'
      /\ forall n, inorder (rb_link_under n q link_rb_left t) = lo ++ n :: hi))).

Lemma gap_left l x r lo k p :
  NoDup (inorder l ++ x :: inorder r) -> goes_left x -> inorder l = lo ++ k ->
  ends_at_gap l lo k (Some x) -> ends_at_gap (rb_node l x r) lo (k ++ x :: inorder r) p.
Proof.
  intros Hd Hx Hl [[-> E]|(q & E & Hq)]; right; rewrite descend_left, E by done.
  - cbn in Hl. symmetry in Hl. apply app_nil in Hl as [-> ->]. exists x. split; [done|]. right.
    eexists. split; [done|]. intros n. cbn. by rewrite decide_True.
  - exists q. split; [done|]. assert (q ∈ inorder l) as Hql.
    { rewrite Hl. destruct Hq as [(lo' & -> & _)|(hi' & -> & _)]; set_solver. }
    apply NoDup_app in Hd as (_ & Hd & _).
    assert (q <> x) as Hqx by (intros ->; by apply (Hd x Hql), list_elem_of_here).
    assert (q ∉ inorder r) as Hqr by (intros E'; by apply (Hd q Hql), list_elem_of_further).
    destruct Hq as [(lo' & -> & Hq)|(hi' & -> & Hq)]; [left|right];
      (eexists; split; [done|]); intros n; cbn;
      rewrite decide_False by done; cbn; rewrite Hq, rb_link_under_absent by done;
      by rewrite <- !app_assoc.
Qed.

Lemma gap_right l x r k hi p :
  NoDup (inorder l ++ x :: inorder r) -> goes_right x -> inorder r = k ++ hi ->
  ends_at_gap r k hi (Some x) -> ends_at_gap (rb_node l x r) (inorder l ++ x :: k) hi p.
Proof.
  intros Hd Hx Hr [[-> E]|(q & E & Hq)]; right; rewrite descend_right, E by done.
  - cbn in Hr. symmetry in Hr. apply app_nil in Hr as [-> ->]. exists x. split; [done|]. left.
    eexists. split; [done|]. intros n. cbn. rewrite decide_True by done. cbn.
    by rewrite <- app_assoc.
  - exists q. split; [done|]. assert (q ∈ inorder r) as Hqr.
    { rewrite Hr. destruct Hq as [(lo' & -> & _)|(hi' & -> & _)]; set_solver. }
    apply NoDup_app in Hd as (_ & Hd & [Hxr _]%NoDup_cons).
    assert (q <> x) as Hqx by (intros ->; done).
    assert (q ∉ inorder l) as Hql by (intros E'; by apply (Hd q E'), list_elem_of_further).
    destruct Hq as [(lo' & -> & Hq)|(hi' & -> & Hq)];
      [left; exists (inorder l ++ x :: lo')|right; eexists];
      (split; [by rewrite <- ?app_assoc|]); intros n; cbn;
      rewrite decide_False by done; cbn; rewrite Hq, rb_link_under_absent by done;
      repeat (rewrite <- app_assoc; cbn); done.
Qed.

Lemma descend_miss t lo hi p :
  inorder t = lo ++ hi -> NoDup (inorder t) -> Forall goes_right lo -> Forall goes_left hi ->
  ends_at_gap t lo hi p.
Proof.
  revert lo hi p. induction t as [|l IHl x r IHr]; intros lo hi p Ht Hd Hlo Hhi; [by left|].
  cbn in Ht, Hd. pose proof Hd as (Hdl & _ & [_ Hdr]%NoDup_cons)%NoDup_app.
  apply app_eq_inv in Ht as [(k & Hl & ->)|([|y k] & -> & Hk)]; cbn in Hk || idtac.
  - rewrite Forall_app, Forall_cons in Hhi. destruct Hhi as (Hk & Hx & Hr).
    apply gap_left; auto.
  - subst hi. apply Forall_cons in Hhi as [Hx Hr]. rewrite app_nil_r in *.
    apply (gap_left l x r _ [] p); rewrite ?app_nil_r; auto.
    apply IHl; rewrite ?app_nil_r; auto.
  - injection Hk as <- Hr. rewrite Forall_app, Forall_cons in Hlo.
    destruct Hlo as (Hl & Hx & Hk). apply gap_right; auto.
Qed.

(** The same for a tree whose nodes, in order, are the entries [l] of the
    store, when the walk goes the same way at every entry on one side of the
    searched position. *)
Definition right_of (e : node_id * A) : Prop := less e.2 = false /\ greater e.2 = true.
Definition left_of (e : node_id * A) : Prop := less e.2 = true.
Definition at_entry (e : node_id * A) : Prop := less e.2 = false /\ greater e.2 = false.

Definition holds_entries (l : list (node_id * A)) : Prop :=
  Forall (fun e => deref e.1 = Some e.2) l.

Lemma holds_goes (P : node_id -> Prop) (Q : node_id * A -> Prop) l :
  (forall e, deref e.1 = Some e.2 -> Q e -> P e.1) ->
  holds_entries l -> Forall Q l -> Forall P l.*1.
Proof.
  intros HQ Hl HQl. rewrite Forall_fmap. pose proof (conj Hl HQl) as Hb.
  unfold holds_entries in Hb. rewrite <- Forall_and in Hb.
  eapply Forall_impl; [exact Hb|]. intros e [??]. by apply HQ.
Qed.

(** Sorted entries are cut by the searched position. *)
Lemma cut_entries (R : node_id * A -> node_id * A -> Prop) l :
  StronglySorted R l ->
  (forall x y, R x y -> ~ right_of x -> left_of y) ->
  (exists lo n a hi, l = lo ++ (n, a) :: hi /\ Forall right_of lo /\ at_entry (n, a)
    /\ Forall left_of hi) \/
  (exists lo hi, l = lo ++ hi /\ Forall right_of lo /\ Forall left_of hi).
Proof.
  intros Hs HR. induction Hs as [|[n a] l Hs IH Hl].
  { right. by exists [], []. }
  destruct (less a) eqn:El; [|destruct (greater a) eqn:Eg].
  - right. exists [], ((n, a) :: l). split_and!; [done|done|]. constructor; [done|].
    eapply Forall_impl; [exact Hl|]. intros y Hy. apply (HR _ _ Hy). intros [E _]. cbn in E. congruence.
  - destruct IH as [(lo & m & b & hi & -> & Hlo & Hm & Hhi)|(lo & hi & -> & Hlo & Hhi)].
    + left. exists ((n, a) :: lo), m, b, hi. split_and!; try done. by constructor.
    + right. exists ((n, a) :: lo), hi. split_and!; try done. by constructor.
  - left. exists [], n, a, l. split_and!; try done.
    eapply Forall_impl; [exact Hl|]. intros y Hy. apply (HR _ _ Hy). intros [_ E]. cbn in E. congruence.
Qed.

Lemma descend_entries_hit t lo n a hi p :
  inorder t = (lo ++ (n, a) :: hi).*1 -> holds_entries (lo ++ (n, a) :: hi) ->
  Forall right_of lo -> at_entry (n, a) -> Forall left_of hi ->
  exists q, rb_descend deref less greater t p = Some (Some n, q).
Proof.
  intros Ht Hl Hlo [Hn1 Hn2] Hhi. rewrite fmap_app in Ht. cbn in Ht.
  unfold holds_entries in Hl. rewrite Forall_app, Forall_cons in Hl. destruct Hl as (H1 & H2 & H3).
  apply (descend_hit t lo.*1 n hi.*1 p Ht).
  - eapply holds_goes; [|exact H1|exact Hlo]. intros e He [??]. by exists e.2.
  - by exists a.
  - eapply holds_goes; [|exact H3|exact Hhi]. intros e He ?. by exists e.2.
Qed.

Lemma descend_entries_miss t lo hi p :
  inorder t = (lo ++ hi).*1 -> NoDup (lo ++ hi).*1 -> holds_entries (lo ++ hi) ->
  Forall right_of lo -> Forall left_of hi ->
  (lo = [] /\ hi = [] /\ rb_descend deref less greater t p = Some (None, p)) \/
  (exists lo' q a, lo = lo' ++ [(q, a)]
    /\ rb_descend deref less greater t p = Some (None, Some q)
    /\ forall n, inorder (rb_link_under n q link_rb_right t) = lo.*1 ++ n :: hi.*1) \/
  (exists hi' q a, hi = (q, a) :: hi'
    /\ rb_descend deref less greater t p = Some (None, Some q)
    /\ forall n, inorder (rb_link_under n q link_rb_left t) = lo.*1 ++ n :: hi.*1).
Proof.
  intros Ht Hd Hl Hlo Hhi. rewrite <- Ht in Hd. rewrite fmap_app in Ht.
  unfold holds_entries in Hl. rewrite Forall_app in Hl. destruct Hl as [H1 H2].
  destruct (descend_miss t lo.*1 hi.*1 p Ht Hd) as [[-> E]|(q & E & [(k & Hk & Hq)|(k & Hk & Hq)])].
  - eapply holds_goes; [|exact H1|exact Hlo]. intros e He [??]. by exists e.2.
  - eapply holds_goes; [|exact H2|exact Hhi]. intros e He ?. by exists e.2.
  - left. cbn in Ht. symmetry in Ht. apply app_nil in Ht as [Elo Ehi].
    apply fmap_nil_inv in Elo, Ehi. done.
  - right; left. apply fmap_app_inv in Hk as (k' & [|[q' a] []] & ? & ? & ->); simplify_eq/=.
    eauto 8.
  - right; right. apply fmap_cons_inv in Hk as ([q' a] & k' & ? & ? & ->); simplify_eq/=.
    eauto 8.
Qed.
End descend.


Lemma holds_lookup {A : Type} (deref : node_id -> option A) l n a :
  holds_entries deref l -> (n, a) ∈ l -> deref n = Some a.
Proof. unfold holds_entries. rewrite Forall_forall. intros Hl Hin. exact (Hl _ Hin). Qed.

(** Linking next to the neighbour of a position keeps the order of the list. *)
Lemma add_after_last {A : Type} (lo : list (node_id * A)) q a hi n :
  NoDup ((lo ++ [(q, a)]) ++ hi).*1 ->
  list_add_after q n ((lo ++ [(q, a)]) ++ hi).*1 = Some ((lo ++ [(q, a)]).*1 ++ n :: hi.*1).
Proof.
  rewrite !fmap_app. cbn. rewrite <- !app_assoc. cbn. intros [? _]%NoDup_mid.
  by rewrite list_add_after_spec.
Qed.

Lemma add_before_first {A : Type} (lo : list (node_id * A)) q a hi n :
  NoDup (lo ++ (q, a) :: hi).*1 ->
  list_add_before q n (lo ++ (q, a) :: hi).*1 = Some (lo.*1 ++ n :: ((q, a) :: hi).*1).
Proof.
  rewrite !fmap_app. cbn. intros [? _]%NoDup_mid. by rewrite list_add_before_spec.
Qed.

(** Entries in a strict order have different nodes. *)
Lemma entries_nodup {A : Type} (deref : node_id -> option A)
    (R : node_id * A -> node_id * A -> Prop) l :
  (forall x y, R x y -> x.2 <> y.2) -> holds_entries deref l -> StronglySorted R l -> NoDup l.*1.
Proof.
  intros HR Hl Hs. induction Hs as [|x l Hs IH Hx]; cbn; [constructor|].
  apply Forall_cons in Hl as [Hdx Hl]. constructor; [|by apply IH].
  intros (y & Hy & Hin)%list_elem_of_fmap. rewrite Forall_forall in Hx, Hl.
  apply (HR x y (Hx y Hin)). specialize (Hl y Hin). rewrite <- Hy in Hl. congruence.
Qed.

Lemma sorted_cut {A : Type} (R : A -> A -> Prop) lo x hi :
  StronglySorted R (lo ++ hi) -> Forall (fun y => R y x) lo -> Forall (R x) hi ->
  StronglySorted R (lo ++ x :: hi).
Proof.
  induction lo as [|y lo IH]; cbn; intros Hs Hlo Hhi; [by constructor|].
  apply StronglySorted_inv in Hs as [Hs Hy]. apply Forall_cons in Hlo as [Hyx Hlo].
  constructor; [by apply IH|]. apply Forall_app in Hy as [??]. apply Forall_app; auto.
Qed.

Lemma sorted_app {A : Type} (R : A -> A -> Prop) lo hi :
  StronglySorted R (lo ++ hi) <->
  StronglySorted R lo /\ StronglySorted R hi /\ Forall (fun x => Forall (R x) hi) lo.
Proof.
  induction lo as [|x lo IH]; cbn; [split; [by repeat constructor|tauto]|].
  split.
  - intros [Hs Hx]%StronglySorted_inv. apply IH in Hs as (? & ? & ?).
    apply Forall_app in Hx as [??]. split_and!; [by constructor|done|by constructor].
  - intros ([? ?]%StronglySorted_inv & ? & [??]%Forall_cons). constructor; [by apply IH|].
    apply Forall_app; auto.
Qed.

Lemma sorted_delete {A : Type} (R : A -> A -> Prop) lo x hi :
  StronglySorted R (lo ++ x :: hi) -> StronglySorted R (lo ++ hi).
Proof.
  rewrite !sorted_app. intros (Hlo & [Hhi _]%StronglySorted_inv & Hx). split_and!; [done|done|].
  eapply Forall_impl; [exact Hx|]. by intros y [_ ?]%Forall_cons.
Qed.

(** ** Key trees are finite maps *)
Section refinement.
Context `{RbTreeLaws}.

(** The tree holds the entries [l], in key order. *)
Definition rb_refines (keys : rb_keys) (tree : uvm_rb_tree_t) (l : list (node_id * Z)) : Prop :=
  inorder (rbt_root tree) = l.*1 /\ rbt_head tree = l.*1
  /\ holds_entries (fun n => keys !! n) l /\ StronglySorted (fun x y => x.2 < y.2) l.

Lemma rb_refines_nodup keys tree l : rb_refines keys tree l -> NoDup l.*1.
Proof.
  intros (_ & _ & Hl & Hs). eapply entries_nodup; [|exact Hl|exact Hs]. intros x y Hxy; cbn in Hxy. lia.
Qed.

Lemma rb_init_refines keys : rb_refines keys uvm_rb_tree_init [].
Proof. split_and!; [done|done|apply Forall_nil_2|constructor]. Qed.

(** Where a key is, or would be. *)
Lemma rb_cut keys tree l key :
  rb_refines keys tree l ->
  (exists lo n hi, l = lo ++ (n, key) :: hi /\ Forall (fun e => e.2 < key) lo
    /\ Forall (fun e => key < e.2) hi
    /\ exists q, rb_descend (fun n => keys !! n) (fun k => key <? k) (fun k => k <? key)
                   (rbt_root tree) None = Some (Some n, q)) \/
  (exists lo hi, l = lo ++ hi /\ Forall (fun e => e.2 < key) lo /\ Forall (fun e => key < e.2) hi).
Proof.
  intros (Ht & _ & Hl & Hs).
  destruct (cut_entries (fun k => key <? k) (fun k => k <? key) _ l Hs)
    as [(lo & n & a & hi & -> & Hlo & [Hn1 Hn2] & Hhi)|(lo & hi & -> & Hlo & Hhi)].
  - unfold right_of, left_of. intros [m a] [n b]; cbn. intros ? Hr.
    destruct (key <? a) eqn:?, (a <? key) eqn:?; try lia; by exfalso; apply Hr.
  - left. cbn in Hn1, Hn2. assert (a = key) as -> by lia. exists lo, n, hi. split_and!; [done|..].
    + eapply Forall_impl; [exact Hlo|]. unfold right_of. intros e ?; cbn in *. lia.
    + eapply Forall_impl; [exact Hhi|]. unfold left_of. intros e ?; cbn in *. lia.
    + by eapply descend_entries_hit.
  - right. exists lo, hi. split_and!; [done|..].
    + eapply Forall_impl; [exact Hlo|]. unfold right_of. intros e ?; cbn in *. lia.
    + eapply Forall_impl; [exact Hhi|]. unfold left_of. intros e ?; cbn in *. lia.
Qed.

(** The map from keys to nodes that a list of entries stands for. *)
Definition rb_map (l : list (node_id * Z)) : gmap Z node_id :=
  list_to_map ((fun e => (e.2, e.1)) <$> l).

Lemma rb_map_app lo hi : rb_map (lo ++ hi) = rb_map lo ∪ rb_map hi.
Proof. unfold rb_map. by rewrite fmap_app, list_to_map_app. Qed.

Lemma rb_map_cons n key l : rb_map ((n, key) :: l) = <[key := n]> (rb_map l).
Proof. done. Qed.

Lemma rb_map_absent l key : Forall (fun e => e.2 <> key) l -> rb_map l !! key = None.
Proof.
  intros Hl. apply not_elem_of_list_to_map_1. rewrite <- list_fmap_compose.
  intros ([n k] & -> & Hin)%list_elem_of_fmap. rewrite Forall_forall in Hl.
  by apply (Hl _ Hin).
Qed.

Lemma rb_map_mid lo n key hi :
  Forall (fun e => e.2 < key) lo ->
  rb_map (lo ++ (n, key) :: hi) = <[key := n]> (rb_map (lo ++ hi)).
Proof.
  intros Hlo. rewrite !rb_map_app, rb_map_cons, insert_union_r; [done|].
  apply rb_map_absent. eapply Forall_impl; [exact Hlo|]. cbn. lia.
Qed.

Lemma rb_map_gap lo key hi :
  Forall (fun e => e.2 < key) lo -> Forall (fun e => key < e.2) hi -> rb_map (lo ++ hi) !! key = None.
Proof.
  intros Hlo Hhi. apply rb_map_absent, Forall_app. split;
    [eapply Forall_impl; [exact Hlo|]|eapply Forall_impl; [exact Hhi|]]; cbn; lia.
Qed.

(** A new node next to the position the walk found. *)
Lemma rb_insert_refines keys tree lo hi n key root l :
  rb_refines keys tree (lo ++ hi) -> keys !! n = Some key -> n ∉ (lo ++ hi).*1 ->
  Forall (fun e => e.2 < key) lo -> Forall (fun e => key < e.2) hi ->
  inorder root = lo.*1 ++ n :: hi.*1 -> l = lo.*1 ++ n :: hi.*1 ->
  rb_refines keys (mk_rb_tree (rb_insert_color n root) l) (lo ++ (n, key) :: hi).
Proof.
  intros Hr Hn Hnew Hlo Hhi Hroot ->. pose proof (rb_refines_nodup _ _ _ Hr) as Hd.
  destruct Hr as (_ & _ & Hl & Hs). unfold holds_entries in Hl.
  rewrite Forall_app in Hl. destruct Hl as [Hl1 Hl2].
  assert (NoDup (inorder root)) as Hdn.
  { rewrite Hroot. rewrite fmap_app in Hd, Hnew. rewrite <- Permutation_middle. by constructor. }
  split_and!; cbn.
  - rewrite rb_insert_color_inorder, Hroot, fmap_app; [done|done|]. rewrite Hroot. set_solver.
  - by rewrite fmap_app.
  - apply Forall_app. split; [done|]. by constructor.
  - by apply sorted_cut.
Qed.

Lemma rb_find_node_cut keys tree l key :
  rb_refines keys tree l ->
  (exists lo n hi, l = lo ++ (n, key) :: hi /\ Forall (fun e => e.2 < key) lo
    /\ exists q, uvm_rb_tree_find_node keys tree key false = Some (Some n, q, None)) \/
  (exists lo hi, l = lo ++ hi /\ Forall (fun e => e.2 < key) lo /\ Forall (fun e => key < e.2) hi
    /\ ((lo = [] /\ hi = [] /\ uvm_rb_tree_find_node keys tree key false = Some (None, None, None)) \/
        (exists lo' q a, lo = lo' ++ [(q, a)]
          /\ uvm_rb_tree_find_node keys tree key false = Some (None, Some q, None)
          /\ forall n, inorder (rb_link_under n q link_rb_right (rbt_root tree)) = lo.*1 ++ n :: hi.*1) \/
        (exists hi' q a, hi = (q, a) :: hi'
          /\ uvm_rb_tree_find_node keys tree key false = Some (None, Some q, None)
          /\ forall n, inorder (rb_link_under n q link_rb_left (rbt_root tree)) = lo.*1 ++ n :: hi.*1))).
Proof.
  intros Hr. unfold uvm_rb_tree_find_node.
  destruct (rb_cut _ _ _ key Hr) as [(lo & n & hi & -> & Hlo & Hhi & q & ->)|(lo & hi & -> & Hlo & Hhi)].
  { left. exists lo, n, hi. split_and!; [done|done|]. by exists q. }
  right. exists lo, hi. split_and!; [done|done|done|].
  pose proof (rb_refines_nodup _ _ _ Hr) as Hd. destruct Hr as (Ht & _ & Hl & _).
  destruct (descend_entries_miss (fun n => keys !! n) (fun k => key <? k) (fun k => k <? key)
    _ lo hi None Ht Hd Hl) as [(-> & -> & ->)|[(lo' & q & a & -> & -> & Hq)|(hi' & q & a & -> & -> & Hq)]].
  - eapply Forall_impl; [exact Hlo|]. unfold right_of. cbn. lia.
  - eapply Forall_impl; [exact Hhi|]. unfold left_of. cbn. lia.
  - by left.
  - right; left. by exists lo', q, a.
  - right; right. by exists hi', q, a.
Qed.

Lemma rb_find_lookup keys tree l key :
  rb_refines keys tree l -> uvm_rb_tree_find keys tree key = Some (rb_map l !! key).
Proof.
  intros Hr. unfold uvm_rb_tree_find.
  destruct (rb_find_node_cut _ _ _ key Hr)
    as [(lo & n & hi & -> & Hlo & q & ->)|(lo & hi & -> & Hlo & Hhi & Hq)].
  - cbn. by rewrite rb_map_mid, lookup_insert_eq.
  - rewrite rb_map_gap by done.
    by destruct Hq as [(-> & -> & ->)|[(lo' & q & a & -> & -> & Hq)|(hi' & q & a & -> & -> & Hq)]].
Qed.

Lemma rb_insert_fresh keys tree l n key :
  rb_refines keys tree l -> keys !! n = Some key -> n ∉ l.*1 -> rb_map l !! key = None ->
  exists tree' l', uvm_rb_tree_insert keys tree n = Some (NV_OK, tree')
    /\ rb_refines keys tree' l' /\ rb_map l' = <[key := n]> (rb_map l).
Proof.
  intros Hr Hn Hnew Hfree. unfold uvm_rb_tree_insert. rewrite Hn. cbn [mbind option_bind].
  destruct (rb_find_node_cut _ _ _ key Hr)
    as [(lo & m & hi & -> & Hlo & q & _)|(lo & hi & -> & Hlo & Hhi & Hq)].
  { by rewrite rb_map_mid, lookup_insert_eq in Hfree. }
  assert (rb_map (lo ++ (n, key) :: hi) = <[key := n]> (rb_map (lo ++ hi))) as Hmap
    by (by apply rb_map_mid).
  pose proof Hr as (_ & Hhead & Hl & _). pose proof (rb_refines_nodup _ _ _ Hr) as Hd.
  destruct Hq as [(-> & -> & ->)|[(lo' & q & a & -> & -> & Hq)|(hi' & q & a & -> & -> & Hq)]];
    cbn [mbind option_bind]; rewrite Hhead.
  - do 2 eexists. split; [done|]. split; [|exact Hmap]. by eapply rb_insert_refines.
  - rewrite (holds_lookup _ _ q a Hl) by set_solver.
    assert (a < key) as Ha by (rewrite Forall_forall in Hlo; apply (Hlo (q, a)); set_solver).
    cbn [mbind option_bind]. replace (key <? a) with false by lia.
    rewrite (add_after_last _ _ _ _ _ Hd). cbn. do 2 eexists. split; [done|].
    split; [|exact Hmap]. by eapply rb_insert_refines.
  - rewrite (holds_lookup _ _ q a Hl) by set_solver.
    assert (key < a) as Ha by (rewrite Forall_forall in Hhi; apply (Hhi (q, a)); set_solver).
    cbn [mbind option_bind]. replace (key <? a) with true by lia.
    rewrite (add_before_first _ _ _ _ _ Hd). cbn. do 2 eexists. split; [done|].
    split; [|exact Hmap]. by eapply rb_insert_refines.
Qed.

Lemma rb_insert_used keys tree l n key m :
  rb_refines keys tree l -> keys !! n = Some key -> rb_map l !! key = Some m ->
  uvm_rb_tree_insert keys tree n = Some (NV_ERR_IN_USE, tree).
Proof.
  intros Hr Hn Hm. unfold uvm_rb_tree_insert. rewrite Hn. cbn.
  destruct (rb_find_node_cut _ _ _ key Hr)
    as [(lo & n' & hi & -> & Hlo & q & ->)|(lo & hi & -> & Hlo & Hhi & _)]; [done|].
  by rewrite rb_map_gap in Hm.
Qed.

Lemma rb_remove_delete keys tree l n key :
  rb_refines keys tree l -> (n, key) ∈ l ->
  exists l', rb_refines keys (uvm_rb_tree_remove tree n) l' /\ rb_map l' = delete key (rb_map l).
Proof.
  intros Hr (lo & hi & ->)%list_elem_of_split. pose proof (rb_refines_nodup _ _ _ Hr) as Hd.
  destruct Hr as (Ht & Hhead & Hl & Hs). exists (lo ++ hi).
  rewrite fmap_app in Ht, Hhead, Hd. cbn in Ht, Hhead, Hd.
  pose proof Hs as (_ & [_ Hhi]%StronglySorted_inv & Hlo)%sorted_app.
  unfold holds_entries in Hl. rewrite Forall_app, Forall_cons in Hl. split; [split_and!|].
  - cbn. rewrite rb_erase_inorder, Ht, fmap_app; [by apply list_del_spec|by rewrite Ht|].
    rewrite Ht. set_solver.
  - cbn. rewrite Hhead, fmap_app. by apply list_del_spec.
  - apply Forall_app; tauto.
  - by eapply sorted_delete.
  - assert (Forall (fun e => e.2 < key) lo) as Hlo'.
    { eapply Forall_impl; [exact Hlo|]. by intros e [? _]%Forall_cons. }
    rewrite rb_map_mid by done. rewrite delete_insert_id; [done|].
    apply rb_map_gap; [done|]. exact Hhi.
Qed.

(** Key trees implement maps: [find] is lookup, [insert] adds the node or
    reports that the key is in use, [remove] deletes. *)
Theorem rb_tree_refines_map keys tree l :
  rb_refines keys tree l ->
  (forall key, uvm_rb_tree_find keys tree key = Some (rb_map l !! key)) /\
  (forall n key, keys !! n = Some key -> n ∉ l.*1 ->
    match rb_map l !! key with
    | Some _ => uvm_rb_tree_insert keys tree n = Some (NV_ERR_IN_USE, tree)
    | None => exists tree' l', uvm_rb_tree_insert keys tree n = Some (NV_OK, tree')
        /\ rb_refines keys tree' l' /\ rb_map l' = <[key := n]> (rb_map l)
    end) /\
  (forall n key, (n, key) ∈ l ->
    exists l', rb_refines keys (uvm_rb_tree_remove tree n) l'
      /\ rb_map l' = delete key (rb_map l)).
Proof.
  intros Hr. split_and!; intros.
  - by apply rb_find_lookup.
  - destruct (rb_map l !! key) eqn:E; [by eapply rb_insert_used|by apply rb_insert_fresh].
  - by apply rb_remove_delete.
Qed.
End refinement.

(** ** A tree that satisfies the laws

    Without rebalancing, for evaluating the models. *)
Fixpoint rb_join (l r : rb_tree) : rb_tree :=
  match l with
  | rb_nil => r
  | rb_node ll n lr => rb_node ll n (rb_join lr r)
  end.

Fixpoint plain_erase (node : node_id) (t : rb_tree) : rb_tree :=
  match t with
  | rb_nil => rb_nil
  | rb_node l n r =>
      if decide (n = node) then rb_join l r
      else rb_node (plain_erase node l) n (plain_erase node r)
  end.

Definition plain_rb : RbTree := {| rb_insert_color := fun _ t => t; rb_erase := plain_erase |}.

Lemma rb_join_inorder l r : inorder (rb_join l r) = inorder l ++ inorder r.
Proof.
  induction l as [|ll _ n lr IH]; [done|]. cbn. by rewrite IH, <- app_assoc.
Qed.

Lemma plain_erase_absent n t : n ∉ inorder t -> plain_erase n t = t.
Proof.
  induction t as [|l IHl x r IHr]; intros Hp; [done|]. cbn in *.
  rewrite elem_of_app, elem_of_cons in Hp.
  rewrite decide_False by (intros ->; tauto). rewrite IHl, IHr; tauto.
Qed.

Lemma plain_rb_laws : @RbTreeLaws plain_rb.
Proof.
  split; [done|]. intros n t Hd _. cbn. induction t as [|l IHl x r IHr]; [done|].
  cbn in *. pose proof (NoDup_mid _ _ _ Hd) as [Hxl Hxr].
  apply NoDup_app in Hd as (Hdl & _ & [_ Hdr]%NoDup_cons). rewrite filter_app.
  destruct (decide (x = n)) as [->|Hne].
  - rewrite filter_cons_False, !filter_not_absent by auto. apply rb_join_inorder.
  - rewrite filter_cons_True by done. cbn. by rewrite IHl, IHr.
Qed.
