(* ===== verification/RangeTree.v ===== *)
(** * Range trees

    Model of kernel-open/nvidia-uvm/uvm_range_tree.{c,h}: a set of objects with
    disjoint inclusive address ranges, kept in a red-black tree for lookup and in
    a list in address order for iteration.  The VA ranges, range groups, policy
    ranges and range allocators of UVM are range trees.

    Nodes are embedded in objects of the caller, so their ranges are in a store
    ([rt_nodes]) that the operations read and, where the code does, write.  The
    refinement theorem relates every operation to its description on the plain
    list of ranges. *)

From S2P Require Import Prelude PageMask RbTree.

Record uvm_range_tree_node_t := mk_range_node {
  rn_start : Z;
  rn_end : Z;
}.

#[export] Instance eta_range_node : Settable uvm_range_tree_node_t :=
  fun r => mk_range_node (rn_start r) (rn_end r).
#[export] Instance range_node_eq_dec : EqDecision uvm_range_tree_node_t.
Proof. solve_decision. Defined.

Record uvm_range_tree_t := mk_range_tree {
  rb_root : rb_tree;
  rt_head : list node_id;
}.

#[export] Instance eta_range_tree : Settable uvm_range_tree_t :=
  fun r => mk_range_tree (rb_root r) (rt_head r).

Notation rt_nodes := (gmap node_id uvm_range_tree_node_t).

Definition uvm_ranges_overlap (a_start a_end b_start b_end : Z) : bool :=
  (b_start <=? a_end) && (a_start <=? b_end).

Definition range_nodes_overlap (a b : uvm_range_tree_node_t) : bool :=
  uvm_ranges_overlap (rn_start a) (rn_end a) (rn_start b) (rn_end b).

Definition uvm_range_tree_init : uvm_range_tree_t := mk_range_tree rb_nil [].

(** ** Iteration *)
Definition uvm_range_tree_prev (tree : uvm_range_tree_t) (node : node_id)
    : option (option node_id) := list_prev node (rt_head tree).

Definition uvm_range_tree_next (tree : uvm_range_tree_t) (node : node_id)
    : option (option node_id) := list_next node (rt_head tree).

Definition uvm_range_tree_empty (tree : uvm_range_tree_t) : bool :=
  bool_decide (rt_head tree = []).

Definition uvm_range_tree_last (tree : uvm_range_tree_t) : option node_id := last (rt_head tree).

Definition uvm_range_tree_node_size (node : uvm_range_tree_node_t) : Z :=
  NvU64 (rn_end node - rn_start node + 1).

(** The node that contains the address, the parent under which a node with the
    address would be linked and, when the caller passes a pointer for it, the
    next node in address order. *)
Definition range_node_find (nodes : rt_nodes) (tree : uvm_range_tree_t) (addr : Z)
    (want_next : bool) : option (option node_id * option node_id * option node_id) :=
  r ← rb_descend (fun n => nodes !! n) (fun nd => addr <? rn_start nd) (fun nd => rn_end nd <? addr)
        (rb_root tree) None;
  let '(node, parent) := r in
  next ← (if negb want_next then Some None else
          match node, parent with
          | Some n, _ => uvm_range_tree_next tree n
          | None, Some p =>
              nd ← nodes !! p;
              if addr <? rn_start nd then Some (Some p) else uvm_range_tree_next tree p
          | None, None => Some None
          end);
  Some (node, parent, next).

Definition uvm_range_tree_find (nodes : rt_nodes) (tree : uvm_range_tree_t) (addr : Z)
    : option (option node_id) :=
  r ← range_node_find nodes tree addr false;
  let '(node, _, _) := r in Some node.

(** [UVM_ASSERT] on what the previous node satisfies, if there is one. *)
Definition prev_satisfies (nodes : rt_nodes) (prev : option node_id)
    (p : uvm_range_tree_node_t -> bool) : option bool :=
  match prev with
  | None => Some true
  | Some n => p <$> nodes !! n
  end.

Definition uvm_range_tree_iter_first (nodes : rt_nodes) (tree : uvm_range_tree_t) (start end_ : Z)
    : option (option node_id) :=
  UVM_ASSERT start <=? end_;
  r ← range_node_find nodes tree start true;
  let '(node, _, next) := r in
  match node, next with
  | Some n, _ => Some (Some n)
  | None, Some n =>
      nd ← nodes !! n;
      UVM_ASSERT start <? rn_start nd;
      prev ← uvm_range_tree_prev tree n;
      ok ← prev_satisfies nodes prev (fun p => rn_end p <? start);
      UVM_ASSERT (ok : bool);
      Some (if rn_start nd <=? end_ then Some n else None)
  | None, None => Some None
  end.

Definition uvm_range_tree_iter_next (nodes : rt_nodes) (tree : uvm_range_tree_t) (node : node_id)
    (end_ : Z) : option (option node_id) :=
  next ← uvm_range_tree_next tree node;
  match next with
  | None => Some None
  | Some n => nd ← nodes !! n; Some (if rn_start nd <=? end_ then Some n else None)
  end.

Definition uvm_range_tree_iter_prev (nodes : rt_nodes) (tree : uvm_range_tree_t) (node : node_id)
    (start : Z) : option (option node_id) :=
  prev ← uvm_range_tree_prev tree node;
  match prev with
  | None => Some None
  | Some n => nd ← nodes !! n; Some (if start <=? rn_start nd then Some n else None)
  end.

(** [uvm_range_tree_for_each_in]: the body runs on a node in the caller's state
    and says whether the loop breaks; the step to the next node reads the tree of
    that state.  Each iteration moves forward on the list, so as many steps as
    the list has nodes are enough. *)
Fixpoint for_each_in_from {S : Type} (fuel : nat) (view : S -> rt_nodes * uvm_range_tree_t)
    (body : node_id -> S -> option (bool * S)) (end_ : Z) (node : option node_id) (s : S) : option S :=
  match node with
  | None => Some s
  | Some n =>
      match fuel with
      | O => None
      | Datatypes.S fuel =>
          r ← body n s;
          let '(stop, s) := r in
          if (stop : bool) then Some s
          else
            next ← uvm_range_tree_iter_next (view s).1 (view s).2 n end_;
            for_each_in_from fuel view body end_ next s
      end
  end.

Definition uvm_range_tree_for_each_in {S : Type} (view : S -> rt_nodes * uvm_range_tree_t)
    (start end_ : Z) (body : node_id -> S -> option (bool * S)) (s : S) : option S :=
  node ← uvm_range_tree_iter_first (view s).1 (view s).2 start end_;
  for_each_in_from (length (rt_head (view s).2)) view body end_ node s.

(** ** Holes *)

(** The end of [find_hole]: the hole starts after the node before it. *)
Definition hole_start (nodes : rt_nodes) (node : option node_id) : option Z :=
  match node with
  | None => Some 0
  | Some n => nd ← nodes !! n; Some (NvU64 (rn_end nd + 1))
  end.

(** The status and, on success, what is stored through [start] and [end]. *)
Definition uvm_range_tree_find_hole (nodes : rt_nodes) (tree : uvm_range_tree_t) (addr : Z)
    : option (NV_STATUS * option (Z * Z)) :=
  node ← uvm_range_tree_iter_first nodes tree addr NV_U64_MAX;
  match node with
  | Some n =>
      nd ← nodes !! n;
      if rn_start nd <=? addr then Some (NV_ERR_UVM_ADDRESS_IN_USE, None)
      else
        prev ← uvm_range_tree_prev tree n;
        s ← hole_start nodes prev;
        Some (NV_OK, Some (s, NvU64 (rn_start nd - 1)))
  | None =>
      s ← hole_start nodes (uvm_range_tree_last tree);
      Some (NV_OK, Some (s, NV_U64_MAX))
  end.

Definition uvm_range_tree_find_hole_in (nodes : rt_nodes) (tree : uvm_range_tree_t) (addr start end_ : Z)
    : option (NV_STATUS * Z * Z) :=
  UVM_ASSERT start <=? addr;
  UVM_ASSERT addr <=? end_;
  r ← uvm_range_tree_find_hole nodes tree addr;
  match r with
  | (status, Some (temp_start, temp_end)) => Some (status, Z.max temp_start start, Z.min temp_end end_)
  | (status, None) => Some (status, start, end_)
  end.

(** ** Changes *)
Section changes.
Context `{RbTree}.

Definition uvm_range_tree_remove (tree : uvm_range_tree_t) (node : node_id) : uvm_range_tree_t :=
  mk_range_tree (rb_erase node (rb_root tree)) (list_del node (rt_head tree)).

Definition uvm_range_tree_add (nodes : rt_nodes) (tree : uvm_range_tree_t) (node : node_id)
    : option (NV_STATUS * uvm_range_tree_t) :=
  nd ← nodes !! node;
  UVM_ASSERT rn_start nd <=? rn_end nd;
  r ← range_node_find nodes tree (rn_start nd) false;
  let '(match_, parent, _) := r in
  match match_, parent with
  | Some _, _ => Some (NV_ERR_UVM_ADDRESS_IN_USE, tree)
  | None, None =>
      Some (NV_OK, mk_range_tree (rb_insert_color node (rb_link_root node)) (node :: rt_head tree))
  | None, Some p =>
      pd ← nodes !! p;
      if range_nodes_overlap nd pd then Some (NV_ERR_UVM_ADDRESS_IN_USE, tree)
      else if rn_start nd <? rn_start pd then
        prev ← uvm_range_tree_prev tree p;
        ok ← prev_satisfies nodes prev (fun q => negb (range_nodes_overlap nd q));
        UVM_ASSERT (ok : bool);
        l ← list_add_before p node (rt_head tree);
        Some (NV_OK, mk_range_tree
          (rb_insert_color node (rb_link_under node p link_rb_left (rb_root tree))) l)
      else
        next ← uvm_range_tree_next tree p;
        in_use ← match next with
                 | None => Some false
                 | Some n => range_nodes_overlap nd <$> nodes !! n
                 end;
        if (in_use : bool) then Some (NV_ERR_UVM_ADDRESS_IN_USE, tree)
        else
          l ← list_add_after p node (rt_head tree);
          Some (NV_OK, mk_range_tree
            (rb_insert_color node (rb_link_under node p link_rb_right (rb_root tree))) l)
  end.

Definition uvm_range_tree_shrink_node (nodes : rt_nodes) (node : node_id) (new_start new_end : Z)
    : option rt_nodes :=
  nd ← nodes !! node;
  UVM_ASSERT new_start <=? new_end;
  UVM_ASSERT rn_start nd <=? new_start;
  UVM_ASSERT new_end <=? rn_end nd;
  Some (<[node := mk_range_node new_start new_end]> nodes).

Definition uvm_range_tree_split (nodes : rt_nodes) (tree : uvm_range_tree_t) (existing new : node_id)
    : option (rt_nodes * uvm_range_tree_t) :=
  ed ← nodes !! existing;
  nd ← nodes !! new;
  UVM_ASSERT rn_start ed <? rn_start nd;
  UVM_ASSERT rn_start nd <=? rn_end ed;
  let nodes := <[new := nd <| rn_end := rn_end ed |>]> nodes in
  let nodes := <[existing := ed <| rn_end := NvU64 (rn_start nd - 1) |>]> nodes in
  r ← uvm_range_tree_add nodes tree new;
  let '(status, tree) := r in
  UVM_ASSERT status =? NV_OK;
  Some (nodes, tree).

Definition uvm_range_tree_merge_prev (nodes : rt_nodes) (tree : uvm_range_tree_t) (node : node_id)
    : option (option node_id * rt_nodes * uvm_range_tree_t) :=
  prev ← uvm_range_tree_prev tree node;
  match prev with
  | None => Some (None, nodes, tree)
  | Some p =>
      pd ← nodes !! p;
      nd ← nodes !! node;
      if negb (rn_end pd =? NvU64 (rn_start nd - 1)) then Some (None, nodes, tree)
      else
        Some (Some p, <[node := nd <| rn_start := rn_start pd |>]> nodes,
              uvm_range_tree_remove tree p)
  end.

Definition uvm_range_tree_merge_next (nodes : rt_nodes) (tree : uvm_range_tree_t) (node : node_id)
    : option (option node_id * rt_nodes * uvm_range_tree_t) :=
  next ← uvm_range_tree_next tree node;
  match next with
  | None => Some (None, nodes, tree)
  | Some n =>
      xd ← nodes !! n;
      nd ← nodes !! node;
      if negb (rn_start xd =? NvU64 (rn_end nd + 1)) then Some (None, nodes, tree)
      else
        Some (Some n, <[node := nd <| rn_end := rn_end xd |>]> nodes,
              uvm_range_tree_remove tree n)
  end.
End changes.

(** ** The reference: a list of disjoint ranges in address order *)
Notation entry := (node_id * uvm_range_tree_node_t)%type.

Definition covers (addr : Z) (e : entry) : bool :=
  (rn_start e.2 <=? addr) && (addr <=? rn_end e.2).
Definition meets (start end_ : Z) (e : entry) : bool :=
  (rn_start e.2 <=? end_) && (start <=? rn_end e.2).

(** A range is not empty and fits in 64 bits. *)
Definition range_ok (r : uvm_range_tree_node_t) : Prop :=
  0 <= rn_start r <= rn_end r /\ rn_end r <= NV_U64_MAX.

Definition before (x y : entry) : Prop := rn_end x.2 < rn_start y.2.

Definition spec_add (n : node_id) (r : uvm_range_tree_node_t) (l : list entry)
    : NV_STATUS * list entry :=
  if existsb (fun e => range_nodes_overlap r e.2) l then (NV_ERR_UVM_ADDRESS_IN_USE, l)
  else (NV_OK, List.filter (fun e => rn_end e.2 <? rn_start r) l ++ (n, r)
               :: List.filter (fun e => rn_end r <? rn_start e.2) l).

(** A tree and its store hold the ranges [l]. *)
Definition rt_refines (nodes : rt_nodes) (tree : uvm_range_tree_t) (l : list entry) : Prop :=
  inorder (rb_root tree) = l.*1 /\ rt_head tree = l.*1
  /\ holds_entries (fun n => nodes !! n) l /\ StronglySorted before l
  /\ Forall (fun e => range_ok e.2) l.

(** ** Lemmas on disjoint ranges *)
Lemma sorted_ok_cons (x : entry) l :
  StronglySorted before (x :: l) -> Forall (fun e => range_ok e.2) (x :: l) ->
  Forall (fun y => rn_start x.2 < rn_start y.2) l.
Proof.
  intros [_ Hx]%StronglySorted_inv [Hok _]%Forall_cons.
  eapply Forall_impl; [exact Hx|]. unfold before, range_ok in *. intros y ?; cbn in *. lia.
Qed.

Lemma rt_refines_nodup nodes tree l : rt_refines nodes tree l -> NoDup l.*1.
Proof.
  intros (_ & _ & Hl & Hs & Hok).
  induction Hs as [|x l Hs IH Hx]; cbn; [constructor|].
  pose proof Hl as [Hdx Hl']%Forall_cons. pose proof Hok as [Hxok Hok']%Forall_cons.
  constructor; [|by apply IH].
  intros (y & Hy & Hin)%list_elem_of_fmap. rewrite Forall_forall in Hx, Hl'.
  specialize (Hl' y Hin). rewrite <- Hy in Hl'. specialize (Hx y Hin).
  rewrite Hdx in Hl'. injection Hl' as E. unfold before in Hx. rewrite <- E in Hx.
  destruct Hxok. lia.
Qed.

Lemma rt_init_refines nodes : rt_refines nodes uvm_range_tree_init [].
Proof. split_and!; [done|done|apply Forall_nil_2|constructor|constructor]. Qed.

Lemma find_skip (p : entry -> bool) lo hi :
  Forall (fun e => p e = false) lo -> List.find p (lo ++ hi) = List.find p hi.
Proof. induction 1 as [|x lo Hx _ IH]; [done|]. cbn. by rewrite Hx. Qed.

Lemma find_none (p : entry -> bool) l :
  Forall (fun e => p e = false) l -> List.find p l = None.
Proof. induction 1 as [|x l Hx _ IH]; [done|]. cbn. by rewrite Hx. Qed.

Lemma filter_all (p : entry -> bool) l : Forall (fun e => p e = true) l -> List.filter p l = l.
Proof. induction 1 as [|x l Hx _ IH]; [done|]. cbn. by rewrite Hx, IH. Qed.

Lemma filter_none (p : entry -> bool) l : Forall (fun e => p e = false) l -> List.filter p l = [].
Proof. induction 1 as [|x l Hx _ IH]; [done|]. cbn. by rewrite Hx, IH. Qed.

(** A [Forall] from another one and the ranges being well formed. *)
Ltac ranges H :=
  eapply Forall_impl; [exact H|];
  unfold before, covers, meets, range_ok, right_of, left_of, range_nodes_overlap, uvm_ranges_overlap in *;
  intros ?; cbn in *; lia.

Ltac ranges_with H1 H2 :=
  let Hb := fresh "Hb" in
  pose proof (conj H1 H2) as Hb; rewrite <- Forall_and in Hb; ranges Hb.

(** ** Lookup *)
Lemma find_node_hit nodes tree lo n r hi addr want :
  rt_refines nodes tree (lo ++ (n, r) :: hi) ->
  Forall (fun e => rn_end e.2 < addr) lo -> rn_start r <= addr <= rn_end r ->
  Forall (fun e => addr < rn_start e.2) hi ->
  exists q, range_node_find nodes tree addr want
    = Some (Some n, q, if want then fst <$> head hi else None).
Proof.
  intros Hr Hlo Hn Hhi. unfold range_node_find.
  pose proof (rt_refines_nodup _ _ _ Hr) as Hd. destruct Hr as (Ht & Hh & Hl & Hs & Hok).
  destruct (descend_entries_hit (fun n => nodes !! n) (fun nd => addr <? rn_start nd)
    (fun nd => rn_end nd <? addr) (rb_root tree) lo n r hi None Ht Hl) as [q Hq].
  - apply Forall_app in Hok as [Hok _]. ranges_with Hlo Hok.
  - unfold at_entry. cbn. lia.
  - ranges Hhi.
  - rewrite Hq. cbn [mbind option_bind]. exists q. destruct want; [|done]. cbn [negb].
    unfold uvm_range_tree_next. rewrite Hh. rewrite fmap_app in Hd |- *. cbn in Hd |- *.
    rewrite list_next_spec by (by apply NoDup_mid in Hd as [? _]). by destruct hi.
Qed.

Definition found_gap (nodes : rt_nodes) (tree : uvm_range_tree_t) (addr : Z) (lo hi : list entry) : Prop :=
  exists p, (forall want, range_node_find nodes tree addr want
      = Some (None, p, if want then fst <$> head hi else None)) /\
  ((p = None /\ lo = [] /\ hi = []) \/
   (exists lo' q a, p = Some q /\ lo = lo' ++ [(q, a)]
     /\ forall n, inorder (rb_link_under n q link_rb_right (rb_root tree)) = lo.*1 ++ n :: hi.*1) \/
   (exists hi' q a, p = Some q /\ hi = (q, a) :: hi'
     /\ forall n, inorder (rb_link_under n q link_rb_left (rb_root tree)) = lo.*1 ++ n :: hi.*1)).

Lemma find_node_miss nodes tree lo hi addr :
  rt_refines nodes tree (lo ++ hi) ->
  Forall (fun e => rn_start e.2 <= rn_end e.2 < addr) lo -> Forall (fun e => addr < rn_start e.2) hi ->
  found_gap nodes tree addr lo hi.
Proof.
  intros Hr Hlo Hhi. pose proof (rt_refines_nodup _ _ _ Hr) as Hd.
  destruct Hr as (Ht & Hh & Hl & Hs & Hok). unfold found_gap, range_node_find, uvm_range_tree_next.
  rewrite Hh.
  destruct (descend_entries_miss (fun n => nodes !! n) (fun nd => addr <? rn_start nd)
    (fun nd => rn_end nd <? addr) (rb_root tree) lo hi None Ht Hd Hl)
    as [(-> & -> & ->)|[(lo' & q & a & -> & -> & Hq)|(hi' & q & a & -> & -> & Hq)]].
  - ranges Hlo.
  - ranges Hhi.
  - exists None. split; [by intros []|by left].
  - exists (Some q). split; [|right; left; eauto 6].
    intros []; [|done]. cbn [mbind option_bind negb].
    rewrite (holds_lookup _ _ q a Hl) by set_solver. cbn [mbind option_bind].
    apply Forall_app in Hlo as [_ [Ha _]%Forall_cons]. cbn in Ha.
    replace (addr <? rn_start a) with false by lia.
    rewrite !fmap_app in Hd |- *. cbn in Hd |- *. rewrite <- !app_assoc in Hd |- *. cbn in Hd |- *.
    rewrite list_next_spec by (by apply NoDup_mid in Hd as [? _]). by destruct hi.
  - exists (Some q). split; [|right; right; eauto 6].
    intros []; [|done]. cbn [mbind option_bind negb].
    rewrite (holds_lookup _ _ q a Hl) by set_solver. cbn [mbind option_bind].
    apply Forall_cons in Hhi as [Ha _]. cbn in Ha.
    by replace (addr <? rn_start a) with true by lia.
Qed.

(** Either one range covers an address, or it is in the gap between two. *)
Lemma rt_cut nodes tree l addr :
  rt_refines nodes tree l ->
  (exists lo n r hi, l = lo ++ (n, r) :: hi /\ Forall (fun e => rn_end e.2 < addr) lo
    /\ rn_start r <= addr <= rn_end r /\ Forall (fun e => addr < rn_start e.2) hi) \/
  (exists lo hi, l = lo ++ hi /\ Forall (fun e => rn_start e.2 <= rn_end e.2 < addr) lo
    /\ Forall (fun e => addr < rn_start e.2) hi).
Proof.
  intros (_ & _ & _ & Hs & Hok).
  assert (StronglySorted (fun x y => before x y /\ range_ok x.2) l) as Hs'.
  { clear -Hs Hok. induction Hs as [|x l Hs IH Hx]; constructor; apply Forall_cons in Hok as [Hxok Hok].
    - by apply IH.
    - eapply Forall_impl; [exact Hx|]. done. }
  destruct (cut_entries (fun nd => addr <? rn_start nd) (fun nd => rn_end nd <? addr) _ l Hs')
    as [(lo & n & a & hi & -> & Hlo & [Hn1 Hn2] & Hhi)|(lo & hi & -> & Hlo & Hhi)].
  - unfold right_of, left_of. intros x y [Hxy Hx]. unfold before, range_ok in Hxy, Hx.
    destruct (addr <? rn_start x.2) eqn:?, (rn_end x.2 <? addr) eqn:?; try lia; tauto.
  - left. exists lo, n, a, hi. cbn in Hn1, Hn2. split_and!; [done|ranges Hlo|lia|lia|ranges Hhi].
  - right. exists lo, hi. split_and!; [done| |ranges Hhi]. apply Forall_app in Hok as [Hok _].
    ranges_with Hlo Hok.
Qed.

Lemma rt_find nodes tree l addr :
  rt_refines nodes tree l ->
  uvm_range_tree_find nodes tree addr = Some (fst <$> List.find (covers addr) l).
Proof.
  intros Hr. unfold uvm_range_tree_find.
  destruct (rt_cut _ _ _ addr Hr) as [(lo & n & r & hi & -> & Hlo & Hn & Hhi)|(lo & hi & -> & Hlo & Hhi)].
  - destruct (find_node_hit _ _ _ _ _ _ addr false Hr Hlo Hn Hhi) as [q ->]. cbn.
    rewrite find_skip by ranges Hlo. cbn. unfold covers. cbn.
    by replace (_ && _) with true by lia.
  - destruct (find_node_miss _ _ _ _ addr Hr Hlo Hhi) as (p & -> & _). cbn.
    rewrite find_skip, find_none; [done|ranges Hhi|ranges Hlo].
Qed.

(** What the links of the list give in terms of the entries. *)
Lemma rt_next nodes tree lo n r hi :
  rt_refines nodes tree (lo ++ (n, r) :: hi) ->
  uvm_range_tree_next tree n = Some (fst <$> head hi).
Proof.
  intros Hr. pose proof (rt_refines_nodup _ _ _ Hr) as Hd. destruct Hr as (_ & Hh & _).
  unfold uvm_range_tree_next. rewrite Hh. rewrite fmap_app in Hd |- *. cbn in Hd |- *.
  rewrite list_next_spec by (by apply NoDup_mid in Hd as [? _]). by destruct hi.
Qed.

Lemma last_fmap_fst (l : list entry) : last l.*1 = fst <$> last l.
Proof. by rewrite fmap_last. Qed.

Lemma rt_prev nodes tree lo n r hi :
  rt_refines nodes tree (lo ++ (n, r) :: hi) ->
  uvm_range_tree_prev tree n = Some (fst <$> last lo).
Proof.
  intros Hr. pose proof (rt_refines_nodup _ _ _ Hr) as Hd. destruct Hr as (_ & Hh & _).
  unfold uvm_range_tree_prev. rewrite Hh. rewrite fmap_app in Hd |- *. cbn in Hd |- *.
  rewrite list_prev_spec by (by apply NoDup_mid in Hd as [? _]). by rewrite fmap_last.
Qed.

Lemma rt_lookup nodes tree l n r : rt_refines nodes tree l -> (n, r) ∈ l -> nodes !! n = Some r.
Proof. intros (_ & _ & Hl & _) Hin. exact (holds_lookup _ _ _ _ Hl Hin). Qed.

(** An assertion on the previous node holds when all ranges before satisfy it. *)
Lemma rt_prev_satisfies nodes tree lo hi p :
  rt_refines nodes tree (lo ++ hi) -> Forall (fun e => p e.2 = true) lo ->
  prev_satisfies nodes (fst <$> last lo) p = Some true.
Proof.
  intros Hr Hlo. destruct (last lo) as [[q a]|] eqn:E; [|done]. cbn.
  apply last_Some in E as [lo' ->]. rewrite (rt_lookup _ _ _ q a Hr) by set_solver. cbn.
  apply Forall_app in Hlo as [_ [Ha _]%Forall_cons]. cbn in Ha. by rewrite Ha.
Qed.

(** The first range that meets an interval is the first of those that do not
    end before it, if it starts in time. *)
Lemma find_meets_head start end_ hi :
  Forall (fun e => start < rn_start e.2) hi -> StronglySorted before hi ->
  Forall (fun e => range_ok e.2) hi ->
  List.find (meets start end_) hi
    = e ← head hi; if rn_start e.2 <=? end_ then Some e else None.
Proof.
  intros Hhi Hs Hok. destruct hi as [|e hi]; [done|]. cbn.
  pose proof (sorted_ok_cons _ _ Hs Hok) as He.
  apply Forall_cons in Hhi as [Hse Hhi], Hok as [Hoke Hok]. unfold range_ok in Hoke.
  unfold meets at 1. destruct (rn_start e.2 <=? end_) eqn:E; cbn.
  - by replace (start <=? rn_end e.2) with true by lia.
  - apply find_none. eapply Forall_impl; [exact He|]. intros y Hy. cbn in Hy. unfold meets.
    apply andb_false_intro1. lia.
Qed.

Lemma rt_iter_first nodes tree l start end_ :
  rt_refines nodes tree l -> start <= end_ ->
  uvm_range_tree_iter_first nodes tree start end_ = Some (fst <$> List.find (meets start end_) l).
Proof.
  intros Hr Hse. unfold uvm_range_tree_iter_first. replace (start <=? end_) with true by lia.
  destruct (rt_cut _ _ _ start Hr) as [(lo & n & r & hi & -> & Hlo & Hn & Hhi)|(lo & hi & -> & Hlo & Hhi)].
  - destruct (find_node_hit _ _ _ _ _ _ start true Hr Hlo Hn Hhi) as [q ->]. cbn.
    rewrite find_skip by ranges Hlo. cbn. unfold meets. cbn.
    by replace (_ && _) with true by lia.
  - destruct (find_node_miss _ _ _ _ start Hr Hlo Hhi) as (p & -> & _). cbn [mbind option_bind].
    rewrite find_skip by ranges Hlo. pose proof Hr as (_ & _ & _ & Hs & Hok).
    apply sorted_app in Hs as (_ & Hs & _). apply Forall_app in Hok as [_ Hok].
    rewrite find_meets_head by done. destruct hi as [|[m a] hi]; [done|]. cbn [fmap option_fmap option_map head fst].
    rewrite (rt_lookup _ _ _ m a Hr) by set_solver. cbn [mbind option_bind snd].
    apply Forall_cons in Hhi as [Hm _]. cbn in Hm.
    replace (start <? rn_start a) with true by lia.
    rewrite (rt_prev _ _ _ _ _ _ Hr). cbn [mbind option_bind].
    rewrite (rt_prev_satisfies _ _ _ _ _ Hr) by ranges Hlo. cbn.
    by destruct (rn_start a <=? end_).
Qed.

Lemma rt_iter_next nodes tree lo n r hi end_ :
  rt_refines nodes tree (lo ++ (n, r) :: hi) ->
  uvm_range_tree_iter_next nodes tree n end_
    = Some (e ← head hi; if rn_start e.2 <=? end_ then Some e.1 else None).
Proof.
  intros Hr. unfold uvm_range_tree_iter_next. rewrite (rt_next _ _ _ _ _ _ Hr). cbn.
  destruct hi as [|[m a] hi]; [done|]. cbn. rewrite (rt_lookup _ _ _ m a Hr) by set_solver. done.
Qed.

(** ** Loops *)

(** The body on each element in turn, until it breaks. *)
Fixpoint run_until {S : Type} (body : node_id -> S -> option (bool * S)) (l : list node_id) (s : S)
    : option S :=
  match l with
  | [] => Some s
  | n :: l => r ← body n s; let '(stop, s) := r in if (stop : bool) then Some s else run_until body l s
  end.

Definition starts_by (end_ : Z) (e : entry) : bool := rn_start e.2 <=? end_.

Lemma filter_starts_late end_ e hi :
  StronglySorted before (e :: hi) -> Forall (fun e => range_ok e.2) (e :: hi) ->
  starts_by end_ e = false -> List.filter (starts_by end_) (e :: hi) = [].
Proof.
  intros Hs Hok He. apply filter_none. constructor; [done|].
  pose proof (sorted_ok_cons _ _ Hs Hok) as Hl. unfold starts_by in *.
  eapply Forall_impl; [exact Hl|]. intros y ?. cbn in *. lia.
Qed.

Lemma filter_ext_Forall (p q : entry -> bool) l :
  Forall (fun e => p e = q e) l -> List.filter p l = List.filter q l.
Proof. induction 1 as [|x l Hx _ IH]; [done|]. cbn. by rewrite Hx, IH. Qed.

Section loops.
Context {S : Type} (view : S -> rt_nodes * uvm_range_tree_t).
Context (body : node_id -> S -> option (bool * S)) (end_ : Z).
Hypothesis body_keeps_view : forall n s s', body n s = Some (false, s') -> view s' = view s.

Lemma for_each_in_from_exact fuel hi lo s :
  rt_refines (view s).1 (view s).2 (lo ++ hi) -> (length hi <= fuel)%nat ->
  for_each_in_from fuel view body end_
    (e ← head hi; if starts_by end_ e then Some e.1 else None) s
    = run_until body (List.filter (starts_by end_) hi).*1 s.
Proof.
  revert lo s fuel. induction hi as [|[n r] hi IH]; intros lo s fuel Hr Hf; [by destruct fuel|].
  pose proof Hr as (_ & _ & _ & Hs & Hok). apply sorted_app in Hs as (_ & Hs & _).
  apply Forall_app in Hok as [_ Hok].
  cbn [head mbind option_bind]. destruct (starts_by end_ (n, r)) eqn:E.
  - destruct fuel as [|fuel]; cbn [length] in Hf; [lia|]. cbn [for_each_in_from fst].
    cbn [List.filter]. rewrite E. cbn [fmap list_fmap run_until fst].
    destruct (body n s) as [[[] s']|] eqn:Hb; [done| |done]. cbn [mbind option_bind].
    rewrite (body_keeps_view _ _ _ Hb). rewrite (rt_iter_next _ _ _ _ _ _ _ Hr).
    cbn [mbind option_bind]. apply (IH (lo ++ [(n, r)])); [|lia].
    rewrite (body_keeps_view _ _ _ Hb). by rewrite <- app_assoc.
  - rewrite filter_starts_late by done. by destruct fuel.
Qed.

Lemma for_each_in_exact l start s :
  rt_refines (view s).1 (view s).2 l -> start <= end_ ->
  uvm_range_tree_for_each_in view start end_ body s
    = run_until body (List.filter (meets start end_) l).*1 s.
Proof.
  intros Hr Hse. unfold uvm_range_tree_for_each_in. rewrite (rt_iter_first _ _ _ _ _ Hr Hse).
  cbn [mbind option_bind]. pose proof Hr as (_ & Hh & _ & Hs & Hok). rewrite Hh, length_fmap.
  destruct (rt_cut _ _ _ start Hr) as [(lo & n & r & hi & -> & Hlo & Hn & Hhi)|(lo & hi & -> & Hlo & Hhi)].
  - rewrite find_skip, List.filter_app, (filter_none _ lo) by ranges Hlo. cbn [app].
    rewrite (filter_ext_Forall (meets start end_) (starts_by end_)).
    + rewrite <- (for_each_in_from_exact (length (lo ++ (n, r) :: hi)) _ lo) by (try done; rewrite length_app; apply Nat.le_add_l).
      cbn. unfold meets, starts_by. cbn. by replace (rn_start r <=? end_) with true by lia;
        replace (start <=? rn_end r) with true by lia.
    + apply Forall_app in Hok as [_ Hok]. constructor.
      * unfold meets, starts_by. cbn. lia.
      * apply Forall_cons in Hok as [_ Hok]. unfold starts_by. ranges_with Hhi Hok.
  - rewrite find_skip, List.filter_app, (filter_none _ lo) by ranges Hlo. cbn [app].
    apply sorted_app in Hs as (_ & Hs & _). apply Forall_app in Hok as [_ Hok].
    rewrite (filter_ext_Forall (meets start end_) (starts_by end_)).
    + rewrite <- (for_each_in_from_exact (length (lo ++ hi)) _ lo) by (try done; rewrite length_app; apply Nat.le_add_l).
      rewrite find_meets_head by done. destruct hi as [|e hi]; [done|]. cbn. unfold starts_by.
      by destruct (rn_start e.2 <=? end_).
    + unfold starts_by. ranges_with Hhi Hok.
Qed.
End loops.

(** ** Changes *)
Section change_lemmas.
Context `{RbTreeLaws}.

Lemma rt_link_refines nodes tree lo hi n r root l :
  rt_refines nodes tree (lo ++ hi) -> nodes !! n = Some r -> range_ok r -> n ∉ (lo ++ hi).*1 ->
  Forall (fun e => rn_end e.2 < rn_start r) lo -> Forall (fun e => rn_end r < rn_start e.2) hi ->
  inorder root = lo.*1 ++ n :: hi.*1 -> l = lo.*1 ++ n :: hi.*1 ->
  rt_refines nodes (mk_range_tree (rb_insert_color n root) l) (lo ++ (n, r) :: hi).
Proof.
  intros Hr Hn Hrok Hnew Hlo Hhi Hroot ->. pose proof (rt_refines_nodup _ _ _ Hr) as Hd.
  destruct Hr as (_ & _ & Hl & Hs & Hok). unfold holds_entries in Hl.
  rewrite Forall_app in Hl, Hok. destruct Hl as [Hl1 Hl2], Hok as [Hok1 Hok2].
  assert (NoDup (inorder root)) as Hdn.
  { rewrite Hroot. rewrite fmap_app in Hd, Hnew. rewrite <- Permutation_middle. by constructor. }
  split_and!; cbn.
  - rewrite rb_insert_color_inorder, Hroot, fmap_app; [done|done|]. rewrite Hroot. set_solver.
  - by rewrite fmap_app.
  - apply Forall_app. split; [done|]. by constructor.
  - by apply sorted_cut.
  - apply Forall_app. split; [done|]. by constructor.
Qed.

(** In a gap, a range is free exactly when it ends before the next one. *)
Lemma gap_overlap (r : uvm_range_tree_node_t) lo hi :
  range_ok r -> StronglySorted before hi -> Forall (fun e => range_ok e.2) hi ->
  Forall (fun e => rn_start e.2 <= rn_end e.2 < rn_start r) lo ->
  Forall (fun e => rn_start r < rn_start e.2) hi ->
  existsb (fun e => range_nodes_overlap r e.2) (lo ++ hi)
    = match hi with [] => false | e :: _ => rn_start e.2 <=? rn_end r end.
Proof.
  intros Hrok Hs Hok Hlo Hhi. rewrite existsb_app.
  assert (existsb (fun e : entry => range_nodes_overlap r e.2) lo = false) as ->.
  { apply Is_true_false. intros E%Is_true_true%existsb_exists.
    destruct E as (e & Hin%list_elem_of_In & He). rewrite Forall_forall in Hlo.
    specialize (Hlo e Hin). unfold range_nodes_overlap, uvm_ranges_overlap in He. lia. }
  cbn. destruct hi as [|e hi]; [done|]. cbn.
  pose proof (sorted_ok_cons _ _ Hs Hok) as He. apply Forall_cons in Hok as [Heok _], Hhi as [Hre _].
  unfold range_ok in *. destruct (rn_start e.2 <=? rn_end r) eqn:E.
  - unfold range_nodes_overlap at 1, uvm_ranges_overlap. rewrite E. cbn.
    by replace (rn_start r <=? rn_end e.2) with true by lia.
  - unfold range_nodes_overlap at 1, uvm_ranges_overlap. rewrite E. cbn.
    apply Is_true_false. intros (y & Hin%list_elem_of_In & Hy)%Is_true_true%existsb_exists.
    rewrite Forall_forall in He. specialize (He y Hin).
    unfold range_nodes_overlap, uvm_ranges_overlap in Hy. lia.
Qed.

(** What [spec_add] gives in a gap. *)
Lemma spec_add_gap n (r : uvm_range_tree_node_t) lo hi :
  range_ok r -> StronglySorted before hi -> Forall (fun e => range_ok e.2) hi ->
  Forall (fun e => rn_start e.2 <= rn_end e.2 < rn_start r) lo ->
  Forall (fun e => rn_start r < rn_start e.2) hi ->
  spec_add n r (lo ++ hi)
    = if match hi with [] => false | e :: _ => rn_start e.2 <=? rn_end r end
      then (NV_ERR_UVM_ADDRESS_IN_USE, lo ++ hi) else (NV_OK, lo ++ (n, r) :: hi).
Proof.
  intros Hrok Hs Hok Hlo Hhi. unfold spec_add. rewrite gap_overlap by done.
  destruct (match hi with [] => false | e :: _ => rn_start e.2 <=? rn_end r end) eqn:E; [done|].
  assert (Forall (fun e => rn_end r < rn_start e.2) hi) as Hhi'.
  { destruct hi as [|e hi]; [done|]. constructor; [lia|].
    pose proof (sorted_ok_cons _ _ Hs Hok) as He. ranges He. }
  rewrite !List.filter_app, (filter_all _ lo), (filter_none _ hi), (filter_none _ lo), (filter_all _ hi);
    [by rewrite app_nil_r|ranges Hhi'|ranges Hlo| |ranges Hlo].
  ranges_with Hhi Hok.
Qed.

(** A range that starts inside another one is refused. *)
Lemma spec_add_hit n (r : uvm_range_tree_node_t) lo m a hi :
  range_ok r -> rn_start a <= rn_start r <= rn_end a ->
  spec_add n r (lo ++ (m, a) :: hi) = (NV_ERR_UVM_ADDRESS_IN_USE, lo ++ (m, a) :: hi).
Proof.
  intros Hrok Ha. unfold spec_add. rewrite existsb_app. cbn.
  assert (range_nodes_overlap r a = true) as ->.
  { unfold range_ok, range_nodes_overlap, uvm_ranges_overlap in *. lia. }
  by rewrite orb_true_r.
Qed.

(** The three places where the code links a node. *)
Lemma rt_add_gap nodes tree lo hi n r :
  rt_refines nodes tree (lo ++ hi) -> nodes !! n = Some r -> range_ok r -> n ∉ (lo ++ hi).*1 ->
  Forall (fun e => rn_start e.2 <= rn_end e.2 < rn_start r) lo ->
  Forall (fun e => rn_start r < rn_start e.2) hi ->
  exists tree', uvm_range_tree_add nodes tree n = Some ((spec_add n r (lo ++ hi)).1, tree')
    /\ rt_refines nodes tree' (spec_add n r (lo ++ hi)).2.
Proof.
  intros Hr Hn Hrok Hnew Hlo Hhi. pose proof (rt_refines_nodup _ _ _ Hr) as Hd.
  pose proof Hr as (_ & Hh & _ & Hs & Hok).
  apply sorted_app in Hs as (_ & Hs & _). apply Forall_app in Hok as [_ Hok].
  rewrite spec_add_gap by done. unfold uvm_range_tree_add. rewrite Hn. cbn [mbind option_bind].
  replace (rn_start r <=? rn_end r) with true by (unfold range_ok in *; lia).
  assert (Forall (fun e => rn_end e.2 < rn_start r) lo) as Hlo' by ranges Hlo.
  assert (forall e hi', hi = e :: hi' -> rn_start e.2 <=? rn_end r = false ->
    Forall (fun e => rn_end r < rn_start e.2) hi) as Hhi'.
  { intros e hi' -> E. constructor; [lia|]. pose proof (sorted_ok_cons _ _ Hs Hok) as He. ranges He. }
  destruct (find_node_miss _ _ _ _ (rn_start r) Hr Hlo Hhi)
    as (p & -> & [(-> & -> & ->)|[(lo' & q & a & -> & -> & Hq)|(hi' & q & a & -> & -> & Hq)]]);
    cbn [mbind option_bind].
  - rewrite Hh. eexists. split; [done|]. by eapply rt_link_refines.
  - rewrite (rt_lookup _ _ _ q a Hr) by set_solver. cbn [mbind option_bind].
    apply Forall_app in Hlo as [_ [Ha _]%Forall_cons]. cbn in Ha.
    replace (range_nodes_overlap r a) with false
      by (unfold range_nodes_overlap, uvm_ranges_overlap; lia).
    replace (rn_start r <? rn_start a) with false by lia.
    assert (rt_refines nodes tree (lo' ++ (q, a) :: hi)) as Hr' by (by rewrite <- app_assoc in Hr).
    rewrite (rt_next _ _ _ _ _ _ Hr'). cbn [mbind option_bind]. rewrite Hh.
    rewrite (add_after_last _ _ _ _ _ Hd). destruct hi as [|[m b] hi]; cbn [head fmap option_fmap option_map fst].
    + cbn. eexists. split; [done|]. eapply rt_link_refines; try done.
    + rewrite (rt_lookup _ _ _ m b Hr) by set_solver. cbn [mbind option_bind fmap option_fmap option_map snd].
      apply Forall_cons in Hhi as [Hb _], Hok as [Hbok _]. unfold range_ok in Hbok. cbn in Hb, Hbok.
      replace (range_nodes_overlap r b) with (rn_start b <=? rn_end r)
        by (unfold range_nodes_overlap, uvm_ranges_overlap; lia).
      destruct (rn_start b <=? rn_end r) eqn:E; cbn; eexists; (split; [done|]); [done|].
      eapply rt_link_refines; try done. by eapply Hhi'.
  - rewrite (rt_lookup _ _ _ q a Hr) by set_solver. cbn [mbind option_bind snd].
    apply Forall_cons in Hhi as [Ha _], Hok as [Haok _]. unfold range_ok in Haok. cbn in Ha, Haok.
    replace (range_nodes_overlap r a) with (rn_start a <=? rn_end r)
      by (unfold range_nodes_overlap, uvm_ranges_overlap; lia).
    destruct (rn_start a <=? rn_end r) eqn:E; [by eexists|].
    replace (rn_start r <? rn_start a) with true by lia.
    rewrite (rt_prev _ _ _ _ _ _ Hr). cbn [mbind option_bind].
    rewrite (rt_prev_satisfies _ _ _ _ _ Hr) by ranges Hlo. cbn [mbind option_bind].
    rewrite Hh, (add_before_first _ _ _ _ _ Hd). cbn. eexists. split; [done|].
    eapply rt_link_refines; try done. by eapply Hhi'.
Qed.

Lemma rt_add nodes tree l n r :
  rt_refines nodes tree l -> nodes !! n = Some r -> range_ok r -> n ∉ l.*1 ->
  exists tree', uvm_range_tree_add nodes tree n = Some ((spec_add n r l).1, tree')
    /\ rt_refines nodes tree' (spec_add n r l).2.
Proof.
  intros Hr Hn Hrok Hnew.
  destruct (rt_cut _ _ _ (rn_start r) Hr)
    as [(lo & m & a & hi & -> & Hlo & Ha & Hhi)|(lo & hi & -> & Hlo & Hhi)].
  - exists tree. rewrite spec_add_hit by done. split; [|done].
    unfold uvm_range_tree_add. rewrite Hn. cbn [mbind option_bind].
    replace (rn_start r <=? rn_end r) with true by (unfold range_ok in *; lia).
    by destruct (find_node_hit _ _ _ _ _ _ _ false Hr Hlo Ha Hhi) as [q ->].
  - by apply rt_add_gap.
Qed.

Lemma rt_remove nodes tree lo n r hi :
  rt_refines nodes tree (lo ++ (n, r) :: hi) ->
  rt_refines nodes (uvm_range_tree_remove tree n) (lo ++ hi).
Proof.
  intros Hr. pose proof (rt_refines_nodup _ _ _ Hr) as Hd. destruct Hr as (Ht & Hh & Hl & Hs & Hok).
  rewrite fmap_app in Ht, Hh, Hd. cbn in Ht, Hh, Hd.
  unfold holds_entries in Hl. rewrite Forall_app, Forall_cons in Hl, Hok. split_and!.
  - cbn. rewrite rb_erase_inorder, Ht, fmap_app; [by apply list_del_spec|by rewrite Ht|].
    rewrite Ht. set_solver.
  - cbn. rewrite Hh, fmap_app. by apply list_del_spec.
  - apply Forall_app; tauto.
  - by eapply sorted_delete.
  - apply Forall_app; tauto.
Qed.

(** Writing to a node outside the tree. *)
Lemma rt_frame nodes nodes' tree l :
  rt_refines nodes tree l -> (forall n, n ∈ l.*1 -> nodes' !! n = nodes !! n) ->
  rt_refines nodes' tree l.
Proof.
  intros (Ht & Hh & Hl & Hs & Hok) Hn. split_and!; try done.
  unfold holds_entries in *. rewrite Forall_forall in Hl |- *. intros [n r] Hin.
  rewrite <- (Hl _ Hin). apply Hn. apply list_elem_of_fmap. by exists (n, r).
Qed.

(** Writing a range to a node of the tree, between its neighbours. *)
Lemma rt_set nodes tree lo n r r' hi :
  rt_refines nodes tree (lo ++ (n, r) :: hi) -> range_ok r' ->
  Forall (fun e => rn_end e.2 < rn_start r') lo -> Forall (fun e => rn_end r' < rn_start e.2) hi ->
  rt_refines (<[n := r']> nodes) tree (lo ++ (n, r') :: hi).
Proof.
  intros Hr Hok' Hlo Hhi. pose proof (rt_refines_nodup _ _ _ Hr) as Hd.
  rewrite fmap_app in Hd. cbn in Hd. pose proof (NoDup_mid _ _ _ Hd) as [Hnlo Hnhi].
  destruct Hr as (Ht & Hh & Hl & Hs & Hok).
  rewrite fmap_app in Ht, Hh. unfold holds_entries in Hl.
  rewrite Forall_app, Forall_cons in Hl, Hok. destruct Hl as (Hl1 & _ & Hl2).
  assert (forall l : list entry, n ∉ l.*1 -> Forall (fun e => nodes !! e.1 = Some e.2) l ->
    Forall (fun e => <[n := r']> nodes !! e.1 = Some e.2) l) as Hkeep.
  { intros l Hnl Hl. rewrite Forall_forall in Hl |- *. intros e Hin. cbn.
    rewrite lookup_insert_ne; [by apply Hl|]. intros ->. apply Hnl, list_elem_of_fmap. eauto. }
  split_and!; rewrite ?fmap_app; try done.
  - apply Forall_app. split; [by apply Hkeep|]. constructor; [cbn; by rewrite lookup_insert_eq|by apply Hkeep].
  - apply sorted_cut; [by eapply sorted_delete|done|done].
  - apply Forall_app; split; [tauto|]. constructor; tauto.
Qed.

(** The neighbours of an entry. *)
Lemma rt_neighbours nodes tree lo n r hi :
  rt_refines nodes tree (lo ++ (n, r) :: hi) ->
  range_ok r /\ Forall (fun e => rn_end e.2 < rn_start r) lo
  /\ Forall (fun e => rn_end r < rn_start e.2) hi.
Proof.
  intros (_ & _ & _ & Hs & Hok). apply sorted_app in Hs as (_ & [_ Hs]%StronglySorted_inv & Hlo).
  apply Forall_app in Hok as [_ [Hrok _]%Forall_cons]. split_and!; [done| |done].
  eapply Forall_impl; [exact Hlo|]. by intros e [He _]%Forall_cons.
Qed.

Lemma rt_shrink nodes tree lo n r hi new_start new_end :
  rt_refines nodes tree (lo ++ (n, r) :: hi) ->
  rn_start r <= new_start <= new_end -> new_end <= rn_end r ->
  uvm_range_tree_shrink_node nodes n new_start new_end
    = Some (<[n := mk_range_node new_start new_end]> nodes)
  /\ rt_refines (<[n := mk_range_node new_start new_end]> nodes) tree
       (lo ++ (n, mk_range_node new_start new_end) :: hi).
Proof.
  intros Hr ??. pose proof (rt_neighbours _ _ _ _ _ _ Hr) as (Hrok & Hlo & Hhi). split.
  - unfold uvm_range_tree_shrink_node. rewrite (rt_lookup _ _ _ n r Hr) by set_solver. cbn.
    by replace (new_start <=? new_end) with true by lia;
      replace (rn_start r <=? new_start) with true by lia;
      replace (new_end <=? rn_end r) with true by lia.
  - eapply rt_set; [exact Hr| |ranges Hlo|ranges Hhi]. unfold range_ok in *. cbn. lia.
Qed.

(** A range that fits between its neighbours is added. *)
Lemma rt_add_free nodes tree lo hi n r :
  rt_refines nodes tree (lo ++ hi) -> nodes !! n = Some r -> range_ok r -> n ∉ (lo ++ hi).*1 ->
  Forall (fun e => rn_end e.2 < rn_start r) lo -> Forall (fun e => rn_end r < rn_start e.2) hi ->
  exists tree', uvm_range_tree_add nodes tree n = Some (NV_OK, tree')
    /\ rt_refines nodes tree' (lo ++ (n, r) :: hi).
Proof.
  intros Hr Hn Hrok Hnew Hlo Hhi. pose proof Hr as (_ & _ & _ & Hs & Hok).
  apply sorted_app in Hs as (_ & Hs & _). apply Forall_app in Hok as [Hok1 Hok2].
  assert (Forall (fun e => rn_start e.2 <= rn_end e.2 < rn_start r) lo) as Hlo' by ranges_with Hlo Hok1.
  assert (Forall (fun e => rn_start r < rn_start e.2) hi) as Hhi' by ranges Hhi.
  destruct (rt_add_gap nodes tree lo hi n r Hr Hn Hrok Hnew Hlo' Hhi') as (tree' & Hadd & Hrefines).
  rewrite spec_add_gap in Hadd, Hrefines by done.
  destruct hi as [|e hi]; [by exists tree'|]. apply Forall_cons in Hhi as [He _].
  replace (rn_start e.2 <=? rn_end r) with false in Hadd, Hrefines by lia. by exists tree'.
Qed.

Lemma rt_split nodes tree lo n r hi m nd :
  rt_refines nodes tree (lo ++ (n, r) :: hi) -> m ∉ (lo ++ (n, r) :: hi).*1 ->
  nodes !! m = Some nd -> rn_start r < rn_start nd <= rn_end r ->
  let first := mk_range_node (rn_start r) (rn_start nd - 1) in
  let second := mk_range_node (rn_start nd) (rn_end r) in
  let nodes' := <[n := first]> (<[m := second]> nodes) in
  exists tree', uvm_range_tree_split nodes tree n m = Some (nodes', tree')
    /\ rt_refines nodes' tree' (lo ++ (n, first) :: (m, second) :: hi).
Proof.
  intros Hr Hm Hnd Hin first second nodes'.
  pose proof (rt_neighbours _ _ _ _ _ _ Hr) as (Hrok & Hlo & Hhi).
  assert (n <> m) as Hnm by (intros ->; apply Hm; rewrite fmap_app; set_solver).
  assert (rt_refines nodes' tree (lo ++ (n, first) :: hi)) as Hr'.
  { eapply rt_set.
    - eapply rt_frame; [exact Hr|]. intros k Hk. rewrite lookup_insert_ne; [done|]. by intros ->.
    - unfold range_ok in *. cbn. lia.
    - ranges Hlo.
    - ranges Hhi. }
  replace (lo ++ (n, first) :: hi) with ((lo ++ [(n, first)]) ++ hi) in Hr' by (by rewrite <- app_assoc).
  destruct (rt_add_free nodes' tree (lo ++ [(n, first)]) hi m second Hr') as (tree' & Hadd & Hrefines).
  { unfold nodes'. by rewrite lookup_insert_ne, lookup_insert_eq. }
  { unfold range_ok in *; cbn; lia. }
  { rewrite !fmap_app in *. cbn in *. set_solver. }
  { apply Forall_app. split; [ranges Hlo|]. constructor; [cbn; lia|constructor]. }
  { ranges Hhi. }
  rewrite <- app_assoc in Hrefines.
  exists tree'. split; [|exact Hrefines].
  unfold uvm_range_tree_split. rewrite (rt_lookup _ _ _ n r Hr), Hnd by set_solver. cbn [mbind option_bind].
  replace (rn_start r <? rn_start nd) with true by lia.
  replace (rn_start nd <=? rn_end r) with true by lia.
  assert (NvU64 (rn_start nd - 1) = rn_start nd - 1) as ->
    by (apply wrap_small; unfold in_width, range_ok, NV_U64_MAX in *; lia).
  change (nd <| rn_end := rn_end r |>) with second.
  change (r <| rn_end := rn_start nd - 1 |>) with first. fold nodes'.
  rewrite Hadd. done.
Qed.

Lemma rt_merge_prev_none nodes tree n r hi :
  rt_refines nodes tree ((n, r) :: hi) ->
  uvm_range_tree_merge_prev nodes tree n = Some (None, nodes, tree).
Proof.
  intros Hr. unfold uvm_range_tree_merge_prev. by rewrite (rt_prev _ _ [] _ _ _ Hr).
Qed.

Lemma rt_merge_prev nodes tree lo p a n r hi :
  rt_refines nodes tree (lo ++ (p, a) :: (n, r) :: hi) ->
  let r' := mk_range_node (rn_start a) (rn_end r) in
  if rn_end a + 1 =? rn_start r then
    uvm_range_tree_merge_prev nodes tree n
      = Some (Some p, <[n := r']> nodes, uvm_range_tree_remove tree p)
    /\ rt_refines (<[n := r']> nodes) (uvm_range_tree_remove tree p) (lo ++ (n, r') :: hi)
  else uvm_range_tree_merge_prev nodes tree n = Some (None, nodes, tree).
Proof.
  intros Hr r'. pose proof (rt_neighbours _ _ _ _ _ _ Hr) as (Haok & Hlo & Hhi).
  apply Forall_cons in Hhi as [Har Hhi]. cbn in Har.
  assert (rt_refines nodes tree ((lo ++ [(p, a)]) ++ (n, r) :: hi)) as Hr' by (by rewrite <- app_assoc).
  pose proof (rt_neighbours _ _ _ _ _ _ Hr') as (Hrok & _ & Hhi').
  unfold uvm_range_tree_merge_prev. rewrite (rt_prev _ _ _ _ _ _ Hr'), last_snoc.
  cbn [mbind option_bind fmap option_fmap option_map fst].
  rewrite (rt_lookup _ _ _ p a Hr), (rt_lookup _ _ _ n r Hr) by set_solver. cbn [mbind option_bind].
  assert (NvU64 (rn_start r - 1) = rn_start r - 1) as ->
    by (apply wrap_small; unfold in_width, range_ok, NV_U64_MAX in *; lia).
  destruct (rn_end a + 1 =? rn_start r) eqn:E.
  - replace (rn_end a =? rn_start r - 1) with true by lia. split; [done|].
    eapply rt_set; [exact (rt_remove _ _ _ _ _ _ Hr)| |ranges Hlo|ranges Hhi'].
    unfold range_ok in *. cbn. lia.
  - by replace (rn_end a =? rn_start r - 1) with false by lia.
Qed.

Lemma rt_merge_next_none nodes tree lo n r :
  rt_refines nodes tree (lo ++ [(n, r)]) ->
  uvm_range_tree_merge_next nodes tree n = Some (None, nodes, tree).
Proof.
  intros Hr. unfold uvm_range_tree_merge_next. by rewrite (rt_next _ _ _ _ _ _ Hr).
Qed.

Lemma rt_merge_next nodes tree lo n r m b hi :
  rt_refines nodes tree (lo ++ (n, r) :: (m, b) :: hi) ->
  let r' := mk_range_node (rn_start r) (rn_end b) in
  if rn_end r + 1 =? rn_start b then
    uvm_range_tree_merge_next nodes tree n
      = Some (Some m, <[n := r']> nodes, uvm_range_tree_remove tree m)
    /\ rt_refines (<[n := r']> nodes) (uvm_range_tree_remove tree m) (lo ++ (n, r') :: hi)
  else uvm_range_tree_merge_next nodes tree n = Some (None, nodes, tree).
Proof.
  intros Hr r'. pose proof (rt_neighbours _ _ _ _ _ _ Hr) as (Hrok & Hlo & Hhi).
  apply Forall_cons in Hhi as [Hrb Hhi]. cbn in Hrb.
  assert (rt_refines nodes tree ((lo ++ [(n, r)]) ++ (m, b) :: hi)) as Hr' by (by rewrite <- app_assoc).
  pose proof (rt_neighbours _ _ _ _ _ _ Hr') as (Hbok & _ & Hhi').
  unfold uvm_range_tree_merge_next. rewrite (rt_next _ _ _ _ _ _ Hr).
  cbn [mbind option_bind fmap option_fmap option_map fst head].
  rewrite (rt_lookup _ _ _ m b Hr), (rt_lookup _ _ _ n r Hr) by set_solver. cbn [mbind option_bind].
  assert (NvU64 (rn_end r + 1) = rn_end r + 1) as ->
    by (apply wrap_small; unfold in_width, range_ok, NV_U64_MAX in *; lia).
  rewrite (Z.eqb_sym (rn_start b)).
  destruct (rn_end r + 1 =? rn_start b) eqn:E; [|done]. split; [done|].
  pose proof (rt_remove _ _ _ _ _ _ Hr') as Hrem. rewrite <- app_assoc in Hrem.
  eapply rt_set; [exact Hrem| |ranges Hlo|ranges Hhi']. unfold range_ok in *. cbn. lia.
Qed.
End change_lemmas.

(** ** Holes *)

(** The largest interval around an address that no range meets. *)
Definition is_hole (l : list entry) (addr s e : Z) : Prop :=
  0 <= s <= addr /\ addr <= e <= NV_U64_MAX /\ existsb (meets s e) l = false /\
  forall s' e', 0 <= s' <= addr -> addr <= e' <= NV_U64_MAX ->
    existsb (meets s' e') l = false -> s <= s' /\ e' <= e.

Lemma existsb_false_Forall (p : entry -> bool) l :
  existsb p l = false <-> Forall (fun e => p e = false) l.
Proof.
  induction l as [|x l IH]; cbn; [split; [constructor|done]|].
  rewrite orb_false_iff, IH, Forall_cons. done.
Qed.

Lemma rt_hole_start nodes tree lo hi addr :
  rt_refines nodes tree (lo ++ hi) -> Forall (fun e => rn_start e.2 <= rn_end e.2 < addr) lo ->
  addr <= NV_U64_MAX ->
  exists s, hole_start nodes (fst <$> last lo) = Some s /\ 0 <= s <= Z.max 0 addr
    /\ Forall (fun e => rn_end e.2 < s) lo
    /\ (s = 0 \/ exists e, e ∈ lo /\ s = rn_end e.2 + 1).
Proof.
  intros Hr Hlo Haddr. destruct (last lo) as [[q a]|] eqn:E.
  - apply last_Some in E as [lo' ->]. cbn [hole_start fmap option_fmap option_map fst].
    rewrite (rt_lookup _ _ _ q a Hr) by set_solver. cbn [mbind option_bind].
    assert (rt_refines nodes tree (lo' ++ (q, a) :: hi)) as Hr' by (by rewrite <- app_assoc in Hr).
    pose proof (rt_neighbours _ _ _ _ _ _ Hr') as (Haok & Hlo' & _).
    apply Forall_app in Hlo as [_ [Ha _]%Forall_cons]. unfold range_ok in Haok. cbn in Ha.
    exists (rn_end a + 1). split; [by rewrite (wrap_small 64) by (unfold in_width, NV_U64_MAX in *; lia)|].
    split; [lia|]. split; [|right; exists (q, a); set_solver].
    apply Forall_app. split; [ranges Hlo'|]. constructor; [cbn; lia|constructor].
  - apply last_None in E as ->. exists 0. split_and!; try done; [lia|by left].
Qed.

Lemma is_hole_gap lo hi addr s e :
  Forall (fun x => rn_start x.2 <= rn_end x.2 < addr) lo ->
  Forall (fun x => addr < rn_start x.2) hi -> Forall (fun x => range_ok x.2) hi ->
  0 <= s <= addr -> Forall (fun x => rn_end x.2 < s) lo ->
  (s = 0 \/ exists x, x ∈ lo /\ s = rn_end x.2 + 1) ->
  addr <= e <= NV_U64_MAX -> Forall (fun x => e < rn_start x.2) hi ->
  (e = NV_U64_MAX \/ exists x, x ∈ hi /\ e = rn_start x.2 - 1) ->
  is_hole (lo ++ hi) addr s e.
Proof.
  intros Hlo Hhi Hok Hs Hslo Hsmax He Hehi Hemax. unfold is_hole. split_and!; try lia.
  - rewrite existsb_false_Forall, Forall_app. split; [ranges Hslo|ranges_with Hehi Hok].
  - intros s' e' Hs' He'. rewrite existsb_false_Forall, Forall_app, !Forall_forall.
    rewrite Forall_forall in Hlo, Hhi, Hok. intros [Hmlo Hmhi]. split.
    + destruct Hsmax as [->|(x & Hx & ->)]; [lia|]. specialize (Hmlo x Hx). specialize (Hlo x Hx).
      unfold meets in Hmlo. lia.
    + destruct Hemax as [->|(x & Hx & ->)]; [lia|]. specialize (Hmhi x Hx). specialize (Hhi x Hx).
      specialize (Hok x Hx). unfold meets, range_ok in *. lia.
Qed.

Lemma rt_find_hole nodes tree l addr :
  rt_refines nodes tree l -> 0 <= addr <= NV_U64_MAX ->
  if existsb (covers addr) l
  then uvm_range_tree_find_hole nodes tree addr = Some (NV_ERR_UVM_ADDRESS_IN_USE, None)
  else exists s e, uvm_range_tree_find_hole nodes tree addr = Some (NV_OK, Some (s, e))
       /\ is_hole l addr s e.
Proof.
  intros Hr Haddr. unfold uvm_range_tree_find_hole. rewrite (rt_iter_first _ _ _ _ _ Hr) by lia.
  cbn [mbind option_bind].
  destruct (rt_cut _ _ _ addr Hr) as [(lo & n & r & hi & -> & Hlo & Hn & Hhi)|(lo & hi & -> & Hlo & Hhi)].
  - rewrite find_skip by ranges Hlo. rewrite existsb_app. cbn.
    assert (meets addr NV_U64_MAX (n, r) = true) as -> by (unfold meets; cbn; lia).
    assert (covers addr (n, r) = true) as -> by (unfold covers; cbn; lia). rewrite orb_true_r. cbn.
    rewrite (rt_lookup _ _ _ n r Hr) by set_solver. cbn. by replace (rn_start r <=? addr) with true by lia.
  - assert (existsb (covers addr) (lo ++ hi) = false) as ->.
    { rewrite existsb_false_Forall, Forall_app. split; [ranges Hlo|ranges Hhi]. }
    destruct (rt_hole_start _ _ _ _ addr Hr Hlo) as (s & Hs & Hs0 & Hslo & Hsmax); [lia|].
    pose proof Hr as (_ & Hh & _ & Hsort & Hok). rewrite find_skip by ranges Hlo.
    apply sorted_app in Hsort as (_ & Hsort & _). apply Forall_app in Hok as [_ Hok].
    rewrite find_meets_head by done. destruct hi as [|[m b] hi].
    + cbn. unfold uvm_range_tree_last. rewrite Hh, app_nil_r, last_fmap_fst, Hs. cbn.
      exists s, NV_U64_MAX. split; [done|]. rewrite <- (app_nil_r lo) at 1.
      apply is_hole_gap; auto; lia.
    + pose proof Hok as [Hbok _]%Forall_cons. pose proof Hhi as [Hb _]%Forall_cons.
      pose proof (rt_neighbours _ _ _ _ _ _ Hr) as (_ & _ & Hhib).
      unfold range_ok in Hbok. cbn in Hb, Hbok. cbn [head mbind option_bind snd].
      replace (rn_start b <=? NV_U64_MAX) with true by lia. cbn [fmap option_fmap option_map fst].
      rewrite (rt_lookup _ _ _ m b Hr) by set_solver. cbn [mbind option_bind].
      replace (rn_start b <=? addr) with false by lia.
      rewrite (rt_prev _ _ _ _ _ _ Hr). cbn [mbind option_bind]. rewrite Hs. cbn [mbind option_bind].
      exists s, (rn_start b - 1).
      split; [by rewrite (wrap_small 64) by (unfold in_width, NV_U64_MAX in *; lia)|].
      apply is_hole_gap; auto; [lia|lia| |right; exists (m, b); set_solver].
      constructor; [cbn; lia|]. eapply Forall_impl; [exact Hhib|]. intros x ?; cbn in *. lia.
Qed.

(** ** Refinement

    An operation as a client performs it: the fields of a new node are set
    before it is added. *)
Inductive rt_op :=
| RtAdd (n : node_id) (r : uvm_range_tree_node_t)
| RtRemove (n : node_id)
| RtShrink (n : node_id) (new_start new_end : Z)
| RtSplit (existing new : node_id) (nd : uvm_range_tree_node_t)
| RtMergePrev (n : node_id)
| RtMergeNext (n : node_id)
| RtFind (addr : Z)
| RtIterFirst (start end_ : Z)
| RtForEachIn (start end_ : Z)
| RtFindHole (addr : Z)
| RtFindHoleIn (addr start end_ : Z).

Inductive rt_result :=
| RtVoid
| RtStatus (status : NV_STATUS)
| RtNode (node : option node_id)
| RtNodes (nodes : list node_id)
| RtHole (status : NV_STATUS) (hole : option (Z * Z)).

Definition rt_state : Type := rt_nodes * uvm_range_tree_t.

(** The loop that collects the nodes it visits. *)
Definition collect (n : node_id) (s : rt_state * list node_id) : option (bool * (rt_state * list node_id)) :=
  Some (false, (s.1, s.2 ++ [n])).

Definition run_op `{RbTree} (op : rt_op) (c : rt_state) : option (rt_result * rt_state) :=
  let '(nodes, tree) := c in
  match op with
  | RtAdd n r =>
      let nodes := <[n := r]> nodes in
      x ← uvm_range_tree_add nodes tree n; let '(status, tree) := x in
      Some (RtStatus status, (nodes, tree))
  | RtRemove n => Some (RtVoid, (nodes, uvm_range_tree_remove tree n))
  | RtShrink n s e => nodes ← uvm_range_tree_shrink_node nodes n s e; Some (RtVoid, (nodes, tree))
  | RtSplit n m nd =>
      c ← uvm_range_tree_split (<[m := nd]> nodes) tree n m; Some (RtVoid, c)
  | RtMergePrev n =>
      x ← uvm_range_tree_merge_prev nodes tree n; let '(p, nodes, tree) := x in
      Some (RtNode p, (nodes, tree))
  | RtMergeNext n =>
      x ← uvm_range_tree_merge_next nodes tree n; let '(p, nodes, tree) := x in
      Some (RtNode p, (nodes, tree))
  | RtFind addr => n ← uvm_range_tree_find nodes tree addr; Some (RtNode n, c)
  | RtIterFirst s e => n ← uvm_range_tree_iter_first nodes tree s e; Some (RtNode n, c)
  | RtForEachIn s e =>
      x ← uvm_range_tree_for_each_in fst s e collect (c, []); Some (RtNodes x.2, x.1)
  | RtFindHole addr =>
      x ← uvm_range_tree_find_hole nodes tree addr; Some (RtHole x.1 x.2, c)
  | RtFindHoleIn addr s e =>
      x ← uvm_range_tree_find_hole_in nodes tree addr s e;
      let '(status, s, e) := x in Some (RtHole status (Some (s, e)), c)
  end.

(** What the header asks of the caller. *)
Definition allowed (op : rt_op) (l : list entry) : Prop :=
  match op with
  | RtAdd n r => range_ok r /\ n ∉ l.*1
  | RtRemove n | RtMergePrev n | RtMergeNext n => n ∈ l.*1
  | RtShrink n s e => exists r, (n, r) ∈ l /\ rn_start r <= s <= e /\ e <= rn_end r
  | RtSplit n m nd => m ∉ l.*1 /\ exists r, (n, r) ∈ l /\ rn_start r < rn_start nd <= rn_end r
  | RtFind _ => True
  | RtIterFirst s e | RtForEachIn s e => s <= e
  | RtFindHole addr => 0 <= addr <= NV_U64_MAX
  | RtFindHoleIn addr s e => 0 <= s <= addr /\ addr <= e <= NV_U64_MAX
  end.

(** What an operation does to the list of ranges. *)
Inductive spec_step : rt_op -> list entry -> rt_result -> list entry -> Prop :=
| spec_step_add n r l :
    spec_step (RtAdd n r) l (RtStatus (spec_add n r l).1) (spec_add n r l).2
| spec_step_remove lo n r hi :
    spec_step (RtRemove n) (lo ++ (n, r) :: hi) RtVoid (lo ++ hi)
| spec_step_shrink lo n r hi s e :
    spec_step (RtShrink n s e) (lo ++ (n, r) :: hi) RtVoid (lo ++ (n, mk_range_node s e) :: hi)
| spec_step_split lo n r hi m nd :
    spec_step (RtSplit n m nd) (lo ++ (n, r) :: hi) RtVoid
      (lo ++ (n, mk_range_node (rn_start r) (rn_start nd - 1))
          :: (m, mk_range_node (rn_start nd) (rn_end r)) :: hi)
| spec_step_merge_prev lo p a n r hi :
    rn_end a + 1 = rn_start r ->
    spec_step (RtMergePrev n) (lo ++ (p, a) :: (n, r) :: hi) (RtNode (Some p))
      (lo ++ (n, mk_range_node (rn_start a) (rn_end r)) :: hi)
| spec_step_merge_prev_none lo n r hi :
    (forall e, last lo = Some e -> rn_end e.2 + 1 <> rn_start r) ->
    spec_step (RtMergePrev n) (lo ++ (n, r) :: hi) (RtNode None) (lo ++ (n, r) :: hi)
| spec_step_merge_next lo n r m b hi :
    rn_end r + 1 = rn_start b ->
    spec_step (RtMergeNext n) (lo ++ (n, r) :: (m, b) :: hi) (RtNode (Some m))
      (lo ++ (n, mk_range_node (rn_start r) (rn_end b)) :: hi)
| spec_step_merge_next_none lo n r hi :
    (forall e, head hi = Some e -> rn_end r + 1 <> rn_start e.2) ->
    spec_step (RtMergeNext n) (lo ++ (n, r) :: hi) (RtNode None) (lo ++ (n, r) :: hi)
| spec_step_find addr l : spec_step (RtFind addr) l (RtNode (fst <$> List.find (covers addr) l)) l
| spec_step_iter_first s e l :
    spec_step (RtIterFirst s e) l (RtNode (fst <$> List.find (meets s e) l)) l
| spec_step_for_each_in s e l :
    spec_step (RtForEachIn s e) l (RtNodes (List.filter (meets s e) l).*1) l
| spec_step_hole addr s e l :
    is_hole l addr s e -> spec_step (RtFindHole addr) l (RtHole NV_OK (Some (s, e))) l
| spec_step_no_hole addr l :
    existsb (covers addr) l = true ->
    spec_step (RtFindHole addr) l (RtHole NV_ERR_UVM_ADDRESS_IN_USE None) l
| spec_step_hole_in addr s e s' e' l :
    is_hole l addr s' e' ->
    spec_step (RtFindHoleIn addr s e) l (RtHole NV_OK (Some (Z.max s' s, Z.min e' e))) l
| spec_step_no_hole_in addr s e l :
    existsb (covers addr) l = true ->
    spec_step (RtFindHoleIn addr s e) l (RtHole NV_ERR_UVM_ADDRESS_IN_USE (Some (s, e))) l.

(** The simulation step, for changes and for queries. *)
Definition simulates `{RbTree} (op : rt_op) (c : rt_state) (l : list entry) : Prop :=
  exists res c' l', run_op op c = Some (res, c') /\ spec_step op l res l' /\ rt_refines c'.1 c'.2 l'.

Section simulation.
Context `{RbTreeLaws}.

Lemma run_until_collect l c acc : run_until collect l (c, acc) = Some (c, acc ++ l).
Proof.
  revert acc. induction l as [|n l IH]; intros acc; cbn; [by rewrite app_nil_r|].
  by rewrite IH, <- app_assoc.
Qed.

Lemma elem_of_entries n (l : list entry) : n ∈ l.*1 -> exists lo r hi, l = lo ++ (n, r) :: hi.
Proof.
  intros ([n' r] & -> & (lo & hi & ->)%list_elem_of_split)%list_elem_of_fmap. eauto.
Qed.

Lemma simulates_merge_prev c l n :
  rt_refines c.1 c.2 l -> n ∈ l.*1 -> simulates (RtMergePrev n) c l.
Proof.
  destruct c as [nodes tree]. cbn. intros Hr (lo & r & hi & ->)%elem_of_entries.
  destruct (decide (lo = [])) as [->|Hlo].
  - do 3 eexists. cbn. rewrite (rt_merge_prev_none _ _ _ _ _ Hr). split; [done|].
    split; [by apply (spec_step_merge_prev_none [])|done].
  - apply exists_last in Hlo as (lo' & [p a] & ->). rewrite <- app_assoc in Hr |- *. cbn in Hr |- *.
    pose proof (rt_merge_prev _ _ _ _ _ _ _ _ Hr) as Hm. cbn in Hm.
    destruct (rn_end a + 1 =? rn_start r) eqn:E.
    + destruct Hm as [Hm Hr']. do 3 eexists. cbn. rewrite Hm. split; [done|]. split; [|exact Hr'].
      apply spec_step_merge_prev. lia.
    + do 3 eexists. cbn. rewrite Hm. split; [done|]. split; [|exact Hr].
      replace (lo' ++ (p, a) :: (n, r) :: hi) with ((lo' ++ [(p, a)]) ++ (n, r) :: hi)
        by (by rewrite <- app_assoc).
      apply spec_step_merge_prev_none. intros e [= <-]%(eq_trans (eq_sym (last_snoc _ _))). cbn. lia.
Qed.

Lemma simulates_merge_next c l n :
  rt_refines c.1 c.2 l -> n ∈ l.*1 -> simulates (RtMergeNext n) c l.
Proof.
  destruct c as [nodes tree]. cbn. intros Hr (lo & r & hi & ->)%elem_of_entries.
  destruct hi as [|[m b] hi].
  - do 3 eexists. cbn. rewrite (rt_merge_next_none _ _ _ _ _ Hr). split; [done|].
    split; [by apply spec_step_merge_next_none|done].
  - pose proof (rt_merge_next _ _ _ _ _ _ _ _ Hr) as Hm. cbn in Hm.
    destruct (rn_end r + 1 =? rn_start b) eqn:E.
    + destruct Hm as [Hm Hr']. do 3 eexists. cbn. rewrite Hm. split; [done|]. split; [|exact Hr'].
      apply spec_step_merge_next. lia.
    + do 3 eexists. cbn. rewrite Hm. split; [done|]. split; [|exact Hr].
      apply spec_step_merge_next_none. intros e [= <-]. cbn. lia.
Qed.

Lemma simulates_add c l n r :
  rt_refines c.1 c.2 l -> range_ok r -> n ∉ l.*1 -> simulates (RtAdd n r) c l.
Proof.
  destruct c as [nodes tree]. cbn. intros Hr Hok Hn.
  destruct (rt_add (<[n := r]> nodes) tree l n r) as (tree' & Hadd & Hr');
    [|by rewrite lookup_insert_eq|done|done|].
  { eapply rt_frame; [exact Hr|]. intros k Hk. rewrite lookup_insert_ne; [done|]. by intros ->. }
  do 3 eexists. cbn. rewrite Hadd. split; [done|]. split; [constructor|exact Hr'].
Qed.

Lemma simulates_split c l n m nd r :
  rt_refines c.1 c.2 l -> m ∉ l.*1 -> (n, r) ∈ l -> rn_start r < rn_start nd <= rn_end r ->
  simulates (RtSplit n m nd) c l.
Proof.
  destruct c as [nodes tree]. cbn. intros Hr Hm (lo & hi & ->)%list_elem_of_split Hin.
  destruct (rt_split (<[m := nd]> nodes) tree lo n r hi m nd) as (tree' & Hs & Hr');
    [|done|by rewrite lookup_insert_eq|done|].
  { eapply rt_frame; [exact Hr|]. intros k Hk. rewrite lookup_insert_ne; [done|]. by intros ->. }
  do 3 eexists. cbn. rewrite Hs. split; [done|]. split; [constructor|exact Hr'].
Qed.

Lemma simulates_hole c l addr :
  rt_refines c.1 c.2 l -> 0 <= addr <= NV_U64_MAX -> simulates (RtFindHole addr) c l.
Proof.
  destruct c as [nodes tree]. intros Hr Haddr. pose proof (rt_find_hole _ _ _ _ Hr Haddr) as Hh.
  cbn in Hh. unfold simulates. cbn. destruct (existsb (covers addr) l) eqn:E.
  - rewrite Hh. do 3 eexists. split; [done|]. split; [by constructor|done].
  - destruct Hh as (s & e & -> & Hh). do 3 eexists. split; [done|]. split; [by constructor|done].
Qed.

Lemma simulates_hole_in c l addr s e :
  rt_refines c.1 c.2 l -> 0 <= s <= addr -> addr <= e <= NV_U64_MAX ->
  simulates (RtFindHoleIn addr s e) c l.
Proof.
  destruct c as [nodes tree]. intros Hr Hs He.
  pose proof (rt_find_hole _ _ _ addr Hr ltac:(lia)) as Hh.
  cbn in Hh. unfold simulates, run_op, uvm_range_tree_find_hole_in.
  replace (s <=? addr) with true by lia. replace (addr <=? e) with true by lia.
  destruct (existsb (covers addr) l) eqn:E.
  - rewrite Hh. do 3 eexists. split; [done|]. split; [by constructor|done].
  - destruct Hh as (s' & e' & -> & Hh). do 3 eexists. split; [done|]. split; [by constructor|done].
Qed.

Lemma collect_keeps n s s' : collect n s = Some (false, s') -> s'.1 = s.1.
Proof. by intros [= <-]. Qed.

Lemma simulates_for_each c l s e :
  rt_refines c.1 c.2 l -> s <= e -> simulates (RtForEachIn s e) c l.
Proof.
  destruct c as [nodes tree]. intros Hr Hse. unfold simulates, run_op.
  rewrite (for_each_in_exact fst collect e collect_keeps l) by done.
  rewrite run_until_collect. do 3 eexists. split; [done|]. split; [constructor|exact Hr].
Qed.

(** C21. Range trees implement the list of disjoint ranges: an operation that the
    header allows runs without failing an assertion or following a bad pointer,
    its result and the ranges afterwards are those of the reference, the
    red-black tree and the list still agree; and an initialised tree is empty. *)
Theorem range_tree_refines op c l :
  rt_refines c.1 c.2 l -> allowed op l ->
  rt_refines c.1 uvm_range_tree_init [] /\ simulates op c l.
Proof.
  intros Hr Hop. split; [apply rt_init_refines|].
  destruct op; cbn in Hop.
  - destruct Hop. by apply simulates_add.
  - destruct c as [nodes tree]. apply elem_of_entries in Hop as (lo & r & hi & ->).
    do 3 eexists. split; [done|]. split; [constructor|]. by eapply rt_remove.
  - destruct c as [nodes tree]. destruct Hop as (r & (lo & hi & ->)%list_elem_of_split & ? & ?).
    destruct (rt_shrink _ _ _ _ _ _ new_start new_end Hr) as [Hs Hr']; [done|done|].
    do 3 eexists. cbn. cbn in Hs. rewrite Hs. split; [done|]. split; [constructor|exact Hr'].
  - destruct Hop as (? & r & ? & ?). by eapply simulates_split.
  - by apply simulates_merge_prev.
  - by apply simulates_merge_next.
  - destruct c as [nodes tree]. cbn in Hr. do 3 eexists. cbn. rewrite (rt_find _ _ _ addr Hr).
    split; [done|]. split; [constructor|exact Hr].
  - destruct c as [nodes tree]. cbn in Hr. do 3 eexists. cbn. rewrite (rt_iter_first _ _ _ _ _ Hr Hop).
    split; [done|]. split; [constructor|exact Hr].
  - by apply simulates_for_each.
  - by apply simulates_hole.
  - destruct Hop. by apply simulates_hole_in.
Qed.

(** Splitting a range and merging it with its new neighbour gives back the
    removed node and the ranges before the split, from either side up to which
    of the two nodes remains. *)
Theorem split_merge_roundtrip nodes tree lo n r hi m nd :
  rt_refines nodes tree (lo ++ (n, r) :: hi) -> m ∉ (lo ++ (n, r) :: hi).*1 ->
  nodes !! m = Some nd -> rn_start r < rn_start nd <= rn_end r ->
  exists nodes' tree', uvm_range_tree_split nodes tree n m = Some (nodes', tree') /\
  (exists nodes'' tree'',
    uvm_range_tree_merge_next nodes' tree' n = Some (Some m, nodes'', tree'')
    /\ rt_refines nodes'' tree'' (lo ++ (n, r) :: hi)) /\
  (exists nodes'' tree'',
    uvm_range_tree_merge_prev nodes' tree' m = Some (Some n, nodes'', tree'')
    /\ rt_refines nodes'' tree'' (lo ++ (m, r) :: hi)).
Proof.
  intros Hr Hm Hnd Hin. destruct (rt_split _ _ _ _ _ _ _ _ Hr Hm Hnd Hin) as (tree' & Hs & Hr').
  do 2 eexists. split; [exact Hs|]. destruct r as [s e]. split.
  - pose proof (rt_merge_next _ _ _ _ _ _ _ _ Hr') as Hmerge. cbn in Hmerge.
    replace (rn_start nd - 1 + 1 =? rn_start nd) with true in Hmerge by lia.
    destruct Hmerge. eauto.
  - pose proof (rt_merge_prev _ _ _ _ _ _ _ _ Hr') as Hmerge. cbn in Hmerge.
    replace (rn_start nd - 1 + 1 =? rn_start nd) with true in Hmerge by lia.
    destruct Hmerge. eauto.
Qed.
End simulation.

(** ** Witnesses *)
Definition demo_nodes : rt_nodes :=
  {[1%positive := mk_range_node 10 19; 2%positive := mk_range_node 20 29;
    3%positive := mk_range_node 14 0]}.
Definition demo_tree : uvm_range_tree_t :=
  mk_range_tree (rb_node rb_nil 1%positive (rb_node rb_nil 2%positive rb_nil)) [1%positive; 2%positive].
Definition demo_ranges : list entry :=
  [(1%positive, mk_range_node 10 19); (2%positive, mk_range_node 20 29)].

Lemma demo_refines : rt_refines demo_nodes demo_tree demo_ranges.
Proof.
  split_and!; [done|done|..].
  - repeat constructor.
  - repeat constructor; unfold before; cbn; lia.
  - repeat constructor; unfold NV_U64_MAX; cbn; lia.
Qed.

Lemma range_tree_refines_witness :
  @simulates plain_rb (RtMergeNext 1%positive) (demo_nodes, demo_tree) demo_ranges.
Proof.
  apply (@range_tree_refines plain_rb plain_rb_laws (RtMergeNext 1%positive)
    (demo_nodes, demo_tree) demo_ranges demo_refines).
  cbn. set_solver.
Defined.

Lemma split_merge_roundtrip_witness :
  exists nodes' tree', @uvm_range_tree_split plain_rb demo_nodes demo_tree 1%positive 3%positive
    = Some (nodes', tree').
Proof.
  destruct (@split_merge_roundtrip plain_rb plain_rb_laws demo_nodes demo_tree []
    1%positive (mk_range_node 10 19) [(2%positive, mk_range_node 20 29)] 3%positive (mk_range_node 14 0))
    as (nodes' & tree' & Hs & _).
  - exact demo_refines.
  - cbn. set_solver.
  - done.
  - cbn. lia.
  - exists nodes', tree'. exact Hs.
Defined.
