(* ===== verification/RangeAllocator.v ===== *)
(** * Range allocators

    Model of kernel-open/nvidia-uvm/uvm_range_allocator.{c,h}: an allocator of
    aligned address ranges from [0, size), which keeps the free ranges in a range
    tree.  The nodes are allocated and freed by the allocator itself: [rt_nodes]
    is its heap, [kvmalloc] answers with a pointer that is not in use or with
    NULL, and [uvm_kvfree] removes the node, so a use after free has no result.
    Each operation runs under the allocator's lock.

    The theorems: in every state that allocations and frees can reach, no
    assertion fails and live allocations are aligned, in bounds and disjoint; an
    allocation succeeds exactly when a free aligned block exists and takes the
    lowest one; when everything is freed, destroying the allocator succeeds and
    leaves no memory behind. *)

From S2P Require Import Prelude PageMask RbTree RangeTree.

Record uvm_range_allocator_t := mk_range_allocator {
  ra_size : Z;
  range_tree : uvm_range_tree_t;
}.

#[export] Instance eta_range_allocator : Settable uvm_range_allocator_t :=
  fun r => mk_range_allocator (ra_size r) (range_tree r).

Record uvm_range_allocation_t := mk_range_allocation {
  aligned_start : Z;
  ra_node : option node_id;
}.

#[export] Instance eta_range_allocation : Settable uvm_range_allocation_t :=
  fun r => mk_range_allocation (aligned_start r) (ra_node r).

(** The state of the loop in [uvm_range_allocator_alloc]. *)
Record alloc_state := mk_alloc_state {
  as_nodes : rt_nodes;
  as_tree : uvm_range_tree_t;
  as_alloc : uvm_range_allocation_t;
  found : bool;
}.

Definition as_view (s : alloc_state) : rt_nodes * uvm_range_tree_t := (as_nodes s, as_tree s).

Section allocator.
Context `{RbTree}.

(** [uvm_kvmalloc] returned [ptr]; [a] is the caller's structure before. *)
Definition uvm_range_allocator_init (nodes : rt_nodes) (ptr : option node_id) (size : Z)
    (a : uvm_range_allocator_t) : option (NV_STATUS * rt_nodes * uvm_range_allocator_t) :=
  let tree := uvm_range_tree_init in
  UVM_ASSERT 0 <? size;
  match ptr with
  | None => Some (NV_ERR_NO_MEMORY, nodes, a <| range_tree := tree |>)
  | Some node =>
      let nodes := <[node := mk_range_node 0 (NvU64 (size - 1))]> nodes in
      r ← uvm_range_tree_add nodes tree node;
      let '(status, tree) := r in
      UVM_ASSERT status =? NV_OK;
      Some (NV_OK, nodes, mk_range_allocator size tree)
  end.

Definition uvm_range_allocator_deinit (nodes : rt_nodes) (a : uvm_range_allocator_t)
    : option (rt_nodes * uvm_range_allocator_t) :=
  node ← uvm_range_tree_iter_first nodes (range_tree a) 0 (NvU64 (ra_size a - 1));
  node ← node;
  nd ← nodes !! node;
  UVM_ASSERT (rn_start nd =? 0) && (rn_end nd =? NvU64 (ra_size a - 1));
  Some (delete node nodes, a <| range_tree := uvm_range_tree_remove (range_tree a) node |>).

(** One free range in the loop: [new] is the node of the allocation. *)
Definition alloc_body (size alignment : Z) (new node : node_id) (s : alloc_state)
    : option (bool * alloc_state) :=
  nd ← as_nodes s !! node;
  start' ← UVM_ALIGN_UP (rn_start nd) alignment;
  let aligned_end := NvU64 (start' + size - 1) in
  if (start' <? rn_start nd) || (aligned_end <? start') then Some (false, s)
  else if rn_end nd <? aligned_end then Some (false, s)
  else
    let nodes := <[new := mk_range_node (rn_start nd) aligned_end]> (as_nodes s) in
    let alloc := as_alloc s <| aligned_start := start' |> in
    if aligned_end <? rn_end nd then
      nodes ← uvm_range_tree_shrink_node nodes node (NvU64 (aligned_end + 1)) (rn_end nd);
      Some (true, mk_alloc_state nodes (as_tree s) alloc true)
    else
      UVM_ASSERT rn_end nd =? aligned_end;
      Some (true, mk_alloc_state (delete node nodes) (uvm_range_tree_remove (as_tree s) node) alloc true).

(** Nothing reads the contents of the new node before the loop sets them. *)
Definition uvm_range_allocator_alloc (nodes : rt_nodes) (a : uvm_range_allocator_t)
    (ptr : option node_id) (size alignment : Z) (range_alloc : uvm_range_allocation_t)
    : option (NV_STATUS * rt_nodes * uvm_range_allocator_t * uvm_range_allocation_t) :=
  UVM_ASSERT 0 <? size;
  let alignment := if alignment =? 0 then 1 else alignment in
  UVM_ASSERT is_power_of_2 alignment;
  if ra_size a <? size then Some (NV_ERR_UVM_ADDRESS_IN_USE, nodes, a, range_alloc)
  else
    let range_alloc := range_alloc <| ra_node := ptr |> in
    match ptr with
    | None => Some (NV_ERR_NO_MEMORY, nodes, a, range_alloc)
    | Some new =>
        s ← uvm_range_tree_for_each_in as_view 0 (NvU64 (ra_size a - size))
              (alloc_body size alignment new)
              (mk_alloc_state (<[new := mk_range_node 0 0]> nodes) (range_tree a) range_alloc false);
        if found s then
          Some (NV_OK, as_nodes s, a <| range_tree := as_tree s |>, as_alloc s)
        else
          Some (NV_ERR_UVM_ADDRESS_IN_USE, delete new (as_nodes s), a <| range_tree := as_tree s |>,
                as_alloc s <| ra_node := None |>)
    end.

Definition kvfree_adjacent (adjacent_node : option node_id) (nodes : rt_nodes) : rt_nodes :=
  match adjacent_node with
  | None => nodes
  | Some n => delete n nodes
  end.

Definition uvm_range_allocator_free (nodes : rt_nodes) (a : uvm_range_allocator_t)
    (range_alloc : option uvm_range_allocation_t)
    : option (rt_nodes * uvm_range_allocator_t * option uvm_range_allocation_t) :=
  match range_alloc with
  | None => Some (nodes, a, None)
  | Some range_alloc =>
      node ← ra_node range_alloc;
      r ← uvm_range_tree_add nodes (range_tree a) node;
      let '(status, tree) := r in
      UVM_ASSERT status =? NV_OK;
      r ← uvm_range_tree_merge_prev nodes tree node;
      let '(adjacent_node, nodes, tree) := r in
      let nodes := kvfree_adjacent adjacent_node nodes in
      r ← uvm_range_tree_merge_next nodes tree node;
      let '(adjacent_node, nodes, tree) := r in
      let nodes := kvfree_adjacent adjacent_node nodes in
      Some (nodes, a <| range_tree := tree |>, Some (range_alloc <| ra_node := None |>))
  end.
End allocator.

(** ** Where a block fits *)

(** The first multiple of [2^k] from [s] on. *)
Definition up (k s : Z) : Z := 2 ^ k * ((s + 2 ^ k - 1) / 2 ^ k).

(** A block of [size] fits at the first aligned address of a range. *)
Definition fits (size k : Z) (r : uvm_range_tree_node_t) : bool :=
  up k (rn_start r) + size - 1 <=? rn_end r.

Lemma up_bounds k s : 0 <= k -> s <= up k s < s + 2 ^ k.
Proof.
  intros. unfold up. pose proof (pow2_pos k ltac:(done)).
  pose proof (Z.div_mod (s + 2 ^ k - 1) (2 ^ k) ltac:(lia)).
  pose proof (Z.mod_pos_bound (s + 2 ^ k - 1) (2 ^ k) ltac:(lia)). lia.
Qed.

Lemma up_divide k s : (2 ^ k | up k s).
Proof. apply Z.divide_factor_l. Qed.

(** It is the least such multiple. *)
Lemma up_least k s a : 0 <= k -> (2 ^ k | a) -> s <= a -> up k s <= a.
Proof.
  intros Hk [q ->] Hs. unfold up. pose proof (pow2_pos k ltac:(done)).
  assert ((s + 2 ^ k - 1) / 2 ^ k <= q); [|nia].
  apply Z.lt_succ_r, Z.div_lt_upper_bound; nia.
Qed.

Lemma align_up_wrapped s k :
  0 <= s <= NV_U64_MAX -> 0 <= k < 64 ->
  UVM_ALIGN_UP s (2 ^ k) = Some (if s + 2 ^ k - 1 <=? NV_U64_MAX then up k s else 0).
Proof.
  intros Hs Hk. pose proof (pow2_pos k ltac:(lia)) as Hp. unfold NV_U64_MAX in *.
  destruct (s + 2 ^ k - 1 <=? _) eqn:E.
  - apply align_up_pow2; [lia|]. unfold in_width. lia.
  - unfold UVM_ALIGN_UP. rewrite is_power_of_2_pow, ldiff_pow2 by lia.
    assert (NvU64 (s + 2 ^ k - 1) = s + 2 ^ k - 1 - 2 ^ 64) as ->.
    { unfold NvU64, wrap. symmetry. apply (Z.mod_unique_pos _ _ 1); [|lia].
      pose proof (Z.pow_lt_mono_r 2 k 64). lia. }
    rewrite Z.div_small by lia. f_equal. lia.
Qed.

(** The tests of the loop, with their overflow checks, are [fits]. *)
Lemma alloc_tests s e size k :
  0 <= s <= e -> e <= NV_U64_MAX -> 0 < size <= NV_U64_MAX -> 0 <= k < 64 ->
  exists a, UVM_ALIGN_UP s (2 ^ k) = Some a /\
    (if (a <? s) || (NvU64 (a + size - 1) <? a) then false else negb (e <? NvU64 (a + size - 1)))
      = fits size k (mk_range_node s e) /\
    (fits size k (mk_range_node s e) = true -> a = up k s /\ NvU64 (a + size - 1) = a + size - 1).
Proof.
  intros Hs He Hsize Hk. eexists. split; [by apply align_up_wrapped; lia|].
  pose proof (up_bounds k s ltac:(lia)) as Hup. unfold fits. cbn.
  destruct (s + 2 ^ k - 1 <=? NV_U64_MAX) eqn:E.
  - destruct (up k s + size - 1 <=? NV_U64_MAX) eqn:E2.
    + assert (NvU64 (up k s + size - 1) = up k s + size - 1) as ->
        by (apply wrap_small; unfold in_width, NV_U64_MAX in *; lia).
      replace (up k s <? s) with false by lia.
      replace (up k s + size - 1 <? up k s) with false by lia. cbn. split; [lia|done].
    + assert (NvU64 (up k s + size - 1) = up k s + size - 1 - 2 ^ 64) as ->.
      { unfold NvU64, wrap, NV_U64_MAX in *. symmetry. apply (Z.mod_unique_pos _ _ 1); lia. }
      unfold NV_U64_MAX in *. replace (up k s + size - 1 - 2 ^ 64 <? up k s) with true by lia.
      rewrite orb_true_r. split; lia.
  - unfold up in *. pose proof (pow2_pos k ltac:(lia)). unfold NV_U64_MAX in *.
    assert (2 ^ 64 <= 2 ^ k * ((s + 2 ^ k - 1) / 2 ^ k)) as Hbig.
    { apply (Z.le_trans _ (2 ^ k * (2 ^ 64 / 2 ^ k))).
      - rewrite <- (Z.pow_sub_r 2 64 k) by lia. rewrite <- Z.pow_add_r by lia.
        by replace (k + (64 - k)) with 64 by lia.
      - apply Z.mul_le_mono_nonneg_l; [lia|]. apply Z.div_le_mono; lia. }
    assert (0 < s) by (pose proof (Z.pow_lt_mono_r 2 k 64); lia).
    replace (0 <? s) with true by lia. cbn. split; lia.
Qed.

(** ** The tiling of [0, size)

    The free ranges and the nodes of the live allocations tile the whole
    interval; two free ranges are never neighbours.  A tile is a node and, for a
    live allocation, what its owner asked for and got. *)
Record live := mk_live {
  lv_alloc : uvm_range_allocation_t;
  lv_size : Z;
  lv_align : Z;
}.

Notation tile := (option live * entry)%type.

Fixpoint tiled (from : Z) (ts : list tile) (to : Z) : Prop :=
  match ts with
  | [] => from = to
  | (_, (_, r)) :: ts => rn_start r = from /\ from <= rn_end r /\ tiled (rn_end r + 1) ts to
  end.

Definition is_free (t : tile) : bool := match t.1 with None => true | Some _ => false end.

(** No two free neighbours; [prev] says whether the tile before is free. *)
Fixpoint separated (prev : bool) (ts : list tile) : Prop :=
  match ts with
  | [] => True
  | t :: ts => prev && is_free t = false /\ separated (is_free t) ts
  end.

Definition last_free (prev : bool) (ts : list tile) : bool :=
  match last ts with None => prev | Some t => is_free t end.

Definition free_entries (ts : list tile) : list entry :=
  omap (fun t => match t.1 with None => Some t.2 | Some _ => None end) ts.

Arguments free_entries : simpl never.

(** A live allocation: an aligned block at the end of its node's range. *)
Definition live_ok (l : live) (e : entry) : Prop :=
  ra_node (lv_alloc l) = Some e.1 /\ 0 < lv_size l /\ (lv_align l | aligned_start (lv_alloc l))
  /\ rn_start e.2 <= aligned_start (lv_alloc l)
  /\ aligned_start (lv_alloc l) + lv_size l - 1 = rn_end e.2.

Definition tile_ok (nodes : rt_nodes) (t : tile) : Prop :=
  nodes !! t.2.1 = Some t.2.2 /\ match t.1 with None => True | Some l => live_ok l t.2 end.

(** The invariant: the tiles of the allocator and the live allocations. *)
Record ra_inv (nodes : rt_nodes) (a : uvm_range_allocator_t) (ts : list tile) : Prop := {
  inv_size : 0 < ra_size a <= NV_U64_MAX;
  inv_tiled : tiled 0 ts (ra_size a);
  inv_separated : separated false ts;
  inv_refines : rt_refines nodes (range_tree a) (free_entries ts);
  inv_tiles : Forall (tile_ok nodes) ts;
  inv_nodup : NoDup (ts.*2).*1;
  inv_dom : forall n, is_Some (nodes !! n) <-> n ∈ (ts.*2).*1;
}.

(** ** Lemmas on tilings *)
Lemma tiled_app from t1 t2 to :
  tiled from (t1 ++ t2) to <-> exists mid, tiled from t1 mid /\ tiled mid t2 to.
Proof.
  revert from. induction t1 as [|[k [n r]] t1 IH]; intros from; cbn.
  - split; [by exists from|]. by intros (? & -> & ?).
  - rewrite IH. split.
    + intros (? & ? & mid & ? & ?). by exists mid.
    + intros (mid & (? & ? & ?) & ?). eauto.
Qed.

Lemma tiled_bounds from ts to :
  tiled from ts to -> from <= to
  /\ Forall (fun t => from <= rn_start t.2.2 <= rn_end t.2.2 /\ rn_end t.2.2 < to) ts.
Proof.
  revert from. induction ts as [|[k [n r]] ts IH]; intros from; cbn; [intros ->; split; [lia|constructor]|].
  intros (<- & Hr & Ht). apply IH in Ht as [Hto Hts]. split; [lia|]. constructor; [cbn; lia|].
  eapply Forall_impl; [exact Hts|]. cbn. intros t. lia.
Qed.

Lemma separated_app prev t1 t2 :
  separated prev (t1 ++ t2) <-> separated prev t1 /\ separated (last_free prev t1) t2.
Proof.
  revert prev. induction t1 as [|t t1 IH]; intros prev; [cbn; tauto|].
  cbn. rewrite IH. unfold last_free. rewrite last_cons. destruct (last t1); tauto.
Qed.

Lemma free_entries_used l e ts : free_entries ((Some l, e) :: ts) = free_entries ts.
Proof. done. Qed.

Lemma free_entries_free e ts : free_entries ((None, e) :: ts) = e :: free_entries ts.
Proof. done. Qed.

Lemma free_entries_app t1 t2 : free_entries (t1 ++ t2) = free_entries t1 ++ free_entries t2.
Proof. apply omap_app. Qed.

Lemma free_entries_Forall (P : entry -> Prop) ts :
  Forall (fun t => P t.2) ts -> Forall P (free_entries ts).
Proof.
  induction 1 as [|[[l|] e] ts Ht _ IH]; [constructor|done|by constructor].
Qed.

Lemma free_entries_within from ts to :
  tiled from ts to ->
  Forall (fun e => from <= rn_start e.2 <= rn_end e.2 /\ rn_end e.2 < to) (free_entries ts).
Proof. intros [_ Ht]%tiled_bounds. by apply free_entries_Forall. Qed.

Lemma free_entries_sub ts n : n ∈ (free_entries ts).*1 -> n ∈ (ts.*2).*1.
Proof.
  intros (e & -> & He)%list_elem_of_fmap. apply list_elem_of_omap in He as ([k e'] & Hin & He).
  destruct k; simplify_eq/=. rewrite <- list_fmap_compose. apply list_elem_of_fmap. by exists (None, e).
Qed.

Lemma tiled_app_inv from t1 k n r t2 to :
  tiled from (t1 ++ (k, (n, r)) :: t2) to ->
  tiled from t1 (rn_start r) /\ rn_start r <= rn_end r /\ tiled (rn_end r + 1) t2 to.
Proof. by intros (? & ? & (<- & ? & ?))%tiled_app. Qed.

(** ** The search loop *)
Section alloc_lemmas.
Context `{RbTreeLaws} (size k : Z) (new : node_id).
Hypothesis (size_range : 0 < size <= NV_U64_MAX) (k_range : 0 <= k < 64).

Let fit (e : entry) : bool := fits size k e.2.

(** What the loop leaves when it takes the range [r] of node [n]. *)
Definition taken (n : node_id) (r : uvm_range_tree_node_t) (s : alloc_state) : alloc_state :=
  let last := up k (rn_start r) + size - 1 in
  let nodes := <[new := mk_range_node (rn_start r) last]> (as_nodes s) in
  let alloc := as_alloc s <| aligned_start := up k (rn_start r) |> in
  if last <? rn_end r
  then mk_alloc_state (<[n := mk_range_node (last + 1) (rn_end r)]> nodes) (as_tree s) alloc true
  else mk_alloc_state (delete n nodes) (uvm_range_tree_remove (as_tree s) n) alloc true.

Lemma alloc_body_run n r s :
  as_nodes s !! n = Some r -> range_ok r -> new <> n ->
  alloc_body size (2 ^ k) new n s
    = Some (if fits size k r then (true, taken n r s) else (false, s)).
Proof.
  intros Hn Hok Hnew. unfold alloc_body. rewrite Hn. cbn [mbind option_bind].
  destruct r as [st e]. unfold range_ok in Hok. cbn [rn_start rn_end] in *.
  destruct (alloc_tests st e size k) as (a & -> & Ht & Hfit); [lia|lia|lia|lia|].
  cbn [mbind option_bind]. destruct (fits size k (mk_range_node st e)) eqn:Ef.
  - destruct (Hfit eq_refl) as [-> Ha]. rewrite Ha in *.
    destruct ((up k st <? st) || (up k st + size - 1 <? up k st)); [done|].
    destruct (e <? up k st + size - 1) eqn:Ee; [done|]. unfold taken. cbn [rn_start rn_end].
    pose proof (up_bounds k st ltac:(lia)).
    destruct (up k st + size - 1 <? e) eqn:Es.
    + assert (NvU64 (up k st + size - 1 + 1) = up k st + size - 1 + 1) as ->
        by (apply wrap_small; unfold in_width, NV_U64_MAX in *; lia).
      unfold uvm_range_tree_shrink_node. rewrite lookup_insert_ne, Hn by done. cbn [mbind option_bind rn_start rn_end].
      replace (up k st + size - 1 + 1 <=? e) with true by lia.
      replace (st <=? up k st + size - 1 + 1) with true by lia.
      by replace (e <=? e) with true by lia.
    + by replace (e =? up k st + size - 1) with true by lia.
  - destruct ((a <? st) || (NvU64 (a + size - 1) <? a)); [done|].
    by destruct (e <? NvU64 (a + size - 1)).
Qed.

Lemma alloc_loop_run l s :
  Forall (fun e : entry => as_nodes s !! e.1 = Some e.2 /\ range_ok e.2 /\ new <> e.1) l ->
  run_until (alloc_body size (2 ^ k) new) l.*1 s
    = Some (match List.find fit l with None => s | Some e => taken e.1 e.2 s end).
Proof.
  induction 1 as [|[n r] l (Hn & Hok & Hnew) _ IH]; [done|]. cbn [fmap list_fmap run_until fst List.find].
  rewrite (alloc_body_run n r s) by done. cbn [mbind option_bind]. unfold fit at 1. cbn [snd].
  by destruct (fits size k r).
Qed.

Lemma find_filter (p q : entry -> bool) l :
  Forall (fun e => p e = true -> q e = true) l -> List.find p (List.filter q l) = List.find p l.
Proof.
  induction 1 as [|x l Hx _ IH]; [done|]. cbn.
  destruct (q x) eqn:Eq; cbn; [by rewrite IH|]. destruct (p x) eqn:Ep; [by discriminate (Hx eq_refl)|done].
Qed.

(** An iteration that continues changes nothing. *)
Lemma alloc_body_continues alignment n s s' :
  alloc_body size alignment new n s = Some (false, s') -> as_view s' = as_view s.
Proof.
  unfold alloc_body. intros Hb. destruct (as_nodes s !! n) as [r|]; [|done]. cbn in Hb.
  destruct (UVM_ALIGN_UP (rn_start r) alignment) as [a|]; [|done]. cbn in Hb.
  repeat case_match; simplify_eq/=; try done.
  by destruct (uvm_range_tree_shrink_node _ _ _ _); simplify_eq/=.
Qed.

Lemma alloc_search nodes tree l total alloc :
  rt_refines nodes tree l -> Forall (fun e => range_ok e.2 /\ rn_end e.2 < total) l ->
  new ∉ l.*1 -> size <= total <= NV_U64_MAX ->
  let s := mk_alloc_state (<[new := mk_range_node 0 0]> nodes) tree alloc false in
  uvm_range_tree_for_each_in as_view 0 (NvU64 (total - size)) (alloc_body size (2 ^ k) new) s
    = Some (match List.find fit l with None => s | Some e => taken e.1 e.2 s end).
Proof.
  intros Hr Hl Hnew Htotal s.
  assert (NvU64 (total - size) = total - size) as ->
    by (apply wrap_small; unfold in_width, NV_U64_MAX in *; lia).
  rewrite (for_each_in_exact as_view _ _ (alloc_body_continues _) l); [| |lia].
  - rewrite alloc_loop_run.
    + rewrite find_filter; [done|]. eapply Forall_impl; [exact Hl|]. cbn. intros e [Hok He].
      unfold fit, fits, meets, range_ok in *. pose proof (up_bounds k (rn_start e.2) ltac:(lia)). lia.
    + apply Forall_forall. intros e He%list_elem_of_In%filter_In. destruct He as [He%list_elem_of_In _].
      rewrite Forall_forall in Hl. destruct (Hl e He).
      assert (new <> e.1) by (intros ->; apply Hnew, list_elem_of_fmap; eauto).
      split_and!; [|done|done]. cbn. rewrite lookup_insert_ne by done.
      destruct e as [n r]. by eapply rt_lookup.
  - cbn. eapply rt_frame; [exact Hr|]. intros n Hn. rewrite lookup_insert_ne; [done|]. by intros ->.
Qed.

(** The first free tile that fits. *)
Lemma find_free_split ts :
  match List.find fit (free_entries ts) with
  | None => Forall (fun e => fit e = false) (free_entries ts)
  | Some e => exists t1 t2, ts = t1 ++ (None, e) :: t2
      /\ Forall (fun e => fit e = false) (free_entries t1) /\ fit e = true
  end.
Proof.
  induction ts as [|[[l|] e] ts IH]; [constructor| |].
  - rewrite free_entries_used. destruct (List.find fit (free_entries ts)) as [e'|]; [|done].
    destruct IH as (t1 & t2 & -> & ? & ?). by exists ((Some l, e) :: t1), t2.
  - rewrite free_entries_free. cbn [List.find]. destruct (fit e) eqn:E.
    + by exists [], ts.
    + destruct (List.find fit (free_entries ts)) as [e'|].
      * destruct IH as (t1 & t2 & -> & ? & ?). exists ((None, e) :: t1), t2.
        split_and!; [done| |done]. by constructor.
      * by constructor.
Qed.
End alloc_lemmas.

(** ** Allocation *)
Lemma separated_weaken prev ts : separated prev ts -> separated false ts.
Proof. destruct ts; [done|]. by intros [_ ?]. Qed.

Lemma tiles_frame nodes nodes' ts :
  Forall (tile_ok nodes) ts -> (forall n, n ∈ (ts.*2).*1 -> nodes' !! n = nodes !! n) ->
  Forall (tile_ok nodes') ts.
Proof.
  intros Hts Hn. rewrite Forall_forall in Hts |- *. intros t Ht. destruct (Hts t Ht) as [Hl Ho].
  split; [|done]. rewrite <- Hl. apply Hn. rewrite <- list_fmap_compose. apply list_elem_of_fmap. eauto.
Qed.

Lemma tile_ids t1 k n r t2 :
  ((t1 ++ (k, (n, r)) :: t2 : list tile).*2).*1 = (t1.*2).*1 ++ n :: (t2.*2).*1.
Proof. by rewrite !fmap_app. Qed.

Lemma free_entries_ok nodes a ts :
  ra_inv nodes a ts -> Forall (fun e => range_ok e.2 /\ rn_end e.2 < ra_size a) (free_entries ts).
Proof.
  intros [Hsize Ht%free_entries_within _ _ _ _ _].
  eapply Forall_impl; [exact Ht|]. unfold range_ok. cbn. intros t. lia.
Qed.

(** Replacing tiles by others, with the store and the tree to match. *)
Lemma retile nodes nodes' a tree' t1 old mid t2 :
  ra_inv nodes a (t1 ++ old ++ t2) ->
  tiled 0 (t1 ++ mid ++ t2) (ra_size a) -> separated false (t1 ++ mid ++ t2) ->
  rt_refines nodes' tree' (free_entries (t1 ++ mid ++ t2)) -> Forall (tile_ok nodes') mid ->
  NoDup ((mid : list tile).*2).*1 ->
  (forall m, m ∈ (mid.*2).*1 -> m ∈ (old.*2).*1 \/ nodes !! m = None) ->
  (forall m, m ∉ (mid.*2).*1 -> nodes' !! m = if decide (m ∈ (old.*2).*1) then None else nodes !! m) ->
  ra_inv nodes' (a <| range_tree := tree' |>) (t1 ++ mid ++ t2).
Proof.
  intros [Hsize _ _ _ Hok Hd Hdom] Ht Hs Hr Hmid Hdm Hnew Hkeep.
  rewrite !fmap_app in Hd. rewrite !Forall_app in Hok. destruct Hok as (Hok1 & _ & Hok2).
  setoid_rewrite fmap_app in Hdom. setoid_rewrite fmap_app in Hdom.
  setoid_rewrite fmap_app in Hdom. setoid_rewrite fmap_app in Hdom.
  setoid_rewrite elem_of_app in Hdom. setoid_rewrite elem_of_app in Hdom.
  apply NoDup_app in Hd as (Hd1 & Hd12 & (Hdo & Hdo2 & Hd2)%NoDup_app).
  setoid_rewrite elem_of_app in Hd12.
  assert (forall m, m ∈ (t1.*2).*1 \/ m ∈ (t2.*2).*1 -> m ∉ (mid.*2).*1 /\ m ∉ (old.*2).*1) as Hout.
  { intros m Hm. assert (m ∉ (old.*2).*1) as Ho.
    { intros Ho. destruct Hm as [Hm|Hm]; [apply (Hd12 m Hm); tauto|exact (Hdo2 m Ho Hm)]. }
    split; [|done]. intros Hm'.
    destruct (Hnew m Hm') as [?|Hno]; [done|].
    assert (is_Some (nodes !! m)) as [??] by (apply Hdom; tauto). congruence. }
  assert (forall m, m ∈ (t1.*2).*1 \/ m ∈ (t2.*2).*1 -> nodes' !! m = nodes !! m) as Hsame.
  { intros m Hm. destruct (Hout m Hm). by rewrite Hkeep, decide_False. }
  split; try done.
  - rewrite !Forall_app. split_and!; [|done|]; (eapply tiles_frame; [eassumption|auto]).
  - rewrite !fmap_app, !NoDup_app. split_and!; [done| |done| |done].
    + intros x Hx. rewrite not_elem_of_app. split; [apply Hout; tauto|].
      intros Hx'. apply (Hd12 x Hx). tauto.
    + intros x Hx Hx'. destruct (Hout x) as [Hno _]; tauto.
  - intros m. rewrite !fmap_app, !elem_of_app. destruct (decide (m ∈ (mid.*2).*1)) as [Hm|Hm].
    + split; [tauto|]. intros _. rewrite Forall_forall in Hmid.
      rewrite <- list_fmap_compose in Hm. apply list_elem_of_fmap in Hm as (t & -> & Hm).
      destruct (Hmid t Hm) as [Ht' _]. cbn. by rewrite Ht'.
    + rewrite Hkeep by done. destruct (decide (m ∈ (old.*2).*1)).
      * split; [by intros [??]|]. intros [?|[?|?]]; destruct (Hout m); tauto.
      * rewrite Hdom. tauto.
Qed.

Lemma fresh_not_tile nodes a ts new :
  ra_inv nodes a ts -> nodes !! new = None -> new ∉ (ts.*2).*1.
Proof. intros [] Hnew. rewrite <- inv_dom0, Hnew. by intros [? ?]. Qed.

Section alloc_op.
Context `{RbTreeLaws} (size k : Z) (new : node_id).
Hypothesis (size_range : 0 < size <= NV_U64_MAX) (k_range : 0 <= k < 64).

(** The tiles that replace the free tile [r] of node [n]. *)
Definition take_tiles (n : node_id) (r : uvm_range_tree_node_t)
    : list tile :=
  let first := up k (rn_start r) in
  let last := first + size - 1 in
  (Some (mk_live (mk_range_allocation first (Some new)) size (2 ^ k)),
   (new, mk_range_node (rn_start r) last))
  :: (if last <? rn_end r then [(None, (n, mk_range_node (last + 1) (rn_end r)))] else []).

(** The tiling after taking a block. *)
Lemma take_tiled n r t1 t2 from to :
  fits size k r = true -> tiled from (t1 ++ (None, (n, r)) :: t2) to ->
  tiled from (t1 ++ take_tiles n r ++ t2) to.
Proof.
  intros Hfit (Ht1 & Hr & Ht2)%tiled_app_inv. unfold fits in Hfit.
  pose proof (up_bounds k (rn_start r) ltac:(lia)).
  apply tiled_app. exists (rn_start r). split; [done|]. unfold take_tiles.
  destruct (_ <? rn_end r) eqn:E; cbn; split_and!; try done; try lia.
  by replace (up k (rn_start r) + size - 1 + 1) with (rn_end r + 1) by lia.
Qed.

Lemma take_separated n r t1 t2 prev :
  separated prev (t1 ++ (None, (n, r)) :: t2) -> separated prev (t1 ++ take_tiles n r ++ t2).
Proof.
  rewrite !separated_app. intros (? & ? & Ht2). split; [done|]. unfold take_tiles.
  destruct (_ <? rn_end r); cbn; rewrite ?andb_false_r; split_and!; try done.
  by eapply separated_weaken.
Qed.

Lemma take_live_ok r :
  live_ok (mk_live (mk_range_allocation (up k (rn_start r)) (Some new)) size (2 ^ k))
    (new, mk_range_node (rn_start r) (up k (rn_start r) + size - 1)).
Proof.
  pose proof (up_bounds k (rn_start r) ltac:(lia)).
  split_and!; cbn; try done; try lia. apply up_divide.
Qed.

Lemma taken_inv nodes a t1 n r t2 alloc :
  ra_inv nodes a (t1 ++ (None, (n, r)) :: t2) -> nodes !! new = None -> fits size k r = true ->
  let s := taken size k new n r
             (mk_alloc_state (<[new := mk_range_node 0 0]> nodes) (range_tree a) alloc false) in
  ra_inv (as_nodes s) (a <| range_tree := as_tree s |>) (t1 ++ take_tiles n r ++ t2).
Proof.
  intros Hinv Hnew Hfit s. pose proof Hinv as [Hsize Ht Hs Hr Hok Hd Hdom].
  pose proof (fresh_not_tile _ _ _ _ Hinv Hnew) as Hfresh.
  rewrite tile_ids in Hd, Hfresh. pose proof (NoDup_mid _ _ _ Hd) as [Hn1 Hn2].
  assert (new <> n) as Hne by set_solver.
  rewrite free_entries_app, free_entries_free in Hr.
  assert (rt_refines (<[new := mk_range_node (rn_start r) (up k (rn_start r) + size - 1)]> nodes)
    (range_tree a) (free_entries t1 ++ (n, r) :: free_entries t2)) as Hr'.
  { eapply rt_frame; [exact Hr|]. intros m Hm. rewrite lookup_insert_ne; [done|]. intros <-.
    apply Hfresh. rewrite <- (tile_ids t1 None n r t2). apply free_entries_sub.
    by rewrite free_entries_app. }
  pose proof (rt_neighbours _ _ _ _ _ _ Hr) as (Hrok & Hlo & Hhi).
  pose proof (up_bounds k (rn_start r) ltac:(lia)) as Hup.
  pose proof (take_tiled n r t1 t2 _ _ Hfit Ht) as Ht'. pose proof (take_separated n r t1 t2 _ Hs) as Hs'.
  subst s. unfold taken, take_tiles, fits in *. cbn [as_nodes as_tree as_alloc] in *.
  rewrite insert_insert_eq. destruct (_ <? rn_end r) eqn:E; cbn [as_nodes as_tree].
  - apply (retile _ _ _ _ _ [(None, (n, r))] _ _ Hinv Ht' Hs'); cbn.
    + rewrite free_entries_app, free_entries_used, free_entries_free. eapply rt_set; [exact Hr'| |ranges Hlo|ranges Hhi].
      unfold range_ok in *; cbn; lia.
    + constructor; [|constructor; [|constructor]]; (split; cbn).
      * by rewrite lookup_insert_ne, lookup_insert_eq by done.
      * apply take_live_ok.
      * by rewrite lookup_insert_eq.
      * done.
    + repeat constructor; set_solver.
    + intros m Hm. apply elem_of_cons in Hm as [->|Hm]; auto.
    + intros m Hm. rewrite !not_elem_of_cons in Hm. destruct Hm as (? & ? & _).
      rewrite decide_False by set_solver. by rewrite !lookup_insert_ne by done.
  - apply (retile _ _ _ _ _ [(None, (n, r))] _ _ Hinv Ht' Hs'); cbn.
    + rewrite free_entries_app, free_entries_used. eapply rt_frame; [exact (rt_remove _ _ _ _ _ _ Hr')|].
      intros m Hm. apply lookup_delete_ne. intros <-. rewrite fmap_app, elem_of_app in Hm.
      destruct Hm as [?%free_entries_sub|?%free_entries_sub]; tauto.
    + constructor; [|constructor]. split; cbn; [|apply take_live_ok].
      by rewrite lookup_delete_ne, lookup_insert_eq by done.
    + repeat constructor; set_solver.
    + intros m Hm%list_elem_of_singleton. subst. auto.
    + intros m Hm. rewrite not_elem_of_cons in Hm. destruct Hm as [? _].
      destruct (decide (m ∈ [n])) as [->%list_elem_of_singleton|Hmn]; [apply lookup_delete_eq|].
      rewrite list_elem_of_singleton in Hmn. by rewrite lookup_delete_ne, lookup_insert_ne by done.
Qed.
End alloc_op.

(** ** Free *)
Section free_op.
Context `{RbTreeLaws}.

(** The nodes that a merge absorbs, at most one, are freed. *)
Definition absorbs (nodes nodes' : rt_nodes) (n : node_id) (r' : uvm_range_tree_node_t)
    (adjacent : option node_id) (absorbed : list tile) : Prop :=
  nodes' !! n = Some r' /\ (forall m, m <> n -> nodes' !! m = nodes !! m)
  /\ (absorbed = [] /\ adjacent = None
      \/ exists p a, absorbed = [(None, (p, a))] /\ adjacent = Some p /\ p <> n).

Lemma absorbs_none nodes n r : nodes !! n = Some r -> absorbs nodes nodes n r None [].
Proof. intros. split_and!; auto. Qed.

Lemma absorbs_one nodes n r' p a :
  p <> n -> absorbs nodes (<[n := r']> nodes) n r' (Some p) [(None, (p, a))].
Proof.
  intros. split_and!; [apply lookup_insert_eq|intros; by rewrite lookup_insert_ne|].
  right. by exists p, a.
Qed.

(** Merging with the previous free range leaves a used tile, or none, before. *)
Lemma merge_prev_tiles nodes tree t1 n r hi :
  rt_refines nodes tree (free_entries t1 ++ (n, r) :: hi) ->
  tiled 0 t1 (rn_start r) -> separated false t1 ->
  exists t1' absorbed adjacent r' nodes' tree',
    uvm_range_tree_merge_prev nodes tree n = Some (adjacent, nodes', tree')
    /\ rt_refines nodes' tree' (free_entries t1' ++ (n, r') :: hi)
    /\ t1 = t1' ++ absorbed /\ tiled 0 t1' (rn_start r')
    /\ rn_start r' <= rn_start r /\ rn_end r' = rn_end r
    /\ separated false t1' /\ last_free false t1' = false
    /\ absorbs nodes nodes' n r' adjacent absorbed.
Proof.
  intros Hr Ht Hs. assert (nodes !! n = Some r) as Hn by (eapply rt_lookup; [exact Hr|set_solver]).
  destruct (last t1) as [[[l|] [p a]]|] eqn:El.
  - apply last_Some in El as [t1' ->]. exists (t1' ++ [(Some l, (p, a))]), [], None, r, nodes, tree.
    rewrite app_nil_r. split_and!; try done; [| |by apply absorbs_none].
    + rewrite free_entries_app, free_entries_used, app_nil_r in Hr.
      apply tiled_app in Ht as (mid & Ht1 & Hp). cbn in Hp.
      apply free_entries_within in Ht1.
      destruct (last (free_entries t1')) as [e|] eqn:Ee.
      * apply last_Some in Ee as [lo Ee]. rewrite Ee, <- app_assoc in Hr.
        pose proof (rt_merge_prev nodes tree lo e.1 e.2 n r hi) as Hm. rewrite <- surjective_pairing in Hm.
        specialize (Hm Hr). cbn in Hm. rewrite Ee in Ht1. apply Forall_app in Ht1 as [_ [He _]%Forall_cons].
        by replace (rn_end e.2 + 1 =? rn_start r) with false in Hm by lia.
      * apply last_None in Ee. rewrite Ee in Hr. by eapply rt_merge_prev_none.
    + unfold last_free. by rewrite last_snoc.
  - apply last_Some in El as [t1' ->].
    rewrite free_entries_app, <- app_assoc in Hr. cbn in Hr.
    apply tiled_app in Ht as (mid & Ht1 & Hp). cbn in Hp. destruct Hp as (Hp1 & Hp2 & Hp3).
    apply separated_app in Hs as [Hs1 [Hs2 _]]. cbn in Hs2. rewrite andb_true_r in Hs2.
    pose proof (rt_merge_prev _ _ _ _ _ _ _ _ Hr) as Hm. cbn in Hm.
    replace (rn_end a + 1 =? rn_start r) with true in Hm by lia. destruct Hm as [Hm Hr'].
    exists t1', [(None, (p, a))], (Some p). do 3 eexists. split; [exact Hm|]. split; [exact Hr'|].
    cbn. split_and!; try done; [by rewrite Hp1|lia|]. apply absorbs_one. intros ->.
    pose proof (rt_refines_nodup _ _ _ Hr) as Hd. rewrite fmap_app in Hd. cbn in Hd.
    apply NoDup_app in Hd as (_ & _ & [Hd _]%NoDup_cons). set_solver.
  - apply last_None in El as ->. exists [], [], None, r, nodes, tree.
    split_and!; try done; [exact (rt_merge_prev_none nodes tree n r hi Hr)|by apply absorbs_none].
Qed.

(** Merging with the next free range leaves a used tile, or none, after. *)
Lemma merge_next_tiles nodes tree lo n r t2 to :
  rt_refines nodes tree (lo ++ (n, r) :: free_entries t2) ->
  tiled (rn_end r + 1) t2 to -> separated false t2 ->
  exists t2' absorbed adjacent r' nodes' tree',
    uvm_range_tree_merge_next nodes tree n = Some (adjacent, nodes', tree')
    /\ rt_refines nodes' tree' (lo ++ (n, r') :: free_entries t2')
    /\ t2 = absorbed ++ t2' /\ tiled (rn_end r' + 1) t2' to
    /\ rn_start r' = rn_start r /\ rn_end r <= rn_end r' /\ separated true t2'
    /\ absorbs nodes nodes' n r' adjacent absorbed.
Proof.
  intros Hr Ht Hs. assert (nodes !! n = Some r) as Hn by (eapply rt_lookup; [exact Hr|set_solver]).
  destruct t2 as [|[[l|] [p a]] t2].
  - exists [], [], None, r, nodes, tree.
    split_and!; try done; [by eapply rt_merge_next_none|by apply absorbs_none].
  - exists ((Some l, (p, a)) :: t2), [], None, r, nodes, tree.
    split_and!; try done; [|by apply absorbs_none].
    rewrite free_entries_used in Hr. cbn in Ht. destruct Ht as (Hp1 & Hp2 & Ht%free_entries_within).
    destruct (free_entries t2) as [|[m b] hi]; [by eapply rt_merge_next_none|].
    pose proof (rt_merge_next _ _ _ _ _ _ _ _ Hr) as Hm. cbn in Hm.
    apply Forall_cons in Ht as [Hb _]. cbn in Hb.
    by replace (rn_end r + 1 =? rn_start b) with false in Hm by lia.
  - rewrite free_entries_free in Hr. cbn in Ht, Hs. destruct Ht as (Hp1 & Hp2 & Ht), Hs as [_ Hs].
    pose proof (rt_merge_next _ _ _ _ _ _ _ _ Hr) as Hm. cbn in Hm.
    replace (rn_end r + 1 =? rn_start a) with true in Hm by lia. destruct Hm as [Hm Hr'].
    exists t2, [(None, (p, a))], (Some p). do 3 eexists. split; [exact Hm|]. split; [exact Hr'|].
    cbn. split_and!; try done; [lia|]. apply absorbs_one. intros ->.
    pose proof (rt_refines_nodup _ _ _ Hr) as Hd. rewrite fmap_app in Hd. cbn in Hd.
    apply NoDup_app in Hd as (_ & _ & [Hd _]%NoDup_cons). set_solver.
Qed.

(** The store after the absorbed node is freed. *)
Lemma absorbs_freed nodes nodes' n r' adjacent absorbed m :
  absorbs nodes nodes' n r' adjacent absorbed ->
  kvfree_adjacent adjacent nodes' !! m
    = if decide (m ∈ (absorbed.*2).*1) then None
      else if decide (m = n) then Some r' else nodes !! m.
Proof.
  intros (Hn & Hsame & Ha). destruct Ha as [[-> ->]|(p & a & -> & -> & Hp)]; cbn.
  - rewrite decide_False by set_solver. destruct (decide (m = n)) as [->|]; [done|by apply Hsame].
  - destruct (decide (m = p)) as [->|Hmp].
    + rewrite decide_True by set_solver. apply lookup_delete_eq.
    + rewrite decide_False by set_solver. rewrite lookup_delete_ne by done.
      destruct (decide (m = n)) as [->|]; [done|by apply Hsame].
Qed.

Lemma absorbs_free nodes nodes' n r' adjacent absorbed :
  absorbs nodes nodes' n r' adjacent absorbed -> Forall (fun t => is_free t = true) absorbed.
Proof. intros (_ & _ & [[-> _]|(p & a & -> & _)]); repeat constructor. Qed.

Lemma freed_refines nodes nodes' n r' adjacent absorbed tree l :
  absorbs nodes nodes' n r' adjacent absorbed -> rt_refines nodes' tree l ->
  (forall m, m ∈ (absorbed.*2).*1 -> m ∉ l.*1) ->
  rt_refines (kvfree_adjacent adjacent nodes') tree l.
Proof.
  intros (_ & _ & Ha) Hr Hout. destruct Ha as [[-> ->]|(p & a & -> & -> & Hp)]; [done|].
  eapply rt_frame; [exact Hr|]. intros m Hm. apply lookup_delete_ne. intros <-.
  by apply (Hout p); [apply list_elem_of_here|].
Qed.

(** No node of a free range is among the absorbed tiles. *)
Lemma absorbed_apart (t1 b1 b2 t2 : list tile) n r :
  NoDup ((((t1 ++ b1).*2).*1) ++ n :: ((b2 ++ t2).*2).*1) ->
  forall m, m ∈ (b1.*2).*1 \/ m ∈ (b2.*2).*1 ->
    m <> n /\ m ∉ (free_entries t1 ++ (n, r) :: free_entries t2).*1.
Proof.
  rewrite !fmap_app. intros Hd m Hm. pose proof (NoDup_mid _ _ _ Hd) as [Hn1 Hn2].
  apply NoDup_app in Hd as ((_ & H1 & _)%NoDup_app & H2 & [_ (_ & H3 & _)%NoDup_app]%NoDup_cons).
  rewrite elem_of_app in Hn1, Hn2. setoid_rewrite elem_of_app in H2. setoid_rewrite elem_of_cons in H2.
  setoid_rewrite elem_of_app in H2.
  assert (m <> n) as Hmn by (intros ->; tauto). split; [done|].
  cbn. rewrite elem_of_app, elem_of_cons.
  intros [Hf%free_entries_sub|[Hf|Hf%free_entries_sub]]; [|done|].
  - destruct Hm as [Hm|Hm]; [exact (H1 m Hf Hm)|]. apply (H2 m); tauto.
  - destruct Hm as [Hm|Hm]; [apply (H2 m); tauto|]. exact (H3 m Hm Hf).
Qed.

Lemma ra_free nodes a t1 l n r t2 :
  ra_inv nodes a (t1 ++ (Some l, (n, r)) :: t2) ->
  exists nodes' a' t1' t2' b1 b2 r',
    uvm_range_allocator_free nodes a (Some (lv_alloc l))
      = Some (nodes', a', Some (lv_alloc l <| ra_node := None |>))
    /\ ra_inv nodes' a' (t1' ++ (None, (n, r')) :: t2')
    /\ ra_size a' = ra_size a /\ t1 = t1' ++ b1 /\ t2 = b2 ++ t2'
    /\ Forall (fun t => is_free t = true) b1 /\ Forall (fun t => is_free t = true) b2.
Proof.
  intros Hinv. pose proof Hinv as [Hsize Ht Hs Hr Hok Hd Hdom].
  pose proof (tiled_app_inv _ _ _ _ _ _ _ Ht) as (Ht1 & Hrr & Ht2).
  apply separated_app in Hs as [Hs1 [_ Hs2]]. cbn in Hs2.
  rewrite free_entries_app, free_entries_used in Hr.
  apply Forall_app in Hok as [_ [[Hn (Hnode & _)] _]%Forall_cons]. cbn in Hn, Hnode.
  rewrite tile_ids in Hd. pose proof (NoDup_mid _ _ _ Hd) as [Hn1 Hn2].
  pose proof (tiled_bounds _ _ _ Ht1) as [? _]. pose proof (tiled_bounds _ _ _ Ht2) as [? _].
  unfold uvm_range_allocator_free. rewrite Hnode. cbn [mbind option_bind].
  (* adding the node *)
  destruct (rt_add_free nodes (range_tree a) (free_entries t1) (free_entries t2) n r Hr Hn)
    as (tree1 & -> & Hr1).
  { unfold range_ok. lia. }
  { rewrite fmap_app, elem_of_app. intros [?%free_entries_sub|?%free_entries_sub]; tauto. }
  { apply free_entries_within in Ht1. ranges Ht1. }
  { apply free_entries_within in Ht2. ranges Ht2. }
  cbn [mbind option_bind]. replace (NV_OK =? NV_OK) with true by done.
  (* the two merges *)
  destruct (merge_prev_tiles _ _ _ _ _ _ Hr1 Ht1 Hs1)
    as (t1' & b1 & adj1 & r1 & nodes1 & tree1' & -> & Hr2 & -> & Ht1' & Hr1s & Hr1e & Hs1' & Hl1 & Hab1).
  cbn [mbind option_bind].
  assert (rt_refines (kvfree_adjacent adj1 nodes1) tree1' (free_entries t1' ++ (n, r1) :: free_entries t2)) as Hr3.
  { eapply freed_refines; [exact Hab1|exact Hr2|]. intros m Hm.
    by apply (absorbed_apart t1' b1 [] t2 n r1 Hd); left. }
  rewrite <- Hr1e in Ht2.
  destruct (merge_next_tiles _ _ _ _ _ _ _ Hr3 Ht2 Hs2)
    as (t2' & b2 & adj2 & r2 & nodes2 & tree2 & -> & Hr4 & -> & Ht2' & Hr2s & Hr2e & Hs2' & Hab2).
  cbn [mbind option_bind].
  exists (kvfree_adjacent adj2 nodes2), (a <| range_tree := tree2 |>), t1', t2', b1, b2, r2.
  split; [done|]. split; [|split_and!; try done; by eapply absorbs_free].
  pose proof (absorbed_apart t1' b1 b2 t2' n r2 Hd) as Hapart.
  apply (retile nodes _ a tree2 t1' (b1 ++ (Some l, (n, r)) :: b2) [(None, (n, r2))] t2').
  - by rewrite <- !app_assoc in Hinv |- *.
  - apply tiled_app. exists (rn_start r2). rewrite Hr2s. cbn. split; [done|]. split; [done|].
    split; [lia|done].
  - apply separated_app. split; [done|]. rewrite Hl1. by cbn.
  - rewrite free_entries_app. cbn [app]. rewrite free_entries_free.
    eapply freed_refines; [exact Hab2|exact Hr4|]. intros m Hm. by apply Hapart; right.
  - constructor; [|constructor]. split; [|done]. cbn. rewrite (absorbs_freed _ _ _ _ _ _ n Hab2).
    rewrite decide_False by (intros Hm; by destruct (Hapart n (or_intror Hm))). by rewrite decide_True.
  - repeat constructor. set_solver.
  - cbn. intros m ->%list_elem_of_singleton. left. rewrite !fmap_app. set_solver.
  - cbn. intros m Hm. rewrite list_elem_of_singleton in Hm.
    rewrite (absorbs_freed _ _ _ _ _ _ m Hab2), (decide_False (P := m = n)) by done.
    rewrite (absorbs_freed _ _ _ _ _ _ m Hab1), (decide_False (P := m = n)) by done.
    rewrite !fmap_app. cbn. repeat case_decide; try done; rewrite elem_of_app, elem_of_cons in *; tauto.
Qed.
End free_op.

(** ** The allocator and its users *)
Record ra_sys := mk_ra_sys {
  sys_nodes : rt_nodes;
  sys_ra : uvm_range_allocator_t;
  sys_live : list live;
}.

(** A request: a positive 64-bit size and an alignment that is zero or a power
    of two; [request_align] is the alignment the allocator uses. *)
Definition request_align (alignment : Z) : Z := if alignment =? 0 then 1 else alignment.
Definition valid_request (size alignment : Z) : Prop :=
  0 < size <= NV_U64_MAX /\ exists k, 0 <= k < 64 /\ request_align alignment = 2 ^ k.

Inductive ra_reachable `{RbTree} (size : Z) : ra_sys -> Prop :=
| reach_init n a0 nodes a :
    0 < size <= NV_U64_MAX ->
    uvm_range_allocator_init ∅ (Some n) size a0 = Some (NV_OK, nodes, a) ->
    ra_reachable size (mk_ra_sys nodes a [])
| reach_alloc s ptr req alignment alloc0 status nodes a alloc :
    ra_reachable size s -> valid_request req alignment ->
    (forall n, ptr = Some n -> sys_nodes s !! n = None) ->
    uvm_range_allocator_alloc (sys_nodes s) (sys_ra s) ptr req alignment alloc0
      = Some (status, nodes, a, alloc) ->
    ra_reachable size (mk_ra_sys nodes a
      (if status =? NV_OK then mk_live alloc req (request_align alignment) :: sys_live s
       else sys_live s))
| reach_free nodes0 a0 l1 l l2 nodes a alloc :
    ra_reachable size (mk_ra_sys nodes0 a0 (l1 ++ l :: l2)) ->
    uvm_range_allocator_free nodes0 a0 (Some (lv_alloc l)) = Some (nodes, a, alloc) ->
    ra_reachable size (mk_ra_sys nodes a (l1 ++ l2)).

Definition lives (ts : list tile) : list live := omap fst ts.
Arguments lives : simpl never.

Definition sys_inv (size : Z) (s : ra_sys) : Prop :=
  exists ts, ra_inv (sys_nodes s) (sys_ra s) ts /\ ra_size (sys_ra s) = size
    /\ sys_live s ≡ₚ lives ts.

Lemma lives_app t1 t2 : lives (t1 ++ t2) = lives t1 ++ lives t2.
Proof. apply omap_app. Qed.

Lemma lives_free ts : Forall (fun t => is_free t = true) ts -> lives ts = [].
Proof. induction 1 as [|[[l|] e] ts Ht _ IH]; [done|done|exact IH]. Qed.

Lemma lives_elem l ts :
  l ∈ lives ts -> exists t1 e t2, ts = t1 ++ (Some l, e) :: t2.
Proof.
  intros ([k e] & (t1 & t2 & ->)%list_elem_of_split & Hk)%list_elem_of_omap.
  cbn in Hk. subst. eauto.
Qed.

Arguments take_tiles : simpl never.

Section system.
Context `{RbTreeLaws}.

Lemma ra_init n a0 size :
  0 < size <= NV_U64_MAX ->
  exists nodes a, uvm_range_allocator_init ∅ (Some n) size a0 = Some (NV_OK, nodes, a)
    /\ ra_inv nodes a [(None, (n, mk_range_node 0 (size - 1)))] /\ ra_size a = size.
Proof.
  intros Hsize. unfold uvm_range_allocator_init. replace (0 <? size) with true by lia.
  assert (NvU64 (size - 1) = size - 1) as -> by (apply wrap_small; unfold in_width, NV_U64_MAX in *; lia).
  set (nodes := <[n := _]> ∅).
  destruct (rt_add_free nodes uvm_range_tree_init [] [] n (mk_range_node 0 (size - 1)))
    as (tree & -> & Hr).
  - apply rt_init_refines.
  - apply lookup_insert_eq.
  - unfold range_ok. cbn. lia.
  - cbn. set_solver.
  - constructor.
  - constructor.
  - cbn [mbind option_bind]. replace (NV_OK =? NV_OK) with true by done. do 2 eexists.
    split; [done|]. split; [|done]. split; cbn; try done.
    + split_and!; lia.
    + constructor; [|constructor]. split; [apply lookup_insert_eq|done].
    + repeat constructor. set_solver.
    + intros m. rewrite list_elem_of_singleton. unfold nodes.
      destruct (decide (m = n)) as [->|Hmn]; [rewrite lookup_insert_eq; split; eauto|].
      rewrite lookup_insert_ne, lookup_empty by done. split; [by intros [??]|done].
Qed.

Lemma ra_deinit nodes a n r :
  ra_inv nodes a [(None, (n, r))] ->
  exists a', uvm_range_allocator_deinit nodes a = Some (∅, a').
Proof.
  intros [Hsize Ht _ Hr _ _ Hdom]. cbn in Ht. unfold uvm_range_allocator_deinit.
  assert (NvU64 (ra_size a - 1) = ra_size a - 1) as -> by (apply wrap_small; unfold in_width, NV_U64_MAX in *; lia).
  rewrite free_entries_free in Hr.
  rewrite (rt_iter_first _ _ _ _ _ Hr) by lia. cbn. unfold meets. cbn.
  replace (rn_start r <=? ra_size a - 1) with true by lia. replace (0 <=? rn_end r) with true by lia.
  cbn. rewrite (rt_lookup _ _ _ n r Hr) by set_solver. cbn.
  replace (rn_start r =? 0) with true by lia. replace (rn_end r =? ra_size a - 1) with true by lia.
  cbn. eexists. do 2 f_equal. apply map_eq. intros m. rewrite lookup_empty.
  destruct (decide (n = m)) as [->|Hnm]; [apply lookup_delete_eq|]. rewrite lookup_delete_ne by done.
  destruct (nodes !! m) eqn:E; [|done]. assert (m ∈ [n]) as Hm by (apply Hdom; eauto). set_solver.
Qed.

Lemma ra_alloc nodes a ts new size alignment k alloc0 :
  ra_inv nodes a ts -> 0 < size <= NV_U64_MAX -> 0 <= k < 64 -> request_align alignment = 2 ^ k ->
  nodes !! new = None ->
  match List.find (fun e => fits size k e.2) (free_entries ts) with
  | None => exists alloc, uvm_range_allocator_alloc nodes a (Some new) size alignment alloc0
      = Some (NV_ERR_UVM_ADDRESS_IN_USE, nodes, a, alloc)
  | Some (n, r) => exists t1 t2 nodes' a',
      uvm_range_allocator_alloc nodes a (Some new) size alignment alloc0
        = Some (NV_OK, nodes', a', mk_range_allocation (up k (rn_start r)) (Some new))
      /\ ts = t1 ++ (None, (n, r)) :: t2 /\ Forall (fun e => fits size k e.2 = false) (free_entries t1)
      /\ fits size k r = true /\ ra_size a' = ra_size a
      /\ ra_inv nodes' a' (t1 ++ take_tiles size k new n r ++ t2)
  end.
Proof.
  intros Hinv Hsize Hk Halign Hnew. pose proof (free_entries_ok _ _ _ Hinv) as Hfree.
  pose proof (find_free_split size k ts) as Hfind. pose proof Hinv as [Htotal _ _ Hr _ _ _].
  unfold uvm_range_allocator_alloc. fold (request_align alignment). rewrite Halign.
  replace (0 <? size) with true by lia. rewrite is_power_of_2_pow by lia.
  destruct (ra_size a <? size) eqn:Ebig.
  - rewrite find_none; [by eexists|]. eapply Forall_impl; [exact Hfree|].
    intros e [Hok He]. unfold fits, range_ok in *. pose proof (up_bounds k (rn_start e.2) ltac:(lia)). lia.
  - rewrite (alloc_search size k new Hsize Hk _ _ _ (ra_size a) _ Hr Hfree); [|intros Hin%free_entries_sub|lia];
      [|by apply (fresh_not_tile _ _ _ _ Hinv Hnew)].
    cbn [mbind option_bind]. destruct (List.find _ (free_entries ts)) as [[n r]|].
    + destruct Hfind as (t1 & t2 & -> & Hno & Hfit). cbn in Hfit. cbn [fst snd].
      pose proof (taken_inv size k new Hsize Hk _ _ _ _ _ _ (alloc0 <| ra_node := Some new |>) Hinv Hnew Hfit) as Hinv'.
      exists t1, t2. do 2 eexists. split; [|split_and!; [done|done|done| |exact Hinv']; done].
      unfold taken. cbn [as_nodes as_tree as_alloc].
      destruct (up k (rn_start r) + size - 1 <? rn_end r); done.
    + cbn. rewrite delete_insert_id by done. destruct a. eexists. done.
Qed.

Lemma take_lives size k new n r :
  lives (take_tiles size k new n r)
    = [mk_live (mk_range_allocation (up k (rn_start r)) (Some new)) size (2 ^ k)].
Proof. unfold take_tiles. by destruct (_ <? rn_end r). Qed.

(** Freeing a live allocation. *)
Lemma sys_free size nodes a l1 l l2 :
  sys_inv size (mk_ra_sys nodes a (l1 ++ l :: l2)) ->
  exists nodes' a' alloc, uvm_range_allocator_free nodes a (Some (lv_alloc l)) = Some (nodes', a', alloc)
    /\ sys_inv size (mk_ra_sys nodes' a' (l1 ++ l2)).
Proof.
  intros (ts & Hinv & Hsize & Hlive). cbn in *.
  destruct (lives_elem l ts) as (t1 & [n r] & t2 & ->).
  { rewrite <- Hlive. set_solver. }
  destruct (ra_free _ _ _ _ _ _ _ Hinv)
    as (nodes' & a' & t1' & t2' & b1 & b2 & r' & Hf & Hinv' & Hsize' & -> & -> & Hb1 & Hb2).
  exists nodes', a'. eexists. split; [exact Hf|]. eexists. split; [exact Hinv'|]. cbn. split; [congruence|].
  rewrite !lives_app in Hlive |- *. rewrite (lives_app t1' b1), (lives_free b1 Hb1) in Hlive.
  change (lives ((Some l, (n, r)) :: b2 ++ t2')) with (l :: lives (b2 ++ t2')) in Hlive.
  change (lives ((None, (n, r')) :: t2')) with (lives t2').
  rewrite lives_app, (lives_free b2 Hb2), app_nil_r in Hlive. cbn in Hlive.
  rewrite <- !Permutation_middle in Hlive. by apply Permutation_cons_inv in Hlive.
Qed.

(** An allocation, successful or not. *)
Lemma sys_alloc size s ptr req alignment alloc0 :
  sys_inv size s -> valid_request req alignment ->
  (forall n, ptr = Some n -> sys_nodes s !! n = None) ->
  exists status nodes a alloc,
    uvm_range_allocator_alloc (sys_nodes s) (sys_ra s) ptr req alignment alloc0
      = Some (status, nodes, a, alloc)
    /\ sys_inv size (mk_ra_sys nodes a
         (if status =? NV_OK then mk_live alloc req (request_align alignment) :: sys_live s
          else sys_live s)).
Proof.
  intros (ts & Hinv & Hsize & Hlive) (Hreq & k & Hk & Halign) Hptr. destruct s as [nodes a live']. cbn in *.
  destruct ptr as [new|].
  - specialize (Hptr new eq_refl).
    pose proof (ra_alloc _ _ _ new req alignment k alloc0 Hinv Hreq Hk Halign Hptr) as Ha.
    destruct (List.find _ (free_entries ts)) as [[n r]|].
    + destruct Ha as (t1 & t2 & nodes' & a' & -> & -> & _ & _ & Hsize' & Hinv').
      do 4 eexists. split; [done|]. cbn. eexists. split; [exact Hinv'|]. cbn. split; [congruence|].
      rewrite lives_app, (lives_app (take_tiles _ _ _ _ _)), take_lives, Halign.
      rewrite lives_app in Hlive.
      change (lives ((None, (n, r)) :: t2)) with (lives t2) in Hlive. cbn.
      rewrite <- Permutation_middle. by rewrite Hlive.
    + destruct Ha as [alloc ->]. do 4 eexists. split; [done|]. cbn. exists ts. done.
  - unfold uvm_range_allocator_alloc. fold (request_align alignment). rewrite Halign.
    replace (0 <? req) with true by lia. rewrite is_power_of_2_pow by lia.
    destruct (ra_size a <? req); do 4 eexists; (split; [done|]); cbn; by exists ts.
Qed.

Lemma reachable_inv size s : ra_reachable size s -> sys_inv size s.
Proof.
  induction 1 as [n a0 nodes a Hsize Hinit|s ptr req alignment alloc0 status nodes a alloc _ IH Hv Hp Ha
                 |nodes0 a0 l1 l l2 nodes a alloc _ IH Hf].
  - destruct (ra_init n a0 size Hsize) as (nodes' & a' & Hi & Hinv & Hs).
    rewrite Hinit in Hi. simplify_eq. eexists. split; [exact Hinv|]. done.
  - destruct (sys_alloc size s ptr req alignment alloc0 IH Hv Hp) as (st & n' & a' & al & Ha' & Hinv).
    rewrite Ha in Ha'. simplify_eq. exact Hinv.
  - destruct (sys_free size _ _ _ _ _ IH) as (n' & a' & al & Hf' & Hinv).
    rewrite Hf in Hf'. simplify_eq. exact Hinv.
Qed.

(** ** What the users see *)
Definition block_start (l : live) : Z := aligned_start (lv_alloc l).
Definition block_end (l : live) : Z := aligned_start (lv_alloc l) + lv_size l - 1.

Lemma lives_sorted nodes from ts to :
  tiled from ts to -> Forall (tile_ok nodes) ts ->
  Forall (fun l => from <= block_start l <= block_end l /\ block_end l < to
                   /\ (lv_align l | block_start l)) (lives ts)
  /\ StronglySorted (fun a b => block_end a < block_start b) (lives ts).
Proof.
  revert from. induction ts as [|[[l|] [n r]] ts IH]; intros from; [split; constructor|..]; cbn;
    intros (<- & Hr & Ht) [[_ Hl] Hok]%Forall_cons; cbn in Hl;
    destruct (IH _ Ht Hok) as [Hb Hs]; apply tiled_bounds in Ht as [Hto _].
  - change (lives ((Some l, (n, r)) :: ts)) with (l :: lives ts). unfold block_start, block_end in *.
    destruct Hl as (_ & Hl1 & Hl2 & Hl3 & Hl4). cbn in *. split; constructor.
    + split_and!; try done; lia.
    + eapply Forall_impl; [exact Hb|]. cbn. intros x (? & ? & ?). split_and!; try done; lia.
    + done.
    + eapply Forall_impl; [exact Hb|]. cbn. intros x. lia.
  - change (lives ((None, (n, r)) :: ts)) with (lives ts). split; [|done].
    eapply Forall_impl; [exact Hb|]. cbn. intros x (? & ? & ?). split_and!; try done; lia.
Qed.

Lemma sorted_lookup {A : Type} (R : A -> A -> Prop) l i j a b :
  StronglySorted R l -> (i < j)%nat -> l !! i = Some a -> l !! j = Some b -> R a b.
Proof.
  intros Hs. revert i j. induction Hs as [|x l Hs IH Hx]; intros i j Hij Hi Hj; [done|].
  destruct j as [|j]; [lia|]. destruct i as [|i]; cbn in *.
  - simplify_eq. rewrite Forall_forall in Hx. by eapply Hx, list_elem_of_lookup_2.
  - eapply (IH i j); [lia|done|done].
Qed.

(** Without live allocations there is one free tile. *)
Lemma all_free_one ts from to :
  tiled from ts to -> from < to -> separated false ts -> lives ts = [] ->
  exists n r, ts = [(None, (n, r))].
Proof.
  intros Ht Hlt Hs Hl. destruct ts as [|[[l|] [n r]] ts]; cbn in *; [lia|done|].
  destruct ts as [|[[l|] e] ts]; [by exists n, r|done|]. cbn in Hs. naive_solver.
Qed.

Lemma blocks_disjoint nodes a ts lv i j x y :
  ra_inv nodes a ts -> lv ≡ₚ lives ts -> i <> j -> lv !! i = Some x -> lv !! j = Some y ->
  block_end x < block_start y \/ block_end y < block_start x.
Proof.
  intros [_ Ht _ _ Hok _ _] Hp Hij Hx Hy. destruct (lives_sorted _ _ _ _ Ht Hok) as [_ Hs].
  apply Permutation_inj in Hp as (_ & f & Hf & Hlk). rewrite Hlk in Hx, Hy.
  assert (f i <> f j) by (intros E; by apply Hf in E).
  destruct (decide (f i < f j)%nat).
  - left. exact (sorted_lookup _ _ (f i) (f j) x y Hs ltac:(done) Hx Hy).
  - right. exact (sorted_lookup _ _ (f j) (f i) y x Hs ltac:(lia) Hy Hx).
Qed.

(** C22. In every state that initialisation, allocations and frees reach, the live
    allocations are aligned as asked, inside [0, size) and pairwise disjoint;
    every valid allocation and every free of a live allocation completes without
    failing an assertion or touching freed memory; and once nothing is live the
    allocator can be destroyed and has returned all its memory. *)
Theorem range_allocator_safe size s :
  ra_reachable size s ->
  (forall l, l ∈ sys_live s -> 0 <= block_start l <= block_end l /\ block_end l < size
     /\ (lv_align l | block_start l)) /\
  (forall i j x y, i <> j -> sys_live s !! i = Some x -> sys_live s !! j = Some y ->
     block_end x < block_start y \/ block_end y < block_start x) /\
  (forall ptr req alignment alloc, valid_request req alignment ->
     (forall n, ptr = Some n -> sys_nodes s !! n = None) ->
     is_Some (uvm_range_allocator_alloc (sys_nodes s) (sys_ra s) ptr req alignment alloc)) /\
  (forall l, l ∈ sys_live s ->
     is_Some (uvm_range_allocator_free (sys_nodes s) (sys_ra s) (Some (lv_alloc l)))) /\
  (sys_live s = [] ->
     exists a, uvm_range_allocator_deinit (sys_nodes s) (sys_ra s) = Some (∅, a)).
Proof.
  intros Hr. pose proof (reachable_inv _ _ Hr) as Hsys. pose proof Hsys as (ts & Hinv & Hsize & Hlive).
  pose proof Hinv as [Htotal Ht Hs _ Hok _ _]. split_and!.
  - intros l Hl. destruct (lives_sorted _ _ _ _ Ht Hok) as [Hb _]. rewrite Forall_forall in Hb.
    rewrite Hlive in Hl. rewrite <- Hsize. exact (Hb l Hl).
  - intros. by eapply blocks_disjoint.
  - intros ptr req alignment alloc Hv Hp.
    destruct (sys_alloc size s ptr req alignment alloc Hsys Hv Hp) as (? & ? & ? & ? & -> & _). done.
  - intros l (l1 & l2 & E)%list_elem_of_split. destruct s as [nodes a lv].
    cbn [sys_nodes sys_ra sys_live] in *. subst lv.
    destruct (sys_free size _ _ _ _ _ Hsys) as (? & ? & ? & -> & _). done.
  - intros E. rewrite E in Hlive. symmetry in Hlive. apply Permutation_nil_r in Hlive.
    destruct (all_free_one _ _ _ Ht ltac:(lia) Hs Hlive) as (n & r & ->). by eapply ra_deinit.
Qed.

(** ** First fit *)

(** [req] bytes at [b] are inside the interval, aligned, and touch no node of a
    live allocation. *)
Definition block_free (s : ra_sys) (req align b : Z) : Prop :=
  0 <= b /\ b + req <= ra_size (sys_ra s) /\ (align | b) /\
  forall l n r, l ∈ sys_live s -> ra_node (lv_alloc l) = Some n -> sys_nodes s !! n = Some r ->
    rn_end r < b \/ b + req - 1 < rn_start r.

Lemma tiled_find from ts to b :
  tiled from ts to -> from <= b < to ->
  exists t1 k n r t2, ts = t1 ++ (k, (n, r)) :: t2 /\ rn_start r <= b <= rn_end r.
Proof.
  revert from. induction ts as [|[k [n r]] ts IH]; intros from; cbn; [lia|].
  intros (<- & Hr & Ht) Hb. destruct (decide (b <= rn_end r)).
  - exists [], k, n, r, ts. split; [done|lia].
  - destruct (IH _ Ht ltac:(lia)) as (t1 & k' & n' & r' & t2 & -> & ?).
    by exists ((k, (n, r)) :: t1), k', n', r', t2.
Qed.

(** The ranges of the used tiles are not free. *)
Lemma used_not_free s ts req align b l n r t1 t2 :
  ra_inv (sys_nodes s) (sys_ra s) ts -> sys_live s ≡ₚ lives ts ->
  block_free s req align b -> ts = t1 ++ (Some l, (n, r)) :: t2 ->
  rn_end r < b \/ b + req - 1 < rn_start r.
Proof.
  intros [_ _ _ _ Hok _ _] Hlive (_ & _ & _ & Hb) ->.
  apply Forall_app in Hok as [_ [[Hn (Hnode & _)] _]%Forall_cons]. cbn in Hn, Hnode.
  apply (Hb l n r); [|done|done]. rewrite Hlive, lives_app.
  change (lives ((Some l, (n, r)) :: t2)) with (l :: lives t2). set_solver.
Qed.

(** A free block lies in one free tile, where a block of its size fits. *)
Lemma free_block_fits s ts req k b :
  ra_inv (sys_nodes s) (sys_ra s) ts -> sys_live s ≡ₚ lives ts -> 0 < req -> 0 <= k ->
  block_free s req (2 ^ k) b ->
  exists t1 n r t2, ts = t1 ++ (None, (n, r)) :: t2 /\ fits req k r = true
    /\ up k (rn_start r) <= b.
Proof.
  intros Hinv Hlive Hreq Hk Hb. pose proof Hb as (Hb0 & Hbe & Hba & _).
  pose proof Hinv as [_ Ht Hs _ _ _ _].
  destruct (tiled_find _ _ _ b Ht ltac:(lia)) as (t1 & [l|] & n & r & t2 & E & Hin).
  { pose proof (used_not_free _ _ _ _ _ _ _ _ _ _ Hinv Hlive Hb E). lia. }
  assert (b + req - 1 <= rn_end r) as Hend.
  { destruct (decide (b + req - 1 <= rn_end r)) as [|Hout]; [done|exfalso].
    rewrite E in Ht, Hs. apply tiled_app_inv in Ht as (_ & _ & Ht2).
    apply separated_app in Hs as [_ [_ Hs2]]. cbn in Hs2.
    destruct t2 as [|[[l|] [m r']] t2]; cbn in Ht2, Hs2; [lia| |naive_solver].
    replace (t1 ++ (None, (n, r)) :: (Some l, (m, r')) :: t2)
      with ((t1 ++ [(None, (n, r))]) ++ (Some l, (m, r')) :: t2) in E by (by rewrite <- app_assoc).
    pose proof (used_not_free _ _ _ _ _ _ _ _ _ _ Hinv Hlive Hb E). lia. }
  pose proof (up_least k (rn_start r) b Hk Hba ltac:(lia)). exists t1, n, r, t2.
  split_and!; [done| |done]. unfold fits. lia.
Qed.

(** The first tile that fits is not after any other one that does. *)
Lemma first_fit_least ts total t1 n r t2 u1 m q u2 req k :
  tiled 0 ts total -> 0 < req -> 0 <= k ->
  ts = t1 ++ (None, (n, r)) :: t2 -> Forall (fun e => fits req k e.2 = false) (free_entries t1) ->
  fits req k r = true -> ts = u1 ++ (None, (m, q)) :: u2 -> fits req k q = true ->
  up k (rn_start r) <= up k (rn_start q).
Proof.
  intros Ht Hreq Hk -> Hno Hr E Hq. pose proof (up_bounds k (rn_start q) Hk).
  pose proof (up_bounds k (rn_start r) Hk).
  apply app_eq_inv in E as [([|x w] & -> & E)|([|x w] & -> & E)]; cbn in E; simplify_eq; try lia.
  - rewrite free_entries_app in Hno. apply Forall_app in Hno as [_ Hno].
    rewrite free_entries_free in Hno. apply Forall_cons in Hno as [Hno _]. cbn in Hno. congruence.
  - apply tiled_app_inv in Ht as (_ & _ & Ht). apply tiled_app_inv in Ht as ([Hq' _]%tiled_bounds & _ & _).
    unfold fits in Hr. lia.
Qed.

(** The block taken from a free tile is free. *)
Lemma fit_is_free s ts t1 n r t2 req k :
  ra_inv (sys_nodes s) (sys_ra s) ts -> sys_live s ≡ₚ lives ts -> 0 <= k ->
  ts = t1 ++ (None, (n, r)) :: t2 -> fits req k r = true ->
  block_free s req (2 ^ k) (up k (rn_start r)).
Proof.
  intros Hinv Hlive Hk -> Hfit. pose proof Hinv as [_ Ht _ _ Hok _ _].
  pose proof (tiled_app_inv _ _ _ _ _ _ _ Ht) as (Ht1 & Hr & Ht2).
  apply tiled_bounds in Ht1 as [Hs Ht1], Ht2 as [He Ht2]. unfold fits in Hfit.
  pose proof (up_bounds k (rn_start r) Hk). split_and!; [lia|lia|apply up_divide|].
  intros l m q Hl Hm Hq. rewrite Hlive in Hl.
  apply list_elem_of_omap in Hl as ([k' [m' q']] & Hin & Hk'). cbn in Hk'. subst k'.
  rewrite Forall_forall in Hok. destruct (Hok _ Hin) as [Hn (Hnode & _)]. cbn in Hn, Hnode.
  simplify_eq. rewrite Forall_forall in Ht1, Ht2.
  apply elem_of_app in Hin as [Hin|[?|Hin]%elem_of_cons]; [| done |].
  - specialize (Ht1 _ Hin). cbn in Ht1. lia.
  - specialize (Ht2 _ Hin). cbn in Ht2. lia.
Qed.

(** Allocation is first fit and exact: it succeeds when some aligned block
    of the requested size is free, and returns the lowest such block; otherwise
    it reports that the address space is in use and changes nothing. *)
Theorem range_alloc_exact size s new req alignment alloc0 :
  ra_reachable size s -> valid_request req alignment -> sys_nodes s !! new = None ->
  exists status nodes a alloc,
    uvm_range_allocator_alloc (sys_nodes s) (sys_ra s) (Some new) req alignment alloc0
      = Some (status, nodes, a, alloc) /\
    ((status = NV_OK /\ ra_node alloc = Some new
      /\ block_free s req (request_align alignment) (aligned_start alloc)
      /\ forall b, block_free s req (request_align alignment) b -> aligned_start alloc <= b) \/
     (status = NV_ERR_UVM_ADDRESS_IN_USE /\ nodes = sys_nodes s /\ a = sys_ra s
      /\ forall b, ~ block_free s req (request_align alignment) b)).
Proof.
  intros (ts & Hinv & Hsize & Hlive)%reachable_inv (Hreq & k & Hk & Halign) Hnew. rewrite Halign.
  pose proof (ra_alloc _ _ _ new req alignment k alloc0 Hinv Hreq Hk Halign Hnew) as Ha.
  pose proof (fun b => free_block_fits s ts req k b Hinv Hlive ltac:(lia) ltac:(lia)) as Hfits.
  destruct (List.find _ (free_entries ts)) as [[n r]|] eqn:Ef.
  - destruct Ha as (t1 & t2 & nodes' & a' & -> & Ets & Hno & Hfit & _ & _).
    do 4 eexists. split; [done|]. left. cbn [aligned_start ra_node].
    pose proof Hinv as [_ Ht _ _ _ _ _]. split_and!; [done|done| |].
    + eapply fit_is_free; [exact Hinv|exact Hlive|lia|exact Ets|exact Hfit].
    + intros b Hb. destruct (Hfits b Hb) as (u1 & m & q & u2 & Eu & Hq & Hle).
      pose proof (first_fit_least _ _ _ _ _ _ _ _ _ _ req k Ht ltac:(lia) ltac:(lia) Ets Hno Hfit Eu Hq). lia.
  - destruct Ha as [alloc ->]. do 4 eexists. split; [done|]. right. split_and!; try done.
    intros b Hb. destruct (Hfits b Hb) as (u1 & m & q & u2 & -> & Hq & _).
    pose proof (List.find_none _ _ Ef (m, q)) as Hn. cbn in Hn. rewrite Hn in Hq; [done|].
    apply list_elem_of_In. rewrite free_entries_app, free_entries_free. set_solver.
Qed.
End system.

(** ** Witnesses: an allocator of 4096 bytes *)
Definition demo_sys : ra_sys :=
  mk_ra_sys {[1%positive := mk_range_node 0 4095]}
    (mk_range_allocator 4096 (mk_range_tree (rb_link_root 1%positive) [1%positive])) [].

Lemma demo_reachable : @ra_reachable plain_rb 4096 demo_sys.
Proof.
  eapply (@reach_init plain_rb 4096 1%positive (mk_range_allocator 0 uvm_range_tree_init)).
  - unfold NV_U64_MAX. lia.
  - vm_compute. reflexivity.
Qed.

Lemma demo_request : valid_request 100 64.
Proof. split; [unfold NV_U64_MAX; lia|]. exists 6. split; [lia|done]. Qed.

(** After two allocations. *)
Definition alloc_demo (s : ra_sys) (n : positive) : ra_sys :=
  match @uvm_range_allocator_alloc plain_rb (sys_nodes s) (sys_ra s) (Some n) 100 64 (mk_range_allocation 0 None) with
  | Some (status, nodes, a, alloc) =>
      mk_ra_sys nodes a (if status =? NV_OK then mk_live alloc 100 (request_align 64) :: sys_live s else sys_live s)
  | None => s
  end.

Lemma alloc_demo_reachable s n :
  @ra_reachable plain_rb 4096 s -> sys_nodes s !! n = None -> @ra_reachable plain_rb 4096 (alloc_demo s n).
Proof.
  intros Hr Hn. unfold alloc_demo. destruct (uvm_range_allocator_alloc _ _ _ _ _ _) as [[[[status nodes] a] alloc]|] eqn:E; [|done].
  eapply (@reach_alloc plain_rb 4096 s); [done|apply demo_request| |exact E]. by intros m [= <-].
Qed.

Definition used_sys : ra_sys := alloc_demo (alloc_demo demo_sys 2%positive) 3%positive.

Lemma used_reachable : @ra_reachable plain_rb 4096 used_sys.
Proof. do 2 (apply alloc_demo_reachable; [|vm_compute; reflexivity]). apply demo_reachable. Qed.

(** Two live blocks, of which either can be freed; the empty allocator can be
    destroyed. *)
Lemma range_allocator_safe_witness :
  (fun l => (block_start l, block_end l)) <$> sys_live used_sys = [(128, 227); (0, 99)]
  /\ (forall l, l ∈ sys_live used_sys ->
       is_Some (@uvm_range_allocator_free plain_rb (sys_nodes used_sys) (sys_ra used_sys) (Some (lv_alloc l))))
  /\ exists a, @uvm_range_allocator_deinit plain_rb (sys_nodes demo_sys) (sys_ra demo_sys) = Some (∅, a).
Proof.
  split_and!; [vm_compute; reflexivity| |].
  - apply (@range_allocator_safe plain_rb plain_rb_laws 4096 used_sys used_reachable).
  - apply (@range_allocator_safe plain_rb plain_rb_laws 4096 demo_sys demo_reachable). reflexivity.
Defined.

Lemma range_alloc_exact_witness :
  exists status nodes a alloc,
    @uvm_range_allocator_alloc plain_rb (sys_nodes demo_sys) (sys_ra demo_sys) (Some 2%positive) 100 64
      (mk_range_allocation 0 None) = Some (status, nodes, a, alloc).
Proof.
  destruct (@range_alloc_exact plain_rb plain_rb_laws 4096 demo_sys 2%positive 100 64
    (mk_range_allocation 0 None) demo_reachable demo_request ltac:(reflexivity))
    as (status & nodes & a & alloc & E & _).
  exists status, nodes, a, alloc. exact E.
Defined.
