(* ===== verification/Pushbuffer.v ===== *)
(** * The push buffer

    Model of kernel-open/nvidia-uvm/uvm_pushbuffer.{c,h} and of the part of
    uvm_channel_end_push (uvm_channel.c) that fills the GPFIFO entry of a push.

    The push buffer is memory for methods sent to the GPU, divided into chunks.
    A push claims a chunk, writes at most [UVM_MAX_PUSH_SIZE] bytes from the
    chunk's [next_push_start] on, and ends; it stays pending, on the chunk's list,
    until the GPU is done with it.  Pushes of a chunk may complete in any order.

    The state is the chunks, the two bitmaps and the semaphore; GPFIFO entries and
    pushes are pointers.  [None] is a failed assertion or a bad pointer.  Every
    critical section of the push buffer's lock is one function; what other
    threads and [uvm_channel_manager_update_progress] do while a thread waits is a
    function of the environment.  The contents of the buffer and the
    completion callbacks are not modelled. *)

From S2P Require Import Prelude PageMask.

Definition UVM_MAX_PUSH_SIZE : Z := 128 * 1024.
Definition UVM_PUSHBUFFER_CHUNK_SIZE : Z := 8 * UVM_MAX_PUSH_SIZE.
Definition UVM_PUSHBUFFER_CHUNKS : Z := 16.
Definition UVM_PUSHBUFFER_SIZE : Z := UVM_PUSHBUFFER_CHUNK_SIZE * UVM_PUSHBUFFER_CHUNKS.
Definition UVM_PAGE_SIZE_4K : Z := 2 ^ 12.
Definition UVM_CONF_COMPUTING_BUF_ALIGNMENT : Z := 32.

Notation push_id := positive.
Notation gpfifo_id := positive.
Notation channel_id := positive.

Inductive uvm_gpfifo_entry_type_t := UVM_GPFIFO_ENTRY_TYPE_NORMAL | UVM_GPFIFO_ENTRY_TYPE_CONTROL.

(** A GPFIFO entry; [on_complete] says whether its push info, an index, has a
    callback. *)
Record uvm_gpfifo_entry_t := mk_gpfifo {
  gpfifo_type : uvm_gpfifo_entry_type_t;
  pushbuffer_offset : Z;
  pushbuffer_size : Z;
  on_complete : bool;
  tracking_semaphore_value : Z;
  push_info : Z;
}.

#[export] Instance eta_gpfifo : Settable uvm_gpfifo_entry_t :=
  fun r => mk_gpfifo (gpfifo_type r) (pushbuffer_offset r) (pushbuffer_size r) (on_complete r)
             (tracking_semaphore_value r) (push_info r).

(** A push: the addresses of its first and next method, its channel, and of the
    channel whether it is a WLC channel and its static buffer. *)
Record uvm_push_t := mk_push {
  push_begin : Z;
  push_next : Z;
  channel_is_wlc : bool;
  static_pb_protected_sysmem : Z;
  push_channel : channel_id;
  channel_tracking_value : Z;
  push_info_index : Z;
}.

#[export] Instance eta_push : Settable uvm_push_t :=
  fun r => mk_push (push_begin r) (push_next r) (channel_is_wlc r) (static_pb_protected_sysmem r)
             (push_channel r) (channel_tracking_value r) (push_info_index r).

Record uvm_pushbuffer_chunk_t := mk_chunk {
  next_push_start : Z;
  pending_gpfifos : list gpfifo_id;
  current_push : option push_id;
}.

#[export] Instance eta_pb_chunk : Settable uvm_pushbuffer_chunk_t :=
  fun r => mk_chunk (next_push_start r) (pending_gpfifos r) (current_push r).

Record uvm_pushbuffer_t := mk_pushbuffer {
  chunks : list uvm_pushbuffer_chunk_t;
  available_chunks : Z;
  idle_chunks : Z;
  concurrent_pushes_sema : Z;
  gpfifos : gmap gpfifo_id uvm_gpfifo_entry_t;
  pushes : gmap push_id uvm_push_t;
}.

#[export] Instance eta_pushbuffer : Settable uvm_pushbuffer_t :=
  fun r => mk_pushbuffer (chunks r) (available_chunks r) (idle_chunks r)
             (concurrent_pushes_sema r) (gpfifos r) (pushes r).

(** Memory, and what a waiting thread sees: in each iteration other threads and
    [uvm_channel_manager_update_progress] may change the push buffer, and
    [uvm_channel_manager_check_errors] answers. *)
Record pb_env := mk_pb_env {
  conf_computing_enabled : bool;
  memory_cpu_va : Z;
  memory_protected_sysmem : Z;
  others : nat -> uvm_pushbuffer_t -> uvm_pushbuffer_t;
  check_errors : nat -> NV_STATUS;
}.

Section pushbuffer.
Context (E : pb_env).

(** The end of [uvm_pushbuffer_create], after the memory is allocated. *)
Definition uvm_pushbuffer_create : uvm_pushbuffer_t :=
  {| chunks := replicate (Z.to_nat UVM_PUSHBUFFER_CHUNKS) (mk_chunk 0 [] None);
     available_chunks := Z.ones UVM_PUSHBUFFER_CHUNKS;
     idle_chunks := Z.ones UVM_PUSHBUFFER_CHUNKS;
     concurrent_pushes_sema := UVM_PUSHBUFFER_CHUNKS;
     gpfifos := ∅;
     pushes := ∅ |}.

(** ** Chunks and masks *)
Definition get_chunk_in_mask (mask : Z) : option Z :=
  let index := find_next_bit mask UVM_PUSHBUFFER_CHUNKS 0 in
  if index =? UVM_PUSHBUFFER_CHUNKS then None else Some index.

Definition get_available_chunk (pb : uvm_pushbuffer_t) : option Z :=
  get_chunk_in_mask (available_chunks pb).
Definition get_idle_chunk (pb : uvm_pushbuffer_t) : option Z := get_chunk_in_mask (idle_chunks pb).

(** A chunk is its index; the assertion of [chunk_get_index]. *)
Definition chunk_get_index (chunk : Z) : option Z :=
  UVM_ASSERT chunk <? UVM_PUSHBUFFER_CHUNKS;
  Some chunk.

Definition chunk_get_offset (chunk : Z) : option Z :=
  index ← chunk_get_index chunk; Some (NvU32 (index * UVM_PUSHBUFFER_CHUNK_SIZE)).

Definition set_chunk (chunk mask : Z) : option Z :=
  index ← chunk_get_index chunk; Some (Z.setbit mask index).
Definition clear_chunk (chunk mask : Z) : option Z :=
  index ← chunk_get_index chunk; Some (Z.clearbit mask index).

Definition get_chunk (pb : uvm_pushbuffer_t) (chunk : Z) : option uvm_pushbuffer_chunk_t :=
  chunks pb !! Z.to_nat chunk.
Definition put_chunk (pb : uvm_pushbuffer_t) (chunk : Z) (c : uvm_pushbuffer_chunk_t)
    : uvm_pushbuffer_t := pb <| chunks := <[Z.to_nat chunk := c]> (chunks pb) |>.

Definition pick_chunk (pb : uvm_pushbuffer_t) : option Z :=
  match get_idle_chunk pb with
  | Some chunk => Some chunk
  | None => get_available_chunk pb
  end.

Definition try_claim_chunk (pb : uvm_pushbuffer_t) (push : push_id)
    : option (option Z * uvm_pushbuffer_t) :=
  match pick_chunk pb with
  | None => Some (None, pb)
  | Some chunk =>
      c ← get_chunk pb chunk;
      let pb := put_chunk pb chunk (c <| current_push := Some push |>) in
      idle ← clear_chunk chunk (idle_chunks pb);
      let pb := pb <| idle_chunks := idle |> in
      available ← clear_chunk chunk (available_chunks pb);
      Some (Some chunk, pb <| available_chunks := available |>)
  end.

Definition get_base_cpu_va : option Z :=
  if conf_computing_enabled E then UVM_ALIGN_UP (memory_protected_sysmem E) UVM_PAGE_SIZE_4K
  else Some (memory_cpu_va E).

Definition chunk_get_next_push_start_addr (pb : uvm_pushbuffer_t) (chunk : Z) : option Z :=
  push_start ← get_base_cpu_va;
  offset ← chunk_get_offset chunk;
  c ← get_chunk pb chunk;
  let push_start := NvU64 (NvU64 (push_start + offset) + next_push_start c) in
  UVM_ASSERT push_start mod 4 =? 0;
  Some push_start.

(** ** Pending pushes of a chunk *)
Definition chunk_get_first_gpfifo (c : uvm_pushbuffer_chunk_t) : option gpfifo_id :=
  head (pending_gpfifos c).
Definition chunk_get_last_gpfifo (c : uvm_pushbuffer_chunk_t) : option gpfifo_id :=
  last (pending_gpfifos c).

Definition chunk_get_cpu_put (pb : uvm_pushbuffer_t) (chunk : Z) : option Z :=
  c ← get_chunk pb chunk;
  match chunk_get_last_gpfifo c with
  | None => Some 0
  | Some g =>
      gpfifo ← gpfifos pb !! g;
      offset ← chunk_get_offset chunk;
      Some (NvU32 (pushbuffer_offset gpfifo + pushbuffer_size gpfifo - offset))
  end.

Definition chunk_get_gpu_get (pb : uvm_pushbuffer_t) (chunk : Z) : option Z :=
  c ← get_chunk pb chunk;
  match chunk_get_first_gpfifo c with
  | None => Some 0
  | Some g =>
      gpfifo ← gpfifos pb !! g;
      offset ← chunk_get_offset chunk;
      Some (NvU32 (pushbuffer_offset gpfifo - offset))
  end.

(** [set_chunk] on the available mask, and the start of the next push. *)
Definition make_available (pb : uvm_pushbuffer_t) (chunk next : Z) : option uvm_pushbuffer_t :=
  c ← get_chunk pb chunk;
  available ← set_chunk chunk (available_chunks pb);
  Some (put_chunk (pb <| available_chunks := available |>) chunk (c <| next_push_start := next |>)).

Definition update_chunk (pb : uvm_pushbuffer_t) (chunk : Z) : option uvm_pushbuffer_t :=
  c ← get_chunk pb chunk;
  gpu_get ← chunk_get_gpu_get pb chunk;
  cpu_put ← chunk_get_cpu_put pb chunk;
  if gpu_get =? cpu_put then
    if negb (bool_decide (pending_gpfifos c = [])) then Some pb
    else
      idle ← set_chunk chunk (idle_chunks pb);
      let pb := pb <| idle_chunks := idle |> in
      UVM_ASSERT cpu_put =? 0;
      make_available pb chunk 0
  else if cpu_put <? gpu_get then
    if UVM_MAX_PUSH_SIZE <=? gpu_get - cpu_put then make_available pb chunk cpu_put else Some pb
  else if NvU32 (cpu_put + UVM_MAX_PUSH_SIZE) <=? UVM_PUSHBUFFER_CHUNK_SIZE then
    UVM_ASSERT gpu_get <? cpu_put;
    make_available pb chunk cpu_put
  else if UVM_MAX_PUSH_SIZE <=? gpu_get then
    UVM_ASSERT gpu_get <? cpu_put;
    make_available pb chunk 0
  else Some pb.

Definition offset_to_chunk (offset : Z) : option Z :=
  UVM_ASSERT offset <? UVM_PUSHBUFFER_SIZE;
  Some (offset / UVM_PUSHBUFFER_CHUNK_SIZE).

Definition gpfifo_to_chunk (gpfifo : uvm_gpfifo_entry_t) : option Z :=
  chunk ← offset_to_chunk (pushbuffer_offset gpfifo);
  last_chunk ← offset_to_chunk (NvU32 (pushbuffer_offset gpfifo + pushbuffer_size gpfifo - 1));
  UVM_ASSERT last_chunk =? chunk;
  Some chunk.

(** The callback of the push info runs before the lock is taken. *)
Definition uvm_pushbuffer_mark_completed (pb : uvm_pushbuffer_t) (g : gpfifo_id)
    : option uvm_pushbuffer_t :=
  gpfifo ← gpfifos pb !! g;
  UVM_ASSERT (match gpfifo_type gpfifo with UVM_GPFIFO_ENTRY_TYPE_NORMAL => true | _ => false end);
  chunk ← gpfifo_to_chunk gpfifo;
  let pb := if on_complete gpfifo
            then pb <| gpfifos := <[g := gpfifo <| on_complete := false |>]> (gpfifos pb) |> else pb in
  c ← get_chunk pb chunk;
  let need_to_update_chunk :=
    bool_decide (Some g = chunk_get_first_gpfifo c) || bool_decide (Some g = chunk_get_last_gpfifo c) in
  let c := c <| pending_gpfifos := filter (fun h => h <> g) (pending_gpfifos c) |> in
  let pb := put_chunk pb chunk c in
  if need_to_update_chunk && bool_decide (current_push c = None) then update_chunk pb chunk
  else Some pb.

Definition uvm_pushbuffer_get_offset_for_push (push : uvm_push_t) : option Z :=
  if channel_is_wlc push then Some 0
  else
    base ← get_base_cpu_va;
    let offset := NvU32 (push_begin push - base) in
    UVM_ASSERT offset mod 4 =? 0;
    Some offset.

Definition uvm_pushbuffer_end_push (pb : uvm_pushbuffer_t) (p : push_id) (g : gpfifo_id)
    : option uvm_pushbuffer_t :=
  push ← pushes pb !! p;
  if channel_is_wlc push then Some pb
  else
    gpfifo ← gpfifos pb !! g;
    chunk ← gpfifo_to_chunk gpfifo;
    c ← get_chunk pb chunk;
    let pb := put_chunk pb chunk (c <| pending_gpfifos := pending_gpfifos c ++ [g] |>) in
    pb ← update_chunk pb chunk;
    c ← get_chunk pb chunk;
    UVM_ASSERT bool_decide (current_push c = Some p);
    let pb := put_chunk pb chunk (c <| current_push := None |>) in
    Some (pb <| concurrent_pushes_sema := concurrent_pushes_sema pb + 1 |>).

(** ** The channel's part: the GPFIFO entry of a push that ends *)
Definition uvm_push_get_size (push : uvm_push_t) : Z := NvU32 ((push_next push - push_begin push) / 4 * 4).

Definition uvm_channel_end_push_entry (pb : uvm_pushbuffer_t) (p : push_id) (g : gpfifo_id)
    (callback : bool) (value : Z) : option uvm_pushbuffer_t :=
  push ← pushes pb !! p;
  let push_size := uvm_push_get_size push in
  UVM_ASSERT push_size <=? UVM_MAX_PUSH_SIZE;
  offset ← uvm_pushbuffer_get_offset_for_push push;
  size ← (if conf_computing_enabled E then UVM_ALIGN_UP push_size UVM_CONF_COMPUTING_BUF_ALIGNMENT
          else Some push_size);
  Some (pb <| gpfifos := <[g := mk_gpfifo UVM_GPFIFO_ENTRY_TYPE_NORMAL offset size callback
    value (push_info_index push)]> (gpfifos pb) |>).

(** ** Beginning a push *)
(** The loop of [claim_chunk]; the condition claims before it looks at the
    status. *)
Fixpoint claim_loop (fuel i : nat) (pb : uvm_pushbuffer_t) (p : push_id) (status : NV_STATUS)
    : option (NV_STATUS * option Z * uvm_pushbuffer_t) :=
  match fuel with
  | O => None
  | S fuel =>
      r ← try_claim_chunk pb p;
      let '(chunk_out, pb) := r in
      match chunk_out with
      | Some chunk => Some (status, Some chunk, pb)
      | None =>
          if status =? NV_OK then
            claim_loop fuel (S i) (others E (S i) pb) p (check_errors E i)
          else Some (status, None, pb)
      end
  end.

Definition claim_chunk (fuel : nat) (pb : uvm_pushbuffer_t) (p : push_id)
    : option (NV_STATUS * option Z * uvm_pushbuffer_t) :=
  r ← try_claim_chunk pb p;
  let '(chunk_out, pb) := r in
  match chunk_out with
  | Some chunk => Some (NV_OK, Some chunk, pb)
  | None => claim_loop fuel 0 (others E 0 pb) p NV_OK
  end.

(** [uvm_down] does not return while the semaphore is zero. *)
Definition uvm_pushbuffer_begin_push (fuel : nat) (pb : uvm_pushbuffer_t) (p : push_id)
    : option (NV_STATUS * uvm_pushbuffer_t) :=
  push ← pushes pb !! p;
  if channel_is_wlc push then
    begin_ ← UVM_ALIGN_UP (static_pb_protected_sysmem push) UVM_PAGE_SIZE_4K;
    let push := push <| push_begin := begin_ |> <| push_next := begin_ |> in
    Some (NV_OK, pb <| pushes := <[p := push]> (pushes pb) |>)
  else
    if negb (0 <? concurrent_pushes_sema pb) then None else
    let pb := pb <| concurrent_pushes_sema := concurrent_pushes_sema pb - 1 |> in
    r ← claim_chunk fuel pb p;
    let '(status, chunk, pb) := r in
    if negb (status =? NV_OK) then
      Some (status, pb <| concurrent_pushes_sema := concurrent_pushes_sema pb + 1 |>)
    else
      chunk ← chunk;
      begin_ ← chunk_get_next_push_start_addr pb chunk;
      let push := push <| push_begin := begin_ |> <| push_next := begin_ |> in
      Some (NV_OK, pb <| pushes := <[p := push]> (pushes pb) |>).

Definition uvm_pushbuffer_has_space (pb : uvm_pushbuffer_t) : bool :=
  match pick_chunk pb with Some _ => true | None => false end.
End pushbuffer.
