(* ===== verification/PushbufferSpec.v ===== *)
(** * Correctness of the push buffer

    A chunk is roughly a ring: its pending pushes, oldest first, are in address
    order, except that from some point on they may continue before the oldest
    ones.  [ring] is this shape; it is closed under completing any push, and the
    place [update_chunk] chooses for the next push extends it.  From it follow
    the theorems: no push is ever given memory that another push uses, and space
    comes back when pushes complete. *)

From S2P Require Import Prelude PageMask RbTree Pushbuffer.

(** ** Rings of spans *)

(** A span of a chunk: offset and size. *)
Notation span := (Z * Z)%type.
Definition span_before (x y : span) : Prop := x.1 + x.2 <= y.1.

Definition ring (l : list span) : Prop :=
  exists a b, l = a ++ b /\ StronglySorted span_before a /\ StronglySorted span_before b
    /\ Forall (fun y => Forall (span_before y) a) b.

Definition span_ok (s : span) : Prop :=
  0 <= s.1 /\ 0 < s.2 <= UVM_MAX_PUSH_SIZE /\ s.1 + s.2 <= UVM_PUSHBUFFER_CHUNK_SIZE
  /\ (4 | s.1) /\ (4 | s.2).

(** There is room for a push of the largest size at [next]. *)
Definition room (l : list span) (next : Z) : Prop :=
  ring (l ++ [(next, UVM_MAX_PUSH_SIZE)]) /\ span_ok (next, UVM_MAX_PUSH_SIZE).

Lemma ring_nil : ring [].
Proof. exists [], []. split_and!; constructor. Qed.

(** Completing any push keeps the shape. *)
Lemma ring_remove l1 x l2 : ring (l1 ++ x :: l2) -> ring (l1 ++ l2).
Proof.
  intros (a & b & E & Ha & Hb & Hab). apply app_eq_inv in E as [(k & -> & ->)|([|y k] & -> & E)].
  - rewrite Forall_app, Forall_cons in Hab. exists a, (k ++ l2). rewrite app_assoc.
    split_and!; [done|done|by eapply sorted_delete|]. apply Forall_app; tauto.
  - cbn in E. subst b. rewrite app_nil_r in *. apply StronglySorted_inv in Hb as [Hb _].
    apply Forall_cons in Hab as [_ Hab]. by exists l1, l2.
  - cbn in E. simplify_eq. exists (l1 ++ k), b. rewrite app_assoc.
    split_and!; [done|by eapply sorted_delete|done|]. eapply Forall_impl; [exact Hab|].
    cbn. intros z. rewrite !Forall_app, Forall_cons. tauto.
Qed.

Lemma sorted_snoc (l : list span) x :
  StronglySorted span_before (l ++ [x]) <->
  StronglySorted span_before l /\ Forall (fun y => span_before y x) l.
Proof.
  rewrite sorted_app. split.
  - intros (? & _ & H). split; [done|]. eapply Forall_impl; [exact H|]. by intros y [? _]%Forall_cons.
  - intros [? H]. split_and!; [done|repeat constructor|]. eapply Forall_impl; [exact H|].
    intros y Hy. by repeat constructor.
Qed.

(** A push ends with at most the size it reserved. *)
Lemma ring_shrink l o s s' : s' <= s -> ring (l ++ [(o, s)]) -> ring (l ++ [(o, s')]).
Proof.
  intros Hs (a & b & E & Ha & Hb & Hab). destruct (decide (b = [])) as [->|Hne].
  - rewrite app_nil_r in E. subst a. exists (l ++ [(o, s')]), []. rewrite app_nil_r.
    split_and!; [done| |constructor|constructor]. by rewrite sorted_snoc in Ha |- *.
  - apply exists_last in Hne as (b' & x & ->). rewrite app_assoc in E.
    apply app_inj_tail in E as [-> <-]. exists a, (b' ++ [(o, s')]).
    rewrite sorted_snoc in Hb |- *. rewrite Forall_app in Hab |- *. destruct Hab as [Hab1 [Hab2 _]%Forall_cons].
    split_and!; [by rewrite app_assoc|done|tauto|tauto|done|].
    constructor; [|constructor]. eapply Forall_impl; [exact Hab2|]. unfold span_before. cbn. intros y. lia.
Qed.

Lemma sorted_ends (l : list span) z :
  StronglySorted span_before l -> Forall span_ok l -> last l = Some z ->
  Forall (fun y => y.1 + y.2 <= z.1 + z.2) l.
Proof.
  intros Hs Hok (l' & ->)%last_Some. apply sorted_snoc in Hs as [_ Hs].
  apply Forall_app in Hok as [_ [Hz _]%Forall_cons]. unfold span_ok, span_before in *.
  apply Forall_app. split; [|by repeat constructor].
  eapply Forall_impl; [exact Hs|]. cbn. intros y. lia.
Qed.

Lemma sorted_starts (l : list span) f :
  StronglySorted span_before l -> Forall span_ok l -> head l = Some f -> Forall (fun y => f.1 <= y.1) l.
Proof.
  destruct l as [|x l]; [done|]. intros [_ Hs]%StronglySorted_inv [Hx _]%Forall_cons [= ->].
  constructor; [lia|]. unfold span_ok, span_before in *. eapply Forall_impl; [exact Hs|]. cbn. lia.
Qed.

Lemma sorted_unwrapped (l : list span) f z :
  StronglySorted span_before l -> Forall span_ok l -> head l = Some f -> last l = Some z ->
  f.1 < z.1 + z.2.
Proof.
  intros Hs Hok Hf Hz. pose proof (sorted_ends _ _ Hs Hok Hz) as He.
  destruct l as [|x l]; [done|]. cbn in Hf. simplify_eq.
  apply Forall_cons in He as [He _], Hok as [Hok _]. unfold span_ok in Hok. lia.
Qed.

(** Either nothing has wrapped around, or the newest push ends before the
    oldest one. *)
Lemma ring_cases l f z :
  ring l -> Forall span_ok l -> head l = Some f -> last l = Some z ->
  (StronglySorted span_before l /\ f.1 < z.1 + z.2) \/
  (z.1 + z.2 <= f.1 /\ forall n, n <= f.1 - (z.1 + z.2) -> ring (l ++ [(z.1 + z.2, n)])).
Proof.
  intros (a & b & -> & Ha & Hb & Hab) Hok Hf Hz.
  destruct a as [|x a]; [|destruct (decide (b = [])) as [->|Hne]].
  - left. cbn in *. split; [done|]. by eapply sorted_unwrapped.
  - left. rewrite app_nil_r in Hok, Hf, Hz |- *. split; [done|]. exact (sorted_unwrapped _ f z Ha Hok Hf Hz).
  - right. apply exists_last in Hne as (b' & y & ->). cbn in Hf. rewrite app_assoc, last_snoc in Hz.
    simplify_eq. pose proof Hab as [_ [[Hfz _]%Forall_cons _]%Forall_cons]%Forall_app.
    unfold span_before in Hfz. split; [done|].
    apply Forall_app in Hok as [Hoka Hokb]. intros n Hn.
    exists (f :: a), ((b' ++ [z]) ++ [(z.1 + z.2, n)]).
    split_and!; [symmetry; apply app_assoc|done| |].
    + apply sorted_snoc. split; [done|]. apply sorted_ends; [done|done|]. by rewrite last_snoc.
    + apply Forall_app. split; [done|]. constructor; [|constructor].
      pose proof (sorted_starts _ f Ha Hoka eq_refl) as Hst. unfold span_before.
      eapply Forall_impl; [exact Hst|]. cbn. lia.
Qed.

(** The places [update_chunk] chooses. *)
Lemma ring_after l f z n :
  ring l -> Forall span_ok l -> head l = Some f -> last l = Some z -> f.1 < z.1 + z.2 ->
  ring (l ++ [(z.1 + z.2, n)]).
Proof.
  intros Hr Hok Hf Hz Hlt. destruct (ring_cases _ _ _ Hr Hok Hf Hz) as [[Hs _]|[? _]]; [|lia].
  exists (l ++ [(z.1 + z.2, n)]), []. rewrite app_nil_r. split_and!; [done| |constructor|constructor].
  apply sorted_snoc. split; [done|]. by apply sorted_ends.
Qed.

Lemma ring_start l f z n :
  ring l -> Forall span_ok l -> head l = Some f -> last l = Some z -> f.1 < z.1 + z.2 -> n <= f.1 ->
  ring (l ++ [(0, n)]).
Proof.
  intros Hr Hok Hf Hz Hlt Hn. destruct (ring_cases _ _ _ Hr Hok Hf Hz) as [[Hs _]|[? _]]; [|lia].
  exists l, [(0, n)]. split_and!; [done|done|repeat constructor|]. constructor; [|constructor].
  pose proof (sorted_starts _ f Hs Hok Hf) as Hst. unfold span_before.
  eapply Forall_impl; [exact Hst|]. cbn. lia.
Qed.

Lemma ring_between l f z n :
  ring l -> Forall span_ok l -> head l = Some f -> last l = Some z -> z.1 + z.2 + n <= f.1 -> 0 < n ->
  ring (l ++ [(z.1 + z.2, n)]).
Proof.
  intros Hr Hok Hf Hz Hlt Hn. destruct (ring_cases _ _ _ Hr Hok Hf Hz) as [[_ ?]|[_ Hext]]; [lia|].
  apply Hext. lia.
Qed.

(** The spans of a ring are pairwise disjoint. *)
Definition spans_disjoint (x y : span) : Prop := x.1 + x.2 <= y.1 \/ y.1 + y.2 <= x.1.

Lemma ring_disjoint l1 x l2 : ring (l1 ++ x :: l2) -> Forall (spans_disjoint x) l1 /\ Forall (spans_disjoint x) l2.
Proof.
  intros (a & b & E & Ha & Hb & Hab). unfold spans_disjoint, span_before in *.
  apply app_eq_inv in E as [(k & -> & ->)|([|y k] & -> & E)].
  - apply sorted_app in Hb as (_ & [_ Hb2]%StronglySorted_inv & Hb1).
    rewrite Forall_app, Forall_cons in Hab. destruct Hab as (_ & Hxa & Hla).
    rewrite Forall_app. split_and!.
    + eapply Forall_impl; [exact Hxa|]. cbn. lia.
    + eapply Forall_impl; [exact Hb1|]. intros z [? _]%Forall_cons. lia.
    + eapply Forall_impl; [exact Hb2|]. cbn. lia.
  - cbn in E. subst b. rewrite app_nil_r in *. apply StronglySorted_inv in Hb as [_ Hb].
    apply Forall_cons in Hab as [Hab _].
    split; [eapply Forall_impl; [exact Hab|]|eapply Forall_impl; [exact Hb|]]; cbn; lia.
  - cbn in E. simplify_eq. apply sorted_app in Ha as (_ & [_ Ha2]%StronglySorted_inv & Ha1).
    rewrite Forall_app. split_and!.
    + eapply Forall_impl; [exact Ha1|]. intros z [? _]%Forall_cons. lia.
    + eapply Forall_impl; [exact Ha2|]. cbn. lia.
    + eapply Forall_impl; [exact Hab|]. cbn. intros z [_ [? _]%Forall_cons]%Forall_app. lia.
Qed.

(** ** The invariant of a chunk *)
Notation pending := (gpfifo_id * span)%type.

Definition valid_chunk (i : Z) : Prop := 0 <= i < UVM_PUSHBUFFER_CHUNKS.

(** A pending push: its GPFIFO entry names the span inside chunk [i]. *)
Definition entry_at (pb : uvm_pushbuffer_t) (i : Z) (x : pending) : Prop :=
  exists e, gpfifos pb !! x.1 = Some e /\ gpfifo_type e = UVM_GPFIFO_ENTRY_TYPE_NORMAL
    /\ pushbuffer_offset e = i * UVM_PUSHBUFFER_CHUNK_SIZE + x.2.1 /\ pushbuffer_size e = x.2.2.

(** The pending pushes [q] of a chunk form a ring. *)
Record pending_ok (pb : uvm_pushbuffer_t) (i : Z) (c : uvm_pushbuffer_chunk_t) (q : list pending) : Prop := {
  po_pending : pending_gpfifos c = q.*1;
  po_nodup : NoDup q.*1;
  po_entries : Forall (entry_at pb i) q;
  po_spans : Forall span_ok q.*2;
  po_ring : ring q.*2;
}.

Definition available (pb : uvm_pushbuffer_t) (i : Z) : bool := Z.testbit (available_chunks pb) i.
Definition idle (pb : uvm_pushbuffer_t) (i : Z) : bool := Z.testbit (idle_chunks pb) i.

Record chunk_inv (pb : uvm_pushbuffer_t) (i : Z) (c : uvm_pushbuffer_chunk_t) (q : list pending) : Prop := {
  ci_pending : pending_ok pb i c q;
  ci_room : available pb i = true \/ current_push c <> None -> room q.*2 (next_push_start c);
  ci_busy : current_push c <> None -> available pb i = false /\ idle pb i = false;
  ci_idle : idle pb i = true -> available pb i = true /\ q = [];
  ci_free : current_push c = None -> q = [] -> idle pb i = true;
}.

(** ** [update_chunk] *)
Lemma chunk_offset_run i :
  valid_chunk i -> chunk_get_offset i = Some (i * UVM_PUSHBUFFER_CHUNK_SIZE).
Proof.
  unfold valid_chunk, chunk_get_offset, chunk_get_index. intros Hi.
  replace (i <? UVM_PUSHBUFFER_CHUNKS) with true by lia. cbn.
  rewrite (wrap_small 32); [done|]. unfold in_width, UVM_PUSHBUFFER_CHUNK_SIZE, UVM_MAX_PUSH_SIZE, UVM_PUSHBUFFER_CHUNKS in *. lia.
Qed.

Lemma set_chunk_run i mask : valid_chunk i -> set_chunk i mask = Some (Z.setbit mask i).
Proof.
  unfold valid_chunk, set_chunk, chunk_get_index. intros. by replace (i <? UVM_PUSHBUFFER_CHUNKS) with true by lia.
Qed.

Lemma clear_chunk_run i mask : valid_chunk i -> clear_chunk i mask = Some (Z.clearbit mask i).
Proof.
  unfold valid_chunk, clear_chunk, chunk_get_index. intros. by replace (i <? UVM_PUSHBUFFER_CHUNKS) with true by lia.
Qed.

(** GPU get and CPU put are the start of the oldest and the end of the newest
    pending push. *)
Lemma gpu_get_run pb i c q :
  valid_chunk i -> get_chunk pb i = Some c -> pending_ok pb i c q ->
  chunk_get_gpu_get pb i = Some (match head q.*2 with None => 0 | Some f => f.1 end).
Proof.
  intros Hi Hc [Hp _ He Hok _]. unfold chunk_get_gpu_get, chunk_get_first_gpfifo. rewrite Hc. cbn. rewrite Hp.
  destruct q as [|[g s] q]; [done|]. apply Forall_cons in He as [(e & Hg & _ & Ho & _) _], Hok as [Hs _].
  cbn in Hg, Ho |- *. rewrite Hg. cbn. rewrite chunk_offset_run, Ho by done. cbn. f_equal.
  unfold span_ok, UVM_PUSHBUFFER_CHUNK_SIZE, UVM_MAX_PUSH_SIZE in *. cbn in *.
  rewrite (wrap_small 32); [lia|]. unfold in_width. lia.
Qed.

Lemma cpu_put_run pb i c q :
  valid_chunk i -> get_chunk pb i = Some c -> pending_ok pb i c q ->
  chunk_get_cpu_put pb i = Some (match last q.*2 with None => 0 | Some z => z.1 + z.2 end).
Proof.
  intros Hi Hc [Hp _ He Hok _]. unfold chunk_get_cpu_put, chunk_get_last_gpfifo. rewrite Hc. cbn. rewrite Hp.
  rewrite !fmap_last. destruct (last q) as [[g s]|] eqn:Eq; [|done].
  apply last_Some in Eq as [q' ->]. rewrite fmap_app in Hok.
  apply Forall_app in He as [_ [(e & Hg & _ & Ho & Hz) _]%Forall_cons], Hok as [_ [Hs _]%Forall_cons].
  cbn in Hg, Ho, Hz |- *. rewrite Hg. cbn. rewrite chunk_offset_run, Ho, Hz by done. cbn. f_equal.
  unfold span_ok, UVM_PUSHBUFFER_CHUNK_SIZE, UVM_MAX_PUSH_SIZE in *. cbn in *.
  rewrite (wrap_small 32); [lia|]. unfold in_width. lia.
Qed.

(** The state after [update_chunk] made a chunk available. *)
Definition availed (pb : uvm_pushbuffer_t) (i : Z) (c : uvm_pushbuffer_chunk_t) (q : list pending) (next : Z)
    : uvm_pushbuffer_t :=
  put_chunk (pb <| idle_chunks := if bool_decide (q = []) then Z.setbit (idle_chunks pb) i else idle_chunks pb |>
                <| available_chunks := Z.setbit (available_chunks pb) i |>)
    i (c <| next_push_start := next |>).

Lemma make_available_run pb i c next :
  valid_chunk i -> get_chunk pb i = Some c ->
  make_available pb i next
    = Some (put_chunk (pb <| available_chunks := Z.setbit (available_chunks pb) i |>) i (c <| next_push_start := next |>)).
Proof. intros Hi Hc. unfold make_available. rewrite Hc. cbn. by rewrite set_chunk_run. Qed.

Lemma span_div s : span_ok s -> (4 | s.1 + s.2).
Proof. intros (_ & _ & _ & ? & ?). by apply Z.divide_add_r. Qed.

Lemma span_max n :
  0 <= n -> n + UVM_MAX_PUSH_SIZE <= UVM_PUSHBUFFER_CHUNK_SIZE -> (4 | n) -> span_ok (n, UVM_MAX_PUSH_SIZE).
Proof.
  intros. unfold span_ok. cbn [fst snd]. split_and!; try done. by apply Z.mod_divide.
Qed.

Lemma room_empty : room [] 0.
Proof.
  split; [|apply span_max; [done|done|apply Z.divide_0_r]].
  exists [(0, UVM_MAX_PUSH_SIZE)], []. split_and!; repeat constructor.
Qed.

Lemma update_chunk_run pb i c q :
  valid_chunk i -> get_chunk pb i = Some c -> pending_ok pb i c q ->
  (update_chunk pb i = Some pb /\ q <> []) \/
  (exists next, update_chunk pb i = Some (availed pb i c q next) /\ room q.*2 next).
Proof.
  intros Hi Hc Hp. pose proof (gpu_get_run _ _ _ _ Hi Hc Hp) as Hget.
  pose proof (cpu_put_run _ _ _ _ Hi Hc Hp) as Hput. pose proof Hp as [Hq _ _ Hok Hr].
  unfold update_chunk. rewrite Hc, Hget, Hput. cbn [mbind option_bind]. rewrite Hq.
  destruct q as [|x q].
  { right. exists 0. cbn -[make_available set_chunk]. rewrite set_chunk_run by done.
    cbn -[make_available]. rewrite (make_available_run _ i c) by done. split; [done|apply room_empty]. }
  set (f := x.2). assert (head (x :: q).*2 = Some f) as Ef by done.
  destruct (last (x :: q).*2) as [z|] eqn:Ez; [|by apply last_None in Ez]. rewrite Ef.
  assert (span_ok f /\ span_ok z) as [Hf Hz].
  { rewrite Forall_forall in Hok. split; apply Hok; [by apply list_elem_of_here|].
    apply last_Some in Ez as [l ->]. set_solver. }
  pose proof (span_div z Hz) as Hdiv. unfold span_ok in Hf, Hz.
  unfold availed. rewrite (bool_decide_false (_ :: _ = [])) by done. cbn [negb].
  assert (forall next, room (x :: q).*2 next -> exists next', make_available pb i next
    = Some (put_chunk (pb <| idle_chunks := idle_chunks pb |>
        <| available_chunks := Z.setbit (available_chunks pb) i |>) i (c <| next_push_start := next' |>))
    /\ room (x :: q).*2 next') as Hmake.
  { intros next Hroom. exists next. rewrite (make_available_run _ i c) by done. by destruct pb. }
  destruct (f.1 =? z.1 + z.2) eqn:E1; [by left|].
  destruct (z.1 + z.2 <? f.1) eqn:E2.
  { destruct (UVM_MAX_PUSH_SIZE <=? f.1 - (z.1 + z.2)) eqn:E3; [|by left]. right. apply Hmake.
    split; [apply (ring_between _ f z); try done; lia|]. apply span_max; [lia|lia|done]. }
  replace (f.1 <? z.1 + z.2) with true by lia.
  assert (NvU32 (z.1 + z.2 + UVM_MAX_PUSH_SIZE) = z.1 + z.2 + UVM_MAX_PUSH_SIZE) as ->.
  { apply wrap_small. unfold in_width, UVM_PUSHBUFFER_CHUNK_SIZE, UVM_MAX_PUSH_SIZE in *. lia. }
  destruct (z.1 + z.2 + UVM_MAX_PUSH_SIZE <=? UVM_PUSHBUFFER_CHUNK_SIZE) eqn:E3.
  { right. apply Hmake. split; [apply (ring_after _ f z); try done; lia|]. apply span_max; [lia|lia|done]. }
  destruct (UVM_MAX_PUSH_SIZE <=? f.1) eqn:E4; [|by left]. right. apply Hmake.
  split; [apply (ring_start _ f z); try done; lia|]. apply span_max; [done|done|apply Z.divide_0_r].
Qed.

(** ** The push buffer and its users

    A push that has been claimed is begun once its first address is set; it then
    writes methods, and ends. *)
Record pb_sys := mk_pb_sys {
  ps_pb : uvm_pushbuffer_t;
  ps_begun : gset push_id;
}.

Definition is_current (pb : uvm_pushbuffer_t) (p : push_id) (i : Z) (c : uvm_pushbuffer_chunk_t) : Prop :=
  valid_chunk i /\ get_chunk pb i = Some c /\ current_push c = Some p.

Definition is_pending (pb : uvm_pushbuffer_t) (g : gpfifo_id) : Prop :=
  exists i c, valid_chunk i /\ get_chunk pb i = Some c /\ g ∈ pending_gpfifos c.

(** Memory of the push buffer: where it starts, and that it fits. *)
Definition memory_ok (E : pb_env) (base : Z) : Prop :=
  get_base_cpu_va E = Some base /\ 0 <= base /\ base + UVM_PUSHBUFFER_SIZE <= 2 ^ 64 /\ (4 | base).

(** The steps of the threads that use a push buffer, one critical section or one
    access to a push at a time.  First those that leave GPFIFO entries alone. *)
Inductive pb_local (E : pb_env) : pb_sys -> pb_sys -> Prop :=
| step_new pb begun p push :
    (forall i c, ~ is_current pb p i c) ->
    pb_local E (mk_pb_sys pb begun) (mk_pb_sys (pb <| pushes := <[p := push]> (pushes pb) |>) (begun ∖ {[p]}))
| step_sema pb begun n :
    pb_local E (mk_pb_sys pb begun) (mk_pb_sys (pb <| concurrent_pushes_sema := n |>) begun)
| step_claim pb begun p push chunk pb' :
    pushes pb !! p = Some push -> channel_is_wlc push = false -> (forall i c, ~ is_current pb p i c) ->
    try_claim_chunk pb p = Some (chunk, pb') ->
    pb_local E (mk_pb_sys pb begun) (mk_pb_sys pb' begun)
| step_begin pb begun p i c push addr :
    is_current pb p i c -> p ∉ begun -> pushes pb !! p = Some push ->
    chunk_get_next_push_start_addr E pb i = Some addr ->
    pb_local E (mk_pb_sys pb begun)
      (mk_pb_sys (pb <| pushes := <[p := push <| push_begin := addr |> <| push_next := addr |>]> (pushes pb) |>)
         ({[p]} ∪ begun))
| step_write pb begun p push n :
    p ∈ begun -> pushes pb !! p = Some push -> 0 <= n <= UVM_MAX_PUSH_SIZE -> (4 | n) ->
    pb_local E (mk_pb_sys pb begun)
      (mk_pb_sys (pb <| pushes := <[p := push <| push_next := push_begin push + n |>]> (pushes pb) |>) begun).

Inductive pb_step (E : pb_env) : pb_sys -> pb_sys -> Prop :=
| step_local s s' : pb_local E s s' -> pb_step E s s'
| step_end pb begun p push g callback value pb1 pb2 :
    p ∈ begun -> pushes pb !! p = Some push -> push_begin push < push_next push -> ~ is_pending pb g ->
    uvm_channel_end_push_entry E pb p g callback value = Some pb1 ->
    uvm_pushbuffer_end_push pb1 p g = Some pb2 ->
    pb_step E (mk_pb_sys pb begun) (mk_pb_sys pb2 (begun ∖ {[p]}))
| step_complete pb begun g pb' :
    is_pending pb g -> uvm_pushbuffer_mark_completed pb g = Some pb' ->
    pb_step E (mk_pb_sys pb begun) (mk_pb_sys pb' begun).

Inductive pb_reachable (E : pb_env) : pb_sys -> Prop :=
| pb_reach_create : pb_reachable E (mk_pb_sys uvm_pushbuffer_create ∅)
| pb_reach_step s s' : pb_reachable E s -> pb_step E s s' -> pb_reachable E s'.

(** A push that has begun writes where its chunk reserved room. *)
Definition begun_ok (base : Z) (pb : uvm_pushbuffer_t) (p : push_id) : Prop :=
  exists i c push, is_current pb p i c /\ pushes pb !! p = Some push
    /\ push_begin push = base + i * UVM_PUSHBUFFER_CHUNK_SIZE + next_push_start c
    /\ push_begin push <= push_next push <= push_begin push + UVM_MAX_PUSH_SIZE
    /\ (4 | push_next push - push_begin push).

Record pb_inv (base : Z) (s : pb_sys) : Prop := {
  inv_length : length (chunks (ps_pb s)) = Z.to_nat UVM_PUSHBUFFER_CHUNKS;
  inv_chunks i c : valid_chunk i -> get_chunk (ps_pb s) i = Some c ->
    exists q, chunk_inv (ps_pb s) i c q;
  inv_current p i j c d : is_current (ps_pb s) p i c -> is_current (ps_pb s) p j d -> i = j;
  inv_pushes p i c : is_current (ps_pb s) p i c ->
    exists push, pushes (ps_pb s) !! p = Some push /\ channel_is_wlc push = false;
  inv_begun p : p ∈ ps_begun s -> begun_ok base (ps_pb s) p;
}.

(** ** Updating one chunk *)
Lemma get_put_eq pb i c :
  length (chunks pb) = Z.to_nat UVM_PUSHBUFFER_CHUNKS -> valid_chunk i ->
  get_chunk (put_chunk pb i c) i = Some c.
Proof.
  intros Hl Hi. unfold get_chunk, put_chunk. cbn. apply list_lookup_insert_eq. rewrite Hl.
  unfold valid_chunk in Hi. lia.
Qed.

Lemma get_put_ne pb i j c :
  valid_chunk i -> valid_chunk j -> i <> j -> get_chunk (put_chunk pb i c) j = get_chunk pb j.
Proof.
  unfold valid_chunk. intros Hi Hj Hne. unfold get_chunk, put_chunk. cbn. apply list_lookup_insert_ne. lia.
Qed.

Lemma length_put pb i c : length (chunks (put_chunk pb i c)) = length (chunks pb).
Proof. apply length_insert. Qed.

Lemma chunk_exists pb i :
  length (chunks pb) = Z.to_nat UVM_PUSHBUFFER_CHUNKS -> valid_chunk i -> exists c, get_chunk pb i = Some c.
Proof.
  intros Hl Hi. unfold get_chunk. apply lookup_lt_is_Some. rewrite Hl. unfold valid_chunk in Hi. lia.
Qed.

(** Entries of pending pushes keep their place. *)
Definition same_entries (pb pb' : uvm_pushbuffer_t) (q : list pending) : Prop :=
  Forall (fun x => forall i, entry_at pb i x -> entry_at pb' i x) q.

Lemma chunk_inv_ext pb pb' i c q :
  chunk_inv pb i c q -> same_entries pb pb' q -> available pb' i = available pb i -> idle pb' i = idle pb i ->
  chunk_inv pb' i c q.
Proof.
  intros [[? ? He ? ?] Hr Hb Hi Hf] Hs Ha Hid. split; rewrite ?Ha, ?Hid; try done. split; try done.
  unfold same_entries in Hs. rewrite Forall_forall in Hs, He |- *. intros x Hx. by apply Hs, He.
Qed.

(** What a change of chunk [i] alone leaves to show. *)
Lemma inv_put base pb begun pb' begun' i c c' q' :
  pb_inv base (mk_pb_sys pb begun) -> valid_chunk i -> get_chunk pb i = Some c ->
  chunks pb' = chunks (put_chunk pb i c') -> pushes pb' = pushes pb ->
  (forall j, valid_chunk j -> j <> i -> available pb' j = available pb j /\ idle pb' j = idle pb j) ->
  (forall j d q, valid_chunk j -> j <> i -> get_chunk pb j = Some d -> chunk_inv pb j d q ->
     same_entries pb pb' q) ->
  chunk_inv pb' i c' q' ->
  (forall p, current_push c' = Some p -> (current_push c = Some p \/ forall j d, ~ is_current pb p j d)
     /\ exists push, pushes pb !! p = Some push /\ channel_is_wlc push = false) ->
  begun' ⊆ begun ->
  (forall p, p ∈ begun' -> current_push c = Some p ->
     current_push c' = Some p /\ next_push_start c' = next_push_start c) ->
  pb_inv base (mk_pb_sys pb' begun').
Proof.
  intros [Hl Hch Hcur Hpu Hbe] Hi Hc Echunks Epushes Hbits Hent Hinv Hnew Hsub Hkeep. cbn in *.
  assert (get_chunk pb' i = Some c') as Hi'.
  { unfold get_chunk. rewrite Echunks. by apply get_put_eq. }
  assert (forall j, valid_chunk j -> j <> i -> get_chunk pb' j = get_chunk pb j) as Hj'.
  { intros j Hj Hne. unfold get_chunk at 1. rewrite Echunks. by apply get_put_ne. }
  assert (forall p j d, is_current pb' p j d ->
    (j = i /\ d = c') \/ (j <> i /\ is_current pb p j d)) as Hsplit.
  { intros p j d (Hj & Hd & Hp). destruct (decide (j = i)) as [->|Hne].
    - left. rewrite Hi' in Hd. by simplify_eq.
    - right. rewrite Hj' in Hd by done. by split_and!. }
  split; cbn.
  - by rewrite Echunks, length_insert.
  - intros j d Hj Hd. destruct (decide (j = i)) as [->|Hne].
    + rewrite Hi' in Hd. simplify_eq. eauto.
    + rewrite Hj' in Hd by done. destruct (Hch j d Hj Hd) as [q Hq]. exists q.
      destruct (Hbits j Hj Hne). eapply chunk_inv_ext; eauto.
  - intros p j k d e Hd He. destruct (Hsplit _ _ _ Hd) as [[-> ->]|[Hjn Hd']], (Hsplit _ _ _ He) as [[-> ->]|[Hkn He']];
      [done|..|by eapply Hcur].
    + exfalso. destruct Hd as (_ & _ & Hd). destruct (Hnew _ Hd) as [[Hold|Hno] _]; [|by eapply Hno].
      apply Hkn. eapply (Hcur p); [exact He'|]. by split_and!.
    + exfalso. destruct He as (_ & _ & He). destruct (Hnew _ He) as [[Hold|Hno] _]; [|by eapply Hno].
      apply Hjn. eapply (Hcur p); [exact Hd'|]. by split_and!.
  - intros p j d Hd. rewrite Epushes. destruct (Hsplit _ _ _ Hd) as [[-> ->]|[_ Hd']]; [|by eapply Hpu].
    destruct Hd as (_ & _ & Hd). by destruct (Hnew _ Hd) as [_ ?].
  - intros p Hp. destruct (Hbe p (Hsub _ Hp)) as (j & d & push & (Hj & Hd & Hpd) & Hpush & Hr1 & [Hr2 Hr3] & Hr4).
    unfold begun_ok. rewrite Epushes. destruct (decide (j = i)) as [->|Hne].
    + rewrite Hc in Hd. simplify_eq. destruct (Hkeep p Hp Hpd) as [Hk1 Hk2].
      exists i, c', push. rewrite Hk2. by split_and!.
    + exists j, d, push. split; [|by split_and!]. split_and!; [done|by rewrite Hj'|done].
Qed.

(** ** Claiming *)
Lemma get_chunk_in_mask_spec mask :
  match get_chunk_in_mask mask with
  | Some i => valid_chunk i /\ Z.testbit mask i = true
  | None => forall i, valid_chunk i -> Z.testbit mask i = false
  end.
Proof.
  unfold get_chunk_in_mask, find_next_bit, valid_chunk.
  destruct (find_next_spec (Z.testbit mask) UVM_PUSHBUFFER_CHUNKS 0) as (H0 & Hle & Hall & Hbit).
  destruct (_ =? _) eqn:E.
  - apply Z.eqb_eq in E. rewrite E in Hall. auto.
  - apply Z.eqb_neq in E. specialize (H0 ltac:(done)). split; [lia|]. apply Hbit. lia.
Qed.

Lemma pick_chunk_spec base s :
  pb_inv base s ->
  match pick_chunk (ps_pb s) with
  | Some i => valid_chunk i /\ available (ps_pb s) i = true
  | None => forall i, valid_chunk i -> available (ps_pb s) i = false /\ idle (ps_pb s) i = false
  end.
Proof.
  intros Hinv. unfold pick_chunk, get_idle_chunk, get_available_chunk.
  pose proof (get_chunk_in_mask_spec (idle_chunks (ps_pb s))) as Hidle.
  pose proof (get_chunk_in_mask_spec (available_chunks (ps_pb s))) as Hav.
  destruct (get_chunk_in_mask (idle_chunks (ps_pb s))) as [i|].
  - destruct Hidle as [Hi Hb]. split; [done|]. destruct (chunk_exists (ps_pb s) i) as [c Hc]; [apply Hinv|done|].
    destruct (inv_chunks _ _ Hinv i c Hi Hc) as [q [_ _ _ Hid _]]. by apply Hid.
  - destruct (get_chunk_in_mask (available_chunks (ps_pb s))) as [i|]; [done|].
    intros i Hi. split; [by apply Hav|by apply Hidle].
Qed.

Lemma claim_inv base pb begun p push :
  pb_inv base (mk_pb_sys pb begun) -> pushes pb !! p = Some push -> channel_is_wlc push = false ->
  (forall i c, ~ is_current pb p i c) ->
  exists chunk pb', try_claim_chunk pb p = Some (chunk, pb') /\ pb_inv base (mk_pb_sys pb' begun)
    /\ pushes pb' = pushes pb
    /\ match chunk with
       | None => pb' = pb /\ forall i, valid_chunk i -> available pb i = false /\ idle pb i = false
       | Some i => exists c, is_current pb' p i c
       end.
Proof.
  intros Hinv Hp Hwlc Hno. unfold try_claim_chunk. pose proof (pick_chunk_spec _ _ Hinv) as Hpick.
  cbn in Hpick. destruct (pick_chunk pb) as [i|]; [|by exists None, pb].
  destruct Hpick as [Hi Hav]. destruct (chunk_exists pb i) as [c Hc]; [apply Hinv|done|].
  rewrite Hc. do 2 (cbn [mbind option_bind]; rewrite ?clear_chunk_run by done). cbn [mbind option_bind].
  do 2 eexists. split; [done|].
  pose proof (inv_chunks _ _ Hinv i c Hi Hc) as [q Hq]. cbn in Hq.
  pose proof Hq as [Hpend Hroom Hbusy _ _]. split; [|split; [done|]].
  - eapply inv_put; [exact Hinv|exact Hi|exact Hc|done|done|..]; cbn.
    + intros j _ Hne. unfold available, idle. cbn. by rewrite !Z.clearbit_neq by lia.
    + intros j d q' _ _ _ _. apply Forall_forall. by intros x _ k.
    + split; [by destruct Hpend|by cbn; intros _; apply Hroom; left|..]; cbn; unfold available, idle; cbn;
        rewrite ?Z.clearbit_eq; try done.
    + intros p' [= <-]. split; [by right|eauto].
    + done.
    + intros p' Hp' Hcur. exfalso. destruct Hbusy as [Hbusy _]; [by rewrite Hcur|]. congruence.
  - exists (c <| current_push := Some p |>). split; [done|]. split; [|done].
    apply (get_put_eq pb i); [exact (inv_length _ _ Hinv)|done].
Qed.

(** ** The pending pushes *)
Lemma pending_unique base pb begun g i j c d :
  pb_inv base (mk_pb_sys pb begun) -> valid_chunk i -> get_chunk pb i = Some c -> g ∈ pending_gpfifos c ->
  valid_chunk j -> get_chunk pb j = Some d -> g ∈ pending_gpfifos d -> i = j.
Proof.
  intros Hinv Hi Hc Hgc Hj Hd Hgd.
  assert (forall k b, valid_chunk k -> get_chunk pb k = Some b -> g ∈ pending_gpfifos b ->
    exists e, gpfifos pb !! g = Some e /\ k = pushbuffer_offset e / UVM_PUSHBUFFER_CHUNK_SIZE) as Hplace.
  { intros k b Hk Hb Hg. destruct (inv_chunks _ _ Hinv k b Hk Hb) as [q [[Hp _ He Hok _] _ _ _ _]]. cbn in *.
    rewrite Hp in Hg. apply list_elem_of_fmap in Hg as ([g' s] & -> & Hs).
    rewrite Forall_forall in He. rewrite Forall_forall in Hok. destruct (He _ Hs) as (e & Hge & _ & Ho & _). exists e. split; [done|]. cbn in Ho. rewrite Ho.
    assert (span_ok s) as Hsok by (apply Hok, list_elem_of_fmap; by exists (g', s)). unfold span_ok in Hsok.
    unfold UVM_PUSHBUFFER_CHUNK_SIZE, UVM_MAX_PUSH_SIZE in *. rewrite Z.div_add_l, Z.div_small by lia. lia. }
  destruct (Hplace i c Hi Hc Hgc) as (e & He & ->), (Hplace j d Hj Hd Hgd) as (e' & He' & ->). by simplify_eq.
Qed.

(** Changing the list of one chunk. *)
Lemma pending_put pb pb' i c c' h :
  length (chunks pb) = Z.to_nat UVM_PUSHBUFFER_CHUNKS -> valid_chunk i -> get_chunk pb i = Some c ->
  chunks pb' = chunks (put_chunk pb i c') ->
  is_pending pb' h <->
    h ∈ pending_gpfifos c' \/ exists j d, j <> i /\ valid_chunk j /\ get_chunk pb j = Some d /\ h ∈ pending_gpfifos d.
Proof.
  intros Hl Hi Hc Hch.
  assert (get_chunk pb' i = Some c') as Hi' by (unfold get_chunk; rewrite Hch; by apply get_put_eq).
  assert (forall j, valid_chunk j -> j <> i -> get_chunk pb' j = get_chunk pb j) as Hj'.
  { intros j Hj Hne. unfold get_chunk at 1. rewrite Hch. by apply get_put_ne. }
  split.
  - intros (j & d & Hj & Hd & Hh). destruct (decide (j = i)) as [->|Hne]; [left; congruence|].
    right. exists j, d. rewrite <- Hj' by done. by split_and!.
  - intros [Hh|(j & d & Hne & Hj & Hd & Hh)]; [by exists i, c'|]. exists j, d. rewrite Hj' by done. by split_and!.
Qed.

(** ** Updating a chunk that has no push going on *)
Lemma update_chunk_inv pb i c q :
  length (chunks pb) = Z.to_nat UVM_PUSHBUFFER_CHUNKS -> valid_chunk i -> get_chunk pb i = Some c ->
  pending_ok pb i c q -> (available pb i = true -> room q.*2 (next_push_start c)) -> idle pb i = false ->
  exists pb' c', update_chunk pb i = Some pb' /\ chunks pb' = chunks (put_chunk pb i c')
    /\ get_chunk pb' i = Some c' /\ current_push c' = current_push c
    /\ pushes pb' = pushes pb /\ gpfifos pb' = gpfifos pb
    /\ (forall j, valid_chunk j -> j <> i -> available pb' j = available pb j /\ idle pb' j = idle pb j)
    /\ chunk_inv pb' i (c' <| current_push := None |>) q.
Proof.
  intros Hl Hi Hc Hp Hroom Hidle.
  destruct (update_chunk_run pb i c q Hi Hc Hp) as [[Hu Hne]|(next & Hu & Hn)].
  - exists pb, c. split_and!; try done.
    + unfold put_chunk. cbn. by rewrite list_insert_id.
    + split; cbn; try done; [by destruct Hp|by intros [?|?]; auto|by rewrite Hidle].
  - exists (availed pb i c q next), (c <| next_push_start := next |>). split_and!; try done.
    + by apply get_put_eq.
    + intros j Hj Hne. unfold available, idle, availed. cbn. unfold valid_chunk in *.
      rewrite Z.setbit_neq by lia. split; [done|]. case_bool_decide; [|done]. by rewrite Z.setbit_neq by lia.
    + unfold valid_chunk in Hi.
      assert (available (availed pb i c q next) i = true) as Hav
        by (unfold available, availed; cbn; apply Z.setbit_eq; lia).
      split; rewrite ?Hav; cbn; try done; [by destruct Hp|..]; unfold idle, availed; cbn.
      * intros Hid. split; [done|]. case_bool_decide; [done|]. unfold idle in Hidle. congruence.
      * intros _ ->. rewrite bool_decide_true by done. apply Z.setbit_eq. lia.
Qed.

(** ** Completing *)
Lemma gpfifo_to_chunk_run i e s :
  valid_chunk i -> span_ok s -> pushbuffer_offset e = i * UVM_PUSHBUFFER_CHUNK_SIZE + s.1 ->
  pushbuffer_size e = s.2 -> gpfifo_to_chunk e = Some i.
Proof.
  intros Hi Hs Ho Hz. unfold gpfifo_to_chunk, offset_to_chunk. rewrite Ho, Hz.
  unfold valid_chunk, span_ok, UVM_PUSHBUFFER_SIZE, UVM_PUSHBUFFER_CHUNK_SIZE, UVM_MAX_PUSH_SIZE, UVM_PUSHBUFFER_CHUNKS in *.
  assert (NvU32 (i * (8 * (128 * 1024)) + s.1 + s.2 - 1) = i * (8 * (128 * 1024)) + (s.1 + s.2 - 1)) as ->.
  { unfold NvU32. rewrite wrap_small by (unfold in_width; lia). lia. }
  replace (i * (8 * (128 * 1024)) + s.1 <? 8 * (128 * 1024) * 16) with true by lia.
  replace (i * (8 * (128 * 1024)) + (s.1 + s.2 - 1) <? 8 * (128 * 1024) * 16) with true by lia.
  cbn [mbind option_bind].
  assert (forall x, 0 <= x < 8 * (128 * 1024) -> (i * (8 * (128 * 1024)) + x) / (8 * (128 * 1024)) = i) as Hdiv.
  { intros x Hx. rewrite Z.div_add_l, Z.div_small by lia. lia. }
  rewrite !Hdiv by lia. by rewrite Z.eqb_refl.
Qed.

Lemma room_remove l1 x l2 next : room (l1 ++ x :: l2) next -> room (l1 ++ l2) next.
Proof.
  intros [Hr Hs]. split; [|done]. rewrite <- !app_assoc in Hr |- *. cbn in Hr. by eapply ring_remove.
Qed.

Lemma pending_ok_remove pb pb' i c q1 g s q2 :
  pending_ok pb i c (q1 ++ (g, s) :: q2) -> same_entries pb pb' (q1 ++ q2) ->
  pending_ok pb' i (c <| pending_gpfifos := filter (fun h => h <> g) (pending_gpfifos c) |>) (q1 ++ q2).
Proof.
  intros [Hp Hd He Hok Hr] Hs. rewrite !fmap_app in *. cbn in *. split; cbn; rewrite ?fmap_app.
  - rewrite Hp. by apply list_del_spec.
  - by apply NoDup_app in Hd as (? & ? & [_ ?]%NoDup_cons); apply NoDup_app; split_and!; [|set_solver|].
  - apply Forall_app in He as [He1 [_ He2]%Forall_cons]. unfold same_entries in Hs.
    rewrite Forall_forall in Hs. apply Forall_forall. intros x Hx. apply Hs; [done|].
    rewrite Forall_forall in He1, He2. apply elem_of_app in Hx as [Hx|Hx]; auto.
  - rewrite Forall_app, Forall_cons in Hok. apply Forall_app. tauto.
  - by eapply ring_remove.
Qed.

(** The state of [mark_completed] before the chunk is updated. *)
Definition completed (pb : uvm_pushbuffer_t) (g : gpfifo_id) (e : uvm_gpfifo_entry_t) : uvm_pushbuffer_t :=
  if on_complete e then pb <| gpfifos := <[g := e <| on_complete := false |>]> (gpfifos pb) |> else pb.

Lemma completed_entries pb g e i x :
  gpfifos pb !! g = Some e -> entry_at pb i x -> entry_at (completed pb g e) i x.
Proof.
  intros Hg (e' & Hx & Hrest). unfold completed. destruct (on_complete e); [|by exists e'].
  destruct (decide (g = x.1)) as [->|Hne].
  - rewrite Hg in Hx. simplify_eq. eexists. cbn. rewrite lookup_insert_eq. by split.
  - exists e'. cbn. by rewrite lookup_insert_ne.
Qed.

(** What the channels keep in a GPFIFO entry. *)
Definition same_tracking (pb pb' : uvm_pushbuffer_t) : Prop :=
  forall h e, gpfifos pb !! h = Some e -> exists e', gpfifos pb' !! h = Some e'
    /\ gpfifo_type e' = gpfifo_type e /\ tracking_semaphore_value e' = tracking_semaphore_value e
    /\ push_info e' = push_info e.

Lemma completed_tracking pb g e i c :
  gpfifos pb !! g = Some e -> same_tracking pb (put_chunk (completed pb g e) i c).
Proof.
  intros Hg h e' He'. unfold completed. destruct (on_complete e); [|by exists e'].
  cbn. destruct (decide (g = h)) as [->|Hne].
  - rewrite Hg in He'. simplify_eq. rewrite lookup_insert_eq. by eexists.
  - rewrite lookup_insert_ne by done. by exists e'.
Qed.

Definition without (c : uvm_pushbuffer_chunk_t) (g : gpfifo_id) : uvm_pushbuffer_chunk_t :=
  c <| pending_gpfifos := filter (fun h => h <> g) (pending_gpfifos c) |>.

Definition needs_update (c : uvm_pushbuffer_chunk_t) (g : gpfifo_id) : bool :=
  (bool_decide (Some g = chunk_get_first_gpfifo c) || bool_decide (Some g = chunk_get_last_gpfifo c))
  && bool_decide (current_push c = None).

Lemma complete_run base pb begun g i c :
  pb_inv base (mk_pb_sys pb begun) -> valid_chunk i -> get_chunk pb i = Some c -> g ∈ pending_gpfifos c ->
  exists pb1 q, uvm_pushbuffer_mark_completed pb g
      = (if needs_update c g then update_chunk pb1 i else Some pb1)
    /\ chunks pb1 = chunks (put_chunk pb i (without c g)) /\ pushes pb1 = pushes pb
    /\ (forall j, available pb1 j = available pb j /\ idle pb1 j = idle pb j)
    /\ (forall l, same_entries pb pb1 l) /\ pending_ok pb1 i (without c g) q /\ idle pb i = false
    /\ (available pb i = true \/ current_push c <> None -> room q.*2 (next_push_start c))
    /\ (needs_update c g = false -> current_push c = None -> q <> [])
    /\ same_tracking pb pb1.
Proof.
  intros Hinv Hi Hc Hg. destruct (inv_chunks _ _ Hinv i c Hi Hc) as [q [Hp Hroom Hbusy Hidle Hfree]].
  cbn in *. pose proof Hp as [Hpend Hd He Hok Hr].
  assert (exists q1 s q2, q = q1 ++ (g, s) :: q2) as (q1 & s & q2 & ->).
  { rewrite Hpend in Hg. apply list_elem_of_fmap in Hg as ([g' s] & -> & (q1 & q2 & ->)%list_elem_of_split). eauto. }
  apply Forall_app in He as [_ [(e & Hge & Ht & Ho & Hz) _]%Forall_cons]. cbn in Hge, Ho, Hz.
  rewrite fmap_app, Forall_app in Hok. destruct Hok as [_ [Hs _]%Forall_cons]. cbn in Hs.
  assert (forall l, same_entries pb (put_chunk (completed pb g e) i (without c g)) l) as Hsame.
  { intros l. apply Forall_forall. intros x _ j Hx. exact (completed_entries pb g e j x Hge Hx). }
  exists (put_chunk (completed pb g e) i (without c g)), (q1 ++ q2). split.
  - unfold uvm_pushbuffer_mark_completed. rewrite Hge. cbn [mbind option_bind]. rewrite Ht.
    rewrite (gpfifo_to_chunk_run i e s Hi Hs Ho Hz). cbn [mbind option_bind].
    assert (get_chunk (completed pb g e) i = Some c) as Hc' by (unfold completed; by destruct (on_complete e)).
    unfold completed in Hc'. rewrite Hc'. done.
  - split_and!; try done; try (unfold completed; by destruct (on_complete e)).
    + eapply pending_ok_remove; [exact Hp|apply Hsame].
    + destruct (idle pb i) eqn:E; [|done]. destruct (Hidle eq_refl) as [_ Hq']. by destruct q1.
    + intros Hor. apply Hroom in Hor. rewrite fmap_app in Hor |- *. by eapply room_remove.
    + intros Hno Hnone E. apply app_nil in E as [-> ->]. unfold needs_update, chunk_get_first_gpfifo in Hno.
      rewrite Hpend, Hnone in Hno. cbn in Hno. rewrite !bool_decide_true in Hno by done. done.
    + by apply completed_tracking.
Qed.

Lemma complete_inv base pb begun g i c :
  pb_inv base (mk_pb_sys pb begun) -> valid_chunk i -> get_chunk pb i = Some c -> g ∈ pending_gpfifos c ->
  exists pb' c', uvm_pushbuffer_mark_completed pb g = Some pb' /\ pb_inv base (mk_pb_sys pb' begun)
    /\ chunks pb' = chunks (put_chunk pb i c') /\ current_push c' = current_push c
    /\ pending_gpfifos c' = filter (fun h => h <> g) (pending_gpfifos c) /\ pushes pb' = pushes pb
    /\ same_tracking pb pb'.
Proof.
  intros Hinv Hi Hc Hg. pose proof (inv_length _ _ Hinv) as Hl. cbn in Hl.
  destruct (complete_run _ _ _ _ _ _ Hinv Hi Hc Hg)
    as (pb1 & q & Hrun & Hch1 & Hpu1 & Hbits1 & Hsame & Hp1 & Hni & Hroom & Hlast & Htr).
  destruct (Hbits1 i) as [Ha1 Hi1].
  assert (forall p, current_push c = Some p -> (current_push c = Some p \/ forall j d, ~ is_current pb p j d)
    /\ exists push, pushes pb !! p = Some push /\ channel_is_wlc push = false) as Hcur.
  { intros p Hcp. split; [by left|]. by apply (inv_pushes _ _ Hinv p i c). }
  rewrite Hrun. destruct (needs_update c g) eqn:Hupd.
  - apply andb_prop in Hupd as [_ Hnone%bool_decide_eq_true].
    destruct (update_chunk_inv pb1 i (without c g) q) as (pb2 & c2 & -> & Hch2 & Hc2 & Hcur2 & Hpu2 & Hgp2 & Hbits2 & Hq2).
    { by rewrite Hch1, length_put. }
    { done. }
    { unfold get_chunk. rewrite Hch1. by apply get_put_eq. }
    { exact Hp1. }
    { intros Ha. apply Hroom. left. congruence. }
    { congruence. }
    change (current_push (without c g)) with (current_push c) in Hcur2.
    assert (c2 <| current_push := None |> = c2) as E.
    { destruct c2 as [x y z]. change (mk_chunk x y None = mk_chunk x y z). cbn in Hcur2. congruence. }
    rewrite E in Hq2.
    assert (chunks pb2 = chunks (put_chunk pb i c2)) as Hch.
    { rewrite Hch2. cbn. rewrite Hch1. cbn. apply list_insert_insert_eq. }
    exists pb2, c2. split; [done|]. split_and!; [|done|done| |congruence|].
    3: { intros h e He. destruct (Htr h e He) as (e' & He' & Hrest). exists e'. by rewrite Hgp2. }
    + eapply inv_put; [exact Hinv|exact Hi|exact Hc|exact Hch|congruence|..|exact Hq2| |done|].
      * intros j Hj Hne. destruct (Hbits1 j), (Hbits2 j Hj Hne). split; congruence.
      * intros j d q' _ _ _ _. apply Forall_forall. intros x _ k Hx.
        assert (entry_at pb1 k x) as (ex & Hex & Hrest).
        { specialize (Hsame [x]). apply Forall_cons in Hsame as [Hsame _]. by apply Hsame. }
        exists ex. by rewrite Hgp2.
      * rewrite Hcur2. exact Hcur.
      * intros p _ Hp. congruence.
    + destruct Hq2 as [[Hq2 _ _ _ _] _ _ _ _], Hp1 as [Hp1 _ _ _ _]. rewrite Hq2, <- Hp1. done.
  - exists pb1, (without c g). split; [done|]. split_and!; [|done|done|done|done|done].
    eapply inv_put; [exact Hinv|exact Hi|exact Hc|done|done|by intros; apply Hbits1|by intros; apply Hsame| | |done|done].
    + destruct (inv_chunks _ _ Hinv i c Hi Hc) as [q0 [_ _ Hbusy _ _]].
      split; [done|..]; rewrite ?Ha1, ?Hi1, ?Hni; try done; [intros Hb; by destruct (Hbusy Hb)|].
      intros Hnone E. by destruct (Hlast eq_refl Hnone).
    + exact Hcur.
Qed.

Lemma complete_pending base pb begun g :
  pb_inv base (mk_pb_sys pb begun) -> is_pending pb g ->
  exists pb', uvm_pushbuffer_mark_completed pb g = Some pb' /\ pb_inv base (mk_pb_sys pb' begun)
    /\ pushes pb' = pushes pb /\ same_tracking pb pb' /\ (forall h, is_pending pb' h <-> is_pending pb h /\ h <> g).
Proof.
  intros Hinv (i & c & Hi & Hc & Hg). pose proof (inv_length _ _ Hinv) as Hl. cbn in Hl.
  destruct (complete_inv base pb begun g i c Hinv Hi Hc Hg) as (pb' & c' & Hrun & Hinv' & Hch & _ & Hp & Hpu & Htr).
  exists pb'. split_and!; try done. intros h. rewrite (pending_put pb pb' i c c' h) by done.
  rewrite Hp, list_elem_of_filter. split.
  - intros [[Hne Hh]|(j & d & Hne & Hj & Hd & Hh)]; [split; [by exists i, c|done]|].
    split; [by exists j, d|]. intros ->. apply Hne. symmetry. by eapply (pending_unique base pb begun g i j).
  - intros [(j & d & Hj & Hd & Hh) Hne]. destruct (decide (j = i)) as [->|]; [left; split; congruence|right; by exists j, d].
Qed.

(** ** Ending *)
Lemma aligned_size n :
  0 < n <= UVM_MAX_PUSH_SIZE -> (4 | n) ->
  exists s, UVM_ALIGN_UP n UVM_CONF_COMPUTING_BUF_ALIGNMENT = Some s
    /\ 0 < s <= UVM_MAX_PUSH_SIZE /\ (4 | s).
Proof.
  intros Hn H4. unfold UVM_CONF_COMPUTING_BUF_ALIGNMENT, UVM_MAX_PUSH_SIZE in *. change 32 with (2 ^ 5).
  rewrite align_up_pow2 by (unfold in_width; lia). eexists. split; [done|]. change (2 ^ 5) with 32.
  split; [|exists (8 * ((n + 32 - 1) / 32)); lia].
  pose proof (Z.div_mod (n + 32 - 1) 32). pose proof (Z.mod_pos_bound (n + 32 - 1) 32).
  assert ((n + 32 - 1) / 32 <= 4096) by (apply Z.lt_succ_r, Z.div_lt_upper_bound; lia). lia.
Qed.

Lemma end_entry_run E base pb p push g callback value i next :
  memory_ok E base -> pushes pb !! p = Some push -> channel_is_wlc push = false -> valid_chunk i ->
  span_ok (next, UVM_MAX_PUSH_SIZE) ->
  push_begin push = base + i * UVM_PUSHBUFFER_CHUNK_SIZE + next ->
  push_begin push < push_next push <= push_begin push + UVM_MAX_PUSH_SIZE ->
  (4 | push_next push - push_begin push) ->
  exists s, uvm_channel_end_push_entry E pb p g callback value
      = Some (pb <| gpfifos := <[g := mk_gpfifo UVM_GPFIFO_ENTRY_TYPE_NORMAL
                (i * UVM_PUSHBUFFER_CHUNK_SIZE + next) s callback value (push_info_index push)]> (gpfifos pb) |>)
    /\ span_ok (next, s).
Proof.
  intros (Hbase & Hb0 & Hb1 & Hb4) Hp Hwlc Hi (Hn0 & _ & Hnmax & Hn4 & _) Hbegin Hnext H4. cbn in Hn0, Hnmax, Hn4.
  unfold uvm_channel_end_push_entry. rewrite Hp. cbn [mbind option_bind].
  assert (uvm_push_get_size push = push_next push - push_begin push) as ->.
  { destruct H4 as [m Hm]. unfold uvm_push_get_size. rewrite Hm, Z.div_mul by lia.
    apply wrap_small. unfold in_width, UVM_MAX_PUSH_SIZE in *. lia. }
  replace (push_next push - push_begin push <=? UVM_MAX_PUSH_SIZE) with true by lia.
  unfold uvm_pushbuffer_get_offset_for_push. rewrite Hwlc, Hbase. cbn [mbind option_bind].
  assert (NvU32 (push_begin push - base) = i * UVM_PUSHBUFFER_CHUNK_SIZE + next) as ->.
  { rewrite Hbegin. unfold NvU32.
    replace (base + i * UVM_PUSHBUFFER_CHUNK_SIZE + next - base) with (i * UVM_PUSHBUFFER_CHUNK_SIZE + next) by lia.
    apply wrap_small. unfold valid_chunk, in_width, UVM_PUSHBUFFER_CHUNK_SIZE, UVM_MAX_PUSH_SIZE, UVM_PUSHBUFFER_CHUNKS in *. lia. }
  assert ((i * UVM_PUSHBUFFER_CHUNK_SIZE + next) mod 4 =? 0 = true) as ->.
  { apply Z.eqb_eq, Z.mod_divide; [done|]. apply Z.divide_add_r; [|done].
    apply Z.divide_mul_r. by apply Z.mod_divide. }
  cbn [mbind option_bind].
  destruct (conf_computing_enabled E).
  - destruct (aligned_size (push_next push - push_begin push)) as (s & -> & Hs & Hs4); [lia|done|].
    cbn. eexists. split; [done|]. split_and!; cbn; try done; try lia.
  - cbn. eexists. split; [done|]. split_and!; cbn; try done; try lia.
Qed.

Lemma room_snoc pb pb' i c q g s callback value info :
  pending_ok pb i c q -> room q.*2 (next_push_start c) -> span_ok (next_push_start c, s) -> g ∉ q.*1 ->
  gpfifos pb' = <[g := mk_gpfifo UVM_GPFIFO_ENTRY_TYPE_NORMAL
    (i * UVM_PUSHBUFFER_CHUNK_SIZE + next_push_start c) s callback value info]> (gpfifos pb) ->
  pending_ok pb' i (c <| pending_gpfifos := pending_gpfifos c ++ [g] |>) (q ++ [(g, (next_push_start c, s))]).
Proof.
  intros [Hp Hd He Hok Hr] [Hring _] Hs Hg Hgp. split; cbn; rewrite ?fmap_app; cbn.
  - by rewrite Hp.
  - apply NoDup_app. split_and!; [done|set_solver|apply NoDup_singleton].
  - apply Forall_app. split.
    + rewrite Forall_forall in He |- *. intros x Hx. destruct (He x Hx) as (e & Hxe & Hrest).
      exists e. rewrite Hgp, lookup_insert_ne; [done|]. intros ->. apply Hg, list_elem_of_fmap. eauto.
    + constructor; [|constructor]. eexists. rewrite Hgp. cbn. by rewrite lookup_insert_eq.
  - apply Forall_app. split; [done|]. by constructor.
  - eapply ring_shrink; [|exact Hring]. destruct Hs as (_ & Hs & _). cbn in Hs. lia.
Qed.

Lemma end_push_run pb p push g e i c q s :
  length (chunks pb) = Z.to_nat UVM_PUSHBUFFER_CHUNKS -> valid_chunk i -> get_chunk pb i = Some c ->
  current_push c = Some p -> pushes pb !! p = Some push -> channel_is_wlc push = false ->
  gpfifos pb !! g = Some e -> gpfifo_to_chunk e = Some i ->
  (forall pb', gpfifos pb' = gpfifos pb ->
     pending_ok pb' i (c <| pending_gpfifos := pending_gpfifos c ++ [g] |>) (q ++ [(g, s)])) ->
  available pb i = false -> idle pb i = false ->
  exists pb' c', uvm_pushbuffer_end_push pb p g = Some pb' /\ chunks pb' = chunks (put_chunk pb i c')
    /\ current_push c' = None /\ pushes pb' = pushes pb /\ gpfifos pb' = gpfifos pb
    /\ (forall j, valid_chunk j -> j <> i -> available pb' j = available pb j /\ idle pb' j = idle pb j)
    /\ chunk_inv pb' i c' (q ++ [(g, s)]).
Proof.
  intros Hl Hi Hc Hcp Hpush Hwlc Hg He Hpend Hna Hni. unfold uvm_pushbuffer_end_push.
  rewrite Hpush. cbn [mbind option_bind]. rewrite Hwlc, Hg. cbn [mbind option_bind].
  rewrite He. cbn [mbind option_bind]. rewrite Hc. cbn [mbind option_bind].
  set (c1 := c <| pending_gpfifos := pending_gpfifos c ++ [g] |>).
  destruct (update_chunk_inv (put_chunk pb i c1) i c1 (q ++ [(g, s)]))
    as (pb2 & c2 & -> & Hch2 & Hc2 & Hcur2 & Hpu2 & Hgp2 & Hbits2 & Hq2).
  { by rewrite length_put. }
  { done. }
  { by apply get_put_eq. }
  { by apply Hpend. }
  { change (available (put_chunk pb i c1) i) with (available pb i). congruence. }
  { done. }
  cbn [mbind option_bind]. rewrite Hc2. cbn [mbind option_bind].
  rewrite Hcur2. change (current_push c1) with (current_push c). rewrite Hcp, bool_decide_true by done.
  eexists _, (c2 <| current_push := None |>). split; [done|]. split_and!; try done.
  - cbn. rewrite Hch2. cbn. by rewrite !list_insert_insert_eq.
  - eapply chunk_inv_ext; [exact Hq2| |done|done]. apply Forall_forall. by intros x _ k.
Qed.

Lemma end_inv E base pb begun p push g callback value :
  memory_ok E base -> pb_inv base (mk_pb_sys pb begun) -> p ∈ begun -> pushes pb !! p = Some push ->
  push_begin push < push_next push -> ~ is_pending pb g ->
  exists pb1 pb2, uvm_channel_end_push_entry E pb p g callback value = Some pb1
    /\ uvm_pushbuffer_end_push pb1 p g = Some pb2 /\ pb_inv base (mk_pb_sys pb2 (begun ∖ {[p]}))
    /\ gpfifos pb2 = gpfifos pb1 /\ pushes pb2 = pushes pb1 /\ (forall h, is_pending pb2 h <-> h = g \/ is_pending pb h).
Proof.
  intros Hmem Hinv Hp Hpush Hlt Hg.
  destruct (inv_begun _ _ Hinv p Hp) as (i & c & push' & Hcur & Hpush' & Hbegin & Hnext & H4). cbn in *.
  simplify_eq. pose proof Hcur as (Hi & Hc & Hcp).
  destruct (inv_pushes _ _ Hinv _ _ _ Hcur) as (push' & Hpush' & Hwlc). cbn in Hpush'. simplify_eq.
  destruct (inv_chunks _ _ Hinv i c Hi Hc) as [q Hq]. cbn in Hq. pose proof Hq as [Hpend Hroom Hbusy _ _].
  specialize (Hroom ltac:(right; by rewrite Hcp)). destruct (Hbusy ltac:(by rewrite Hcp)) as [Hna Hni].
  destruct (end_entry_run E base pb p push g callback value i (next_push_start c) Hmem Hpush Hwlc Hi) as (s & -> & Hs);
    [apply Hroom|done|lia|done|].
  set (e := mk_gpfifo _ _ s callback value _).
  set (pb1 := pb <| gpfifos := <[g := e]> (gpfifos pb) |>).
  assert (forall j d q', valid_chunk j -> get_chunk pb j = Some d -> chunk_inv pb j d q' -> g ∉ q'.*1) as Hfresh.
  { intros j d q' Hj Hd Hq' Hin. apply Hg. exists j, d. split_and!; [done|done|].
    by rewrite (po_pending _ _ _ _ (ci_pending _ _ _ _ Hq')). }
  destruct (end_push_run pb1 p push g e i c q (next_push_start c, s))
    as (pb2 & c2 & Hend & Hch & Hcur2 & Hpu2 & Hgp2 & Hbits & Hq2); try done.
  { exact (inv_length _ _ Hinv). }
  { cbn. by rewrite lookup_insert_eq. }
  { by apply (gpfifo_to_chunk_run i e (next_push_start c, s)). }
  { intros pb' Hgp. eapply room_snoc; [exact Hpend|exact Hroom|exact Hs|by eapply Hfresh|exact Hgp]. }
  exists pb1, pb2. split; [done|]. split; [exact Hend|]. split_and!; [|done|done|].
  2: { intros h. rewrite (pending_put pb pb2 i c c2 h) by (done || exact (inv_length _ _ Hinv)).
    rewrite (po_pending _ _ _ _ (ci_pending _ _ _ _ Hq2)), fmap_app, elem_of_app. cbn.
    rewrite <- (po_pending _ _ _ _ Hpend), list_elem_of_singleton. split.
    - intros [[Hh| ->]|(j & d & _ & Hj & Hd & Hh)]; [right; by exists i, c|by left|right; by exists j, d].
    - intros [->|(j & d & Hj & Hd & Hh)]; [by left; right|].
      destruct (decide (j = i)) as [->|]; [left; left; congruence|right; by exists j, d]. }
  eapply inv_put; [exact Hinv|exact Hi|exact Hc|exact Hch|done|exact Hbits| |exact Hq2|..].
  - intros j d q' Hj Hne Hd Hq'. apply Forall_forall. intros x Hx k (ex & Hex & Hrest). exists ex.
    rewrite Hgp2. cbn. rewrite lookup_insert_ne; [done|]. intros ->.
    apply (Hfresh j d q' Hj Hd Hq'), list_elem_of_fmap. eauto.
  - intros p' Hp'. congruence.
  - set_solver.
  - intros p' Hp' Hcp'. exfalso. assert (p' = p) as -> by congruence. set_solver.
Qed.

(** ** Steps that leave the chunks alone *)
Lemma inv_same_chunks base pb begun P n begun' :
  let pb' := pb <| pushes := P |> <| concurrent_pushes_sema := n |> in
  pb_inv base (mk_pb_sys pb begun) ->
  (forall p i c push, is_current pb p i c -> pushes pb !! p = Some push ->
     exists push', P !! p = Some push' /\ channel_is_wlc push' = channel_is_wlc push) ->
  (forall p, p ∈ begun' -> begun_ok base pb' p) ->
  pb_inv base (mk_pb_sys pb' begun').
Proof.
  intros pb' [Hl Hch Hcur Hpu _] HP Hbe. split; cbn in *; [done| |done| |done].
  - intros i c Hi Hc. destruct (Hch i c Hi Hc) as [q Hq]. exists q.
    eapply chunk_inv_ext; [exact Hq| |done|done]. apply Forall_forall. by intros x _ k.
  - intros p i c Hp. destruct (Hpu p i c Hp) as (push & Hpush & Hw).
    destruct (HP p i c push Hp Hpush) as (push' & ? & ?). exists push'. split; [done|congruence].
Qed.

(** A change of the record of push [p] that keeps its channel. *)
Lemma inv_set_push base pb begun p push push' begun' :
  pb_inv base (mk_pb_sys pb begun) ->
  ((forall i c, ~ is_current pb p i c) \/ (pushes pb !! p = Some push /\ channel_is_wlc push' = channel_is_wlc push)) ->
  begun' ∖ {[p]} ⊆ begun ->
  (p ∈ begun' -> begun_ok base (pb <| pushes := <[p := push']> (pushes pb) |>) p) ->
  pb_inv base (mk_pb_sys (pb <| pushes := <[p := push']> (pushes pb) |>) begun').
Proof.
  intros Hinv Hp Hsub Hbe.
  apply (inv_same_chunks base pb begun (<[p := push']> (pushes pb)) (concurrent_pushes_sema pb) begun' Hinv).
  - intros p' i c r Hcur Hr. destruct (decide (p = p')) as [<-|Hne]; [|by rewrite lookup_insert_ne; eauto].
    rewrite lookup_insert_eq. eexists. split; [done|].
    destruct Hp as [Hno|[? ?]]; [by destruct (Hno i c)|congruence].
  - intros p' Hp'. destruct (decide (p = p')) as [<-|Hne]; [by apply Hbe|].
    destruct (inv_begun _ _ Hinv p') as (i & c & r & Hcur & Hr & Hrest); [set_solver|].
    exists i, c, r. split; [done|]. cbn. by rewrite lookup_insert_ne.
Qed.

Lemma next_addr_run E base pb i c :
  memory_ok E base -> valid_chunk i -> get_chunk pb i = Some c -> span_ok (next_push_start c, UVM_MAX_PUSH_SIZE) ->
  chunk_get_next_push_start_addr E pb i = Some (base + i * UVM_PUSHBUFFER_CHUNK_SIZE + next_push_start c).
Proof.
  intros (Hb & Hb0 & Hb1 & Hb4) Hi Hc (Hn0 & _ & Hn1 & Hn4 & _). cbn in Hn0, Hn1, Hn4.
  unfold chunk_get_next_push_start_addr. rewrite Hb. cbn [mbind option_bind].
  rewrite chunk_offset_run by done. cbn [mbind option_bind]. rewrite Hc. cbn [mbind option_bind].
  assert (NvU64 (NvU64 (base + i * UVM_PUSHBUFFER_CHUNK_SIZE) + next_push_start c)
    = base + i * UVM_PUSHBUFFER_CHUNK_SIZE + next_push_start c) as ->.
  { unfold valid_chunk, NvU64, UVM_PUSHBUFFER_SIZE, UVM_PUSHBUFFER_CHUNK_SIZE, UVM_MAX_PUSH_SIZE, UVM_PUSHBUFFER_CHUNKS in *.
    rewrite (wrap_small 64 (base + _)), wrap_small; unfold in_width; lia. }
  assert ((base + i * UVM_PUSHBUFFER_CHUNK_SIZE + next_push_start c) mod 4 =? 0 = true) as ->; [|done].
  apply Z.eqb_eq, Z.mod_divide; [done|]. do 2 (apply Z.divide_add_r; [|done || (apply Z.divide_mul_r; by apply Z.mod_divide)]).
  done.
Qed.

Lemma current_room base s p i c :
  pb_inv base s -> is_current (ps_pb s) p i c ->
  exists q, chunk_inv (ps_pb s) i c q /\ room q.*2 (next_push_start c).
Proof.
  intros Hinv (Hi & Hc & Hp). destruct (inv_chunks _ _ Hinv i c Hi Hc) as [q Hq].
  exists q. split; [done|]. apply (ci_room _ _ _ _ Hq). right. by rewrite Hp.
Qed.

Lemma local_inv E base s s' : memory_ok E base -> pb_inv base s -> pb_local E s s' -> pb_inv base s'.
Proof.
  intros Hmem Hinv Hstep. revert Hinv.
  destruct Hstep as [pb begun p push Hno|pb begun n|pb begun p push chunk pb' Hp Hw Hno Hrun
    |pb begun p i c push addr Hcur Hnb Hp Hrun|pb begun p push n Hb Hp Hn H4]; intros Hinv.
  - apply (inv_set_push base pb begun p push); [exact Hinv|by left|set_solver|set_solver].
  - apply (inv_same_chunks base pb begun (pushes pb) n begun Hinv); [by eauto|].
    intros p Hp. exact (inv_begun _ _ Hinv p Hp).
  - destruct (claim_inv base pb begun p push Hinv Hp Hw Hno) as (chunk' & pb'' & Hrun' & Hinv' & _).
    rewrite Hrun in Hrun'. by simplify_eq.
  - destruct (current_room _ _ _ _ _ Hinv Hcur) as (q & _ & _ & Hs). cbn in *. pose proof Hcur as (Hi & Hc & _).
    rewrite (next_addr_run E base) with (c := c) in Hrun by done. simplify_eq.
    eapply inv_set_push; [exact Hinv|right; by split|set_solver|].
    intros _. exists i, c. eexists. split; [exact Hcur|]. cbn. rewrite lookup_insert_eq. split; [done|].
    cbn. unfold UVM_MAX_PUSH_SIZE. split_and!; [done|lia|lia|]. rewrite Z.sub_diag. apply Z.divide_0_r.
  - destruct (inv_begun _ _ Hinv p Hb) as (i & c & push' & Hcur & Hp' & Hbegin & _). cbn in *. simplify_eq.
    eapply inv_set_push; [exact Hinv|right; by split|set_solver|].
    intros _. exists i, c. eexists. split; [exact Hcur|]. cbn. rewrite lookup_insert_eq. split; [done|].
    cbn. split_and!; [done|lia|lia|]. by replace (push_begin push + n - push_begin push) with n by lia.
Qed.

Lemma step_inv E base s s' : memory_ok E base -> pb_inv base s -> pb_step E s s' -> pb_inv base s'.
Proof.
  intros Hmem Hinv Hstep. revert Hinv.
  destruct Hstep as [s s' Hloc|pb begun p push g callback value pb1 pb2 Hb Hp Hlt Hg Hr1 Hr2
    |pb begun g pb' (i & c & Hi & Hc & Hin) Hrun]; intros Hinv.
  - by eapply local_inv.
  - destruct (end_inv E base pb begun p push g callback value Hmem Hinv Hb Hp Hlt Hg) as (x & y & H1 & H2 & H3 & _).
    by simplify_eq.
  - destruct (complete_inv base pb begun g i c Hinv Hi Hc Hin) as (x & c' & H1 & H2 & _).
    rewrite Hrun in H1. by simplify_eq.
Qed.

Lemma create_inv base : pb_inv base (mk_pb_sys uvm_pushbuffer_create ∅).
Proof.
  assert (forall i c, get_chunk uvm_pushbuffer_create i = Some c -> c = mk_chunk 0 [] None) as Hget.
  { intros i c Hc. apply lookup_replicate in Hc. tauto. }
  split; cbn.
  - done.
  - intros i c Hi ->%Hget. exists [].
    assert (available uvm_pushbuffer_create i = true /\ idle uvm_pushbuffer_create i = true) as [Ha Hid].
    { unfold available, idle, uvm_pushbuffer_create. cbn [available_chunks idle_chunks].
      unfold valid_chunk, UVM_PUSHBUFFER_CHUNKS in *. rewrite Z.ones_spec_low by lia. done. }
    split; rewrite ?Ha, ?Hid; try done; [|intros _; apply room_empty].
    split; cbn; try constructor. exists [], []. split_and!; constructor.
  - intros p i j c d (_ & Hc%Hget & Hp). by subst.
  - intros p i c (_ & Hc%Hget & Hp). by subst.
  - set_solver.
Qed.

Lemma pb_reachable_inv E base s : memory_ok E base -> pb_reachable E s -> pb_inv base s.
Proof. intros Hmem. induction 1; [apply create_inv|by eapply step_inv]. Qed.

(** ** Memory in use *)

(** A push that has begun may write up to the largest size; an ended one is
    read by the GPU until it completes. *)
Inductive pb_user := Begun (p : push_id) | Pending (g : gpfifo_id).

(** The addresses a user may access. *)
Definition uses (base : Z) (s : pb_sys) (u : pb_user) (m : span) : Prop :=
  match u with
  | Begun p => p ∈ ps_begun s /\ exists push, pushes (ps_pb s) !! p = Some push
      /\ m = (push_begin push, UVM_MAX_PUSH_SIZE)
  | Pending g => is_pending (ps_pb s) g /\ exists e, gpfifos (ps_pb s) !! g = Some e
      /\ m = (base + pushbuffer_offset e, pushbuffer_size e)
  end.

(** Where the invariant finds them: span [x] of chunk [i]. *)
Definition located (pb : uvm_pushbuffer_t) (u : pb_user) (i : Z) (x : span) : Prop :=
  exists c q, valid_chunk i /\ get_chunk pb i = Some c /\ chunk_inv pb i c q
    /\ match u with
       | Begun p => current_push c = Some p /\ x = (next_push_start c, UVM_MAX_PUSH_SIZE) /\ room q.*2 x.1
       | Pending g => (g, x) ∈ q
       end.

Definition at_chunk (base i : Z) (x : span) : span := (base + i * UVM_PUSHBUFFER_CHUNK_SIZE + x.1, x.2).

Lemma uses_located base s u m :
  pb_inv base s -> uses base s u m -> exists i x, located (ps_pb s) u i x /\ m = at_chunk base i x.
Proof.
  intros Hinv. destruct u as [p|g]; cbn.
  - intros [Hp (push & Hpush & ->)].
    destruct (inv_begun _ _ Hinv p Hp) as (i & c & push' & Hcur & Hpush' & Hb & _). simplify_eq.
    destruct (current_room _ _ _ _ _ Hinv Hcur) as (q & Hq & Hr). destruct Hcur as (Hi & Hc & Hp').
    exists i, (next_push_start c, UVM_MAX_PUSH_SIZE). split; [|by unfold at_chunk; rewrite Hb].
    exists c, q. by split_and!.
  - intros [(i & c & Hi & Hc & Hg) (e & He & ->)]. destruct (inv_chunks _ _ Hinv i c Hi Hc) as [q Hq].
    pose proof Hq as [[Hp _ Hent _ _] _ _ _ _]. rewrite Hp in Hg.
    apply list_elem_of_fmap in Hg as ([g' x] & -> & Hx). cbn in *.
    rewrite Forall_forall in Hent. destruct (Hent _ Hx) as (e' & He' & _ & Ho & Hz). cbn in *. simplify_eq.
    exists i, x. split; [by exists c, q|]. unfold at_chunk. rewrite Ho, Hz. f_equal. lia.
Qed.

Lemma located_span pb u i x : located pb u i x -> valid_chunk i /\ span_ok x.
Proof.
  intros (c & q & Hi & _ & [[_ _ _ Hok _] _ _ _ _] & Hu). split; [done|]. destruct u as [p|g].
  - destruct Hu as (_ & -> & _ & Hs). exact Hs.
  - rewrite Forall_forall in Hok. apply Hok, list_elem_of_fmap. by exists (g, x).
Qed.

(** The queue of a chunk is determined by its list and its entries. *)
Lemma queue_unique pb i c q q' : pending_ok pb i c q -> pending_ok pb i c q' -> q = q'.
Proof.
  intros [Hp _ He _ _] [Hp' _ He' _ _]. rewrite Hp in Hp'. clear -Hp' He He'. revert q' Hp' He'.
  induction q as [|[g s] q IH]; intros [|[g' s'] q']; cbn; try done. intros [= <- Hp].
  intros [(e' & Hg' & _ & Ho' & Hz') He']%Forall_cons. apply Forall_cons in He as [(e & Hg & _ & Ho & Hz) He].
  cbn in *. simplify_eq. destruct s, s'. cbn in *. f_equal; [f_equal; f_equal; lia|by apply IH].
Qed.

Lemma located_disjoint pb u v i x y :
  located pb u i x -> located pb v i y -> u <> v -> spans_disjoint x y.
Proof.
  intros (c & q & _ & Hc & Hq & Hu) (c' & q' & _ & Hc' & Hq' & Hv) Hne. simplify_eq.
  assert (q' = q) as ->.
  { by eapply queue_unique; [apply Hq'|apply Hq]. }
  pose proof (po_ring _ _ _ _ (ci_pending _ _ _ _ Hq)) as Hring.
  assert (forall g z w, (g, z) ∈ q -> room q.*2 w -> spans_disjoint (w, UVM_MAX_PUSH_SIZE) z) as Hnew.
  { intros g z w Hz [Hr _]. apply ring_disjoint in Hr as [Hr _]. rewrite Forall_forall in Hr.
    apply Hr, list_elem_of_fmap. by exists (g, z). }
  unfold spans_disjoint in *. destruct u as [p|g], v as [p'|h].
  - destruct Hu as [Hp _], Hv as [Hp' _]. congruence.
  - destruct Hu as (_ & -> & Hr). exact (Hnew _ _ _ Hv Hr).
  - destruct Hv as (_ & -> & Hr). pose proof (Hnew _ _ _ Hu Hr). cbn in *. tauto.
  - apply list_elem_of_split in Hu as (q1 & q2 & ->). rewrite fmap_app in Hring. cbn in Hring.
    apply ring_disjoint in Hring as [H1 H2]. rewrite Forall_forall in H1, H2.
    apply elem_of_app in Hv as [Hv|[Hv|Hv]%elem_of_cons].
    + apply H1, list_elem_of_fmap. by exists (h, y).
    + congruence.
    + apply H2, list_elem_of_fmap. by exists (h, y).
Qed.

(** C8.  In every state that threads can bring a push buffer to, no memory is
    used twice: the addresses that a begun push may write, and those of every
    pending push that the GPU reads, are inside the push buffer and pairwise
    disjoint, whatever the order in which pushes complete; and ending a begun
    push, or completing a pending one, fails none of the code's assertions. *)
Theorem pushes_never_overlap E base s :
  memory_ok E base -> pb_reachable E s ->
  (forall u m, uses base s u m -> base <= m.1 /\ 0 < m.2 /\ m.1 + m.2 <= base + UVM_PUSHBUFFER_SIZE)
  /\ (forall u v m n, uses base s u m -> uses base s v n -> u <> v -> spans_disjoint m n)
  /\ (forall p push g callback value, p ∈ ps_begun s -> pushes (ps_pb s) !! p = Some push ->
        push_begin push < push_next push -> ~ is_pending (ps_pb s) g ->
        exists pb, uvm_channel_end_push_entry E (ps_pb s) p g callback value = Some pb
          /\ is_Some (uvm_pushbuffer_end_push pb p g))
  /\ (forall g, is_pending (ps_pb s) g -> is_Some (uvm_pushbuffer_mark_completed (ps_pb s) g)).
Proof.
  intros Hmem Hreach. pose proof (pb_reachable_inv _ _ _ Hmem Hreach) as Hinv. split_and!.
  - intros u m Hu. destruct (uses_located _ _ _ _ Hinv Hu) as (i & x & Hx & ->).
    apply located_span in Hx as [Hi Hx]. unfold valid_chunk, span_ok, at_chunk in *. cbn.
    unfold UVM_PUSHBUFFER_SIZE, UVM_PUSHBUFFER_CHUNK_SIZE, UVM_MAX_PUSH_SIZE, UVM_PUSHBUFFER_CHUNKS in *. lia.
  - intros u v m n Hu Hv Hne. destruct (uses_located _ _ _ _ Hinv Hu) as (i & x & Hx & ->).
    destruct (uses_located _ _ _ _ Hinv Hv) as (j & y & Hy & ->).
    pose proof (located_span _ _ _ _ Hx) as [Hi Hox]. pose proof (located_span _ _ _ _ Hy) as [Hj Hoy].
    unfold at_chunk, spans_disjoint, span_ok in *. cbn. destruct (decide (i = j)) as [<-|].
    + destruct (located_disjoint _ _ _ _ _ _ Hx Hy Hne); lia.
    + unfold UVM_PUSHBUFFER_CHUNK_SIZE, UVM_MAX_PUSH_SIZE in *. lia.
  - intros p push g callback value Hp Hpush Hlt Hg. destruct s as [pb begun].
    destruct (end_inv E base pb begun p push g callback value Hmem Hinv Hp Hpush Hlt Hg) as (pb1 & pb2 & H1 & H2 & _).
    exists pb1. split; [done|]. cbn. rewrite H2. eauto.
  - intros g (i & c & Hi & Hc & Hg). destruct s as [pb begun].
    destruct (complete_inv base pb begun g i c Hinv Hi Hc Hg) as (pb' & c' & H1 & _). cbn. rewrite H1. eauto.
Qed.

(** ** Waiting for space *)
Definition full (pb : uvm_pushbuffer_t) : Prop :=
  forall i, valid_chunk i -> available pb i = false /\ idle pb i = false.

(** A step of the others: any step that leaves push [p] alone. *)
Definition other_step (E : pb_env) (p : push_id) (s s' : pb_sys) : Prop :=
  pb_step E s s' /\ pushes (ps_pb s') !! p = pushes (ps_pb s) !! p
  /\ forall i c, is_current (ps_pb s') p i c -> exists d, is_current (ps_pb s) p i d.

(** In each round the others take any number of steps. *)
Definition others_ok (E : pb_env) (p : push_id) : Prop :=
  forall k s, pb_reachable E s ->
    exists begun, rtc (other_step E p) s (mk_pb_sys (others E k (ps_pb s)) begun).

(** The push buffer after [n] rounds, the first of which is round [k]. *)
Fixpoint rounds (E : pb_env) (k n : nat) (pb : uvm_pushbuffer_t) : uvm_pushbuffer_t :=
  match n with
  | O => pb
  | S n => rounds E (S k) n (others E k pb)
  end.

(** Some chunk has no push being written and no pending push. *)
Definition some_chunk_done (pb : uvm_pushbuffer_t) : Prop :=
  exists i c, valid_chunk i /\ get_chunk pb i = Some c /\ current_push c = None /\ pending_gpfifos c = [].

Lemma done_not_full base s : pb_inv base s -> some_chunk_done (ps_pb s) -> ~ full (ps_pb s).
Proof.
  intros Hinv (i & c & Hi & Hc & Hcur & Hp) Hfull. destruct (Hfull i Hi) as [_ Hid].
  destruct (inv_chunks _ _ Hinv i c Hi Hc) as [q [[Hq _ _ _ _] _ _ _ Hfree]].
  rewrite Hfree in Hid; [done|done|]. rewrite Hp in Hq. by destruct q.
Qed.

Section waiting.
Context (E : pb_env) (base : Z) (p : push_id) (push : uvm_push_t).
Hypothesis Hmem : memory_ok E base.
Hypothesis Hwlc : channel_is_wlc push = false.
Hypothesis Hothers : others_ok E p.

(** Push [p] waits for a chunk. *)
Definition waiting (pb : uvm_pushbuffer_t) : Prop :=
  exists begun, pb_reachable E (mk_pb_sys pb begun) /\ pushes pb !! p = Some push
    /\ forall j d, ~ is_current pb p j d.

Lemma others_waiting k pb : waiting pb -> waiting (others E k pb).
Proof.
  intros (begun & Hr & Hp & Hno). destruct (Hothers k _ Hr) as [begun' Hsteps]. cbn in Hsteps.
  remember (mk_pb_sys pb begun) as s eqn:Es. remember (mk_pb_sys (others E k pb) begun') as s' eqn:Es'.
  assert (pb_reachable E s' /\ pushes (ps_pb s') !! p = Some push /\ forall j d, ~ is_current (ps_pb s') p j d)
    as H; [|exists begun'; by subst s'].
  assert (pushes (ps_pb s) !! p = Some push /\ forall j d, ~ is_current (ps_pb s) p j d) as [Hp' Hno'] by by subst s.
  clear Es Es' Hp Hno. induction Hsteps as [|s s1 s' (Hstep & Hpu & Hcur) _ IH]; [done|].
  apply IH; [by eapply pb_reach_step|congruence|]. intros j d Hd. destruct (Hcur _ _ Hd) as [d' Hd']. by eapply Hno'.
Qed.

(** One attempt: it claims a chunk, or the push buffer is full and unchanged. *)
Lemma attempt pb : waiting pb ->
  (exists j pb' d begun, try_claim_chunk pb p = Some (Some j, pb') /\ pb_inv base (mk_pb_sys pb' begun)
     /\ is_current pb' p j d /\ pushes pb' !! p = Some push)
  \/ try_claim_chunk pb p = Some (None, pb) /\ full pb /\ ~ some_chunk_done pb.
Proof.
  intros (begun & Hr & Hp & Hno). pose proof (pb_reachable_inv _ _ _ Hmem Hr) as Hinv.
  destruct (claim_inv base pb begun p push Hinv Hp Hwlc Hno) as ([j|] & pb' & Hclaim & Hinv' & Hpu & Hres).
  - left. destruct Hres as [d Hd]. exists j, pb', d, begun. split_and!; try done. congruence.
  - right. destruct Hres as [-> Hfull]. split_and!; [done|done|]. intros Hdone. by eapply done_not_full.
Qed.

(** The result of a wait that succeeds. *)
Definition claimed (r : option (NV_STATUS * option Z * uvm_pushbuffer_t)) : Prop :=
  exists j pb d begun, r = Some (NV_OK, Some j, pb) /\ pb_inv base (mk_pb_sys pb begun)
    /\ is_current pb p j d /\ pushes pb !! p = Some push.

Lemma claim_loop_gets n : forall k fuel pb,
  (n < fuel)%nat -> (forall m, (k <= m < k + n)%nat -> check_errors E m = NV_OK) -> waiting pb ->
  some_chunk_done (rounds E (S k) n pb) -> claimed (claim_loop E fuel k pb p NV_OK).
Proof.
  induction n as [|n IH]; intros k [|fuel] pb Hf Herr Hw Hdone; try lia; cbn [claim_loop];
    destruct (attempt pb Hw) as [(j & pb' & d & begun & -> & H)|(-> & _ & Hno)]; cbn [mbind option_bind].
  1, 3: by exists j, pb', d, begun.
  - by destruct Hno.
  - rewrite Z.eqb_refl, (Herr k) by lia.
    apply IH; [lia| |by apply others_waiting|done]. intros m Hm. apply Herr. lia.
Qed.

Lemma claim_chunk_gets n fuel pb :
  (n <= fuel)%nat -> (forall m, (m < n)%nat -> check_errors E m = NV_OK) -> waiting pb ->
  some_chunk_done (rounds E 0 n pb) -> claimed (claim_chunk E fuel pb p).
Proof.
  intros Hf Herr Hw Hdone. unfold claim_chunk.
  destruct (attempt pb Hw) as [(j & pb' & d & begun & -> & H)|(-> & _ & Hno)]; cbn [mbind option_bind].
  { by exists j, pb', d, begun. }
  destruct n as [|n]; [by destruct Hno|].
  apply (claim_loop_gets n); [lia| |by apply others_waiting|done]. intros m Hm. apply Herr. lia.
Qed.
End waiting.

(** The push buffer once a thread has passed the semaphore. *)
Definition entered (pb : uvm_pushbuffer_t) : uvm_pushbuffer_t :=
  pb <| concurrent_pushes_sema := concurrent_pushes_sema pb - 1 |>.

(** C35.  A thread that begins a push does not wait forever for space.  While it
    waits, other threads and the GPU take any steps on the push buffer that leave
    its own push alone: they claim chunks, write, end and complete pushes.  If
    after some number [n] of these rounds, in which no error is reported, some
    chunk has neither a push being written nor a pending one, then
    [uvm_pushbuffer_begin_push], given that the semaphore lets the thread pass,
    returns successfully after at most [n] rounds, and the push starts at the room
    that its chunk reserves for it. *)
Theorem begin_push_gets_space E base s p push n fuel :
  memory_ok E base -> pb_reachable E s -> others_ok E p ->
  pushes (ps_pb s) !! p = Some push -> channel_is_wlc push = false -> (forall j d, ~ is_current (ps_pb s) p j d) ->
  0 < concurrent_pushes_sema (ps_pb s) ->
  (forall m, (m < n)%nat -> check_errors E m = NV_OK) -> some_chunk_done (rounds E 0 n (entered (ps_pb s))) ->
  (n <= fuel)%nat ->
  exists pb' j d push', uvm_pushbuffer_begin_push E fuel (ps_pb s) p = Some (NV_OK, pb')
    /\ is_current pb' p j d /\ pushes pb' !! p = Some push'
    /\ push_begin push' = base + j * UVM_PUSHBUFFER_CHUNK_SIZE + next_push_start d
    /\ push_next push' = push_begin push'.
Proof.
  intros Hmem Hreach Hoth Hp Hw Hno Hsema Herr Hdone Hf. destruct s as [pb begun]. cbn in *.
  assert (waiting E p push (entered pb)) as Hwait.
  { exists begun. split_and!; [|done|exact Hno]. eapply pb_reach_step; [exact Hreach|]. apply step_local, step_sema. }
  destruct (claim_chunk_gets E base p push Hmem Hw Hoth n fuel (entered pb) Hf Herr Hwait Hdone)
    as (j & pb1 & d & begun1 & Hclaim & Hinv & Hd & Hp1).
  destruct (current_room _ _ _ _ _ Hinv Hd) as (q & _ & _ & Hs). pose proof Hd as (Hj & Hdj & _). cbn in Hdj.
  unfold uvm_pushbuffer_begin_push. rewrite Hp. cbn [mbind option_bind]. rewrite Hw.
  replace (0 <? concurrent_pushes_sema pb) with true by lia. cbn [negb]. fold (entered pb). rewrite Hclaim.
  cbn [mbind option_bind]. rewrite Z.eqb_refl. cbn [negb].
  rewrite (next_addr_run E base) with (c := d) by done. cbn [mbind option_bind].
  eexists _, j, d, _. split; [done|]. cbn. rewrite lookup_insert_eq. by split_and!.
Qed.

(** ** Witnesses *)
Definition quiet_env : pb_env := mk_pb_env false 0x10000 0 (fun _ pb => pb) (fun _ => NV_OK).
Definition push_new : uvm_push_t := mk_push 0 0 false 0 1 0 0.

Definition one_push : pb_sys :=
  mk_pb_sys (uvm_pushbuffer_create <| pushes := {[1%positive := push_new]} |>) ∅.

Lemma one_push_reachable E : pb_reachable E one_push.
Proof.
  pose proof (pb_reach_step E _ _ (pb_reach_create E)
    (step_local E _ _ (step_new E uvm_pushbuffer_create ∅ 1 push_new ltac:(intros i c (_ & Hc & Hp);
       apply lookup_replicate in Hc as [-> _]; done)))) as H.
  replace (∅ ∖ {[1%positive]}) with (∅ : gset positive) in H by set_solver. exact H.
Qed.

Lemma quiet_memory : memory_ok quiet_env 0x10000.
Proof. split_and!; try done. by exists 0x4000. Qed.

Lemma from_some {A} (d : A) (o : option A) : (if o then true else false) = true -> o = Some (default d o).
Proof. by destruct o. Qed.

(** Runs of the threads, as data: every command that is carried out is a step. *)
Inductive pb_cmd :=
| DoNew (p : push_id)
| DoSema (n : Z)
| DoClaim (p : push_id)
| DoBegin (p : push_id) (i : Z)
| DoWrite (p : push_id) (n : Z)
| DoEnd (p : push_id) (g : gpfifo_id)
| DoComplete (g : gpfifo_id).

Definition not_current (pb : uvm_pushbuffer_t) (p : push_id) : bool :=
  forallb (fun c => negb (bool_decide (current_push c = Some p))) (chunks pb).

Definition pending_in (pb : uvm_pushbuffer_t) (g : gpfifo_id) : bool :=
  existsb (fun c => bool_decide (g ∈ pending_gpfifos c)) (chunks pb).

Definition pb_run (E : pb_env) (s : pb_sys) (cmd : pb_cmd) : option pb_sys :=
  let '(mk_pb_sys pb begun) := s in
  match cmd with
  | DoNew p =>
      UVM_ASSERT not_current pb p;
      Some (mk_pb_sys (pb <| pushes := <[p := push_new]> (pushes pb) |>) (begun ∖ {[p]}))
  | DoSema n => Some (mk_pb_sys (pb <| concurrent_pushes_sema := n |>) begun)
  | DoClaim p =>
      push ← pushes pb !! p;
      UVM_ASSERT negb (channel_is_wlc push) && not_current pb p;
      r ← try_claim_chunk pb p;
      Some (mk_pb_sys r.2 begun)
  | DoBegin p i =>
      push ← pushes pb !! p;
      c ← get_chunk pb i;
      UVM_ASSERT (0 <=? i) && (i <? UVM_PUSHBUFFER_CHUNKS) && bool_decide (current_push c = Some p)
                 && negb (bool_decide (p ∈ begun));
      addr ← chunk_get_next_push_start_addr E pb i;
      Some (mk_pb_sys (pb <| pushes := <[p := push <| push_begin := addr |> <| push_next := addr |>]> (pushes pb) |>)
              ({[p]} ∪ begun))
  | DoWrite p n =>
      push ← pushes pb !! p;
      UVM_ASSERT bool_decide (p ∈ begun) && (0 <=? n) && (n <=? UVM_MAX_PUSH_SIZE) && (n mod 4 =? 0);
      Some (mk_pb_sys (pb <| pushes := <[p := push <| push_next := push_begin push + n |>]> (pushes pb) |>) begun)
  | DoEnd p g =>
      push ← pushes pb !! p;
      UVM_ASSERT bool_decide (p ∈ begun) && (push_begin push <? push_next push) && negb (pending_in pb g);
      pb1 ← uvm_channel_end_push_entry E pb p g false 0;
      pb2 ← uvm_pushbuffer_end_push pb1 p g;
      Some (mk_pb_sys pb2 (begun ∖ {[p]}))
  | DoComplete g =>
      UVM_ASSERT pending_in pb g && bool_decide (length (chunks pb) = Z.to_nat UVM_PUSHBUFFER_CHUNKS);
      pb' ← uvm_pushbuffer_mark_completed pb g;
      Some (mk_pb_sys pb' begun)
  end.

Fixpoint pb_runs (E : pb_env) (s : pb_sys) (cmds : list pb_cmd) : option pb_sys :=
  match cmds with
  | [] => Some s
  | cmd :: cmds => s ← pb_run E s cmd; pb_runs E s cmds
  end.

Lemma not_current_ok pb p : not_current pb p = true -> forall i c, ~ is_current pb p i c.
Proof.
  intros H i c (_ & Hc & Hp). unfold not_current in H. rewrite forallb_forall in H.
  specialize (H c). rewrite bool_decide_true in H by done. discriminate H.
  apply list_elem_of_In. by eapply list_elem_of_lookup_2.
Qed.

Lemma pending_in_no pb g : pending_in pb g = false -> ~ is_pending pb g.
Proof.
  intros H (i & c & _ & Hc & Hg). apply not_true_iff_false in H. apply H. unfold pending_in. apply existsb_exists.
  exists c. split; [apply list_elem_of_In; by eapply list_elem_of_lookup_2|by apply bool_decide_true].
Qed.

Lemma pending_in_yes pb g :
  length (chunks pb) = Z.to_nat UVM_PUSHBUFFER_CHUNKS -> pending_in pb g = true -> is_pending pb g.
Proof.
  intros Hl H. apply existsb_exists in H as (c & Hc & Hg). apply bool_decide_eq_true in Hg.
  apply list_elem_of_In, list_elem_of_lookup in Hc as [i Hi]. exists (Z.of_nat i), c.
  apply lookup_lt_Some in Hi as Hlt. unfold valid_chunk, get_chunk. rewrite Nat2Z.id. split_and!; [lia|lia|done|done].
Qed.

Ltac pb_run_inv :=
  repeat match goal with
  | H : _ ≫= _ = Some _ |- _ => apply bind_Some in H as (? & ? & H)
  | H : (if ?b then _ else None) = Some _ |- _ => destruct b eqn:?; [|discriminate H]
  | H : _ && _ = true |- _ => apply andb_true_iff in H as [? ?]
  | H : negb _ = true |- _ => apply negb_true_iff in H
  | H : bool_decide _ = true |- _ => apply bool_decide_eq_true in H
  | H : bool_decide _ = false |- _ => apply bool_decide_eq_false in H
  | H : (_ <=? _) = true |- _ => apply Z.leb_le in H
  | H : (_ <? _) = true |- _ => apply Z.ltb_lt in H
  | H : (_ =? _) = true |- _ => apply Z.eqb_eq in H
  | H : Some _ = Some _ |- _ => injection H as <-
  end.

Lemma pb_run_step E s cmd s' : pb_run E s cmd = Some s' -> pb_step E s s'.
Proof.
  destruct s as [pb begun]. intros H. destruct cmd; cbn [pb_run] in H; pb_run_inv.
  - by apply step_local, step_new, not_current_ok.
  - apply step_local, step_sema.
  - match goal with H : try_claim_chunk _ _ = Some ?r |- _ => destruct r as [chunk pb'] end.
    by eapply step_local, step_claim; [..|apply not_current_ok|].
  - by eapply step_local, step_begin; [split_and!|..].
  - eapply step_local, step_write; [done|done|done|]. by apply Z.mod_divide.
  - by eapply step_end; [..|apply pending_in_no| |].
  - by eapply step_complete; [apply pending_in_yes|].
Qed.

Lemma pb_runs_reachable E cmds : forall s s', pb_reachable E s -> pb_runs E s cmds = Some s' -> pb_reachable E s'.
Proof.
  induction cmds as [|cmd cmds IH]; intros s s' Hr H; cbn [pb_runs] in H; [by simplify_eq|].
  apply bind_Some in H as (s1 & H1 & H). eapply IH; [|exact H]. eapply pb_reach_step; [exact Hr|]. by apply (pb_run_step _ _ cmd).
Qed.

(** Pushes 1 to 15 are being written, each to a chunk; pushes 16 to 23, of the
    largest size, fill the last chunk; push 24 has no chunk. *)
Definition fill_cmds : list pb_cmd :=
  (DoNew ∘ Pos.of_nat <$> seq 1 24)
  ++ (p ← seq 1 15; [DoClaim (Pos.of_nat p); DoBegin (Pos.of_nat p) (Z.of_nat p - 1)])
  ++ (p ← seq 16 8; let p := Pos.of_nat p in
        [DoClaim p; DoBegin p 15; DoWrite p UVM_MAX_PUSH_SIZE; DoEnd p p])
  ++ [DoSema 1].

Definition empty_sys : pb_sys := mk_pb_sys uvm_pushbuffer_create ∅.
Definition full_sys (E : pb_env) : pb_sys := default empty_sys (pb_runs E empty_sys fill_cmds).

Lemma full_sys_reachable E :
  (if pb_runs E empty_sys fill_cmds then true else false) = true -> pb_reachable E (full_sys E).
Proof. intros H. eapply pb_runs_reachable; [apply pb_reach_create|]. by apply from_some. Qed.

(** The full push buffer: fifteen pushes being written, eight pending, one of which
    may complete before those that were ended earlier. *)
Lemma pushes_never_overlap_witness :
  pb_reachable quiet_env (full_sys quiet_env) /\
  (forall u v m n, uses 0x10000 (full_sys quiet_env) u m -> uses 0x10000 (full_sys quiet_env) v n -> u <> v ->
     spans_disjoint m n)
  /\ is_Some (uvm_pushbuffer_mark_completed (ps_pb (full_sys quiet_env)) 20).
Proof.
  assert (pb_reachable quiet_env (full_sys quiet_env)) as Hr by (apply full_sys_reachable; vm_compute; reflexivity).
  destruct (pushes_never_overlap quiet_env 0x10000 (full_sys quiet_env) quiet_memory Hr) as (_ & Hd & _ & Hc).
  split_and!; [exact Hr|exact Hd|]. apply Hc. apply pending_in_yes; vm_compute; reflexivity.
Defined.

(** While push 24 waits, nothing happens in the first round; then the pushes of the
    last chunk complete, the second one first, one in each round. *)
Definition drain (k : nat) (pb : uvm_pushbuffer_t) : uvm_pushbuffer_t :=
  let g := nth k [1; 17; 16; 18; 19; 20; 21; 22; 23]%positive 1%positive in
  if pending_in pb g then default pb (uvm_pushbuffer_mark_completed pb g) else pb.

Definition draining_env : pb_env := mk_pb_env false 0x10000 0 drain (fun _ => NV_OK).

Lemma draining_memory : memory_ok draining_env 0x10000.
Proof. split_and!; try done. by exists 0x4000. Qed.

Lemma draining_others p : others_ok draining_env p.
Proof.
  intros k [pb begun] Hr. exists begun. cbn [others draining_env ps_pb]. unfold drain.
  set (g := nth _ _ _). destruct (pending_in pb g) eqn:Hg; [|done].
  pose proof (pb_reachable_inv _ _ _ draining_memory Hr) as Hinv. pose proof (inv_length _ _ Hinv) as Hl. cbn in Hl.
  pose proof (pending_in_yes pb g Hl Hg) as Hpend. pose proof Hpend as (i & c & Hi & Hc & Hgc).
  destruct (complete_inv _ pb begun g i c Hinv Hi Hc Hgc) as (pb' & c' & Hrun & _ & Hch & Hcur & _ & Hpu & _).
  rewrite Hrun. apply rtc_once. split_and!; [by eapply step_complete|cbn; by rewrite Hpu|].
  cbn. intros j d (Hj & Hd & Hp). destruct (decide (j = i)) as [->|Hne].
  - exists c. unfold get_chunk in Hd. rewrite Hch in Hd. fold (get_chunk (put_chunk pb i c') i) in Hd.
    rewrite get_put_eq in Hd by done. simplify_eq. split_and!; [done|done|congruence].
  - exists d. unfold get_chunk in Hd. rewrite Hch in Hd. fold (get_chunk (put_chunk pb i c') j) in Hd.
    rewrite get_put_ne in Hd by done. by split_and!.
Qed.

Lemma begin_push_gets_space_witness :
  uvm_pushbuffer_has_space (ps_pb (full_sys draining_env)) = false
  /\ exists pb' j d push', uvm_pushbuffer_begin_push draining_env 9 (ps_pb (full_sys draining_env)) 24 = Some (NV_OK, pb')
    /\ is_current pb' 24 j d /\ pushes pb' !! 24%positive = Some push'
    /\ push_begin push' = 0x10000 + j * UVM_PUSHBUFFER_CHUNK_SIZE + next_push_start d
    /\ push_next push' = push_begin push'.
Proof.
  split; [vm_compute; reflexivity|].
  apply (begin_push_gets_space draining_env 0x10000 (full_sys draining_env) 24 push_new 9 9 draining_memory
    (full_sys_reachable draining_env ltac:(vm_compute; reflexivity)) (draining_others 24)).
  - vm_compute. reflexivity.
  - reflexivity.
  - apply not_current_ok. vm_compute. reflexivity.
  - vm_compute. reflexivity.
  - reflexivity.
  - exists 15, (default (mk_chunk 0 [] None) (get_chunk (rounds draining_env 0 9 (entered (ps_pb (full_sys draining_env)))) 15)).
    split; [done|]. split; [apply from_some; vm_compute; reflexivity|]. split; vm_compute; reflexivity.
  - lia.
Defined.

(** ** An error while waiting for a chunk *)






