(* ===== verification/GpuSemaphore.v ===== *)
(** * Tracking semaphores

    Model of the tracking semaphores of kernel-open/nvidia-uvm/uvm_gpu_semaphore.{c,h}.
    The GPU releases a 32-bit payload after each push of a channel; the driver
    keeps a 64-bit count on top of it and has to notice every wrap-around of the
    payload.  Semaphores of secure pools (Confidential Computing), whose payload
    arrives encrypted, are not modelled; a function is one critical section of the
    semaphore's lock, and [None] is a failed assertion. *)

From S2P Require Import Prelude PageMask.

Definition UVM_CHANNEL_NUM_GPFIFO_ENTRIES_MAX : Z := 1024 * 1024.
Definition UVM_GPU_SEMAPHORE_MAX_JUMP : Z := 2 * UVM_CHANNEL_NUM_GPFIFO_ENTRIES_MAX.

(** [payload] is the memory of the semaphore, which the GPU writes. *)
Record uvm_gpu_tracking_semaphore_t := mk_tracking_sem {
  payload : Z;
  completed_value : Z;
  queued_value : Z;
}.

#[export] Instance eta_tracking_sem : Settable uvm_gpu_tracking_semaphore_t :=
  fun r => mk_tracking_sem (payload r) (completed_value r) (queued_value r).

(** After a semaphore was found in the pool; its payload is set to zero. *)
Definition uvm_gpu_tracking_semaphore_alloc : uvm_gpu_tracking_semaphore_t := mk_tracking_sem 0 0 0.

Definition update_completed_value_locked (s : uvm_gpu_tracking_semaphore_t)
    : option (Z * uvm_gpu_tracking_semaphore_t) :=
  let old_value := completed_value s in
  let old_sem_value := NvU32 old_value in
  let new_sem_value := payload s in
  if old_sem_value =? new_sem_value then Some (old_value, s)
  else
    let new_value := Z.lor (Z.land old_value 0xFFFFFFFF00000000) new_sem_value in
    let new_value := if new_sem_value <? old_sem_value then NvU64 (new_value + Z.shiftl 1 32) else new_value in
    UVM_ASSERT NvU64 (new_value - old_value) <=? UVM_GPU_SEMAPHORE_MAX_JUMP;
    Some (new_value, s <| completed_value := new_value |>).

Definition uvm_gpu_tracking_semaphore_update_completed_value (s : uvm_gpu_tracking_semaphore_t)
    : option (Z * uvm_gpu_tracking_semaphore_t) := update_completed_value_locked s.

Definition uvm_gpu_tracking_semaphore_is_value_completed (s : uvm_gpu_tracking_semaphore_t) (value : Z)
    : option (bool * uvm_gpu_tracking_semaphore_t) :=
  if value <=? completed_value s then Some (true, s)
  else
    r ← uvm_gpu_tracking_semaphore_update_completed_value s;
    let '(completed, s) := r in
    Some (value <=? completed, s).

Definition uvm_gpu_tracking_semaphore_is_completed (s : uvm_gpu_tracking_semaphore_t)
    : option (bool * uvm_gpu_tracking_semaphore_t) :=
  uvm_gpu_tracking_semaphore_is_value_completed s (queued_value s).

(** ** The count follows the payload

    [done] is the value the GPU released last. *)
Definition sem_tracks (s : uvm_gpu_tracking_semaphore_t) (done : Z) : Prop :=
  payload s = NvU32 done /\ in_width 64 done /\
  0 <= completed_value s <= done /\ done - completed_value s <= UVM_GPU_SEMAPHORE_MAX_JUMP.

Lemma high_bits x : in_width 64 x -> Z.land x 0xFFFFFFFF00000000 = x - NvU32 x.
Proof.
  intros Hx. unfold NvU32, wrap. rewrite Z.mod_eq, <- Z.shiftr_div_pow2, Z.mul_comm, <- Z.shiftl_mul_pow2 by lia.
  replace (x - (x - Z.shiftl (Z.shiftr x 32) 32)) with (Z.shiftl (Z.shiftr x 32) 32) by lia.
  rewrite <- Z.ldiff_ones_r by lia. apply Z.bits_inj'. intros n Hn. rewrite Z.ldiff_spec, Z.land_spec.
  destruct (decide (64 <= n)) as [Hge|Hlt].
  - rewrite (Z.bits_above_log2 x n); [done|unfold in_width in Hx; lia|].
    destruct (decide (x = 0)) as [->|]; [cbn; lia|]. apply Z.log2_lt_pow2; unfold in_width in Hx; [lia|].
    eapply Z.lt_le_trans; [apply Hx|]. apply Z.pow_le_mono_r; lia.
  - f_equal. change 0xFFFFFFFF00000000 with (Z.shiftl (Z.ones 32) 32). rewrite Z.shiftl_spec by done.
    destruct (decide (n < 32)).
    + rewrite Z.testbit_neg_r, Z.ones_spec_low by lia. done.
    + rewrite (Z.ones_spec_low _ (n - 32)), Z.ones_spec_high by lia. done.
Qed.

Lemma low_bits_lor a b : in_width 32 b -> Z.lor (a - NvU32 a) b = a - NvU32 a + b.
Proof.
  intros Hb. unfold NvU32, wrap. rewrite Z.mod_eq by lia.
  replace (a - (a - 2 ^ 32 * (a / 2 ^ 32))) with (Z.shiftl (a / 2 ^ 32) 32) by (rewrite Z.shiftl_mul_pow2; lia).
  rewrite <- Z.add_lor_land. replace (Z.land _ b) with 0; [lia|]. symmetry. apply Z.bits_inj'. intros n Hn.
  rewrite Z.land_spec, Z.bits_0, Z.shiftl_spec by done. destruct (decide (n < 32)).
  - by rewrite Z.testbit_neg_r by lia.
  - rewrite (Z.bits_above_log2 b n), andb_false_r; [done|unfold in_width in Hb; lia|].
    destruct (decide (b = 0)) as [->|]; [cbn; lia|]. apply Z.log2_lt_pow2; unfold in_width in Hb; [lia|].
    eapply Z.lt_le_trans; [apply Hb|]. apply Z.pow_le_mono_r; lia.
Qed.

(** The update finds the exact 64-bit value. *)
Lemma update_exact s done :
  sem_tracks s done -> update_completed_value_locked s = Some (done, s <| completed_value := done |>).
Proof.
  intros (Hp & Hd & Hc & Hj). unfold update_completed_value_locked. rewrite Hp.
  assert (in_width 64 (completed_value s)) as Hc64 by (unfold in_width in *; lia).
  pose proof (wrap_range 32 done ltac:(done)) as Hw. pose proof (wrap_range 32 (completed_value s) ltac:(done)) as Hw'.
  assert (done = 2 ^ 32 * (done / 2 ^ 32) + NvU32 done) as Ed by (apply Z.div_mod; done).
  assert (completed_value s = 2 ^ 32 * (completed_value s / 2 ^ 32) + NvU32 (completed_value s)) as Ec
    by (apply Z.div_mod; done).
  change (wrap 32 done) with (NvU32 done) in Hw. change (wrap 32 (completed_value s)) with (NvU32 (completed_value s)) in Hw'.
  rewrite (high_bits _ Hc64), low_bits_lor by done.
  set (a := done / 2 ^ 32) in *. set (b := completed_value s / 2 ^ 32) in *.
  unfold UVM_GPU_SEMAPHORE_MAX_JUMP, UVM_CHANNEL_NUM_GPFIFO_ENTRIES_MAX, in_width in *.
  destruct (_ =? _) eqn:E1.
  { assert (done = completed_value s) as Heq by nia. rewrite Heq. by destruct s. }
  assert ((if NvU32 done <? NvU32 (completed_value s)
     then NvU64 (completed_value s - NvU32 (completed_value s) + NvU32 done + Z.shiftl 1 32)
     else completed_value s - NvU32 (completed_value s) + NvU32 done) = done) as ->.
  { change (Z.shiftl 1 32) with (2 ^ 32). destruct (_ <? _) eqn:E2.
    - replace (completed_value s - NvU32 (completed_value s) + NvU32 done + 2 ^ 32) with done by nia.
      apply wrap_small. unfold in_width. lia.
    - nia. }
  unfold NvU64. rewrite wrap_small by (unfold in_width; lia).
  replace (done - completed_value s <=? _) with true by lia. done.
Qed.

Lemma is_value_completed_exact s done value :
  sem_tracks s done ->
  exists s', uvm_gpu_tracking_semaphore_is_value_completed s value = Some (value <=? done, s')
    /\ sem_tracks s' done /\ queued_value s' = queued_value s /\ completed_value s <= completed_value s'.
Proof.
  intros Hs. pose proof Hs as (Hp & Hd & Hc & Hj). unfold uvm_gpu_tracking_semaphore_is_value_completed.
  destruct (value <=? completed_value s) eqn:E.
  - exists s. replace (value <=? done) with true by lia. split_and!; done || lia.
  - unfold uvm_gpu_tracking_semaphore_update_completed_value. rewrite (update_exact s done Hs). cbn.
    eexists. split; [done|]. unfold sem_tracks, UVM_GPU_SEMAPHORE_MAX_JUMP, UVM_CHANNEL_NUM_GPFIFO_ENTRIES_MAX, in_width in *.
    cbn. split_and!; done || lia.
Qed.
