(* ===== verification/Channel.v ===== *)
(** * Channels and their GPFIFO rings

    Model of the GPFIFO rings of kernel-open/nvidia-uvm/uvm_channel.{c,h} without
    Confidential Computing.  A channel has a ring of GPFIFO entries: a user
    reserves entries, begins a push, and ends it, which fills the entry at
    [cpu_put] and hands it to the GPU; the GPU releases the channel's tracking
    semaphore when it is done, and [uvm_channel_update_progress] then reclaims
    entries from [gpu_get] on and returns their memory to the push buffer.

    A function is one critical section of the channel pool's lock, or a
    composition of them; what other threads and the GPU do while a thread waits
    is a list of calls from the environment.  Methods written to a push and the
    submission registers of the GPU are not modelled, except that the semaphore
    release that ends a push makes it longer, by a size the GPU's functions
    determine.  The callback of a push info is kept with the GPFIFO entry. *)

From S2P Require Import Prelude PageMask Pushbuffer GpuSemaphore.

Inductive uvm_channel_update_mode_t := UVM_CHANNEL_UPDATE_MODE_COMPLETED | UVM_CHANNEL_UPDATE_MODE_FORCE_ALL.
Inductive uvm_channel_reserve_type_t := UVM_CHANNEL_RESERVE_WITH_P2P | UVM_CHANNEL_RESERVE_NO_P2P.

(** [available_push_infos] lists indices of push infos. *)
Record uvm_channel_t := mk_channel {
  num_gpfifo_entries : Z;
  cpu_put : Z;
  gpu_get : Z;
  current_gpfifo_count : Z;
  available_push_infos : list Z;
  tracking_sem : uvm_gpu_tracking_semaphore_t;
  suspended_p2p : bool;
}.

#[export] Instance eta_channel : Settable uvm_channel_t :=
  fun r => mk_channel (num_gpfifo_entries r) (cpu_put r) (gpu_get r) (current_gpfifo_count r)
             (available_push_infos r) (tracking_sem r) (suspended_p2p r).

(** The channels of all pools share a push buffer. *)
Record uvm_channel_manager_t := mk_manager {
  pushbuffer : uvm_pushbuffer_t;
  channels : gmap channel_id uvm_channel_t;
}.

#[export] Instance eta_manager : Settable uvm_channel_manager_t :=
  fun r => mk_manager (pushbuffer r) (channels r).

(** The address of entry [i] of the array [gpfifo_entries] of channel [c]. *)
Definition gpfifo_at (c : channel_id) (i : Z) : gpfifo_id := encode (c, i).

(** What [channel_create] leaves when nothing fails. *)
Definition channel_create (num : Z) : uvm_channel_t :=
  mk_channel num 0 0 0 (seqZ 0 num) uvm_gpu_tracking_semaphore_alloc false.

(** ** Reserving entries *)
Definition channel_get_available_gpfifo_entries (ch : uvm_channel_t) : option Z :=
  let available := num_gpfifo_entries ch in
  let available := NvU32 (available - 1) in
  let available := NvU32 (available - current_gpfifo_count ch) in
  let available :=
    if gpu_get ch <=? cpu_put ch then NvU32 (available - NvU32 (cpu_put ch - gpu_get ch))
    else NvU32 (available - NvU32 (NvU32 (cpu_put ch + num_gpfifo_entries ch) - gpu_get ch)) in
  UVM_ASSERT available <? num_gpfifo_entries ch;
  Some available.

Definition try_claim_channel_locked (ch : uvm_channel_t) (n : Z) (reserve_type : uvm_channel_reserve_type_t)
    : option (bool * uvm_channel_t) :=
  UVM_ASSERT 0 <? n;
  UVM_ASSERT n <? num_gpfifo_entries ch;
  if (match reserve_type with UVM_CHANNEL_RESERVE_WITH_P2P => true | _ => false end) && suspended_p2p ch
  then Some (false, ch)
  else
    available ← channel_get_available_gpfifo_entries ch;
    if n <=? available
    then Some (true, ch <| current_gpfifo_count := NvU32 (current_gpfifo_count ch + n) |>)
    else Some (false, ch).

Definition put_channel (m : uvm_channel_manager_t) (c : channel_id) (ch : uvm_channel_t)
    : uvm_channel_manager_t := m <| channels := <[c := ch]> (channels m) |>.

Definition try_claim_channel (m : uvm_channel_manager_t) (c : channel_id) (n : Z)
    (reserve_type : uvm_channel_reserve_type_t) : option (bool * uvm_channel_manager_t) :=
  ch ← channels m !! c;
  r ← try_claim_channel_locked ch n reserve_type;
  Some (r.1, put_channel m c r.2).

Definition uvm_channel_release (m : uvm_channel_manager_t) (c : channel_id) (n : Z)
    : option uvm_channel_manager_t :=
  ch ← channels m !! c;
  UVM_ASSERT n <=? current_gpfifo_count ch;
  Some (put_channel m c (ch <| current_gpfifo_count := NvU32 (current_gpfifo_count ch - n) |>)).

(** ** Progress *)
Definition uvm_channel_update_completed_value (m : uvm_channel_manager_t) (c : channel_id)
    : option (Z * uvm_channel_manager_t) :=
  ch ← channels m !! c;
  r ← uvm_gpu_tracking_semaphore_update_completed_value (tracking_sem ch);
  Some (r.1, put_channel m c (ch <| tracking_sem := r.2 |>)).

Definition uvm_channel_is_value_completed (m : uvm_channel_manager_t) (c : channel_id) (value : Z)
    : option (bool * uvm_channel_manager_t) :=
  ch ← channels m !! c;
  r ← uvm_gpu_tracking_semaphore_is_value_completed (tracking_sem ch) value;
  Some (r.1, put_channel m c (ch <| tracking_sem := r.2 |>)).

(** The loop over the entries; [budget] is how many may still be completed. *)
Fixpoint progress_loop (budget : nat) (mode : uvm_channel_update_mode_t) (completed_value : Z)
    (m : uvm_channel_manager_t) (c : channel_id) (get put : Z) : option (Z * uvm_channel_manager_t) :=
  match budget with
  | O => Some (get, m)
  | S budget =>
      if get =? put then Some (get, m)
      else
        entry ← gpfifos (pushbuffer m) !! gpfifo_at c get;
        if (match mode with UVM_CHANNEL_UPDATE_MODE_COMPLETED => true | _ => false end)
           && (completed_value <? tracking_semaphore_value entry)
        then Some (get, m)
        else
          m ← (match gpfifo_type entry with
               | UVM_GPFIFO_ENTRY_TYPE_NORMAL =>
                   pb ← uvm_pushbuffer_mark_completed (pushbuffer m) (gpfifo_at c get);
                   let m := m <| pushbuffer := pb |> in
                   ch ← channels m !! c;
                   Some (put_channel m c (ch <| available_push_infos := available_push_infos ch ++ [push_info entry] |>))
               | UVM_GPFIFO_ENTRY_TYPE_CONTROL => Some m
               end);
          ch ← channels m !! c;
          progress_loop budget mode completed_value m c (NvU32 (get + 1) mod num_gpfifo_entries ch) put
  end.

(** The part under the pool's lock: the completed value was read before. *)
Definition update_progress_locked (m : uvm_channel_manager_t) (c : channel_id) (max_to_complete : nat)
    (mode : uvm_channel_update_mode_t) (completed_value : Z) : option (Z * uvm_channel_manager_t) :=
  ch ← channels m !! c;
  UVM_ASSERT completed_value <=? queued_value (tracking_sem ch);
  r ← progress_loop max_to_complete mode completed_value m c (gpu_get ch) (cpu_put ch);
  let '(get, m) := r in
  ch ← channels m !! c;
  let pending_gpfifos := if get <=? cpu_put ch then NvU32 (cpu_put ch - get)
                         else NvU32 (NvU32 (num_gpfifo_entries ch - get) + cpu_put ch) in
  Some (pending_gpfifos, put_channel m c (ch <| gpu_get := get |>)).

Definition uvm_channel_update_progress_with_max (m : uvm_channel_manager_t) (c : channel_id)
    (max_to_complete : nat) (mode : uvm_channel_update_mode_t) : option (Z * uvm_channel_manager_t) :=
  r ← uvm_channel_update_completed_value m c;
  let '(completed_value, m) := r in
  update_progress_locked m c max_to_complete mode completed_value.

Definition uvm_channel_update_progress (m : uvm_channel_manager_t) (c : channel_id)
    : option (Z * uvm_channel_manager_t) :=
  uvm_channel_update_progress_with_max m c 8 UVM_CHANNEL_UPDATE_MODE_COMPLETED.

Definition channel_update_progress_all (m : uvm_channel_manager_t) (c : channel_id)
    (mode : uvm_channel_update_mode_t) : option (Z * uvm_channel_manager_t) :=
  ch ← channels m !! c;
  uvm_channel_update_progress_with_max m c (Z.to_nat (num_gpfifo_entries ch)) mode.

(** ** Pushes *)
Definition channel_get_available_push_info_index (m : uvm_channel_manager_t) (c : channel_id)
    : option (Z * uvm_channel_manager_t) :=
  ch ← channels m !! c;
  match available_push_infos ch with
  | [] => None
  | info :: infos => Some (info, put_channel m c (ch <| available_push_infos := infos |>))
  end.

(** [release_size] is the size of the methods of the semaphore release. *)
Definition uvm_channel_end_push (E : pb_env) (m : uvm_channel_manager_t) (p : push_id) (release_size : Z)
    (callback : bool) : option uvm_channel_manager_t :=
  push ← pushes (pushbuffer m) !! p;
  let c := push_channel push in
  ch ← channels m !! c;
  let new_tracking_value := NvU64 (queued_value (tracking_sem ch) + 1) in
  let ch := ch <| tracking_sem := tracking_sem ch <| queued_value := new_tracking_value |> |> in
  let push := push <| push_next := push_next push + release_size |> in
  let pb := pushbuffer m <| pushes := <[p := push]> (pushes (pushbuffer m)) |> in
  let new_cpu_put := NvU32 (cpu_put ch + 1) mod num_gpfifo_entries ch in
  let entry := gpfifo_at c (cpu_put ch) in
  pb ← uvm_channel_end_push_entry E pb p entry callback new_tracking_value;
  UVM_ASSERT 0 <? current_gpfifo_count ch;
  let ch := ch <| current_gpfifo_count := current_gpfifo_count ch - 1 |> in
  let ch := ch <| cpu_put := new_cpu_put |> in
  pb ← uvm_pushbuffer_end_push pb p entry;
  let push := push <| push_info_index := num_gpfifo_entries ch |>
                   <| channel_tracking_value := new_tracking_value |> in
  let pb := pb <| pushes := <[p := push]> (pushes pb) |> in
  Some (put_channel (m <| pushbuffer := pb |>) c ch).

(** A control entry: its 64-bit value shares its memory with the offset and
    the size of a push. *)
Definition write_ctrl_gpfifo (m : uvm_channel_manager_t) (c : channel_id) (ctrl_fifo_entry_value : Z)
    : option uvm_channel_manager_t :=
  ch ← channels m !! c;
  let new_cpu_put := NvU32 (cpu_put ch + 1) mod num_gpfifo_entries ch in
  let entry := mk_gpfifo UVM_GPFIFO_ENTRY_TYPE_CONTROL (NvU32 ctrl_fifo_entry_value)
                 (NvU32 (Z.shiftr ctrl_fifo_entry_value 32)) false
                 (NvU64 (queued_value (tracking_sem ch) + 1)) 0 in
  let pb := pushbuffer m <| gpfifos := <[gpfifo_at c (cpu_put ch) := entry]> (gpfifos (pushbuffer m)) |> in
  UVM_ASSERT 1 <? current_gpfifo_count ch;
  let ch := ch <| current_gpfifo_count := current_gpfifo_count ch - 1 |> in
  Some (put_channel (m <| pushbuffer := pb |>) c (ch <| cpu_put := new_cpu_put |>)).

(** ** Waiting for entries *)

(** What others do while a thread waits: the GPU releases a payload, threads
    claim and release entries. *)
Inductive chan_call :=
| ChGpu (c : channel_id) (new_payload : Z)
| ChClaim (c : channel_id) (n : Z)
| ChRelease (c : channel_id) (n : Z).

(** What the hardware tells about a channel: the status of its error notifier
    (of the shadow notifier, for a proxy channel), and whether the GPU reports
    ECC errors and has one. *)
Record channel_notifiers := mk_notifiers {
  error_notifier_status : Z;
  ecc_enabled : bool;
  ecc_error_notifier : bool;
}.

Definition uvm_channel_get_status (n : channel_notifiers) : NV_STATUS :=
  if error_notifier_status n =? 0 then NV_OK
  else if ecc_enabled n && ecc_error_notifier n then NV_ERR_ECC_ERROR
  else NV_ERR_RC_ERROR.

(** The calls and the notifiers in each round. *)
Record chan_env := mk_chan_env {
  ch_others : nat -> list chan_call;
  ch_notifiers : nat -> channel_notifiers;
}.

Definition run_chan_call (m : uvm_channel_manager_t) (call : chan_call) : option uvm_channel_manager_t :=
  match call with
  | ChGpu c v =>
      ch ← channels m !! c;
      Some (put_channel m c (ch <| tracking_sem := tracking_sem ch <| payload := v |> |>))
  | ChClaim c n => r ← try_claim_channel m c n UVM_CHANNEL_RESERVE_NO_P2P; Some r.2
  | ChRelease c n => uvm_channel_release m c n
  end.

Fixpoint run_chan_calls (m : uvm_channel_manager_t) (calls : list chan_call) : option uvm_channel_manager_t :=
  match calls with
  | [] => Some m
  | call :: calls => m ← run_chan_call m call; run_chan_calls m calls
  end.

(** On an error the pending entries are updated to find the fatal one; the
    driver's fatal error state and the messages are not modelled. *)
Definition uvm_channel_check_errors (m : uvm_channel_manager_t) (c : channel_id) (status : NV_STATUS)
    : option (NV_STATUS * uvm_channel_manager_t) :=
  if status =? NV_OK then Some (NV_OK, m)
  else
    r ← channel_update_progress_all m c UVM_CHANNEL_UPDATE_MODE_COMPLETED;
    Some (status, r.2).

(** The loop of [uvm_channel_reserve]; the condition claims before it looks at
    the status. *)
Fixpoint reserve_loop (E : chan_env) (fuel i : nat) (m : uvm_channel_manager_t) (c : channel_id) (n : Z)
    (status : NV_STATUS) : option (NV_STATUS * uvm_channel_manager_t) :=
  match fuel with
  | O => None
  | S fuel =>
      r ← try_claim_channel m c n UVM_CHANNEL_RESERVE_NO_P2P;
      let '(claimed, m) := r in
      if negb claimed && (status =? NV_OK) then
        m ← run_chan_calls m (ch_others E i);
        r ← uvm_channel_check_errors m c (uvm_channel_get_status (ch_notifiers E i));
        let '(status, m) := r in
        r ← uvm_channel_update_progress m c;
        reserve_loop E fuel (S i) r.2 c n status
      else Some (status, m)
  end.

Definition uvm_channel_reserve (E : chan_env) (fuel : nat) (m : uvm_channel_manager_t) (c : channel_id) (n : Z)
    : option (NV_STATUS * uvm_channel_manager_t) :=
  r ← try_claim_channel m c n UVM_CHANNEL_RESERVE_NO_P2P;
  let '(claimed, m) := r in
  if claimed : bool then Some (NV_OK, m)
  else
    r ← uvm_channel_update_progress m c;
    reserve_loop E fuel 0 r.2 c n NV_OK.

(** ** Suspending peer-to-peer traffic *)
Definition channel_suspend_p2p (E : chan_env) (fuel : nat) (m : uvm_channel_manager_t) (c : channel_id)
    : option (NV_STATUS * uvm_channel_manager_t) :=
  ch ← channels m !! c;
  UVM_ASSERT negb (suspended_p2p ch);
  r ← uvm_channel_reserve E fuel m c (NvU32 (num_gpfifo_entries ch - 1));
  let '(status, m) := r in
  m ← (if status =? NV_OK
       then ch' ← channels m !! c; Some (put_channel m c (ch' <| suspended_p2p := true |>))
       else Some m);
  m ← uvm_channel_release m c (NvU32 (num_gpfifo_entries ch - 1));
  Some (status, m).

Definition channel_resume_p2p (m : uvm_channel_manager_t) (c : channel_id) : option uvm_channel_manager_t :=
  ch ← channels m !! c;
  UVM_ASSERT suspended_p2p ch;
  Some (put_channel m c (ch <| suspended_p2p := false |>)).
