(* ===== verification/ChannelSpec.v ===== *)
(** * Correctness of the channels

    The ring of a channel and the lists of the push buffer describe the same
    pending pushes.  [PushbufferLaws] is what the push buffer promises to its
    channels; the invariant of the channels is proved from these laws, and gives
    in return the conditions under which the push buffer works: an entry that is
    filled is not pending, and one that is completed is.  It also bounds how far
    the GPU can be ahead of the completed value, so that no wrap-around of the
    32-bit payload is missed. *)

From S2P Require Import Prelude PageMask RbTree GpuSemaphore Pushbuffer PushbufferSpec Channel.

(** ** What the push buffer promises *)
Definition push_fits (push push' : uvm_push_t) : Prop :=
  push_begin push' = push_begin push /\ channel_is_wlc push' = channel_is_wlc push
  /\ push_begin push' <= push_next push' <= push_begin push' + UVM_MAX_PUSH_SIZE
  /\ (4 | push_next push' - push_begin push').

Class PushbufferLaws (E : pb_env) (I : uvm_pushbuffer_t -> gset push_id -> Prop) := {
  law_local pb begun pb' begun' :
    I pb begun -> pb_local E (mk_pb_sys pb begun) (mk_pb_sys pb' begun') ->
    I pb' begun' /\ gpfifos pb' = gpfifos pb /\ (forall g, is_pending pb' g <-> is_pending pb g)
    /\ (forall p push, p ∈ begun -> pushes pb !! p = Some push ->
          p ∈ begun' /\ exists push', pushes pb' !! p = Some push' /\ push_channel push' = push_channel push);
  law_write pb begun p push push' :
    I pb begun -> p ∈ begun -> pushes pb !! p = Some push -> push_fits push push' ->
    I (pb <| pushes := <[p := push']> (pushes pb) |>) begun;
  law_gpfifo pb begun g e :
    I pb begun -> ~ is_pending pb g -> I (pb <| gpfifos := <[g := e]> (gpfifos pb) |>) begun;
  law_end pb begun p push g callback value :
    I pb begun -> p ∈ begun -> pushes pb !! p = Some push -> push_begin push < push_next push -> ~ is_pending pb g ->
    exists pb1 pb2 e, uvm_channel_end_push_entry E pb p g callback value = Some pb1
      /\ uvm_pushbuffer_end_push pb1 p g = Some pb2
      /\ (forall push', channel_is_wlc push' = channel_is_wlc push -> I (pb2 <| pushes := <[p := push']> (pushes pb2) |>) (begun ∖ {[p]}))
      /\ gpfifos pb2 = <[g := e]> (gpfifos pb) /\ pushes pb2 = pushes pb
      /\ gpfifo_type e = UVM_GPFIFO_ENTRY_TYPE_NORMAL /\ tracking_semaphore_value e = value
      /\ push_info e = push_info_index push
      /\ (forall h, is_pending pb2 h <-> h = g \/ is_pending pb h);
  law_complete pb begun g :
    I pb begun -> is_pending pb g ->
    exists pb', uvm_pushbuffer_mark_completed pb g = Some pb' /\ I pb' begun
      /\ pushes pb' = pushes pb /\ same_tracking pb pb' /\ (forall h, is_pending pb' h <-> is_pending pb h /\ h <> g);
  law_begun pb begun p push : I pb begun -> p ∈ begun -> pushes pb !! p = Some push -> push_fits push push;
}.

(** ** The push buffer keeps its promises *)
Lemma local_frame E base pb begun pb' begun' :
  pb_inv base (mk_pb_sys pb begun) -> pb_local E (mk_pb_sys pb begun) (mk_pb_sys pb' begun') ->
  gpfifos pb' = gpfifos pb /\ (forall g, is_pending pb' g <-> is_pending pb g)
  /\ (forall p push, p ∈ begun -> pushes pb !! p = Some push ->
        p ∈ begun' /\ exists push', pushes pb' !! p = Some push' /\ push_channel push' = push_channel push).
Proof.
  intros Hinv Hstep.
  inversion Hstep as [? ? p push Hno|? ? n|? ? p push chunk ? Hp Hw Hno Hrun|? ? p i c push addr Hcur Hnb Hp Hrun
    |? ? p push n Hb Hp Hn H4]; subst.
  - split_and!; [done|done|]. intros q push' Hq Hpush'. assert (q <> p) as Hne.
    { intros ->. destruct (inv_begun _ _ Hinv p Hq) as (i & c & _ & Hcur & _). by eapply Hno. }
    split; [set_solver|]. cbn. rewrite lookup_insert_ne by done. eauto.
  - split_and!; [done|done|]. eauto.
  - assert (gpfifos pb' = gpfifos pb /\ pushes pb' = pushes pb /\ forall g, is_pending pb' g <-> is_pending pb g)
      as (? & Hpu & ?); [|split_and!; [done|done|]; rewrite Hpu; by eauto].
    unfold try_claim_chunk in Hrun. pose proof (pick_chunk_spec _ _ Hinv) as Hpick. cbn in Hpick.
    destruct (pick_chunk pb) as [i|]; [|by simplify_eq]. destruct Hpick as [Hi _].
    destruct (get_chunk pb i) as [c|] eqn:Hc; [|done]. cbn [mbind option_bind] in Hrun.
    rewrite !clear_chunk_run in Hrun by done. cbn [mbind option_bind] in Hrun.
    rewrite !clear_chunk_run in Hrun by done. cbn [mbind option_bind] in Hrun. simplify_eq.
    split_and!; [done|done|]. intros g.
    rewrite (pending_put pb _ i c (c <| current_push := Some p |>) g) by (done || exact (inv_length _ _ Hinv)).
    cbn. split.
    + intros [Hg|(j & d & _ & Hj & Hd & Hg)]; [by exists i, c|by exists j, d].
    + intros (j & d & Hj & Hd & Hg). destruct (decide (j = i)) as [->|]; [left; congruence|right; by exists j, d].
  - split_and!; [done|done|]. intros q push' Hq Hpush'. split; [set_solver|]. cbn.
    rewrite lookup_insert_ne by (intros ->; done). eauto.
  - split_and!; [done|done|]. intros q push' Hq Hpush'. split; [done|]. cbn.
    destruct (decide (p = q)) as [->|]; [rewrite lookup_insert_eq|rewrite lookup_insert_ne by done]; simplify_eq; eauto.
Qed.

Lemma inv_set_gpfifo base pb begun g e :
  pb_inv base (mk_pb_sys pb begun) -> ~ is_pending pb g ->
  pb_inv base (mk_pb_sys (pb <| gpfifos := <[g := e]> (gpfifos pb) |>) begun).
Proof.
  intros [Hl Hch Hcur Hpu Hbe] Hg. split; cbn in *; try done.
  intros i c Hi Hc. destruct (Hch i c Hi Hc) as [q Hq]. exists q.
  eapply chunk_inv_ext; [exact Hq| |done|done]. apply Forall_forall. intros x Hx k (ex & Hex & Hrest).
  exists ex. cbn. rewrite lookup_insert_ne; [done|]. intros ->. apply Hg. exists i, c. split_and!; [done|done|].
  rewrite (po_pending _ _ _ _ (ci_pending _ _ _ _ Hq)). apply list_elem_of_fmap. eauto.
Qed.

Lemma end_entry_form E pb p push g callback value pb1 :
  uvm_channel_end_push_entry E pb p g callback value = Some pb1 -> pushes pb !! p = Some push ->
  exists e, pb1 = pb <| gpfifos := <[g := e]> (gpfifos pb) |>
    /\ gpfifo_type e = UVM_GPFIFO_ENTRY_TYPE_NORMAL /\ tracking_semaphore_value e = value
    /\ push_info e = push_info_index push.
Proof.
  unfold uvm_channel_end_push_entry. intros H Hp. rewrite Hp in H. cbn [mbind option_bind] in H.
  destruct (_ <=? _); [|done]. destruct (uvm_pushbuffer_get_offset_for_push _ _) as [off|]; [|done].
  cbn [mbind option_bind] in H. destruct (if conf_computing_enabled E then _ else _) as [size|]; [|done].
  cbn [mbind option_bind] in H. simplify_eq. by eexists.
Qed.

#[export] Instance pushbuffer_laws E base :
  memory_ok E base -> PushbufferLaws E (fun pb begun => pb_inv base (mk_pb_sys pb begun)).
Proof.
  intros Hmem. split.
  - intros pb begun pb' begun' Hinv Hstep. split; [by eapply local_inv|]. by eapply local_frame.
  - intros pb begun p push push' Hinv Hp Hpush (Hb & Hw & Hn & H4).
    destruct (inv_begun _ _ Hinv p Hp) as (i & c & r & Hcur & Hr & Hbegin & _). cbn in *. simplify_eq.
    eapply inv_set_push; [exact Hinv|right; by split|set_solver|].
    intros _. exists i, c, push'. split; [exact Hcur|]. cbn. rewrite lookup_insert_eq. split_and!; try done; try congruence; lia.
  - intros pb begun g e Hinv Hg. by apply inv_set_gpfifo.
  - intros pb begun p push g callback value Hinv Hp Hpush Hlt Hg.
    destruct (end_inv E base pb begun p push g callback value Hmem Hinv Hp Hpush Hlt Hg)
      as (pb1 & pb2 & H1 & H2 & Hinv2 & Hgp & Hpu & Hpend).
    destruct (end_entry_form _ _ _ _ _ _ _ _ H1 Hpush) as (e & -> & Ht & Hv & Hi). cbn in Hgp, Hpu.
    exists (pb <| gpfifos := <[g := e]> (gpfifos pb) |>), pb2, e. split_and!; try done.
    intros push' Hw. eapply inv_set_push; [exact Hinv2| |set_solver|set_solver]. right. rewrite Hpu. by split.
  - intros pb begun g Hinv Hg. by apply complete_pending.
  - intros pb begun p push Hinv Hp Hpush.
    destruct (inv_begun _ _ Hinv p Hp) as (i & c & r & Hcur & Hr & Hbegin & Hn & H4). cbn in *. simplify_eq.
    unfold push_fits. split_and!; done || lia.
Qed.

(** ** Rings *)

(** What a channel keeps in an entry: type, tracking value, push info. *)
Notation tracked := (uvm_gpfifo_entry_type_t * Z * Z)%type.
Definition tracked_of (e : uvm_gpfifo_entry_t) : tracked :=
  (gpfifo_type e, tracking_semaphore_value e, push_info e).
Definition is_normal (x : tracked) : bool :=
  match x.1.1 with UVM_GPFIFO_ENTRY_TYPE_NORMAL => true | UVM_GPFIFO_ENTRY_TYPE_CONTROL => false end.
Fixpoint normals (es : list tracked) : Z :=
  match es with
  | [] => 0
  | x :: es => (if is_normal x then 1 else 0) + normals es
  end.

(** The index of the [j]-th pending entry. *)
Definition slot (ch : uvm_channel_t) (j : nat) : Z := (gpu_get ch + Z.of_nat j) mod num_gpfifo_entries ch.

(** The tracking values of the pending entries: each push has the next value, a
    control entry that of the push that follows it. *)
Fixpoint values (v : Z) (es : list tracked) (queued : Z) : Prop :=
  match es with
  | [] => v = queued
  | x :: es => x.1.2 = v + 1 /\ values (if is_normal x then v + 1 else v) es queued
  end.

(** [done] is the value that the GPU released last, [es] the pending entries. *)
Record ring_ok (pb : uvm_pushbuffer_t) (c : channel_id) (ch : uvm_channel_t) (done : Z) (es : list tracked)
    : Prop := {
  ro_num : 2 <= num_gpfifo_entries ch <= UVM_CHANNEL_NUM_GPFIFO_ENTRIES_MAX;
  ro_get : 0 <= gpu_get ch < num_gpfifo_entries ch;
  ro_put : cpu_put ch = slot ch (length es);
  ro_room : 0 <= current_gpfifo_count ch <= num_gpfifo_entries ch - 1 - Z.of_nat (length es);
  ro_entries j x : es !! j = Some x -> tracked_of <$> gpfifos pb !! gpfifo_at c (slot ch j) = Some x;
  ro_values : exists v, values v es (queued_value (tracking_sem ch)) /\ v <= completed_value (tracking_sem ch);
  ro_done : 0 <= completed_value (tracking_sem ch) <= done /\ done <= queued_value (tracking_sem ch);
  ro_width : in_width 64 (queued_value (tracking_sem ch));
  ro_payload : payload (tracking_sem ch) = NvU32 done;
}.

(** The GPFIFO entries of the pushes among [es]. *)
Definition owns (c : channel_id) (ch : uvm_channel_t) (es : list tracked) (g : gpfifo_id) : Prop :=
  exists j x, es !! j = Some x /\ is_normal x = true /\ g = gpfifo_at c (slot ch j).

(** The pushes of channel [c] that have a push info. *)
Definition held (c : channel_id) (ready : gmap push_id channel_id) : Z :=
  Z.of_nat (size (filter (fun kv => kv.2 = c) ready)).

Record infos_ok (ready : gmap push_id channel_id) (c : channel_id) (ch : uvm_channel_t) (es : list tracked)
    : Prop := {
  io_count : Z.of_nat (length (available_push_infos ch)) + normals es + held c ready = num_gpfifo_entries ch;
  io_held : held c ready <= current_gpfifo_count ch;
}.

(** Entries keep what the channels read. *)
Definition keeps_tracked (pb pb' : uvm_pushbuffer_t) (g : gpfifo_id) : Prop :=
  forall x, tracked_of <$> gpfifos pb !! g = Some x -> tracked_of <$> gpfifos pb' !! g = Some x.

Lemma gpfifo_at_inj c c' i i' : gpfifo_at c i = gpfifo_at c' i' -> c = c' /\ i = i'.
Proof. unfold gpfifo_at. intros H%(inj encode). by simplify_eq. Qed.

Lemma slot_range ch j : 0 < num_gpfifo_entries ch -> 0 <= slot ch j < num_gpfifo_entries ch.
Proof. intros. by apply Z.mod_pos_bound. Qed.

Lemma slot_inj ch j k :
  Z.of_nat j < num_gpfifo_entries ch -> Z.of_nat k < num_gpfifo_entries ch -> slot ch j = slot ch k -> j = k.
Proof.
  unfold slot. set (n := num_gpfifo_entries ch). intros Hj Hk E.
  pose proof (Z.div_mod (gpu_get ch + Z.of_nat j) n ltac:(lia)) as E1.
  pose proof (Z.div_mod (gpu_get ch + Z.of_nat k) n ltac:(lia)) as E2. rewrite E in E1.
  set (a := (gpu_get ch + Z.of_nat j) / n) in *. set (b := (gpu_get ch + Z.of_nat k) / n) in *.
  assert (Z.of_nat j - Z.of_nat k = n * (a - b)) as E3 by lia.
  assert (a = b) by nia. lia.
Qed.

(** The slot after the last pending entry, and the view from the next entry on. *)
Lemma slot_next ch j :
  2 <= num_gpfifo_entries ch <= UVM_CHANNEL_NUM_GPFIFO_ENTRIES_MAX ->
  NvU32 (slot ch j + 1) mod num_gpfifo_entries ch = slot ch (S j).
Proof.
  intros Hn. pose proof (slot_range ch j ltac:(lia)) as Hs.
  unfold NvU32. rewrite wrap_small by (unfold in_width, UVM_CHANNEL_NUM_GPFIFO_ENTRIES_MAX in *; lia).
  unfold slot. rewrite Z.add_mod_idemp_l by lia. f_equal. lia.
Qed.

Lemma slot_advance ch j : 0 < num_gpfifo_entries ch -> slot (ch <| gpu_get := slot ch 1 |>) j = slot ch (S j).
Proof. intros. unfold slot. cbn. rewrite Z.add_mod_idemp_l by lia. f_equal. lia. Qed.

Lemma slot_0 ch : 0 <= gpu_get ch < num_gpfifo_entries ch -> slot ch 0 = gpu_get ch.
Proof. intros. unfold slot. rewrite Z.add_0_r. by apply Z.mod_small. Qed.

Lemma values_bound v es q : values v es q -> q = v + normals es.
Proof.
  revert v. induction es as [|x es IH]; intros v; cbn; [lia|].
  intros [_ H]. apply IH in H. rewrite H. destruct (is_normal x); lia.
Qed.

Lemma values_snoc v es q x :
  values v es q -> x.1.2 = q + 1 -> values v (es ++ [x]) (if is_normal x then q + 1 else q).
Proof.
  revert v. induction es as [|y es IH]; intros v; cbn.
  - intros -> ->. split; [done|]. by destruct (is_normal x).
  - intros [? H] Hx. split; [done|]. by apply IH.
Qed.

Lemma normals_snoc es x : normals (es ++ [x]) = normals es + (if is_normal x then 1 else 0).
Proof. induction es as [|y es IH]; cbn; [lia|]. rewrite IH. lia. Qed.

Lemma normals_le es : 0 <= normals es <= Z.of_nat (length es).
Proof. induction es as [|x es IH]; cbn; [lia|]. destruct (is_normal x); lia. Qed.

(** The GPU is at most a ring ahead of the completed value. *)
Lemma ring_tracks pb c ch done es : ring_ok pb c ch done es -> sem_tracks (tracking_sem ch) done.
Proof.
  intros [Hn _ _ Hroom _ (v & Hv & Hle) [Hd1 Hd2] Hw Hp]. apply values_bound in Hv. pose proof (normals_le es).
  unfold sem_tracks, UVM_GPU_SEMAPHORE_MAX_JUMP, UVM_CHANNEL_NUM_GPFIFO_ENTRIES_MAX, in_width in *. split_and!; done || lia.
Qed.

(** The number of pending entries, as the code computes it. *)
Lemma ring_pending pb c ch done es :
  ring_ok pb c ch done es ->
  (if gpu_get ch <=? cpu_put ch then NvU32 (cpu_put ch - gpu_get ch)
   else NvU32 (NvU32 (cpu_put ch + num_gpfifo_entries ch) - gpu_get ch)) = Z.of_nat (length es)
  /\ (if gpu_get ch <=? cpu_put ch then NvU32 (cpu_put ch - gpu_get ch)
      else NvU32 (NvU32 (num_gpfifo_entries ch - gpu_get ch) + cpu_put ch)) = Z.of_nat (length es).
Proof.
  intros [Hn Hg Hput Hroom _ _ _ _ _]. unfold slot in Hput. set (n := num_gpfifo_entries ch) in *.
  set (k := Z.of_nat (length es)) in *. assert (0 <= k) by lia.
  assert (cpu_put ch = if gpu_get ch + k <? n then gpu_get ch + k else gpu_get ch + k - n) as Ep.
  { rewrite Hput. destruct (_ <? _) eqn:E; [apply Z.mod_small; lia|].
    symmetry. apply (Z.mod_unique_pos _ _ 1); lia. }
  unfold NvU32, wrap, UVM_CHANNEL_NUM_GPFIFO_ENTRIES_MAX in *. rewrite Ep.
  destruct (gpu_get ch + k <? n) eqn:E.
  - replace (gpu_get ch <=? gpu_get ch + k) with true by lia. rewrite Z.mod_small by lia. lia.
  - replace (gpu_get ch <=? gpu_get ch + k - n) with false by lia.
    rewrite (Z.mod_small (gpu_get ch + k - n + n)), (Z.mod_small (n - gpu_get ch)) by lia.
    rewrite !Z.mod_small by lia. lia.
Qed.

Lemma available_run pb c ch done es :
  ring_ok pb c ch done es ->
  channel_get_available_gpfifo_entries ch
    = Some (num_gpfifo_entries ch - 1 - current_gpfifo_count ch - Z.of_nat (length es)).
Proof.
  intros Hr. destruct (ring_pending _ _ _ _ _ Hr) as [Hk _]. destruct Hr as [Hn _ _ Hroom _ _ _ _ _].
  unfold channel_get_available_gpfifo_entries.
  set (n := num_gpfifo_entries ch) in *. set (k := Z.of_nat (length es)) in *.
  unfold UVM_CHANNEL_NUM_GPFIFO_ENTRIES_MAX in *. assert (0 <= k) by lia.
  assert (NvU32 (n - 1) = n - 1) as -> by (apply wrap_small; unfold in_width; lia).
  assert (NvU32 (n - 1 - current_gpfifo_count ch) = n - 1 - current_gpfifo_count ch) as ->
    by (apply wrap_small; unfold in_width; lia).
  assert (forall x, x = k -> NvU32 (n - 1 - current_gpfifo_count ch - x) = n - 1 - current_gpfifo_count ch - k) as Hw.
  { intros x ->. apply wrap_small. unfold in_width. lia. }
  destruct (gpu_get ch <=? cpu_put ch); rewrite Hw by exact Hk;
    by replace (_ <? n) with true by lia.
Qed.

Lemma ring_ok_sem pb c ch done es sem done' :
  ring_ok pb c ch done es -> queued_value sem = queued_value (tracking_sem ch) -> payload sem = NvU32 done' ->
  completed_value (tracking_sem ch) <= completed_value sem <= done' -> done' <= queued_value (tracking_sem ch) ->
  ring_ok pb c (ch <| tracking_sem := sem |>) done' es.
Proof.
  intros [? ? ? ? ? (v & Hv & ?) [? ?] ? ?] Hq Hp Hc Hd. split; cbn; rewrite ?Hq; try done; [|lia].
  exists v. split; [done|lia].
Qed.

(** Filling the entry at [cpu_put]. *)
Definition filled (ch : uvm_channel_t) (queued : Z) : uvm_channel_t :=
  ch <| tracking_sem := tracking_sem ch <| queued_value := queued |> |>
     <| current_gpfifo_count := current_gpfifo_count ch - 1 |>
     <| cpu_put := NvU32 (cpu_put ch + 1) mod num_gpfifo_entries ch |>.

Lemma ring_snoc pb pb' c ch done es x queued :
  ring_ok pb c ch done es -> 0 < current_gpfifo_count ch ->
  tracked_of <$> gpfifos pb' !! gpfifo_at c (cpu_put ch) = Some x ->
  (forall i, i <> cpu_put ch -> gpfifos pb' !! gpfifo_at c i = gpfifos pb !! gpfifo_at c i) ->
  x.1.2 = queued_value (tracking_sem ch) + 1 ->
  queued = (if is_normal x then queued_value (tracking_sem ch) + 1 else queued_value (tracking_sem ch)) ->
  in_width 64 queued ->
  ring_ok pb' c (filled ch queued) done (es ++ [x]).
Proof.
  intros [Hn Hg Hput Hroom He (v & Hv & Hvc) Hd Hw Hp] Hcur Hx Hsame Hval Hq Hw'. split; cbn; try done.
  - rewrite length_app, Nat.add_1_r. change (slot (filled ch queued)) with (slot ch). rewrite Hput. by apply slot_next.
  - rewrite length_app. cbn. lia.
  - intros j y Hy. change (slot (filled ch queued) j) with (slot ch j).
    apply lookup_app_Some in Hy as [Hy|[Hj [Hj' ->]%list_lookup_singleton_Some]].
    + pose proof (lookup_lt_Some _ _ _ Hy) as Hlt. rewrite Hsame; [by apply He|]. rewrite Hput.
      intros E%slot_inj; lia.
    + replace j with (length es) by lia. by rewrite <- Hput.
  - exists v. split; [|done]. rewrite Hq. by apply values_snoc.
  - destruct (is_normal x); lia.
Qed.

Lemma owns_snoc c ch es x queued g :
  cpu_put ch = slot ch (length es) ->
  owns c (filled ch queued) (es ++ [x]) g <-> owns c ch es g \/ (is_normal x = true /\ g = gpfifo_at c (cpu_put ch)).
Proof.
  intros Hput. unfold owns. change (slot (filled ch queued)) with (slot ch). split.
  - intros (j & y & Hy & Hnorm & ->). apply lookup_app_Some in Hy as [Hy|[Hj [Hj' ->]%list_lookup_singleton_Some]].
    + left. eauto.
    + right. split; [done|]. rewrite Hput. do 2 f_equal. lia.
  - intros [(j & y & Hy & Hnorm & ->)|[Hnorm ->]].
    + exists j, y. split_and!; try done. by apply lookup_app_l_Some.
    + exists (length es), x. split_and!; [|done|by rewrite Hput].
      by rewrite lookup_app_r, Nat.sub_diag by lia.
Qed.

Lemma owns_fresh pb c ch done es : ring_ok pb c ch done es -> ~ owns c ch es (gpfifo_at c (cpu_put ch)).
Proof.
  intros [Hn _ Hput Hroom _ _ _ _ _] (j & x & Hx & _ & [_ Hj]%gpfifo_at_inj).
  pose proof (lookup_lt_Some _ _ _ Hx). rewrite Hput in Hj. apply slot_inj in Hj; lia.
Qed.

(** Reclaiming the entry at [gpu_get]. *)
Definition popped (ch : uvm_channel_t) (infos : list Z) : uvm_channel_t :=
  ch <| available_push_infos := infos |> <| gpu_get := slot ch 1 |>.

Lemma slot_popped ch infos j : 0 < num_gpfifo_entries ch -> slot (popped ch infos) j = slot ch (S j).
Proof. exact (slot_advance ch j). Qed.

Lemma ring_pop pb pb' c ch done x es infos :
  ring_ok pb c ch done (x :: es) -> x.1.2 <= completed_value (tracking_sem ch) ->
  (forall i, keeps_tracked pb pb' (gpfifo_at c i)) -> ring_ok pb' c (popped ch infos) done es.
Proof.
  intros [Hn Hg Hput Hroom He (v & Hv & Hvc) Hd Hw Hp] Hx Hkeep.
  assert (forall j, slot (popped ch infos) j = slot ch (S j)) as Hslot by (intros; apply slot_popped; lia).
  split; rewrite ?Hslot; try done.
  - exact (slot_range ch 1 ltac:(lia)).
  - cbn in *. lia.
  - intros j y Hy. rewrite Hslot. by apply Hkeep, (He (S j)).
  - cbn in Hv. destruct Hv as [Hx1 Hv]. eexists. split; [exact Hv|]. cbn. destruct (is_normal x); lia.
Qed.

Lemma owns_pop pb c ch done x es infos g :
  ring_ok pb c ch done (x :: es) ->
  (owns c ch (x :: es) g <-> (is_normal x = true /\ g = gpfifo_at c (gpu_get ch)) \/ owns c (popped ch infos) es g)
  /\ ~ owns c (popped ch infos) es (gpfifo_at c (gpu_get ch)).
Proof.
  intros [Hn Hg Hput Hroom _ _ _ _ _]. cbn in Hroom. unfold owns. split; [split|].
  - intros ([|j] & y & Hy & Hnorm & ->).
    + left. cbn in Hy. simplify_eq. by rewrite slot_0.
    + right. exists j, y. rewrite slot_popped by lia. by split_and!.
  - intros [[Hnorm ->]|(j & y & Hy & Hnorm & ->)].
    + exists 0%nat, x. by rewrite slot_0.
    + exists (S j), y. rewrite slot_popped by lia. by split_and!.
  - intros (j & y & Hy & _ & [_ Hj]%gpfifo_at_inj). apply lookup_lt_Some in Hy.
    rewrite slot_popped, <- (slot_0 ch) in Hj by lia. apply slot_inj in Hj; lia.
Qed.

(** ** The system *)
Record chan_sys := mk_chan_sys {
  cs_manager : uvm_channel_manager_t;
  cs_begun : gset push_id;
  cs_ready : gmap push_id channel_id;
  cs_done : gmap channel_id Z;
}.

Section channels.
Context (E : pb_env) (I : uvm_pushbuffer_t -> gset push_id -> Prop) `{Hlaws : !PushbufferLaws E I}.

Record sys_inv (s : chan_sys) (rings : gmap channel_id (list tracked)) : Prop := {
  si_pb : I (pushbuffer (cs_manager s)) (cs_begun s);
  si_chan c ch : channels (cs_manager s) !! c = Some ch ->
    exists es done, rings !! c = Some es /\ cs_done s !! c = Some done
      /\ ring_ok (pushbuffer (cs_manager s)) c ch done es /\ infos_ok (cs_ready s) c ch es;
  si_pending g : is_pending (pushbuffer (cs_manager s)) g <->
    exists c ch es, channels (cs_manager s) !! c = Some ch /\ rings !! c = Some es /\ owns c ch es g;
  si_ready p c : cs_ready s !! p = Some c ->
    p ∈ cs_begun s /\ is_Some (channels (cs_manager s) !! c)
    /\ exists push, pushes (pushbuffer (cs_manager s)) !! p = Some push /\ push_channel push = c;
}.

Lemma ring_ok_keep pb pb' c ch done es :
  ring_ok pb c ch done es -> (forall j, keeps_tracked pb pb' (gpfifo_at c (slot ch j))) -> ring_ok pb' c ch done es.
Proof. intros [? ? ? ? He ? ? ? ?] Hk. split; try done. intros j x Hx. by apply Hk, He. Qed.

(** What a change of channel [c] leaves to show. *)
Lemma sys_put m begun ready done rings c ch pb' begun' ready' ch' done' es' :
  sys_inv (mk_chan_sys m begun ready done) rings -> channels m !! c = Some ch -> I pb' begun' ->
  (forall c' i, c' <> c -> keeps_tracked (pushbuffer m) pb' (gpfifo_at c' i)) ->
  ring_ok pb' c ch' done' es' -> infos_ok ready' c ch' es' ->
  (forall c', c' <> c -> held c' ready' = held c' ready) ->
  (forall g, is_pending pb' g <-> owns c ch' es' g \/ (is_pending (pushbuffer m) g /\ forall i, g <> gpfifo_at c i)) ->
  (forall p c', ready' !! p = Some c' -> p ∈ begun' /\ is_Some (channels m !! c')
     /\ exists push, pushes pb' !! p = Some push /\ push_channel push = c') ->
  sys_inv (mk_chan_sys (mk_manager pb' (<[c := ch']> (channels m))) begun' ready' (<[c := done']> done))
    (<[c := es']> rings).
Proof.
  intros [_ Hchan Hpend _] Hc HI Hkeep Hring Hinfos Hheld Hpend' Hready. cbn in *. split; cbn.
  - done.
  - intros c' ch0 Hc'. destruct (decide (c = c')) as [<-|Hne].
    + rewrite lookup_insert_eq in Hc'. simplify_eq. exists es', done'. by rewrite !lookup_insert_eq.
    + rewrite lookup_insert_ne in Hc' by done. rewrite !lookup_insert_ne by done. destruct (Hchan c' ch0 Hc') as (es & d & ? & ? & Hr & [Hi1 Hi2]).
      exists es, d. split_and!; try done; [by eapply ring_ok_keep; [exact Hr|intros; by apply Hkeep]|].
      split; by rewrite Hheld.
  - intros g. rewrite Hpend'. split.
    + intros [Ho|[Hg Hne]]; [exists c, ch', es'; by rewrite !lookup_insert_eq|].
      apply Hpend in Hg as (c' & ch0 & es & Hc' & Hes & Ho). destruct (decide (c = c')) as [<-|].
      * destruct Ho as (j & x & _ & _ & ->). by destruct (Hne (slot ch0 j)).
      * exists c', ch0, es. by rewrite !lookup_insert_ne.
    + intros (c' & ch0 & es & Hc' & Hes & Ho). destruct (decide (c = c')) as [<-|].
      * rewrite lookup_insert_eq in Hc'. rewrite lookup_insert_eq in Hes. simplify_eq. by left.
      * rewrite lookup_insert_ne in Hc' by done. rewrite lookup_insert_ne in Hes by done. right. split; [apply Hpend; eauto 10|].
        intros i ->. destruct Ho as (j & x & _ & _ & Hx). by apply gpfifo_at_inj in Hx as [? _].
  - intros p c' Hp. destruct (Hready p c' Hp) as (? & Hc' & ?). split_and!; [done| |done].
    destruct (decide (c = c')) as [<-|]; [by rewrite lookup_insert_eq|by rewrite lookup_insert_ne].
Qed.

(** Steps of the push buffer alone. *)
Lemma sys_local m begun ready done rings pb' begun' :
  sys_inv (mk_chan_sys m begun ready done) rings ->
  pb_local E (mk_pb_sys (pushbuffer m) begun) (mk_pb_sys pb' begun') ->
  sys_inv (mk_chan_sys (m <| pushbuffer := pb' |>) begun' ready done) rings.
Proof.
  intros [HI Hchan Hpend Hready] Hstep. cbn in *.
  destruct (law_local _ _ _ _ HI Hstep) as (HI' & Hgp & Hp & Hpu). split; cbn.
  - done.
  - intros c ch Hc. destruct (Hchan c ch Hc) as (es & d & ? & ? & Hr & ?). exists es, d. split_and!; try done.
    eapply ring_ok_keep; [exact Hr|]. intros j x. by rewrite Hgp.
  - intros g. by rewrite Hp.
  - intros p c Hc. destruct (Hready p c Hc) as (Hb & ? & push & Hpush & ?).
    destruct (Hpu p push Hb Hpush) as (? & push' & ? & ?). split_and!; [done|done|]. exists push'. split; [done|congruence].
Qed.

Lemma sys_get s rings c ch :
  sys_inv s rings -> channels (cs_manager s) !! c = Some ch ->
  exists es done, rings !! c = Some es /\ cs_done s !! c = Some done
    /\ ring_ok (pushbuffer (cs_manager s)) c ch done es /\ infos_ok (cs_ready s) c ch es.
Proof. intros Hs Hc. exact (si_chan _ _ Hs c ch Hc). Qed.

(** The pending pushes seen from channel [c]. *)
Lemma pending_split s rings c ch es g :
  sys_inv s rings -> channels (cs_manager s) !! c = Some ch -> rings !! c = Some es ->
  is_pending (pushbuffer (cs_manager s)) g <->
    owns c ch es g \/ (is_pending (pushbuffer (cs_manager s)) g /\ forall i, g <> gpfifo_at c i).
Proof.
  intros Hs Hc Hes. split.
  - intros Hg. apply (si_pending _ _ Hs) in Hg as Hg'. destruct Hg' as (c' & ch' & es' & Hc' & Hes' & Ho).
    destruct (decide (c = c')) as [<-|Hne]; [left; congruence|]. right. split; [done|].
    intros i ->. destruct Ho as (j & x & _ & _ & Hx). by apply gpfifo_at_inj in Hx as [? _].
  - intros [Ho|[? _]]; [|done]. apply (si_pending _ _ Hs). eauto 10.
Qed.

(** Steps that leave the entries and the push buffer alone. *)
Lemma sys_set m begun ready done rings c ch ch' done' es :
  sys_inv (mk_chan_sys m begun ready done) rings -> channels m !! c = Some ch -> rings !! c = Some es ->
  num_gpfifo_entries ch' = num_gpfifo_entries ch -> gpu_get ch' = gpu_get ch ->
  ring_ok (pushbuffer m) c ch' done' es -> infos_ok ready c ch' es ->
  sys_inv (mk_chan_sys (put_channel m c ch') begun ready (<[c := done']> done)) rings.
Proof.
  intros Hs Hc Hes Hn Hg Hr Hi.
  assert (rings = <[c := es]> rings) as E1 by (symmetry; by apply insert_id). rewrite E1.
  apply (sys_put m begun ready done rings c ch); try done;
    [exact (si_pb _ _ Hs)|by intros ? ? ? ?| |exact (si_ready _ _ Hs)].
  intros g. etransitivity; [exact (pending_split _ _ c ch es g Hs Hc Hes)|]. cbn.
  assert (owns c ch' es g <-> owns c ch es g) by (unfold owns, slot; by rewrite Hn, Hg). tauto.
Qed.

Lemma sys_set_same m begun ready done rings c ch ch' es d :
  sys_inv (mk_chan_sys m begun ready done) rings -> channels m !! c = Some ch -> rings !! c = Some es ->
  done !! c = Some d -> num_gpfifo_entries ch' = num_gpfifo_entries ch -> gpu_get ch' = gpu_get ch ->
  ring_ok (pushbuffer m) c ch' d es -> infos_ok ready c ch' es ->
  sys_inv (mk_chan_sys (put_channel m c ch') begun ready done) rings.
Proof.
  intros Hs Hc Hes Hd Hn Hg Hr Hi. rewrite <- (insert_id done c d Hd). by eapply sys_set.
Qed.

(** Claiming and releasing entries. *)
Lemma claim_run s rings c ch n ty :
  sys_inv s rings -> channels (cs_manager s) !! c = Some ch -> 0 < n < num_gpfifo_entries ch ->
  exists b m', try_claim_channel (cs_manager s) c n ty = Some (b, m')
    /\ sys_inv (mk_chan_sys m' (cs_begun s) (cs_ready s) (cs_done s)) rings.
Proof.
  destruct s as [m begun ready done]. intros Hs Hc Hn.
  destruct (sys_get _ _ c ch Hs Hc) as (es & d & Hes & Hd & Hr & [Hi1 Hi2]). cbn in *.
  unfold try_claim_channel, try_claim_channel_locked. rewrite Hc. cbn [mbind option_bind].
  replace (0 <? n) with true by lia. replace (n <? num_gpfifo_entries ch) with true by lia.
  rewrite (available_run _ _ _ _ _ Hr). cbn [mbind option_bind].
  assert (sys_inv (mk_chan_sys (put_channel m c ch) begun ready done) rings) as Hsame
    by by eapply sys_set_same.
  destruct (_ && suspended_p2p ch); [by exists false, (put_channel m c ch)|].
  destruct (n <=? _) eqn:E1; [|by exists false, (put_channel m c ch)].
  eexists true, _. split; [done|]. eapply sys_set_same; try done.
  - destruct Hr as [Hnum ? ? Hroom ? ? ? ? ?]. split; try done. cbn. unfold NvU32.
    rewrite wrap_small; [lia|]. unfold in_width, UVM_CHANNEL_NUM_GPFIFO_ENTRIES_MAX in *. lia.
  - destruct Hr as [Hnum ? ? Hroom ? ? ? ? ?]. split; [done|]. cbn. unfold NvU32.
    rewrite wrap_small; [lia|]. unfold in_width, UVM_CHANNEL_NUM_GPFIFO_ENTRIES_MAX in *. lia.
Qed.

Lemma release_run s rings c ch n :
  sys_inv s rings -> channels (cs_manager s) !! c = Some ch -> 0 <= n ->
  held c (cs_ready s) + n <= current_gpfifo_count ch ->
  exists m', uvm_channel_release (cs_manager s) c n = Some m'
    /\ sys_inv (mk_chan_sys m' (cs_begun s) (cs_ready s) (cs_done s)) rings.
Proof.
  destruct s as [m begun ready done]. intros Hs Hc Hn Hheld.
  destruct (sys_get _ _ c ch Hs Hc) as (es & d & Hes & Hd & Hr & [Hi1 Hi2]). cbn in *.
  assert (0 <= held c ready) by (unfold held; lia). pose proof Hr as [Hnum ? ? Hroom ? ? ? ? ?].
  unfold uvm_channel_release. rewrite Hc. cbn [mbind option_bind].
  replace (n <=? current_gpfifo_count ch) with true by lia.
  assert (NvU32 (current_gpfifo_count ch - n) = current_gpfifo_count ch - n) as ->.
  { apply wrap_small. unfold in_width, UVM_CHANNEL_NUM_GPFIFO_ENTRIES_MAX in *. lia. }
  eexists. split; [done|]. eapply sys_set_same; try done; split; try done; cbn; lia.
Qed.

(** The completed value and the GPU. *)
Lemma update_value_run s rings c ch :
  sys_inv s rings -> channels (cs_manager s) !! c = Some ch ->
  exists done m', cs_done s !! c = Some done
    /\ uvm_channel_update_completed_value (cs_manager s) c = Some (done, m')
    /\ m' = put_channel (cs_manager s) c (ch <| tracking_sem := tracking_sem ch <| completed_value := done |> |>)
    /\ sys_inv (mk_chan_sys m' (cs_begun s) (cs_ready s) (cs_done s)) rings.
Proof.
  destruct s as [m begun ready done]. intros Hs Hc.
  destruct (sys_get _ _ c ch Hs Hc) as (es & d & Hes & Hd & Hr & Hi). cbn in *. pose proof (ring_tracks _ _ _ _ _ Hr) as Ht.
  exists d. eexists. split; [done|]. unfold uvm_channel_update_completed_value.
  unfold uvm_gpu_tracking_semaphore_update_completed_value. rewrite Hc. cbn [mbind option_bind].
  rewrite (update_exact _ _ Ht). cbn [mbind option_bind]. split; [done|]. split; [done|].
  pose proof Hr as [? ? ? ? ? ? [? ?] ? ?]. eapply sys_set_same; try done; [|by destruct Hi].
  eapply ring_ok_sem; [exact Hr|done|done|cbn; lia|done].
Qed.

Lemma value_completed_run s rings c ch value :
  sys_inv s rings -> channels (cs_manager s) !! c = Some ch ->
  exists done m', cs_done s !! c = Some done
    /\ uvm_channel_is_value_completed (cs_manager s) c value = Some (value <=? done, m')
    /\ sys_inv (mk_chan_sys m' (cs_begun s) (cs_ready s) (cs_done s)) rings.
Proof.
  destruct s as [m begun ready done]. intros Hs Hc.
  destruct (sys_get _ _ c ch Hs Hc) as (es & d & Hes & Hd & Hr & Hi). cbn in *. pose proof (ring_tracks _ _ _ _ _ Hr) as Ht.
  destruct (is_value_completed_exact _ _ value Ht) as (sem & Hrun & (Hp & _ & Hcd & _) & Hq & Hmono).
  exists d. eexists. split; [done|]. unfold uvm_channel_is_value_completed. rewrite Hc. cbn [mbind option_bind].
  rewrite Hrun. cbn [mbind option_bind]. split; [done|]. pose proof Hr as [? ? ? ? ? ? [? ?] ? ?].
  eapply sys_set_same; try done; [|by destruct Hi]. cbn [snd]. eapply ring_ok_sem; [exact Hr|done|done|lia|done].
Qed.

Lemma gpu_run m begun ready done rings c ch d :
  sys_inv (mk_chan_sys m begun ready done) rings -> channels m !! c = Some ch -> done !! c = Some d ->
  d < queued_value (tracking_sem ch) ->
  sys_inv (mk_chan_sys (put_channel m c (ch <| tracking_sem := tracking_sem ch <| payload := NvU32 (d + 1) |> |>))
    begun ready (<[c := d + 1]> done)) rings.
Proof.
  intros Hs Hc Hd Hlt. destruct (sys_get _ _ c ch Hs Hc) as (es & d' & Hes & Hd' & Hr & Hi). cbn in *. simplify_eq.
  pose proof Hr as [? ? ? ? ? ? [? ?] ? ?]. eapply sys_set; try done; [|by destruct Hi].
  eapply ring_ok_sem; [exact Hr|done|done|cbn; lia|lia].
Qed.

(** Taking a push info: there is one for every reserved entry. *)
Lemma held_insert c p c' ready :
  ready !! p = None -> held c (<[p := c']> ready) = held c ready + (if decide (c' = c) then 1 else 0).
Proof.
  intros Hp. unfold held. destruct (decide (c' = c)) as [->|Hne].
  - rewrite map_filter_insert_True, map_size_insert_None by (done || by apply map_lookup_filter_None; left). lia.
  - rewrite map_filter_insert_False by done. rewrite delete_id by done. lia.
Qed.

Lemma held_delete c p c' ready :
  ready !! p = Some c' -> held c (delete p ready) = held c ready - (if decide (c' = c) then 1 else 0).
Proof.
  intros Hp. rewrite <- (insert_delete_id ready p c' Hp) at 2.
  rewrite held_insert by apply lookup_delete_eq. lia.
Qed.

Lemma info_run m begun ready done rings c ch p push :
  sys_inv (mk_chan_sys m begun ready done) rings -> channels m !! c = Some ch ->
  p ∈ begun -> ready !! p = None -> pushes (pushbuffer m) !! p = Some push -> push_channel push = c ->
  held c ready < current_gpfifo_count ch ->
  exists info m', channel_get_available_push_info_index m c = Some (info, m')
    /\ sys_inv (mk_chan_sys (m' <| pushbuffer := pushbuffer m
           <| pushes := <[p := push <| push_info_index := info |>]> (pushes (pushbuffer m)) |> |>)
         begun (<[p := c]> ready) done) rings.
Proof.
  intros Hs Hc Hp Hnr Hpush Hch Hlt.
  destruct (sys_get _ _ c ch Hs Hc) as (es & d & Hes & Hd & Hr & [Hi1 Hi2]). cbn in *.
  unfold channel_get_available_push_info_index. rewrite Hc. cbn [mbind option_bind].
  pose proof Hr as [? ? ? Hroom ? ? ? ? ?]. pose proof (normals_le es).
  destruct (available_push_infos ch) as [|info infos] eqn:Einf; [cbn in *; lia|].
  do 2 eexists. split; [done|]. rewrite <- (insert_id done c d Hd), <- (insert_id rings c es Hes).
  apply (sys_put m begun ready done rings c ch); try done.
  - apply (law_write _ _ _ push); [exact (si_pb _ _ Hs)|done|done|].
    exact (law_begun _ _ _ _ (si_pb _ _ Hs) Hp Hpush).
  - intros c' i _. by intros x.
  - split; cbn; rewrite held_insert, decide_True by done; [|lia]. cbn in Hi1. lia.
  - intros c' Hne. rewrite held_insert, decide_False by done. lia.
  - intros g. exact (pending_split _ _ c ch es g Hs Hc Hes).
  - intros q c' Hq. cbn. destruct (decide (p = q)) as [<-|Hne].
    + rewrite lookup_insert_eq in Hq. rewrite lookup_insert_eq. simplify_eq. split_and!; [done|by rewrite Hc|]. by eexists.
    + rewrite lookup_insert_ne in Hq by done. rewrite lookup_insert_ne by done. exact (si_ready _ _ Hs q c' Hq).
Qed.

(** Ending a push and writing a control entry. *)
Lemma put_fresh s rings c ch :
  sys_inv s rings -> channels (cs_manager s) !! c = Some ch ->
  ~ is_pending (pushbuffer (cs_manager s)) (gpfifo_at c (cpu_put ch)).
Proof.
  intros Hs Hc Hp. destruct (sys_get _ _ c ch Hs Hc) as (es & d & Hes & _ & Hr & _).
  destruct (proj1 (pending_split _ _ c ch es _ Hs Hc Hes) Hp) as [Ho|[_ Hne]]; [by eapply owns_fresh|by eapply Hne].
Qed.

(** The pending pushes after entry [x] was filled. *)
Lemma pending_snoc s rings c ch es x queued (P : gpfifo_id -> Prop) :
  sys_inv s rings -> channels (cs_manager s) !! c = Some ch -> rings !! c = Some es ->
  cpu_put ch = slot ch (length es) ->
  (forall g, P g <-> (is_normal x = true /\ g = gpfifo_at c (cpu_put ch)) \/ is_pending (pushbuffer (cs_manager s)) g) ->
  forall g, P g <-> owns c (filled ch queued) (es ++ [x]) g
    \/ (is_pending (pushbuffer (cs_manager s)) g /\ forall i, g <> gpfifo_at c i).
Proof.
  intros Hs Hc Hes Hput HP g. rewrite owns_snoc by done. pose proof (pending_split _ _ c ch es g Hs Hc Hes).
  specialize (HP g). tauto.
Qed.

(** The push buffer's part of ending a push. *)
Lemma end_pb_run pb begun p push g size callback value :
  let pushw := push <| push_next := push_next push + size |> in
  I pb begun -> p ∈ begun -> pushes pb !! p = Some push ->
  0 < size -> (4 | size) -> push_next push + size <= push_begin push + UVM_MAX_PUSH_SIZE -> ~ is_pending pb g ->
  exists pb1 pb2, uvm_channel_end_push_entry E (pb <| pushes := <[p := pushw]> (pushes pb) |>) p g callback value = Some pb1
    /\ uvm_pushbuffer_end_push pb1 p g = Some pb2
    /\ (forall push', channel_is_wlc push' = channel_is_wlc push ->
          I (pb2 <| pushes := <[p := push']> (pushes pb2) |>) (begun ∖ {[p]}))
    /\ tracked_of <$> gpfifos pb2 !! g = Some (UVM_GPFIFO_ENTRY_TYPE_NORMAL, value, push_info_index push)
    /\ (forall h, h <> g -> gpfifos pb2 !! h = gpfifos pb !! h)
    /\ pushes pb2 = <[p := pushw]> (pushes pb)
    /\ (forall h, is_pending pb2 h <-> h = g \/ is_pending pb h).
Proof.
  intros pushw HI Hb Hpush Hsz H4 Hroom Hg.
  pose proof (law_begun _ _ _ _ HI Hb Hpush) as (_ & _ & Hfit & Hfit4).
  assert (I (pb <| pushes := <[p := pushw]> (pushes pb) |>) begun) as HI1.
  { eapply law_write; [exact HI|done|done|]. unfold push_fits, pushw. cbn.
    split_and!; try done; try lia. replace (_ + size - _) with (push_next push - push_begin push + size) by lia.
    by apply Z.divide_add_r. }
  destruct (law_end _ begun p pushw g callback value HI1 Hb)
    as (pb1 & pb2 & e & H1 & H2 & HI2 & Hgp & Hpu & Ht & Hv & Hinfo & Hpend);
    [cbn; by rewrite lookup_insert_eq|cbn; lia|exact Hg|].
  exists pb1, pb2. split_and!; try done.
  - rewrite Hgp, lookup_insert_eq. cbn. unfold tracked_of. by rewrite Ht, Hv, Hinfo.
  - intros h Hne. by rewrite Hgp, lookup_insert_ne.
Qed.

Lemma end_run m begun ready done rings c ch p push size callback :
  sys_inv (mk_chan_sys m begun ready done) rings -> channels m !! c = Some ch ->
  ready !! p = Some c -> pushes (pushbuffer m) !! p = Some push ->
  0 < size -> (4 | size) -> push_next push + size <= push_begin push + UVM_MAX_PUSH_SIZE ->
  queued_value (tracking_sem ch) + 1 < 2 ^ 64 ->
  exists m', uvm_channel_end_push E m p size callback = Some m'
    /\ exists rings', sys_inv (mk_chan_sys m' (begun ∖ {[p]}) (delete p ready) done) rings'.
Proof.
  intros Hs Hc Hp Hpush Hsz H4 Hroom Hq.
  destruct (si_ready _ _ Hs p c Hp) as (Hb & _ & push' & Hpush' & Hpc). cbn in *. simplify_eq.
  set (c := push_channel push) in *.
  destruct (sys_get _ _ c ch Hs Hc) as (es & d & Hes & Hd & Hr & [Hi1 Hi2]). cbn in *.
  assert (held c ready = held c (delete p ready) + 1) as Hheld
    by (rewrite (held_delete c p c ready Hp), decide_True by done; lia).
  assert (0 <= held c (delete p ready)) by (unfold held; lia).
  pose proof Hr as [? ? Hput ? ? ? Hdone Hw ?].
  set (value := queued_value (tracking_sem ch) + 1) in *.
  assert (NvU64 value = value) as Hval by (apply wrap_small; unfold in_width in *; lia).
  destruct (end_pb_run (pushbuffer m) begun p push (gpfifo_at c (cpu_put ch)) size callback value
      (si_pb _ _ Hs) Hb Hpush Hsz H4 Hroom (put_fresh _ _ c ch Hs Hc))
    as (pb1 & pb2 & H1 & H2 & HI2 & Htr & Hgp & Hpu & Hpend).
  unfold uvm_channel_end_push. rewrite Hpush. cbn [mbind option_bind]. fold c. rewrite Hc. cbn [mbind option_bind].
  fold value. rewrite Hval. change (cpu_put (ch <| tracking_sem := _ |>)) with (cpu_put ch).
  change (num_gpfifo_entries (ch <| tracking_sem := _ |>)) with (num_gpfifo_entries ch).
  change (current_gpfifo_count (ch <| tracking_sem := _ |>)) with (current_gpfifo_count ch).
  rewrite H1. cbn [mbind option_bind]. replace (0 <? current_gpfifo_count ch) with true by lia.
  rewrite H2. cbn [mbind option_bind]. eexists. split; [done|].
  exists (<[c := es ++ [(UVM_GPFIFO_ENTRY_TYPE_NORMAL, value, push_info_index push)]]> rings).
  rewrite <- (insert_id done c d Hd). apply (sys_put m begun ready done rings c ch); try done.
  - by apply HI2.
  - intros c' i Hne x. cbn. rewrite Hgp; [done|]. intros [? _]%gpfifo_at_inj. done.
  - apply (ring_snoc (pushbuffer m)); try done; [lia| |unfold in_width in *; lia].
    intros i Hne. apply Hgp. intros [_ ?]%gpfifo_at_inj. done.
  - split; cbn; rewrite ?normals_snoc; cbn; lia.
  - intros c' Hne. rewrite (held_delete c' p c ready Hp), decide_False by done. lia.
  - apply (pending_snoc _ _ c ch es _ value _ Hs Hc Hes Hput).
    intros g. etransitivity; [exact (Hpend g)|]. cbn. split; intros [?|?]; tauto.
  - intros q c' Hq'. apply lookup_delete_Some in Hq' as [Hne Hq'].
    destruct (si_ready _ _ Hs q c' Hq') as (Hb' & Hc' & r & Hr' & Hrc). cbn in *. split_and!; [set_solver|done|].
    exists r. rewrite lookup_insert_ne, Hpu by done. by rewrite lookup_insert_ne.
Qed.

Lemma ctrl_run m begun ready done rings c ch value :
  sys_inv (mk_chan_sys m begun ready done) rings -> channels m !! c = Some ch ->
  held c ready + 2 <= current_gpfifo_count ch -> queued_value (tracking_sem ch) + 1 < 2 ^ 64 ->
  exists m', write_ctrl_gpfifo m c value = Some m'
    /\ exists rings', sys_inv (mk_chan_sys m' begun ready done) rings'.
Proof.
  intros Hs Hc Hheld Hq. destruct (sys_get _ _ c ch Hs Hc) as (es & d & Hes & Hd & Hr & [Hi1 Hi2]). cbn in *.
  assert (0 <= held c ready) by (unfold held; lia). pose proof Hr as [? ? Hput ? ? ? Hdone Hw ?].
  pose proof (put_fresh _ _ c ch Hs Hc) as Hfresh. cbn in Hfresh.
  unfold write_ctrl_gpfifo. rewrite Hc. cbn [mbind option_bind].
  replace (1 <? current_gpfifo_count ch) with true by lia. eexists. split; [done|].
  set (x := (UVM_GPFIFO_ENTRY_TYPE_CONTROL, queued_value (tracking_sem ch) + 1, 0) : tracked).
  exists (<[c := es ++ [x]]> rings). rewrite <- (insert_id done c d Hd).
  assert (NvU64 (queued_value (tracking_sem ch) + 1) = queued_value (tracking_sem ch) + 1) as Hval
    by (apply wrap_small; unfold in_width in *; lia).
  assert (ch <| current_gpfifo_count := current_gpfifo_count ch - 1 |>
     <| cpu_put := NvU32 (cpu_put ch + 1) mod num_gpfifo_entries ch |> = filled ch (queued_value (tracking_sem ch))) as ->.
  { unfold filled. by destruct ch as [? ? ? ? ? [? ? ?] ?]. }
  apply (sys_put m begun ready done rings c ch); try done.
  - apply law_gpfifo; [exact (si_pb _ _ Hs)|done].
  - intros c' i Hne y. cbn. rewrite lookup_insert_ne; [done|]. intros [? _]%gpfifo_at_inj. done.
  - apply (ring_snoc (pushbuffer m)); try done; [lia| |].
    + cbn. rewrite lookup_insert_eq. cbn. unfold tracked_of. cbn. by rewrite Hval.
    + intros i Hne. cbn. rewrite lookup_insert_ne; [done|]. intros [_ ?]%gpfifo_at_inj. done.
  - split; cbn; rewrite ?normals_snoc; cbn; lia.
  - apply (pending_snoc _ _ c ch es _ _ _ Hs Hc Hes Hput). intros g. cbn. split; [by right|]. by intros [[? _]|?].
  - exact (si_ready _ _ Hs).
Qed.

(** Reclaiming entries. *)
Lemma same_tracking_keeps pb pb' g : same_tracking pb pb' -> keeps_tracked pb pb' g.
Proof.
  intros Hs x. destruct (gpfifos pb !! g) as [e|] eqn:Hg; [|done]. cbn. intros [= <-].
  destruct (Hs g e Hg) as (e' & -> & Ht & Hv & Hi). cbn. unfold tracked_of. congruence.
Qed.

Lemma pop_run m begun ready done rings c ch x es :
  sys_inv (mk_chan_sys (put_channel m c ch) begun ready done) rings -> rings !! c = Some (x :: es) ->
  x.1.2 <= completed_value (tracking_sem ch) ->
  exists e, gpfifos (pushbuffer m) !! gpfifo_at c (gpu_get ch) = Some e /\ tracked_of e = x
    /\ match gpfifo_type e with
       | UVM_GPFIFO_ENTRY_TYPE_NORMAL =>
           exists pb, uvm_pushbuffer_mark_completed (pushbuffer m) (gpfifo_at c (gpu_get ch)) = Some pb
             /\ sys_inv (mk_chan_sys (put_channel (m <| pushbuffer := pb |>) c
                    (popped ch (available_push_infos ch ++ [push_info e]))) begun ready done) (<[c := es]> rings)
       | UVM_GPFIFO_ENTRY_TYPE_CONTROL =>
           sys_inv (mk_chan_sys (put_channel m c (popped ch (available_push_infos ch))) begun ready done)
             (<[c := es]> rings)
       end.
Proof.
  intros Hs Hes Hx. set (m0 := put_channel m c ch) in *.
  assert (channels m0 !! c = Some ch) as Hc by apply lookup_insert_eq.
  destruct (sys_get _ _ c ch Hs Hc) as (es' & d & Hes' & Hd & Hr & [Hi1 Hi2]). cbn -[m0] in *. simplify_eq.
  pose proof Hr as [Hn Hg _ _ He _ _ _ _]. specialize (He 0%nat x eq_refl). rewrite slot_0 in He by done.
  apply fmap_Some in He as (e & Hge & ->). change (pushbuffer m0) with (pushbuffer m) in *.
  exists e. split; [done|]. split; [done|].
  assert (forall ch', put_channel m c ch' = put_channel m0 c ch') as Eput.
  { intros ch'. unfold m0, put_channel. cbn. by rewrite insert_insert_eq. }
  assert (forall pb ch', put_channel (m <| pushbuffer := pb |>) c ch' = mk_manager pb (<[c := ch']> (channels m0))) as Eput'.
  { intros pb ch'. unfold m0, put_channel. cbn. by rewrite insert_insert_eq. }
  pose proof (fun g => pending_split _ _ c ch _ g Hs Hc Hes) as Hsplit. change (pushbuffer (cs_manager _)) with (pushbuffer m) in Hsplit.
  destruct (gpfifo_type e) eqn:Ht.
  - assert (is_normal (tracked_of e) = true) as Hnorm by (unfold is_normal, tracked_of; cbn; by rewrite Ht).
    assert (is_pending (pushbuffer m) (gpfifo_at c (gpu_get ch))) as Hp.
    { apply Hsplit. left. apply (owns_pop _ _ _ _ _ _ [] _ Hr). by left. }
    destruct (law_complete _ _ _ (si_pb _ _ Hs) Hp) as (pb & Hrun & HI & Hpu & Htr & Hpend).
    exists pb. split; [done|]. rewrite Eput', <- (insert_id done c d Hd).
    apply (sys_put m0 begun ready done rings c ch); try done.
    + intros c' i _. by apply same_tracking_keeps.
    + eapply ring_pop; [exact Hr|done|]. intros i. by apply same_tracking_keeps.
    + split; cbn; [|done]. rewrite length_app. cbn in Hi1 |- *. rewrite Hnorm in Hi1. lia.
    + intros g. rewrite Hpend, Hsplit.
      destruct (owns_pop _ _ _ _ _ _ (available_push_infos ch ++ [push_info e]) g Hr) as [Hpop Hno].
      split; [naive_solver|]. intros [Ho|[Hg' Hne]].
      * split; [left; naive_solver|]. intros ->. done.
      * split; [naive_solver|]. by apply Hne.
    + intros p c' Hpc. rewrite Hpu. exact (si_ready _ _ Hs p c' Hpc).
  - assert (is_normal (tracked_of e) = false) as Hnorm by (unfold is_normal, tracked_of; cbn; by rewrite Ht).
    rewrite Eput, <- (insert_id done c d Hd).
    apply (sys_put m0 begun ready done rings c ch); try done.
    + exact (si_pb _ _ Hs).
    + intros c' i _. by intros y.
    + eapply ring_pop; [exact Hr|done|]. intros i. by intros y.
    + split; cbn; [|done]. cbn in Hi1. rewrite Hnorm in Hi1. lia.
    + intros g. etransitivity; [exact (Hsplit g)|].
      destruct (owns_pop _ _ _ _ _ _ (available_push_infos ch) g Hr) as [Hpop _]. rewrite Hpop, Hnorm.
      split; [|tauto]. intros [[[? _]|?]|?]; [done|tauto|tauto].
    + exact (si_ready _ _ Hs).
Qed.

(** The loop stops after [n] entries, all with values up to [v]; it keeps
    [gpu_get] in a variable, so the channel in [m] still has the old [g]. *)
Definition same_ring (ch ch' : uvm_channel_t) : Prop :=
  num_gpfifo_entries ch' = num_gpfifo_entries ch /\ cpu_put ch' = cpu_put ch
  /\ current_gpfifo_count ch' = current_gpfifo_count ch /\ tracking_sem ch' = tracking_sem ch.

Definition stops_at (budget n : nat) (v : Z) (es : list tracked) : Prop :=
  (n <= length es)%nat /\ Forall (fun x => x.1.2 <= v) (take n es)
  /\ (n = budget \/ n = length es \/ exists x, es !! n = Some x /\ v < x.1.2).

Lemma stops_now budget v es :
  budget = 0%nat \/ es = [] \/ (exists x, head es = Some x /\ v < x.1.2) -> stops_at budget 0 v es.
Proof.
  intros H. split_and!; [lia|constructor|]. destruct H as [->|[->|(x & Hx & ?)]]; [by left|by right; left|].
  right; right. exists x. by destruct es.
Qed.

(** One iteration that completes an entry. *)
Definition complete_entry (m : uvm_channel_manager_t) (c : channel_id) (i : Z) (e : uvm_gpfifo_entry_t)
    : option uvm_channel_manager_t :=
  match gpfifo_type e with
  | UVM_GPFIFO_ENTRY_TYPE_NORMAL =>
      pb ← uvm_pushbuffer_mark_completed (pushbuffer m) (gpfifo_at c i);
      ch ← channels (m <| pushbuffer := pb |>) !! c;
      Some (put_channel (m <| pushbuffer := pb |>) c
        (ch <| available_push_infos := available_push_infos ch ++ [push_info e] |>))
  | UVM_GPFIFO_ENTRY_TYPE_CONTROL => Some m
  end.

Lemma complete_entry_run m begun ready done rings c g ch x es :
  sys_inv (mk_chan_sys (put_channel m c ch) begun ready done) rings -> rings !! c = Some (x :: es) ->
  channels m !! c = Some (ch <| gpu_get := g |>) -> x.1.2 <= completed_value (tracking_sem ch) ->
  exists e m' ch', gpfifos (pushbuffer m) !! gpfifo_at c (gpu_get ch) = Some e /\ tracked_of e = x
    /\ complete_entry m c (gpu_get ch) e = Some m'
    /\ sys_inv (mk_chan_sys (put_channel m' c ch') begun ready done) (<[c := es]> rings)
    /\ channels m' !! c = Some (ch' <| gpu_get := g |>) /\ gpu_get ch' = slot ch 1 /\ same_ring ch ch'
    /\ (forall c', c' <> c -> channels m' !! c' = channels m !! c').
Proof.
  intros Hs Hes Hc Hx. destruct (pop_run m begun ready done rings c ch x es Hs Hes Hx) as (e & He & Htr & Hpop).
  exists e. unfold complete_entry. destruct (gpfifo_type e).
  - destruct Hpop as (pb & Hrun & Hpop). rewrite Hrun. cbn [mbind option_bind].
    change (channels (m <| pushbuffer := pb |>)) with (channels m). rewrite Hc. cbn [mbind option_bind].
    eexists _, (popped ch (available_push_infos ch ++ [push_info e])).
    split; [done|]. split; [done|]. split; [done|]. split_and!; try done.
    + unfold put_channel in *. cbn in Hpop |- *. rewrite insert_insert_eq. exact Hpop.
    + cbn. by rewrite lookup_insert_eq.
    + intros c' Hne. cbn. by rewrite lookup_insert_ne.
  - exists m, (popped ch (available_push_infos ch)). by split_and!.
Qed.

Lemma progress_run budget v c g begun ready done : forall m rings ch es,
  sys_inv (mk_chan_sys (put_channel m c ch) begun ready done) rings -> rings !! c = Some es ->
  channels m !! c = Some (ch <| gpu_get := g |>) -> v <= completed_value (tracking_sem ch) ->
  exists n m' ch', stops_at budget n v es
    /\ progress_loop budget UVM_CHANNEL_UPDATE_MODE_COMPLETED v m c (gpu_get ch) (cpu_put ch) = Some (gpu_get ch', m')
    /\ sys_inv (mk_chan_sys (put_channel m' c ch') begun ready done) (<[c := drop n es]> rings)
    /\ channels m' !! c = Some (ch' <| gpu_get := g |>) /\ same_ring ch ch'
    /\ (forall c', c' <> c -> channels m' !! c' = channels m !! c') /\ (forall j, slot ch' j = slot ch (n + j)).
Proof.
  induction budget as [|budget IH]; intros m rings ch es Hs Hes Hc Hv.
  { exists 0%nat, m, ch. rewrite drop_0, insert_id by done. split; [apply stops_now; by left|by split_and!]. }
  assert (channels (put_channel m c ch) !! c = Some ch) as Hvc by apply lookup_insert_eq.
  destruct (sys_get _ _ c ch Hs Hvc) as (es' & d & Hes' & _ & Hr & _). simplify_eq.
  pose proof Hr as [Hn Hg Hput Hroom Hent _ _ _ _]. cbn [progress_loop].
  destruct es as [|x es].
  { exists 0%nat, m, ch. rewrite drop_0, insert_id by done. rewrite Hput. cbn [length].
    rewrite slot_0, Z.eqb_refl by done. split; [apply stops_now; by right; left|by split_and!]. }
  assert (gpu_get ch =? cpu_put ch = false) as ->.
  { apply Z.eqb_neq. rewrite Hput, <- (slot_0 ch) by done. intros E0%slot_inj; cbn [length] in *; lia. }
  destruct (decide (x.1.2 <= v)) as [Hle|Hgt]; cycle 1.
  { specialize (Hent 0%nat x eq_refl). rewrite slot_0 in Hent by done. apply fmap_Some in Hent as (e & He & ->).
    cbn in He, Hgt. rewrite He. cbn [mbind option_bind].
    replace (v <? tracking_semaphore_value e) with true by lia. cbn [andb].
    exists 0%nat, m, ch. rewrite drop_0, insert_id by done. split; [|by split_and!].
    apply stops_now. right; right. eexists. split; [done|]. cbn. lia. }
  destruct (complete_entry_run m begun ready done rings c g ch x es Hs Hes Hc ltac:(lia))
    as (e & m1 & ch1 & He & <- & Hm1 & Hs1 & Hc1 & Hg1 & (En & Ep & Ec & Et) & Hoth).
  rewrite He. cbn [mbind option_bind]. cbn in Hle. replace (v <? tracking_semaphore_value e) with false by lia.
  cbn [andb]. unfold complete_entry in Hm1. rewrite Hm1. cbn [mbind option_bind]. rewrite Hc1. cbn [mbind option_bind].
  change (num_gpfifo_entries (ch1 <| gpu_get := g |>)) with (num_gpfifo_entries ch1).
  assert (NvU32 (gpu_get ch + 1) mod num_gpfifo_entries ch1 = gpu_get ch1) as ->.
  { rewrite En, Hg1, <- (slot_next ch 0), slot_0 by done. done. }
  destruct (IH m1 (<[c := es]> rings) ch1 es Hs1) as (n & m' & ch' & (Hn1 & Hn2 & Hn3) & Hloop & Hs' & Hc' & Hsame' & Hoth' & Hslot');
    [by rewrite lookup_insert_eq|done|by rewrite Et|].
  exists (S n), m', ch'. rewrite <- Ep. rewrite insert_insert_eq in Hs'. split; [|split_and!; try done].
  - split_and!; [cbn; lia|cbn; by constructor|]. cbn. destruct Hn3 as [->|[->|?]]; auto.
  - destruct Hsame' as (? & ? & ? & ?). split_and!; congruence.
  - intros c' Hne. by rewrite Hoth', Hoth.
  - intros j. rewrite Hslot'. unfold slot at 1. rewrite En, Hg1. exact (slot_advance ch (n + j) ltac:(lia)).
Qed.

Lemma update_progress_run s rings c ch es v budget :
  sys_inv s rings -> channels (cs_manager s) !! c = Some ch -> rings !! c = Some es ->
  v <= completed_value (tracking_sem ch) ->
  exists n m' ch', stops_at budget n v es
    /\ update_progress_locked (cs_manager s) c budget UVM_CHANNEL_UPDATE_MODE_COMPLETED v
       = Some (Z.of_nat (length es - n), m')
    /\ sys_inv (mk_chan_sys m' (cs_begun s) (cs_ready s) (cs_done s)) (<[c := drop n es]> rings)
    /\ channels m' !! c = Some ch' /\ same_ring ch ch'
    /\ (forall c', c' <> c -> channels m' !! c' = channels (cs_manager s) !! c')
    /\ (forall j, slot ch' j = slot ch (n + j)).
Proof.
  destruct s as [m begun ready done]. intros Hs Hc Hes Hv. cbn [cs_manager cs_begun cs_ready cs_done] in *.
  destruct (sys_get _ _ c ch Hs Hc) as (es' & d & Hes' & _ & [_ _ _ _ _ _ [Hd1 Hd] _ _] & _). cbn in *. simplify_eq.
  assert (put_channel m c ch = m) as Em by (unfold put_channel; destruct m; cbn in *; by rewrite insert_id).
  assert (ch <| gpu_get := gpu_get ch |> = ch) as Ech by by destruct ch.
  destruct (progress_run budget v c (gpu_get ch) begun ready done m rings ch es)
    as (n & m' & ch' & Hstop & Hloop & Hs' & Hc' & Hsame & Hoth & Hslot); [by rewrite Em|done|by rewrite Ech|done|].
  exists n, (put_channel m' c ch'), ch'. unfold update_progress_locked. rewrite Hc. cbn [mbind option_bind].
  replace (v <=? queued_value (tracking_sem ch)) with true by lia. rewrite Hloop. cbn [mbind option_bind].
  rewrite Hc'. cbn [mbind option_bind]. split; [done|].
  assert (channels (put_channel m' c ch') !! c = Some ch') as Hvc by apply lookup_insert_eq.
  destruct (sys_get _ _ c ch' Hs' Hvc) as (es' & d' & Hes1 & _ & Hr & _). rewrite lookup_insert_eq in Hes1. simplify_eq.
  destruct (ring_pending _ _ _ _ _ Hr) as [_ Hk]. rewrite length_drop in Hk.
  change (cpu_put (ch' <| gpu_get := gpu_get ch |>)) with (cpu_put ch').
  change (num_gpfifo_entries (ch' <| gpu_get := gpu_get ch |>)) with (num_gpfifo_entries ch'). rewrite Hk.
  assert (ch' <| gpu_get := gpu_get ch |> <| gpu_get := gpu_get ch' |> = ch') as -> by by destruct ch'.
  split_and!; try done. intros c' Hne. cbn. rewrite lookup_insert_ne by done. by apply Hoth.
Qed.
End channels.

(** ** Steps of threads and of the GPU *)

(** A user reserves entries before it uses them; the pushes that have a push
    info use one entry each.  The GPU releases the values in order.  The value
    that [update_progress_locked] works with may be old. *)
Inductive chan_step (E : pb_env) : chan_sys -> chan_sys -> Prop :=
| cs_local m begun ready done pb' begun' :
    pb_local E (mk_pb_sys (pushbuffer m) begun) (mk_pb_sys pb' begun') ->
    chan_step E (mk_chan_sys m begun ready done) (mk_chan_sys (m <| pushbuffer := pb' |>) begun' ready done)
| cs_claim m begun ready done c ch n ty b m' :
    channels m !! c = Some ch -> 0 < n < num_gpfifo_entries ch -> try_claim_channel m c n ty = Some (b, m') ->
    chan_step E (mk_chan_sys m begun ready done) (mk_chan_sys m' begun ready done)
| cs_release m begun ready done c ch n m' :
    channels m !! c = Some ch -> 0 <= n -> held c ready + n <= current_gpfifo_count ch ->
    uvm_channel_release m c n = Some m' ->
    chan_step E (mk_chan_sys m begun ready done) (mk_chan_sys m' begun ready done)
| cs_info m begun ready done c ch p push info m' :
    channels m !! c = Some ch -> p ∈ begun -> ready !! p = None -> pushes (pushbuffer m) !! p = Some push ->
    push_channel push = c -> held c ready < current_gpfifo_count ch ->
    channel_get_available_push_info_index m c = Some (info, m') ->
    chan_step E (mk_chan_sys m begun ready done)
      (mk_chan_sys (m' <| pushbuffer := pushbuffer m
           <| pushes := <[p := push <| push_info_index := info |>]> (pushes (pushbuffer m)) |> |>)
         begun (<[p := c]> ready) done)
| cs_end m begun ready done c ch p push size callback m' :
    channels m !! c = Some ch -> ready !! p = Some c -> pushes (pushbuffer m) !! p = Some push ->
    0 < size -> (4 | size) -> push_next push + size <= push_begin push + UVM_MAX_PUSH_SIZE ->
    queued_value (tracking_sem ch) + 1 < 2 ^ 64 ->
    uvm_channel_end_push E m p size callback = Some m' ->
    chan_step E (mk_chan_sys m begun ready done) (mk_chan_sys m' (begun ∖ {[p]}) (delete p ready) done)
| cs_ctrl m begun ready done c ch value m' :
    channels m !! c = Some ch -> held c ready + 2 <= current_gpfifo_count ch ->
    queued_value (tracking_sem ch) + 1 < 2 ^ 64 -> write_ctrl_gpfifo m c value = Some m' ->
    chan_step E (mk_chan_sys m begun ready done) (mk_chan_sys m' begun ready done)
| cs_gpu m begun ready done c ch d :
    channels m !! c = Some ch -> done !! c = Some d -> d < queued_value (tracking_sem ch) ->
    chan_step E (mk_chan_sys m begun ready done)
      (mk_chan_sys (put_channel m c (ch <| tracking_sem := tracking_sem ch <| payload := NvU32 (d + 1) |> |>))
         begun ready (<[c := d + 1]> done))
| cs_update m begun ready done c v m' :
    uvm_channel_update_completed_value m c = Some (v, m') ->
    chan_step E (mk_chan_sys m begun ready done) (mk_chan_sys m' begun ready done)
| cs_query m begun ready done c v b m' :
    uvm_channel_is_value_completed m c v = Some (b, m') ->
    chan_step E (mk_chan_sys m begun ready done) (mk_chan_sys m' begun ready done)
| cs_progress m begun ready done c ch v budget k m' :
    channels m !! c = Some ch -> v <= completed_value (tracking_sem ch) ->
    update_progress_locked m c budget UVM_CHANNEL_UPDATE_MODE_COMPLETED v = Some (k, m') ->
    chan_step E (mk_chan_sys m begun ready done) (mk_chan_sys m' begun ready done)
| cs_p2p m begun ready done c ch b :
    channels m !! c = Some ch ->
    chan_step E (mk_chan_sys m begun ready done)
      (mk_chan_sys (put_channel m c (ch <| suspended_p2p := b |>)) begun ready done).

(** A manager with new channels of the given sizes. *)
Definition channels_new (sizes : gmap channel_id Z) : chan_sys :=
  mk_chan_sys (mk_manager uvm_pushbuffer_create (channel_create <$> sizes)) ∅ ∅ ((fun _ => 0) <$> sizes).

Inductive chan_reachable (E : pb_env) : chan_sys -> Prop :=
| cr_new sizes :
    (forall c n, sizes !! c = Some n -> 2 <= n <= UVM_CHANNEL_NUM_GPFIFO_ENTRIES_MAX) ->
    chan_reachable E (channels_new sizes)
| cr_step s s' : chan_reachable E s -> chan_step E s s' -> chan_reachable E s'.

Section safety.
Context (E : pb_env) (I : uvm_pushbuffer_t -> gset push_id -> Prop) `{Hlaws : !PushbufferLaws E I}.

Lemma chan_step_inv s s' rings : sys_inv I s rings -> chan_step E s s' -> exists rings', sys_inv I s' rings'.
Proof.
  intros Hs Hstep. revert Hs.
  destruct Hstep as [m begun ready done pb' begun' Hl|m begun ready done c ch n ty b m' Hc Hn Hrun
    |m begun ready done c ch n m' Hc Hn Hh Hrun|m begun ready done c ch p push info m' Hc Hb Hr Hp Hpc Hh Hrun
    |m begun ready done c ch p push size callback m' Hc Hr Hp Hz H4 Hroom Hq Hrun
    |m begun ready done c ch value m' Hc Hh Hq Hrun|m begun ready done c ch d Hc Hd Hlt
    |m begun ready done c v m' Hrun|m begun ready done c v b m' Hrun
    |m begun ready done c ch v budget k m' Hc Hv Hrun|m begun ready done c ch b Hc]; intros Hs.
  - exists rings. by eapply sys_local.
  - destruct (claim_run I _ _ c ch n ty Hs Hc Hn) as (b' & m1 & Hrun' & Hs'). cbn in *. simplify_eq. eauto.
  - destruct (release_run I _ _ c ch n Hs Hc Hn Hh) as (m1 & Hrun' & Hs'). cbn in *. simplify_eq. eauto.
  - destruct (info_run E I m begun ready done rings c ch p push Hs Hc Hb Hr Hp Hpc Hh) as (i' & m1 & Hrun' & Hs').
    rewrite Hrun in Hrun'. simplify_eq. eauto.
  - destruct (end_run E I m begun ready done rings c ch p push size callback Hs Hc Hr Hp Hz H4 Hroom Hq)
      as (m1 & Hrun' & Hs'). rewrite Hrun in Hrun'. by simplify_eq.
  - destruct (ctrl_run E I m begun ready done rings c ch value Hs Hc Hh Hq) as (m1 & Hrun' & Hs').
    rewrite Hrun in Hrun'. by simplify_eq.
  - exists rings. by eapply gpu_run.
  - destruct (channels m !! c) as [ch|] eqn:Hc; [|unfold uvm_channel_update_completed_value in Hrun; by rewrite Hc in Hrun].
    destruct (update_value_run I _ _ c ch Hs Hc) as (d & m1 & _ & Hrun' & _ & Hs'). cbn in *. rewrite Hrun in Hrun'. simplify_eq. eauto.
  - destruct (channels m !! c) as [ch|] eqn:Hc; [|unfold uvm_channel_is_value_completed in Hrun; by rewrite Hc in Hrun].
    destruct (value_completed_run I _ _ c ch v Hs Hc) as (d & m1 & _ & Hrun' & Hs'). cbn in *. rewrite Hrun in Hrun'. simplify_eq. eauto.
  - destruct (sys_get I _ _ c ch Hs Hc) as (es & d & Hes & _).
    destruct (update_progress_run E I _ _ c ch es v budget Hs Hc Hes Hv) as (n & m1 & ch' & _ & Hrun' & Hs' & _).
    cbn in *. rewrite Hrun in Hrun'. simplify_eq. eauto.
  - destruct (sys_get I _ _ c ch Hs Hc) as (es & d & Hes & Hd & [] & []). exists rings. cbn in *.
    eapply sys_set_same; try done; by split.
Qed.

Lemma channels_new_inv sizes :
  I uvm_pushbuffer_create ∅ -> (forall g, ~ is_pending uvm_pushbuffer_create g) ->
  (forall c n, sizes !! c = Some n -> 2 <= n <= UVM_CHANNEL_NUM_GPFIFO_ENTRIES_MAX) ->
  sys_inv I (channels_new sizes) ((fun _ => []) <$> sizes).
Proof.
  intros HI Hno Hsizes. split; cbn; [done| | |done].
  - intros c ch Hc. rewrite lookup_fmap in Hc. destruct (sizes !! c) as [n|] eqn:Hn; [|done]. cbn in Hc. simplify_eq.
    exists [], 0. rewrite !lookup_fmap, Hn. cbn. specialize (Hsizes c n Hn).
    split_and!; try done; split; cbn; try done; try lia.
    + exists 0. split; [done|lia].
    + rewrite length_seqZ. unfold held. rewrite map_filter_empty, map_size_empty. lia.
  - intros g. split; [by intros []%Hno|]. intros (c & ch & es & _ & Hes & (j & x & Hx & _)).
    rewrite lookup_fmap in Hes. destruct (sizes !! c); [|done]. cbn in Hes. by simplify_eq.
Qed.
End safety.

Lemma create_pending g : ~ is_pending uvm_pushbuffer_create g.
Proof.
  intros (i & c & _ & Hc & Hg). apply lookup_replicate in Hc as [-> _]. by apply not_elem_of_nil in Hg.
Qed.

Notation pb_ok base := (fun pb begun => pb_inv base (mk_pb_sys pb begun)).

Lemma chan_reachable_inv E base s :
  memory_ok E base -> chan_reachable E s -> exists rings, sys_inv (pb_ok base) s rings.
Proof.
  intros Hmem. pose proof (pushbuffer_laws E base Hmem) as Hlaws.
  induction 1 as [sizes Hsizes|s s' _ [rings Hs] Hstep].
  - eexists. apply channels_new_inv; [apply create_inv|apply create_pending|done].
  - by eapply chan_step_inv.
Qed.

(** C23.  The 64-bit count of a channel is exact: in every state that threads and
    the GPU can reach, updating the completed value gives precisely the value the
    GPU released last, however often the 32-bit payload has wrapped around, and
    asking whether a value is completed is answered exactly; the GPU is always
    less than a ring ahead of the completed value, so the code's check for large
    jumps never fails. *)
Theorem completed_value_exact E base s c ch done :
  memory_ok E base -> chan_reachable E s ->
  channels (cs_manager s) !! c = Some ch -> cs_done s !! c = Some done ->
  (exists m', uvm_channel_update_completed_value (cs_manager s) c = Some (done, m'))
  /\ (forall value, exists m', uvm_channel_is_value_completed (cs_manager s) c value = Some (value <=? done, m'))
  /\ completed_value (tracking_sem ch) <= done <= queued_value (tracking_sem ch)
  /\ queued_value (tracking_sem ch) - completed_value (tracking_sem ch) < num_gpfifo_entries ch.
Proof.
  intros Hmem Hreach Hc Hd. destruct (chan_reachable_inv E base s Hmem Hreach) as [rings Hs]. split_and!.
  - destruct (update_value_run _ _ _ c ch Hs Hc) as (d & m' & Hd' & Hrun & _). simplify_eq. eauto.
  - intros value. destruct (value_completed_run _ _ _ c ch value Hs Hc) as (d & m' & Hd' & Hrun & _). simplify_eq. eauto.
  - destruct (sys_get _ _ _ c ch Hs Hc) as (es & d & _ & Hd' & [] & _). simplify_eq. lia.
  - destruct (sys_get _ _ _ c ch Hs Hc) as (es & d & _ & Hd' & [] & _). simplify_eq. lia.
  - destruct (sys_get _ _ _ c ch Hs Hc) as (es & d & _ & _ & [_ _ _ Hroom _ (v & Hv & Hle) _ _ _] & _).
    apply values_bound in Hv. pose proof (normals_le es). lia.
Qed.

Lemma lookup_pending_value pb c ch done es j x e :
  ring_ok pb c ch done es -> es !! j = Some x -> gpfifos pb !! gpfifo_at c (slot ch j) = Some e ->
  x.1.2 = tracking_semaphore_value e.
Proof. intros Hr Hx He. pose proof (ro_entries _ _ _ _ _ Hr j x Hx) as Ht. rewrite He in Ht. cbn in Ht. by simplify_eq. Qed.

(** A push that stops being pending was among the first [n] of its ring. *)
Lemma reclaimed_value I s rings m' c ch es n v g e :
  sys_inv I s rings -> channels (cs_manager s) !! c = Some ch -> rings !! c = Some es ->
  sys_inv I (mk_chan_sys m' (cs_begun s) (cs_ready s) (cs_done s)) (<[c := drop n es]> rings) ->
  (forall c', c' <> c -> channels m' !! c' = channels (cs_manager s) !! c') ->
  (exists ch', channels m' !! c = Some ch' /\ forall j, slot ch' j = slot ch (n + j)) ->
  Forall (fun x => x.1.2 <= v) (take n es) ->
  is_pending (pushbuffer (cs_manager s)) g -> ~ is_pending (pushbuffer m') g ->
  gpfifos (pushbuffer (cs_manager s)) !! g = Some e -> tracking_semaphore_value e <= v.
Proof.
  intros Hs Hc Hes Hs' Hother (ch' & Hc' & Hslot) Hall Hg Hng He.
  apply (si_pending _ _ _ Hs) in Hg as (c1 & ch1 & es1 & Hc1 & Hes1 & (j & x & Hx & Hnorm & ->)).
  destruct (decide (c1 = c)) as [->|Hne]; cycle 1.
  { destruct Hng. apply (si_pending _ _ _ Hs'). exists c1, ch1, es1. cbn.
    rewrite Hother, lookup_insert_ne by done. split_and!; try done. by exists j, x. }
  simplify_eq. destruct (decide (n <= j)%nat) as [Hle|Hlt].
  { destruct Hng. apply (si_pending _ _ _ Hs'). exists c, ch', (drop n es). cbn. rewrite lookup_insert_eq.
    split_and!; try done. exists (j - n)%nat, x. rewrite lookup_drop, Hslot.
    replace (n + (j - n))%nat with j by lia. done. }
  destruct (sys_get _ _ _ c ch Hs Hc) as (es' & d & Hes' & _ & Hr & _). simplify_eq.
  rewrite <- (lookup_pending_value _ _ _ _ _ _ _ _ Hr Hx He). rewrite Forall_forall in Hall. apply Hall.
  apply (list_elem_of_lookup_2 _ j). by rewrite lookup_take_lt by lia.
Qed.

(** C3.  A GPFIFO ring is safe: in every reachable state the entry that the next
    push fills is not one the GPU may still read, a push that is ready to end
    ends without failing an assertion, a push info is there for every reserved
    entry, and updating the progress, with the completed value read at any
    earlier time, never fails and returns to the push buffer only pushes that
    the GPU has finished. *)
Theorem gpfifo_ring_safe E base s c ch done :
  memory_ok E base -> chan_reachable E s ->
  channels (cs_manager s) !! c = Some ch -> cs_done s !! c = Some done ->
  ~ is_pending (pushbuffer (cs_manager s)) (gpfifo_at c (cpu_put ch))
  /\ (forall p push size callback, cs_ready s !! p = Some c -> pushes (pushbuffer (cs_manager s)) !! p = Some push ->
        0 < size -> (4 | size) -> push_next push + size <= push_begin push + UVM_MAX_PUSH_SIZE ->
        queued_value (tracking_sem ch) + 1 < 2 ^ 64 ->
        is_Some (uvm_channel_end_push E (cs_manager s) p size callback))
  /\ (held c (cs_ready s) < current_gpfifo_count ch ->
        is_Some (channel_get_available_push_info_index (cs_manager s) c))
  /\ (forall v budget, v <= completed_value (tracking_sem ch) ->
        exists k m', update_progress_locked (cs_manager s) c budget UVM_CHANNEL_UPDATE_MODE_COMPLETED v = Some (k, m')
          /\ forall g e, is_pending (pushbuffer (cs_manager s)) g -> ~ is_pending (pushbuffer m') g ->
               gpfifos (pushbuffer (cs_manager s)) !! g = Some e -> tracking_semaphore_value e <= v /\ v <= done).
Proof.
  intros Hmem Hreach Hc Hd. pose proof (pushbuffer_laws E base Hmem) as Hlaws.
  destruct (chan_reachable_inv E base s Hmem Hreach) as [rings Hs].
  destruct (sys_get _ _ _ c ch Hs Hc) as (es & d & Hes & Hd' & Hr & Hi). simplify_eq. split_and!.
  - by eapply put_fresh.
  - intros p push size callback Hp Hpush Hz H4 Hroom Hq. destruct s as [m begun ready dones].
    destruct (end_run E _ m begun ready dones rings c ch p push size callback Hs Hc Hp Hpush Hz H4 Hroom Hq)
      as (m' & Hrun & _). cbn. rewrite Hrun. eauto.
  - intros Hlt. unfold channel_get_available_push_info_index. rewrite Hc. cbn [mbind option_bind].
    destruct Hi as [Hi1 Hi2], Hr as [? ? ? Hroom ? ? ? ? ?]. pose proof (normals_le es).
    destruct (available_push_infos ch); [cbn in *; lia|]. eauto.
  - intros v budget Hv. destruct (update_progress_run E _ _ _ c ch es v budget Hs Hc Hes Hv)
      as (n & m' & ch' & (Hn & Hall & _) & Hrun & Hs' & Hc' & _ & Hoth & Hslot).
    do 2 eexists. split; [exact Hrun|]. intros g e Hg Hng He. destruct Hr as [? ? ? ? ? ? [[? ?] ?] ? ?]. split; [|lia].
    apply (reclaimed_value _ s rings m' c ch es n v g e Hs Hc Hes Hs' Hoth); try done. by exists ch'.
Qed.

(** From the first entry with a value beyond the queued one on there are only
    control entries. *)
Lemma values_tail v es q n x :
  values v es q -> es !! n = Some x -> q < x.1.2 -> normals (drop n es) = 0.
Proof.
  revert v n. induction es as [|y es IH]; intros v n; [done|]. cbn [values]. intros [Hy Hv] Hx Hlt.
  destruct n as [|n]; [|by eapply IH]. cbn in Hx. simplify_eq. rewrite drop_0.
  apply values_bound in Hv. pose proof (normals_le es). cbn [normals].
  destruct (is_normal x); lia.
Qed.

Lemma normals_0 es j x : normals es = 0 -> es !! j = Some x -> is_normal x = false.
Proof.
  revert j. induction es as [|y es IH]; intros j; [done|]. cbn [normals]. pose proof (normals_le es).
  intros H0. destruct (is_normal y) eqn:Hy; [lia|]. destruct j as [|j]; cbn; [by intros [= <-]|]. apply IH. lia.
Qed.

(** Progress: once the GPU has finished all queued pushes of a channel, one
    call that updates the progress of the whole ring reclaims every push of the
    channel, and no memory of the push buffer stays in use by it. *)
Theorem channel_drains E base s c ch :
  memory_ok E base -> chan_reachable E s ->
  channels (cs_manager s) !! c = Some ch -> cs_done s !! c = Some (queued_value (tracking_sem ch)) ->
  exists k m', channel_update_progress_all (cs_manager s) c UVM_CHANNEL_UPDATE_MODE_COMPLETED = Some (k, m')
    /\ forall i, ~ is_pending (pushbuffer m') (gpfifo_at c i).
Proof.
  intros Hmem Hreach Hc Hd. pose proof (pushbuffer_laws E base Hmem) as Hlaws.
  destruct (chan_reachable_inv E base s Hmem Hreach) as [rings Hs]. set (q := queued_value (tracking_sem ch)) in *.
  destruct (update_value_run _ _ _ c ch Hs Hc) as (d & m1 & Hd' & Hrun1 & Em1 & Hs1). simplify_eq.
  set (ch1 := ch <| tracking_sem := tracking_sem ch <| completed_value := q |> |>).
  assert (channels (put_channel (cs_manager s) c ch1) !! c = Some ch1) as Hc1 by apply lookup_insert_eq.
  destruct (sys_get _ _ _ c ch1 Hs1 Hc1) as (es & d & Hes & Hd1 & Hr & _).
  destruct (update_progress_run E _ _ _ c ch1 es q (Z.to_nat (num_gpfifo_entries ch)) Hs1 Hc1 Hes)
    as (n & m' & ch' & (Hn & _ & Hstop) & Hrun & Hs' & Hc' & _); [done|].
  eexists _, m'. split.
  { unfold channel_update_progress_all, uvm_channel_update_progress_with_max. rewrite Hc. cbn [mbind option_bind].
    rewrite Hrun1. cbn [mbind option_bind]. exact Hrun. }
  pose proof Hr as [? ? ? Hroom ? (v & Hv & _) ? ? ?].
  assert (normals (drop n es) = 0) as Hnone.
  { destruct Hstop as [->|[->|(x & Hx & Hlt)]]; [cbn in *; lia|by rewrite drop_all|by eapply values_tail]. }
  intros i Hp. apply (pending_split _ _ _ c ch' (drop n es) _ Hs' Hc') in Hp as [Ho|[_ Hne]];
    [|by eapply Hne|by rewrite lookup_insert_eq].
  destruct Ho as (j & x & Hx & Hnorm & _). by rewrite (normals_0 _ _ _ Hnone Hx) in Hnorm.
Qed.

(** ** Witnesses *)
Definition one_channel : chan_sys := channels_new {[1%positive := 4]}.

Lemma one_channel_reachable E : chan_reachable E one_channel.
Proof.
  apply cr_new. intros c n Hn. apply lookup_singleton_Some in Hn as [_ <-].
  unfold UVM_CHANNEL_NUM_GPFIFO_ENTRIES_MAX. lia.
Qed.

Lemma completed_value_exact_witness :
  (exists m', uvm_channel_update_completed_value (cs_manager one_channel) 1 = Some (0, m'))
  /\ chan_reachable quiet_env one_channel.
Proof.
  split; [|apply one_channel_reachable].
  apply (completed_value_exact quiet_env 0x10000 one_channel 1 (channel_create 4) 0 quiet_memory
    (one_channel_reachable quiet_env)); reflexivity.
Defined.

(** Reserves an entry of channel [c] and begins push [p] on it. *)
Definition start (E : pb_env) (s : chan_sys) (p : push_id) (c : channel_id) : option chan_sys :=
  let '(mk_chan_sys m begun ready done) := s in
  guard (ready !! p = None /\ p ∉ begun /\ Forall (fun c => current_push c <> Some p) (chunks (pushbuffer m)));;
  ch ← channels m !! c;
  guard (1 < num_gpfifo_entries ch);;
  r ← try_claim_channel m c 1 UVM_CHANNEL_RESERVE_NO_P2P;
  let m := r.2 in
  let push := push_new <| push_channel := c |> in
  r ← try_claim_chunk (pushbuffer m <| pushes := <[p := push]> (pushes (pushbuffer m)) |>) p;
  let pb := r.2 in
  i ← r.1;
  chunk ← get_chunk pb i;
  guard (0 <= i < UVM_PUSHBUFFER_CHUNKS /\ current_push chunk = Some p);;
  push ← pushes pb !! p;
  guard (push_channel push = c);;
  addr ← chunk_get_next_push_start_addr E pb i;
  let push := push <| push_begin := addr |> <| push_next := addr |> in
  let m := m <| pushbuffer := pb <| pushes := <[p := push]> (pushes pb) |> |> in
  r ← channel_get_available_push_info_index m c;
  ch ← channels m !! c;
  guard (held c ready < current_gpfifo_count ch);;
  let pb := pushbuffer m <| pushes := <[p := push <| push_info_index := r.1 |>]> (pushes (pushbuffer m)) |> in
  Some (mk_chan_sys (r.2 <| pushbuffer := pb |>) ({[p]} ∪ begun) (<[p := c]> ready) done).

Lemma reach_local E m pb pb' begun begun' ready done :
  chan_reachable E (mk_chan_sys (m <| pushbuffer := pb |>) begun ready done) ->
  pb_local E (mk_pb_sys pb begun) (mk_pb_sys pb' begun') ->
  chan_reachable E (mk_chan_sys (m <| pushbuffer := pb' |>) begun' ready done).
Proof. intros Hr Hstep. eapply cr_step; [exact Hr|]. exact (cs_local E (m <| pushbuffer := pb |>) begun ready done pb' begun' Hstep). Qed.

Lemma start_reachable E s p c s' : chan_reachable E s -> start E s p c = Some s' -> chan_reachable E s'.
Proof.
  destruct s as [m begun ready done]. unfold start. intros H0 H. cbn beta iota in H.
  repeat first [ case_guard; cbn [mbind option_bind] in H; [|done] | apply bind_Some in H as (? & ? & H) | progress simplify_option_eq ].
  destruct x as (Hready & Hbegun & Hcur), x6 as [Hi Hp].
  rename x0 into ch, x7 into push, x2 into claim, x3 into chunk, x4 into i, x5 into ck, x9 into addr, x10 into info, x11 into ch'.
  assert (chunks (pushbuffer claim.2) = chunks (pushbuffer m)) as Hchunks by (unfold try_claim_channel in H6; by binds H6).
  assert (chan_reachable E (mk_chan_sys claim.2 begun ready done)) as H1.
  { eapply cr_step; [exact H0|]. destruct claim as [b m1]. eapply cs_claim; [done| |exact H6]. lia. }
  assert (forall pb, chunks pb = chunks (pushbuffer m) -> forall i c, ~ is_current pb p i c) as Hno.
  { intros pb Hpb j c (_ & Hc & Hq). unfold get_chunk in Hc. rewrite Hpb in Hc. rewrite Forall_lookup in Hcur. by eapply Hcur. }
  assert (begun ∖ {[p]} = begun) as Hb by set_solver.
  pose proof (cr_step _ _ _ H1 (cs_local E claim.2 begun ready done _ _ (step_new E _ begun p (push_new <| push_channel := push_channel push |>) (Hno _ Hchunks)))) as H2.
  rewrite Hb in H2. destruct chunk as [ci pb]. cbn [fst snd] in *. subst ci.
  assert (pb_local E (mk_pb_sys (pushbuffer claim.2 <| pushes := <[p:=push_new <| push_channel := push_channel push |>]> (pushes (pushbuffer claim.2)) |>) begun) (mk_pb_sys pb begun)) as Hl3.
  { eapply step_claim; [cbn; apply lookup_insert_eq|done|by apply Hno|done]. }
  pose proof (reach_local _ _ _ _ _ _ _ _ H2 Hl3) as H3'.
  pose proof (reach_local _ _ _ _ _ _ _ _ H3' (step_begin E pb begun p i ck push addr (conj Hi (conj H9 Hp)) Hbegun H12 H15)) as H4.
  eapply cr_step; [exact H4|]. destruct info as [info m4].
  set (m3 := claim.2 <| pushbuffer := _ |>) in *. assert (p ∈ {[p]} ∪ begun) as Hin by set_solver.
  assert (pushes (pushbuffer m3) !! p = Some (push <| push_begin := addr |> <| push_next := addr |>)) as Hpush by apply lookup_insert_eq.
  exact (cs_info E m3 _ ready done _ ch' p _ info m4 H17 Hin Hready Hpush eq_refl x12 H16).
Qed.

Definition two_channels : chan_sys := channels_new {[1%positive := 4; 2%positive := 4]}.

(** Push 1 is ready on channel 1. *)
Definition ready_sys : chan_sys := default two_channels (start quiet_env two_channels 1 1).

Definition ended_manager : uvm_channel_manager_t :=
  default (cs_manager ready_sys) (uvm_channel_end_push quiet_env (cs_manager ready_sys) 1 8 false).
Definition ended_sys : chan_sys :=
  mk_chan_sys ended_manager (cs_begun ready_sys ∖ {[1%positive]}) (delete 1%positive (cs_ready ready_sys)) (cs_done ready_sys).

(** Push 1 is queued, push 2 is ready on channel 2. *)
Definition second_sys : chan_sys := default ended_sys (start quiet_env ended_sys 2 2).

Lemma two_reachable : chan_reachable quiet_env two_channels.
Proof.
  apply cr_new. intros c n Hn. unfold UVM_CHANNEL_NUM_GPFIFO_ENTRIES_MAX.
  apply lookup_insert_Some in Hn as [[_ <-]|[_ [_ <-]%lookup_singleton_Some]]; lia.
Qed.

Lemma ready_reachable : chan_reachable quiet_env ready_sys.
Proof. eapply (start_reachable _ two_channels 1 1); [apply two_reachable|vm_compute; reflexivity]. Qed.

Definition ready_push : uvm_push_t := default push_new (pushes (pushbuffer (cs_manager ready_sys)) !! 1%positive).
Definition ready_channel : uvm_channel_t := default (channel_create 4) (channels (cs_manager ready_sys) !! 1%positive).

Lemma ended_reachable : chan_reachable quiet_env ended_sys.
Proof.
  eapply cr_step; [apply ready_reachable|].
  apply (cs_end quiet_env (cs_manager ready_sys) (cs_begun ready_sys) (cs_ready ready_sys) (cs_done ready_sys) 1 ready_channel 1 ready_push 8 false);
    try (vm_compute; reflexivity). by exists 2. done.
Qed.

Lemma second_reachable : chan_reachable quiet_env second_sys.
Proof. eapply (start_reachable _ ended_sys 2 2); [apply ended_reachable|vm_compute; reflexivity]. Qed.

(** The push that is ready can end; once it is queued, its entry is pending and the
    next push fills another. *)
Lemma gpfifo_ring_safe_witness :
  is_Some (uvm_channel_end_push quiet_env (cs_manager ready_sys) 1 8 false)
  /\ is_pending (pushbuffer (cs_manager ended_sys)) (gpfifo_at 1 0)
  /\ exists ch, channels (cs_manager ended_sys) !! 1%positive = Some ch
       /\ ~ is_pending (pushbuffer (cs_manager ended_sys)) (gpfifo_at 1 (cpu_put ch)).
Proof.
  split_and!.
  - apply (gpfifo_ring_safe quiet_env 0x10000 ready_sys 1 ready_channel 0 quiet_memory ready_reachable) with (push := ready_push);
      try (vm_compute; reflexivity); [by exists 2|done].
  - apply pending_in_yes; vm_compute; reflexivity.
  - set (ch := default (channel_create 4) (channels (cs_manager ended_sys) !! 1%positive)).
    assert (channels (cs_manager ended_sys) !! 1%positive = Some ch) as Hch by (apply from_some; vm_compute; reflexivity).
    exists ch. split; [exact Hch|].
    apply (gpfifo_ring_safe quiet_env 0x10000 ended_sys 1 ch 0 quiet_memory ended_reachable Hch). vm_compute. reflexivity.
Defined.

Lemma channel_drains_witness :
  exists k m', channel_update_progress_all (cs_manager one_channel) 1 UVM_CHANNEL_UPDATE_MODE_COMPLETED = Some (k, m')
    /\ forall i, ~ is_pending (pushbuffer m') (gpfifo_at 1 i).
Proof.
  apply (channel_drains quiet_env 0x10000 one_channel 1 (channel_create 4) quiet_memory
    (one_channel_reachable quiet_env)); reflexivity.
Defined.




