(* ===== verification/StateMonad.v ===== *)
(** * Computations on a state

    A function of the source that reads and writes shared state, may fail an
    assertion, and may wait for other threads or for the GPU, is a computation
    [SM S A]: from a state of type [S] it returns a value and a new state, fails
    an assertion (or uses a bad pointer), or is still waiting after the number of
    rounds that it was given.

    [spec total m Q] is the correctness judgement of the components written in
    this monad: [m] does not fail, it returns if [total] is set, and if it
    returns, [Q] holds of the value and the state. *)

From S2P Require Import Prelude.

Inductive outcome (A : Type) :=
| Returns (a : A)
| Fails
| Waits.
Arguments Returns {A} a.
Arguments Fails {A}.
Arguments Waits {A}.

Definition SM (S A : Type) : Type := S -> outcome (A * S).

#[export] Instance SM_ret S : MRet (SM S) := fun A a s => Returns (a, s).
#[export] Instance SM_bind S : MBind (SM S) := fun A B f m s =>
  match m s with
  | Returns (a, s') => f a s'
  | Fails => Fails
  | Waits => Waits
  end.

Section ops.
Context {S : Type}.

Definition sm_fail {A} : SM S A := fun _ => Fails.
Definition sm_wait {A} : SM S A := fun _ => Waits.
Definition sm_assert (b : bool) : SM S unit := fun s => if b then Returns (tt, s) else Fails.
Definition sm_get : SM S S := fun s => Returns (s, s).
Definition sm_modify (f : S -> S) : SM S unit := fun s => Returns (tt, f s).
Definition sm_lift {A} (o : option A) : SM S A := fun s =>
  match o with Some a => Returns (a, s) | None => Fails end.

(** ** Correctness *)
Definition spec {A} (total : bool) (m : SM S A) (Q : A -> S -> Prop) (s : S) : Prop :=
  match m s with
  | Returns (a, s') => Q a s'
  | Fails => False
  | Waits => total = false
  end.

Lemma spec_ret {A} b (a : A) Q s : Q a s -> spec b (mret a) Q s.
Proof. done. Qed.

(** The rule for a call: [P] is what the callee guarantees. *)
Lemma spec_bind {A B} b (m : SM S A) (f : A -> SM S B) P Q s :
  spec b m P s -> (forall a s', P a s' -> spec b (f a) Q s') -> spec b (m ≫= f) Q s.
Proof. unfold spec, mbind, SM_bind. destruct (m s) as [[a s']| |]; [|done|done]. intros HP Hf. exact (Hf a s' HP). Qed.

Lemma spec_mono {A} b (m : SM S A) (P Q : A -> S -> Prop) s :
  spec b m P s -> (forall a s', P a s' -> Q a s') -> spec b m Q s.
Proof. unfold spec. destruct (m s) as [[a s']| |]; auto. Qed.

Lemma spec_partial {A} b (m : SM S A) Q s : spec true m Q s -> spec b m Q s.
Proof. unfold spec. by destruct (m s) as [[a s']| |]. Qed.

Lemma spec_total {A} (m : SM S A) Q s : spec true m Q s <-> exists a s', m s = Returns (a, s') /\ Q a s'.
Proof.
  unfold spec. split.
  - destruct (m s) as [[a s']| |]; [eauto|done|done].
  - by intros (a & s' & -> & HQ).
Qed.

Lemma spec_returned {A} b (m : SM S A) Q s a s' : spec b m Q s -> m s = Returns (a, s') -> Q a s'.
Proof. unfold spec. by intros HQ Hm; rewrite Hm in HQ. Qed.

Lemma spec_assert b c (Q : unit -> S -> Prop) s : c = true -> Q tt s -> spec b (sm_assert c) Q s.
Proof. by intros ->. Qed.

Lemma spec_get b (Q : S -> S -> Prop) s : Q s s -> spec b sm_get Q s.
Proof. done. Qed.

Lemma spec_modify b f (Q : unit -> S -> Prop) s : Q tt (f s) -> spec b (sm_modify f) Q s.
Proof. done. Qed.

Lemma spec_lift {A} b (o : option A) a (Q : A -> S -> Prop) s : o = Some a -> Q a s -> spec b (sm_lift o) Q s.
Proof. by intros ->. Qed.
End ops.

(** Running the head of a sequence. *)
Lemma sm_bind_run {S A B} (m : SM S A) (f : A -> SM S B) s a s' : m s = Returns (a, s') -> (m ≫= f) s = f a s'.
Proof. unfold mbind, SM_bind. by intros ->. Qed.
Lemma sm_bind_lift {S A B} (o : option A) a (f : A -> SM S B) s : o = Some a -> (sm_lift o ≫= f) s = f a s.
Proof. by intros ->. Qed.

#[export] Hint Resolve spec_ret spec_get spec_modify : nv.

(** [spec_step H] is the rule for a call whose specification is [H]. *)
Ltac spec_step H := eapply spec_bind; [eapply H|].
