(* ===== verification/Tracker.v ===== *)
(** * Trackers of GPU work

    Model of kernel-open/nvidia-uvm/uvm_tracker.{c,h}.  A tracker is an array of
    (channel, value) entries: it stands for the work that the channels have done
    once their tracking semaphores reach the values.  One entry is stored in the
    tracker itself; more are kept in an allocated array that shares its memory with
    that entry, and [max_size] tells which of the two is there.

    Trackers, like the channel managers of the GPUs, are objects in a store, so
    that a function can be given the same tracker twice.  A channel is named by its
    GPU and its index in the GPU's manager.  Each interaction with the rest of the
    system happens at a point of time of its own ([tick]) at which the environment
    decides: whether memory can be allocated and what it contains, what the status
    of a channel is, and what other threads and the GPUs do while a thread spins.
    Printing the pending pushes after a timeout is among the latter: it only
    updates completed values. *)

From S2P Require Import Prelude StateMonad PageMask Pushbuffer GpuSemaphore Channel.

Notation gpu_id := positive.
Notation tracker_id := positive.
Notation channel_ptr := (gpu_id * channel_id)%type.

(** An entry; without a channel it counts as completed. *)
Record uvm_tracker_entry_t := mk_entry {
  entry_channel : option channel_ptr;
  entry_value : Z;
}.

(** The union of a tracker. *)
Inductive uvm_tracker_storage :=
| static_entries (entry : uvm_tracker_entry_t)
| dynamic_entries (entries : option (list uvm_tracker_entry_t)).

Record uvm_tracker_t := mk_tracker {
  storage : uvm_tracker_storage;
  tracker_size : Z;
  max_size : Z;
}.

#[export] Instance eta_tracker : Settable uvm_tracker_t :=
  fun r => mk_tracker (storage r) (tracker_size r) (max_size r).

(** ** The state *)
Record uvm_global_t := mk_global {
  managers : gmap gpu_id uvm_channel_manager_t;
  fatal_error : NV_STATUS;
}.

#[export] Instance eta_global : Settable uvm_global_t := fun r => mk_global (managers r) (fatal_error r).

(** [kv_allocated] counts the allocated arrays. *)
Record uvm_world := mk_world {
  global : uvm_global_t;
  trackers : gmap tracker_id uvm_tracker_t;
  kv_allocated : Z;
  time : nat;
}.

#[export] Instance eta_world : Settable uvm_world :=
  fun r => mk_world (global r) (trackers r) (kv_allocated r) (time r).

(** [kv_memory] gives the contents of new memory, if there is any. *)
Record tracker_env := mk_tracker_env {
  kv_memory : nat -> option (nat -> uvm_tracker_entry_t);
  notifiers_at : nat -> channel_ptr -> channel_notifiers;
  spin_others : nat -> uvm_global_t -> uvm_global_t;
}.

Definition channel_status (E : tracker_env) (n : nat) (c : channel_ptr) : NV_STATUS :=
  uvm_channel_get_status (notifiers_at E n c).

Notation TM := (SM uvm_world).

Section tracker.
Context (E : tracker_env).

(** ** The environment *)
Definition tick : TM nat := fun w => Returns (time w, w <| time := S (time w) |>).

Definition UVM_SPIN_LOOP : TM unit :=
  n ← tick; sm_modify (fun w => w <| global := spin_others E n (global w) |>).

Definition uvm_kvmalloc : TM (option (nat -> uvm_tracker_entry_t)) :=
  n ← tick; mret (kv_memory E n).

Definition uvm_global_get_status : TM NV_STATUS := w ← sm_get; mret (fatal_error (global w)).

(** [uvm_global_set_fatal_error_impl]: the first error is kept.  That the macro
    around it asserts in debug builds is not modelled. *)
Definition set_fatal (error : NV_STATUS) (g : uvm_global_t) : uvm_global_t :=
  if fatal_error g =? NV_OK then g <| fatal_error := error |> else g.

(** ** Channels *)
Definition uvm_channel_get_gpu (c : channel_ptr) : gpu_id := c.1.

Definition with_manager {A} (gpu : gpu_id) (f : uvm_channel_manager_t -> option (A * uvm_channel_manager_t))
    (g : uvm_global_t) : option (A * uvm_global_t) :=
  m ← managers g !! gpu;
  r ← f m;
  Some (r.1, g <| managers := <[gpu := r.2]> (managers g) |>).

Definition on_global {A} (f : uvm_global_t -> option (A * uvm_global_t)) : TM A := fun w =>
  match f (global w) with
  | Some (a, g) => Returns (a, w <| global := g |>)
  | None => Fails
  end.

Definition channel_value_completed (c : channel_ptr) (value : Z) : uvm_global_t -> option (bool * uvm_global_t) :=
  with_manager c.1 (fun m => uvm_channel_is_value_completed m c.2 value).

(** [uvm_channel_check_errors]: an error becomes the global one. *)
Definition channel_errors (c : channel_ptr) (status : NV_STATUS) (g : uvm_global_t)
    : option (NV_STATUS * uvm_global_t) :=
  r ← with_manager c.1 (fun m => uvm_channel_check_errors m c.2 status) g;
  Some (r.1, if r.1 =? NV_OK then r.2 else set_fatal r.1 r.2).

Definition channel_check_errors (c : option channel_ptr) : TM NV_STATUS :=
  c ← sm_lift c;
  n ← tick;
  on_global (channel_errors c (channel_status E n c)).

(** ** The arrays of entries *)
Definition get_tracker (id : tracker_id) : TM uvm_tracker_t := w ← sm_get; sm_lift (trackers w !! id).
Definition put_tracker (id : tracker_id) (t : uvm_tracker_t) : TM unit :=
  sm_modify (fun w => w <| trackers := <[id := t]> (trackers w) |>).

Definition UVM_TRACKER_INIT : uvm_tracker_t := mk_tracker (static_entries (mk_entry None 0)) 0 1.

Definition tracker_is_using_static_entries (t : uvm_tracker_t) : bool := max_size t =? 1.

(** Reading the member of the union that is not there fails. *)
Definition uvm_tracker_get_entries (t : uvm_tracker_t) : option (list uvm_tracker_entry_t) :=
  if tracker_is_using_static_entries t then
    match storage t with static_entries e => Some [e] | dynamic_entries _ => None end
  else
    match storage t with static_entries _ => None | dynamic_entries es => es end.

(** A write to the array that [uvm_tracker_get_entries] returns. *)
Definition set_entries (t : uvm_tracker_t) (es : list uvm_tracker_entry_t) : uvm_tracker_t :=
  match storage t, es with
  | static_entries _, e :: _ => t <| storage := static_entries e |>
  | static_entries _, [] => t
  | dynamic_entries _, _ => t <| storage := dynamic_entries (Some es) |>
  end.

(** What [for_each_tracker_entry] runs over. *)
Definition tracker_entries (t : uvm_tracker_t) : option (list uvm_tracker_entry_t) :=
  es ← uvm_tracker_get_entries t;
  if tracker_size t <=? Z.of_nat (length es) then Some (take (Z.to_nat (tracker_size t)) es) else None.

Definition entry_at (t : uvm_tracker_t) (i : Z) : option uvm_tracker_entry_t :=
  es ← uvm_tracker_get_entries t; es !! Z.to_nat i.

Definition set_entry (t : uvm_tracker_t) (i : Z) (e : uvm_tracker_entry_t) : option uvm_tracker_t :=
  es ← uvm_tracker_get_entries t;
  _ ← es !! Z.to_nat i;
  Some (set_entries t (<[Z.to_nat i := e]> es)).

(** ** Initialisation and capacity *)
Definition uvm_tracker_init (id : tracker_id) : TM unit := put_tracker id UVM_TRACKER_INIT.

Definition free_entries (t : uvm_tracker_t) : TM unit :=
  if tracker_is_using_static_entries t then mret tt
  else
    match storage t with
    | dynamic_entries (Some _) => sm_modify (fun w => w <| kv_allocated := kv_allocated w - 1 |>)
    | dynamic_entries None => mret tt
    | static_entries _ => sm_fail
    end.

(** All bytes of the tracker become zero. *)
Definition uvm_tracker_deinit (id : tracker_id) : TM unit :=
  t ← get_tracker id;
  _ ← free_entries t;
  put_tracker id (mk_tracker (dynamic_entries None) 0 0).

Definition uvm_tracker_clear (id : tracker_id) : TM unit :=
  t ← get_tracker id; put_tracker id (t <| tracker_size := 0 |>).

Definition uvm_tracker_is_empty (id : tracker_id) : TM bool :=
  t ← get_tracker id; mret (tracker_size t =? 0).

Definition roundup_pow_of_two (n : Z) : Z := 2 ^ Z.log2_up n.

(** An array of [n] entries that starts with [old]; the rest is as it was
    allocated. *)
Definition new_array (junk : nat -> uvm_tracker_entry_t) (n : Z) (old : list uvm_tracker_entry_t)
    : list uvm_tracker_entry_t :=
  let old := take (Z.to_nat n) old in
  old ++ (junk <$> seq (length old) (Z.to_nat n - length old)).

(** The array of [n] entries that [uvm_tracker_reserve] makes. *)
Definition resize_entries (t : uvm_tracker_t) (n : Z) (junk : nat -> uvm_tracker_entry_t)
    : TM (list uvm_tracker_entry_t) :=
  let allocate := sm_modify (fun w => w <| kv_allocated := kv_allocated w + 1 |>) in
  if tracker_is_using_static_entries t then
    match storage t with
    | static_entries e => _ ← allocate; mret (new_array junk n (take (Z.to_nat (tracker_size t)) [e]))
    | dynamic_entries _ => sm_fail
    end
  else
    match storage t with
    | dynamic_entries (Some es) => mret (new_array junk n es)
    | dynamic_entries None => _ ← allocate; mret (new_array junk n [])
    | static_entries _ => sm_fail
    end.

Definition uvm_tracker_reserve (id : tracker_id) (min_free_entries : Z) : TM NV_STATUS :=
  t ← get_tracker id;
  let needed := NvU32 (tracker_size t + min_free_entries) in
  if max_size t <? needed then
    let new_max_size := Z.max 8 (NvU32 (roundup_pow_of_two needed)) in
    memory ← uvm_kvmalloc;
    match memory with
    | None => mret NV_ERR_NO_MEMORY
    | Some junk =>
        new_entries ← resize_entries t new_max_size junk;
        let t := t <| storage := dynamic_entries (Some new_entries) |> <| max_size := new_max_size |> in
        _ ← put_tracker id t;
        _ ← sm_assert (needed <=? max_size t);
        mret NV_OK
    end
  else
    _ ← sm_assert (needed <=? max_size t);
    mret NV_OK.

(** The index of the new entry. *)
Definition get_new_entry (id : tracker_id) : TM (option Z) :=
  status ← uvm_tracker_reserve id 1;
  if negb (status =? NV_OK) then mret None
  else
    t ← get_tracker id;
    _ ← sm_assert (tracker_size t <? max_size t);
    _ ← put_tracker id (t <| tracker_size := NvU32 (tracker_size t + 1) |>);
    mret (Some (tracker_size t)).

(** ** Completed entries *)
Definition uvm_tracker_is_entry_completed (e : uvm_tracker_entry_t) : TM bool :=
  match entry_channel e with
  | None => mret true
  | Some c => on_global (channel_value_completed c (entry_value e))
  end.

Definition uvm_tracker_entry_gpu (e : uvm_tracker_entry_t) : option gpu_id :=
  uvm_channel_get_gpu <$> entry_channel e.

(** Every iteration removes an entry or moves on, so [tracker_size] iterations
    are enough. *)
Fixpoint remove_loop (fuel : nat) (id : tracker_id) (i : Z) : TM unit :=
  t ← get_tracker id;
  if i <? tracker_size t then
    match fuel with
    | O => sm_wait
    | S fuel =>
        e ← sm_lift (entry_at t i);
        completed ← uvm_tracker_is_entry_completed e;
        if completed : bool then
          let t := t <| tracker_size := NvU32 (tracker_size t - 1) |> in
          t ← (if negb (i =? tracker_size t) then
                 last ← sm_lift (entry_at t (tracker_size t));
                 sm_lift (set_entry t i last)
               else mret t);
          _ ← put_tracker id t;
          remove_loop fuel id i
        else remove_loop fuel id (NvU32 (i + 1))
    end
  else mret tt.

Definition uvm_tracker_remove_completed (id : tracker_id) : TM unit :=
  t ← get_tracker id;
  _ ← sm_lift (uvm_tracker_get_entries t);
  remove_loop (Z.to_nat (tracker_size t)) id 0.

Definition uvm_tracker_is_completed (id : tracker_id) : TM bool :=
  _ ← uvm_tracker_remove_completed id;
  t ← get_tracker id;
  mret (tracker_size t =? 0).

(** ** Adding and overwriting *)
Definition same_channel (e e' : uvm_tracker_entry_t) : bool :=
  bool_decide (entry_channel e = entry_channel e').

Definition uvm_tracker_add_entry (id : tracker_id) (new_entry : uvm_tracker_entry_t) : TM NV_STATUS :=
  t ← get_tracker id;
  es ← sm_lift (tracker_entries t);
  match list_find (fun e => same_channel e new_entry) es with
  | Some (i, e) =>
      t ← sm_lift (set_entry t (Z.of_nat i)
                     (mk_entry (entry_channel e) (Z.max (entry_value e) (entry_value new_entry))));
      _ ← put_tracker id t;
      mret NV_OK
  | None =>
      index ← get_new_entry id;
      match index with
      | None => mret NV_ERR_NO_MEMORY
      | Some i =>
          t ← get_tracker id;
          t ← sm_lift (set_entry t i new_entry);
          _ ← put_tracker id t;
          mret NV_OK
      end
  end.

Definition uvm_tracker_overwrite (dst src : tracker_id) : TM NV_STATUS :=
  _ ← uvm_tracker_clear dst;
  s ← get_tracker src;
  status ← uvm_tracker_reserve dst (tracker_size s);
  if negb (status =? NV_OK) then mret status
  else
    s ← get_tracker src;
    d ← get_tracker dst;
    _ ← put_tracker dst (d <| tracker_size := tracker_size s |>);
    s ← get_tracker src;
    d ← get_tracker dst;
    to ← sm_lift (uvm_tracker_get_entries d);
    from ← sm_lift (tracker_entries s);
    _ ← sm_assert (tracker_size s <=? Z.of_nat (length to));
    _ ← put_tracker dst (set_entries d (from ++ drop (length from) to));
    mret NV_OK.

Definition uvm_tracker_init_from (dst src : tracker_id) : TM NV_STATUS :=
  _ ← uvm_tracker_init dst;
  status ← uvm_tracker_overwrite dst src;
  if negb (status =? NV_OK) then
    _ ← uvm_tracker_deinit dst;
    _ ← uvm_tracker_init dst;
    mret status
  else mret status.

Definition uvm_tracker_overwrite_with_entry (id : tracker_id) (entry : uvm_tracker_entry_t) : TM unit :=
  _ ← uvm_tracker_clear id;
  status ← uvm_tracker_add_entry id entry;
  sm_assert (status =? NV_OK).

(** The entries of [src] whose channel [dst] does not have. *)
Definition missing (dst src : list uvm_tracker_entry_t) : list uvm_tracker_entry_t :=
  List.filter (fun e => negb (existsb (same_channel e) dst)) src.

Definition reserve_for_entries_from_tracker (dst src : tracker_id) : TM NV_STATUS :=
  s ← get_tracker src;
  d ← get_tracker dst;
  src_entries ← sm_lift (tracker_entries s);
  dst_entries ← (match src_entries with [] => mret [] | _ => sm_lift (tracker_entries d) end);
  uvm_tracker_reserve dst (NvU32 (Z.of_nat (length (missing dst_entries src_entries)))).

Fixpoint add_entries (dst : tracker_id) (es : list uvm_tracker_entry_t) : TM unit :=
  match es with
  | [] => mret tt
  | e :: es =>
      status ← uvm_tracker_add_entry dst e;
      _ ← sm_assert (status =? NV_OK);
      add_entries dst es
  end.

Definition uvm_tracker_add_tracker (dst : tracker_id) (src : option tracker_id) : TM NV_STATUS :=
  match src with
  | None => mret NV_OK
  | Some src =>
      if bool_decide (src = dst) then mret NV_OK
      else
        empty ← uvm_tracker_is_empty src;
        if empty : bool then mret NV_OK
        else
          s ← get_tracker src;
          status ← uvm_tracker_reserve dst (tracker_size s);
          status ← (if status =? NV_ERR_NO_MEMORY then
                      _ ← uvm_tracker_remove_completed dst;
                      _ ← uvm_tracker_remove_completed src;
                      reserve_for_entries_from_tracker dst src
                    else mret status);
          if negb (status =? NV_OK) then mret status
          else
            s ← get_tracker src;
            es ← sm_lift (tracker_entries s);
            _ ← add_entries dst es;
            mret NV_OK
  end.

(** ** Errors *)
Fixpoint check_entries (es : list uvm_tracker_entry_t) : TM NV_STATUS :=
  match es with
  | [] => mret NV_OK
  | e :: es =>
      status ← channel_check_errors (entry_channel e);
      if negb (status =? NV_OK) then mret status else check_entries es
  end.

Definition uvm_tracker_check_errors (id : tracker_id) : TM NV_STATUS :=
  status ← uvm_global_get_status;
  if negb (status =? NV_OK) then mret status
  else
    t ← get_tracker id;
    es ← sm_lift (tracker_entries t);
    check_entries es.

Definition uvm_tracker_query (id : tracker_id) : TM NV_STATUS :=
  completed ← uvm_tracker_is_completed id;
  status ← uvm_tracker_check_errors id;
  if negb (status =? NV_OK) then mret status
  else mret (if completed : bool then NV_OK else NV_WARN_MORE_PROCESSING_REQUIRED).

(** ** Waiting

    [fuel] bounds the number of times that the condition of a loop is evaluated. *)
Fixpoint wait_entry_loop (fuel : nat) (e : uvm_tracker_entry_t) (status : NV_STATUS) : TM NV_STATUS :=
  match fuel with
  | O => sm_wait
  | S fuel =>
      completed ← uvm_tracker_is_entry_completed e;
      if negb completed && (status =? NV_OK) then
        _ ← UVM_SPIN_LOOP;
        status ← channel_check_errors (entry_channel e);
        status ← (if status =? NV_OK then uvm_global_get_status else mret status);
        wait_entry_loop fuel e status
      else mret status
  end.

(** Returns the entry as it leaves it. *)
Definition wait_for_entry_with_spin (fuel : nat) (e : uvm_tracker_entry_t) : TM (NV_STATUS * uvm_tracker_entry_t) :=
  status ← wait_entry_loop fuel e NV_OK;
  if negb (status =? NV_OK) then
    fatal ← uvm_global_get_status;
    _ ← sm_assert (status =? fatal);
    mret (status, mk_entry None 0)
  else mret (status, e).

Definition uvm_tracker_wait_for_entry (fuel : nat) (e : uvm_tracker_entry_t)
    : TM (NV_STATUS * uvm_tracker_entry_t) := wait_for_entry_with_spin fuel e.

Fixpoint wait_loop (fuel : nat) (id : tracker_id) (status : NV_STATUS) : TM NV_STATUS :=
  match fuel with
  | O => sm_wait
  | S fuel =>
      completed ← uvm_tracker_is_completed id;
      if negb completed && (status =? NV_OK) then
        _ ← UVM_SPIN_LOOP;
        status ← uvm_tracker_check_errors id;
        wait_loop fuel id status
      else mret status
  end.

Definition uvm_tracker_wait (fuel : nat) (id : tracker_id) : TM NV_STATUS :=
  status ← wait_loop fuel id NV_OK;
  if negb (status =? NV_OK) then
    fatal ← uvm_global_get_status;
    _ ← sm_assert (status =? fatal);
    _ ← uvm_tracker_clear id;
    mret status
  else mret status.

Definition uvm_tracker_wait_deinit (fuel : nat) (id : tracker_id) : TM NV_STATUS :=
  status ← uvm_tracker_wait fuel id;
  _ ← uvm_tracker_deinit id;
  mret status.

(** The loop of [uvm_tracker_wait_for_other_gpus] over the entries from [i] on. *)
Fixpoint wait_other_loop (fuel n : nat) (id : tracker_id) (gpu : gpu_id) (i : Z) : TM NV_STATUS :=
  match n with
  | O => mret NV_OK
  | S n =>
      t ← get_tracker id;
      e ← sm_lift (entry_at t i);
      g ← sm_lift (uvm_tracker_entry_gpu e);
      if bool_decide (g = gpu) then wait_other_loop fuel n id gpu (i + 1)
      else
        '(status, e) ← wait_for_entry_with_spin fuel e;
        t ← get_tracker id;
        t ← sm_lift (set_entry t i e);
        _ ← put_tracker id t;
        if negb (status =? NV_OK) then mret status else wait_other_loop fuel n id gpu (i + 1)
  end.

Definition uvm_tracker_wait_for_other_gpus (fuel : nat) (id : tracker_id) (gpu : gpu_id) : TM NV_STATUS :=
  t ← get_tracker id;
  es ← sm_lift (tracker_entries t);
  status ← wait_other_loop fuel (length es) id gpu 0;
  if status =? NV_OK then
    _ ← uvm_tracker_remove_completed id;
    mret status
  else
    fatal ← uvm_global_get_status;
    _ ← sm_assert (status =? fatal);
    _ ← uvm_tracker_clear id;
    mret status.

(** ** Variants that wait when there is no memory *)
Definition uvm_tracker_overwrite_safe (fuel : nat) (dst src : tracker_id) : TM NV_STATUS :=
  status ← uvm_tracker_overwrite dst src;
  if status =? NV_ERR_NO_MEMORY then uvm_tracker_wait fuel src else mret status.

Definition uvm_tracker_add_entry_safe (fuel : nat) (id : tracker_id) (e : uvm_tracker_entry_t) : TM NV_STATUS :=
  status ← uvm_tracker_add_entry id e;
  if status =? NV_ERR_NO_MEMORY then r ← uvm_tracker_wait_for_entry fuel e; mret r.1 else mret status.

(** [src] is not NULL on the waiting path, as adding NULL succeeds. *)
Definition uvm_tracker_add_tracker_safe (fuel : nat) (dst : tracker_id) (src : option tracker_id) : TM NV_STATUS :=
  status ← uvm_tracker_add_tracker dst src;
  if status =? NV_ERR_NO_MEMORY then src ← sm_lift src; uvm_tracker_wait fuel src else mret status.
End tracker.
