(* ===== verification/TrackerOps.v ===== *)
(** * Correctness of the trackers

    A tracker stands for a set of pending obligations: pairs of a channel and a
    value that the channel's semaphore has not reached.  Every operation computes
    the set that its name promises, whatever the allocator answers; [max_size]
    always tells truly which member of the union a tracker uses, and no array is
    leaked.  The theorems are proved against [ChannelClock], what the channels
    promise to their trackers, and the channels of all GPUs are shown to keep that
    promise in every state they can reach. *)

From stdpp Require Import propset.
From S2P Require Import Prelude StateMonad PageMask Pushbuffer GpuSemaphore Channel Tracker.

(** ** Well-formed trackers *)
Definition array_of (t : uvm_tracker_t) : list uvm_tracker_entry_t :=
  match storage t with
  | static_entries e => [e]
  | dynamic_entries (Some es) => es
  | dynamic_entries None => []
  end.

(** The entries in use. *)
Definition live (t : uvm_tracker_t) : list uvm_tracker_entry_t :=
  take (Z.to_nat (tracker_size t)) (array_of t).

(** The number of allocated arrays of a tracker. *)
Definition arrays (t : uvm_tracker_t) : Z :=
  match storage t with dynamic_entries (Some _) => 1 | _ => 0 end.

(** [max_size] is the tag of the union and the capacity of the array. *)
Record storage_ok (t : uvm_tracker_t) : Prop := {
  so_union : match storage t with
             | static_entries _ => max_size t = 1
             | dynamic_entries (Some es) =>
                 max_size t = Z.of_nat (length es) /\ exists k, 3 <= k <= 31 /\ max_size t = 2 ^ k
             | dynamic_entries None => False
             end;
  so_size : 0 <= tracker_size t <= max_size t;
}.

Definition tracker_ok (t : uvm_tracker_t) : Prop := storage_ok t /\ NoDup (entry_channel <$> live t).

(** What [uvm_tracker_deinit] leaves. *)
Definition dead : uvm_tracker_t := mk_tracker (dynamic_entries None) 0 0.

Lemma storage_max t : storage_ok t -> 1 <= max_size t <= 2 ^ 31 /\ max_size t = Z.of_nat (length (array_of t)).
Proof.
  destruct t as [[e|[es|]] n m]; intros [Hu _]; cbn in *; [lia| |done].
  destruct Hu as (? & k & Hk & ->). pose proof (Z.pow_le_mono_r 2 3 k). pose proof (Z.pow_le_mono_r 2 k 31). lia.
Qed.

Lemma get_entries_ok t : storage_ok t -> uvm_tracker_get_entries t = Some (array_of t).
Proof.
  unfold uvm_tracker_get_entries, tracker_is_using_static_entries.
  destruct t as [[e|[es|]] n m]; intros [Hu _]; cbn in *; [by subst| |done].
  destruct Hu as (? & k & Hk & Em). pose proof (Z.pow_le_mono_r 2 3 k). by replace (m =? 1) with false by lia.
Qed.

Lemma live_length t : storage_ok t -> Z.of_nat (length (live t)) = tracker_size t.
Proof. intros Ht. pose proof (storage_max t Ht). destruct Ht as [_ ?]. unfold live. rewrite length_take. lia. Qed.

Lemma entries_ok t : storage_ok t -> tracker_entries t = Some (live t).
Proof.
  intros Ht. unfold tracker_entries. rewrite get_entries_ok by done. cbn.
  pose proof (storage_max t Ht). destruct Ht. by replace (_ <=? _) with true by lia.
Qed.

Lemma set_entries_ok t es :
  storage_ok t -> length es = length (array_of t) ->
  storage_ok (set_entries t es) /\ array_of (set_entries t es) = es /\ arrays (set_entries t es) = arrays t
  /\ tracker_size (set_entries t es) = tracker_size t /\ max_size (set_entries t es) = max_size t.
Proof.
  destruct t as [[e|[old|]] n m]; intros [Hu Hs] Hl; cbn in *; [|by rewrite <- Hl in Hu|done].
  destruct es as [|x [|]]; by cbn in *.
Qed.

Lemma entry_at_ok t i :
  storage_ok t -> 0 <= i < tracker_size t -> exists e, entry_at t i = Some e /\ live t !! Z.to_nat i = Some e.
Proof.
  intros Ht Hi. pose proof (live_length t Ht). destruct (lookup_lt_is_Some_2 (live t) (Z.to_nat i)) as [e He]; [lia|].
  exists e. split; [|done]. unfold entry_at. rewrite get_entries_ok by done. cbn.
  unfold live in He. by apply lookup_take_Some in He as [? _].
Qed.

(** Writing an entry in use. *)
Lemma set_entry_ok t i e :
  storage_ok t -> 0 <= i < tracker_size t ->
  exists t', set_entry t i e = Some t' /\ storage_ok t' /\ live t' = <[Z.to_nat i := e]> (live t) /\ arrays t' = arrays t
    /\ tracker_size t' = tracker_size t /\ max_size t' = max_size t.
Proof.
  intros Ht Hi. destruct (entry_at_ok t i Ht Hi) as (old & Hold & _). unfold entry_at, set_entry in *.
  rewrite get_entries_ok in * by done. cbn in *. rewrite Hold. cbn. eexists. split; [done|].
  destruct (set_entries_ok t (<[Z.to_nat i:=e]> (array_of t)) Ht) as (? & Ea & ? & Es & ?); [apply length_insert|].
  split_and!; try done. unfold live. rewrite Es, Ea. apply take_insert_lt. lia.
Qed.

(** Changing the number of entries in use. *)
Lemma storage_resize t n : storage_ok t -> 0 <= n <= max_size t -> storage_ok (t <| tracker_size := n |>).
Proof. by intros [] ?. Qed.

Lemma live_shrink t n :
  0 <= n <= tracker_size t -> live (t <| tracker_size := n |>) = take (Z.to_nat n) (live t).
Proof. intros Hn. unfold live. cbn. rewrite take_take. f_equal. lia. Qed.

(** ** Obligations *)
Notation obligation := (channel_ptr * Z)%type.

(** [done] is the value that the GPU has released on each channel. *)
Definition completed (done : gmap channel_ptr Z) (o : obligation) : Prop :=
  exists d, done !! o.1 = Some d /\ o.2 <= d.

Definition obliges (e : uvm_tracker_entry_t) (o : obligation) : Prop :=
  entry_channel e = Some o.1 /\ o.2 <= entry_value e.

Definition pending (done : gmap channel_ptr Z) (es : list uvm_tracker_entry_t) : propset obligation :=
  {[ o | ~ completed done o /\ exists e, e ∈ es /\ obliges e o ]}.

(** The GPUs move on. *)
Definition later (done done' : gmap channel_ptr Z) : Prop :=
  forall c d, done !! c = Some d -> exists d', done' !! c = Some d' /\ d <= d'.

#[export] Instance later_preorder : PreOrder later.
Proof.
  split.
  - intros done c d Hd. exists d. by split.
  - intros d1 d2 d3 H12 H23 c d Hd. destruct (H12 c d Hd) as (d' & Hd' & ?). destruct (H23 c d' Hd') as (d'' & ? & ?).
    exists d''. split; [done|lia].
Qed.

#[export] Instance completed_dec done o : Decision (completed done o).
Proof.
  destruct (done !! o.1) as [d|] eqn:Hd; [|right; intros (d & ? & _); congruence].
  destruct (decide (o.2 <= d)) as [Hle|Hgt]; [left; by exists d|right; intros (d' & ? & ?); simplify_eq; lia].
Defined.

Definition entry_done (done : gmap channel_ptr Z) (e : uvm_tracker_entry_t) : Prop :=
  match entry_channel e with Some c => completed done (c, entry_value e) | None => True end.

#[export] Instance entry_done_dec done e : Decision (entry_done done e).
Proof. unfold entry_done. destruct (entry_channel e); apply _. Defined.

(** The channel of an entry exists. *)
Definition entry_known (done : gmap channel_ptr Z) (e : uvm_tracker_entry_t) : Prop :=
  match entry_channel e with Some c => is_Some (done !! c) | None => True end.

Lemma completed_later done done' o : later done done' -> completed done o -> completed done' o.
Proof. intros Hl (d & Hd & Hle). destruct (Hl _ _ Hd) as (d' & ? & ?). exists d'. split; [done|lia]. Qed.

Lemma known_later done done' e : later done done' -> entry_known done e -> entry_known done' e.
Proof.
  unfold entry_known. destruct (entry_channel e); [|done]. intros Hl [d Hd]. destruct (Hl _ _ Hd) as (d' & ? & _). eauto.
Qed.

Lemma elem_of_pending done es o : o ∈ pending done es <-> ~ completed done o /\ exists e, e ∈ es /\ obliges e o.
Proof. by unfold pending; rewrite elem_of_PropSet. Qed.

Lemma pending_app done es es' : pending done (es ++ es') ≡ pending done es ∪ pending done es'.
Proof.
  intros o. rewrite elem_of_union, !elem_of_pending. setoid_rewrite elem_of_app. naive_solver.
Qed.

Lemma pending_cons done e es : pending done (e :: es) ≡ pending done [e] ∪ pending done es.
Proof. apply (pending_app done [e] es). Qed.

Lemma pending_nil done : pending done [] ≡ ∅.
Proof. intros o. rewrite elem_of_pending. setoid_rewrite elem_of_nil. set_solver. Qed.

#[export] Instance pending_perm done : Proper ((≡ₚ) ==> (≡)) (pending done).
Proof. intros es es' Hp o. rewrite !elem_of_pending. by setoid_rewrite Hp. Qed.

(** A completed entry obliges nothing. *)
Lemma pending_done done es : Forall (entry_done done) es -> pending done es ≡ ∅.
Proof.
  rewrite Forall_forall. intros Hd o. rewrite elem_of_pending. split; [|set_solver].
  intros (Hn & e & He & Hc & Hv). destruct Hn. specialize (Hd e He). unfold entry_done in Hd. rewrite Hc in Hd.
  destruct Hd as (d & ? & ?). exists d. split; [done|cbn in *; lia].
Qed.

Lemma pending_filter done es : pending done (filter (fun e => ~ entry_done done e) es) ≡ pending done es.
Proof.
  intros o. rewrite !elem_of_pending. setoid_rewrite list_elem_of_filter. split; [naive_solver|].
  intros (Hn & e & He & Ho). split; [done|]. exists e. split_and!; try done. intros Hd.
  pose proof (pending_done done [e]) as Hp. rewrite Forall_singleton in Hp. specialize (Hp Hd o).
  rewrite elem_of_pending in Hp. set_solver.
Qed.

(** Time only discharges obligations. *)
Lemma pending_later done done' es es' :
  later done done' -> pending done es ≡ pending done es' -> pending done' es ≡ pending done' es'.
Proof.
  intros Hl Heq o. rewrite !elem_of_pending. specialize (Heq o). rewrite !elem_of_pending in Heq.
  pose proof (completed_later _ _ o Hl). naive_solver.
Qed.

(** Merging two values of one channel. *)
Lemma pending_max done e e' :
  entry_channel e = entry_channel e' ->
  pending done [mk_entry (entry_channel e) (Z.max (entry_value e) (entry_value e'))] ≡ pending done [e] ∪ pending done [e'].
Proof.
  intros Hc o. rewrite elem_of_union, !elem_of_pending. setoid_rewrite list_elem_of_singleton. unfold obliges.
  split.
  - intros (Hn & x & -> & Hx & Hv). cbn in *. destruct (decide (o.2 <= entry_value e)); [left|right];
      (split; [done|]); eexists; (split; [done|]); (split; [congruence|lia]).
  - intros [(Hn & x & -> & Hx & Hv)|(Hn & x & -> & Hx & Hv)]; (split; [done|]); eexists; (split; [done|]);
      cbn; (split; [congruence|lia]).
Qed.

(** ** New arrays *)
Lemma new_array_length junk n old : 0 <= n -> Z.of_nat (length (new_array junk n old)) = n.
Proof.
  intros Hn. unfold new_array. rewrite length_app, length_fmap, length_seq. rewrite length_take. lia.
Qed.

Lemma new_array_take junk n old k :
  Z.of_nat k <= n -> (k <= length old)%nat -> take k (new_array junk n old) = take k old.
Proof.
  intros Hn Hk. unfold new_array. rewrite take_app_le by (rewrite length_take; lia).
  rewrite take_take. f_equal. lia.
Qed.

Lemma new_capacity n :
  1 <= n <= 2 ^ 31 ->
  exists k, 3 <= k <= 31 /\ Z.max 8 (NvU32 (roundup_pow_of_two n)) = 2 ^ k /\ n <= 2 ^ k.
Proof.
  intros Hn. unfold roundup_pow_of_two.
  assert (0 <= Z.log2_up n <= 31) as Hl.
  { split; [apply Z.log2_up_nonneg|]. rewrite <- (Z.log2_up_pow2 31) by lia. apply Z.log2_up_le_mono. lia. }
  assert (n <= 2 ^ Z.log2_up n) as Hup.
  { destruct (decide (n = 1)) as [->|]; [done|]. apply Z.log2_up_spec. lia. }
  unfold NvU32. rewrite wrap_small.
  2:{ unfold in_width. pose proof (Z.pow_le_mono_r 2 (Z.log2_up n) 31). lia. }
  destruct (decide (Z.log2_up n <= 3)) as [Hs|Hb].
  - exists 3. pose proof (Z.pow_le_mono_r 2 (Z.log2_up n) 3). lia.
  - exists (Z.log2_up n). pose proof (Z.pow_le_mono_r 2 3 (Z.log2_up n)). lia.
Qed.

(** ** What the channels promise *)
Class ChannelClock (R : uvm_global_t -> gmap channel_ptr Z -> Prop) := {
  clock_query g done c d v :
    R g done -> done !! c = Some d ->
    exists g', channel_value_completed c v g = Some (v <=? d, g') /\ R g' done /\ fatal_error g' = fatal_error g;
  clock_errors g done c d st :
    R g done -> done !! c = Some d ->
    exists g', channel_errors c st g = Some (st, g') /\ R g' done
      /\ fatal_error g' = if st =? NV_OK then fatal_error g else fatal_error (set_fatal st g);
  clock_finite g done : R g done -> Z.of_nat (size done) < 2 ^ 30;
}.

(** The other threads and the GPUs keep it, and all errors have one code; the
    obligations that are due at a time have been discharged then. *)
Record env_ok (R : uvm_global_t -> gmap channel_ptr Z -> Prop) (E : tracker_env) (err : NV_STATUS)
    (due : nat -> obligation -> Prop) : Prop := {
  eo_others n g done : R g done ->
    exists done', R (spin_others E n g) done' /\ later done done'
      /\ forall o, due n o -> is_Some (done !! o.1) -> completed done' o;
  eo_fatal n g : fatal_error g = NV_OK \/ fatal_error g = err ->
    fatal_error (spin_others E n g) = fatal_error g
    \/ fatal_error g = NV_OK /\ fatal_error (spin_others E n g) = err;
  eo_status n c : channel_status E n c = NV_OK \/ channel_status E n c = err;
}.

(** ** Worlds *)
Definition total_arrays (ts : gmap tracker_id uvm_tracker_t) : Z := map_fold (fun _ t n => arrays t + n) 0 ts.

Lemma total_arrays_insert ts id t :
  total_arrays (<[id := t]> ts) = total_arrays ts + arrays t - from_option arrays 0 (ts !! id).
Proof.
  assert (forall ts, ts !! id = None -> forall t, total_arrays (<[id := t]> ts) = arrays t + total_arrays ts) as Hnew.
  { intros ts' Hid t'. unfold total_arrays. apply (map_fold_insert_L (fun _ t n => arrays t + n)); [|done]. intros. lia. }
  destruct (ts !! id) as [old|] eqn:Hid; cbn.
  - rewrite <- (insert_delete_id ts id old Hid) at 2. rewrite <- insert_delete_eq, !Hnew by apply lookup_delete_eq. lia.
  - rewrite Hnew by done. lia.
Qed.

Definition tracker_good (done : gmap channel_ptr Z) (t : uvm_tracker_t) : Prop :=
  tracker_ok t /\ Forall (entry_known done) (live t).

Lemma good_later done done' t : later done done' -> tracker_good done t -> tracker_good done' t.
Proof.
  intros Hl [? Hk]. split; [done|]. eapply Forall_impl; [exact Hk|]. intros e. by apply known_later.
Qed.

(** The channels of a tracker are distinct, so their number is bounded. *)
Lemma good_size done t : tracker_good done t -> tracker_size t <= Z.of_nat (size done) + 1.
Proof.
  intros [[Hst Hnd] Hk]. rewrite <- live_length by done.
  assert (entry_channel <$> live t ⊆+ None :: (Some <$> (map_to_list done).*1)) as Hsub.
  { apply NoDup_submseteq; [done|]. intros c (e & -> & He)%list_elem_of_fmap.
    rewrite Forall_forall in Hk. specialize (Hk e He). unfold entry_known in Hk.
    destruct (entry_channel e) as [c|]; [|set_solver]. right. destruct Hk as [d Hd]. apply list_elem_of_fmap.
    exists c. split; [done|]. apply list_elem_of_fmap. exists (c, d). split; [done|]. by apply elem_of_map_to_list. }
  apply submseteq_length in Hsub. cbn in Hsub. rewrite !length_fmap, length_map_to_list in Hsub. lia.
Qed.

Section worlds.
Context (R : uvm_global_t -> gmap channel_ptr Z -> Prop).

Record world_ok (done : gmap channel_ptr Z) (w : uvm_world) : Prop := {
  wo_clock : R (global w) done;
  wo_good id t : trackers w !! id = Some t -> t = dead \/ tracker_good done t;
  wo_arrays : kv_allocated w = total_arrays (trackers w);
}.

(** Tracker [id] has become [t]; the others and the errors are as they were. *)
Record changed (done : gmap channel_ptr Z) (w w' : uvm_world) (id : tracker_id) (t : uvm_tracker_t) : Prop := {
  ch_trackers : trackers w' = <[id := t]> (trackers w);
  ch_good : tracker_good done t;
  ch_world : world_ok done w';
  ch_fatal : fatal_error (global w') = fatal_error (global w);
  ch_time : (time w <= time w')%nat;
}.

Lemma changed_trans done w w1 w2 id t1 t2 :
  changed done w w1 id t1 -> changed done w1 w2 id t2 -> changed done w w2 id t2.
Proof.
  intros [E1 _ _ F1 T1] [E2 G2 W2 F2 T2]. split; try done; [by rewrite E2, E1, insert_insert_eq|congruence|lia].
Qed.

Lemma changed_lookup done w w' id t : changed done w w' id t -> trackers w' !! id = Some t.
Proof. intros [-> _ _ _ _]. apply lookup_insert_eq. Qed.

Lemma changed_refl done w id t :
  world_ok done w -> trackers w !! id = Some t -> tracker_good done t -> changed done w w id t.
Proof. intros Hw Ht Hg. split; try done. by rewrite insert_id. Qed.

Lemma changed_intro done w w' id t t' :
  world_ok done w -> trackers w !! id = Some t -> tracker_good done t' ->
  trackers w' = <[id := t']> (trackers w) -> R (global w') done ->
  fatal_error (global w') = fatal_error (global w) -> kv_allocated w' = kv_allocated w + arrays t' - arrays t ->
  (time w <= time w')%nat -> changed done w w' id t'.
Proof.
  intros [Hc Hg Ha] Ht Ht' Hts Hr Hf Hk Htime. split; try done. split; [done| |].
  - intros id' x. rewrite Hts, lookup_insert_Some. intros [[_ <-]|[_ Hx]]; [by right|by eapply Hg].
  - rewrite Hts, total_arrays_insert, Ht, Hk, Ha. cbn. lia.
Qed.

Lemma world_global done done' w w' :
  world_ok done w -> trackers w' = trackers w -> kv_allocated w' = kv_allocated w -> R (global w') done' ->
  later done done' -> world_ok done' w'.
Proof.
  intros [Hc Hg Ha] Ht Hk Hr Hl. split; [done| |by rewrite Hk, Ht].
  intros id t. rewrite Ht. intros [|]%Hg; [by left|right]. by eapply good_later.
Qed.
End worlds.

(** ** Rules for the primitives *)
Lemma spec_tracker {A} b id t (f : uvm_tracker_t -> TM A) Q w :
  trackers w !! id = Some t -> spec b (f t) Q w -> spec b (get_tracker id ≫= f) Q w.
Proof. intros Ht Hf. unfold spec, get_tracker, mbind, SM_bind, sm_get, sm_lift in *. by rewrite Ht. Qed.

Lemma spec_put {A} b id t (f : unit -> TM A) Q w :
  spec b (f tt) Q (w <| trackers := <[id := t]> (trackers w) |>) -> spec b (put_tracker id t ≫= f) Q w.
Proof. done. Qed.

Lemma spec_lift_bind {A B} b (o : option A) a (f : A -> TM B) Q w :
  o = Some a -> spec b (f a) Q w -> spec b (sm_lift o ≫= f) Q w.
Proof. by intros ->. Qed.

Lemma spec_assert_bind {A} b c (f : unit -> TM A) Q w :
  c = true -> spec b (f tt) Q w -> spec b (sm_assert c ≫= f) Q w.
Proof. by intros ->. Qed.

(** ** The operations that do not wait *)
Section ops.
Context (R : uvm_global_t -> gmap channel_ptr Z -> Prop) `{Hclock : !ChannelClock R} (E : tracker_env).
Notation world_ok := (world_ok R).
Notation changed := (changed R).
Implicit Types (b : bool) (done : gmap channel_ptr Z) (w : uvm_world).

(** A larger array keeps the entries. *)
Lemma grow_good done t es k :
  tracker_good done t -> 3 <= k <= 31 -> max_size t <= 2 ^ k ->
  length es = Z.to_nat (2 ^ k) -> take (Z.to_nat (tracker_size t)) es = live t ->
  let t' := t <| storage := dynamic_entries (Some es) |> <| max_size := 2 ^ k |> in
  tracker_good done t' /\ live t' = live t /\ arrays t' = 1.
Proof.
  intros [[Hst Hnd] Hk] H3 Hmax Hl Htake. destruct Hst as [_ Hs]. split; [|done].
  split; [|by unfold live; cbn; rewrite Htake]. split; [|by unfold live; cbn; rewrite Htake].
  split; [|cbn; lia]. cbn. split; [lia|]. by exists k.
Qed.

Lemma kvmalloc_spec b w : spec b (uvm_kvmalloc E) (fun _ w' => w' = w <| time := S (time w) |>) w.
Proof. done. Qed.

Lemma resize_spec b done t n junk w :
  tracker_good done t -> max_size t <= n ->
  spec b (resize_entries t n junk) (fun es w' => length es = Z.to_nat n
    /\ take (Z.to_nat (tracker_size t)) es = live t /\ w' = w <| kv_allocated := kv_allocated w + 1 - arrays t |>) w.
Proof.
  intros [[Hst _] _] Hn. pose proof (storage_max t Hst) as [Hm Hl]. pose proof Hst as [Hu Hs].
  pose proof (get_entries_ok t Hst) as Hget. unfold resize_entries, uvm_tracker_get_entries, live, arrays, array_of in *.
  destruct (tracker_is_using_static_entries t), (storage t) as [e|[es|]] eqn:Hsto; try done; cbn in Hl, Hu |- *.
  - split_and!; [pose proof (new_array_length junk n (take (Z.to_nat (tracker_size t)) [e])); lia| |].
    + rewrite new_array_take, take_take by (rewrite ?length_take; cbn; lia). f_equal. lia.
    + destruct w. unfold update_field. cbn. f_equal. lia.
  - split_and!; [pose proof (new_array_length junk n es); lia| |].
    + rewrite new_array_take by lia. done.
    + destruct w. unfold update_field. cbn. f_equal. lia.
Qed.

Lemma reserve_spec b done w id t n :
  world_ok done w -> trackers w !! id = Some t -> tracker_good done t -> 0 <= n -> tracker_size t + n <= 2 ^ 31 ->
  spec b (uvm_tracker_reserve E id n) (fun st w' => exists t', changed done w w' id t'
    /\ live t' = live t /\ tracker_size t' = tracker_size t /\ max_size t <= max_size t'
    /\ (st = NV_OK /\ tracker_size t + n <= max_size t' \/ st = NV_ERR_NO_MEMORY /\ t' = t /\ max_size t < tracker_size t + n)) w.
Proof.
  intros Hw Ht Hg Hn Hmax. pose proof Hg as [[Hst Hnd] Hk]. pose proof (storage_max t Hst) as [Hm Hlen].
  pose proof Hst as [Hu Hs]. unfold uvm_tracker_reserve. apply (spec_tracker _ _ _ _ _ _ Ht).
  replace (NvU32 (tracker_size t + n)) with (tracker_size t + n) by (symmetry; apply NvU32_small; lia).
  cbv zeta. destruct (max_size t <? tracker_size t + n) eqn:Hlt.
  2:{ apply spec_assert_bind; [lia|]. apply spec_ret.
      exists t. split_and!; try done; [by apply changed_refl|left; split; [done|lia]]. }
  destruct (new_capacity (tracker_size t + n)) as (k & Hk3 & Hcap & Hle); [lia|]. rewrite Hcap.
  spec_step kvmalloc_spec. intros [junk|] w1 ->.
  2:{ apply spec_ret. exists t. split_and!; try done; [|right; split_and!; [done|done|lia]].
      eapply changed_intro; try done; [by rewrite insert_id|apply Hw|cbn; lia|cbn; lia]. }
  spec_step (resize_spec b done t (2 ^ k) junk); [done|lia|]. intros es w1 (Hes & Htake & ->).
  apply spec_put. apply spec_assert_bind; [cbn; lia|]. apply spec_ret.
  destruct (grow_good done t es k Hg Hk3 ltac:(lia) Hes Htake) as (Hg' & Hlive & Harr).
  eexists. split_and!; [| exact Hlive|done|cbn; lia|left; split; [done|cbn; lia]].
  eapply changed_intro; try done; [apply Hw|cbn; lia].
Qed.

(** ** Completed entries *)
Record quiet (done : gmap channel_ptr Z) (w w' : uvm_world) : Prop := {
  qu_trackers : trackers w' = trackers w;
  qu_world : world_ok done w';
  qu_fatal : fatal_error (global w') = fatal_error (global w);
  qu_time : (time w <= time w')%nat;
}.

Lemma quiet_changed done w w1 w2 id t : quiet done w w1 -> changed done w1 w2 id t -> changed done w w2 id t.
Proof. intros [E1 W1 F1 T1] [E2 G2 W2 F2 T2]. split; try done; [by rewrite E2, E1|congruence|lia]. Qed.

Lemma changed_quiet done w w1 w2 id t : changed done w w1 id t -> quiet done w1 w2 -> changed done w w2 id t.
Proof. intros [E1 G1 W1 F1 T1] [E2 W2 F2 T2]. split; try done; [by rewrite E2, E1|congruence|lia]. Qed.

Lemma entry_completed_spec b done w e :
  world_ok done w -> entry_known done e ->
  spec b (uvm_tracker_is_entry_completed e) (fun r w' => r = bool_decide (entry_done done e) /\ quiet done w w') w.
Proof.
  intros Hw Hk. unfold uvm_tracker_is_entry_completed, entry_known, entry_done in *.
  destruct e as [[c|] v]; cbn in *; [|by split].
  destruct Hk as [d Hd]. destruct (clock_query (global w) done c d v (wo_clock _ _ _ Hw) Hd) as (g' & Hq & Hr & Hf).
  unfold spec, on_global. rewrite Hq. split.
  - apply eq_bool_prop_intro. rewrite bool_decide_spec, Is_true_true, Z.leb_le. unfold completed. cbn. split; [eauto|].
    intros (d' & ? & ?). by simplify_eq.
  - split; [done| |done|done]. eapply world_global; try done.
Qed.

Lemma swap_remove {A} (l : list A) i e x :
  l !! i = Some e -> last l = Some x -> e :: <[i := x]> (take (length l - 1) l) ≡ₚ l.
Proof.
  intros Hi [l0 ->]%last_Some. rewrite length_app, Nat.add_sub, take_app_length in *.
  destruct (decide (i < length l0)%nat) as [Hlt|Hge].
  - rewrite lookup_app_l in Hi by done. destruct (list_elem_of_split_length l0 i e Hi) as (a & b & -> & ->).
    rewrite insert_app_r_alt, Nat.sub_diag by lia. cbn. solve_Permutation.
  - assert (i = length l0) as -> by (apply lookup_lt_Some in Hi; rewrite length_app in Hi; cbn in Hi; lia).
    rewrite list_insert_ge by lia. rewrite lookup_app_r, Nat.sub_diag in Hi by lia. cbn in Hi. simplify_eq.
    solve_Permutation.
Qed.

(** The body of the loop of [uvm_tracker_remove_completed] on a completed entry. *)
Lemma remove_one t i e :
  storage_ok t -> 0 <= i < tracker_size t -> live t !! Z.to_nat i = Some e ->
  let t1 := t <| tracker_size := NvU32 (tracker_size t - 1) |> in
  exists t', (forall w, (if negb (i =? tracker_size t1) then
                 last ← sm_lift (entry_at t1 (tracker_size t1)); sm_lift (set_entry t1 i last)
               else mret t1) w = Returns (t', w))
    /\ storage_ok t' /\ tracker_size t' = tracker_size t - 1 /\ max_size t' = max_size t /\ arrays t' = arrays t
    /\ e :: live t' ≡ₚ live t /\ take (Z.to_nat i) (live t') = take (Z.to_nat i) (live t).
Proof.
  intros Hst Hi He. pose proof (storage_max t Hst) as [Hm Hl]. pose proof (live_length t Hst) as Hlen. pose proof Hst as [_ Hs].
  replace (NvU32 (tracker_size t - 1)) with (tracker_size t - 1) by (symmetry; apply NvU32_small; lia).
  set (t1 := t <| tracker_size := tracker_size t - 1 |>). cbv zeta.
  assert (storage_ok t1) as Hst1 by (apply storage_resize; [done|lia]).
  destruct (entry_at_ok t (tracker_size t - 1) Hst ltac:(lia)) as (x & Hx & Hlx).
  assert (live t1 = take (length (live t) - 1) (live t)) as Hl1.
  { unfold t1. rewrite live_shrink by lia. f_equal. lia. }
  assert (last (live t) = Some x) as Hlast by (rewrite last_lookup, <- Hlx; f_equal; lia).
  assert (tracker_size t1 = tracker_size t - 1) as Hs1 by done. rewrite Hs1.
  destruct (i =? tracker_size t - 1) eqn:Heq; cbn [negb].
  - exists t1. split_and!; try done.
    + rewrite Hl1. rewrite <- (swap_remove (live t) _ e x He Hlast) at 3.
      rewrite list_insert_ge by (rewrite length_take; lia). done.
    + rewrite Hl1, take_take. f_equal. lia.
  - destruct (set_entry_ok t1 i x Hst1 ltac:(lia)) as (t' & Hset & Hst' & Hl' & Ha' & Hs' & Hm').
    exists t'. split; [intros w; change (entry_at t1) with (entry_at t); rewrite sm_bind_lift with (a := x) by done; unfold sm_lift; by rewrite Hset|].
    split_and!; try done.
    + rewrite Hl', Hl1. by apply swap_remove.
    + rewrite Hl', Hl1, take_insert_ge by lia. rewrite take_take. f_equal. lia.
Qed.

Lemma good_perm done t t' es :
  tracker_good done t -> storage_ok t' -> es ++ live t' ≡ₚ live t -> tracker_good done t'.
Proof.
  intros [[_ Hnd] Hk] Hst Hp. rewrite <- Hp in Hk, Hnd. rewrite fmap_app in Hnd. apply NoDup_app in Hnd as (_ & _ & ?).
  by apply Forall_app in Hk as [_ ?].
Qed.

Lemma filter_Forall_all {A} (P : A -> Prop) `{!forall x, Decision (P x)} l : Forall P l -> filter P l = l.
Proof. induction 1 as [|x l Hx _ IH]; [done|]. by rewrite filter_cons_True, IH. Qed.

Lemma remove_loop_spec b done id fuel : forall w t i,
  world_ok done w -> trackers w !! id = Some t -> tracker_good done t -> 0 <= i <= tracker_size t ->
  Forall (fun e => ~ entry_done done e) (take (Z.to_nat i) (live t)) -> tracker_size t - i <= Z.of_nat fuel ->
  spec b (remove_loop fuel id i) (fun _ w' => exists t', changed done w w' id t'
    /\ live t' ≡ₚ filter (fun e => ~ entry_done done e) (live t) /\ max_size t' = max_size t) w.
Proof.
  induction fuel as [|fuel IH]; intros w t i Hw Ht Hg Hi Hbefore Hfuel;
    pose proof Hg as [[Hst _] Hk]; pose proof (live_length t Hst) as Hlen; pose proof (storage_max t Hst) as [Hm _];
    pose proof Hst as [_ Hs]; unfold remove_loop; fold remove_loop; apply (spec_tracker _ _ _ _ _ _ Ht).
  all: assert (i = tracker_size t -> spec b (mret tt : TM unit) (fun _ w' => exists t', changed done w w' id t'
    /\ live t' ≡ₚ filter (fun e => ~ entry_done done e) (live t) /\ max_size t' = max_size t) w) as Hend.
  1,3: intros ->; apply spec_ret; exists t; split_and!; [by apply changed_refl| |done];
    rewrite take_ge in Hbefore by lia; by rewrite filter_Forall_all.
  - replace (i <? tracker_size t) with false by lia. apply Hend. lia.
  - destruct (i <? tracker_size t) eqn:Hlt; [|apply Hend; lia].
    destruct (entry_at_ok t i Hst ltac:(lia)) as (e & He & Hle). apply (spec_lift_bind _ _ _ _ _ _ He).
    assert (entry_known done e) as Hke by (eapply Forall_lookup_1; eauto).
    spec_step (entry_completed_spec b done w e Hw Hke). intros r w1 [-> Hq]. case_bool_decide as Hd.
    + destruct (remove_one t i e Hst ltac:(lia) Hle) as (t' & Hrun & Hst' & Hs' & Hm' & Ha' & Hp & Htk). cbv zeta.
      eapply spec_bind with (P := fun x w' => x = t' /\ w' = w1); [unfold spec; by rewrite Hrun|].
      intros ? ? [-> ->]. apply spec_put. set (w2 := w1 <| trackers := _ |>).
      assert (tracker_good done t') as Hg' by (by apply (good_perm done t t' [e])).
      assert (changed done w w2 id t') as Hch.
      { eapply quiet_changed; [exact Hq|]. destruct Hq as [Et Wq Fq Tq]. eapply changed_intro; try done.
        - by rewrite Et.
        - apply Wq.
        - cbn. lia. }
      eapply spec_mono; [apply (IH w2 t' i); try done|].
      * apply Hch. * by eapply changed_lookup. * lia. * by rewrite Htk. * lia.
      * intros _ w' (t'' & Hch' & Hp' & Hm''). exists t''. split_and!; [by eapply changed_trans| |congruence].
        rewrite Hp', <- Hp. by rewrite filter_cons_False by tauto.
    + rewrite NvU32_small by lia. destruct Hq as [Et Wq Fq Tq].
      eapply spec_mono; [apply (IH w1 t (i + 1)); try done|].
      * by rewrite Et. * lia.
      * replace (Z.to_nat (i + 1)) with (S (Z.to_nat i)) by lia. rewrite (take_S_r _ _ e) by done. apply Forall_app. split; [done|]. by constructor.
      * lia.
      * intros _ w' (t' & Hch & ?). exists t'. split; [|done]. by eapply quiet_changed.
Qed.

Lemma remove_completed_spec b done w id t :
  world_ok done w -> trackers w !! id = Some t -> tracker_good done t ->
  spec b (uvm_tracker_remove_completed id) (fun _ w' => exists t', changed done w w' id t'
    /\ live t' ≡ₚ filter (fun e => ~ entry_done done e) (live t) /\ max_size t' = max_size t) w.
Proof.
  intros Hw Ht Hg. pose proof Hg as [[Hst _] _]. unfold uvm_tracker_remove_completed. apply (spec_tracker _ _ _ _ _ _ Ht).
  apply (spec_lift_bind _ _ _ _ _ _ (get_entries_ok t Hst)). destruct Hst as [_ Hs].
  apply remove_loop_spec; try done; lia || constructor.
Qed.

(** ** Adding an entry *)
Definition has (es : list uvm_tracker_entry_t) (e : uvm_tracker_entry_t) : Prop :=
  entry_channel e ∈ (entry_channel <$> es).

Lemma append_entry t e :
  storage_ok t -> tracker_size t < max_size t ->
  exists t', set_entry (t <| tracker_size := tracker_size t + 1 |>) (tracker_size t) e = Some t'
    /\ storage_ok t' /\ live t' = live t ++ [e] /\ arrays t' = arrays t /\ max_size t' = max_size t.
Proof.
  intros Hst Hlt. pose proof (storage_max t Hst) as [Hm Hl]. pose proof (live_length t Hst) as Hlen. pose proof Hst as [_ Hs].
  set (t1 := t <| tracker_size := tracker_size t + 1 |>).
  assert (storage_ok t1) as Hst1 by (apply storage_resize; [done|lia]).
  destruct (set_entry_ok t1 (tracker_size t) e Hst1) as (t' & Hset & Hst' & Hl' & Ha' & _ & Hm'); [cbn; lia|].
  exists t'. split_and!; try done. rewrite Hl'.
  destruct (lookup_lt_is_Some_2 (array_of t) (Z.to_nat (tracker_size t))) as [x Hx]; [lia|].
  assert (live t1 = live t ++ [x]) as ->.
  { unfold live at 1. cbn. replace (Z.to_nat (tracker_size t + 1)) with (S (Z.to_nat (tracker_size t))) by lia.
    by apply take_S_r. }
  rewrite insert_app_r_alt by lia. by replace (Z.to_nat (tracker_size t) - length (live t))%nat with 0%nat by lia.
Qed.

Lemma get_new_entry_spec b done w id t :
  world_ok done w -> trackers w !! id = Some t -> tracker_good done t ->
  spec b (get_new_entry E id) (fun o w' =>
    o = None /\ changed done w w' id t /\ tracker_size t = max_size t
    \/ o = Some (tracker_size t) /\ exists t1 w1, changed done w w1 id t1 /\ live t1 = live t /\ tracker_size t1 = tracker_size t
         /\ tracker_size t1 < max_size t1 /\ max_size t <= max_size t1
         /\ w' = w1 <| trackers := <[id := t1 <| tracker_size := tracker_size t1 + 1 |>]> (trackers w1) |>) w.
Proof.
  intros Hw Ht Hg. pose proof (good_size done t Hg) as Hsz. pose proof (clock_finite _ _ (wo_clock _ _ _ Hw)) as Hfin.
  pose proof Hg as [[[_ Hs] _] _]. unfold get_new_entry.
  spec_step (reserve_spec b done w id t 1 Hw Ht Hg); [lia|lia|].
  intros st w1 (t1 & Hch & Hl1 & Hs1 & Hm1 & [[-> Hroom]|(-> & -> & Hfull)]); cbn [negb Z.eqb].
  - eapply spec_tracker; [by eapply changed_lookup|]. apply spec_assert_bind; [lia|]. apply spec_put, spec_ret.
    right. split; [by rewrite Hs1|]. exists t1, w1. rewrite NvU32_small by lia. split_and!; done || lia.
  - apply spec_ret. left. split_and!; done || lia.
Qed.

Lemma pending_update done es i e e' :
  es !! i = Some e -> entry_channel e = entry_channel e' ->
  pending done (<[i := mk_entry (entry_channel e) (Z.max (entry_value e) (entry_value e'))]> es) ≡ pending done (es ++ [e']).
Proof.
  intros Hi Hc. destruct (list_elem_of_split_length es i e Hi) as (a & b & -> & ->).
  rewrite insert_app_r_alt, Nat.sub_diag by lia. cbn [insert list_insert]. rewrite !pending_app, pending_cons, pending_max by done.
  rewrite (pending_cons _ e b). set_solver.
Qed.

Lemma add_entry_spec b done w id t e :
  world_ok done w -> trackers w !! id = Some t -> tracker_good done t -> entry_known done e ->
  spec b (uvm_tracker_add_entry E id e) (fun st w' => exists t', changed done w w' id t' /\ max_size t <= max_size t'
    /\ (st = NV_OK /\ pending done (live t') ≡ pending done (live t ++ [e])
          /\ (has (live t) e /\ entry_channel <$> live t' = entry_channel <$> live t \/ ~ has (live t) e /\ live t' = live t ++ [e])
        \/ st = NV_ERR_NO_MEMORY /\ t' = t /\ ~ has (live t) e /\ tracker_size t = max_size t)) w.
Proof.
  intros Hw Ht Hg Hke. pose proof Hg as [[Hst Hnd] Hk]. pose proof (live_length t Hst) as Hlen. pose proof Hst as [_ Hs].
  unfold uvm_tracker_add_entry. apply (spec_tracker _ _ _ _ _ _ Ht). apply (spec_lift_bind _ _ _ _ _ _ (entries_ok t Hst)).
  destruct (list_find _ (live t)) as [[i x]|] eqn:Hfind.
  - apply list_find_Some in Hfind as (Hi & Hx & _). unfold same_channel in Hx. apply bool_decide_unpack in Hx.
    destruct (set_entry_ok t (Z.of_nat i) (mk_entry (entry_channel x) (Z.max (entry_value x) (entry_value e))) Hst)
      as (t' & Hset & Hst' & Hl' & Ha' & Hs' & Hm').
    { apply lookup_lt_Some in Hi. lia. }
    rewrite Nat2Z.id in Hl'. apply (spec_lift_bind _ _ _ _ _ _ Hset). apply spec_put, spec_ret. exists t'.
    assert (entry_channel <$> live t' = entry_channel <$> live t) as Hcs.
    { rewrite Hl', list_fmap_insert. cbn. apply list_insert_id. by rewrite list_lookup_fmap, Hi. }
    split; [|split; [lia|left; split; [done|split]]].
    + eapply changed_intro; try done; [|apply Hw|cbn; lia]. split; [split; [done|by rewrite Hcs]|].
      rewrite Hl'. apply Forall_insert; [done|]. unfold entry_known. cbn. rewrite Hx. apply Hke.
    + rewrite Hl'. by apply pending_update.
    + left. split; [|done]. unfold has. rewrite <- Hx. apply list_elem_of_fmap_2. by eapply list_elem_of_lookup_2.
  - apply list_find_None in Hfind. rewrite Forall_forall in Hfind.
    assert (~ has (live t) e) as Hno.
    { intros (x & Hx & Hin)%list_elem_of_fmap. apply (Hfind x Hin). by apply bool_decide_pack. }
    spec_step get_new_entry_spec; [done..|].
    intros o w' [(-> & Hch & Hfull)|(-> & t1 & w1 & Hch & Hl1 & Hs1 & Hlt & Hmx & ->)].
    { apply spec_ret. exists t. split_and!; [done|lia|]. right. by split_and!. }
    eapply spec_tracker; [apply lookup_insert_eq|]. pose proof Hch as [Et1 [[Hst1 _] _] Hw1 _ _].
    destruct (append_entry t1 e Hst1 Hlt) as (t' & Hset & Hst' & Hl' & Ha' & Hm'). rewrite <- Hs1.
    apply (spec_lift_bind _ _ _ _ _ _ Hset). apply spec_put, spec_ret. exists t'. rewrite Hl1 in Hl'.
    split; [|split; [lia|left; split; [done|split; [by rewrite Hl'|by right]]]].
    eapply changed_trans; [exact Hch|]. eapply changed_intro; try done.
    + by eapply changed_lookup.
    + split; [split; [done|]|]; rewrite Hl'; [|by apply Forall_app; split; [|constructor]].
      rewrite fmap_app. apply NoDup_app. split_and!; [done| |apply NoDup_singleton].
      intros c Hc ->%list_elem_of_singleton. by apply Hno.
    + cbn. apply insert_insert_eq.
    + apply Hw1.
    + cbn. lia.
Qed.

(** ** Adding a tracker *)
Lemma missing_has es e : existsb (same_channel e) es = true <-> has es e.
Proof.
  rewrite existsb_exists. unfold has, same_channel. rewrite list_elem_of_fmap. setoid_rewrite <- list_elem_of_In.
  setoid_rewrite bool_decide_eq_true. naive_solver.
Qed.

Lemma missing_mono ds ds' es :
  (forall e, has ds e -> has ds' e) -> (length (missing ds' es) <= length (missing ds es))%nat.
Proof.
  intros Hsub. unfold missing. induction es as [|e es IH]; [done|]. cbn. specialize (Hsub e).
  rewrite <- !missing_has in Hsub. destruct (existsb _ ds) eqn:H1, (existsb _ ds') eqn:H2; cbn; try lia.
Qed.

Lemma missing_cons ds e es :
  missing ds (e :: es) = if existsb (same_channel e) ds then missing ds es else e :: missing ds es.
Proof. unfold missing. cbn. by destruct (existsb _ ds). Qed.

Lemma missing_length ds es : (length (missing ds es) <= length es)%nat.
Proof. apply List.filter_length_le. Qed.

Lemma add_entries_spec b done id es : forall w t,
  world_ok done w -> trackers w !! id = Some t -> tracker_good done t -> Forall (entry_known done) es ->
  tracker_size t + Z.of_nat (length (missing (live t) es)) <= max_size t ->
  spec b (add_entries E id es) (fun _ w' => exists t', changed done w w' id t'
    /\ pending done (live t') ≡ pending done (live t ++ es)) w.
Proof.
  induction es as [|e es IH]; intros w t Hw Ht Hg Hk Hroom.
  { apply spec_ret. exists t. rewrite app_nil_r. split; [by apply changed_refl|done]. }
  apply Forall_cons in Hk as [Hke Hkes]. cbn [add_entries]. pose proof Hg as [[Hst _] _].
  pose proof (live_length t Hst) as Hlen. rewrite missing_cons in Hroom. spec_step add_entry_spec; [done..|].
  intros st w1 (t1 & Hch & Hm & [(-> & Hp & Hcs)|(-> & -> & Hno & Hfull)]).
  2:{ rewrite <- missing_has, not_true_iff_false in Hno. rewrite Hno in Hroom. cbn [length] in Hroom. lia. }
  apply spec_assert_bind; [done|]. pose proof (ch_good _ _ _ _ _ _ Hch) as [[Hst1 _] _].
  pose proof (live_length t1 Hst1) as Hlen1.
  eapply spec_mono; [apply (IH w1 t1); try done|].
  - apply Hch.
  - by eapply changed_lookup.
  - apply Hch.
  - destruct Hcs as [[Hh Hcs]|[Hno Hl]].
    + apply missing_has in Hh. rewrite Hh in Hroom.
      assert (length (live t1) = length (live t)) as Heq by (apply (f_equal length) in Hcs; by rewrite !length_fmap in Hcs).
      pose proof (missing_mono (live t) (live t1) es ltac:(unfold has; by rewrite Hcs)). lia.
    + rewrite <- missing_has, not_true_iff_false in Hno. rewrite Hno in Hroom. cbn [length] in Hroom.
      rewrite Hl, length_app in Hlen1. cbn in Hlen1.
      pose proof (missing_mono (live t) (live t1) es ltac:(intros x; unfold has; rewrite Hl, fmap_app; set_solver)). lia.
  - intros _ w' (t' & Hch' & Hp'). exists t'. split; [by eapply changed_trans|].
    rewrite Hp', pending_app, Hp, !pending_app, (pending_cons _ e es). by rewrite (assoc (∪)).
Qed.

(** Only the trackers [ids] have changed. *)
Record kept (done : gmap channel_ptr Z) (w w' : uvm_world) (ids : list tracker_id) : Prop := {
  ke_frame id : id ∉ ids -> trackers w' !! id = trackers w !! id;
  ke_world : world_ok done w';
  ke_fatal : fatal_error (global w') = fatal_error (global w);
  ke_time : (time w <= time w')%nat;
}.

Lemma kept_changed done w w1 w2 ids id t :
  kept done w w1 ids -> changed done w1 w2 id t -> id ∈ ids -> kept done w w2 ids.
Proof.
  intros [Fr _ F1 T1] [Et _ W2 F2 T2] Hin. split; [|done|congruence|lia].
  intros id' Hid. rewrite Et, lookup_insert_ne by set_solver. by apply Fr.
Qed.

Lemma kept_refl done w ids : world_ok done w -> kept done w w ids.
Proof. by split. Qed.

Definition holds (done : gmap channel_ptr Z) (w : uvm_world) (id : tracker_id) (t : uvm_tracker_t) : Prop :=
  trackers w !! id = Some t /\ tracker_good done t.

Lemma changed_holds done w w' id t : changed done w w' id t -> holds done w' id t.
Proof. intros Hch. split; [by eapply changed_lookup|apply Hch]. Qed.

Lemma changed_other done w w' id t id' t' :
  changed done w w' id t -> id <> id' -> holds done w id' t' -> holds done w' id' t'.
Proof. intros [Et _ _ _ _] Hne [Hl Hg]. split; [by rewrite Et, lookup_insert_ne|done]. Qed.

Lemma reserve_for_entries_spec b done w dst src d s :
  world_ok done w -> holds done w dst d -> holds done w src s ->
  spec b (reserve_for_entries_from_tracker E dst src) (fun st w' => exists d', changed done w w' dst d'
    /\ live d' = live d /\ (st = NV_OK /\ tracker_size d' + Z.of_nat (length (missing (live d') (live s))) <= max_size d'
        \/ st = NV_ERR_NO_MEMORY)) w.
Proof.
  intros Hw [Hd Hgd] [Hs Hgs]. unfold reserve_for_entries_from_tracker.
  apply (spec_tracker _ _ _ _ _ _ Hs). apply (spec_tracker _ _ _ _ _ _ Hd).
  pose proof Hgs as [[Hss _] _]. pose proof Hgd as [[Hsd _] _].
  apply (spec_lift_bind _ _ _ _ _ _ (entries_ok s Hss)).
  pose proof (good_size _ _ Hgd). pose proof (good_size _ _ Hgs). pose proof (clock_finite _ _ (wo_clock _ _ _ Hw)) as Hfin.
  pose proof (live_length s Hss) as Hls. pose proof (missing_length (live d) (live s)) as Hml.
  eapply spec_bind with (P := fun x w' => w' = w /\ missing x (live s) = missing (live d) (live s)).
  { destruct (live s); [done|]. eapply spec_lift; [by apply entries_ok|done]. }
  intros x w' [-> ->]. rewrite NvU32_small by lia. eapply spec_mono; [apply (reserve_spec b done w dst d); try done; lia|].
  intros st w' (d' & Hch & Hl & Hsz & _ & Hst). exists d'. split_and!; [done|done|].
  destruct Hst as [[-> Hroom]|(-> & _)]; [left|by right]. split; [done|]. rewrite Hl, Hsz. lia.
Qed.

(** After space has been reserved, adding the entries succeeds. *)
Lemma add_reserved_spec b done w dst src d s :
  dst <> src -> world_ok done w -> holds done w dst d -> holds done w src s ->
  tracker_size d + Z.of_nat (length (missing (live d) (live s))) <= max_size d ->
  spec b (s ← get_tracker src; es ← sm_lift (tracker_entries s); _ ← add_entries E dst es; mret NV_OK)
    (fun st w' => st = NV_OK /\ kept done w w' [dst; src]
      /\ exists d', holds done w' dst d' /\ holds done w' src s /\ pending done (live d') ≡ pending done (live d ++ live s)) w.
Proof.
  intros Hne Hw [Hd Hgd] [Hs Hgs] Hroom. apply (spec_tracker _ _ _ _ _ _ Hs). pose proof Hgs as [[Hss _] Hks].
  apply (spec_lift_bind _ _ _ _ _ _ (entries_ok s Hss)). spec_step add_entries_spec; [done..|].
  intros _ w' (d' & Hch & Hp). apply spec_ret. split; [done|]. split.
  - eapply kept_changed; [by apply kept_refl|exact Hch|set_solver].
  - exists d'. split_and!; [by eapply changed_holds|by eapply changed_other|done].
Qed.

Definition added (done : gmap channel_ptr Z) (dst src : tracker_id) (d s : uvm_tracker_t) (st : NV_STATUS)
    (w w' : uvm_world) : Prop :=
  kept done w w' [dst; src]
  /\ exists d' s', holds done w' dst d' /\ holds done w' src s' /\ pending done (live s') ≡ pending done (live s)
       /\ (st = NV_OK /\ pending done (live d') ≡ pending done (live d ++ live s)
            \/ st = NV_ERR_NO_MEMORY /\ pending done (live d') ≡ pending done (live d)).

(** The second attempt: completed entries are removed from both. *)
Lemma add_retry_spec b done w dst src d s :
  dst <> src -> world_ok done w -> holds done w dst d -> holds done w src s ->
  spec b (_ ← uvm_tracker_remove_completed dst; _ ← uvm_tracker_remove_completed src;
          reserve_for_entries_from_tracker E dst src)
    (fun st w' => kept done w w' [dst; src] /\ exists d' s', holds done w' dst d' /\ holds done w' src s'
       /\ pending done (live s') ≡ pending done (live s) /\ pending done (live d') ≡ pending done (live d)
       /\ (st = NV_OK /\ tracker_size d' + Z.of_nat (length (missing (live d') (live s'))) <= max_size d'
            \/ st = NV_ERR_NO_MEMORY)) w.
Proof.
  intros Hne Hw [Hd Hgd] Hs. spec_step remove_completed_spec; [done..|]. intros _ w1 (d1 & Hc1 & Hp1 & _).
  pose proof (changed_other _ _ _ _ _ _ _ Hc1 Hne Hs) as [Hs1 Hgs]. pose proof (ch_world _ _ _ _ _ _ Hc1) as Hw1.
  spec_step remove_completed_spec; [done..|]. intros _ w2 (s2 & Hc2 & Hp2 & _).
  pose proof (changed_other _ _ _ _ _ _ _ Hc2 (not_eq_sym Hne) (changed_holds _ _ _ _ _ Hc1)) as Hd2.
  pose proof (changed_holds _ _ _ _ _ Hc2) as Hs2. pose proof (ch_world _ _ _ _ _ _ Hc2) as Hw2.
  eapply spec_mono; [apply (reserve_for_entries_spec b done w2 dst src d1 s2); done|].
  intros st w3 (d3 & Hc3 & Hl3 & Hst). split.
  - eapply kept_changed; [|exact Hc3|set_solver]. eapply kept_changed; [|exact Hc2|set_solver].
    eapply kept_changed; [by apply kept_refl|exact Hc1|set_solver].
  - exists d3, s2. split_and!; [by eapply changed_holds|by eapply changed_other| | |done].
    + by rewrite Hp2, pending_filter.
    + by rewrite Hl3, Hp1, pending_filter.
Qed.

Lemma add_tracker_spec b done w dst src d s :
  dst <> src -> world_ok done w -> holds done w dst d -> holds done w src s ->
  spec b (uvm_tracker_add_tracker E dst (Some src)) (fun st w' => added done dst src d s st w w') w.
Proof.
  intros Hne Hw Hd Hs. unfold uvm_tracker_add_tracker. rewrite bool_decide_false by done.
  unfold uvm_tracker_is_empty. pose proof Hd as [Htd Hgd]. pose proof Hs as [Hts Hgs].
  eapply spec_bind with (P := fun e w' => e = (tracker_size s =? 0) /\ w' = w).
  { by apply (spec_tracker _ _ _ _ _ _ Hts), spec_ret. }
  intros e w' [-> ->]. pose proof Hgs as [[Hss _] _]. pose proof (live_length s Hss) as Hls.
  pose proof Hgd as [[Hsd _] _]. pose proof Hss as [_ Hsz].
  destruct (tracker_size s =? 0) eqn:Hz.
  { apply spec_ret. split; [by apply kept_refl|]. exists d, s. split_and!; try done. left. split; [done|].
    assert (live s = []) as -> by (apply length_zero_iff_nil; lia). by rewrite app_nil_r. }
  apply (spec_tracker _ _ _ _ _ _ Hts).
  pose proof (good_size _ _ Hgd). pose proof (good_size _ _ Hgs). pose proof (clock_finite _ _ (wo_clock _ _ _ Hw)) as Hfin.
  spec_step (reserve_spec b done w dst d (tracker_size s)); [done..|lia|lia|]. intros st w1 (d1 & Hc1 & Hl1 & Hsz1 & _ & Hst).
  pose proof (changed_holds _ _ _ _ _ Hc1) as Hd1. pose proof (changed_other _ _ _ _ _ _ _ Hc1 Hne Hs) as Hs1.
  pose proof (ch_world _ _ _ _ _ _ Hc1) as Hw1.
  eapply spec_bind with (P := fun st w2 => kept done w w2 [dst; src] /\ exists d' s', holds done w2 dst d' /\ holds done w2 src s'
       /\ pending done (live s') ≡ pending done (live s) /\ pending done (live d') ≡ pending done (live d)
       /\ (st = NV_OK /\ tracker_size d' + Z.of_nat (length (missing (live d') (live s'))) <= max_size d'
            \/ st = NV_ERR_NO_MEMORY)).
  { destruct Hst as [[-> Hroom]|(-> & -> & _)]; cbn [Z.eqb NV_OK NV_ERR_NO_MEMORY].
    - apply spec_ret. split; [eapply kept_changed; [by apply kept_refl|exact Hc1|set_solver]|].
      exists d1, s. split_and!; try done; [by rewrite Hl1|]. left. split; [done|].
      pose proof (missing_length (live d1) (live s)). lia.
    - eapply spec_mono; [apply add_retry_spec; done|]. intros st w2 ([Fr W2 F2 T2] & d' & s' & Hrest).
      split; [|by exists d', s']. destruct Hc1 as [Et _ _ F1 T1]. split; [|done|congruence|lia].
      intros id Hid. rewrite Fr, Et by done. apply lookup_insert_ne. set_solver. }
  clear Hst. intros st2 w2 ([Fr W2 F2 T2] & d' & s' & Hd' & Hs' & Hps & Hpd & [[-> Hroom]| ->]); cbn [Z.eqb negb NV_OK NV_ERR_NO_MEMORY].
  - eapply spec_mono; [apply add_reserved_spec; done|]. intros st3 w3 (-> & [Fr3 W3 F3 T3] & d3 & Hd3 & Hs3 & Hp3).
    split; [split; [intros id Hid; by rewrite Fr3, Fr|done|congruence|lia]|].
    exists d3, s'. split_and!; try done. left. split; [done|]. by rewrite Hp3, !pending_app, Hps, Hpd.
  - apply spec_ret. split; [done|]. exists d', s'. split_and!; try done. by right.
Qed.

(** ** Overwriting *)
Lemma clear_spec b done w id t :
  world_ok done w -> holds done w id t ->
  spec b (uvm_tracker_clear id) (fun _ w' => exists t', changed done w w' id t' /\ live t' = [] /\ tracker_size t' = 0
    /\ max_size t' = max_size t) w.
Proof.
  intros Hw [Ht [[Hst _] _]]. unfold uvm_tracker_clear. apply (spec_tracker _ _ _ _ _ _ Ht).
  pose proof (storage_max t Hst). unfold put_tracker. apply spec_modify. exists (t <| tracker_size := 0 |>). split; [|done]. eapply changed_intro; try done.
  - split; [split|]; [by apply storage_resize; [|lia]|unfold live; cbn; constructor..].
  - apply Hw.
  - change (arrays (t <| tracker_size := 0 |>)) with (arrays t). cbn. lia.
Qed.

Lemma copy_good done d s :
  tracker_good done s -> storage_ok d -> tracker_size s <= max_size d ->
  let d' := set_entries (d <| tracker_size := tracker_size s |>) (live s ++ drop (length (live s)) (array_of d)) in
  tracker_good done d' /\ live d' = live s /\ arrays d' = arrays d /\ max_size d' = max_size d.
Proof.
  intros [[Hss Hnd] Hk] Hsd Hle d'. pose proof (live_length s Hss) as Hls. pose proof Hss as [_ Hsz].
  pose proof (storage_max d Hsd) as [Hm Hl].
  destruct (set_entries_ok (d <| tracker_size := tracker_size s |>) (live s ++ drop (length (live s)) (array_of d)))
    as (Hst & Ha & Harr & Hs' & Hm').
  { apply storage_resize; [done|lia]. }
  { change (array_of (d <| tracker_size := tracker_size s |>)) with (array_of d). rewrite length_app, length_drop. lia. }
  fold d' in Hst, Ha, Harr, Hs', Hm'.
  assert (live d' = live s) as Hlive.
  { unfold live at 1. rewrite Ha, Hs'. cbn. rewrite take_app_le, take_ge by lia. done. }
  split_and!; try done. split; [split; [done|]|]; by rewrite Hlive.
Qed.

Lemma overwrite_spec b done w dst src d s :
  dst <> src -> world_ok done w -> holds done w dst d -> holds done w src s ->
  spec b (uvm_tracker_overwrite E dst src) (fun st w' => exists d', changed done w w' dst d'
    /\ (st = NV_OK /\ live d' = live s \/ st = NV_ERR_NO_MEMORY /\ live d' = [] /\ max_size d < tracker_size s)) w.
Proof.
  intros Hne Hw Hd Hs. unfold uvm_tracker_overwrite. spec_step clear_spec; [done..|].
  intros _ w1 (d1 & Hc1 & Hl1 & Hz1 & Hm1). pose proof (changed_other _ _ _ _ _ _ _ Hc1 Hne Hs) as [Hs1 Hgs].
  pose proof (changed_holds _ _ _ _ _ Hc1) as [Hd1 Hgd1]. pose proof (ch_world _ _ _ _ _ _ Hc1) as Hw1.
  apply (spec_tracker _ _ _ _ _ _ Hs1). pose proof Hgs as [[Hss _] _]. pose proof Hss as [_ Hsz].
  pose proof (good_size _ _ Hgs). pose proof (clock_finite _ _ (wo_clock _ _ _ Hw)) as Hfin.
  spec_step (reserve_spec b done w1 dst d1 (tracker_size s)); [done..|lia|lia|].
  intros st w2 (d2 & Hc2 & Hl2 & Hs2 & _ & [[-> Hroom]|(-> & -> & Hfull)]); cbn [Z.eqb negb NV_OK NV_ERR_NO_MEMORY].
  2:{ apply spec_ret. exists d1. split; [by eapply changed_trans|right]. split_and!; [done|done|lia]. }
  pose proof (changed_other _ _ _ _ _ _ _ Hc2 Hne (conj Hs1 Hgs)) as [Hs2' _].
  pose proof (changed_holds _ _ _ _ _ Hc2) as [Hd2 [[Hsd2 _] _]]. pose proof (storage_max d2 Hsd2) as [? Hlen2].
  apply (spec_tracker _ _ _ _ _ _ Hs2'). apply (spec_tracker _ _ _ _ _ _ Hd2). apply spec_put.
  eapply spec_tracker; [cbn; by rewrite lookup_insert_ne|]. eapply spec_tracker; [apply lookup_insert_eq|].
  eapply spec_lift_bind; [apply get_entries_ok, storage_resize; [done|lia]|].
  apply (spec_lift_bind _ _ _ _ _ _ (entries_ok s Hss)).
  change (array_of (d2 <| tracker_size := tracker_size s |>)) with (array_of d2).
  apply spec_assert_bind; [lia|]. apply spec_put, spec_ret.
  destruct (copy_good done d2 s Hgs Hsd2 ltac:(lia)) as (Hg' & Hl' & Ha' & Hm').
  eexists. split; [|left; split; [done|exact Hl']]. eapply changed_trans; [exact Hc1|].
  eapply changed_trans; [exact Hc2|]. apply (changed_intro R done w2 _ dst d2); try done.
  - apply Hc2.
  - cbn. by rewrite insert_insert_eq.
  - apply Hc2.
  - rewrite Ha'. cbn. lia.
Qed.

Lemma overwrite_with_entry_spec b done w id t e :
  world_ok done w -> holds done w id t -> entry_known done e ->
  spec b (uvm_tracker_overwrite_with_entry E id e) (fun _ w' => exists t', changed done w w' id t' /\ live t' = [e]) w.
Proof.
  intros Hw Ht Hke. unfold uvm_tracker_overwrite_with_entry. spec_step clear_spec; [done..|].
  intros _ w1 (t1 & Hc1 & Hl1 & Hz1 & Hm1). pose proof (changed_holds _ _ _ _ _ Hc1) as [Ht1 Hg1].
  spec_step add_entry_spec; [apply Hc1|done..|]. intros st w2 (t2 & Hc2 & _ & Hst). rewrite Hl1 in Hst.
  destruct Ht as [_ [[Hst0 _] _]]. pose proof (storage_max t Hst0).
  destruct Hst as [(-> & _ & [[[]%elem_of_nil _]|[_ Hl2]])|(_ & _ & _ & Hfull)]; [|lia].
  apply spec_assert; [done|]. exists t2. split; [by eapply changed_trans|done].
Qed.

(** ** Life cycle *)
Definition unused (w : uvm_world) (id : tracker_id) : Prop := trackers w !! id = None \/ trackers w !! id = Some dead.

Lemma init_good done : tracker_good done UVM_TRACKER_INIT.
Proof. by split; [split; [split|constructor]|constructor]. Qed.

Lemma init_spec b done w id :
  world_ok done w -> unused w id ->
  spec b (uvm_tracker_init id) (fun _ w' => w' = w <| trackers := <[id := UVM_TRACKER_INIT]> (trackers w) |> /\ world_ok done w') w.
Proof.
  intros [Hc Hg Ha] Hu. unfold uvm_tracker_init, put_tracker. apply spec_modify. split; [done|]. split; [done| |].
  - intros id' t. cbn. rewrite lookup_insert_Some. intros [[_ <-]|[_ Ht]]; [right; apply init_good|by eapply Hg].
  - cbn. rewrite total_arrays_insert, Ha. destruct Hu as [-> | ->]; cbn; lia.
Qed.

Lemma deinit_spec b done w id t :
  world_ok done w -> holds done w id t ->
  spec b (uvm_tracker_deinit id) (fun _ w' => kept done w w' [id] /\ trackers w' !! id = Some dead
    /\ kv_allocated w' = kv_allocated w - arrays t) w.
Proof.
  intros Hw [Ht [[Hst _] _]]. pose proof (get_entries_ok t Hst) as Hget. pose proof Hst as [Hu _].
  unfold uvm_tracker_deinit. apply (spec_tracker _ _ _ _ _ _ Ht).
  eapply spec_bind with (P := fun _ w1 => w1 = w <| kv_allocated := kv_allocated w - arrays t |>).
  { unfold free_entries, uvm_tracker_get_entries, arrays, array_of in *.
    destruct (tracker_is_using_static_entries t), (storage t) as [e|[es|]]; try done. destruct w. unfold spec, update_field. cbn.
    f_equal. lia. }
  intros _ w1 ->. unfold put_tracker. apply spec_modify. split; [|split; [apply lookup_insert_eq|done]].
  destruct Hw as [Hc Hg Ha]. split; [|split| |]; cbn; try done.
  - intros id' Hid. apply lookup_insert_ne. set_solver.
  - intros id' x. rewrite lookup_insert_Some. intros [[_ <-]|[_ Hx]]; [by left|by eapply Hg].
  - rewrite total_arrays_insert, Ht, Ha. cbn. lia.
Qed.

(** On failure the new tracker is empty and owns nothing. *)
Lemma init_from_spec b done w dst src s :
  dst <> src -> world_ok done w -> unused w dst -> holds done w src s ->
  spec b (uvm_tracker_init_from E dst src) (fun st w' => kept done w w' [dst] /\ exists d', holds done w' dst d'
    /\ (st = NV_OK /\ live d' = live s \/ st = NV_ERR_NO_MEMORY /\ d' = UVM_TRACKER_INIT)) w.
Proof.
  intros Hne Hw Hu [Hs Hgs]. unfold uvm_tracker_init_from. spec_step init_spec; [done..|]. intros _ w1 [-> Hw1].
  set (w1 := w <| trackers := _ |>) in *.
  assert (holds done w1 dst UVM_TRACKER_INIT) as Hd1 by (split; [apply lookup_insert_eq|apply init_good]).
  assert (holds done w1 src s) as Hs1 by (split; [cbn; by rewrite lookup_insert_ne|done]).
  assert (forall w', kept done w1 w' [dst] -> kept done w w' [dst]) as Hk.
  { intros w' [Fr W F T]. split; try done. intros id Hid. rewrite Fr by done. cbn. apply lookup_insert_ne. set_solver. }
  spec_step (overwrite_spec b done w1 dst src UVM_TRACKER_INIT s); [done..|].
  intros st w2 (d2 & Hc2 & [[-> Hl2]|(-> & Hl2 & _)]); cbn [Z.eqb negb NV_OK NV_ERR_NO_MEMORY].
  { apply spec_ret. split; [apply Hk; eapply kept_changed; [by apply kept_refl|done|set_solver]|].
    exists d2. split; [by eapply changed_holds|by left]. }
  assert (kept done w1 w2 [dst]) as Hk2 by (eapply kept_changed; [by apply kept_refl|done|set_solver]).
  spec_step deinit_spec; [apply Hc2|by eapply changed_holds|]. intros _ w3 ([Fr3 W3 F3 T3] & Hd3 & _).
  spec_step init_spec; [done|by right|]. intros _ w4 [-> Hw4]. apply spec_ret. destruct Hk2 as [Fr2 W2 F2 T2].
  split; [apply Hk; split|].
  - intros id Hid. cbn. rewrite lookup_insert_ne, Fr3, Fr2 by set_solver. done.
  - done.
  - change (fatal_error (global w3) = fatal_error (global w1)). congruence.
  - cbn in *. lia.
  - eexists. split; [split; [apply lookup_insert_eq|apply init_good]|by right].
Qed.
End ops.
