(* ===== verification/TrackerSpec.v ===== *)
(** * Waiting for trackers, and the theorems on trackers

    What the functions that wait guarantee, for an environment of other threads
    and GPUs that keeps the channels' promise; then the main theorems, for the
    channels of all GPUs. *)

From stdpp Require Import propset.
From S2P Require Import Prelude StateMonad PageMask Pushbuffer PushbufferSpec GpuSemaphore Channel ChannelSpec Tracker TrackerOps.

Section waits.
Context (R : uvm_global_t -> gmap channel_ptr Z -> Prop) `{Hclock : !ChannelClock R} (E : tracker_env)
  (err : NV_STATUS) (due : nat -> obligation -> Prop) (Henv : env_ok R E err due).
Notation world_ok := (world_ok R).
Implicit Types (b : bool) (done : gmap channel_ptr Z) (w : uvm_world).

(** The environment has moved from [done] to [done']. *)
Record after (done done' : gmap channel_ptr Z) (w w' : uvm_world) : Prop := {
  af_trackers : trackers w' = trackers w;
  af_world : world_ok done' w';
  af_later : later done done';
  af_fatal : fatal_error (global w') = fatal_error (global w)
    \/ fatal_error (global w) = NV_OK /\ fatal_error (global w') = err;
  af_time : (time w <= time w')%nat;
}.

Definition fatal_ok (w : uvm_world) : Prop := fatal_error (global w) = NV_OK \/ fatal_error (global w) = err.

Lemma after_trans d1 d2 d3 w1 w2 w3 : after d1 d2 w1 w2 -> after d2 d3 w2 w3 -> after d1 d3 w1 w3.
Proof.
  intros [E1 W1 L1 F1 T1] [E2 W2 L2 F2 T2]. split; [congruence|done|by etransitivity| |lia].
  destruct F1 as [F1|[F1 F1']], F2 as [F2|[F2 F2']]; [left|right|right|right]; naive_solver congruence.
Qed.

Lemma after_fatal d1 d2 w1 w2 : after d1 d2 w1 w2 -> fatal_ok w1 -> fatal_ok w2.
Proof. unfold fatal_ok. intros [_ _ _ [->|[_ ->]] _]; [done|by right]. Qed.

Lemma after_refl done w : world_ok done w -> after done done w w.
Proof. intros Hw. split; try done. by left. Qed.

Lemma quiet_after done w w' : quiet R done w w' -> after done done w w'.
Proof. intros [Et W F T]. split; try done. by left. Qed.

Lemma spin_spec b done w :
  world_ok done w -> fatal_ok w ->
  spec b (UVM_SPIN_LOOP E) (fun _ w' => exists done', after done done' w w' /\ (time w < time w')%nat
    /\ forall o, due (time w) o -> is_Some (done !! o.1) -> completed done' o) w.
Proof.
  intros Hw Hf. destruct Henv as [Ho Hfat _]. destruct (Ho (time w) (global w) done (wo_clock _ _ _ Hw)) as (done' & Hr & Hl & Hd).
  exists done'. split; [|split; [cbn; lia|done]]. split; [done| |done|by apply Hfat|cbn; lia]. by eapply world_global.
Qed.

Lemma channel_check_spec b done w c :
  world_ok done w -> fatal_ok w -> is_Some (done !! c) ->
  spec b (channel_check_errors E (Some c)) (fun st w' => after done done w w'
    /\ (st = NV_OK /\ fatal_error (global w') = fatal_error (global w) \/ st = err /\ st <> NV_OK /\ fatal_error (global w') = err)) w.
Proof.
  intros Hw Hf [d Hd]. destruct Henv as [_ _ Hst]. unfold channel_check_errors.
  eapply spec_lift_bind; [done|]. eapply spec_bind with (P := fun n w' => n = time w /\ w' = w <| time := S (time w) |>); [done|].
  intros ? ? [-> ->].
  destruct (clock_errors (global w) done c d (channel_status E (time w) c) (wo_clock _ _ _ Hw) Hd) as (g' & Hrun & Hr & Hfat).
  unfold spec, on_global. change (global (w <| time := _ |>)) with (global w). rewrite Hrun. specialize (Hst (time w) c). unfold fatal_ok in Hf.
  unfold set_fatal in Hfat. set (st := channel_status E (time w) c) in *.
  assert (st = NV_OK /\ fatal_error g' = fatal_error (global w) \/ st = err /\ st <> NV_OK /\ fatal_error g' = err) as Hcase.
  { destruct (st =? NV_OK) eqn:E1; [left; split; [by apply Z.eqb_eq|done]|right].
    apply Z.eqb_neq in E1. destruct Hst as [?|Hst]; [done|]. split_and!; [done..|].
    destruct (fatal_error (global w) =? NV_OK) eqn:E2; [by rewrite Hfat|]. apply Z.eqb_neq in E2. destruct Hf; [done|congruence]. }
  split; [|exact Hcase]. split; cbn; [done| |done| |lia]; [by eapply world_global|].
  destruct Hcase as [[_ ->]|(_ & _ & ->)]; [by left|]. destruct Hf as [->|Hf]; [by right|left; congruence].
Qed.

(** Waiting for [o] ends: it is due from time [T] on. *)
Definition due_from (T : nat) (o : obligation) : Prop := forall n, (T <= n)%nat -> due n o.

(** ** Waiting for an entry *)
Definition entry_due (T : nat) (e : uvm_tracker_entry_t) : Prop :=
  match entry_channel e with Some c => due_from T (c, entry_value e) | None => True end.

(** Enough rounds: the environment advances once in each. *)
Definition enough (T fuel : nat) (st : NV_STATUS) (w : uvm_world) (finished : Prop) : Prop :=
  (1 <= fuel)%nat /\ (st = NV_OK -> ~ finished -> (T - time w + 2 <= fuel)%nat).

Lemma wait_entry_spec b T e fuel : forall done w st,
  world_ok done w -> entry_known done e -> fatal_ok w ->
  (st = NV_OK \/ st = err /\ st <> NV_OK /\ fatal_error (global w) = err) ->
  (b = true -> entry_due T e /\ enough T fuel st w (entry_done done e)) ->
  spec b (wait_entry_loop E fuel e st) (fun st' w' => exists done', after done done' w w'
    /\ (st' = NV_OK /\ entry_done done' e \/ st' = err /\ st' <> NV_OK /\ fatal_error (global w') = err)) w.
Proof.
  induction fuel as [|fuel IH]; intros done w st Hw Hk Hf Hst Hb.
  { unfold spec. cbn. destruct b; [|done]. by destruct Hb as [_ [? _]]; [|lia]. }
  cbn [wait_entry_loop]. spec_step entry_completed_spec; [done..|]. intros r w1 [-> Hq].
  pose proof (quiet_after _ _ _ Hq) as Ha1. destruct Hq as [Et1 W1 F1 T1]. rewrite <- F1 in Hst.
  pose proof (after_fatal _ _ _ _ Ha1 Hf) as Hf1.
  destruct (negb (bool_decide (entry_done done e)) && (st =? NV_OK)) eqn:Hcond.
  2:{ apply spec_ret. exists done. split; [done|]. destruct Hst as [->|Hst]; [left|by right]. split; [done|].
      rewrite andb_true_r in Hcond. by apply negb_false_iff, bool_decide_eq_true in Hcond. }
  apply andb_true_iff in Hcond as [Hnd%negb_true_iff%bool_decide_eq_false ->%Z.eqb_eq].
  spec_step spin_spec; [done..|]. intros _ w2 (d2 & Ha2 & Ht2 & Hdue). pose proof (after_fatal _ _ _ _ Ha2 Hf1) as Hf2.
  destruct e as [[c|] v]; [|by destruct Hnd]. cbn [entry_channel].
  assert (entry_known d2 (mk_entry (Some c) v)) as Hk2 by (eapply known_later; [apply Ha2|done]).
  spec_step channel_check_spec; [apply Ha2|done..|]. intros st3 w3 [Ha3 Hst3].
  eapply spec_bind with (P := fun st w' => w' = w3 /\ (st = NV_OK \/ st = err /\ st <> NV_OK /\ fatal_error (global w3) = err)).
  { pose proof (after_fatal _ _ _ _ Ha3 Hf2) as Hf3.
    destruct (st3 =? NV_OK) eqn:E3.
    - split; [done|]. cbn. unfold fatal_ok in Hf3. destruct (decide (fatal_error (global w3) = NV_OK)) as [Hd|Hd]; [by left|].
      right. naive_solver.
    - split; [done|]. apply Z.eqb_neq in E3. naive_solver. }
  intros st4 w4 [-> Hst4].
  eapply spec_mono; [apply (IH d2 w3 st4); try done|].
  - apply Ha3.
  - by eapply after_fatal.
  - intros ->. destruct (Hb eq_refl) as [HT [_ Hen]]. specialize (Hen eq_refl Hnd). split; [done|].
    destruct Ha2 as [_ _ _ _ T2], Ha3 as [_ _ _ _ T3]. split; [lia|]. intros _ Hnd2.
    destruct (decide (T <= time w1)%nat) as [Hle|Hgt]; [|lia]. destruct Hnd2. apply Hdue; [by apply HT|done].
  - intros st' w' (d' & Ha' & Hres). exists d'. split; [|done].
    eapply after_trans; [exact Ha1|]. eapply after_trans; [exact Ha2|]. by eapply after_trans.
Qed.

(** The outcome of a wait: the goal is reached, or the error is the global one. *)
Definition ends (st : NV_STATUS) (w : uvm_world) (goal : Prop) : Prop :=
  st = NV_OK /\ goal \/ st = err /\ st <> NV_OK /\ fatal_error (global w) = err.

Lemma wait_for_entry_spec b T e fuel done w :
  world_ok done w -> entry_known done e -> fatal_ok w ->
  (b = true -> entry_due T e /\ (T - time w + 2 <= fuel)%nat) ->
  spec b (wait_for_entry_with_spin E fuel e) (fun r w' => exists done', after done done' w w'
    /\ ends r.1 w' (entry_done done' e) /\ r.2 = if r.1 =? NV_OK then e else mk_entry None 0) w.
Proof.
  intros Hw Hk Hf Hb. unfold wait_for_entry_with_spin.
  spec_step (wait_entry_spec b T); [done..|by left| |].
  { intros ->. destruct (Hb eq_refl). split; [done|]. split; lia. }
  intros st w' (d' & Ha & [[-> Hd]|(-> & Hne & Hfat)]).
  - apply spec_ret. exists d'. split_and!; [done|by left|done].
  - apply Z.eqb_neq in Hne as Hne'. rewrite Hne'. cbn [negb]. eapply spec_bind with (P := fun f w'' => f = err /\ w'' = w').
    { by cbn. }
    intros ? ? [-> ->]. apply spec_assert_bind; [apply Z.eqb_refl|]. apply spec_ret. exists d'. cbn [fst snd]. rewrite Hne'.
    split_and!; [done|by right|done].
Qed.

(** ** Waiting for a tracker *)
Record moved (done done' : gmap channel_ptr Z) (w w' : uvm_world) (id : tracker_id) (t : uvm_tracker_t) : Prop := {
  mv_trackers : trackers w' = <[id := t]> (trackers w);
  mv_good : tracker_good done' t;
  mv_world : world_ok done' w';
  mv_later : later done done';
  mv_fatal : fatal_error (global w') = fatal_error (global w)
    \/ fatal_error (global w) = NV_OK /\ fatal_error (global w') = err;
  mv_time : (time w <= time w')%nat;
}.

Lemma changed_moved done w w' id t : changed R done w w' id t -> moved done done w w' id t.
Proof. intros [Et G W F T]. split; try done. by left. Qed.

Lemma moved_after d1 d2 d3 w1 w2 w3 id t : moved d1 d2 w1 w2 id t -> after d2 d3 w2 w3 -> moved d1 d3 w1 w3 id t.
Proof.
  intros [E1 G1 W1 L1 F1 T1] [E2 W2 L2 F2 T2]. split; [congruence|by eapply good_later|done|by etransitivity| |lia].
  destruct F1 as [F1|[F1 F1']], F2 as [F2|[F2 F2']]; [left|right|right|right]; naive_solver congruence.
Qed.

Lemma moved_trans d1 d2 d3 w1 w2 w3 id t2 t3 :
  moved d1 d2 w1 w2 id t2 -> moved d2 d3 w2 w3 id t3 -> moved d1 d3 w1 w3 id t3.
Proof.
  intros [E1 G1 W1 L1 F1 T1] [E2 G2 W2 L2 F2 T2]. split; [by rewrite E2, E1, insert_insert_eq|done|done|by etransitivity| |lia].
  destruct F1 as [F1|[F1 F1']], F2 as [F2|[F2 F2']]; [left|right|right|right]; naive_solver congruence.
Qed.

Lemma moved_holds d1 d2 w1 w2 id t : moved d1 d2 w1 w2 id t -> holds d2 w2 id t.
Proof. intros [Et G W L F T]. split; [rewrite Et; apply lookup_insert_eq|done]. Qed.

Lemma moved_fatal d1 d2 w1 w2 id t : moved d1 d2 w1 w2 id t -> fatal_ok w1 -> fatal_ok w2.
Proof. unfold fatal_ok. intros [_ _ _ _ [->|[_ ->]] _]; [done|by right]. Qed.

Definition has_channel (done : gmap channel_ptr Z) (e : uvm_tracker_entry_t) : Prop :=
  exists c, entry_channel e = Some c /\ is_Some (done !! c).

Lemma check_entries_spec b done es : forall w,
  world_ok done w -> fatal_ok w -> Forall (has_channel done) es ->
  spec b (check_entries E es) (fun st w' => after done done w w' /\ ends st w' True) w.
Proof.
  induction es as [|e es IH]; intros w Hw Hf Hes.
  { apply spec_ret. split; [by apply after_refl|by left]. }
  apply Forall_cons in Hes as [(c & Hc & Hd) Hes]. cbn [check_entries]. rewrite Hc.
  spec_step channel_check_spec; [done..|]. intros st w1 [Ha [[-> _]|(-> & Hne & Hfat)]].
  - eapply spec_mono; [apply IH; [apply Ha|by eapply after_fatal|done]|]. intros st w2 [Ha2 He].
    split; [by eapply after_trans|done].
  - apply Z.eqb_neq in Hne as Hne'. rewrite Hne'. apply spec_ret. split; [done|]. by right.
Qed.

Lemma check_errors_spec b done w id t :
  world_ok done w -> fatal_ok w -> holds done w id t -> Forall (has_channel done) (live t) ->
  spec b (uvm_tracker_check_errors E id) (fun st w' => after done done w w' /\ ends st w' True) w.
Proof.
  intros Hw Hf [Ht [[Hst _] _]] Hes. unfold uvm_tracker_check_errors.
  eapply spec_bind with (P := fun f w' => f = fatal_error (global w) /\ w' = w); [done|]. intros ? ? [-> ->].
  destruct (fatal_error (global w) =? NV_OK) eqn:Hz; cbn [negb].
  - apply (spec_tracker _ _ _ _ _ _ Ht). apply (spec_lift_bind _ _ _ _ _ _ (entries_ok t Hst)). by apply check_entries_spec.
  - apply spec_ret. apply Z.eqb_neq in Hz. split; [by apply after_refl|]. right. unfold fatal_ok in Hf. naive_solver.
Qed.

Lemma is_completed_spec b done w id t :
  world_ok done w -> holds done w id t ->
  spec b (uvm_tracker_is_completed id) (fun r w' => exists t', changed R done w w' id t'
    /\ live t' ≡ₚ filter (fun e => ~ entry_done done e) (live t) /\ max_size t' = max_size t
    /\ r = bool_decide (Forall (entry_done done) (live t))) w.
Proof.
  intros Hw [Ht Hg]. unfold uvm_tracker_is_completed. spec_step remove_completed_spec; [done..|].
  intros _ w1 (t1 & Hc & Hp & Hm). apply (spec_tracker _ _ _ _ _ _ (changed_lookup _ _ _ _ _ _ Hc)). apply spec_ret.
  exists t1. split_and!; try done. pose proof (ch_good _ _ _ _ _ _ Hc) as [[Hst1 _] _]. rewrite <- (live_length t1 Hst1).
  symmetry. case_bool_decide as Hall.
  - assert (live t1 = []) as ->; [|done]. apply Permutation_nil_r. rewrite Hp.
    clear -Hall. induction Hall as [|x l Hx _ IH]; [done|]. by rewrite filter_cons_False by tauto.
  - symmetry. apply Z.eqb_neq. intros Hz. apply Hall. apply Forall_forall. intros e He.
    destruct (decide (entry_done done e)) as [|Hn]; [done|].
    assert (e ∈ live t1) as Hin by (rewrite Hp; by apply list_elem_of_filter).
    destruct (live t1); [by apply elem_of_nil in Hin|cbn in Hz; lia].
Qed.

(** Entries that are still pending have a channel. *)
Lemma pending_channels done es es' :
  es' ≡ₚ filter (fun e => ~ entry_done done e) es -> Forall (entry_known done) es -> Forall (has_channel done) es'.
Proof.
  intros Hp Hk. rewrite Hp. rewrite Forall_forall in Hk |- *. intros e [Hn He]%list_elem_of_filter.
  specialize (Hk e He). unfold entry_done, entry_known, has_channel in *. destruct (entry_channel e) as [c|]; [eauto|by destruct Hn].
Qed.

Lemma wait_loop_spec b T id fuel : forall done w t st,
  world_ok done w -> holds done w id t -> fatal_ok w -> ends st w True ->
  (b = true -> Forall (entry_due T) (live t) /\ enough T fuel st w (Forall (entry_done done) (live t))) ->
  spec b (wait_loop E fuel id st) (fun st' w' => exists done' t', moved done done' w w' id t' /\ max_size t' = max_size t
    /\ ends st' w' (live t' = [] /\ pending done' (live t) ≡ ∅)) w.
Proof.
  induction fuel as [|fuel IH]; intros done w t st Hw Ht Hf Hst Hb.
  { unfold spec. cbn. destruct b; [|done]. by destruct Hb as [_ [? _]]; [|lia]. }
  cbn [wait_loop]. spec_step is_completed_spec; [done..|]. intros r w1 (t1 & Hc1 & Hp1 & Hm1 & ->).
  pose proof (changed_moved _ _ _ _ _ Hc1) as Hmv. pose proof (changed_holds _ _ _ _ _ _ Hc1) as Ht1.
  destruct (negb (bool_decide (Forall (entry_done done) (live t))) && (st =? NV_OK)) eqn:Hcond.
  2:{ apply spec_ret. exists done, t1. split_and!; [done|done|]. destruct Hst as [[-> _]|(-> & Hne & Hfat)].
      - rewrite andb_true_r in Hcond. apply negb_false_iff, bool_decide_eq_true in Hcond. left. split_and!; [done| |].
        + apply Permutation_nil_r. rewrite Hp1. clear -Hcond.
          induction Hcond as [|x l Hx _ IH]; [done|]. by rewrite filter_cons_False by tauto.
        + by apply pending_done.
      - right. split_and!; [done..|]. by rewrite (ch_fatal _ _ _ _ _ _ Hc1). }
  apply andb_true_iff in Hcond as [Hnd%negb_true_iff%bool_decide_eq_false ->%Z.eqb_eq].
  pose proof (moved_fatal _ _ _ _ _ _ Hmv Hf) as Hf1.
  spec_step spin_spec; [apply Hc1|done|]. intros _ w2 (d2 & Ha2 & Ht2 & Hdue). pose proof (after_fatal _ _ _ _ Ha2 Hf1) as Hf2.
  pose proof (moved_after _ _ _ _ _ _ _ _ Hmv Ha2) as Hmv2. pose proof (moved_holds _ _ _ _ _ _ Hmv2) as Hh2.
  assert (Forall (has_channel d2) (live t1)) as Hch.
  { eapply Forall_impl; [eapply pending_channels; [exact Hp1|apply Ht]|].
    intros e (c & Hc & [d Hd]). exists c. split; [done|]. destruct (af_later _ _ _ _ Ha2 c d Hd) as (d' & ? & _). eauto. }
  spec_step check_errors_spec; [apply Ha2|done..|]. intros st3 w3 [Ha3 Hst3].
  pose proof (moved_after _ _ _ _ _ _ _ _ Hmv2 Ha3) as Hmv3.
  eapply spec_mono; [apply (IH d2 w3 t1 st3)|].
  - apply Ha3.
  - by eapply moved_holds.
  - by eapply moved_fatal.
  - done.
  - intros ->. destruct (Hb eq_refl) as [HT [_ Hen]]. specialize (Hen eq_refl Hnd).
    assert (Forall (entry_due T) (live t1)) as HT1.
    { rewrite Hp1. rewrite Forall_forall in HT |- *. intros e [_ He]%list_elem_of_filter. by apply HT. }
    split; [done|]. destruct Ha2 as [_ _ _ _ T2], Ha3 as [_ _ _ _ T3], Hmv as [_ _ _ _ _ T1]. split; [lia|]. intros _ Hnd2.
    destruct (decide (T <= time w1)%nat) as [Hle|Hgt]; [|lia]. destruct Hnd2.
    pose proof (pending_channels _ _ _ Hp1 (proj2 (proj2 Ht))) as Hch1. rewrite Forall_forall in HT1, Hch1 |- *. intros e He.
    specialize (HT1 e He). destruct (Hch1 e He) as (c & Hc & Hd). unfold entry_due, entry_done in *. rewrite Hc in *.
    apply Hdue; [by apply HT1|done].
  - intros st' w' (d' & t' & Hmv' & Hm' & He). exists d', t'. split_and!; [by eapply moved_trans|congruence|].
    destruct He as [(-> & Hl & Hp)|He]; [left|by right]. split_and!; [done..|]. rewrite <- Hp.
    eapply pending_later; [etransitivity; [apply Hmv3|apply Hmv']|]. by rewrite Hp1, pending_filter.
Qed.

Lemma wait_spec b T id fuel done w t :
  world_ok done w -> holds done w id t -> fatal_ok w ->
  (b = true -> Forall (entry_due T) (live t) /\ (T - time w + 2 <= fuel)%nat) ->
  spec b (uvm_tracker_wait E fuel id) (fun st w' => exists done' t', moved done done' w w' id t' /\ max_size t' = max_size t
    /\ live t' = [] /\ ends st w' (pending done' (live t) ≡ ∅)) w.
Proof.
  intros Hw Ht Hf Hb. unfold uvm_tracker_wait. spec_step (wait_loop_spec b T); [done..|by left| |].
  { intros ->. destruct (Hb eq_refl). split; [done|]. split; lia. }
  intros st w1 (d1 & t1 & Hmv & Hm & [(-> & Hl & Hp)|(-> & Hne & Hfat)]).
  - apply spec_ret. exists d1, t1. split_and!; [done..|by left].
  - apply Z.eqb_neq in Hne as Hne'. rewrite Hne'. cbn [negb]. eapply spec_bind with (P := fun f w'' => f = err /\ w'' = w1).
    { by cbn. }
    intros ? ? [-> ->]. apply spec_assert_bind; [apply Z.eqb_refl|].
    spec_step clear_spec; [apply Hmv|by eapply moved_holds|]. intros _ w2 (t2 & Hc2 & Hl2 & _ & Hm2). apply spec_ret.
    exists d1, t2. split_and!; [eapply moved_trans; [exact Hmv|by apply changed_moved]|congruence|done|right].
    split_and!; [done..|]. by rewrite (ch_fatal _ _ _ _ _ _ Hc2).
Qed.

Lemma query_spec b done w id t :
  world_ok done w -> holds done w id t -> fatal_ok w ->
  spec b (uvm_tracker_query E id) (fun st w' => exists t', moved done done w w' id t' /\ pending done (live t') ≡ pending done (live t)
    /\ (st = NV_OK /\ Forall (entry_done done) (live t) \/ st = NV_WARN_MORE_PROCESSING_REQUIRED /\ ~ Forall (entry_done done) (live t)
        \/ st = err /\ st <> NV_OK /\ fatal_error (global w') = err)) w.
Proof.
  intros Hw Ht Hf. unfold uvm_tracker_query. spec_step is_completed_spec; [done..|]. intros r w1 (t1 & Hc1 & Hp1 & _ & ->).
  pose proof (changed_moved _ _ _ _ _ Hc1) as Hmv. pose proof (pending_channels _ _ _ Hp1 (proj2 (proj2 Ht))) as Hch.
  spec_step check_errors_spec; [apply Hc1|by eapply moved_fatal|by eapply moved_holds|done|].
  intros st w2 [Ha He]. pose proof (moved_after _ _ _ _ _ _ _ _ Hmv Ha) as Hmv2.
  assert (pending done (live t1) ≡ pending done (live t)) as Hp by (by rewrite Hp1, pending_filter).
  destruct He as [[-> _]|(-> & Hne & Hfat)].
  - apply spec_ret. exists t1. split_and!; [done..|]. case_bool_decide; [by left|by right; left].
  - apply Z.eqb_neq in Hne as Hne'. rewrite Hne'. apply spec_ret. exists t1. split_and!; [done..|]. by right; right.
Qed.

(** ** Waiting for other GPUs *)
Lemma NoDup_replace {A} (l : list A) i x : NoDup l -> x ∉ l -> NoDup (<[i := x]> l).
Proof.
  intros Hnd Hx. destruct (l !! i) as [y|] eqn:Hi; [|by rewrite list_insert_ge by (by apply lookup_ge_None)].
  destruct (list_elem_of_split_length l i y Hi) as (a & c & -> & ->). rewrite insert_app_r_alt, Nat.sub_diag by lia. cbn.
  apply NoDup_app in Hnd as (Ha & Hac & [Hy Hc]%NoDup_cons). apply NoDup_app. split_and!; [done| |].
  - intros z Hz [->|Hz']%elem_of_cons; [set_solver|]. apply (Hac z Hz). by right.
  - apply NoDup_cons. set_solver.
Qed.

Definition waited (gpu : gpu_id) (done : gmap channel_ptr Z) (e : uvm_tracker_entry_t) : Prop :=
  uvm_tracker_entry_gpu e = Some gpu \/ entry_done done e.

Lemma waited_later gpu done done' e : later done done' -> waited gpu done e -> waited gpu done' e.
Proof.
  intros Hl [Hg|Hd]; [by left|right]. unfold entry_done in *. destruct (entry_channel e); [|done]. by eapply completed_later.
Qed.

Lemma has_channel_later done done' e : later done done' -> has_channel done e -> has_channel done' e.
Proof. intros Hl (c & Hc & [d Hd]). exists c. split; [done|]. destruct (Hl c d Hd) as (d' & ? & _). eauto. Qed.

(** Storing an entry back after waiting for it. *)
Lemma store_waited done w id t i e e' :
  world_ok done w -> holds done w id t -> live t !! Z.to_nat i = Some e -> 0 <= i < tracker_size t ->
  Forall (has_channel done) (live t) -> e' = e \/ e' = mk_entry None 0 ->
  exists t', set_entry t i e' = Some t' /\ live t' = <[Z.to_nat i := e']> (live t) /\ max_size t' = max_size t
    /\ tracker_size t' = tracker_size t /\ changed R done w (w <| trackers := <[id := t']> (trackers w) |>) id t'.
Proof.
  intros Hw [Ht Hg] He Hi Hch Hcase. pose proof Hg as [[Hst Hnd] Hk].
  destruct (set_entry_ok t i e' Hst Hi) as (t' & Hset & Hst' & Hl & Ha & Hs & Hm). exists t'. split_and!; try done.
  apply (changed_intro R done w _ id t); try done; [|apply Hw|cbn; lia]. split; [split; [done|]|]; rewrite Hl.
  - destruct Hcase as [->| ->]; [by rewrite list_insert_id|]. rewrite list_fmap_insert. cbn. apply NoDup_replace; [done|].
    intros (x & Hx & Hin)%list_elem_of_fmap. rewrite Forall_forall in Hch. destruct (Hch x Hin) as (c & Hc & _). congruence.
  - apply Forall_insert; [done|]. destruct Hcase as [->| ->]; [by eapply Forall_lookup_1|done].
Qed.

Lemma wait_other_spec b T fuel id gpu n : forall i done w t,
  world_ok done w -> holds done w id t -> fatal_ok w -> 0 <= i -> tracker_size t = i + Z.of_nat n ->
  Forall (has_channel done) (live t) -> Forall (waited gpu done) (take (Z.to_nat i) (live t)) ->
  (b = true -> Forall (entry_due T) (live t) /\ (T - time w + 2 <= fuel)%nat) ->
  spec b (wait_other_loop E fuel n id gpu i) (fun st w' => exists done' t', moved done done' w w' id t' /\ max_size t' = max_size t
    /\ ends st w' (live t' = live t /\ Forall (waited gpu done') (live t))) w.
Proof.
  induction n as [|n IH]; intros i done w t Hw Ht Hf Hi Hs Hch Hbefore Hb; cbn [wait_other_loop].
  { apply spec_ret. pose proof Ht as [Hl [[Hst _] _]]. pose proof (live_length t Hst). exists done, t.
    split_and!; [by apply changed_moved, changed_refl; [|apply Ht..]|done|left]. rewrite take_ge in Hbefore by lia. done. }
  pose proof Ht as [Hl Hg]. pose proof Hg as [[Hst _] _]. apply (spec_tracker _ _ _ _ _ _ Hl).
  destruct (entry_at_ok t i Hst ltac:(lia)) as (e & He & Hle). apply (spec_lift_bind _ _ _ _ _ _ He).
  assert (has_channel done e) as Hce by (by eapply Forall_lookup_1). destruct Hce as (c & Hc & Hd).
  eapply spec_lift_bind; [unfold uvm_tracker_entry_gpu; by rewrite Hc|].
  assert (forall done', Forall (waited gpu done') (take (Z.to_nat i) (live t)) -> waited gpu done' e ->
            Forall (waited gpu done') (take (Z.to_nat (i + 1)) (live t))) as Hnext.
  { intros done' Hf1 He1. replace (Z.to_nat (i + 1)) with (S (Z.to_nat i)) by lia. rewrite (take_S_r _ _ e) by done.
    apply Forall_app. split; [done|]. by constructor. }
  case_bool_decide as Hgpu.
  { apply (IH (i + 1)); try done; [lia|lia|]. apply Hnext; [done|]. left. unfold uvm_tracker_entry_gpu. rewrite Hc. cbn. by rewrite Hgpu. }
  spec_step (wait_for_entry_spec b T e fuel done w); [done|unfold entry_known; by rewrite Hc|done| |].
  { intros Hbt. destruct (Hb Hbt) as [HT ?]. split; [|done]. by eapply Forall_lookup_1. }
  intros [st e'] w1 (d1 & Ha & Hends & He'). cbn [fst snd] in *.
  assert (holds d1 w1 id t) as Ht1 by (split; [by rewrite (af_trackers _ _ _ _ Ha)|eapply good_later; [apply Ha|done]]).
  assert (Forall (has_channel d1) (live t)) as Hch1 by (eapply Forall_impl; [exact Hch|]; intros x; apply has_channel_later, Ha).
  destruct (store_waited d1 w1 id t i e e') as (t2 & Hset & Hl2 & Hm2 & Hs2 & Hc2); [apply Ha|done|done|lia|done| |].
  { rewrite He'. destruct (st =? NV_OK); [by left|by right]. }
  apply (spec_tracker _ _ _ _ _ _ (proj1 Ht1)). apply (spec_lift_bind _ _ _ _ _ _ Hset). apply spec_put.
  set (w2 := w1 <| trackers := _ |>) in *.
  assert (moved done d1 w w2 id t2) as Hmv.
  { destruct Ha as [Ea Wa La Fa Ta], Hc2 as [E2 G2 W2 F2 T2]. split; [by rewrite E2, Ea|done..]. }
  destruct Hends as [[-> Hdone]|(-> & Hne & Hfat)].
  - cbn [Z.eqb negb NV_OK] in *. subst e'. rewrite list_insert_id in Hl2 by done.
    eapply spec_mono; [apply (IH (i + 1) d1 w2 t2)|]; rewrite ?Hl2.
    + apply Hc2.
    + by eapply moved_holds.
    + by eapply moved_fatal.
    + lia.
    + lia.
    + done.
    + apply Hnext; [|by right]. eapply Forall_impl; [exact Hbefore|]. intros x. apply waited_later, Ha.
    + intros Hbt. destruct (Hb Hbt) as [HT ?]. split; [done|]. pose proof (mv_time _ _ _ _ _ _ Hmv). lia.
    + intros st w3 (d3 & t3 & Hmv3 & Hm3 & Hends). exists d3, t3. split_and!; [by eapply moved_trans|congruence|done].
  - apply Z.eqb_neq in Hne as Hne'. rewrite Hne'. cbn [negb]. apply spec_ret. exists d1, t2. split_and!; [done|done|]. by right.
Qed.

Lemma wait_other_gpus_spec b T fuel id gpu done w t :
  world_ok done w -> holds done w id t -> fatal_ok w -> Forall (has_channel done) (live t) ->
  (b = true -> Forall (entry_due T) (live t) /\ (T - time w + 2 <= fuel)%nat) ->
  spec b (uvm_tracker_wait_for_other_gpus E fuel id gpu) (fun st w' => exists done' t', moved done done' w w' id t'
    /\ max_size t' = max_size t /\ (st <> NV_OK -> live t' = [])
    /\ ends st w' (pending done' (live t') ≡ pending done' (live t)
         /\ Forall (fun e => uvm_tracker_entry_gpu e = Some gpu) (live t'))) w.
Proof.
  intros Hw Ht Hf Hch Hb. pose proof Ht as [Hl [[Hst _] _]]. pose proof (live_length t Hst) as Hlen.
  unfold uvm_tracker_wait_for_other_gpus. apply (spec_tracker _ _ _ _ _ _ Hl).
  apply (spec_lift_bind _ _ _ _ _ _ (entries_ok t Hst)).
  spec_step (wait_other_spec b T fuel id gpu (length (live t)) 0 done w t); [done..|lia|done|constructor|done|].
  intros st w1 (d1 & t1 & Hmv & Hm & [(-> & Hl1 & Hwt)|(-> & Hne & Hfat)]).
  - cbn [Z.eqb NV_OK]. destruct (moved_holds _ _ _ _ _ _ Hmv) as [Ht1 Hg1].
    spec_step (remove_completed_spec R b d1 w1 id t1); [apply Hmv|done..|]. intros _ w2 (t2 & Hc2 & Hp2 & Hm2). apply spec_ret.
    exists d1, t2. split_and!; [eapply moved_trans; [exact Hmv|by apply changed_moved]|congruence|done|left].
    rewrite Hl1 in Hp2. split_and!; [done|by rewrite Hp2, pending_filter|]. rewrite Hp2.
    rewrite Forall_forall in Hwt |- *. intros e [Hn He]%list_elem_of_filter. by destruct (Hwt e He).
  - apply Z.eqb_neq in Hne as Hne'. rewrite Hne'. cbn [negb]. eapply spec_bind with (P := fun f w'' => f = err /\ w'' = w1).
    { by cbn. }
    intros ? ? [-> ->]. apply spec_assert_bind; [apply Z.eqb_refl|].
    spec_step clear_spec; [apply Hmv|by eapply moved_holds|]. intros _ w2 (t2 & Hc2 & Hl2 & _ & Hm2). apply spec_ret.
    exists d1, t2. split_and!; [eapply moved_trans; [exact Hmv|by apply changed_moved]|congruence|done|right].
    split_and!; [done..|]. by rewrite (ch_fatal _ _ _ _ _ _ Hc2).
Qed.
End waits.

(** ** Commands and what they mean *)
Inductive tracker_cmd :=
| CmdInit (id : tracker_id)
| CmdInitFrom (dst src : tracker_id)
| CmdDeinit (id : tracker_id)
| CmdClear (id : tracker_id)
| CmdReserve (id : tracker_id) (n : Z)
| CmdOverwrite (dst src : tracker_id)
| CmdOverwriteSafe (dst src : tracker_id)
| CmdOverwriteWithEntry (id : tracker_id) (e : uvm_tracker_entry_t)
| CmdAddEntry (id : tracker_id) (e : uvm_tracker_entry_t)
| CmdAddEntrySafe (id : tracker_id) (e : uvm_tracker_entry_t)
| CmdAddTracker (dst src : tracker_id)
| CmdAddTrackerSafe (dst src : tracker_id)
| CmdRemoveCompleted (id : tracker_id)
| CmdQuery (id : tracker_id)
| CmdWait (id : tracker_id)
| CmdWaitDeinit (id : tracker_id)
| CmdWaitForOtherGpus (id : tracker_id) (gpu : gpu_id).

Definition run_cmd (E : tracker_env) (fuel : nat) (cmd : tracker_cmd) : TM NV_STATUS :=
  match cmd with
  | CmdInit id => _ ← uvm_tracker_init id; mret NV_OK
  | CmdInitFrom dst src => uvm_tracker_init_from E dst src
  | CmdDeinit id => _ ← uvm_tracker_deinit id; mret NV_OK
  | CmdClear id => _ ← uvm_tracker_clear id; mret NV_OK
  | CmdReserve id n => uvm_tracker_reserve E id n
  | CmdOverwrite dst src => uvm_tracker_overwrite E dst src
  | CmdOverwriteSafe dst src => uvm_tracker_overwrite_safe E fuel dst src
  | CmdOverwriteWithEntry id e => _ ← uvm_tracker_overwrite_with_entry E id e; mret NV_OK
  | CmdAddEntry id e => uvm_tracker_add_entry E id e
  | CmdAddEntrySafe id e => uvm_tracker_add_entry_safe E fuel id e
  | CmdAddTracker dst src => uvm_tracker_add_tracker E dst (Some src)
  | CmdAddTrackerSafe dst src => uvm_tracker_add_tracker_safe E fuel dst (Some src)
  | CmdRemoveCompleted id => _ ← uvm_tracker_remove_completed id; mret NV_OK
  | CmdQuery id => uvm_tracker_query E id
  | CmdWait id => uvm_tracker_wait E fuel id
  | CmdWaitDeinit id => uvm_tracker_wait_deinit E fuel id
  | CmdWaitForOtherGpus id gpu => uvm_tracker_wait_for_other_gpus E fuel id gpu
  end.

(** The callers' side: trackers are initialised, a tracker is not overwritten with
    itself, entries name existing channels. *)
Definition cmd_ok (done : gmap channel_ptr Z) (w : uvm_world) (cmd : tracker_cmd) : Prop :=
  let live_tracker id := exists t, holds done w id t in
  match cmd with
  | CmdInit id => unused w id
  | CmdInitFrom dst src => dst <> src /\ unused w dst /\ live_tracker src
  | CmdDeinit id | CmdClear id | CmdRemoveCompleted id | CmdQuery id | CmdWait id | CmdWaitDeinit id => live_tracker id
  | CmdReserve id n => 0 <= n /\ exists t, holds done w id t /\ tracker_size t + n <= 2 ^ 31
  | CmdOverwrite dst src | CmdOverwriteSafe dst src => dst <> src /\ live_tracker dst /\ live_tracker src
  | CmdAddTracker dst src | CmdAddTrackerSafe dst src => live_tracker dst /\ live_tracker src
  | CmdOverwriteWithEntry id e | CmdAddEntry id e | CmdAddEntrySafe id e => live_tracker id /\ entry_known done e
  | CmdWaitForOtherGpus id _ => exists t, holds done w id t /\ Forall (has_channel done) (live t)
  end.

(** The meaning of a tracker. *)
Definition view (done : gmap channel_ptr Z) (w : uvm_world) (id : tracker_id) : propset obligation :=
  match trackers w !! id with Some t => pending done (live t) | None => ∅ end.

Definition upd (V : tracker_id -> propset obligation) (id : tracker_id) (s : propset obligation)
    : tracker_id -> propset obligation := fun i => if decide (i = id) then s else V i.

(** The abstract effect of a command: [V] are the sets before it, [ok] says
    whether it succeeded. *)
Definition effect (done : gmap channel_ptr Z) (cmd : tracker_cmd) (ok : bool) (V : tracker_id -> propset obligation)
    : tracker_id -> propset obligation :=
  match cmd with
  | CmdInit id | CmdDeinit id | CmdClear id | CmdWait id | CmdWaitDeinit id => upd V id ∅
  | CmdInitFrom dst src | CmdOverwrite dst src => upd V dst (if ok then V src else ∅)
  | CmdOverwriteSafe dst src => if ok then upd V dst (V src) else upd (upd V dst ∅) src ∅
  | CmdOverwriteWithEntry id e => upd V id (pending done [e])
  | CmdAddEntry id e | CmdAddEntrySafe id e => if ok then upd V id (V id ∪ pending done [e]) else V
  | CmdAddTracker dst src => if ok then upd V dst (V dst ∪ V src) else V
  | CmdAddTrackerSafe dst src => if ok then upd V dst (V dst ∪ V src) else upd V src ∅
  | CmdReserve _ _ | CmdRemoveCompleted _ | CmdQuery _ => V
  | CmdWaitForOtherGpus id _ => if ok then V else upd V id ∅
  end.

(** What success of a command says about the work that was tracked. *)
Definition promises (cmd : tracker_cmd) (V : tracker_id -> propset obligation) : Prop :=
  match cmd with
  | CmdWait id | CmdWaitDeinit id | CmdQuery id => V id ≡ ∅
  | CmdWaitForOtherGpus id gpu => forall o, o ∈ V id -> o.1.1 = gpu
  | _ => True
  end.

(** The commands that never fail, those that fail for want of memory, and those
    that fail with the error of a GPU; a query also tells that work is pending. *)
Definition may_return (err : NV_STATUS) (cmd : tracker_cmd) (st : NV_STATUS) : Prop :=
  st = NV_OK \/
  match cmd with
  | CmdInitFrom _ _ | CmdReserve _ _ | CmdOverwrite _ _ | CmdAddEntry _ _ | CmdAddTracker _ _ => st = NV_ERR_NO_MEMORY
  | CmdOverwriteSafe _ _ | CmdAddEntrySafe _ _ | CmdAddTrackerSafe _ _ | CmdWait _ | CmdWaitDeinit _
  | CmdWaitForOtherGpus _ _ => st = err
  | CmdQuery _ => st = err \/ st = NV_WARN_MORE_PROCESSING_REQUIRED
  | CmdInit _ | CmdDeinit _ | CmdClear _ | CmdOverwriteWithEntry _ _ | CmdRemoveCompleted _ => False
  end.

(** ** Every command has its abstract effect *)
Section commands.
Context (R : uvm_global_t -> gmap channel_ptr Z -> Prop) `{Hclock : !ChannelClock R} (E : tracker_env)
  (err : NV_STATUS) (due : nat -> obligation -> Prop) (Henv : env_ok R E err due) (fuel : nat).
Notation world_ok := (world_ok R).
Implicit Types (done : gmap channel_ptr Z) (w : uvm_world).

Record result (done : gmap channel_ptr Z) (w : uvm_world) (cmd : tracker_cmd) (st : NV_STATUS) (w' : uvm_world)
    (done' : gmap channel_ptr Z) : Prop := {
  re_world : world_ok done' w';
  re_later : later done done';
  re_fatal : fatal_ok err w';
  re_effect id : view done' w' id ≡ effect done' cmd (st =? NV_OK) (view done' w) id;
  re_promise : st = NV_OK -> promises cmd (view done' w);
  re_status : may_return err cmd st;
}.

Lemma view_insert done w w' id t i :
  trackers w' = <[id := t]> (trackers w) -> view done w' i = upd (view done w) id (pending done (live t)) i.
Proof.
  intros Ht. unfold view, upd. rewrite Ht. case_decide as Hi; [subst; by rewrite lookup_insert_eq|].
  by rewrite lookup_insert_ne by congruence.
Qed.

Lemma view_holds done done' w id t : holds done w id t -> view done' w id = pending done' (live t).
Proof. unfold view. by intros [-> _]. Qed.

Lemma upd_same (V : tracker_id -> propset obligation) id s i : V id ≡ s -> upd V id s i ≡ V i.
Proof. unfold upd. intros Hs. by case_decide; subst. Qed.

Lemma upd_eq (V : tracker_id -> propset obligation) id s s' i : s ≡ s' -> upd V id s i ≡ upd V id s' i.
Proof. unfold upd. by case_decide. Qed.

(** Commands that change one tracker. *)
Lemma moved_result done done' w w' cmd st id t :
  moved R err done done' w w' id t -> fatal_ok err w ->
  (forall i, upd (view done' w) id (pending done' (live t)) i ≡ effect done' cmd (st =? NV_OK) (view done' w) i) ->
  (st = NV_OK -> promises cmd (view done' w)) -> may_return err cmd st -> result done w cmd st w' done'.
Proof.
  intros Hmv Hf He Hp Hm. split; try done; [apply Hmv|apply Hmv|by eapply moved_fatal|].
  intros i. rewrite (view_insert done' w w' id t) by apply Hmv. apply He.
Qed.

Lemma changed_result done w w' cmd st id t :
  changed R done w w' id t -> fatal_ok err w ->
  (forall i, upd (view done w) id (pending done (live t)) i ≡ effect done cmd (st =? NV_OK) (view done w) i) ->
  (st = NV_OK -> promises cmd (view done w)) -> may_return err cmd st -> result done w cmd st w' done.
Proof. intros Hc. apply moved_result. by apply changed_moved. Qed.

(** ** Commands that do not wait *)
Definition meets (cmd : tracker_cmd) : Prop := forall done w,
  world_ok done w -> fatal_ok err w -> cmd_ok done w cmd ->
  spec false (run_cmd E fuel cmd) (fun st w' => exists done', result done w cmd st w' done') w.

Lemma meets_init id : meets (CmdInit id).
Proof.
  intros done w Hw Hf Hu. cbn [run_cmd cmd_ok] in *. spec_step init_spec; [done..|]. intros _ w1 [-> Hw1]. apply spec_ret.
  exists done. split; try done; [|by left]. intros i. rewrite (view_insert _ w _ id UVM_TRACKER_INIT) by done.
  apply upd_eq, pending_nil.
Qed.

Lemma meets_init_from dst src : meets (CmdInitFrom dst src).
Proof.
  intros done w Hw Hf (Hne & Hu & s & Hs). cbn [run_cmd]. eapply spec_mono; [by apply (init_from_spec R E)|].
  intros st w' ([Fr W F T] & d & Hd & Hst). exists done. split; [done|done|by unfold fatal_ok; rewrite F| |done|].
  - intros i. cbn [effect]. unfold upd. case_decide as Hi.
    + subst i. rewrite (view_holds done done w' dst d Hd).
      destruct Hst as [[-> ->]|[-> ->]]; cbn; [by rewrite (view_holds done done w src s Hs)|apply pending_nil].
    + unfold view. rewrite Fr; [done|]. set_solver.
  - destruct Hst as [[-> _]|[-> _]]; [by left|by right].
Qed.

Lemma deinit_view done w id t w' :
  fatal_ok err w -> holds done w id t -> kept R done w w' [id] -> trackers w' !! id = Some dead ->
  fatal_ok err w' /\ forall i, view done w' i ≡ upd (view done w) id ∅ i.
Proof.
  intros Hf Ht [Fr W F T] Hd. split; [by unfold fatal_ok; rewrite F|]. intros i. unfold upd, view.
  case_decide as Hi; [subst; rewrite Hd; apply pending_nil|]. rewrite Fr; [done|]. set_solver.
Qed.

Lemma meets_deinit id : meets (CmdDeinit id).
Proof.
  intros done w Hw Hf [t Ht]. cbn [run_cmd]. spec_step deinit_spec; [done..|]. intros _ w' (Hk & Hd & _). apply spec_ret.
  destruct (deinit_view done w id t w' Hf Ht Hk Hd) as [Hf' Hv]. exists done. split; try done; [apply Hk|by left].
Qed.

Lemma meets_clear id : meets (CmdClear id).
Proof.
  intros done w Hw Hf [t Ht]. cbn [run_cmd]. spec_step clear_spec; [done..|]. intros _ w' (t' & Hc & Hl & _). apply spec_ret.
  exists done. eapply changed_result; try done; [|by left]. intros i. apply upd_eq. rewrite Hl. apply pending_nil.
Qed.

Lemma meets_reserve id n : meets (CmdReserve id n).
Proof.
  intros done w Hw Hf (Hn & t & Ht & Hmax). cbn [run_cmd]. pose proof Ht as [Hl Hg].
  eapply spec_mono; [by apply (reserve_spec R E)|]. intros st w' (t' & Hc & Hlive & _ & _ & Hst).
  exists done. eapply changed_result; try done.
  - intros i. cbn [effect]. apply upd_same. by rewrite Hlive, (view_holds done done w id t Ht).
  - destruct Hst as [[-> _]|(-> & _)]; [by left|by right].
Qed.

Lemma meets_overwrite dst src : meets (CmdOverwrite dst src).
Proof.
  intros done w Hw Hf (Hne & [d Hd] & [s Hs]). cbn [run_cmd].
  eapply spec_mono; [by apply (overwrite_spec R E false done w dst src d s)|].
  intros st w' (d' & Hc & Hst). exists done. eapply changed_result; try done.
  - intros i. apply upd_eq. destruct Hst as [[-> ->]|(-> & -> & _)]; cbn; [|apply pending_nil].
    by rewrite (view_holds done done w src s Hs).
  - destruct Hst as [[-> _]|(-> & _)]; [by left|by right].
Qed.

Lemma meets_overwrite_with_entry id e : meets (CmdOverwriteWithEntry id e).
Proof.
  intros done w Hw Hf [[t Ht] He]. cbn [run_cmd]. spec_step (overwrite_with_entry_spec R E); [done..|].
  intros _ w' (t' & Hc & Hl). apply spec_ret. exists done. eapply changed_result; try done; [|by left].
  intros i. apply upd_eq. by rewrite Hl.
Qed.

Lemma meets_add_entry id e : meets (CmdAddEntry id e).
Proof.
  intros done w Hw Hf [[t Ht] He]. cbn [run_cmd]. pose proof Ht as [Hl Hg].
  eapply spec_mono; [by apply (add_entry_spec R E)|]. intros st w' (t' & Hc & _ & Hst).
  exists done. eapply changed_result; try done.
  - intros i. cbn [effect]. destruct Hst as [(-> & Hp & _)|(-> & -> & _)]; cbn.
    + apply upd_eq. rewrite Hp, pending_app. by rewrite (view_holds done done w id t Ht).
    + apply upd_same. by rewrite (view_holds done done w id t Ht).
  - destruct Hst as [(-> & _)|(-> & _)]; [by left|by right].
Qed.

(** Adding a tracker to itself changes nothing. *)
Lemma add_self_result done w dst cmd :
  world_ok done w -> fatal_ok err w -> cmd = CmdAddTracker dst dst \/ cmd = CmdAddTrackerSafe dst dst ->
  result done w cmd NV_OK w done.
Proof.
  intros Hw Hf Hcmd. split; try done; [|destruct Hcmd as [-> | ->]; done|by left]. intros i.
  destruct Hcmd as [-> | ->]; cbn; symmetry; apply upd_same; intros o; set_solver.
Qed.

(** What [uvm_tracker_add_tracker] leaves, for both of its users. *)
Lemma added_view done w w' dst src s d' s' i :
  kept R done w w' [dst; src] -> dst <> src -> holds done w src s -> holds done w' dst d' -> holds done w' src s' ->
  pending done (live s') ≡ pending done (live s) -> view done w' i ≡ upd (view done w) dst (pending done (live d')) i.
Proof.
  intros [Fr W F T] Hne Hs Hd' Hs' Hp. unfold upd. case_decide as Hi.
  - subst i. by rewrite (view_holds done done w' dst d' Hd').
  - destruct (decide (i = src)) as [->|Hi2].
    + by rewrite (view_holds done done w' src s' Hs'), (view_holds done done w src s Hs).
    + unfold view. rewrite Fr; [done|]. set_solver.
Qed.

Lemma meets_add_tracker dst src : meets (CmdAddTracker dst src).
Proof.
  intros done w Hw Hf [[d Hd] [s Hs]]. cbn [run_cmd]. destruct (decide (src = dst)) as [->|Hne].
  { unfold uvm_tracker_add_tracker. rewrite bool_decide_true by done. apply spec_ret. exists done. apply (add_self_result done w dst); auto. }
  eapply spec_mono; [by apply (add_tracker_spec R E false done w dst src d s)|].
  intros st w' (Hk & d' & s' & Hd' & Hs' & Hps & Hst). exists done. pose proof Hk as [_ W F _].
  split; [done|done|by unfold fatal_ok; rewrite F| |done|].
  - intros i. rewrite (added_view done w w' dst src s d' s') by done. cbn [effect].
    destruct Hst as [[-> Hpd]|[-> Hpd]]; cbn.
    + apply upd_eq. rewrite Hpd, pending_app. by rewrite (view_holds done done w dst d Hd), (view_holds done done w src s Hs).
    + apply upd_same. by rewrite Hpd, (view_holds done done w dst d Hd).
  - destruct Hst as [[-> _]|[-> _]]; [by left|by right].
Qed.

Lemma meets_remove_completed id : meets (CmdRemoveCompleted id).
Proof.
  intros done w Hw Hf [t Ht]. cbn [run_cmd]. pose proof Ht as [Hl Hg]. spec_step (remove_completed_spec R); [done..|].
  intros _ w' (t' & Hc & Hp & _). apply spec_ret. exists done. eapply changed_result; try done; [|by left].
  intros i. cbn [effect]. apply upd_same. by rewrite Hp, pending_filter, (view_holds done done w id t Ht).
Qed.

(** ** Commands that wait *)
Lemma meets_query id : meets (CmdQuery id).
Proof.
  intros done w Hw Hf [t Ht]. cbn [run_cmd]. eapply spec_mono; [by apply (query_spec R E err due Henv)|].
  intros st w' (t' & Hmv & Hp & Hst). exists done. eapply moved_result; try done.
  - intros i. cbn [effect]. apply upd_same. by rewrite Hp, (view_holds done done w id t Ht).
  - intros ->. cbn. rewrite (view_holds done done w id t Ht). destruct Hst as [[_ Hd]|[[? _]|(_ & ? & _)]]; [|done..].
    by apply pending_done.
  - unfold may_return. naive_solver.
Qed.

Lemma meets_wait id : meets (CmdWait id).
Proof.
  intros done w Hw Hf [t Ht]. cbn [run_cmd]. eapply spec_mono; [by apply (wait_spec R E err due Henv false 0)|].
  intros st w' (done' & t' & Hmv & _ & Hl & Hends). exists done'. eapply moved_result; try done.
  - intros i. apply upd_eq. rewrite Hl. apply pending_nil.
  - intros ->. cbn. rewrite (view_holds done done' w id t Ht). destruct Hends as [[_ Hp]|(_ & ? & _)]; done.
  - unfold may_return. destruct Hends as [[? _]|(? & _)]; auto.
Qed.

Lemma meets_wait_deinit id : meets (CmdWaitDeinit id).
Proof.
  intros done w Hw Hf [t Ht]. cbn [run_cmd]. unfold uvm_tracker_wait_deinit.
  spec_step (wait_spec R E err due Henv false 0); [done..|]. intros st w1 (done' & t' & Hmv & _ & Hl & Hends).
  pose proof (moved_holds _ _ _ _ _ _ _ _ Hmv) as Ht1. pose proof (moved_fatal _ _ _ _ _ _ _ _ Hmv Hf) as Hf1.
  spec_step (deinit_spec R false done' w1 id t'); [apply Hmv|done|]. intros _ w2 (Hk & Hd & _). apply spec_ret. exists done'.
  destruct (deinit_view done' w1 id t' w2 Hf1 Ht1 Hk Hd) as [Hf2 Hv]. split; [apply Hk|apply Hmv|done| | |].
  - intros i. rewrite Hv. cbn [effect]. unfold upd. case_decide as Hi; [done|]. unfold view.
    by rewrite (mv_trackers _ _ _ _ _ _ _ _ Hmv), lookup_insert_ne by congruence.
  - intros ->. cbn. rewrite (view_holds done done' w id t Ht). destruct Hends as [[_ Hp]|(_ & ? & _)]; done.
  - unfold may_return. destruct Hends as [[? _]|(? & _)]; auto.
Qed.

Lemma meets_wait_for_other_gpus id gpu : meets (CmdWaitForOtherGpus id gpu).
Proof.
  intros done w Hw Hf (t & Ht & Hch). cbn [run_cmd]. eapply spec_mono; [by apply (wait_other_gpus_spec R E err due Henv false 0)|].
  intros st w' (done' & t' & Hmv & _ & Hl & Hends). exists done'. eapply moved_result; try done.
  - intros i. cbn [effect]. destruct Hends as [(-> & Hp & _)|(-> & Hne & _)].
    + cbn. apply upd_same. by rewrite (view_holds done done' w id t Ht), Hp.
    + apply Z.eqb_neq in Hne as Hne'. rewrite Hne'. apply upd_eq. rewrite Hl by done. apply pending_nil.
  - intros ->. cbn. rewrite (view_holds done done' w id t Ht). destruct Hends as [(_ & Hp & Hg)|(_ & ? & _)]; [|done].
    intros o. rewrite <- Hp, elem_of_pending. intros (_ & e & He & Hc & _). rewrite Forall_forall in Hg. specialize (Hg e He).
    unfold uvm_tracker_entry_gpu in Hg. rewrite Hc in Hg. cbn in Hg. by simplify_eq.
  - unfold may_return. destruct Hends as [[? _]|(? & _)]; auto.
Qed.

Lemma meets_overwrite_safe dst src : meets (CmdOverwriteSafe dst src).
Proof.
  intros done w Hw Hf (Hne & [d Hd] & [s Hs]). cbn [run_cmd]. unfold uvm_tracker_overwrite_safe.
  spec_step (overwrite_spec R E false done w dst src d s); [done..|].
  intros st w1 (d1 & Hc & [[-> Hl]|(-> & Hl & _)]); cbn [Z.eqb NV_OK NV_ERR_NO_MEMORY].
  { apply spec_ret. exists done. eapply changed_result; try done; [|by left].
    intros i. cbn. apply upd_eq. by rewrite Hl, (view_holds done done w src s Hs). }
  pose proof (changed_other _ _ _ _ _ _ _ _ Hc Hne Hs) as Hs1. pose proof (changed_moved _ err _ _ _ _ _ Hc) as Hmv1.
  eapply spec_mono; [apply (wait_spec R E err due Henv false 0 src fuel done w1 s); [apply Hc|done|by eapply moved_fatal|done]|].
  intros st w2 (done' & s2 & Hmv & _ & Hl2 & Hends). exists done'.
  split; [apply Hmv|apply Hmv|eapply moved_fatal; [exact Hmv|by eapply moved_fatal]| |done|].
  - intros i. rewrite (view_insert _ _ _ _ _ _ (mv_trackers _ _ _ _ _ _ _ _ Hmv)). rewrite Hl2. cbn [effect].
    destruct Hends as [[-> Hp]|(-> & Hne' & _)].
    + cbn. unfold upd at 1. case_decide as Hi; [subst i; unfold upd; rewrite decide_False, pending_nil by done|].
      * by rewrite (view_holds done done' w src s Hs).
      * rewrite (view_insert _ _ _ _ _ _ (ch_trackers _ _ _ _ _ _ Hc)), Hl. apply upd_eq.
        by rewrite (view_holds done done' w src s Hs), Hp, pending_nil.
    + apply Z.eqb_neq in Hne' as Hne2. rewrite Hne2. unfold upd at 1 2. case_decide; [apply pending_nil|].
      rewrite (view_insert _ _ _ _ _ _ (ch_trackers _ _ _ _ _ _ Hc)), Hl. apply upd_eq, pending_nil.
  - unfold may_return. destruct Hends as [[? _]|(? & _)]; auto.
Qed.

Lemma meets_add_entry_safe id e : meets (CmdAddEntrySafe id e).
Proof.
  intros done w Hw Hf [[t Ht] He]. cbn [run_cmd]. pose proof Ht as [Hl Hg]. unfold uvm_tracker_add_entry_safe.
  spec_step (add_entry_spec R E false done w id t e); [done..|].
  intros st w1 (t1 & Hc & _ & [(-> & Hp & _)|(-> & -> & _)]); cbn [Z.eqb NV_OK NV_ERR_NO_MEMORY].
  { apply spec_ret. exists done. eapply changed_result; try done; [|by left]. intros i. cbn.
    apply upd_eq. rewrite Hp, pending_app. by rewrite (view_holds done done w id t Ht). }
  pose proof (changed_moved _ err _ _ _ _ _ Hc) as Hmv1.
  eapply spec_bind; [apply (wait_for_entry_spec R E err due Henv false 0 e fuel done w1); [apply Hc|done|by eapply moved_fatal|done]|].
  intros [st e'] w2 (done' & Ha & Hends & _). cbn [fst] in *. apply spec_ret. exists done'.
  assert (moved R err done done' w w2 id t) as Hmv by (by eapply moved_after). eapply moved_result; try done.
  - intros i. cbn [effect]. rewrite <- (view_holds done done' w id t Ht). destruct Hends as [[-> Hd]|(-> & Hne & _)].
    + cbn. apply upd_eq. rewrite (pending_done done' [e]) by (by constructor). by rewrite (right_id ∅ (∪)).
    + apply Z.eqb_neq in Hne as Hne'. rewrite Hne'. by apply upd_same.
  - unfold may_return. destruct Hends as [[? _]|(? & _)]; auto.
Qed.

Lemma meets_add_tracker_safe dst src : meets (CmdAddTrackerSafe dst src).
Proof.
  intros done w Hw Hf [[d Hd] [s Hs]]. cbn [run_cmd]. unfold uvm_tracker_add_tracker_safe.
  destruct (decide (src = dst)) as [->|Hne].
  { unfold uvm_tracker_add_tracker. rewrite bool_decide_true by done. apply spec_ret. exists done. apply (add_self_result done w dst); auto. }
  spec_step (add_tracker_spec R E false done w dst src d s); [done..|].
  intros st w1 (Hk & d1 & s1 & Hd1 & Hs1 & Hps & Hst). pose proof Hk as [_ W1 F1 _].
  assert (fatal_ok err w1) as Hf1 by (by unfold fatal_ok; rewrite F1).
  assert (forall i, view done w1 i ≡ upd (view done w) dst (pending done (live d1)) i) as Hv.
  { intros i. by apply (added_view done w w1 dst src s d1 s1). }
  destruct Hst as [[-> Hpd]|[-> Hpd]]; cbn [Z.eqb NV_OK NV_ERR_NO_MEMORY].
  { apply spec_ret. exists done. split; try done; [|by left]. intros i. rewrite Hv. cbn. apply upd_eq.
    rewrite Hpd, pending_app. by rewrite (view_holds done done w dst d Hd), (view_holds done done w src s Hs). }
  eapply spec_lift_bind; [done|].
  eapply spec_mono; [by apply (wait_spec R E err due Henv false 0 src fuel done w1 s1)|].
  intros st w2 (done' & s2 & Hmv & _ & Hl2 & Hends). exists done'.
  assert (view done' w1 dst ≡ view done' w dst) as Hvd.
  { rewrite (view_holds done done' w1 dst d1 Hd1), (view_holds done done' w dst d Hd). eapply pending_later; [apply Hmv|done]. }
  assert (pending done' (live s1) ≡ view done' w src) as Hvs.
  { rewrite (view_holds done done' w src s Hs). eapply pending_later; [apply Hmv|done]. }
  split; [apply Hmv|apply Hmv|by eapply moved_fatal| |done|].
  - intros i. rewrite (view_insert _ _ _ _ _ _ (mv_trackers _ _ _ _ _ _ _ _ Hmv)). rewrite Hl2. cbn [effect].
    assert (i <> src -> view done' w1 i ≡ view done' w i) as Hother.
    { intros Hi. destruct (decide (i = dst)) as [->|Hi2]; [done|]. unfold view. rewrite (ke_frame _ _ _ _ _ Hk); [done|]. set_solver. }
    destruct Hends as [[-> Hp]|(-> & Hne' & _)].
    + cbn. rewrite Hvs in Hp. unfold upd. case_decide as Hi.
      * subst i. rewrite decide_False by congruence. by rewrite Hp, pending_nil.
      * rewrite Hother by done. case_decide; [|done]. subst i. by rewrite Hp, (right_id ∅ (∪)).
    + apply Z.eqb_neq in Hne' as Hne2. rewrite Hne2. unfold upd. case_decide; [apply pending_nil|by apply Hother].
  - unfold may_return. destruct Hends as [[? _]|(? & _)]; auto.
Qed.

Lemma meets_cmd cmd : meets cmd.
Proof.
  destruct cmd; auto using meets_init, meets_init_from, meets_deinit, meets_clear, meets_reserve, meets_overwrite,
    meets_overwrite_safe, meets_overwrite_with_entry, meets_add_entry, meets_add_entry_safe, meets_add_tracker,
    meets_add_tracker_safe, meets_remove_completed, meets_query, meets_wait, meets_wait_deinit, meets_wait_for_other_gpus.
Qed.
End commands.
