(* ===== verification/TrackerSystem.v ===== *)
(** * Trackers over the channels of all GPUs

    The channels of every GPU, in every state that threads and GPUs can reach,
    keep the promise [ChannelClock] on which the trackers rely.  This closes the
    chain from a tracker through the channels, their tracking semaphores and the
    push buffer: a successful wait means that the GPUs have finished all the work
    that was ever added to the tracker. *)

From stdpp Require Import propset.
From S2P Require Import Prelude StateMonad PageMask Pushbuffer PushbufferSpec GpuSemaphore Channel ChannelSpec Tracker TrackerOps TrackerSpec.

(** ** Channels stay *)

(** A channel keeps its size, and its queued value never decreases. *)
Definition grows (m m' : uvm_channel_manager_t) : Prop :=
  forall c ch, channels m !! c = Some ch -> exists ch', channels m' !! c = Some ch'
    /\ num_gpfifo_entries ch' = num_gpfifo_entries ch /\ queued_value (tracking_sem ch) <= queued_value (tracking_sem ch').

#[export] Instance grows_preorder : PreOrder grows.
Proof.
  split.
  - intros m c ch Hc. exists ch. split_and!; [done|done|lia].
  - intros m1 m2 m3 H12 H23 c ch Hc. destruct (H12 c ch Hc) as (ch' & Hc' & ? & ?).
    destruct (H23 c ch' Hc') as (ch'' & ? & ? & ?). exists ch''. split_and!; [done|congruence|lia].
Qed.

Lemma put_grows m m' c ch ch' :
  channels m !! c = Some ch -> channels m' = <[c := ch']> (channels m) -> num_gpfifo_entries ch' = num_gpfifo_entries ch ->
  queued_value (tracking_sem ch) <= queued_value (tracking_sem ch') -> grows m m'.
Proof.
  intros Hc Hm Hn Hq c0 ch0 Hc0. rewrite Hm. destruct (decide (c = c0)) as [<-|Hne].
  - rewrite lookup_insert_eq. simplify_eq. eauto.
  - rewrite lookup_insert_ne by done. exists ch0. split_and!; [done|done|lia].
Qed.

Lemma progress_grows mode v c put budget : forall m get k m',
  progress_loop budget mode v m c get put = Some (k, m') -> grows m m'.
Proof.
  induction budget as [|budget IH]; intros m get k m' Hrun; cbn [progress_loop] in Hrun; [by simplify_eq|].
  destruct (get =? put); [by simplify_eq|]. apply bind_Some in Hrun as (e & He & Hrun).
  destruct (_ && _); [by simplify_eq|]. apply bind_Some in Hrun as (m1 & Hm1 & Hrun). apply bind_Some in Hrun as (ch & Hch & Hrun).
  etransitivity; [|eapply IH; exact Hrun]. destruct (gpfifo_type e); [|by simplify_eq].
  apply bind_Some in Hm1 as (pb & Hpb & Hm1). cbv zeta in Hm1. apply bind_Some in Hm1 as (ch' & Hch' & Hm1). simplify_eq.
  by eapply put_grows.
Qed.

Lemma locked_grows m c budget mode v k m' :
  update_progress_locked m c budget mode v = Some (k, m') -> grows m m'.
Proof.
  unfold update_progress_locked. intros Hrun. apply bind_Some in Hrun as (ch & Hch & Hrun). destruct (_ <=? _); [|done].
  apply bind_Some in Hrun as ([get m1] & Hm1 & Hrun). apply bind_Some in Hrun as (ch' & Hch' & Hrun). simplify_eq.
  etransitivity; [by eapply progress_grows|by eapply put_grows].
Qed.

Lemma update_queued s r : uvm_gpu_tracking_semaphore_update_completed_value s = Some r -> queued_value r.2 = queued_value s.
Proof.
  unfold uvm_gpu_tracking_semaphore_update_completed_value, update_completed_value_locked. destruct (_ =? _); [by intros [= <-]|].
  cbv zeta. destruct (_ <=? _); [by intros [= <-]|done].
Qed.

Lemma query_queued s v r : uvm_gpu_tracking_semaphore_is_value_completed s v = Some r -> queued_value r.2 = queued_value s.
Proof.
  unfold uvm_gpu_tracking_semaphore_is_value_completed. destruct (_ <=? _); [by intros [= <-]|].
  intros H. apply bind_Some in H as ([d s'] & H & [= <-]). apply (update_queued _ _ H).
Qed.

Lemma claim_same ch n ty r :
  try_claim_channel_locked ch n ty = Some r ->
  num_gpfifo_entries r.2 = num_gpfifo_entries ch /\ tracking_sem r.2 = tracking_sem ch.
Proof.
  unfold try_claim_channel_locked. intros H. destruct (0 <? n); [|done]. destruct (n <? _); [|done].
  destruct (_ && _); [by simplify_eq|]. apply bind_Some in H as (k & _ & H). by destruct (_ <=? _); simplify_eq.
Qed.

Lemma next_queued q : q + 1 < 2 ^ 64 -> q <= NvU64 (q + 1).
Proof.
  intros Hq. pose proof (wrap_range 64 (q + 1) ltac:(done)) as Hr. fold (NvU64 (q + 1)) in Hr. unfold in_width in Hr.
  destruct (decide (0 <= q + 1)); [rewrite NvU64_small; lia|lia].
Qed.

Lemma step_grows E base s s' :
  memory_ok E base -> chan_reachable E s -> chan_step E s s' -> grows (cs_manager s) (cs_manager s').
Proof.
  intros Hmem Hreach Hstep. destruct (chan_reachable_inv E base s Hmem Hreach) as [rings Hs].
  destruct Hstep as [m begun ready done pb' begun' Hl|m begun ready done c1 ch n ty b m' Hc Hn Hrun
    |m begun ready done c1 ch n m' Hc Hn Hh Hrun|m begun ready done c1 ch p push info m' Hc Hb Hr Hp Hpc Hh Hrun
    |m begun ready done c1 ch p push size callback m' Hc Hr Hp Hz H4 Hroom Hq Hrun
    |m begun ready done c1 ch value m' Hc Hh Hq Hrun|m begun ready done c1 ch d Hc Hd Hlt
    |m begun ready done c1 v m' Hrun|m begun ready done c1 v b m' Hrun
    |m begun ready done c1 ch v budget k m' Hc Hv Hrun|m begun ready done c1 ch b Hc]; cbn [cs_manager].
  - intros c0 ch0 Hc0. exists ch0. by split_and!.
  - unfold try_claim_channel in Hrun. binds Hrun. destruct (claim_same _ _ _ _ Hx0) as [? E1]. eapply put_grows; [done|done|done|by rewrite E1].
  - unfold uvm_channel_release in Hrun. binds Hrun. by eapply put_grows.
  - unfold channel_get_available_push_info_index in Hrun. binds Hrun. destruct (available_push_infos ch); [done|]. simplify_eq.
    by eapply put_grows.
  - unfold uvm_channel_end_push in Hrun. binds Hrun. eapply put_grows; [done|done|done|].
    destruct (si_ready _ _ _ Hs p c1 Hr) as (_ & _ & push' & Hp' & <-). cbn in Hp'. simplify_eq. by apply next_queued.
  - unfold write_ctrl_gpfifo in Hrun. binds Hrun. by eapply put_grows.
  - by eapply put_grows.
  - unfold uvm_channel_update_completed_value in Hrun. binds Hrun. eapply put_grows; [done|done|done|]. cbn. by rewrite (update_queued _ _ Hx0).
  - unfold uvm_channel_is_value_completed in Hrun. binds Hrun. eapply put_grows; [done|done|done|]. cbn. by rewrite (query_queued _ _ _ Hx0).
  - by eapply locked_grows.
  - by eapply put_grows.
Qed.

(** The GPU only moves forward. *)
Lemma step_done E s s' c d :
  chan_step E s s' -> cs_done s !! c = Some d -> exists d', cs_done s' !! c = Some d' /\ d <= d'.
Proof.
  intros Hstep Hd. destruct Hstep; cbn [cs_done] in *; try (exists d; split; [done|lia]).
  destruct (decide (c0 = c)) as [->|]; [rewrite lookup_insert_eq|rewrite lookup_insert_ne by done]; eexists; (split; [done|]); simplify_eq; lia.
Qed.

Lemma step_dom E s s' : chan_step E s s' -> dom (cs_done s') = dom (cs_done s).
Proof. intros Hstep. destruct Hstep; cbn; try done. apply dom_insert_lookup_L. eauto. Qed.

Lemma reach_channels E base s c :
  memory_ok E base -> chan_reachable E s -> is_Some (cs_done s !! c) -> is_Some (channels (cs_manager s) !! c).
Proof.
  intros Hmem. induction 1 as [sizes Hsizes|s s' Hreach IH Hstep].
  - cbn. by rewrite !lookup_fmap, !fmap_is_Some.
  - intros Hd. destruct IH as [ch Hch].
    { apply elem_of_dom. rewrite <- (step_dom _ _ _ Hstep). by apply elem_of_dom. }
    destruct (step_grows E base s s' Hmem Hreach Hstep c ch Hch) as (ch' & ? & _). eauto.
Qed.

(** ** Queries and error checks of one GPU *)
Section one_gpu.
Context (E : pb_env) (base : Z) (Hmem : memory_ok E base).

Lemma query_reach s c d v :
  chan_reachable E s -> cs_done s !! c = Some d ->
  exists s', uvm_channel_is_value_completed (cs_manager s) c v = Some (v <=? d, cs_manager s')
    /\ chan_step E s s' /\ cs_done s' = cs_done s /\ cs_begun s' = cs_begun s.
Proof.
  intros Hs Hd. destruct (reach_channels E base s c Hmem Hs ltac:(eauto)) as [ch Hc]. destruct (chan_reachable_inv E base s Hmem Hs) as [rings Hi].
  destruct (value_completed_run _ s rings c ch v Hi Hc) as (d' & m' & Hd' & Hrun & _). simplify_eq.
  destruct s as [m begun ready done]. exists (mk_chan_sys m' begun ready done). split_and!; [done| |done|done].
  by eapply cs_query.
Qed.

Lemma errors_reach s c d st :
  chan_reachable E s -> cs_done s !! c = Some d ->
  exists s', uvm_channel_check_errors (cs_manager s) c st = Some (st, cs_manager s')
    /\ rtc (chan_step E) s s' /\ cs_done s' = cs_done s /\ cs_begun s' = cs_begun s.
Proof.
  intros Hs Hd. destruct (reach_channels E base s c Hmem Hs ltac:(eauto)) as [ch Hc]. unfold uvm_channel_check_errors.
  destruct (st =? NV_OK) eqn:Hst; [apply Z.eqb_eq in Hst; subst; by exists s|].
  destruct (chan_reachable_inv E base s Hmem Hs) as [rings Hi].
  destruct (update_value_run _ s rings c ch Hi Hc) as (d' & m1 & Hd' & Hrun & Hm1 & Hi1). simplify_eq.
  destruct s as [m begun ready done]. cbn [cs_manager cs_begun cs_ready cs_done] in *.
  set (ch1 := ch <| tracking_sem := tracking_sem ch <| completed_value := d |> |>) in *.
  assert (channels (put_channel m c ch1) !! c = Some ch1) as Hc1 by apply lookup_insert_eq.
  assert (chan_step E (mk_chan_sys m begun ready done) (mk_chan_sys (put_channel m c ch1) begun ready done)) as Hs1.
  { by eapply cs_update. }
  destruct (sys_get _ _ _ c ch1 Hi1 Hc1) as (es & d' & Hes & _). pose proof (pushbuffer_laws E base Hmem) as Hlaws.
  destruct (update_progress_run E _ _ _ c ch1 es d (Z.to_nat (num_gpfifo_entries ch)) Hi1 Hc1 Hes ltac:(cbn; lia))
    as (n & m2 & ch2 & _ & Hprog & _). cbn [cs_manager] in Hprog.
  exists (mk_chan_sys m2 begun ready done). split_and!; [| |done|done].
  - unfold channel_update_progress_all, uvm_channel_update_progress_with_max. rewrite Hc. cbn [mbind option_bind].
    rewrite Hrun. cbn [mbind option_bind]. by rewrite Hprog.
  - eapply rtc_l; [exact Hs1|]. apply rtc_once. by eapply cs_progress.
Qed.
End one_gpu.

(** ** All GPUs *)
Notation gpus := (gmap gpu_id chan_sys).

(** The value that each GPU has released on each channel. *)
Definition released (s : gpus) : gmap channel_ptr Z := map_uncurry (cs_done <$> s).

Lemma released_lookup s c : released s !! c = s !! c.1 ≫= fun cs => cs_done cs !! c.2.
Proof. destruct c as [gpu c]. unfold released. rewrite lookup_map_uncurry, lookup_fmap. cbn. by destruct (s !! gpu). Qed.

Inductive gpus_step (PE : gpu_id -> pb_env) : gpus -> gpus -> Prop :=
| gs_step s gpu cs cs' : s !! gpu = Some cs -> chan_step (PE gpu) cs cs' -> gpus_step PE s (<[gpu := cs']> s).

Record gpus_ok (PE : gpu_id -> pb_env) (s : gpus) : Prop := {
  go_reach gpu cs : s !! gpu = Some cs -> chan_reachable (PE gpu) cs;
  go_finite : Z.of_nat (size (released s)) < 2 ^ 30;
}.

Definition channels_clock (PE : gpu_id -> pb_env) (g : uvm_global_t) (done : gmap channel_ptr Z) : Prop :=
  exists s, managers g = cs_manager <$> s /\ gpus_ok PE s /\ done = released s.

(** Changing one GPU's channels. *)
Lemma released_dom s gpu cs cs' :
  s !! gpu = Some cs -> dom (cs_done cs') = dom (cs_done cs) -> dom (released (<[gpu := cs']> s)) = dom (released s).
Proof.
  intros Hs Hd. apply set_eq. intros [gpu' c]. rewrite !elem_of_dom, !released_lookup. cbn.
  destruct (decide (gpu = gpu')) as [<-|Hne]; [|by rewrite lookup_insert_ne].
  rewrite lookup_insert_eq, Hs. cbn. rewrite <- !elem_of_dom. by rewrite Hd.
Qed.

Lemma gpus_ok_insert PE s gpu cs cs' :
  gpus_ok PE s -> s !! gpu = Some cs -> chan_reachable (PE gpu) cs' -> dom (cs_done cs') = dom (cs_done cs) ->
  gpus_ok PE (<[gpu := cs']> s).
Proof.
  intros [Hr Hf] Hs Hr' Hd. split.
  - intros gpu' x [[<- <-]|[_ Hx]]%lookup_insert_Some; [done|by eapply Hr].
  - rewrite <- size_dom in Hf |- *. by rewrite (released_dom s gpu cs cs' Hs Hd).
Qed.

Lemma released_same s gpu cs cs' :
  s !! gpu = Some cs -> cs_done cs' = cs_done cs -> released (<[gpu := cs']> s) = released s.
Proof.
  intros Hs Hd. apply map_eq. intros [gpu' c]. rewrite !released_lookup. cbn.
  destruct (decide (gpu = gpu')) as [<-|Hne]; [|by rewrite lookup_insert_ne]. rewrite lookup_insert_eq, Hs. cbn. by rewrite Hd.
Qed.

(** The begun pushes of all GPUs. *)
Definition begun_pushes (s : gpus) : gmap gpu_id (gset push_id) := cs_begun <$> s.

Section all_gpus.
Context (PE : gpu_id -> pb_env) (base : gpu_id -> Z) (Hmem : forall gpu, memory_ok (PE gpu) (base gpu)).

Lemma gpus_step_later s s' : gpus_step PE s s' -> later (released s) (released s').
Proof.
  intros [s0 gpu cs cs' Hs Hstep] c d. rewrite !released_lookup. intros (x & Hx & Hd)%bind_Some.
  destruct (decide (gpu = c.1)) as [->|Hne].
  - rewrite lookup_insert_eq. cbn. simplify_eq. by eapply step_done.
  - rewrite lookup_insert_ne, Hx by done. cbn. exists d. split; [done|lia].
Qed.

Lemma gpus_step_ok s s' : gpus_ok PE s -> gpus_step PE s s' -> gpus_ok PE s'.
Proof.
  intros Hok Hs1. destruct Hs1 as [s0 gpu cs cs' Hs Hstep]. apply (gpus_ok_insert PE s0 gpu cs); try done; [|by eapply step_dom].
  eapply cr_step; [by eapply go_reach|done].
Qed.

Lemma gpus_steps s s' : gpus_ok PE s -> rtc (gpus_step PE) s s' -> gpus_ok PE s' /\ later (released s) (released s').
Proof.
  intros Hok. induction 1 as [s|s1 s2 s3 Hstep _ IH]; [done|].
  destruct IH as [Hok3 Hl]; [by eapply gpus_step_ok|]. split; [done|]. etransitivity; [by apply gpus_step_later|done].
Qed.

(** Steps of one GPU are steps of all. *)
Lemma gpu_steps gpu cs cs' :
  rtc (chan_step (PE gpu)) cs cs' -> forall s, s !! gpu = Some cs -> rtc (gpus_step PE) s (<[gpu := cs']> s).
Proof.
  induction 1 as [cs|cs1 cs2 cs3 Hstep _ IH]; intros s Hs; [by rewrite insert_id|].
  eapply rtc_l; [by eapply gs_step|]. specialize (IH (<[gpu := cs2]> s)). rewrite insert_insert_eq in IH.
  apply IH, lookup_insert_eq.
Qed.

(** The result [cs'] of some steps of a GPU that release nothing. *)
Lemma quiet_steps s gpu cs cs' :
  s !! gpu = Some cs -> rtc (chan_step (PE gpu)) cs cs' -> cs_done cs' = cs_done cs -> cs_begun cs' = cs_begun cs ->
  rtc (gpus_step PE) s (<[gpu := cs']> s) /\ released (<[gpu := cs']> s) = released s
  /\ begun_pushes (<[gpu := cs']> s) = begun_pushes s.
Proof.
  intros Hs Hsteps Hd Hb. split_and!; [by eapply gpu_steps|by eapply released_same|].
  unfold begun_pushes. rewrite fmap_insert, Hb. apply insert_id. by rewrite lookup_fmap, Hs.
Qed.

Lemma query_gpus s g c d v :
  managers g = cs_manager <$> s -> gpus_ok PE s -> released s !! c = Some d ->
  exists g' s', channel_value_completed c v g = Some (v <=? d, g') /\ fatal_error g' = fatal_error g
    /\ managers g' = cs_manager <$> s' /\ rtc (gpus_step PE) s s' /\ released s' = released s /\ begun_pushes s' = begun_pushes s.
Proof.
  intros Hm Hok Hd. rewrite released_lookup in Hd. apply bind_Some in Hd as (cs & Hcs & Hd).
  destruct (query_reach (PE c.1) (base c.1) (Hmem c.1) cs c.2 d v (go_reach _ _ Hok _ _ Hcs) Hd) as (cs' & Hrun & Hstep & Hsame & Hb).
  exists (g <| managers := <[c.1 := cs_manager cs']> (managers g) |>), (<[c.1 := cs']> s).
  unfold channel_value_completed, with_manager. rewrite Hm, lookup_fmap, Hcs. cbn [fmap option_fmap option_map mbind option_bind].
  rewrite Hrun. cbn [mbind option_bind fst snd]. split_and!; [done|done|by cbn; rewrite fmap_insert|..];
    eapply quiet_steps; eauto using rtc_once.
Qed.

Lemma errors_gpus s g c d st :
  managers g = cs_manager <$> s -> gpus_ok PE s -> released s !! c = Some d ->
  exists g' s', channel_errors c st g = Some (st, g')
    /\ fatal_error g' = (if st =? NV_OK then fatal_error g else fatal_error (set_fatal st g))
    /\ managers g' = cs_manager <$> s' /\ rtc (gpus_step PE) s s' /\ released s' = released s /\ begun_pushes s' = begun_pushes s.
Proof.
  intros Hm Hok Hd. rewrite released_lookup in Hd. apply bind_Some in Hd as (cs & Hcs & Hd).
  destruct (errors_reach (PE c.1) (base c.1) (Hmem c.1) cs c.2 d st (go_reach _ _ Hok _ _ Hcs) Hd) as (cs' & Hrun & Hstep & Hsame & Hb).
  set (g1 := g <| managers := <[c.1 := cs_manager cs']> (managers g) |>).
  exists (if st =? NV_OK then g1 else set_fatal st g1), (<[c.1 := cs']> s). unfold channel_errors, with_manager. rewrite Hm, lookup_fmap, Hcs.
  cbn [fmap option_fmap option_map mbind option_bind]. rewrite Hrun. cbn [mbind option_bind fst snd]. rewrite <- Hm.
  split_and!; [done|..|eapply quiet_steps; eauto|eapply quiet_steps; eauto|eapply quiet_steps; eauto].
  - destruct (st =? NV_OK); [done|]. unfold set_fatal. by destruct (fatal_error g =? NV_OK) eqn:Hz; cbn; rewrite Hz.
  - transitivity (managers g1); [|by cbn; rewrite Hm, fmap_insert]. destruct (st =? NV_OK); [done|]. unfold set_fatal. by destruct (_ =? _).
Qed.

(** The channels keep their promise to the trackers. *)
#[local] Instance clock_of_channels : ChannelClock (channels_clock PE).
Proof.
  split.
  - intros g done c d v (s & Hm & Hok & ->) Hd.
    destruct (query_gpus s g c d v Hm Hok Hd) as (g' & s' & Hrun & Hf & Hm' & Hsteps & Hr & _).
    exists g'. destruct (gpus_steps s s' Hok Hsteps) as [? _]. split_and!; [done| |done]. by exists s'.
  - intros g done c d st (s & Hm & Hok & ->) Hd.
    destruct (errors_gpus s g c d st Hm Hok Hd) as (g' & s' & Hrun & Hf & Hm' & Hsteps & Hr & _).
    exists g'. destruct (gpus_steps s s' Hok Hsteps) as [? _]. split_and!; [done| |done]. by exists s'.
  - by intros g done (s & _ & [_ Hf] & ->).
Qed.

(** Channels stay while the GPUs take steps. *)
Lemma gpus_grow s s' gpu cs :
  gpus_ok PE s -> rtc (gpus_step PE) s s' -> s !! gpu = Some cs ->
  exists cs', s' !! gpu = Some cs' /\ grows (cs_manager cs) (cs_manager cs').
Proof.
  intros Hok Hsteps. revert cs. induction Hsteps as [s|s1 s2 s3 Hstep _ IH]; intros cs Hs; [by exists cs|].
  pose proof (gpus_step_ok _ _ Hok Hstep) as Hok2. destruct Hstep as [s gpu' x x' Hx Hstep].
  destruct (decide (gpu' = gpu)) as [->|Hne].
  - simplify_eq. destruct (IH Hok2 x') as (cs' & ? & ?); [apply lookup_insert_eq|]. exists cs'. split; [done|].
    etransitivity; [|done]. apply (step_grows (PE gpu) (base gpu)); [apply Hmem|by eapply (go_reach PE s)|done].
  - apply IH; [done|by rewrite lookup_insert_ne].
Qed.
End all_gpus.

(** ** Work that will be released *)

(** A value that was handed out on a channel. *)
Definition queued_on (s : gpus) (c : channel_ptr) (v : Z) : Prop :=
  exists cs ch, s !! c.1 = Some cs /\ channels (cs_manager cs) !! c.2 = Some ch /\ v <= queued_value (tracking_sem ch).

Definition all_queued (s : gpus) (due : nat -> obligation -> Prop) : Prop := forall n o, due n o -> queued_on s o.1 o.2.

(** The channels, when all the work that is due has been queued. *)
Definition clock_due (PE : gpu_id -> pb_env) (due : nat -> obligation -> Prop) (g : uvm_global_t) (done : gmap channel_ptr Z) : Prop :=
  exists s, managers g = cs_manager <$> s /\ gpus_ok PE s /\ done = released s /\ all_queued s due.

Section due.
Context (PE : gpu_id -> pb_env) (base : gpu_id -> Z) (Hmem : forall gpu, memory_ok (PE gpu) (base gpu)).

Lemma queued_later s s' c v : gpus_ok PE s -> rtc (gpus_step PE) s s' -> queued_on s c v -> queued_on s' c v.
Proof.
  intros Hok Hsteps (cs & ch & Hs & Hc & Hv). destruct (gpus_grow PE base Hmem s s' c.1 cs Hok Hsteps Hs) as (cs' & Hs' & Hg).
  destruct (Hg c.2 ch Hc) as (ch' & Hc' & _ & Hq). exists cs', ch'. split_and!; [done|done|lia].
Qed.

Lemma all_queued_later s s' due : gpus_ok PE s -> rtc (gpus_step PE) s s' -> all_queued s due -> all_queued s' due.
Proof. intros Hok Hsteps Hq n o Ho. eapply queued_later; [done|done|by eapply Hq]. Qed.

#[local] Instance clock_of_due due : ChannelClock (clock_due PE due).
Proof.
  split.
  - intros g done c d v (s & Hm & Hok & -> & Hq) Hd.
    destruct (query_gpus PE base Hmem s g c d v Hm Hok Hd) as (g' & s' & Hrun & Hf & Hm' & Hsteps & Hr & _).
    exists g'. destruct (gpus_steps PE s s' Hok Hsteps) as [? _]. split_and!; [done| |done].
    exists s'. split_and!; [done|done|done|by apply (all_queued_later s s')].
  - intros g done c d st (s & Hm & Hok & -> & Hq) Hd.
    destruct (errors_gpus PE base Hmem s g c d st Hm Hok Hd) as (g' & s' & Hrun & Hf & Hm' & Hsteps & Hr & _).
    exists g'. destruct (gpus_steps PE s s' Hok Hsteps) as [? _]. split_and!; [done| |done].
    exists s'. split_and!; [done|done|done|by apply (all_queued_later s s')].
  - by intros g done (s & _ & [_ Hf] & -> & _).
Qed.
End due.

Lemma clock_due_clock PE due g done : clock_due PE due g done -> channels_clock PE g done.
Proof. intros (s & ? & ? & ? & _). by exists s. Qed.

(** ** Other threads

    While a thread spins, other threads and the GPUs take any number of steps; what
    is due at a time and has been queued is released then. *)
Definition system_env (PE : gpu_id -> pb_env) (E : tracker_env) (due : nat -> obligation -> Prop) : Prop :=
  forall n g s, managers g = cs_manager <$> s -> gpus_ok PE s ->
    exists s', managers (spin_others E n g) = cs_manager <$> s' /\ rtc (gpus_step PE) s s'
      /\ forall o, due n o -> queued_on s o.1 o.2 -> completed (released s') o.

(** All errors have one code, [err].  The driver has two: [uvm_channel_get_status]
    answers NV_ERR_ECC_ERROR or NV_ERR_RC_ERROR.  Where both occur the assertions on
    the global status can fail (see [wait_entry_assertion]). *)
Record one_error (E : tracker_env) (err : NV_STATUS) : Prop := {
  oe_fatal n g : fatal_error g = NV_OK \/ fatal_error g = err ->
    fatal_error (spin_others E n g) = fatal_error g
    \/ fatal_error g = NV_OK /\ fatal_error (spin_others E n g) = err;
  oe_status n c : channel_status E n c = NV_OK \/ channel_status E n c = err;
}.

Definition nothing_due (_ : nat) (_ : obligation) : Prop := False.

Lemma system_env_ok PE E err due :
  system_env PE E due -> one_error E err -> env_ok (channels_clock PE) E err nothing_due.
Proof.
  intros Ho [Hf Hs]. split; [|done|done]. intros n g done (s & Hm & Hok & ->).
  destruct (Ho n g s Hm Hok) as (s' & Hm' & Hsteps & _). destruct (gpus_steps PE s s' Hok Hsteps) as [Hok' Hl].
  exists (released s'). split_and!; [by exists s'|done|by intros o []].
Qed.

Lemma system_env_due PE base E err due :
  (forall gpu, memory_ok (PE gpu) (base gpu)) -> system_env PE E due -> one_error E err ->
  env_ok (clock_due PE due) E err due.
Proof.
  intros Hmem Ho [Hf Hs]. split; [|done|done]. intros n g done (s & Hm & Hok & -> & Hq).
  destruct (Ho n g s Hm Hok) as (s' & Hm' & Hsteps & Hdue). destruct (gpus_steps PE s s' Hok Hsteps) as [Hok' Hl].
  exists (released s'). split_and!; [|done|].
  - exists s'. split_and!; [done|done|done|by apply (all_queued_later PE base Hmem s s')].
  - intros o Hd _. apply Hdue; [done|by eapply Hq].
Qed.

(** No trackers yet. *)
Definition fresh_world (g : uvm_global_t) : uvm_world := mk_world g ∅ 0 0.

Lemma fresh_world_ok PE s g :
  gpus_ok PE s -> managers g = cs_manager <$> s -> world_ok (channels_clock PE) (released s) (fresh_world g).
Proof. intros Hok Hm. split; [by exists s|done|done]. Qed.

Lemma wait_entry_loop_S E fuel e status :
  wait_entry_loop E (S fuel) e status =
    (completed ← uvm_tracker_is_entry_completed e;
     if negb completed && (status =? NV_OK) then
       _ ← UVM_SPIN_LOOP E;
       status ← channel_check_errors E (entry_channel e);
       status ← (if status =? NV_OK then uvm_global_get_status else mret status);
       wait_entry_loop E fuel e status
     else mret status).
Proof. done. Qed.

(** The work of the entries is due from time [T] on. *)
Definition due_after (T : nat) (es : list uvm_tracker_entry_t) (n : nat) (o : obligation) : Prop :=
  (T <= n)%nat /\ exists e, e ∈ es /\ entry_channel e = Some o.1 /\ entry_value e = o.2.

Section theorems.
Context (PE : gpu_id -> pb_env) (base : gpu_id -> Z).

(** C12.  Trackers are type-safe: [max_size] always tells which member of the
    union holds the entries and how many fit, the entries in use have distinct
    channels, and every allocated array belongs to exactly one tracker.  Every
    command keeps this, whatever the allocator answers and whatever the new memory
    contains, and none reads the wrong member or fails an assertion, those on the
    global status included.  The latter rests on [one_error]: while the command
    runs, the channels and the global status report one error code only, NV_ERR_RC_ERROR
    or NV_ERR_ECC_ERROR.  With both codes an assertion can fail. *)
Theorem tracker_type_sound E err due fuel done w cmd :
  (forall gpu, memory_ok (PE gpu) (base gpu)) -> system_env PE E due -> one_error E err ->
  world_ok (channels_clock PE) done w -> fatal_ok err w -> cmd_ok done w cmd ->
  run_cmd E fuel cmd w <> Fails
  /\ forall st w', run_cmd E fuel cmd w = Returns (st, w') ->
       exists done', world_ok (channels_clock PE) done' w' /\ fatal_ok err w' /\ later done done'.
Proof.
  intros Hmem Henv Herr Hw Hf Hcmd. pose proof (clock_of_channels PE base Hmem) as Hclock.
  pose proof (meets_cmd _ E err nothing_due (system_env_ok PE E err due Henv Herr) fuel cmd done w Hw Hf Hcmd) as Hspec. split.
  - intros Hfail. unfold spec in Hspec. by rewrite Hfail in Hspec.
  - intros st w' Hrun. destruct (spec_returned _ _ _ _ _ _ Hspec Hrun) as (done' & []). by exists done'.
Qed.

(** C7.  Trackers implement sets of pending obligations: a command that returns
    has exactly the effect that its name promises on these sets, also when it ran
    out of memory and waited instead; after a successful wait the GPUs have
    finished all the work that the tracker stood for, after a wait for other GPUs
    what is left is on the given GPU; and each command returns only the status
    codes it documents.  All errors of the channels have one code ([one_error]). *)
Theorem tracker_refines E err due fuel done w cmd st w' :
  (forall gpu, memory_ok (PE gpu) (base gpu)) -> system_env PE E due -> one_error E err ->
  world_ok (channels_clock PE) done w -> fatal_ok err w -> cmd_ok done w cmd ->
  run_cmd E fuel cmd w = Returns (st, w') ->
  exists done', channels_clock PE (global w') done' /\ later done done'
    /\ (forall id, view done' w' id ≡ effect done' cmd (st =? NV_OK) (view done' w) id)
    /\ (st = NV_OK -> promises cmd (view done' w)) /\ may_return err cmd st.
Proof.
  intros Hmem Henv Herr Hw Hf Hcmd Hrun. pose proof (clock_of_channels PE base Hmem) as Hclock.
  pose proof (meets_cmd _ E err nothing_due (system_env_ok PE E err due Henv Herr) fuel cmd done w Hw Hf Hcmd) as Hspec.
  destruct (spec_returned _ _ _ _ _ _ Hspec Hrun) as (done' & [[Hr _ _] Hl _ He Hp Hm]). by exists done'.
Qed.

(** C38.  Waiting for a tracker returns: when the GPUs release the queued work of
    its entries from some time on, the wait returns at most two rounds later, with
    success or with the GPU's error; on success everything has completed, and in both
    cases the tracker is empty.  All errors of the channels have one code
    ([one_error]). *)
Theorem tracker_wait_returns E err fuel T s w id t :
  (forall gpu, memory_ok (PE gpu) (base gpu)) -> system_env PE E (due_after T (live t)) -> one_error E err ->
  gpus_ok PE s -> managers (global w) = cs_manager <$> s ->
  world_ok (channels_clock PE) (released s) w -> fatal_ok err w -> trackers w !! id = Some t -> tracker_good (released s) t ->
  (forall e c, e ∈ live t -> entry_channel e = Some c -> queued_on s c (entry_value e)) ->
  (T - time w + 2 <= fuel)%nat ->
  exists st w' done' t', uvm_tracker_wait E fuel id w = Returns (st, w') /\ channels_clock PE (global w') done'
    /\ trackers w' !! id = Some t' /\ live t' = []
    /\ (st = NV_OK /\ (forall e, e ∈ live t -> entry_done done' e) \/ st = err /\ fatal_error (global w') = err).
Proof.
  intros Hmem Henv Herr Hok Hm Hw Hf Ht Hg Hq Hfuel. pose proof (clock_of_due PE base Hmem (due_after T (live t))) as Hclock.
  assert (world_ok (clock_due PE (due_after T (live t))) (released s) w) as Hw'.
  { destruct Hw. split; try done. exists s. split_and!; try done. intros n [c v] (_ & e & He & Hc & <-). by apply Hq. }
  pose proof (wait_spec _ E err _ (system_env_due PE base E err _ Hmem Henv Herr) true T id fuel _ w t Hw' (conj Ht Hg) Hf) as Hspec.
  apply spec_total in Hspec as (st & w' & Hrun & done' & t' & Hmv & _ & Hl & Hends).
  - exists st, w', done', t'. pose proof (moved_holds _ _ _ _ _ _ _ _ Hmv) as [Ht' _].
    split_and!; [done|eapply clock_due_clock; apply Hmv|done|done|]. destruct Hends as [[-> Hp]|(-> & _ & Hfat)]; [left|by right].
    split; [done|]. intros e He. destruct (decide (entry_done done' e)) as [|Hn]; [done|exfalso]. unfold entry_done in Hn.
    destruct (entry_channel e) as [c|] eqn:Hc; [|done]. apply (not_elem_of_empty (C := propset obligation) (c, entry_value e)).
    rewrite <- Hp. apply elem_of_pending. split; [done|]. exists e. by split; [|split].
  - intros _. split; [|done]. apply Forall_forall. intros e He. unfold entry_due. destruct (entry_channel e) as [c|] eqn:Hc; [|done].
    intros n Hn. split; [done|]. by exists e.
Qed.

(** C39.  The assertion of [uvm_tracker_wait_for_entry] can fail: a thread that
    waits for work on a channel with an error of its own, after a different error
    has become the global one, returns from the loop with the channel's status and
    asserts that it is the global one. *)
Theorem wait_entry_assertion E fuel done w c d v st :
  (forall gpu, memory_ok (PE gpu) (base gpu)) -> (forall n g, spin_others E n g = g) ->
  channels_clock PE (global w) done -> done !! c = Some d -> d < v ->
  channel_status E (S (time w)) c = st -> st <> NV_OK -> fatal_error (global w) <> NV_OK -> fatal_error (global w) <> st ->
  uvm_tracker_wait_for_entry E (S (S fuel)) (mk_entry (Some c) v) w = Fails.
Proof.
  intros Hmem Hidle Hr Hd Hlt Hst Hne Hfat Hother. pose proof (clock_of_channels PE base Hmem) as Hclock.
  destruct (clock_query _ _ c d v Hr Hd) as (g1 & Hq1 & Hr1 & Hf1).
  destruct (clock_errors _ _ c d st Hr1 Hd) as (g2 & Hq2 & Hr2 & Hf2).
  destruct (clock_query _ _ c d v Hr2 Hd) as (g3 & Hq3 & Hr3 & Hf3).
  replace (v <=? d) with false in Hq1, Hq3 by lia. apply Z.eqb_neq in Hne as Hne'. rewrite Hne' in Hf2.
  assert (fatal_error g2 = fatal_error (global w)) as Hf.
  { rewrite Hf2. unfold set_fatal. apply Z.eqb_neq in Hfat. by rewrite Hf1, Hfat. }
  set (e := mk_entry (Some c) v). set (w1 := w <| global := g1 |> <| time := S (time w) |>).
  set (w2 := w1 <| time := S (S (time w)) |> <| global := g2 |>). set (w3 := w2 <| global := g3 |>).
  assert (wait_entry_loop E (S fuel) e st w2 = Returns (st, w3)) as Hlast.
  { rewrite wait_entry_loop_S, (sm_bind_run _ _ _ false w3); [|by unfold uvm_tracker_is_entry_completed, on_global; cbn -[channel_value_completed]; rewrite Hq3].
    by rewrite Hne'. }
  assert (wait_entry_loop E (S (S fuel)) e NV_OK w = Returns (st, w3)) as Hloop.
  { rewrite wait_entry_loop_S.
    rewrite (sm_bind_run _ _ _ false (w <| global := g1 |>)); [|by unfold uvm_tracker_is_entry_completed, on_global; cbn -[channel_value_completed]; rewrite Hq1].
    cbn [negb andb Z.eqb NV_OK]. rewrite (sm_bind_run _ _ _ tt w1); [|unfold UVM_SPIN_LOOP, tick, mbind, SM_bind, sm_modify; by rewrite Hidle].
    rewrite (sm_bind_run _ _ _ st w2).
    2:{ unfold channel_check_errors, e. cbn [entry_channel]. rewrite (sm_bind_lift _ c) by done.
        rewrite (sm_bind_run _ _ _ (S (time w)) (w1 <| time := S (S (time w)) |>)) by done. unfold on_global. cbn -[channel_errors]. by rewrite Hst, Hq2. }
    rewrite Hne'. rewrite (sm_bind_run _ _ _ st w2) by done. exact Hlast. }
  unfold uvm_tracker_wait_for_entry, wait_for_entry_with_spin. rewrite (sm_bind_run _ _ _ _ _ Hloop), Hne'. cbn [negb].
  rewrite (sm_bind_run _ _ _ (fatal_error g3) w3) by done. rewrite Hf3, Hf. unfold mbind, SM_bind, sm_assert.
  by replace (st =? fatal_error (global w)) with false by lia.
Qed.
End theorems.

(** ** Witnesses

    One GPU with one channel, other threads that do nothing, no memory. *)
Definition one_gpu : gpus := {[1%positive := one_channel]}.
Definition one_global (fatal : NV_STATUS) : uvm_global_t := mk_global (cs_manager <$> one_gpu) fatal.
Definition idle_env (n : channel_notifiers) : tracker_env := mk_tracker_env (fun _ => None) (fun _ _ => n) (fun _ g => g).
Definition no_errors : channel_notifiers := mk_notifiers 0 true false.
Definition ecc_failed : channel_notifiers := mk_notifiers 1 true true.
Definition one_entry : uvm_tracker_entry_t := mk_entry (Some (1%positive, 1%positive)) 0.
Definition one_tracker : uvm_tracker_t := mk_tracker (static_entries one_entry) 1 1.
Definition one_world : uvm_world := mk_world (one_global NV_OK) {[1%positive := one_tracker]} 0 0.
Definition all_quiet : gpu_id -> pb_env := fun _ => quiet_env.

Lemma one_gpu_ok : gpus_ok all_quiet one_gpu.
Proof.
  split; [|vm_compute; reflexivity].
  intros gpu cs Hcs. unfold one_gpu in Hcs. apply lookup_singleton_Some in Hcs as [_ <-]. apply one_channel_reachable.
Qed.

Lemma one_good : tracker_good (released one_gpu) one_tracker.
Proof.
  split; [split|].
  - split; cbn; [done|lia].
  - apply NoDup_singleton.
  - apply Forall_singleton. eexists. vm_compute. reflexivity.
Qed.

Lemma one_world_ok : world_ok (channels_clock all_quiet) (released one_gpu) one_world.
Proof.
  split; [exists one_gpu; split_and!; [done|apply one_gpu_ok|done]| |done].
  intros id t Ht. cbn [trackers one_world] in Ht. apply lookup_singleton_Some in Ht as [_ <-]. right. apply one_good.
Qed.

Lemma idle_one_error n : n = no_errors \/ n = ecc_failed -> one_error (idle_env n) NV_ERR_ECC_ERROR.
Proof. intros Hn. split; [by left|]. intros m c. by destruct Hn as [-> | ->]; [left|right]. Qed.

Lemma idle_system status : system_env all_quiet (idle_env status) (due_after 0 [one_entry]).
Proof.
  intros n g s Hm Hok. exists s. split_and!; [done|done|].
  intros o (_ & e & ->%list_elem_of_singleton & _ & Hv) (cs & ch & Hcs & Hch & _).
  destruct (chan_reachable_inv _ _ cs quiet_memory (go_reach _ _ Hok _ _ Hcs)) as [rings Hinv].
  destruct (sys_get _ _ _ _ ch Hinv Hch) as (es & d & _ & Hd & [] & _). exists d. rewrite released_lookup, Hcs. cbn in *. split; [done|lia].
Qed.

(** A tracker whose work never completes, on a GPU with an ECC error: the wait
    returns that error. *)
Definition stuck_entry : uvm_tracker_entry_t := mk_entry (Some (1%positive, 1%positive)) 5.
Definition stuck_world : uvm_world :=
  mk_world (one_global NV_OK) {[1%positive := mk_tracker (static_entries stuck_entry) 1 1]} 0 0.

Lemma stuck_good : tracker_good (released one_gpu) (mk_tracker (static_entries stuck_entry) 1 1).
Proof.
  split; [split|].
  - split; cbn; [done|lia].
  - apply NoDup_singleton.
  - apply Forall_singleton. eexists. vm_compute. reflexivity.
Qed.

Lemma stuck_world_ok : world_ok (channels_clock all_quiet) (released one_gpu) stuck_world.
Proof.
  split; [exists one_gpu; split_and!; [done|apply one_gpu_ok|done]| |done].
  intros id t Ht. cbn [trackers stuck_world] in Ht. apply lookup_singleton_Some in Ht as [_ <-]. right. apply stuck_good.
Qed.

Lemma tracker_type_sound_witness :
  exists w' done', run_cmd (idle_env ecc_failed) 3 (CmdWait 1) stuck_world = Returns (NV_ERR_ECC_ERROR, w')
    /\ world_ok (channels_clock all_quiet) done' w'.
Proof.
  set (r := run_cmd (idle_env ecc_failed) 3 (CmdWait 1) stuck_world).
  assert (match r with Returns (st, _) => st = NV_ERR_ECC_ERROR | _ => False end) as Hr by (vm_compute; reflexivity).
  destruct r as [[st w']| |] eqn:Hrun; [subst st|destruct Hr|destruct Hr]. subst r.
  destruct (proj2 (tracker_type_sound all_quiet (fun _ => 0x10000) (idle_env ecc_failed) NV_ERR_ECC_ERROR
    (due_after 0 [one_entry]) 3 (released one_gpu) stuck_world (CmdWait 1) (fun _ => quiet_memory) (idle_system _)
    (idle_one_error _ (or_intror eq_refl)) stuck_world_ok (or_introl eq_refl)
    (ex_intro _ _ (conj eq_refl stuck_good))) _ _ Hrun) as (done' & Hw & _).
  exists w', done'. split; [reflexivity|exact Hw].
Defined.

(** The world after a command. *)
Definition world_after (E : tracker_env) (cmd : tracker_cmd) (w : uvm_world) : uvm_world :=
  match run_cmd E 3 cmd w with Returns (_, w') => w' | _ => w end.

Lemma tracker_refines_witness :
  exists done', channels_clock all_quiet (global (world_after (idle_env no_errors) (CmdWait 1) one_world)) done'
    /\ promises (CmdWait 1) (view done' one_world).
Proof.
  destruct (tracker_refines all_quiet (fun _ => 0x10000) (idle_env no_errors) NV_ERR_ECC_ERROR (due_after 0 [one_entry]) 3 (released one_gpu)
    one_world (CmdWait 1) NV_OK (world_after (idle_env no_errors) (CmdWait 1) one_world) (fun _ => quiet_memory) (idle_system _) (idle_one_error _ (or_introl eq_refl))
    one_world_ok (or_introl eq_refl)) as (done' & Hr & _ & _ & Hp & _).
  - exists one_tracker. split; [done|apply one_good].
  - vm_compute. reflexivity.
  - exists done'. split; [exact Hr|by apply Hp].
Defined.

Lemma tracker_wait_returns_witness :
  exists st w', uvm_tracker_wait (idle_env no_errors) 2 1 one_world = Returns (st, w').
Proof.
  destruct (tracker_wait_returns all_quiet (fun _ => 0x10000) (idle_env no_errors) NV_ERR_ECC_ERROR 2 0 one_gpu
    one_world 1%positive one_tracker (fun _ => quiet_memory) (idle_system _) (idle_one_error _ (or_introl eq_refl)) one_gpu_ok eq_refl one_world_ok (or_introl eq_refl) eq_refl one_good)
    as (st & w' & done' & t' & Hrun & _).
  - intros e c ->%list_elem_of_singleton [= <-]. exists one_channel, (channel_create 4). split_and!; [done|vm_compute; reflexivity|done].
  - cbn. lia.
  - by exists st, w'.
Defined.

Lemma wait_entry_assertion_witness :
  uvm_tracker_wait_for_entry (idle_env ecc_failed) 2 (mk_entry (Some (1%positive, 1%positive)) 1)
    (fresh_world (one_global NV_ERR_RC_ERROR)) = Fails.
Proof.
  apply (wait_entry_assertion all_quiet (fun _ => 0x10000) (idle_env ecc_failed) 0 (released one_gpu)
    (fresh_world (one_global NV_ERR_RC_ERROR)) (1%positive, 1%positive) 0 1 NV_ERR_ECC_ERROR (fun _ => quiet_memory)); try done.
  - exists one_gpu. split_and!; [done|apply one_gpu_ok|done].
Defined.
