(* ===== verification/Push.v ===== *)
(** * Pushes

    Model of kernel-open/nvidia-uvm/uvm_push.{c,h}, of the channel pools of
    uvm_channel.c and of the NOP and acquire methods of uvm_{maxwell,turing,hopper}_host.c,
    without Confidential Computing.  A push reserves an entry of a channel in a pool, begins
    in the push buffer, and acquires the trackers of the work it depends on: for
    every entry it pushes a method that makes the GPU wait until the entry's
    semaphore has reached the low 32 bits of the entry's value.

    The acquires of a push are returned as a list; other methods are not modelled,
    except for the space that they take.  A push is named by its GPU and its index in
    the push buffer.  The debugging aids (descriptions, acquire infos) are left out. *)

From S2P Require Import Prelude StateMonad PageMask Pushbuffer GpuSemaphore Channel Tracker.

Definition UVM_METHOD_SIZE : Z := 4.
Definition UVM_METHOD_COUNT_MAX : Z := 0x1fff.
Definition UVM_PUSH_INLINE_DATA_MAX_SIZE : Z := UVM_METHOD_COUNT_MAX * UVM_METHOD_SIZE.

Notation push_ptr := (gpu_id * push_id)%type.

(** ** Methods *)

(** The checks of [__NV_PUSH_0U] and [__NV_PUSH_NU_NONINC]; [next] moves over the
    method and its [count] data words. *)
Definition push_methods (push : uvm_push_t) (count : Z) : option uvm_push_t :=
  UVM_ASSERT uvm_push_get_size push + (count + 1) * UVM_METHOD_SIZE <=? UVM_MAX_PUSH_SIZE;
  Some (push <| push_next := push_next push + (count + 1) * UVM_METHOD_SIZE |>).

(** The words of a semaphore acquire differ between generations of GPUs.  That the
    semaphore is a valid target and its address aligned, and the encoding of the
    words, are not modelled. *)
Inductive host_hal := MAXWELL_HOST | TURING_HOST | HOPPER_HOST.

Definition uvm_hal_maxwell_host_semaphore_acquire (push : uvm_push_t) : option uvm_push_t := push_methods push 4.
Definition uvm_hal_turing_host_semaphore_acquire (push : uvm_push_t) : option uvm_push_t := push_methods push 5.
Definition uvm_hal_hopper_host_semaphore_acquire (push : uvm_push_t) : option uvm_push_t := push_methods push 5.

Definition semaphore_acquire (hal : host_hal) : uvm_push_t -> option uvm_push_t :=
  match hal with
  | MAXWELL_HOST => uvm_hal_maxwell_host_semaphore_acquire
  | TURING_HOST => uvm_hal_turing_host_semaphore_acquire
  | HOPPER_HOST => uvm_hal_hopper_host_semaphore_acquire
  end.

Fixpoint noop_loop (fuel : nat) (push : uvm_push_t) (size : Z) : option uvm_push_t :=
  if 0 <? size then
    match fuel with
    | O => None
    | S fuel =>
        let noop_this_time := Z.min (UVM_METHOD_COUNT_MAX + 1) size in
        push ← push_methods push (noop_this_time - 1);
        noop_loop fuel push (size - noop_this_time)
    end
  else Some push.

Definition uvm_hal_maxwell_host_noop (push : uvm_push_t) (size : Z) : option uvm_push_t :=
  UVM_ASSERT size mod 4 =? 0;
  noop_loop (Z.to_nat (size / 4)) push (size / 4).

(** ** Inline data *)
Definition uvm_push_has_space (push : uvm_push_t) (free_space : Z) : bool :=
  free_space <=? NvU32 (UVM_MAX_PUSH_SIZE - uvm_push_get_size push).

Record uvm_push_inline_data_t := mk_inline_data {
  data_push : uvm_push_t;
  next_data : Z;
}.

Definition uvm_push_inline_data_begin (push : uvm_push_t) : uvm_push_inline_data_t :=
  mk_inline_data push (push_next push + UVM_METHOD_SIZE).

Definition uvm_push_inline_data_size (data : uvm_push_inline_data_t) : Z :=
  next_data data - (push_next (data_push data) + UVM_METHOD_SIZE).

Definition uvm_push_inline_data_get (data : uvm_push_inline_data_t) (size : Z)
    : option (Z * uvm_push_inline_data_t) :=
  let buffer := next_data data in
  UVM_ASSERT uvm_push_get_size (data_push data) + uvm_push_inline_data_size data + UVM_METHOD_SIZE + size
             <=? UVM_MAX_PUSH_SIZE;
  UVM_ASSERT uvm_push_inline_data_size data + size <=? UVM_PUSH_INLINE_DATA_MAX_SIZE;
  Some (buffer, mk_inline_data (data_push data) (next_data data + size)).

Definition uvm_push_inline_data_get_aligned (data : uvm_push_inline_data_t) (size alignment : Z)
    : option (Z * uvm_push_inline_data_t) :=
  UVM_ASSERT alignment <=? UVM_PAGE_SIZE_4K;
  UVM_ASSERT alignment mod UVM_METHOD_SIZE =? 0;
  aligned ← UVM_ALIGN_UP (next_data data) alignment;
  let offset := aligned - next_data data in
  r ← uvm_push_inline_data_get data (size + offset);
  Some (r.1 + offset, r.2).

(** [gpu_va] is the GPU's address of the beginning of the push; a push without a
    channel has none. *)
Definition uvm_push_inline_data_end (gpu_va : option Z) (data : uvm_push_inline_data_t) : option (Z * uvm_push_t) :=
  let push := data_push data in
  let noop_size := (uvm_push_inline_data_size data + (UVM_METHOD_SIZE - 1)) / UVM_METHOD_SIZE * UVM_METHOD_SIZE in
  let inline_data_address :=
    match gpu_va with
    | None => push_next push + UVM_METHOD_SIZE
    | Some va => (push_next push - push_begin push) / UVM_METHOD_SIZE * UVM_METHOD_SIZE + UVM_METHOD_SIZE + va
    end in
  push ← uvm_hal_maxwell_host_noop push (noop_size + UVM_METHOD_SIZE);
  Some (inline_data_address, push).

(** The CPU's and the GPU's address of the buffer. *)
Definition uvm_push_get_single_inline_buffer (gpu_va : option Z) (push : uvm_push_t) (size alignment : Z)
    : option (Z * Z * uvm_push_t) :=
  UVM_ASSERT alignment mod UVM_METHOD_SIZE =? 0;
  let data := uvm_push_inline_data_begin push in
  r ← uvm_push_inline_data_get_aligned data size alignment;
  let '(buffer, data) := r in
  r ← uvm_push_inline_data_end gpu_va data;
  let '(address, push) := r in
  address ← UVM_ALIGN_UP address alignment;
  Some (buffer, address, push).

(** ** The rest of a push's environment

    [gpu_hal] is the generation of a GPU, [pb_envs] the memory of its push buffer
    and what others do with it, the pools are lists of channels. *)
Inductive uvm_channel_type_t :=
| UVM_CHANNEL_TYPE_CPU_TO_GPU
| UVM_CHANNEL_TYPE_GPU_TO_CPU
| UVM_CHANNEL_TYPE_GPU_INTERNAL
| UVM_CHANNEL_TYPE_MEMOPS
| UVM_CHANNEL_TYPE_GPU_TO_GPU.

Record push_env := mk_push_env {
  gpu_hal : gpu_id -> host_hal;
  pb_envs : gpu_id -> pb_env;
  default_for_type : gpu_id -> uvm_channel_type_t -> option (list channel_id);
  gpu_to_gpu : gpu_id -> gpu_id -> option (list channel_id);
}.

Section push.
Context (E : tracker_env) (PE : push_env).

(** ** Pushes in trackers *)
Definition get_push (p : push_ptr) : TM uvm_push_t :=
  w ← sm_get;
  m ← sm_lift (managers (global w) !! p.1);
  sm_lift (pushes (pushbuffer m) !! p.2).

Definition put_push (p : push_ptr) (push : uvm_push_t) : TM unit :=
  on_global (with_manager p.1 (fun m =>
    Some (tt, m <| pushbuffer := pushbuffer m <| pushes := <[p.2 := push]> (pushes (pushbuffer m)) |> |>))).

Definition uvm_push_get_tracker_entry (p : push_ptr) : TM uvm_tracker_entry_t :=
  push ← get_push p;
  _ ← sm_assert (negb (channel_tracking_value push =? 0));
  mret (mk_entry (Some (p.1, push_channel push)) (channel_tracking_value push)).

Definition uvm_tracker_add_push (id : tracker_id) (p : push_ptr) : TM NV_STATUS :=
  entry ← uvm_push_get_tracker_entry p; uvm_tracker_add_entry E id entry.

Definition uvm_tracker_overwrite_with_push (id : tracker_id) (p : push_ptr) : TM unit :=
  entry ← uvm_push_get_tracker_entry p; uvm_tracker_overwrite_with_entry E id entry.

Definition uvm_push_wait (fuel : nat) (p : push_ptr) : TM NV_STATUS :=
  entry ← uvm_push_get_tracker_entry p;
  r ← uvm_tracker_wait_for_entry E fuel entry;
  mret r.1.

Definition uvm_tracker_add_push_safe (fuel : nat) (id : tracker_id) (p : push_ptr) : TM NV_STATUS :=
  status ← uvm_tracker_add_push id p;
  if status =? NV_ERR_NO_MEMORY then uvm_push_wait fuel p else mret status.

(** ** Acquiring trackers *)

(** A semaphore and the 32-bit payload to wait for. *)
Notation acquire := (channel_ptr * Z)%type.

(** Dependencies across GPUs are allowed without Confidential Computing. *)
Definition push_acquire_tracker_entry (p : push_ptr) (e : uvm_tracker_entry_t) : TM (list acquire) :=
  match entry_channel e with
  | None => mret []
  | Some entry_channel =>
      push ← get_push p;
      if bool_decide ((p.1, push_channel push) = entry_channel) then mret []
      else
        push ← sm_lift (semaphore_acquire (gpu_hal PE p.1) push);
        _ ← put_push p push;
        mret [(entry_channel, NvU32 (entry_value e))]
  end.

Fixpoint acquire_entries (p : push_ptr) (es : list uvm_tracker_entry_t) : TM (list acquire) :=
  match es with
  | [] => mret []
  | e :: es =>
      first ← push_acquire_tracker_entry p e;
      rest ← acquire_entries p es;
      mret (first ++ rest)
  end.

(** The assertions are those of [push_acquire_info_from_push]. *)
Definition uvm_push_acquire_tracker (p : push_ptr) (tracker : option tracker_id) : TM (list acquire) :=
  match tracker with
  | None => mret []
  | Some id =>
      _ ← uvm_tracker_remove_completed id;
      push ← get_push p;
      w ← sm_get;
      m ← sm_lift (managers (global w) !! p.1);
      ch ← sm_lift (channels m !! push_channel push);
      _ ← sm_assert (channel_tracking_value push =? 0);
      _ ← sm_assert (push_info_index push <? num_gpfifo_entries ch);
      t ← get_tracker id;
      es ← sm_lift (tracker_entries t);
      acquire_entries p es
  end.

(** ** Reserving a channel of a pool *)
Definition on_channel {A} (c : channel_ptr) (f : uvm_channel_manager_t -> channel_id -> option (A * uvm_channel_manager_t))
    : TM A := on_global (with_manager c.1 (fun m => f m c.2)).

Definition channel_try_claim (c : channel_ptr) (reserve_type : uvm_channel_reserve_type_t) : TM bool :=
  on_channel c (fun m c => try_claim_channel m c 1 reserve_type).

Definition channel_is_suspended (c : channel_ptr) : TM bool :=
  w ← sm_get;
  m ← sm_lift (managers (global w) !! c.1);
  ch ← sm_lift (channels m !! c.2);
  mret (suspended_p2p ch).

Definition is_with_p2p (reserve_type : uvm_channel_reserve_type_t) : bool :=
  match reserve_type with UVM_CHANNEL_RESERVE_WITH_P2P => true | UVM_CHANNEL_RESERVE_NO_P2P => false end.

Fixpoint try_claim_in_pool (gpu : gpu_id) (pool : list channel_id) (reserve_type : uvm_channel_reserve_type_t)
    : TM (option channel_ptr) :=
  match pool with
  | [] => mret None
  | c :: pool =>
      claimed ← channel_try_claim (gpu, c) reserve_type;
      if claimed : bool then mret (Some (gpu, c)) else try_claim_in_pool gpu pool reserve_type
  end.

(** One pass of the endless loop over the channels of the pool. *)
Fixpoint reserve_pass (gpu : gpu_id) (pool : list channel_id) (reserve_type : uvm_channel_reserve_type_t)
    : TM (option (NV_STATUS * option channel_ptr)) :=
  match pool with
  | [] => mret None
  | c :: pool =>
      _ ← on_channel (gpu, c) uvm_channel_update_progress;
      claimed ← channel_try_claim (gpu, c) reserve_type;
      if claimed : bool then mret (Some (NV_OK, Some (gpu, c)))
      else
        status ← channel_check_errors E (Some (gpu, c));
        if negb (status =? NV_OK) then mret (Some (status, None))
        else
          suspended ← channel_is_suspended (gpu, c);
          if is_with_p2p reserve_type && suspended then mret (Some (NV_ERR_BUSY_RETRY, None))
          else
            _ ← UVM_SPIN_LOOP E;
            reserve_pass gpu pool reserve_type
  end.

Fixpoint reserve_passes (fuel : nat) (gpu : gpu_id) (pool : list channel_id) (reserve_type : uvm_channel_reserve_type_t)
    : TM (NV_STATUS * option channel_ptr) :=
  match fuel with
  | O => sm_wait
  | S fuel =>
      r ← reserve_pass gpu pool reserve_type;
      match r with
      | Some r => mret r
      | None => reserve_passes fuel gpu pool reserve_type
      end
  end.

Definition channel_reserve_in_pool (fuel : nat) (gpu : gpu_id) (pool : list channel_id)
    (reserve_type : uvm_channel_reserve_type_t) : TM (NV_STATUS * option channel_ptr) :=
  c ← try_claim_in_pool gpu pool reserve_type;
  match c with
  | Some c => mret (NV_OK, Some c)
  | None => reserve_passes fuel gpu pool reserve_type
  end.

Definition uvm_channel_reserve_type (fuel : nat) (gpu : gpu_id) (type : uvm_channel_type_t)
    : TM (NV_STATUS * option channel_ptr) :=
  pool ← sm_lift (default_for_type PE gpu type);
  channel_reserve_in_pool fuel gpu pool
    (match type with UVM_CHANNEL_TYPE_GPU_TO_GPU => UVM_CHANNEL_RESERVE_WITH_P2P | _ => UVM_CHANNEL_RESERVE_NO_P2P end).

Definition uvm_channel_reserve_gpu_to_gpu (fuel : nat) (gpu dst_gpu : gpu_id) : TM (NV_STATUS * option channel_ptr) :=
  pool ← (match gpu_to_gpu PE gpu dst_gpu with
          | Some pool => mret pool
          | None => sm_lift (default_for_type PE gpu UVM_CHANNEL_TYPE_GPU_TO_GPU)
          end);
  channel_reserve_in_pool fuel gpu pool UVM_CHANNEL_RESERVE_WITH_P2P.

Definition push_reserve_channel (fuel : nat) (gpu : gpu_id) (type : uvm_channel_type_t) (dst_gpu : option gpu_id)
    : TM (NV_STATUS * option channel_ptr) :=
  r ← (match dst_gpu with
       | None => uvm_channel_reserve_type fuel gpu type
       | Some dst => uvm_channel_reserve_gpu_to_gpu fuel gpu dst
       end);
  let '(status, channel) := r in
  _ ← (if status =? NV_OK then sm_assert (match channel with Some _ => true | None => false end) else mret tt);
  mret (status, channel).

(** ** Beginning and ending a push *)

(** The push buffer's model does not tell waiting from failing. *)
Definition uvm_channel_begin_push (fuel : nat) (c : channel_ptr) (p : push_ptr) : TM NV_STATUS :=
  push ← get_push p;
  _ ← put_push p (push <| push_channel := c.2 |> <| channel_tracking_value := 0 |>);
  status ← on_global (with_manager c.1 (fun m =>
             r ← uvm_pushbuffer_begin_push (pb_envs PE c.1) fuel (pushbuffer m) p.2;
             Some (r.1, m <| pushbuffer := r.2 |>)));
  if negb (status =? NV_OK) then mret status
  else
    index ← on_channel c channel_get_available_push_info_index;
    push ← get_push p;
    _ ← put_push p (push <| push_info_index := index |>);
    mret NV_OK.

Definition push_begin_acquire_with_info (fuel : nat) (c : channel_ptr) (tracker : option tracker_id) (p : push_ptr)
    : TM (NV_STATUS * list acquire) :=
  _ ← put_push p (mk_push 0 0 false 0 c.2 0 0);
  status ← uvm_channel_begin_push fuel c p;
  if negb (status =? NV_OK) then mret (status, [])
  else
    acquires ← uvm_push_acquire_tracker p tracker;
    mret (NV_OK, acquires).

(** A push on the GPU of the manager; [p] names it. *)
Definition uvm_push_begin_acquire_with_info (fuel : nat) (type : uvm_channel_type_t) (dst_gpu : option gpu_id)
    (tracker : option tracker_id) (p : push_ptr) : TM (NV_STATUS * list acquire) :=
  _ ← (match dst_gpu with
       | Some dst =>
           _ ← sm_assert (match type with UVM_CHANNEL_TYPE_GPU_TO_GPU => true | _ => false end);
           sm_assert (bool_decide (dst <> p.1))
       | None => mret tt
       end);
  r ← push_reserve_channel fuel p.1 type dst_gpu;
  let '(status, channel) := r in
  if negb (status =? NV_OK) then mret (status, [])
  else
    channel ← sm_lift channel;
    r ← push_begin_acquire_with_info fuel channel tracker p;
    let '(status, acquires) := r in
    if negb (status =? NV_OK) then
      _ ← on_channel channel (fun m c => m ← uvm_channel_release m c 1; Some (tt, m));
      mret (status, [])
    else mret (NV_OK, acquires).

Definition uvm_push_begin_on_reserved_channel_with_info (fuel : nat) (c : channel_ptr) (p : push_ptr)
    : TM (NV_STATUS * list acquire) := push_begin_acquire_with_info fuel c None p.

(** [release_size] is the size of the methods that release the semaphore. *)
Definition uvm_push_end (p : push_ptr) (release_size : Z) (callback : bool) : TM unit :=
  on_global (with_manager p.1 (fun m =>
    m ← uvm_channel_end_push (pb_envs PE p.1) m p.2 release_size callback; Some (tt, m))).

Definition uvm_push_end_and_wait (fuel : nat) (p : push_ptr) (release_size : Z) (callback : bool) : TM NV_STATUS :=
  _ ← uvm_push_end p release_size callback;
  uvm_push_wait fuel p.
End push.
