(* ===== verification/PushSpec.v ===== *)
(** * Correctness of pushes

    Inline data: the buffer that a push hands out lies inside the push, and its
    GPU address is the address of the same bytes.  Dependencies: a push that has
    acquired a tracker starts on the GPU only after all pending work of the tracker
    has completed.  Reservation: a pool never leaks an entry. *)

From stdpp Require Import propset.
From S2P Require Import Prelude StateMonad PageMask Pushbuffer PushbufferSpec GpuSemaphore Channel ChannelSpec Tracker TrackerOps TrackerSpec TrackerSystem Push.

(** ** Methods and inline data *)
Definition push_ok (push : uvm_push_t) : Prop :=
  0 <= push_begin push /\ push_begin push + 2 * UVM_MAX_PUSH_SIZE < 2 ^ 64 /\ (4 | push_begin push)
  /\ push_begin push <= push_next push <= push_begin push + UVM_MAX_PUSH_SIZE /\ (4 | push_next push - push_begin push).

Lemma push_size push : push_ok push -> uvm_push_get_size push = push_next push - push_begin push.
Proof.
  intros (? & _ & _ & Hn & k & Hk). unfold uvm_push_get_size. rewrite Hk, Z.div_mul, <- Hk by lia.
  apply NvU32_small. unfold UVM_MAX_PUSH_SIZE in *. lia.
Qed.

(** Pushing a method stays inside the push. *)
Lemma push_methods_run push count :
  push_ok push -> 0 <= count -> push_next push + (count + 1) * 4 <= push_begin push + UVM_MAX_PUSH_SIZE ->
  exists push', push_methods push count = Some push' /\ push_ok push' /\ push_begin push' = push_begin push
    /\ push_next push' = push_next push + (count + 1) * 4 /\ push' = push <| push_next := push_next push' |>.
Proof.
  intros Hok Hc Hroom. pose proof Hok as (H0 & H64 & H4 & Hn & [k Hk]). unfold push_methods, UVM_METHOD_SIZE. rewrite push_size by done.
  replace (_ <=? _) with true by lia. eexists. split; [done|]. cbn. split_and!; try done.
  unfold push_ok. cbn. split_and!; try done; [lia|]. exists (k + count + 1). lia.
Qed.

Lemma noop_run push size :
  push_ok push -> (4 | size) -> 4 <= size <= (UVM_METHOD_COUNT_MAX + 1) * 4 ->
  push_next push + size <= push_begin push + UVM_MAX_PUSH_SIZE ->
  uvm_hal_maxwell_host_noop push size = Some (push <| push_next := push_next push + size |>).
Proof.
  intros Hok [k ->] Hs Hroom. unfold uvm_hal_maxwell_host_noop. rewrite Z.mod_mul, Z.div_mul by lia. cbn [Z.eqb].
  destruct (Z.to_nat k) as [|fuel] eqn:Hf; [lia|]. cbn [noop_loop]. replace (0 <? k) with true by lia.
  replace (Z.min (UVM_METHOD_COUNT_MAX + 1) k) with k by lia.
  destruct (push_methods_run push (k - 1)) as (push' & Hrun & _ & _ & Hn & Heq); [done|lia|lia|].
  rewrite Hrun. cbn [mbind option_bind]. rewrite Z.sub_diag. rewrite Heq, Hn.
  replace ((k - 1 + 1) * 4) with (k * 4) by lia. by destruct fuel.
Qed.

(** Rounding up to a power of two. *)
Definition align_up (x a : Z) : Z := a * ((x + a - 1) / a).

Lemma align_up_bounds x a : 0 < a -> x <= align_up x a < x + a /\ (a | align_up x a).
Proof.
  intros Ha. unfold align_up. pose proof (Z.div_mod (x + a - 1) a). pose proof (Z.mod_pos_bound (x + a - 1) a). split; [lia|].
  exists ((x + a - 1) / a). lia.
Qed.

Lemma align_up_shift x a n : 0 < a -> (a | n) -> align_up (x + n) a = align_up x a + n.
Proof.
  intros Ha [k ->]. unfold align_up. replace (x + k * a + a - 1) with (x + a - 1 + k * a) by lia.
  rewrite Z.div_add by lia. lia.
Qed.

Lemma align_up_div4 x a : (4 | a) -> 0 < a -> (4 | align_up x a).
Proof. intros [k Hk] Ha. destruct (align_up_bounds x a Ha) as [_ [j Hj]]. exists (j * k). lia. Qed.

Lemma align_up_run x k :
  0 <= k <= 12 -> 0 <= x -> x + UVM_PAGE_SIZE_4K < 2 ^ 64 -> UVM_ALIGN_UP x (2 ^ k) = Some (align_up x (2 ^ k)).
Proof.
  intros Hk Hx Hb. apply align_up_pow2; [lia|]. pose proof (Z.pow_le_mono_r 2 k 12). pose proof (pow2_pos k).
  unfold in_width, UVM_PAGE_SIZE_4K in *. lia.
Qed.

(** Getting the aligned space, for a power of two. *)
Lemma get_aligned_run push size k :
  push_ok push -> 2 <= k <= 12 -> 0 <= size ->
  let offset := align_up (push_next push + 4) (2 ^ k) - (push_next push + 4) in
  let fits := (push_next push + 4 + offset + size <=? push_begin push + UVM_MAX_PUSH_SIZE)
              && (offset + size <=? UVM_PUSH_INLINE_DATA_MAX_SIZE) in
  uvm_push_inline_data_get_aligned (uvm_push_inline_data_begin push) size (2 ^ k)
  = if fits then Some (push_next push + 4 + offset, mk_inline_data push (push_next push + 4 + (size + offset))) else None.
Proof.
  intros Hok Hk Hs offset fits. pose proof Hok as (H0 & H64 & H4 & Hn & _).
  unfold uvm_push_inline_data_get_aligned, uvm_push_inline_data_begin, UVM_METHOD_SIZE. cbn [next_data].
  pose proof (Z.pow_le_mono_r 2 k 12). replace (2 ^ k <=? UVM_PAGE_SIZE_4K) with true by (unfold UVM_PAGE_SIZE_4K; lia).
  assert (2 ^ k mod 4 = 0) as ->.
  { replace k with (k - 2 + 2) by lia. rewrite Z.pow_add_r by lia. change (2 ^ 2) with 4. apply Z.mod_mul. lia. }
  cbn [Z.eqb]. rewrite align_up_run by (unfold UVM_MAX_PUSH_SIZE, UVM_PAGE_SIZE_4K in *; lia). cbn [mbind option_bind]. fold offset.
  unfold uvm_push_inline_data_get, uvm_push_inline_data_size, UVM_METHOD_SIZE. cbn [data_push next_data]. rewrite push_size by done.
  subst fits. destruct (_ <=? push_begin push + _) eqn:E1, (offset + size <=? _) eqn:E2; cbn [andb].
  all: repeat match goal with |- context [?a <=? ?b] => let H := fresh in destruct (a <=? b) eqn:H end; try lia; cbn [mbind option_bind fst snd]; done.
Qed.

(** The buffer of [uvm_push_get_single_inline_buffer] is aligned as asked, lies
    inside the push, before the next method and within the maximal size of a push,
    and the returned GPU address is the address of these same bytes, although the
    CPU's and the GPU's address are rounded up independently: both start pages are
    congruent.  The function fails its assertions exactly when the data does not
    fit. *)
Theorem inline_buffer_exact push gpu_va size k :
  push_ok push -> 2 <= k <= 12 -> 0 <= size -> (UVM_PAGE_SIZE_4K | push_begin push - gpu_va) ->
  0 <= gpu_va -> gpu_va + 2 * UVM_MAX_PUSH_SIZE < 2 ^ 64 ->
  let offset := align_up (push_next push + 4) (2 ^ k) - (push_next push + 4) in
  let fits := (push_next push + 4 + offset + size <=? push_begin push + UVM_MAX_PUSH_SIZE)
              && (offset + size <=? UVM_PUSH_INLINE_DATA_MAX_SIZE) in
  match uvm_push_get_single_inline_buffer (Some gpu_va) push size (2 ^ k) with
  | None => fits = false
  | Some (buffer, address, push') =>
      fits = true /\ (2 ^ k | buffer) /\ (2 ^ k | address) /\ push_next push + 4 <= buffer /\ buffer + size <= push_next push'
      /\ push_next push' <= push_begin push + UVM_MAX_PUSH_SIZE /\ address - gpu_va = buffer - push_begin push
      /\ push_begin push' = push_begin push
  end.
Proof.
  intros Hok Hk Hs Hcong Hva Hva64 offset fits. pose proof Hok as (H0 & H64 & H4 & Hn & [j Hj]).
  pose proof (pow2_pos k ltac:(lia)) as Hpow. pose proof (align_up_bounds (push_next push + 4) (2 ^ k) Hpow) as [Hab Hadiv].
  assert (4 | 2 ^ k) as Hk4.
  { exists (2 ^ (k - 2)). replace k with (k - 2 + 2) at 1 by lia. rewrite Z.pow_add_r by lia. done. }
  pose proof (align_up_div4 (push_next push + 4) (2 ^ k) Hk4 Hpow) as [a Ha].
  unfold uvm_push_get_single_inline_buffer. assert (2 ^ k mod UVM_METHOD_SIZE = 0) as ->.
  { unfold UVM_METHOD_SIZE. destruct Hk4 as [x ->]. apply Z.mod_mul. lia. }
  cbn [Z.eqb]. rewrite (get_aligned_run push size k) by done. fold offset fits.
  destruct fits eqn:Hfits; [|done]. apply andb_true_iff in Hfits as [Hf1%Z.leb_le Hf2%Z.leb_le]. cbn [mbind option_bind].
  unfold uvm_push_inline_data_end, uvm_push_inline_data_size, UVM_METHOD_SIZE. cbn [data_push next_data].
  set (n := (push_next push + 4 + (size + offset) - (push_next push + 4) + (4 - 1)) / 4 * 4).
  assert (size + offset <= n < size + offset + 4 /\ (4 | n)) as [Hnb [m Hm]].
  { subst n. split; [|eexists; reflexivity]. pose proof (Z.div_mod (push_next push + 4 + (size + offset) - (push_next push + 4) + (4 - 1)) 4).
    pose proof (Z.mod_pos_bound (push_next push + 4 + (size + offset) - (push_next push + 4) + (4 - 1)) 4). lia. }
  destruct H4 as [b Hb].
  assert (push_next push + (n + 4) <= push_begin push + UVM_MAX_PUSH_SIZE) as Hroom.
  { unfold UVM_MAX_PUSH_SIZE in *. lia. }
  rewrite (noop_run push (n + 4)); [|done|exists (m + 1); lia| |done].
  2:{ unfold UVM_PUSH_INLINE_DATA_MAX_SIZE, UVM_METHOD_SIZE, UVM_METHOD_COUNT_MAX in *. lia. }
  cbn [mbind option_bind]. rewrite Hj, Z.div_mul, <- Hj by lia.
  rewrite align_up_run by (unfold UVM_MAX_PUSH_SIZE, UVM_PAGE_SIZE_4K in *; lia). cbn [mbind option_bind].
  assert (2 ^ k | gpu_va - push_begin push) as Hd.
  { etransitivity; [|apply Z.divide_opp_r in Hcong; rewrite Z.opp_sub_distr in Hcong; replace (gpu_va - push_begin push) with (- push_begin push + gpu_va) by lia; exact Hcong].
    unfold UVM_PAGE_SIZE_4K. exists (2 ^ (12 - k)). rewrite <- Z.pow_add_r by lia. f_equal. lia. }
  replace (push_next push - push_begin push + 4 + gpu_va) with (push_next push + 4 + (gpu_va - push_begin push)) by lia.
  rewrite align_up_shift by done. subst offset. cbn. split_and!; try done; try lia.
  - replace (push_next push + 4 + _) with (align_up (push_next push + 4) (2 ^ k)) by lia. done.
  - by apply Z.divide_add_r.
Qed.

(** ** What queries and error checks leave alone *)

(** A push as the thread that began it sees it. *)
Definition push_in (q : push_id) (push : uvm_push_t) (num : Z) (m : uvm_channel_manager_t) : Prop :=
  pushes (pushbuffer m) !! q = Some push
  /\ exists ch, channels m !! push_channel push = Some ch /\ num_gpfifo_entries ch = num.

Lemma update_chunk_pushes pb i pb' : update_chunk pb i = Some pb' -> pushes pb' = pushes pb.
Proof.
  unfold update_chunk, make_available. intros H. binds H.
  repeat match goal with H : (if ?b then _ else _) = Some _ |- _ => destruct b; try discriminate end; binds H; done.
Qed.

Lemma mark_completed_pushes pb g pb' : uvm_pushbuffer_mark_completed pb g = Some pb' -> pushes pb' = pushes pb.
Proof.
  unfold uvm_pushbuffer_mark_completed. intros H. binds H.
  destruct (_ && _); [apply update_chunk_pushes in H; rewrite H|simplify_eq]; by destruct (on_complete x).
Qed.

Section kept_pushes.
Context (q : push_id) (push : uvm_push_t) (num : Z).

Lemma push_in_put m c ch ch' :
  push_in q push num m -> channels m !! c = Some ch -> num_gpfifo_entries ch' = num_gpfifo_entries ch ->
  push_in q push num (put_channel m c ch').
Proof.
  intros (Hq & x & Hx & Hn) Hc Hnum. split; [done|]. cbn. destruct (decide (c = push_channel push)) as [->|Hne].
  - rewrite lookup_insert_eq. simplify_eq. eauto.
  - rewrite lookup_insert_ne by done. eauto.
Qed.

Lemma progress_push mode v c put budget : forall m get k m',
  progress_loop budget mode v m c get put = Some (k, m') -> push_in q push num m -> push_in q push num m'.
Proof.
  induction budget as [|budget IH]; intros m get k m' Hrun Hp; cbn [progress_loop] in Hrun; [by simplify_eq|].
  destruct (get =? put); [by simplify_eq|]. apply bind_Some in Hrun as (e & He & Hrun).
  destruct (_ && _); [by simplify_eq|]. apply bind_Some in Hrun as (m1 & Hm1 & Hrun). apply bind_Some in Hrun as (ch & Hch & Hrun).
  eapply IH; [exact Hrun|]. destruct (gpfifo_type e); [|by simplify_eq].
  apply bind_Some in Hm1 as (pb & Hpb & Hm1). cbv zeta in Hm1. apply bind_Some in Hm1 as (ch' & Hch' & Hm1). simplify_eq.
  eapply push_in_put; [|exact Hch'|done]. destruct Hp as (Hq & Hx). split; [|exact Hx]. cbn. by rewrite (mark_completed_pushes _ _ _ Hpb).
Qed.

Lemma query_push m c v r : uvm_channel_is_value_completed m c v = Some r -> push_in q push num m -> push_in q push num r.2.
Proof. unfold uvm_channel_is_value_completed. intros H Hp. binds H. by eapply push_in_put. Qed.

Lemma errors_push m c st r : uvm_channel_check_errors m c st = Some r -> push_in q push num m -> push_in q push num r.2.
Proof.
  unfold uvm_channel_check_errors. destruct (st =? NV_OK); [by intros [= <-]|]. intros H Hp.
  apply bind_Some in H as ([k m2] & H & [= <-]). cbn [snd]. unfold channel_update_progress_all in H.
  apply bind_Some in H as (ch & Hch & H). unfold uvm_channel_update_progress_with_max in H.
  apply bind_Some in H as ([v m1] & Hv & H). unfold uvm_channel_update_completed_value in Hv. binds Hv.
  unfold update_progress_locked in H. apply bind_Some in H as (ch1 & Hch1 & H). destruct (_ <=? _); [|done].
  apply bind_Some in H as ([get m3] & Hloop & H). apply bind_Some in H as (ch3 & Hch3 & H). simplify_eq.
  eapply push_in_put; [|exact Hch3|done]. eapply progress_push; [exact Hloop|]. by eapply push_in_put.
Qed.
End kept_pushes.

Lemma with_manager_push {A} p push num (f : uvm_channel_manager_t -> option (A * uvm_channel_manager_t)) gpu g r :
  with_manager gpu f g = Some r -> (forall m x, f m = Some x -> push_in p.2 push num m -> push_in p.2 push num x.2) ->
  (exists m, managers g !! p.1 = Some m /\ push_in p.2 push num m) ->
  exists m, managers r.2 !! p.1 = Some m /\ push_in p.2 push num m.
Proof.
  unfold with_manager. intros H Hf (m & Hm & Hp). apply bind_Some in H as (m0 & Hm0 & H). apply bind_Some in H as (x & Hx & [= <-]).
  cbn. destruct (decide (gpu = p.1)) as [->|Hne].
  - rewrite lookup_insert_eq. simplify_eq. exists x.2. split; [done|by eapply Hf].
  - rewrite lookup_insert_ne by done. eauto.
Qed.

(** ** A push that is being written *)

(** The GPUs are some steps after [s0], and push [p] is begun and is [push]. *)
Definition pushing (PE : gpu_id -> pb_env) (s0 : gmap gpu_id chan_sys) (p : push_ptr) (push : uvm_push_t) (num : Z)
    (g : uvm_global_t) (done : gmap channel_ptr Z) : Prop :=
  exists s, managers g = cs_manager <$> s /\ gpus_ok PE s /\ done = released s /\ rtc (gpus_step PE) s0 s
    /\ (exists b, begun_pushes s !! p.1 = Some b /\ p.2 ∈ b)
    /\ exists m, managers g !! p.1 = Some m /\ push_in p.2 push num m.

Section pushes.
Context (PE : gpu_id -> pb_env) (base : gpu_id -> Z) (Hmem : forall gpu, memory_ok (PE gpu) (base gpu)).
Context (s0 : gmap gpu_id chan_sys) (p : push_ptr) (num : Z).

#[local] Instance clock_push push : ChannelClock (pushing PE s0 p push num).
Proof.
  split.
  - intros g done c d v (s & Hm & Hok & -> & H0 & Hb & Hp) Hd.
    destruct (query_gpus PE base Hmem s g c d v Hm Hok Hd) as (g' & s' & Hrun & Hf & Hm' & Hsteps & Hr & Hb').
    exists g'. split_and!; [done| |done]. exists s'. destruct (gpus_steps PE s s' Hok Hsteps) as [? _]. rewrite Hb'.
    split_and!; [done|done|done|by etransitivity|done|].
    apply (with_manager_push p push num _ c.1 g (v <=? d, g') Hrun); [|done]. intros m x. apply query_push.
  - intros g done c d st (s & Hm & Hok & -> & H0 & Hb & Hp) Hd.
    destruct (errors_gpus PE base Hmem s g c d st Hm Hok Hd) as (g' & s' & Hrun & Hf & Hm' & Hsteps & Hr & Hb').
    exists g'. split_and!; [done| |done]. exists s'. destruct (gpus_steps PE s s' Hok Hsteps) as [? _]. rewrite Hb'.
    split_and!; [done|done|done|by etransitivity|done|]. unfold channel_errors in Hrun.
    apply bind_Some in Hrun as (r & Hrun & Heq). simplify_eq.
    assert (exists m, managers r.2 !! p.1 = Some m /\ push_in p.2 push num m) as Hpush.
    { eapply with_manager_push; [exact Hrun| |done]. intros m x. apply errors_push. }
    destruct (r.1 =? NV_OK); [done|]. unfold set_fatal. by destruct (_ =? _).
  - by intros g done (s & _ & [_ Hf] & -> & _).
Qed.

(** A begun push has room up to [UVM_MAX_PUSH_SIZE]. *)
Lemma pushing_fits push g done : pushing PE s0 p push num g done -> push_fits push push.
Proof.
  intros (s & Hm & Hok & _ & _ & (b & Hb & Hin) & m & Hmp & Hq & _). unfold begun_pushes in Hb.
  rewrite Hm, lookup_fmap in Hmp. rewrite lookup_fmap in Hb. destruct (s !! p.1) as [cs|] eqn:Hcs; [|done]. cbn in *. simplify_eq.
  destruct (chan_reachable_inv _ _ cs (Hmem p.1) (go_reach _ _ Hok _ _ Hcs)) as [rings Hinv].
  pose proof (pushbuffer_laws _ _ (Hmem p.1)) as Hlaws. by eapply law_begun; [apply (si_pb _ _ _ Hinv)| |].
Qed.

(** Writing the push is a step. *)
Lemma put_pushing push n w done :
  pushing PE s0 p push num (global w) done -> 0 <= n <= UVM_MAX_PUSH_SIZE -> (4 | n) ->
  exists w', put_push p (push <| push_next := push_begin push + n |>) w = Returns (tt, w') /\ trackers w' = trackers w
    /\ pushing PE s0 p (push <| push_next := push_begin push + n |>) num (global w') done.
Proof.
  intros (s & Hm & Hok & -> & H0 & (b & Hb & Hin) & m & Hmp & Hq & ch & Hch & Hn) Hlen H4. unfold begun_pushes in Hb.
  rewrite Hm, lookup_fmap in Hmp. rewrite lookup_fmap in Hb. destruct (s !! p.1) as [cs|] eqn:Hcs; [|done]. cbn in *. simplify_eq.
  set (push' := push <| push_next := push_begin push + n |>).
  set (m' := cs_manager cs <| pushbuffer := pushbuffer (cs_manager cs) <| pushes := <[p.2 := push']> (pushes (pushbuffer (cs_manager cs))) |> |>).
  set (cs' := mk_chan_sys m' (cs_begun cs) (cs_ready cs) (cs_done cs)).
  assert (gpus_step PE s (<[p.1 := cs']> s)) as Hstep.
  { eapply gs_step; [done|]. destruct cs as [cm cb cr cd]. apply cs_local. by apply step_write. }
  exists (w <| global := global w <| managers := <[p.1 := m']> (managers (global w)) |> |>).
  unfold put_push, on_global, with_manager. cbn. unfold sm_lift, mbind, SM_bind, sm_modify, sm_get.
  rewrite Hm, lookup_fmap, Hcs. cbn. split_and!; [done|done|]. exists (<[p.1 := cs']> s). cbn. split_and!.
  - by rewrite fmap_insert.
  - by eapply gpus_step_ok.
  - symmetry. by eapply released_same.
  - by eapply rtc_r.
  - exists (cs_begun cs). split; [|done]. unfold begun_pushes. by rewrite lookup_fmap, lookup_insert_eq.
  - exists m'. rewrite lookup_insert_eq. split; [done|]. split; [subst m'; cbn; apply lookup_insert_eq|by exists ch].
Qed.

(** *** The acquires *)

(** What a push on channel [own] acquires for [es]. *)
Definition acquires_of (own : channel_ptr) (es : list uvm_tracker_entry_t) : list (channel_ptr * Z) :=
  omap (fun e => c ← entry_channel e; if bool_decide (own = c) then None else Some (c, NvU32 (entry_value e))) es.

Lemma acquire_size hal push :
  push_fits push push -> push_next push + 24 <= push_begin push + UVM_MAX_PUSH_SIZE ->
  exists n, semaphore_acquire hal push = Some (push <| push_next := push_begin push + n |>)
    /\ 0 <= n <= UVM_MAX_PUSH_SIZE /\ (4 | n) /\ push_begin push + n <= push_next push + 24.
Proof.
  intros (_ & _ & Hn & k & Hk) Hroom. assert (uvm_push_get_size push = push_next push - push_begin push) as Hs.
  { unfold uvm_push_get_size. rewrite Hk, Z.div_mul, <- Hk by lia. apply NvU32_small. unfold UVM_MAX_PUSH_SIZE in *. lia. }
  destruct hal; cbn [semaphore_acquire]; unfold uvm_hal_maxwell_host_semaphore_acquire, uvm_hal_turing_host_semaphore_acquire,
    uvm_hal_hopper_host_semaphore_acquire, push_methods, UVM_METHOD_SIZE; rewrite Hs; replace (_ <=? _) with true by lia.
  - exists (push_next push - push_begin push + 20). replace (push_begin push + _) with (push_next push + (4 + 1) * 4) by lia.
    split_and!; [done|lia|lia|exists (k + 5); lia|lia].
  - exists (push_next push - push_begin push + 24). replace (push_begin push + _) with (push_next push + (5 + 1) * 4) by lia.
    split_and!; [done|lia|lia|exists (k + 6); lia|lia].
  - exists (push_next push - push_begin push + 24). replace (push_begin push + _) with (push_next push + (5 + 1) * 4) by lia.
    split_and!; [done|lia|lia|exists (k + 6); lia|lia].
Qed.

Lemma get_pushing push w done : pushing PE s0 p push num (global w) done -> get_push p w = Returns (push, w).
Proof.
  intros (s & _ & _ & _ & _ & _ & m & Hm & Hq & _). unfold get_push, mbind, SM_bind, sm_get, sm_lift. by rewrite Hm, Hq.
Qed.

Lemma acquire_entry_run PV push e w done :
  pushing PE s0 p push num (global w) done -> push_next push + 24 <= push_begin push + UVM_MAX_PUSH_SIZE ->
  exists push' w', push_acquire_tracker_entry PV p e w = Returns (acquires_of (p.1, push_channel push) [e], w')
    /\ trackers w' = trackers w /\ pushing PE s0 p push' num (global w') done /\ push_channel push' = push_channel push
    /\ push_begin push' = push_begin push /\ push_next push' <= push_next push + 24.
Proof.
  intros Hp Hroom. unfold push_acquire_tracker_entry, acquires_of. cbn [omap list_omap].
  destruct (entry_channel e) as [c|]; cbn [mbind option_bind]; [|exists push, w; split_and!; done || lia].
  rewrite (sm_bind_run _ _ _ _ _ (get_pushing push w done Hp)). case_bool_decide; [exists push, w; split_and!; done || lia|].
  destruct (acquire_size (gpu_hal PV p.1) push (pushing_fits _ _ _ Hp) Hroom) as (n & Hrun & Hn & H4 & Hle).
  rewrite (sm_bind_lift _ _ _ _ Hrun). destruct (put_pushing push n w done Hp Hn H4) as (w' & Hput & Ht & Hp').
  rewrite (sm_bind_run _ _ _ _ _ Hput). eexists _, w'. split_and!; try done.
Qed.

Lemma acquire_entries_run PV done es : forall push w,
  pushing PE s0 p push num (global w) done ->
  push_next push + 24 * Z.of_nat (length es) <= push_begin push + UVM_MAX_PUSH_SIZE ->
  exists push' w', acquire_entries PV p es w = Returns (acquires_of (p.1, push_channel push) es, w')
    /\ trackers w' = trackers w /\ pushing PE s0 p push' num (global w') done.
Proof.
  induction es as [|e es IH]; intros push w Hp Hroom; cbn [acquire_entries]; [by exists push, w|]. cbn [length] in Hroom.
  destruct (acquire_entry_run PV push e w done Hp) as (push1 & w1 & Hrun & Ht & Hp1 & Hc & Hb & Hn); [lia|].
  rewrite (sm_bind_run _ _ _ _ _ Hrun). destruct (IH push1 w1 Hp1) as (push2 & w2 & Hrun2 & Ht2 & Hp2); [lia|].
  rewrite (sm_bind_run _ _ _ _ _ Hrun2), Hc. exists push2, w2. split_and!; [|congruence|done].
  unfold acquires_of. cbn [omap list_omap]. by destruct (_ ≫= _).
Qed.
End pushes.

(** ** Acquiring a tracker *)

(** The GPU goes on behind an acquire of [v] when the payload is not before [v]; the
    comparison is circular. *)
Definition acquire_passes (payload v : Z) : bool := NvU32 (payload - v) <? 2 ^ 31.

Definition payload_of (s : gmap gpu_id chan_sys) (c : channel_ptr) : option Z :=
  cs ← s !! c.1; ch ← channels (cs_manager cs) !! c.2; Some (payload (tracking_sem ch)).

Section acquires.
Context (PE : gpu_id -> pb_env) (base : gpu_id -> Z) (Hmem : forall gpu, memory_ok (PE gpu) (base gpu)).

(** The payload stays near the queued value, so the circular comparison of 32 bits
    decides the comparison of the full values. *)
Lemma acquire_exact s c v pay d :
  gpus_ok PE s -> queued_on s c v -> payload_of s c = Some pay -> released s !! c = Some d ->
  (acquire_passes pay (NvU32 v) = true -> v <= d) /\ (v <= d < v + 2 ^ 31 -> acquire_passes pay (NvU32 v) = true).
Proof.
  intros Hok (cs & ch & Hs & Hc & Hv) Hpay Hd. unfold payload_of in Hpay. rewrite Hs in Hpay. cbn in Hpay. rewrite Hc in Hpay.
  cbn in Hpay. simplify_eq. rewrite released_lookup, Hs in Hd. cbn in Hd.
  destruct (chan_reachable_inv _ _ cs (Hmem c.1) (go_reach _ _ Hok _ _ Hs)) as [rings Hinv].
  destruct (sys_get _ _ _ c.2 ch Hinv Hc) as (es & d' & _ & Hd' & Hr & _). simplify_eq.
  destruct Hr as [Hnum _ _ Hroom _ (v0 & Hvals & Hv0) Hdone _ ->]. apply values_bound in Hvals. pose proof (normals_le es).
  unfold acquire_passes, NvU32, wrap, UVM_CHANNEL_NUM_GPFIFO_ENTRIES_MAX in *. rewrite <- Zminus_mod. split.
  - intros Hlt. destruct (decide (v <= d)) as [|Hgt]; [done|]. exfalso.
    rewrite <- (Z.mod_add (d - v) 1) in Hlt by done. rewrite Z.mod_small in Hlt by lia. lia.
  - intros Hle. rewrite Z.mod_small by lia. lia.
Qed.
End acquires.

(** ** Ending a push *)

(** One obligation is due from time [T] on. *)
Definition due_at (T : nat) (o : channel_ptr * Z) (n : nat) (o' : channel_ptr * Z) : Prop := (T <= n)%nat /\ o' = o.

(** Ending a ready push succeeds, is a step, and gives the push the next value. *)
Lemma end_push_step PE base s p cs c ch push size callback g T :
  (forall gpu, memory_ok (PE gpu) (base gpu)) -> gpus_ok PE s -> managers g = cs_manager <$> s -> s !! p.1 = Some cs ->
  cs_ready cs !! p.2 = Some c -> pushes (pushbuffer (cs_manager cs)) !! p.2 = Some push ->
  channels (cs_manager cs) !! c = Some ch -> 0 < size -> (4 | size) ->
  push_next push + size <= push_begin push + UVM_MAX_PUSH_SIZE -> queued_value (tracking_sem ch) + 1 < 2 ^ 64 ->
  exists m' push', uvm_channel_end_push (PE p.1) (cs_manager cs) p.2 size callback = Some m'
    /\ clock_due PE (due_at T ((p.1, c), queued_value (tracking_sem ch) + 1)) (g <| managers := <[p.1 := m']> (managers g) |>) (released s)
    /\ is_Some (released s !! (p.1, c))
    /\ pushes (pushbuffer m') !! p.2 = Some push' /\ push_channel push' = c
    /\ channel_tracking_value push' = queued_value (tracking_sem ch) + 1 /\ 0 < channel_tracking_value push'.
Proof.
  intros Hmem Hok Hm Hs Hready Hpush Hch Hsz H4 Hroom Hq. pose proof (pushbuffer_laws _ _ (Hmem p.1)) as Hlaws.
  destruct (chan_reachable_inv _ _ cs (Hmem p.1) (go_reach _ _ Hok _ _ Hs)) as [rings Hinv].
  destruct (si_ready _ _ _ Hinv p.2 c Hready) as (Hb & _ & push1 & Hpush1 & Hpc). rewrite Hpush in Hpush1. injection Hpush1 as <-. subst c.
  destruct (sys_get _ _ _ _ ch Hinv Hch) as (es & d & _ & Hd & Hr & _). destruct Hr as [_ _ _ _ _ _ Hdone Hw _].
  destruct cs as [m begun ready done]. cbn [cs_manager cs_begun cs_ready cs_done] in *.
  destruct (end_run (PE p.1) _ m begun ready done rings _ ch p.2 push size callback Hinv Hch Hready Hpush Hsz H4 Hroom Hq)
    as (m' & Hrun & _).
  assert (chan_step (PE p.1) (mk_chan_sys m begun ready done) (mk_chan_sys m' (begun ∖ {[p.2]}) (delete p.2 ready) done)) as Hstep.
  { by eapply cs_end. }
  exists m'. pose proof Hrun as Hend. unfold uvm_channel_end_push in Hend. rewrite Hpush in Hend. cbn [mbind option_bind] in Hend.
  rewrite Hch in Hend. cbn [mbind option_bind] in Hend. cbv zeta in Hend. apply bind_Some in Hend as (pb1 & _ & Hend).
  destruct (0 <? _); [|done]. apply bind_Some in Hend as (pb2 & _ & [= Hm']).
  assert (NvU64 (queued_value (tracking_sem ch) + 1) = queued_value (tracking_sem ch) + 1) as Hval.
  { apply NvU64_small. unfold in_width in Hw. lia. }
  rewrite Hval in Hm'. eexists. split_and!; [done| | | |..].
  - eexists (<[p.1 := mk_chan_sys m' (begun ∖ {[p.2]}) (delete p.2 ready) done]> s).
    split_and!; [cbn; by rewrite Hm, fmap_insert|eapply gpus_step_ok; [done|by eapply gs_step]|symmetry; by eapply released_same|].
    intros n o [_ ->]. eexists _, _. split_and!; [apply lookup_insert_eq| |].
    + cbn. rewrite <- Hm'. apply lookup_insert_eq.
    + cbn. lia.
  - rewrite released_lookup. cbn. rewrite Hs. cbn. eauto.
  - cbn. rewrite <- Hm'. apply lookup_insert_eq.
  - done.
  - done.
  - cbn. unfold in_width in Hw. lia.
Qed.

Section theorems.
Context (PV : push_env) (base : gpu_id -> Z).

(** C6.  A push that has acquired a tracker starts on the GPU only after the work
    that the tracker stands for: for every pending obligation of another channel the
    push carries an acquire, and in every later state of the GPUs in which that
    acquire passes, the obligation has completed, although the acquire compares only
    32 bits and any number of wrap-arounds may happen in between; and the acquire
    does pass once the value was released, until 2^31 more values follow it.  Work of
    the push's own channel needs no acquire.  The call never fails, given that the
    push has room for an acquire per entry of the tracker.  The comparison is the
    circular one: ACQ_CIRC_GEQ on Turing and later; that ACQ_GEQ of the older hosts
    compares in the same way is assumed. *)
Theorem acquire_sound s p cs push num w id t :
  (forall gpu, memory_ok (pb_envs PV gpu) (base gpu)) -> gpus_ok (pb_envs PV) s -> managers (global w) = cs_manager <$> s ->
  world_ok (channels_clock (pb_envs PV)) (released s) w -> trackers w !! id = Some t -> tracker_good (released s) t ->
  (forall e c, e ∈ live t -> entry_channel e = Some c -> queued_on s c (entry_value e)) ->
  s !! p.1 = Some cs -> p.2 ∈ cs_begun cs -> push_in p.2 push num (cs_manager cs) ->
  channel_tracking_value push = 0 -> push_info_index push < num ->
  push_next push + 24 * tracker_size t <= push_begin push + UVM_MAX_PUSH_SIZE ->
  exists acquires w' s1, uvm_push_acquire_tracker PV p (Some id) w = Returns (acquires, w')
    /\ managers (global w') = cs_manager <$> s1 /\ rtc (gpus_step (pb_envs PV)) s s1
    /\ forall o, o ∈ pending (released s) (live t) -> o.1 <> (p.1, push_channel push) ->
         exists v, o.2 <= v /\ (o.1, NvU32 v) ∈ acquires
           /\ forall s' pay d, rtc (gpus_step (pb_envs PV)) s1 s' -> payload_of s' o.1 = Some pay -> released s' !! o.1 = Some d ->
                (acquire_passes pay (NvU32 v) = true -> v <= d) /\ (v <= d < v + 2 ^ 31 -> acquire_passes pay (NvU32 v) = true).
Proof.
  intros Hmem Hok Hm [_ Hgood Harr] Ht Hg Hq Hcs Hb Hpush Hv0 Hinfo Hroom.
  pose proof (clock_push (pb_envs PV) base Hmem s p num push) as Hclock.
  assert (pushing (pb_envs PV) s p push num (global w) (released s)) as Hp.
  { exists s. split_and!; try done; [exists (cs_begun cs); split; [|done]; unfold begun_pushes; by rewrite lookup_fmap, Hcs|].
    exists (cs_manager cs). by rewrite Hm, lookup_fmap, Hcs. }
  assert (world_ok (pushing (pb_envs PV) s p push num) (released s) w) as Hw by by split.
  pose proof (remove_completed_spec _ true _ w id t Hw Ht Hg) as (u & w1 & Hrun & t1 & Hch & Hlive & _)%spec_total.
  unfold uvm_push_acquire_tracker. rewrite (sm_bind_run _ _ _ _ _ Hrun). destruct Hch as [Htr [[Hst _] _] [Hp1 _ _] _ _].
  rewrite (sm_bind_run _ _ _ _ _ (get_pushing _ _ _ _ _ _ _ Hp1)). rewrite (sm_bind_run _ _ _ w1 w1) by done.
  pose proof Hp1 as (s1 & Hm1 & _ & _ & _ & _ & m & Hmp & _ & ch & Hc & Hnum).
  rewrite (sm_bind_lift _ _ _ _ Hmp), (sm_bind_lift _ _ _ _ Hc). rewrite (sm_bind_run _ _ _ tt w1) by (unfold sm_assert; by rewrite Hv0).
  rewrite (sm_bind_run _ _ _ tt w1) by (unfold sm_assert; by replace (_ <? _) with true by lia).
  rewrite (sm_bind_run _ _ _ t1 w1) by (unfold get_tracker, mbind, SM_bind, sm_get, sm_lift; by rewrite Htr, lookup_insert_eq).
  rewrite (sm_bind_lift _ _ _ _ (entries_ok _ Hst)).
  assert (length (live t1) <= length (live t))%nat as Hlen by (rewrite Hlive; apply length_filter).
  pose proof (live_length t (proj1 (proj1 Hg))) as Hsize.
  destruct (acquire_entries_run _ base Hmem s p num PV (released s) (live t1) push w1 Hp1) as (push2 & w2 & -> & _ & Hp2); [lia|].
  destruct Hp2 as (s2 & Hm2 & Hok2 & Hrel & Hsteps & _). eexists _, w2, s2. split_and!; [done|done|done|].
  intros o (Hn & e & He & Hoc & Hle)%elem_of_pending Hown. exists (entry_value e). split_and!; [done| |].
  - unfold acquires_of. apply list_elem_of_omap. exists e. rewrite Hoc. cbn. rewrite bool_decide_false by congruence. split; [|done].
    rewrite Hlive. apply list_elem_of_filter. split; [|done]. unfold entry_done. rewrite Hoc. intros (d & Hd & Hed). apply Hn. exists d. cbn in *. split; [done|lia].
  - intros s' pay d Hlater Hpay Hd. pose proof (gpus_steps _ _ _ Hok2 Hlater) as [Hok' _].
    eapply acquire_exact; try done. eapply (queued_later _ base Hmem s s'); [done|by etransitivity|by apply Hq].
Qed.

(** Ending a push and waiting for it: when [uvm_push_end_and_wait] returns
    [NV_OK], the GPU has released the value that the push was given, the next one of
    its channel; otherwise the error is the GPU's.  It returns at most two rounds
    after the work is released. *)
Theorem push_end_and_wait_done E err fuel T s p cs c ch push size callback w :
  (forall gpu, memory_ok (pb_envs PV gpu) (base gpu)) -> gpus_ok (pb_envs PV) s -> managers (global w) = cs_manager <$> s ->
  world_ok (channels_clock (pb_envs PV)) (released s) w -> fatal_ok err w ->
  s !! p.1 = Some cs -> cs_ready cs !! p.2 = Some c -> pushes (pushbuffer (cs_manager cs)) !! p.2 = Some push ->
  channels (cs_manager cs) !! c = Some ch -> 0 < size -> (4 | size) ->
  push_next push + size <= push_begin push + UVM_MAX_PUSH_SIZE -> queued_value (tracking_sem ch) + 1 < 2 ^ 64 ->
  system_env (pb_envs PV) E (due_at T ((p.1, c), queued_value (tracking_sem ch) + 1)) -> one_error E err -> (T - time w + 2 <= fuel)%nat ->
  exists st w' done', uvm_push_end_and_wait E PV fuel p size callback w = Returns (st, w')
    /\ channels_clock (pb_envs PV) (global w') done' /\ later (released s) done'
    /\ (st = NV_OK /\ completed done' ((p.1, c), queued_value (tracking_sem ch) + 1)
        \/ st = err /\ st <> NV_OK /\ fatal_error (global w') = err).
Proof.
  intros Hmem Hok Hm Hw Hf Hs Hready Hpush Hch Hsz H4 Hroom Hq Henv Herr Hfuel.
  set (due := due_at T ((p.1, c), queued_value (tracking_sem ch) + 1)) in *.
  pose proof (clock_of_due (pb_envs PV) base Hmem due) as Hclock.
  destruct (end_push_step _ base s p cs c ch push size callback (global w) T Hmem Hok Hm Hs Hready Hpush Hch Hsz H4 Hroom Hq)
    as (m' & push' & Hend & Hclk & Hknown & Hpush' & Hc' & Hv & Hpos).
  set (w1 := w <| global := global w <| managers := <[p.1 := m']> (managers (global w)) |> |>).
  assert (uvm_push_end PV p size callback w = Returns (tt, w1)) as Hrun1.
  { unfold uvm_push_end, on_global, with_manager. cbn -[uvm_channel_end_push]. rewrite Hm, lookup_fmap, Hs. cbn -[uvm_channel_end_push].
    rewrite Hend. cbn. by rewrite <- Hm. }
  assert (get_push p w1 = Returns (push', w1)) as Hget.
  { unfold get_push, mbind, SM_bind, sm_get, sm_lift. cbn. by rewrite lookup_insert_eq, Hpush'. }
  assert (world_ok (clock_due (pb_envs PV) due) (released s) w1) as Hw1 by (destruct Hw; by split).
  set (e := mk_entry (Some (p.1, c)) (queued_value (tracking_sem ch) + 1)).
  assert (spec true (uvm_tracker_wait_for_entry E fuel e) (fun r w' => exists done',
    after (clock_due (pb_envs PV) due) err (released s) done' w1 w'
    /\ ends err r.1 w' (entry_done done' e) /\ r.2 = if r.1 =? NV_OK then e else mk_entry None 0) w1) as Hwait.
  { apply (wait_for_entry_spec _ E err due (system_env_due _ base E err due Hmem Henv Herr) true T); done. }
  apply spec_total in Hwait as ([st e'] & w2 & Hrun2 & done' & Ha & Hends & _).
  unfold uvm_push_end_and_wait, uvm_push_wait, uvm_push_get_tracker_entry. rewrite (sm_bind_run _ _ _ _ _ Hrun1).
  rewrite (sm_bind_run _ _ _ e w1).
  2:{ rewrite (sm_bind_run _ _ _ _ _ Hget). unfold mbind, SM_bind, sm_assert. replace (_ =? 0) with false by lia. by rewrite Hc', Hv. }
  rewrite (sm_bind_run _ _ _ _ _ Hrun2). exists st, w2, done'. split_and!; [done|eapply clock_due_clock; apply Ha|apply Ha|exact Hends].
Qed.
End theorems.

(** ** Witnesses

    One GPU with two channels; push 1 is ready on channel 1. *)
Lemma inline_buffer_exact_witness :
  match uvm_push_get_single_inline_buffer (Some 0x20000) (mk_push 0x10000 0x10004 false 0 1 0 0) 100 (2 ^ 4) with
  | None => False
  | Some (buffer, address, push') => (2 ^ 4 | buffer) /\ address - 0x20000 = buffer - 0x10000
  end.
Proof.
  assert (push_ok (mk_push 0x10000 0x10004 false 0 1 0 0)) as Hok.
  { unfold push_ok, UVM_MAX_PUSH_SIZE. cbn. split_and!; try lia; [by exists 0x4000|by exists 1]. }
  pose proof (inline_buffer_exact (mk_push 0x10000 0x10004 false 0 1 0 0) 0x20000 100 4 Hok ltac:(lia) ltac:(lia)) as H.
  cbv zeta in H. specialize (H ltac:(exists (-16); reflexivity) ltac:(lia) ltac:(unfold UVM_MAX_PUSH_SIZE; lia)).
  destruct (uvm_push_get_single_inline_buffer _ _ _ _) as [[[buffer address] push']|]; [|vm_compute in H; discriminate H].
  destruct H as (_ & Hb & _ & _ & _ & _ & Ha & _). by split.
Defined.

Definition second_push : uvm_push_t := default push_new (pushes (pushbuffer (cs_manager second_sys)) !! 2%positive).
Definition second_gpu : gmap gpu_id chan_sys := {[1%positive := second_sys]}.
Definition first_entry : uvm_tracker_entry_t := mk_entry (Some (1%positive, 1%positive)) 1.
Definition first_tracker : uvm_tracker_t := mk_tracker (static_entries first_entry) 1 1.
Definition world_of (s : gmap gpu_id chan_sys) (ts : gmap tracker_id uvm_tracker_t) : uvm_world :=
  mk_world (mk_global (cs_manager <$> s) NV_OK) ts 0 0.
Definition quiet_pushes : push_env := mk_push_env (fun _ => TURING_HOST) all_quiet (fun _ _ => None) (fun _ _ => None).

Lemma gpu_ok cs :
  chan_reachable quiet_env cs -> Z.of_nat (size (released {[1%positive := cs]})) < 2 ^ 30 -> gpus_ok all_quiet {[1%positive := cs]}.
Proof. intros Hr Hs. split; [|done]. intros gpu x Hx. apply lookup_singleton_Some in Hx as [_ <-]. done. Qed.

Lemma first_pending : ((1%positive, 1%positive), 1) ∈ pending (released second_gpu) (live first_tracker).
Proof.
  apply elem_of_pending. split; [|exists first_entry; split; [by apply list_elem_of_singleton|split; [done|cbn; lia]]].
  intros (d & Hd & Hle). assert (released second_gpu !! (1%positive, 1%positive) = Some 0) as H0 by (vm_compute; reflexivity).
  cbn [fst snd] in *. rewrite H0 in Hd. injection Hd as <-. lia.
Qed.

Lemma acquire_sound_witness :
  exists acquires w', uvm_push_acquire_tracker quiet_pushes (1%positive, 2%positive) (Some 1%positive)
      (world_of second_gpu {[1%positive := first_tracker]}) = Returns (acquires, w')
    /\ exists v, 1 <= v /\ ((1%positive, 1%positive), NvU32 v) ∈ acquires.
Proof.
  pose proof (gpu_ok second_sys second_reachable ltac:(vm_compute; reflexivity)) as Hok.
  assert (tracker_good (released second_gpu) first_tracker) as Hg.
  { split; [split; [split; cbn; [done|lia]|apply NoDup_singleton]|]. apply Forall_singleton. eexists. vm_compute. reflexivity. }
  destruct (acquire_sound quiet_pushes (fun _ => 0x10000) second_gpu (1%positive, 2%positive) second_sys second_push 4
    (world_of second_gpu {[1%positive := first_tracker]}) 1%positive first_tracker (fun _ => quiet_memory) Hok eq_refl)
    as (acquires & w' & s1 & Hrun & _ & _ & Hall).
  - split; [exists second_gpu; by split_and!| |done]. intros id t Ht. cbn [trackers world_of] in Ht.
    apply lookup_singleton_Some in Ht as [_ <-]. by right.
  - done.
  - exact Hg.
  - intros e c ->%list_elem_of_singleton [= <-]. eexists second_sys, _. split_and!; [done|vm_compute; reflexivity|vm_compute; discriminate].
  - done.
  - apply (bool_decide_eq_true_1 (2%positive ∈ cs_begun second_sys)). vm_compute. reflexivity.
  - split; [vm_compute; reflexivity|]. eexists. split; vm_compute; reflexivity.
  - vm_compute. reflexivity.
  - vm_compute. reflexivity.
  - vm_compute. discriminate.
  - exists acquires, w'. split; [exact Hrun|].
    destruct (Hall ((1%positive, 1%positive), 1)) as (v & Hv & Hin & _);
      [|intros Heq; vm_compute in Heq; discriminate Heq|exists v; split; [exact Hv|exact Hin]].
    apply first_pending.
Defined.

(** The GPU releases the next value of channel 1. *)
Definition gpu_tick (g : uvm_global_t) : uvm_global_t :=
  match managers g !! 1%positive ≫= fun m => channels m !! 1%positive ≫= fun ch => Some (m, ch) with
  | Some (m, ch) =>
      if payload (tracking_sem ch) =? NvU32 (queued_value (tracking_sem ch)) then g
      else g <| managers := <[1%positive := put_channel m 1 (ch <| tracking_sem := tracking_sem ch
                 <| payload := NvU32 (payload (tracking_sem ch) + 1) |> |>)]> (managers g) |>
  | None => g
  end.
Definition ticking : tracker_env := mk_tracker_env (fun _ => None) (fun _ _ => no_errors) (fun _ => gpu_tick).

Lemma ring_distance pb c ch d es :
  ring_ok pb c ch d es -> payload (tracking_sem ch) = NvU32 (queued_value (tracking_sem ch)) -> d = queued_value (tracking_sem ch).
Proof.
  intros [Hnum _ _ Hroom _ (v0 & Hvals & Hv0) Hdone _ ->] Heq. apply values_bound in Hvals. pose proof (normals_le es).
  unfold NvU32, wrap, UVM_CHANNEL_NUM_GPFIFO_ENTRIES_MAX in *.
  set (q := queued_value (tracking_sem ch)) in *. pose proof (Z.div_mod d (2 ^ 32) ltac:(done)). pose proof (Z.div_mod q (2 ^ 32) ltac:(done)). nia.
Qed.

Lemma ticking_one_error : one_error ticking NV_ERR_ECC_ERROR.
Proof. split; [|by left]. intros n g Hf. left. cbn. unfold gpu_tick. by repeat case_match. Qed.

Lemma ticking_system : system_env all_quiet ticking (due_at 0 ((1%positive, 1%positive), 1)).
Proof.
  intros n g s Hm Hok. cbn [spin_others ticking]. unfold gpu_tick. rewrite Hm, lookup_fmap.
  destruct (s !! 1%positive) as [cs|] eqn:Hs; cbn [fmap option_fmap option_map mbind option_bind].
  2:{ exists s. split_and!; [done|done|]. intros o [_ ->] (cs & ch & Hcs & _). cbn in Hcs. congruence. }
  destruct (channels (cs_manager cs) !! 1%positive) as [ch|] eqn:Hch; cbn [mbind option_bind].
  2:{ exists s. split_and!; [done|done|]. intros o [_ ->] (cs' & ch & Hcs & Hch' & _). cbn in *. congruence. }
  destruct (chan_reachable_inv _ _ cs quiet_memory (go_reach _ _ Hok _ _ Hs)) as [rings Hinv].
  destruct (sys_get _ _ _ _ ch Hinv Hch) as (es & d & _ & Hd & Hr & _).
  destruct (_ =? _) eqn:Hz.
  - apply Z.eqb_eq in Hz. pose proof (ring_distance _ _ _ _ _ Hr Hz) as Hdq. exists s. split_and!; [done|done|].
    intros o [_ ->] (cs' & ch' & Hcs' & Hch' & Hv). cbn in *. simplify_eq. eexists. rewrite released_lookup. cbn. rewrite Hs. cbn. split; [exact Hd|lia].
  - apply Z.eqb_neq in Hz. pose proof Hr as [_ _ _ _ _ _ Hdone Hw Hpay].
    assert (d <> queued_value (tracking_sem ch)) as Hne by congruence.
    assert (chan_step quiet_env cs (mk_chan_sys (put_channel (cs_manager cs) 1 (ch <| tracking_sem := tracking_sem ch <| payload := NvU32 (d + 1) |> |>))
      (cs_begun cs) (cs_ready cs) (<[1%positive := d + 1]> (cs_done cs)))) as Hstep.
    { destruct cs. apply cs_gpu; [done|done|lia]. }
    eexists. split_and!; [|eapply rtc_once, (gs_step all_quiet s 1 cs); [done|exact Hstep]|].
    + rewrite fmap_insert. cbn. rewrite Hpay. unfold NvU32, wrap. by rewrite Zplus_mod_idemp_l.
    + intros o [_ ->] _. exists (d + 1). rewrite released_lookup. cbn. rewrite lookup_insert_eq. cbn. rewrite lookup_insert_eq. split; [done|lia].
Qed.

Definition ready_gpu : gmap gpu_id chan_sys := {[1%positive := ready_sys]}.

Lemma push_end_and_wait_done_witness :
  exists st w', uvm_push_end_and_wait ticking quiet_pushes 2 (1%positive, 1%positive) 8 false (world_of ready_gpu ∅) = Returns (st, w').
Proof.
  pose proof (gpu_ok ready_sys ready_reachable ltac:(vm_compute; reflexivity)) as Hok.
  destruct (push_end_and_wait_done quiet_pushes (fun _ => 0x10000) ticking NV_ERR_ECC_ERROR 2 0 ready_gpu (1%positive, 1%positive)
    ready_sys 1%positive ready_channel ready_push 8 false (world_of ready_gpu ∅) (fun _ => quiet_memory) Hok eq_refl)
    as (st & w' & done' & Hrun & _).
  - split; [exists ready_gpu; by split_and!|done|done].
  - by left.
  - reflexivity.
  - vm_compute. reflexivity.
  - vm_compute. reflexivity.
  - vm_compute. reflexivity.
  - lia.
  - by exists 2.
  - vm_compute. discriminate.
  - vm_compute. reflexivity.
  - apply ticking_system.
  - apply ticking_one_error.
  - cbn. lia.
  - by exists st, w'.
Defined.
