(* ===== verification/MmuTypes.v ===== *)
(** * GPU MMU: addresses, entry fields and the mode HAL

    The data that [uvm_mmu.c] and the per-generation MMU files share: physical
    addresses with their aperture ([uvm_hal_types.h]), memory barriers, the bit
    fields of page table entries ([uvm_push_macros.h] over [nvmisc.h]), page table
    allocations, and [uvm_mmu_mode_hal_t], the record of functions through which
    the page tree code sees one generation of the hardware ([uvm_mmu.h]).

    [hal_ok] is the interface between the two: what the page tree relies on.  It
    has a geometry part (the levels of the tree split the virtual address, tables
    are large enough for their entries), which [geometry_check] decides for a
    concrete HAL, and an encoding part: a page directory entry made by [make_pde]
    reads back, with the field layout of the hardware manuals, as the addresses
    of the tables it was made from.  [MmuMaxwell], [MmuPascal] and [MmuHopper]
    are the implementations. *)

From S2P Require Import Prelude PageMask.

(** ** Apertures, addresses, barriers (uvm_hal_types.h) *)
Inductive uvm_aperture_t :=
| UVM_APERTURE_PEER (id : Z)
| UVM_APERTURE_SYS
| UVM_APERTURE_VID
| UVM_APERTURE_DEFAULT.

#[export] Instance uvm_aperture_t_eq_dec : EqDecision uvm_aperture_t.
Proof. solve_decision. Defined.
#[export] Instance uvm_aperture_t_countable : Countable uvm_aperture_t.
Proof.
  refine (inj_countable'
    (fun a => match a with UVM_APERTURE_PEER i => inl i | UVM_APERTURE_SYS => inr 0%nat
                         | UVM_APERTURE_VID => inr 1%nat | UVM_APERTURE_DEFAULT => inr 2%nat end)
    (fun x => match x with inl i => UVM_APERTURE_PEER i | inr 0%nat => UVM_APERTURE_SYS
                         | inr 1%nat => UVM_APERTURE_VID | inr _ => UVM_APERTURE_DEFAULT end) _).
  by intros [].
Defined.

(** [UVM_APERTURE_PEER_0] to [UVM_APERTURE_PEER_7]. *)
Definition uvm_aperture_is_peer (a : uvm_aperture_t) : bool :=
  match a with UVM_APERTURE_PEER id => (0 <=? id) && (id <? 8) | _ => false end.

Definition UVM_APERTURE_PEER_ID (a : uvm_aperture_t) : option Z :=
  UVM_ASSERT uvm_aperture_is_peer a;
  match a with UVM_APERTURE_PEER id => Some id | _ => None end.

Record uvm_gpu_phys_address_t := phys_address { aperture : uvm_aperture_t; address : Z }.

#[export] Instance uvm_gpu_phys_address_t_eq_dec : EqDecision uvm_gpu_phys_address_t.
Proof. solve_decision. Defined.
#[export] Instance uvm_gpu_phys_address_t_countable : Countable uvm_gpu_phys_address_t.
Proof.
  refine (inj_countable' (fun p => (aperture p, address p)) (fun p => phys_address (fst p) (snd p)) _).
  by intros [].
Defined.

Definition is_sys (p : uvm_gpu_phys_address_t) : bool := bool_decide (aperture p = UVM_APERTURE_SYS).
Definition is_vid (p : uvm_gpu_phys_address_t) : bool := bool_decide (aperture p = UVM_APERTURE_VID).

Inductive uvm_membar_t := UVM_MEMBAR_NONE | UVM_MEMBAR_GPU | UVM_MEMBAR_SYS.

#[export] Instance uvm_membar_t_eq_dec : EqDecision uvm_membar_t.
Proof. solve_decision. Defined.

Definition membar_rank (m : uvm_membar_t) : Z :=
  match m with UVM_MEMBAR_NONE => 0 | UVM_MEMBAR_GPU => 1 | UVM_MEMBAR_SYS => 2 end.

Definition uvm_membar_max (m1 m2 : uvm_membar_t) : uvm_membar_t :=
  if membar_rank m1 <? membar_rank m2 then m2 else m1.

Inductive uvm_prot_t := UVM_PROT_NONE | UVM_PROT_READ_ONLY | UVM_PROT_READ_WRITE | UVM_PROT_READ_WRITE_ATOMIC.

#[export] Instance uvm_prot_t_eq_dec : EqDecision uvm_prot_t.
Proof. solve_decision. Defined.

(** ** Page sizes (nv_uvm_types.h, uvm_mmu.h); 64K and 2M are in [PageMask] *)
Definition UVM_PAGE_SIZE_AGNOSTIC : Z := 0.
Definition UVM_PAGE_SIZE_DEFAULT : Z := 0.
Definition UVM_PAGE_SIZE_4K : Z := 0x1000.
Definition UVM_PAGE_SIZE_128K : Z := 0x20000.
Definition UVM_PAGE_SIZE_512M : Z := 0x20000000.
Definition UVM_PAGE_SIZE_256G : Z := 0x4000000000.

(** [UVM_MMU_PTE_FLAGS_*] *)
Definition UVM_MMU_PTE_FLAGS_NONE : Z := 0.
Definition UVM_MMU_PTE_FLAGS_CACHED : Z := 1.
Definition UVM_MMU_PTE_FLAGS_ACCESS_COUNTERS_DISABLED : Z := 2.
Definition UVM_MMU_PTE_FLAGS_MASK : Z := 3.

Definition flag_set (flags f : Z) : bool := negb (Z.land flags f =? 0).
Definition flags_valid (flags : Z) : bool := Z.land flags (Z.ldiff NV_U64_MAX UVM_MMU_PTE_FLAGS_MASK) =? 0.

(** ** Bit fields

    The hardware manuals give a field as [high:low].  [DRF_*64] are the macros of
    [nvmisc.h] at 64 bits; a field of the second word of an entry (bits 64 and
    up) is shifted by its position modulo 64. *)
Record field := bits_field { f_high : Z; f_low : Z }.
Notation "h @@ l" := (bits_field h l) (at level 30).

Definition DRF_SHIFT64 (f : field) : Z := f_low f mod 64.
Definition DRF_MASK64 (f : field) : Z := Z.shiftr NV_U64_MAX (63 - f_high f mod 64 + f_low f mod 64).
Definition DRF_SHIFTMASK64 (f : field) : Z := NvU64 (Z.shiftl (DRF_MASK64 f) (DRF_SHIFT64 f)).
Definition DRF_NUM64 (f : field) (n : Z) : Z := NvU64 (Z.shiftl (Z.land n (DRF_MASK64 f)) (DRF_SHIFT64 f)).
Definition DRF_VAL64 (f : field) (v : Z) : Z := Z.land (Z.shiftr v (DRF_SHIFT64 f)) (DRF_MASK64 f).

(** [HWCONST64(d, r, f, c)] is [DRF_DEF64]: no mask. *)
Definition HWCONST64 (f : field) (c : Z) : Z := NvU64 (Z.shiftl c (DRF_SHIFT64 f)).
Definition HWVALUE64 (f : field) (v : Z) : option Z :=
  UVM_ASSERT v =? DRF_VAL64 f (DRF_NUM64 f v); Some (DRF_NUM64 f v).
Definition WRITE_HWCONST64 (v : Z) (f : field) (c : Z) : Z :=
  Z.lor (Z.ldiff v (DRF_SHIFTMASK64 f)) (HWCONST64 f c).
Definition HWMASK64 : field -> Z := DRF_MASK64.
Definition HWSIZE (f : field) : Z := f_high f - f_low f + 1.

Definition field_ok (f : field) : bool :=
  (0 <=? f_low f) && (f_low f <=? f_high f) && (f_low f / 64 =? f_high f / 64).
Definition field_sep (f g : field) : bool :=
  (DRF_SHIFT64 f + HWSIZE f <=? DRF_SHIFT64 g) || (DRF_SHIFT64 g + HWSIZE g <=? DRF_SHIFT64 f).
Definition fits (f : field) (n : Z) : Prop := 0 <= n < 2 ^ HWSIZE f.

Lemma field_ok_bounds f :
  field_ok f = true -> 0 <= DRF_SHIFT64 f /\ 0 < HWSIZE f /\ DRF_SHIFT64 f + HWSIZE f <= 64 /\
                       f_high f mod 64 = DRF_SHIFT64 f + HWSIZE f - 1.
Proof.
  unfold field_ok, DRF_SHIFT64, HWSIZE. rewrite !andb_true_iff, !Z.leb_le, Z.eqb_eq. intros [[? ?] Hd].
  pose proof (Z.div_mod (f_low f) 64). pose proof (Z.div_mod (f_high f) 64).
  pose proof (Z.mod_pos_bound (f_low f) 64). pose proof (Z.mod_pos_bound (f_high f) 64). lia.
Qed.

Lemma mask_ones f : field_ok f = true -> DRF_MASK64 f = Z.ones (HWSIZE f).
Proof.
  intros Hf. destruct (field_ok_bounds f Hf) as (H0 & H1 & H2 & H3). unfold DRF_MASK64. rewrite H3.
  fold (DRF_SHIFT64 f). replace NV_U64_MAX with (Z.ones 64) by done.
  apply Z.bits_inj'. intros i Hi. rewrite Z.shiftr_spec, !Z.testbit_ones by lia.
  destruct (0 <=? i) eqn:?, (0 <=? i + _) eqn:?, (i <? HWSIZE f) eqn:?, (i + _ <? 64) eqn:?; lia || done.
Qed.

Lemma num_spec f n i : field_ok f = true -> 0 <= i ->
  Z.testbit (DRF_NUM64 f n) i =
  (DRF_SHIFT64 f <=? i) && (i <? DRF_SHIFT64 f + HWSIZE f) && Z.testbit n (i - DRF_SHIFT64 f).
Proof.
  intros Hf Hi. destruct (field_ok_bounds f Hf) as (H0 & H1 & H2 & H3).
  unfold DRF_NUM64, NvU64, wrap. rewrite mask_ones by done.
  destruct (Z.ltb_spec i 64).
  - rewrite Z.mod_pow2_bits_low, Z.shiftl_spec by lia.
    destruct (Z.leb_spec (DRF_SHIFT64 f) i); simpl.
    + rewrite Z.land_spec, Z.testbit_ones by lia. replace (0 <=? i - DRF_SHIFT64 f) with true by lia. simpl.
      rewrite andb_comm. f_equal.
      destruct (Z.ltb_spec i (DRF_SHIFT64 f + HWSIZE f)), (Z.ltb_spec (i - DRF_SHIFT64 f) (HWSIZE f)); lia || done.
    + rewrite Z.testbit_neg_r by lia. done.
  - rewrite Z.mod_pow2_bits_high by lia. replace (i <? _) with false by lia. by rewrite andb_false_r.
Qed.

Lemma val_spec f v i : field_ok f = true -> 0 <= i ->
  Z.testbit (DRF_VAL64 f v) i = (i <? HWSIZE f) && Z.testbit v (i + DRF_SHIFT64 f).
Proof.
  intros Hf Hi. destruct (field_ok_bounds f Hf) as (H0 & H1 & H2 & H3).
  unfold DRF_VAL64. rewrite mask_ones, Z.land_spec, Z.shiftr_spec, Z.testbit_ones by (done || lia).
  replace (0 <=? i) with true by lia. simpl. by rewrite andb_comm.
Qed.

Lemma fits_high f n i : fits f n -> HWSIZE f <= i -> Z.testbit n i = false.
Proof.
  intros [H0 H1] Hi. destruct (Z.eq_dec n 0) as [->|]; [apply Z.bits_0|].
  apply Z.bits_above_log2; [lia|]. apply Z.log2_lt_pow2; [lia|].
  assert (0 <= HWSIZE f) by (destruct (Z.leb_spec 0 (HWSIZE f)); [lia|rewrite Z.pow_neg_r in H1; lia]).
  eapply Z.lt_le_trans; [exact H1|]. apply Z.pow_le_mono_r; lia.
Qed.

Lemma val_lor f a b : DRF_VAL64 f (Z.lor a b) = Z.lor (DRF_VAL64 f a) (DRF_VAL64 f b).
Proof. unfold DRF_VAL64. by rewrite Z.shiftr_lor, Z.land_lor_distr_l. Qed.

Lemma val_num_same f n : field_ok f = true -> fits f n -> DRF_VAL64 f (DRF_NUM64 f n) = n.
Proof.
  intros Hf Hn. destruct (field_ok_bounds f Hf) as (H0 & H1 & H2 & H3).
  apply Z.bits_inj'. intros i Hi. rewrite val_spec, num_spec by (done || lia).
  replace (DRF_SHIFT64 f <=? _) with true by lia.
  replace (i + DRF_SHIFT64 f <? DRF_SHIFT64 f + HWSIZE f) with (i <? HWSIZE f) 
    by (destruct (Z.ltb_spec i (HWSIZE f)), (Z.ltb_spec (i + DRF_SHIFT64 f) (DRF_SHIFT64 f + HWSIZE f)); lia || done).
  replace (i + _ - _) with i by lia. simpl.
  destruct (Z.ltb_spec i (HWSIZE f)); simpl; [done|]. symmetry. by eapply fits_high.
Qed.

Lemma val_num_other f g n :
  field_ok f = true -> field_ok g = true -> field_sep f g = true -> DRF_VAL64 f (DRF_NUM64 g n) = 0.
Proof.
  intros Hf Hg Hs. destruct (field_ok_bounds f Hf) as (? & ? & ? & _).
  apply Z.bits_inj'. intros i Hi. rewrite val_spec, num_spec, Z.bits_0 by (done || lia).
  unfold field_sep in Hs. apply orb_true_iff in Hs.
  destruct (i <? HWSIZE f) eqn:?, (DRF_SHIFT64 g <=? _) eqn:?, (_ <? DRF_SHIFT64 g + HWSIZE g) eqn:?; simpl; try done.
  rewrite !Z.leb_le in Hs. lia.
Qed.

Lemma HWVALUE64_fits f v : field_ok f = true -> fits f v -> HWVALUE64 f v = Some (DRF_NUM64 f v).
Proof. intros Hf Hv. unfold HWVALUE64. by rewrite val_num_same, Z.eqb_refl. Qed.

(** The value checked by [HWVALUE64] is the one that the field reads back. *)
Lemma HWVALUE64_val f v w : HWVALUE64 f v = Some w -> DRF_VAL64 f w = v.
Proof. unfold HWVALUE64. case_match eqn:E; [|done]. intros [= <-]. by apply Z.eqb_eq in E. Qed.

(** The halves of a dual entry. *)
Definition MMU_BIG : Z := 0.
Definition MMU_SMALL : Z := 1.

Lemma lookup_big {A} (x : A) l : (x :: l) !! Z.to_nat MMU_BIG = Some x.
Proof. done. Qed.
Lemma lookup_small {A} (x y : A) l : (x :: y :: l) !! Z.to_nat MMU_SMALL = Some y.
Proof. done. Qed.

(** ** Page table allocations and the HAL (uvm_mmu.h)

    The handle of an allocation (a [struct page] or a chunk) is identified by the
    physical address. *)
Record uvm_mmu_page_table_alloc_t := pt_alloc { pa_addr : uvm_gpu_phys_address_t; pa_size : Z }.

#[export] Instance uvm_mmu_page_table_alloc_t_eq_dec : EqDecision uvm_mmu_page_table_alloc_t.
Proof. solve_decision. Defined.

(** What [make_pde] reads of the directory it is given: its depth, and for each
    directory on the way up its depth and the index it has there. *)
Record dir_view := DirView { dv_depth : Z; dv_chain : list (Z * Z) }.

Record uvm_mmu_mode_hal_t := {
  make_pte : uvm_aperture_t -> Z -> uvm_prot_t -> Z -> option Z;
  make_sked_reflected_pte : option Z;
  make_sparse_pte : option Z;
  unmapped_pte : Z -> Z;
  poisoned_pte : option Z;
  make_pde : list (option uvm_mmu_page_table_alloc_t) -> dir_view -> Z -> option (list Z);
  entry_size : Z -> option Z;
  entries_per_index : Z -> option Z;
  entry_offset : Z -> Z -> option Z;
  index_bits : Z -> Z -> option Z;
  num_va_bits : Z;
  allocation_size : Z -> Z -> option Z;
  page_table_depth : Z -> option Z;
  page_sizes : Z
}.
#[export] Instance eta_mmu_mode_hal : Settable uvm_mmu_mode_hal_t := fun h =>
  Build_uvm_mmu_mode_hal_t (make_pte h) (make_sked_reflected_pte h) (make_sparse_pte h)
    (unmapped_pte h) (poisoned_pte h) (make_pde h) (entry_size h) (entries_per_index h) (entry_offset h)
    (index_bits h) (num_va_bits h) (allocation_size h) (page_table_depth h) (page_sizes h).

(** What the MMU reads in an entry of a directory: a large page, or for each half
    of the entry the table that it points to. *)
Inductive hw_entry :=
| HwPte
| HwPde (tables : list (option uvm_gpu_phys_address_t)).

(** The layout of directory entries: how they read, and how many bits of a
    physical address they hold. *)
Record hw_format := {
  hw_decode : Z -> list Z -> hw_entry;
  hw_phys_bits : uvm_aperture_t -> Z
}.

(** A half of an entry: the aperture field says whether and where it points. *)
Definition hw_half (ap vid sys : field) (shift : Z) (w : Z) : option uvm_gpu_phys_address_t :=
  let a := DRF_VAL64 ap w in
  if a =? 0 then None
  else if a =? 1 then Some (phys_address UVM_APERTURE_VID (Z.shiftl (DRF_VAL64 vid w) shift))
  else Some (phys_address UVM_APERTURE_SYS (Z.shiftl (DRF_VAL64 sys w) shift)).

(** The values of the HAL's functions where their assertions hold. *)
Definition hbits (h : uvm_mmu_mode_hal_t) (d ps : Z) : Z := default 0 (index_bits h d ps).
Definition hdepth (h : uvm_mmu_mode_hal_t) (ps : Z) : Z := default 0 (page_table_depth h ps).
Definition hper (h : uvm_mmu_mode_hal_t) (d : Z) : Z := default 0 (entries_per_index h d).
Definition hoffset (h : uvm_mmu_mode_hal_t) (d ps : Z) : Z := default 0 (entry_offset h d ps).
Definition hsize (h : uvm_mmu_mode_hal_t) (d : Z) : Z := default 0 (entry_size h d).
Definition halloc (h : uvm_mmu_mode_hal_t) (d ps : Z) : Z := default 0 (allocation_size h d ps).
Definition hmax (h : uvm_mmu_mode_hal_t) : Z := hdepth h UVM_PAGE_SIZE_AGNOSTIC.

Definition supported (h : uvm_mmu_mode_hal_t) (ps : Z) : bool :=
  is_power_of_2 ps && negb (Z.land ps (page_sizes h) =? 0).

(** The bits of a virtual address below the index of level [n - 1]. *)
Fixpoint va_shift (h : uvm_mmu_mode_hal_t) (ps : Z) (n : nat) : Z :=
  match n with
  | O => num_va_bits h
  | S m => va_shift h ps m - hbits h (Z.of_nat m) ps
  end.

(** A physical allocation that an entry can point to. *)
Definition pointable (F : hw_format) (a : uvm_mmu_page_table_alloc_t) : Prop :=
  (aperture (pa_addr a) = UVM_APERTURE_SYS \/ aperture (pa_addr a) = UVM_APERTURE_VID) /\
  0 <= address (pa_addr a) /\ address (pa_addr a) < 2 ^ hw_phys_bits F (aperture (pa_addr a)) /\
  address (pa_addr a) mod Z.min (pa_size a) 4096 = 0.

(** The tables of half [k] of an entry at depth [d] are those of a page size that
    is mapped below [d] through that half. *)
Definition half_of (h : uvm_mmu_mode_hal_t) (d k ps : Z) : Prop :=
  supported h ps = true /\ d < hdepth h ps /\ hoffset h d ps = k.

Definition view_ok (h : uvm_mmu_mode_hal_t) (v : dir_view) : Prop :=
  0 <= dv_depth v < hmax h /\ Forall (fun p => 0 <= fst p < dv_depth v) (dv_chain v).

(** Entry [k] of the argument of [make_pde] for a directory at depth [d]. *)
Definition child_ok (h : uvm_mmu_mode_hal_t) (F : hw_format) (d k : Z) (a : uvm_mmu_page_table_alloc_t) : Prop :=
  pointable F a /\ exists ps, half_of h d k ps /\ pa_size a = halloc h (d + 1) ps.

Definition addrs_of (allocs : list (option uvm_mmu_page_table_alloc_t)) : list (option uvm_gpu_phys_address_t) :=
  map (option_map pa_addr) allocs.

Definition encoding_ok (h : uvm_mmu_mode_hal_t) (F : hw_format) : Prop :=
  forall v i allocs, view_ok h v -> 0 <= i < 2 ^ hbits h (dv_depth v) UVM_PAGE_SIZE_AGNOSTIC ->
    (Z.to_nat (hper h (dv_depth v)) <= length allocs)%nat ->
    (forall k a, allocs !! k = Some (Some a) -> child_ok h F (dv_depth v) (Z.of_nat k) a) ->
    exists ws, make_pde h allocs v i = Some ws /\ 8 * Z.of_nat (length ws) = hsize h (dv_depth v) /\
      hw_decode F (dv_depth v) ws = HwPde (addrs_of (take (Z.to_nat (hper h (dv_depth v))) allocs)).

(** ** What the page tree relies on *)
Class hal_ok (h : uvm_mmu_mode_hal_t) (F : hw_format) : Prop := {
  ok_va : 0 <= num_va_bits h < 64;
  ok_max : page_table_depth h UVM_PAGE_SIZE_AGNOSTIC = Some (hmax h) /\ 0 < hmax h <= 5;
  ok_depth ps : supported h ps = true -> page_table_depth h ps = Some (hdepth h ps) /\ 0 < hdepth h ps <= hmax h;
  (** the levels of the tree use up the virtual address down to the page offset *)
  ok_shift ps : supported h ps = true -> va_shift h ps (S (Z.to_nat (hdepth h ps))) = Z.log2 ps;
  ok_bits ps d : supported h ps = true -> 0 <= d <= hdepth h ps ->
    index_bits h d ps = Some (hbits h d ps) /\ 0 <= hbits h d ps <= 16;
  (** above the leaves the index does not depend on the page size *)
  ok_bits_any ps d : supported h ps = true -> 0 <= d <= hdepth h ps -> d < hmax h ->
    index_bits h d UVM_PAGE_SIZE_AGNOSTIC = Some (hbits h d ps);
  (** a leaf table has entries of one page size *)
  ok_leaf ps ps' : half_of h (hmax h - 1) (hoffset h (hmax h - 1) ps') ps ->
    half_of h (hmax h - 1) (hoffset h (hmax h - 1) ps') ps' -> ps = ps';
  (** and the size of the table says which *)
  ok_leaf_alloc ps ps' : supported h ps = true -> supported h ps' = true -> hdepth h ps = hmax h -> hdepth h ps' = hmax h ->
    halloc h (hmax h) ps = halloc h (hmax h) ps' -> ps = ps';
  (** only the entries above the leaves have two halves *)
  ok_halves d : 0 <= d < hmax h - 1 -> hper h d = 1;
  ok_per d : 0 <= d <= hmax h -> entries_per_index h d = Some (hper h d) /\ 1 <= hper h d <= 2;
  ok_offset ps d : supported h ps = true -> 0 <= d <= hdepth h ps ->
    entry_offset h d ps = Some (hoffset h d ps) /\ 0 <= hoffset h d ps < hper h d;
  ok_size d : 0 <= d <= hmax h -> entry_size h d = Some (hsize h d) /\ (hsize h d = 8 \/ hsize h d = 16);
  (** a table is large enough for its entries *)
  ok_alloc ps d : supported h ps = true -> 0 <= d <= hdepth h ps ->
    allocation_size h d ps = Some (halloc h d ps) /\ hsize h d * 2 ^ hbits h d ps <= halloc h d ps /\
    (halloc h d ps mod 256 = 0);
  (** a directory of more than 512 entries has short entries that are no pages *)
  ok_wide ps d : supported h ps = true -> 0 <= d <= hdepth h ps -> d < hmax h -> 9 < hbits h d ps ->
    hsize h d = 8 /\ d < hdepth h ps;
  ok_root : allocation_size h 0 UVM_PAGE_SIZE_AGNOSTIC = Some (halloc h 0 UVM_PAGE_SIZE_AGNOSTIC) /\
    index_bits h 0 UVM_PAGE_SIZE_AGNOSTIC = Some (hbits h 0 UVM_PAGE_SIZE_AGNOSTIC) /\
    hsize h 0 * 2 ^ hbits h 0 UVM_PAGE_SIZE_AGNOSTIC <= halloc h 0 UVM_PAGE_SIZE_AGNOSTIC /\
    halloc h 0 UVM_PAGE_SIZE_AGNOSTIC mod 256 = 0 /\ 0 <= hbits h 0 UVM_PAGE_SIZE_AGNOSTIC <= 16 /\
    (9 < hbits h 0 UVM_PAGE_SIZE_AGNOSTIC -> hsize h 0 = 8);
  (** an entry reads back as the tables that it was made from *)
  ok_pde : encoding_ok h F
}.

(** The geometry is a computation over the page sizes and the depths. *)
Definition depths (n : Z) : list Z := seqZ 0 (n + 1).
Definition some_is {A} (o : option A) (f : A -> bool) : bool := match o with Some a => f a | None => false end.

Definition geometry_check (h : uvm_mmu_mode_hal_t) (sizes : list Z) : bool :=
  let agnostic := UVM_PAGE_SIZE_AGNOSTIC in
  (0 <=? num_va_bits h) && (num_va_bits h <? 64) &&
  some_is (page_table_depth h agnostic) (fun n => (0 <? n) && (n <=? 5)) &&
  forallb is_power_of_2 sizes && (page_sizes h =? foldr Z.lor 0 sizes) &&
  forallb (fun d => some_is (entries_per_index h d) (fun n => (1 <=? n) && (n <=? 2)) &&
                    some_is (entry_size h d) (fun n => (n =? 8) || (n =? 16)) &&
                    ((hmax h - 1 <=? d) || (hper h d =? 1))) (depths (hmax h)) &&
  some_is (allocation_size h 0 agnostic) (fun a => some_is (index_bits h 0 agnostic) (fun b =>
    (hsize h 0 * 2 ^ b <=? a) && (a mod 256 =? 0) && (0 <=? b) && (b <=? 16) && ((b <=? 9) || (hsize h 0 =? 8)))) &&
  forallb (fun ps =>
    some_is (page_table_depth h ps) (fun n => (0 <? n) && (n <=? hmax h)) &&
    (va_shift h ps (S (Z.to_nat (hdepth h ps))) =? Z.log2 ps) &&
    forallb (fun d =>
      some_is (index_bits h d ps) (fun b => (0 <=? b) && (b <=? 16)) &&
      ((hmax h <=? d) || bool_decide (index_bits h d agnostic = index_bits h d ps)) &&
      ((hmax h <=? d) || (hbits h d ps <=? 9) || ((hsize h d =? 8) && (d <? hdepth h ps))) &&
      some_is (entry_offset h d ps) (fun k => (0 <=? k) && (k <? hper h d)) &&
      some_is (allocation_size h d ps) (fun a => (hsize h d * 2 ^ hbits h d ps <=? a) && (a mod 256 =? 0)))
      (depths (hdepth h ps))) sizes &&
  forallb (fun ps => forallb (fun ps' =>
    negb (hdepth h ps =? hmax h) || negb (hdepth h ps' =? hmax h) || (ps =? ps') ||
    negb (hoffset h (hmax h - 1) ps =? hoffset h (hmax h - 1) ps') && negb (halloc h (hmax h) ps =? halloc h (hmax h) ps')) sizes) sizes.

Lemma some_is_true {A} (o : option A) f : some_is o f = true -> exists a, o = Some a /\ f a = true.
Proof. destruct o; [eauto|done]. Qed.

Lemma pow2_lor k sizes : forallb is_power_of_2 sizes = true -> 0 <= k ->
  Z.testbit (foldr Z.lor 0 sizes) k = true -> 2 ^ k ∈ sizes.
Proof.
  intros Hs Hk. induction sizes as [|sz l IH]; simpl in *; [by rewrite Z.bits_0|].
  apply andb_true_iff in Hs as [Hsz Hl]. rewrite Z.lor_spec, orb_true_iff. intros [H|H]; [|set_solver].
  unfold is_power_of_2 in Hsz. apply andb_true_iff in Hsz as [Hp He]. apply Z.eqb_eq in He. rewrite <- He in H.
  rewrite Z.pow2_bits_eqb in H by (apply Z.log2_nonneg). apply Z.eqb_eq in H. rewrite <- H, He. set_solver.
Qed.

Lemma supported_in h sizes ps : forallb is_power_of_2 sizes = true -> page_sizes h = foldr Z.lor 0 sizes ->
  supported h ps = true -> ps ∈ sizes.
Proof.
  intros Hs He. unfold supported, is_power_of_2. rewrite He, !andb_true_iff, negb_true_iff, Z.eqb_neq, Z.eqb_eq, Z.ltb_lt.
  intros [[Hp <-] Hl]. apply pow2_lor; [done|apply Z.log2_nonneg|].
  destruct (Z.testbit (foldr Z.lor 0 sizes) (Z.log2 ps)) eqn:E; [done|]. exfalso. apply Hl.
  apply Z.bits_inj'. intros i Hi. rewrite Z.land_spec, Z.bits_0, Z.pow2_bits_eqb by (apply Z.log2_nonneg).
  destruct (Z.eqb_spec (Z.log2 ps) i); simpl; [by subst|done].
Qed.

Lemma in_depths d n : 0 <= d <= n -> d ∈ depths n.
Proof. intros. unfold depths. apply elem_of_seqZ. lia. Qed.

Lemma forallb_in {A} (f : A -> bool) l x : forallb f l = true -> x ∈ l -> f x = true.
Proof. rewrite forallb_forall. intros H Hx. apply H. by apply list_elem_of_In. Qed.

(** [gfact H] takes a check that holds apart into facts. *)
Ltac gfact H :=
  repeat match type of H with
  | _ && _ = true => let H1 := fresh "G" in apply andb_true_iff in H as [H1 H]; gfact H1
  | some_is _ _ = true => let a := fresh "a" in let E := fresh "E" in
      apply some_is_true in H as (a & E & H); cbv beta in H
  | (_ <=? _) = true => apply Z.leb_le in H
  | (_ <? _) = true => apply Z.ltb_lt in H
  | (_ =? _) = true => apply Z.eqb_eq in H
  | bool_decide _ = true => apply bool_decide_eq_true in H
  end.

Section check.
Context (h : uvm_mmu_mode_hal_t) (F : hw_format) (sizes : list Z).
Hypothesis Hcheck : geometry_check h sizes = true.

Lemma check_sizes ps : supported h ps = true -> ps ∈ sizes.
Proof. pose proof Hcheck as H. unfold geometry_check in H. gfact H. by apply supported_in. Qed.

Lemma check_depth d : 0 <= d <= hmax h ->
  (entries_per_index h d = Some (hper h d) /\ 1 <= hper h d <= 2) /\
  (entry_size h d = Some (hsize h d) /\ (hsize h d = 8 \/ hsize h d = 16)) /\ (d < hmax h - 1 -> hper h d = 1).
Proof.
  intros Hd. pose proof Hcheck as H. unfold geometry_check in H. gfact H.
  match goal with G : forallb _ (depths (hmax h)) = true |- _ =>
    pose proof (forallb_in _ _ _ G (in_depths _ _ Hd)) as K end. cbv beta in K. gfact K.
  rewrite orb_true_iff, Z.leb_le, Z.eqb_eq in K. clear G G0 G1 H. unfold hper, hsize in *.
  repeat match goal with E : _ h d = Some _ |- _ => rewrite E in *; clear E end. simpl in *.
  match goal with O : _ || (_ =? 16) = true |- _ => rewrite orb_true_iff, !Z.eqb_eq in O end. split_and!; try done. lia.
Qed.

Lemma check_page ps : supported h ps = true ->
  (page_table_depth h ps = Some (hdepth h ps) /\ 0 < hdepth h ps <= hmax h) /\
  va_shift h ps (S (Z.to_nat (hdepth h ps))) = Z.log2 ps /\
  forall d, 0 <= d <= hdepth h ps ->
    (index_bits h d ps = Some (hbits h d ps) /\ 0 <= hbits h d ps <= 16) /\
    (d < hmax h -> index_bits h d UVM_PAGE_SIZE_AGNOSTIC = Some (hbits h d ps)) /\
    (d < hmax h -> 9 < hbits h d ps -> hsize h d = 8 /\ d < hdepth h ps) /\
    (entry_offset h d ps = Some (hoffset h d ps) /\ 0 <= hoffset h d ps < hper h d) /\
    (allocation_size h d ps = Some (halloc h d ps) /\ hsize h d * 2 ^ hbits h d ps <= halloc h d ps /\
     halloc h d ps mod 256 = 0).
Proof.
  intros Hps%check_sizes. pose proof Hcheck as H. unfold geometry_check in H. gfact H.
  match goal with G : forallb (fun ps => _ && _) sizes = true |- _ => pose proof (forallb_in _ _ _ G Hps) as K end.
  cbv beta in K. gfact K. split; [|split; [done|]].
  { unfold hdepth at 1 2. match goal with E : page_table_depth h ps = _ |- _ => rewrite E end. simpl.
    unfold hdepth. match goal with E : page_table_depth h ps = _ |- _ => rewrite E end. done. }
  intros d Hd. pose proof (forallb_in _ _ _ K (in_depths _ _ Hd)) as L. cbv beta in L. gfact L.
  unfold hbits, hoffset, halloc in *.
  repeat match goal with E : _ h d ps = Some _ |- _ => rewrite E in *; clear E end. simpl in *.
  split_and!; try done; intros Hlt.
  - match goal with O : _ || bool_decide _ = true |- _ => apply orb_true_iff in O as [O|O] end.
    + match goal with O : (_ <=? _) = true |- _ => apply Z.leb_le in O; lia end.
    + match goal with O : bool_decide _ = true |- _ => by apply bool_decide_eq_true in O end.
  - intros Hwide. match goal with O : _ || _ || _ = true |- _ => rewrite !orb_true_iff, andb_true_iff, !Z.leb_le, Z.eqb_eq, Z.ltb_lt in O; lia end.
Qed.

Lemma check_leaves ps ps' : supported h ps = true -> supported h ps' = true -> hdepth h ps = hmax h -> hdepth h ps' = hmax h ->
  ps = ps' \/ (hoffset h (hmax h - 1) ps <> hoffset h (hmax h - 1) ps' /\ halloc h (hmax h) ps <> halloc h (hmax h) ps').
Proof.
  intros Hs%check_sizes Hs'%check_sizes Hd Hd'. pose proof Hcheck as H. unfold geometry_check in H. gfact H.
  pose proof (forallb_in _ _ _ (forallb_in _ _ _ H Hs) Hs') as K. cbv beta in K. rewrite Hd, Hd', !Z.eqb_refl in K. simpl in K.
  rewrite orb_true_iff, andb_true_iff, !negb_true_iff, Z.eqb_eq, !Z.eqb_neq in K. done.
Qed.

Lemma check_leaf ps ps' : half_of h (hmax h - 1) (hoffset h (hmax h - 1) ps') ps ->
  half_of h (hmax h - 1) (hoffset h (hmax h - 1) ps') ps' -> ps = ps'.
Proof.
  intros (Hs & Hd & Ho) (Hs' & Hd' & _).
  destruct (check_page ps Hs) as [[_ D1] _], (check_page ps' Hs') as [[_ D2] _].
  destruct (check_leaves ps ps' Hs Hs') as [?|[? _]]; [lia|lia|done|congruence].
Qed.

(** The page tree's assumptions follow from the two checks. *)
Lemma check_hal_ok : encoding_ok h F -> hal_ok h F.
Proof.
  intros He. pose proof Hcheck as H. unfold geometry_check in H. gfact H. constructor; try done.
  - unfold hmax, hdepth. match goal with E : page_table_depth h _ = _ |- _ => by rewrite E end.
  - intros. by apply check_page.
  - intros. by apply check_page.
  - intros ps d Hs Hd. by apply (check_page ps Hs).
  - intros ps d Hs Hd. by apply (check_page ps Hs).
  - apply check_leaf.
  - intros ps ps' Hs Hs' Hd Hd' He'. destruct (check_leaves ps ps' Hs Hs' Hd Hd') as [?|[_ ?]]; done.
  - intros d Hd. apply (check_depth d); lia.
  - intros d Hd. by apply (check_depth d).
  - intros ps d Hs Hd. by apply (check_page ps Hs).
  - intros d Hd. by apply (check_depth d).
  - intros ps d Hs Hd. by apply (check_page ps Hs).
  - intros ps d Hs Hd. by apply (check_page ps Hs).
  - unfold halloc, hbits. repeat match goal with E : _ h 0 UVM_PAGE_SIZE_AGNOSTIC = Some _ |- _ => rewrite E; clear E end.
    simpl. split_and!; try done. intros Hw. match goal with O : (_ <=? 9) || _ = true |- _ =>
      rewrite orb_true_iff, Z.leb_le, Z.eqb_eq in O; lia end.
Qed.
End check.

(** ** Reading entries back *)
Definition fitsb (f : field) (n : Z) : bool := (0 <=? n) && (n <? 2 ^ HWSIZE f).
Lemma fitsb_fits f n : fitsb f n = true -> fits f n.
Proof. unfold fitsb, fits. lia. Qed.

Lemma const_num f c : field_ok f = true -> fitsb f c = true -> HWCONST64 f c = DRF_NUM64 f c.
Proof.
  intros Hf Hc%fitsb_fits. destruct (field_ok_bounds f Hf) as (? & ? & ? & _).
  unfold HWCONST64, DRF_NUM64. rewrite mask_ones, Z.land_ones by (done || lia). by rewrite Z.mod_small.
Qed.

Lemma fits_shiftr f a b sh : 0 <= sh -> 0 <= a < 2 ^ b -> b <= HWSIZE f + sh -> 0 <= HWSIZE f -> fits f (Z.shiftr a sh).
Proof.
  intros Hs Ha Hb Hw. unfold fits. rewrite Z.shiftr_div_pow2 by done. split; [apply Z.div_pos; lia|].
  apply Z.div_lt_upper_bound; [lia|]. rewrite <- Z.pow_add_r by lia.
  eapply Z.lt_le_trans; [apply Ha|]. apply Z.pow_le_mono_r; lia.
Qed.

(** The halves that a directory entry can point to, checked over the page sizes. *)
Definition half_align (h : uvm_mmu_mode_hal_t) (sizes : list Z) (d k sh : Z) : bool :=
  forallb (fun ps => (hdepth h ps <=? d) || negb (hoffset h d ps =? k) ||
                     (Z.min (halloc h (d + 1) ps) 4096 mod 2 ^ sh =? 0)) sizes.

Lemma child_aligned h F sizes d k a sh :
  geometry_check h sizes = true -> half_align h sizes d k sh = true -> 0 <= sh -> child_ok h F d k a ->
  Z.shiftl (Z.shiftr (address (pa_addr a)) sh) sh = address (pa_addr a).
Proof.
  intros Hg Ha Hsh [(_ & _ & _ & Hm) (ps & (Hs & Hd & Ho) & Hsz)].
  pose proof (forallb_in _ _ _ Ha (check_sizes h sizes Hg ps Hs)) as K. cbv beta in K.
  rewrite Ho, Z.eqb_refl in K. replace (hdepth h ps <=? d) with false in K by lia. simpl in K.
  apply Z.eqb_eq in K. rewrite Hsz in Hm.
  assert (0 < 2 ^ sh) by (by apply pow2_pos).
  rewrite Z.shiftr_div_pow2, Z.shiftl_mul_pow2 by done. symmetry. rewrite Z.mul_comm. apply Z_div_exact_full_2; [lia|].
  assert (Hz : Z.min (halloc h (d + 1) ps) 4096 <> 0 \/ Z.min (halloc h (d + 1) ps) 4096 = 0) by lia.
  destruct Hz as [Hz|Hz]; [|rewrite Hz, Zmod_0_r in Hm; rewrite Hm; by apply Z.mod_0_l; lia].
  apply Z.mod_divide in Hm; [|done]. apply Z.mod_divide in K; [|lia]. apply Z.mod_divide; [lia|]. by etransitivity.
Qed.

Lemma child_bound h F d k a : child_ok h F d k a ->
  0 <= address (pa_addr a) < 2 ^ hw_phys_bits F (aperture (pa_addr a)).
Proof. intros [(_ & ? & ? & _) _]. lia. Qed.

Lemma child_aperture h F d k a : child_ok h F d k a ->
  aperture (pa_addr a) = UVM_APERTURE_SYS \/ aperture (pa_addr a) = UVM_APERTURE_VID.
Proof. by intros [(? & _) _]. Qed.

(** [hw_fits] checks that a constant, or a bit chosen by a test, fits its field;
    [hw_consts] puts constant fields in the form of valued ones, and [hw_val]
    reads the fields of an entry. *)
Ltac hw_const := first [reflexivity | match goal with |- context [if ?b then _ else _] => destruct b; reflexivity end].
Ltac hw_fits := first [hw_const | assumption | apply fitsb_fits; hw_const].
Ltac hw_consts := repeat (rewrite const_num by hw_fits).
Ltac hw_val :=
  hw_consts; rewrite ?val_lor;
  repeat match goal with
  | |- context [DRF_VAL64 ?f (DRF_NUM64 ?g ?n)] =>
      first [ rewrite (val_num_other f g n) by reflexivity | rewrite (val_num_same f n) by hw_fits ]
  end;
  rewrite ?Z.lor_0_l, ?Z.lor_0_r.

(** A word that leaves a half empty does not change what the half reads. *)
Definition hw_blank (ap vid sys : field) (w : Z) : Prop :=
  DRF_VAL64 ap w = 0 /\ DRF_VAL64 vid w = 0 /\ DRF_VAL64 sys w = 0.

Lemma hw_half_lor_r ap vid sys sh w x : hw_blank ap vid sys x ->
  hw_half ap vid sys sh (Z.lor w x) = hw_half ap vid sys sh w.
Proof. intros (H1 & H2 & H3). unfold hw_half. by rewrite !val_lor, H1, H2, H3, !Z.lor_0_r. Qed.

Lemma hw_half_lor_l ap vid sys sh w x : hw_blank ap vid sys x ->
  hw_half ap vid sys sh (Z.lor x w) = hw_half ap vid sys sh w.
Proof. intros. by rewrite Z.lor_comm, hw_half_lor_r. Qed.

(** [hw_encode a shift] proves that the word made for the table [a] reads back
    as its address, from the facts about [a] in the context. *)
Ltac hw_encode := eexists; split; [reflexivity|]; unfold hw_half, hw_blank; split_and?; hw_val; try reflexivity.

(** What a half of an entry needs to know of its table: the address is a number
    of units of [2 ^ sh] that the field for its aperture can hold. *)
Definition table_fits (F : hw_format) (sh : Z) (o : option uvm_mmu_page_table_alloc_t) : Prop :=
  forall a, o = Some a ->
    (aperture (pa_addr a) = UVM_APERTURE_SYS \/ aperture (pa_addr a) = UVM_APERTURE_VID) /\
    0 <= Z.shiftr (address (pa_addr a)) sh < 2 ^ (hw_phys_bits F (aperture (pa_addr a)) - sh) /\
    Z.shiftl (Z.shiftr (address (pa_addr a)) sh) sh = address (pa_addr a).

Lemma child_fits h F sizes d k sh (allocs : list (option uvm_mmu_page_table_alloc_t)) i o :
  geometry_check h sizes = true -> half_align h sizes d k sh = true -> 0 <= sh ->
  (forall ap, sh <= hw_phys_bits F ap) ->
  (forall k a, allocs !! k = Some (Some a) -> child_ok h F d (Z.of_nat k) a) ->
  allocs !! i = Some o -> Z.of_nat i = k -> table_fits F sh o.
Proof.
  intros Hg Ha Hsh Hb Hc Hi <- a ->. specialize (Hc _ _ Hi). split; [exact (child_aperture _ _ _ _ _ Hc)|]. split.
  - pose proof (child_bound _ _ _ _ _ Hc). rewrite Z.shiftr_div_pow2 by done.
    assert (0 < 2 ^ sh) by (by apply pow2_pos). specialize (Hb (aperture (pa_addr a))).
    split; [apply Z.div_pos; lia|]. apply Z.div_lt_upper_bound; [lia|]. rewrite <- Z.pow_add_r by lia.
    replace (sh + _) with (hw_phys_bits F (aperture (pa_addr a))) by lia. lia.
  - exact (child_aligned h F sizes d _ a sh Hg Ha Hsh Hc).
Qed.

(** [table_cases o H] is the case analysis on the table of a half. *)
Ltac table_cases o H :=
  destruct o as [[[?ap ?addr] ?size]|]; [|by exists 0];
  let Ha := fresh "Ha" in let Hf := fresh "Hf" in let Hs := fresh "Hs" in
  destruct (H _ eq_refl) as ([Ha|Ha] & Hf & Hs); cbn [pa_addr aperture address] in *; rewrite Ha in *; clear Ha;
  match type of Hf with 0 <= _ < ?b => let c := eval vm_compute in b in change b with c in Hf end.
