(* ===== verification/MmuMaxwell.v ===== *)
(** * The MMU of Maxwell GPUs (uvm_maxwell_mmu.c)

    Two levels: one directory whose entries are single words with a big page half
    and a small page half, and tables of big (64K or 128K) or 4K pages.  The field
    positions are those of [hwref/maxwell/gm107/dev_mmu.h].  [maxwell_64_hal_ok]
    and [maxwell_128_hal_ok] are the interface of [MmuTypes] for the two modes. *)

From S2P Require Import Prelude PageMask MmuTypes.

(** ** Fields (dev_mmu.h) *)
Notation NV_MMU_PDE_APERTURE_BIG := (1 @@ 0).
Notation NV_MMU_PDE_SIZE := (3 @@ 2).
Notation NV_MMU_PDE_ADDRESS_BIG_SYS := (31 @@ 4).
Notation NV_MMU_PDE_ADDRESS_BIG_VID := (28 @@ 4).
Notation NV_MMU_PDE_APERTURE_SMALL := (33 @@ 32).
Notation NV_MMU_PDE_VOL_SMALL := (34 @@ 34).
Notation NV_MMU_PDE_VOL_BIG := (35 @@ 35).
Notation NV_MMU_PDE_ADDRESS_SMALL_SYS := (63 @@ 36).
Notation NV_MMU_PDE_ADDRESS_SMALL_VID := (60 @@ 36).
Notation NV_MMU_PDE_APERTURE_VIDEO_MEMORY := 1.
Notation NV_MMU_PDE_APERTURE_SYSTEM_COHERENT_MEMORY := 2.
Notation NV_MMU_PDE_ADDRESS_SHIFT := 12.

Notation NV_MMU_PTE_VALID := (0 @@ 0).
Notation NV_MMU_PTE_PRIVILEGE := (1 @@ 1).
Notation NV_MMU_PTE_READ_ONLY := (2 @@ 2).
Notation NV_MMU_PTE_ENCRYPTED := (3 @@ 3).
Notation NV_MMU_PTE_ADDRESS_SYS := (31 @@ 4).
Notation NV_MMU_PTE_ADDRESS_VID := (28 @@ 4).
Notation NV_MMU_PTE_ADDRESS_VID_PEER := (31 @@ 29).
Notation NV_MMU_PTE_VOL := (32 @@ 32).
Notation NV_MMU_PTE_APERTURE := (34 @@ 33).
Notation NV_MMU_PTE_LOCK := (35 @@ 35).
Notation NV_MMU_PTE_KIND := (43 @@ 36).
Notation NV_MMU_PTE_COMPTAGLINE := (60 @@ 44).
Notation NV_MMU_PTE_READ_DISABLE := (62 @@ 62).
Notation NV_MMU_PTE_WRITE_DISABLE := (63 @@ 63).
Notation NV_MMU_PTE_APERTURE_VIDEO_MEMORY := 0.
Notation NV_MMU_PTE_APERTURE_PEER_MEMORY := 1.
Notation NV_MMU_PTE_APERTURE_SYSTEM_COHERENT_MEMORY := 2.
Notation NV_MMU_PTE_ADDRESS_SHIFT := 12.
Notation NV_MMU_PTE_KIND_PITCH := 0.
Notation NV_MMU_PTE_KIND_SMSKED_MESSAGE := 0xca.

(** ** Levels *)
Definition entries_per_index_maxwell (depth : Z) : option Z :=
  UVM_ASSERT depth <? 2;
  Some (if depth =? 0 then 2 else 1).

Definition entry_offset_maxwell (depth page_size : Z) : option Z :=
  UVM_ASSERT depth <? 2;
  Some (if (page_size =? UVM_PAGE_SIZE_4K) && (depth =? 0) then MMU_SMALL else MMU_BIG).

Definition entry_size_maxwell (depth : Z) : option Z :=
  UVM_ASSERT depth <? 2;
  Some 8.

Definition index_bits_maxwell_64 (depth page_size : Z) : option Z :=
  UVM_ASSERT depth <? 2;
  UVM_ASSERT (page_size =? UVM_PAGE_SIZE_4K) || (page_size =? UVM_PAGE_SIZE_64K) ||
             ((depth =? 0) && (page_size =? UVM_PAGE_SIZE_AGNOSTIC));
  Some (if depth =? 0 then 14 else if page_size =? UVM_PAGE_SIZE_4K then 14 else 10).

Definition index_bits_maxwell_128 (depth page_size : Z) : option Z :=
  UVM_ASSERT depth <? 2;
  UVM_ASSERT (page_size =? UVM_PAGE_SIZE_4K) || (page_size =? UVM_PAGE_SIZE_128K) ||
             ((depth =? 0) && (page_size =? UVM_PAGE_SIZE_AGNOSTIC));
  Some (if depth =? 0 then 13 else if page_size =? UVM_PAGE_SIZE_4K then 15 else 10).

Definition num_va_bits_maxwell : Z := 40.

Definition allocation_size_maxwell_64 (depth page_size : Z) : option Z :=
  size ← entry_size_maxwell depth;
  bits ← index_bits_maxwell_64 depth page_size;
  Some (Z.shiftl size bits).

Definition allocation_size_maxwell_128 (depth page_size : Z) : option Z :=
  size ← entry_size_maxwell depth;
  bits ← index_bits_maxwell_128 depth page_size;
  Some (Z.shiftl size bits).

Definition page_table_depth_maxwell (page_size : Z) : option Z := Some 1.
Definition page_sizes_maxwell_128 : Z := Z.lor UVM_PAGE_SIZE_128K UVM_PAGE_SIZE_4K.
Definition page_sizes_maxwell_64 : Z := Z.lor UVM_PAGE_SIZE_64K UVM_PAGE_SIZE_4K.

(** ** Directory entries *)
Definition big_half_pde_maxwell (phys_alloc : option uvm_mmu_page_table_alloc_t) : option Z :=
  match phys_alloc with
  | None => Some 0
  | Some pa =>
      let address := Z.shiftr (address (pa_addr pa)) NV_MMU_PDE_ADDRESS_SHIFT in
      let pde_bits := HWCONST64 NV_MMU_PDE_VOL_BIG 1 in
      match aperture (pa_addr pa) with
      | UVM_APERTURE_SYS =>
          v ← HWVALUE64 NV_MMU_PDE_ADDRESS_BIG_SYS address;
          Some (Z.lor pde_bits (Z.lor (HWCONST64 NV_MMU_PDE_APERTURE_BIG NV_MMU_PDE_APERTURE_SYSTEM_COHERENT_MEMORY) v))
      | UVM_APERTURE_VID =>
          v ← HWVALUE64 NV_MMU_PDE_ADDRESS_BIG_VID address;
          Some (Z.lor pde_bits (Z.lor (HWCONST64 NV_MMU_PDE_APERTURE_BIG NV_MMU_PDE_APERTURE_VIDEO_MEMORY) v))
      | _ => None
      end
  end.

Definition small_half_pde_maxwell (phys_alloc : option uvm_mmu_page_table_alloc_t) : option Z :=
  match phys_alloc with
  | None => Some 0
  | Some pa =>
      let address := Z.shiftr (address (pa_addr pa)) NV_MMU_PDE_ADDRESS_SHIFT in
      let pde_bits := HWCONST64 NV_MMU_PDE_VOL_SMALL 1 in
      match aperture (pa_addr pa) with
      | UVM_APERTURE_SYS =>
          v ← HWVALUE64 NV_MMU_PDE_ADDRESS_SMALL_SYS address;
          Some (Z.lor pde_bits (Z.lor (HWCONST64 NV_MMU_PDE_APERTURE_SMALL NV_MMU_PDE_APERTURE_SYSTEM_COHERENT_MEMORY) v))
      | UVM_APERTURE_VID =>
          v ← HWVALUE64 NV_MMU_PDE_ADDRESS_SMALL_VID address;
          Some (Z.lor pde_bits (Z.lor (HWCONST64 NV_MMU_PDE_APERTURE_SMALL NV_MMU_PDE_APERTURE_VIDEO_MEMORY) v))
      | _ => None
      end
  end.

Definition make_pde_maxwell (phys_allocs : list (option uvm_mmu_page_table_alloc_t)) (dir : dir_view)
    (child_index : Z) : option (list Z) :=
  UVM_ASSERT dv_depth dir =? 0;
  big ← phys_allocs !! Z.to_nat MMU_BIG;
  small ← phys_allocs !! Z.to_nat MMU_SMALL;
  big_bits ← big_half_pde_maxwell big;
  small_bits ← small_half_pde_maxwell small;
  Some [Z.lor (HWCONST64 NV_MMU_PDE_SIZE 0) (Z.lor big_bits small_bits)].

(** ** Table entries *)
Definition unmapped_pte_maxwell (page_size : Z) : Z :=
  if page_size =? UVM_PAGE_SIZE_4K then 0
  else Z.lor (Z.lor (HWCONST64 NV_MMU_PTE_VALID 0) (HWCONST64 NV_MMU_PTE_PRIVILEGE 1)) (HWCONST64 NV_MMU_PTE_VOL 0).

Definition make_pte_maxwell (ap : uvm_aperture_t) (address : Z) (prot : uvm_prot_t) (flags : Z) : option Z :=
  UVM_ASSERT bool_decide (prot <> UVM_PROT_NONE);
  UVM_ASSERT flags_valid flags;
  let pte_bits := Z.lor (HWCONST64 NV_MMU_PTE_VALID 1) (HWCONST64 NV_MMU_PTE_PRIVILEGE 0) in
  let pte_bits := Z.lor pte_bits
    (HWCONST64 NV_MMU_PTE_READ_ONLY (if bool_decide (prot = UVM_PROT_READ_ONLY) then 1 else 0)) in
  let pte_bits := Z.lor pte_bits (HWCONST64 NV_MMU_PTE_ENCRYPTED 0) in
  let address := Z.shiftr address NV_MMU_PTE_ADDRESS_SHIFT in
  pte_bits ←
    (if bool_decide (ap = UVM_APERTURE_SYS) then
       v ← HWVALUE64 NV_MMU_PTE_ADDRESS_SYS address; Some (Z.lor pte_bits v)
     else
       v ← HWVALUE64 NV_MMU_PTE_ADDRESS_VID address;
       let pte_bits := Z.lor pte_bits v in
       if bool_decide (ap <> UVM_APERTURE_VID) then
         id ← UVM_APERTURE_PEER_ID ap;
         p ← HWVALUE64 NV_MMU_PTE_ADDRESS_VID_PEER id; Some (Z.lor pte_bits p)
       else Some pte_bits);
  let pte_bits := Z.lor pte_bits
    (HWCONST64 NV_MMU_PTE_VOL (if flag_set flags UVM_MMU_PTE_FLAGS_CACHED then 0 else 1)) in
  aperture_bits ←
    (match ap with
     | UVM_APERTURE_SYS => Some NV_MMU_PTE_APERTURE_SYSTEM_COHERENT_MEMORY
     | UVM_APERTURE_VID => Some NV_MMU_PTE_APERTURE_VIDEO_MEMORY
     | _ => if uvm_aperture_is_peer ap then Some NV_MMU_PTE_APERTURE_PEER_MEMORY else None
     end);
  a ← HWVALUE64 NV_MMU_PTE_APERTURE aperture_bits;
  let pte_bits := Z.lor pte_bits a in
  let pte_bits := Z.lor pte_bits (HWCONST64 NV_MMU_PTE_LOCK 0) in
  let pte_bits := Z.lor pte_bits (HWCONST64 NV_MMU_PTE_KIND NV_MMU_PTE_KIND_PITCH) in
  c ← HWVALUE64 NV_MMU_PTE_COMPTAGLINE 0;
  let pte_bits := Z.lor pte_bits c in
  let pte_bits := Z.lor pte_bits (HWCONST64 NV_MMU_PTE_READ_DISABLE 0) in
  Some (Z.lor pte_bits
    (HWCONST64 NV_MMU_PTE_WRITE_DISABLE (if bool_decide (prot = UVM_PROT_READ_ONLY) then 1 else 0))).

Definition make_sked_reflected_pte_maxwell : option Z :=
  Some (Z.lor (HWCONST64 NV_MMU_PTE_VALID 1) (HWCONST64 NV_MMU_PTE_KIND NV_MMU_PTE_KIND_SMSKED_MESSAGE)).

Definition poisoned_pte_maxwell : option Z :=
  pte_bits ← make_pte_maxwell UVM_APERTURE_VID 0x1bad000000 UVM_PROT_READ_ONLY UVM_MMU_PTE_FLAGS_NONE;
  Some (WRITE_HWCONST64 pte_bits NV_MMU_PTE_PRIVILEGE 1).

(** The assertion is [UVM_ASSERT_MSG(0, ...)]. *)
Definition make_sparse_pte_maxwell_unsupported : option Z :=
  UVM_ASSERT false;
  poisoned_pte_maxwell.

Definition maxwell_64_mmu_mode_hal : uvm_mmu_mode_hal_t := {|
  make_pte := make_pte_maxwell;
  make_sked_reflected_pte := make_sked_reflected_pte_maxwell;
  make_sparse_pte := make_sparse_pte_maxwell_unsupported;
  unmapped_pte := unmapped_pte_maxwell;
  poisoned_pte := poisoned_pte_maxwell;
  make_pde := make_pde_maxwell;
  entry_size := entry_size_maxwell;
  index_bits := index_bits_maxwell_64;
  entries_per_index := entries_per_index_maxwell;
  entry_offset := entry_offset_maxwell;
  num_va_bits := num_va_bits_maxwell;
  allocation_size := allocation_size_maxwell_64;
  page_table_depth := page_table_depth_maxwell;
  page_sizes := page_sizes_maxwell_64
|}.

Definition maxwell_128_mmu_mode_hal : uvm_mmu_mode_hal_t := {|
  make_pte := make_pte_maxwell;
  make_sked_reflected_pte := make_sked_reflected_pte_maxwell;
  make_sparse_pte := make_sparse_pte_maxwell_unsupported;
  unmapped_pte := unmapped_pte_maxwell;
  poisoned_pte := poisoned_pte_maxwell;
  make_pde := make_pde_maxwell;
  entry_size := entry_size_maxwell;
  index_bits := index_bits_maxwell_128;
  entries_per_index := entries_per_index_maxwell;
  entry_offset := entry_offset_maxwell;
  num_va_bits := num_va_bits_maxwell;
  allocation_size := allocation_size_maxwell_128;
  page_table_depth := page_table_depth_maxwell;
  page_sizes := page_sizes_maxwell_128
|}.

Definition uvm_hal_mmu_mode_maxwell (big_page_size : Z) : option (option uvm_mmu_mode_hal_t) :=
  UVM_ASSERT (big_page_size =? UVM_PAGE_SIZE_64K) || (big_page_size =? UVM_PAGE_SIZE_128K);
  Some (Some (if big_page_size =? UVM_PAGE_SIZE_64K then maxwell_64_mmu_mode_hal else maxwell_128_mmu_mode_hal)).

(** ** Reading directory entries *)
Definition maxwell_format : hw_format := {|
  hw_decode d ws :=
    match ws with
    | [w] => HwPde [hw_half NV_MMU_PDE_APERTURE_BIG NV_MMU_PDE_ADDRESS_BIG_VID NV_MMU_PDE_ADDRESS_BIG_SYS 12 w;
                    hw_half NV_MMU_PDE_APERTURE_SMALL NV_MMU_PDE_ADDRESS_SMALL_VID NV_MMU_PDE_ADDRESS_SMALL_SYS 12 w]
    | _ => HwPte
    end;
  hw_phys_bits ap := if bool_decide (ap = UVM_APERTURE_VID) then 37 else 40
|}.

Lemma big_half_maxwell_reads o : table_fits maxwell_format 12 o -> exists w, big_half_pde_maxwell o = Some w /\
  hw_half NV_MMU_PDE_APERTURE_BIG NV_MMU_PDE_ADDRESS_BIG_VID NV_MMU_PDE_ADDRESS_BIG_SYS 12 w = option_map pa_addr o /\
  hw_blank NV_MMU_PDE_APERTURE_SMALL NV_MMU_PDE_ADDRESS_SMALL_VID NV_MMU_PDE_ADDRESS_SMALL_SYS w.
Proof.
  intros H. table_cases o H; unfold big_half_pde_maxwell; cbn [pa_addr aperture address];
    rewrite HWVALUE64_fits by (done || exact Hf); hw_encode; cbn; by rewrite Hs.
Qed.

Lemma small_half_maxwell_reads o : table_fits maxwell_format 12 o -> exists w, small_half_pde_maxwell o = Some w /\
  hw_half NV_MMU_PDE_APERTURE_SMALL NV_MMU_PDE_ADDRESS_SMALL_VID NV_MMU_PDE_ADDRESS_SMALL_SYS 12 w = option_map pa_addr o /\
  hw_blank NV_MMU_PDE_APERTURE_BIG NV_MMU_PDE_ADDRESS_BIG_VID NV_MMU_PDE_ADDRESS_BIG_SYS w.
Proof.
  intros H. table_cases o H; unfold small_half_pde_maxwell; cbn [pa_addr aperture address];
    rewrite HWVALUE64_fits by (done || exact Hf); hw_encode; cbn; by rewrite Hs.
Qed.

Lemma maxwell_encoding h sizes :
  geometry_check h sizes = true -> half_align h sizes 0 0 12 = true -> half_align h sizes 0 1 12 = true ->
  make_pde h = make_pde_maxwell -> hmax h = 1 -> hper h 0 = 2 -> hsize h 0 = 8 -> encoding_ok h maxwell_format.
Proof.
  intros Hg Ha0 Ha1 Hm Hx Hp Hz v i allocs [Hv _] _ Hl Hc. rewrite Hm. assert (Hd : dv_depth v = 0) by lia.
  rewrite Hd in *. rewrite Hp in *. destruct allocs as [|o0 [|o1 l]]; [simpl in Hl; lia..|].
  assert (Hb : forall ap, 12 <= hw_phys_bits maxwell_format ap) by (intros ap; simpl; case_bool_decide; lia).
  destruct (big_half_maxwell_reads o0) as (w0 & E0 & R0 & B0).
  { exact (child_fits h _ sizes 0 0 12 _ 0 o0 Hg Ha0 ltac:(lia) Hb Hc eq_refl eq_refl). }
  destruct (small_half_maxwell_reads o1) as (w1 & E1 & R1 & B1).
  { exact (child_fits h _ sizes 0 1 12 _ 1 o1 Hg Ha1 ltac:(lia) Hb Hc eq_refl eq_refl). }
  unfold make_pde_maxwell. rewrite Hd, lookup_big, lookup_small. cbn [Z.eqb mbind option_bind].
  rewrite E0. cbn [mbind option_bind]. rewrite E1. cbn [mbind option_bind]. eexists. split; [reflexivity|]. rewrite Hz.
  split; [done|]. cbn [hw_decode maxwell_format]. replace (HWCONST64 NV_MMU_PDE_SIZE 0) with 0 by reflexivity. rewrite Z.lor_0_l.
  rewrite hw_half_lor_r by done. rewrite hw_half_lor_l by done. by rewrite R0, R1.
Qed.

#[export] Instance maxwell_64_hal_ok : hal_ok maxwell_64_mmu_mode_hal maxwell_format.
Proof.
  apply (check_hal_ok _ _ [UVM_PAGE_SIZE_4K; UVM_PAGE_SIZE_64K]); [by vm_compute|].
  by apply (maxwell_encoding _ [UVM_PAGE_SIZE_4K; UVM_PAGE_SIZE_64K]).
Qed.

#[export] Instance maxwell_128_hal_ok : hal_ok maxwell_128_mmu_mode_hal maxwell_format.
Proof.
  apply (check_hal_ok _ _ [UVM_PAGE_SIZE_4K; UVM_PAGE_SIZE_128K]); [by vm_compute|].
  by apply (maxwell_encoding _ [UVM_PAGE_SIZE_4K; UVM_PAGE_SIZE_128K]).
Qed.
