(* ===== verification/MmuPascal.v ===== *)
(** * The MMU of Pascal, Volta, Turing and Ampere GPUs

    Five levels ([uvm_pascal_mmu.c]): three directories of single-word entries, a
    directory of two-word dual entries (each is a 64K half and a 4K half, or a 2M
    page), and tables of 64K or 4K pages.  Volta and Turing replace some of
    the functions ([uvm_volta_mmu.c], [uvm_turing_mmu.c]), Ampere adds 512M pages
    ([uvm_ampere_mmu.c]).  The field positions are those of version 2 of the entry
    format in [hwref/pascal/gp100/dev_mmu.h]. *)

From S2P Require Import Prelude PageMask MmuTypes.

(** ** Fields (dev_mmu.h) *)
Notation NV_MMU_VER2_PDE_IS_PDE := (0 @@ 0).
Notation NV_MMU_VER2_PDE_APERTURE := (2 @@ 1).
Notation NV_MMU_VER2_PDE_VOL := (3 @@ 3).
Notation NV_MMU_VER2_PDE_NO_ATS := (5 @@ 5).
Notation NV_MMU_VER2_PDE_ADDRESS_SYS := (53 @@ 8).
Notation NV_MMU_VER2_PDE_ADDRESS_VID := (32 @@ 8).
Notation NV_MMU_VER2_DUAL_PDE_IS_PDE := (0 @@ 0).
Notation NV_MMU_VER2_DUAL_PDE_APERTURE_BIG := (2 @@ 1).
Notation NV_MMU_VER2_DUAL_PDE_VOL_BIG := (3 @@ 3).
Notation NV_MMU_VER2_DUAL_PDE_ADDRESS_BIG_SYS := (53 @@ 4).
Notation NV_MMU_VER2_DUAL_PDE_ADDRESS_BIG_VID := (32 @@ 4).
Notation NV_MMU_VER2_DUAL_PDE_APERTURE_SMALL := (66 @@ 65).
Notation NV_MMU_VER2_DUAL_PDE_VOL_SMALL := (67 @@ 67).
Notation NV_MMU_VER2_DUAL_PDE_ADDRESS_SMALL_SYS := (117 @@ 72).
Notation NV_MMU_VER2_DUAL_PDE_ADDRESS_SMALL_VID := (96 @@ 72).
Notation NV_MMU_VER2_PDE_ADDRESS_SHIFT := 12.
Notation NV_MMU_VER2_DUAL_PDE_ADDRESS_SHIFT := 12.
Notation NV_MMU_VER2_DUAL_PDE_ADDRESS_BIG_SHIFT := 8.
Notation NV_MMU_VER2_PDE_APERTURE_VIDEO_MEMORY := 1.
Notation NV_MMU_VER2_PDE_APERTURE_SYSTEM_COHERENT_MEMORY := 2.

Notation NV_MMU_VER2_PTE_VALID := (0 @@ 0).
Notation NV_MMU_VER2_PTE_APERTURE := (2 @@ 1).
Notation NV_MMU_VER2_PTE_VOL := (3 @@ 3).
Notation NV_MMU_VER2_PTE_ENCRYPTED := (4 @@ 4).
Notation NV_MMU_VER2_PTE_PRIVILEGE := (5 @@ 5).
Notation NV_MMU_VER2_PTE_READ_ONLY := (6 @@ 6).
Notation NV_MMU_VER2_PTE_ATOMIC_DISABLE := (7 @@ 7).
Notation NV_MMU_VER2_PTE_ADDRESS_SYS := (53 @@ 8).
Notation NV_MMU_VER2_PTE_ADDRESS_VID := (32 @@ 8).
Notation NV_MMU_VER2_PTE_ADDRESS_VID_PEER := (35 @@ 33).
Notation NV_MMU_VER2_PTE_COMPTAGLINE := (53 @@ 36).
Notation NV_MMU_VER2_PTE_COMPTAGLINE_TURING := (55 @@ 36).
Notation NV_MMU_VER2_PTE_KIND := (63 @@ 56).
Notation NV_MMU_VER2_PTE_APERTURE_VIDEO_MEMORY := 0.
Notation NV_MMU_VER2_PTE_APERTURE_PEER_MEMORY := 1.
Notation NV_MMU_VER2_PTE_APERTURE_SYSTEM_COHERENT_MEMORY := 2.
Notation NV_MMU_VER2_PTE_ADDRESS_SHIFT := 12.
Notation NV_MMU_PTE_KIND_PITCH_VER2 := 0.
Notation NV_MMU_PTE_KIND_GENERIC_MEMORY_TURING := 0x06.
Notation NV_MMU_PTE_KIND_SMSKED_MESSAGE_PASCAL := 0xca.
Notation NV_MMU_PTE_KIND_SMSKED_MESSAGE_TURING := 0x0f.

(** ** Levels *)
Definition entries_per_index_pascal (depth : Z) : option Z :=
  UVM_ASSERT depth <? 5;
  Some (if depth =? 3 then 2 else 1).

Definition entry_offset_pascal (depth page_size : Z) : option Z :=
  UVM_ASSERT depth <? 5;
  Some (if (page_size =? UVM_PAGE_SIZE_4K) && (depth =? 3) then MMU_SMALL else MMU_BIG).

Definition entry_size_pascal (depth : Z) : option Z :=
  UVM_ASSERT depth <? 5;
  Some (if depth =? 3 then 16 else 8).

Definition bit_widths_pascal : list Z := [2; 9; 9; 8].

Definition index_bits_pascal (depth page_size : Z) : option Z :=
  UVM_ASSERT depth <? 5;
  if depth <? 4 then bit_widths_pascal !! Z.to_nat depth
  else if depth =? 4 then
    Some (if page_size =? UVM_PAGE_SIZE_4K then 9 else if page_size =? UVM_PAGE_SIZE_64K then 5 else 0)
  else Some 0.

Definition num_va_bits_pascal : Z := 49.

Definition allocation_size_pascal (depth page_size : Z) : option Z :=
  UVM_ASSERT depth <? 5;
  Some (if (depth =? 4) && (page_size =? UVM_PAGE_SIZE_64K) then 256 else 4096).

Definition page_table_depth_pascal (page_size : Z) : option Z :=
  Some (if page_size =? UVM_PAGE_SIZE_2M then 3 else 4).

Definition page_sizes_pascal : Z := Z.lor (Z.lor UVM_PAGE_SIZE_2M UVM_PAGE_SIZE_64K) UVM_PAGE_SIZE_4K.

Definition page_table_depth_ampere (page_size : Z) : option Z :=
  Some (if page_size =? UVM_PAGE_SIZE_2M then 3 else if page_size =? UVM_PAGE_SIZE_512M then 2 else 4).

Definition page_sizes_ampere : Z :=
  Z.lor (Z.lor (Z.lor UVM_PAGE_SIZE_512M UVM_PAGE_SIZE_2M) UVM_PAGE_SIZE_64K) UVM_PAGE_SIZE_4K.

(** ** Directory entries *)
Definition single_pde_pascal (phys_alloc : option uvm_mmu_page_table_alloc_t) : option Z :=
  match phys_alloc with
  | None => Some 0
  | Some pa =>
      let address := Z.shiftr (address (pa_addr pa)) NV_MMU_VER2_PDE_ADDRESS_SHIFT in
      let pde_bits := Z.lor (HWCONST64 NV_MMU_VER2_PDE_IS_PDE 0) (HWCONST64 NV_MMU_VER2_PDE_VOL 1) in
      match aperture (pa_addr pa) with
      | UVM_APERTURE_SYS =>
          v ← HWVALUE64 NV_MMU_VER2_PDE_ADDRESS_SYS address;
          Some (Z.lor pde_bits
            (Z.lor (HWCONST64 NV_MMU_VER2_PDE_APERTURE NV_MMU_VER2_PDE_APERTURE_SYSTEM_COHERENT_MEMORY) v))
      | UVM_APERTURE_VID =>
          v ← HWVALUE64 NV_MMU_VER2_PDE_ADDRESS_VID address;
          Some (Z.lor pde_bits (Z.lor (HWCONST64 NV_MMU_VER2_PDE_APERTURE NV_MMU_VER2_PDE_APERTURE_VIDEO_MEMORY) v))
      | _ => None
      end
  end.

Definition big_half_pde_pascal (phys_alloc : option uvm_mmu_page_table_alloc_t) : option Z :=
  match phys_alloc with
  | None => Some 0
  | Some pa =>
      let address := Z.shiftr (address (pa_addr pa)) NV_MMU_VER2_DUAL_PDE_ADDRESS_BIG_SHIFT in
      let pde_bits := HWCONST64 NV_MMU_VER2_DUAL_PDE_VOL_BIG 1 in
      match aperture (pa_addr pa) with
      | UVM_APERTURE_SYS =>
          v ← HWVALUE64 NV_MMU_VER2_DUAL_PDE_ADDRESS_BIG_SYS address;
          Some (Z.lor pde_bits
            (Z.lor (HWCONST64 NV_MMU_VER2_DUAL_PDE_APERTURE_BIG NV_MMU_VER2_PDE_APERTURE_SYSTEM_COHERENT_MEMORY) v))
      | UVM_APERTURE_VID =>
          v ← HWVALUE64 NV_MMU_VER2_DUAL_PDE_ADDRESS_BIG_VID address;
          Some (Z.lor pde_bits
            (Z.lor (HWCONST64 NV_MMU_VER2_DUAL_PDE_APERTURE_BIG NV_MMU_VER2_PDE_APERTURE_VIDEO_MEMORY) v))
      | _ => None
      end
  end.

Definition small_half_pde_pascal (phys_alloc : option uvm_mmu_page_table_alloc_t) : option Z :=
  match phys_alloc with
  | None => Some 0
  | Some pa =>
      let address := Z.shiftr (address (pa_addr pa)) NV_MMU_VER2_DUAL_PDE_ADDRESS_SHIFT in
      let pde_bits := HWCONST64 NV_MMU_VER2_DUAL_PDE_VOL_SMALL 1 in
      match aperture (pa_addr pa) with
      | UVM_APERTURE_SYS =>
          let pde_bits := Z.lor pde_bits
            (HWCONST64 NV_MMU_VER2_DUAL_PDE_APERTURE_SMALL NV_MMU_VER2_PDE_APERTURE_SYSTEM_COHERENT_MEMORY) in
          v ← HWVALUE64 NV_MMU_VER2_DUAL_PDE_ADDRESS_SMALL_SYS address;
          Some (Z.lor pde_bits v)
      | UVM_APERTURE_VID =>
          let pde_bits := Z.lor pde_bits
            (HWCONST64 NV_MMU_VER2_DUAL_PDE_APERTURE_SMALL NV_MMU_VER2_PDE_APERTURE_VIDEO_MEMORY) in
          v ← HWVALUE64 NV_MMU_VER2_DUAL_PDE_ADDRESS_SMALL_VID address;
          Some (Z.lor pde_bits v)
      | _ => None
      end
  end.

Definition make_pde_pascal (phys_allocs : list (option uvm_mmu_page_table_alloc_t)) (dir : dir_view)
    (child_index : Z) : option (list Z) :=
  entry_count ← entries_per_index_pascal (dv_depth dir);
  if entry_count =? 1 then
    first ← phys_allocs !! 0%nat;
    w ← single_pde_pascal first;
    Some [w]
  else if entry_count =? 2 then
    big ← phys_allocs !! Z.to_nat MMU_BIG;
    small ← phys_allocs !! Z.to_nat MMU_SMALL;
    big_bits ← big_half_pde_pascal big;
    small_bits ← small_half_pde_pascal small;
    Some [Z.lor big_bits (HWCONST64 NV_MMU_VER2_DUAL_PDE_IS_PDE 0); small_bits]
  else None.

(** Volta sets [NO_ATS] in PDE1 on systems with ATS. *)
Definition single_pde_volta (ats_enabled : bool) (phys_alloc : option uvm_mmu_page_table_alloc_t) (depth : Z) : option Z :=
  match phys_alloc with
  | None => Some 0
  | Some pa =>
      let address := Z.shiftr (address (pa_addr pa)) NV_MMU_VER2_PDE_ADDRESS_SHIFT in
      let pde_bits := Z.lor (HWCONST64 NV_MMU_VER2_PDE_IS_PDE 0) (HWCONST64 NV_MMU_VER2_PDE_VOL 1) in
      pde_bits ←
        match aperture (pa_addr pa) with
        | UVM_APERTURE_SYS =>
            v ← HWVALUE64 NV_MMU_VER2_PDE_ADDRESS_SYS address;
            Some (Z.lor pde_bits
              (Z.lor (HWCONST64 NV_MMU_VER2_PDE_APERTURE NV_MMU_VER2_PDE_APERTURE_SYSTEM_COHERENT_MEMORY) v))
        | UVM_APERTURE_VID =>
            v ← HWVALUE64 NV_MMU_VER2_PDE_ADDRESS_VID address;
            Some (Z.lor pde_bits (Z.lor (HWCONST64 NV_MMU_VER2_PDE_APERTURE NV_MMU_VER2_PDE_APERTURE_VIDEO_MEMORY) v))
        | _ => None
        end;
      Some (if (depth =? 2) && ats_enabled then Z.lor pde_bits (HWCONST64 NV_MMU_VER2_PDE_NO_ATS 1) else pde_bits)
  end.

(** The two halves are a direct copy of the Pascal ones. *)
Definition big_half_pde_volta : option uvm_mmu_page_table_alloc_t -> option Z := big_half_pde_pascal.
Definition small_half_pde_volta : option uvm_mmu_page_table_alloc_t -> option Z := small_half_pde_pascal.
Definition entries_per_index_volta : Z -> option Z := entries_per_index_pascal.

Definition make_pde_volta (ats_enabled : bool) (phys_allocs : list (option uvm_mmu_page_table_alloc_t))
    (dir : dir_view) (child_index : Z) : option (list Z) :=
  entry_count ← entries_per_index_volta (dv_depth dir);
  if entry_count =? 1 then
    first ← phys_allocs !! 0%nat;
    w ← single_pde_volta ats_enabled first (dv_depth dir);
    Some [w]
  else if entry_count =? 2 then
    big ← phys_allocs !! Z.to_nat MMU_BIG;
    small ← phys_allocs !! Z.to_nat MMU_SMALL;
    big_bits ← big_half_pde_volta big;
    small_bits ← small_half_pde_volta small;
    Some [Z.lor big_bits (HWCONST64 NV_MMU_VER2_DUAL_PDE_IS_PDE 0); small_bits]
  else None.

(** ** Table entries *)
Definition unmapped_pte_pascal (page_size : Z) : Z :=
  if negb (page_size =? UVM_PAGE_SIZE_64K) then 0
  else Z.lor (Z.lor (HWCONST64 NV_MMU_VER2_PTE_VALID 0) (HWCONST64 NV_MMU_VER2_PTE_VOL 0))
             (HWCONST64 NV_MMU_VER2_PTE_PRIVILEGE 1).

(** The common start of [make_pte_pascal], [make_pte_volta] and
    [make_pte_turing]: everything up to the address. *)
Definition ver2_pte_head (ap : uvm_aperture_t) (prot : uvm_prot_t) (flags : Z) : option Z :=
  UVM_ASSERT bool_decide (prot <> UVM_PROT_NONE);
  UVM_ASSERT flags_valid flags;
  let pte_bits := HWCONST64 NV_MMU_VER2_PTE_VALID 1 in
  aperture_bits ←
    (match ap with
     | UVM_APERTURE_SYS => Some NV_MMU_VER2_PTE_APERTURE_SYSTEM_COHERENT_MEMORY
     | UVM_APERTURE_VID => Some NV_MMU_VER2_PTE_APERTURE_VIDEO_MEMORY
     | _ => if uvm_aperture_is_peer ap then Some NV_MMU_VER2_PTE_APERTURE_PEER_MEMORY else None
     end);
  a ← HWVALUE64 NV_MMU_VER2_PTE_APERTURE aperture_bits;
  let pte_bits := Z.lor pte_bits a in
  let pte_bits := Z.lor pte_bits
    (HWCONST64 NV_MMU_VER2_PTE_VOL (if flag_set flags UVM_MMU_PTE_FLAGS_CACHED then 0 else 1)) in
  let pte_bits := Z.lor pte_bits (HWCONST64 NV_MMU_VER2_PTE_ENCRYPTED 0) in
  let pte_bits := Z.lor pte_bits (HWCONST64 NV_MMU_VER2_PTE_PRIVILEGE 0) in
  let pte_bits := Z.lor pte_bits
    (HWCONST64 NV_MMU_VER2_PTE_READ_ONLY (if bool_decide (prot = UVM_PROT_READ_ONLY) then 1 else 0)) in
  Some (Z.lor pte_bits
    (HWCONST64 NV_MMU_VER2_PTE_ATOMIC_DISABLE (if bool_decide (prot = UVM_PROT_READ_WRITE_ATOMIC) then 0 else 1))).

Definition make_pte_pascal (ap : uvm_aperture_t) (address : Z) (prot : uvm_prot_t) (flags : Z) : option Z :=
  pte_bits ← ver2_pte_head ap prot flags;
  let address := Z.shiftr address NV_MMU_VER2_PTE_ADDRESS_SHIFT in
  pte_bits ←
    (if bool_decide (ap = UVM_APERTURE_SYS) then
       v ← HWVALUE64 NV_MMU_VER2_PTE_ADDRESS_SYS address; Some (Z.lor pte_bits v)
     else
       v ← HWVALUE64 NV_MMU_VER2_PTE_ADDRESS_VID address;
       let pte_bits := Z.lor pte_bits v in
       pte_bits ←
         (if bool_decide (ap <> UVM_APERTURE_VID) then
            id ← UVM_APERTURE_PEER_ID ap;
            p ← HWVALUE64 NV_MMU_VER2_PTE_ADDRESS_VID_PEER id; Some (Z.lor pte_bits p)
          else Some pte_bits);
       c ← HWVALUE64 NV_MMU_VER2_PTE_COMPTAGLINE 0; Some (Z.lor pte_bits c));
  k ← HWVALUE64 NV_MMU_VER2_PTE_KIND NV_MMU_PTE_KIND_PITCH_VER2;
  Some (Z.lor pte_bits k).

(** The end of [make_pte_volta] and [make_pte_turing]: bits 46:37 of a video memory
    address go to the compression tag field. *)
Definition ver2_wide_pte (comptagline : field) (kind : Z) (ap : uvm_aperture_t) (address : Z) (pte_bits : Z) : option Z :=
  let address := Z.shiftr address NV_MMU_VER2_PTE_ADDRESS_SHIFT in
  pte_bits ←
    (if bool_decide (ap = UVM_APERTURE_SYS) then
       v ← HWVALUE64 NV_MMU_VER2_PTE_ADDRESS_SYS address; Some (Z.lor pte_bits v)
     else
       let addr_lo := Z.land address (HWMASK64 NV_MMU_VER2_PTE_ADDRESS_VID) in
       let addr_hi := Z.shiftr address (HWSIZE NV_MMU_VER2_PTE_ADDRESS_VID) in
       v ← HWVALUE64 NV_MMU_VER2_PTE_ADDRESS_VID addr_lo;
       let pte_bits := Z.lor pte_bits v in
       c ← HWVALUE64 comptagline addr_hi;
       let pte_bits := Z.lor pte_bits c in
       if bool_decide (ap <> UVM_APERTURE_VID) then
         id ← UVM_APERTURE_PEER_ID ap;
         p ← HWVALUE64 NV_MMU_VER2_PTE_ADDRESS_VID_PEER id; Some (Z.lor pte_bits p)
       else Some pte_bits);
  k ← HWVALUE64 NV_MMU_VER2_PTE_KIND kind;
  Some (Z.lor pte_bits k).

Definition make_pte_volta (ap : uvm_aperture_t) (address : Z) (prot : uvm_prot_t) (flags : Z) : option Z :=
  pte_bits ← ver2_pte_head ap prot flags;
  ver2_wide_pte NV_MMU_VER2_PTE_COMPTAGLINE NV_MMU_PTE_KIND_PITCH_VER2 ap address pte_bits.

Definition make_pte_turing (ap : uvm_aperture_t) (address : Z) (prot : uvm_prot_t) (flags : Z) : option Z :=
  pte_bits ← ver2_pte_head ap prot flags;
  ver2_wide_pte NV_MMU_VER2_PTE_COMPTAGLINE_TURING NV_MMU_PTE_KIND_GENERIC_MEMORY_TURING ap address pte_bits.

Definition make_sked_reflected_pte_pascal : option Z :=
  k ← HWVALUE64 NV_MMU_VER2_PTE_KIND NV_MMU_PTE_KIND_SMSKED_MESSAGE_PASCAL;
  Some (Z.lor (HWCONST64 NV_MMU_VER2_PTE_VALID 1) k).

Definition make_sked_reflected_pte_turing : option Z :=
  k ← HWVALUE64 NV_MMU_VER2_PTE_KIND NV_MMU_PTE_KIND_SMSKED_MESSAGE_TURING;
  Some (Z.lor (HWCONST64 NV_MMU_VER2_PTE_VALID 1) k).

Definition make_sparse_pte_pascal : option Z :=
  Some (Z.lor (HWCONST64 NV_MMU_VER2_PTE_VALID 0) (HWCONST64 NV_MMU_VER2_PTE_VOL 1)).

Definition poisoned_pte_pascal : option Z :=
  pte_bits ← make_pte_pascal UVM_APERTURE_VID 0x1bad000000 UVM_PROT_READ_ONLY UVM_MMU_PTE_FLAGS_NONE;
  Some (WRITE_HWCONST64 pte_bits NV_MMU_VER2_PTE_PRIVILEGE 1).

Definition poisoned_pte_turing : option Z :=
  pte_bits ← make_pte_turing UVM_APERTURE_VID 0x1bad000000 UVM_PROT_READ_ONLY UVM_MMU_PTE_FLAGS_NONE;
  Some (WRITE_HWCONST64 pte_bits NV_MMU_VER2_PTE_PRIVILEGE 1).

(** ** The HALs *)
Definition pascal_mmu_mode_hal : uvm_mmu_mode_hal_t := {|
  make_pte := make_pte_pascal;
  make_sked_reflected_pte := make_sked_reflected_pte_pascal;
  make_sparse_pte := make_sparse_pte_pascal;
  unmapped_pte := unmapped_pte_pascal;
  poisoned_pte := poisoned_pte_pascal;
  make_pde := make_pde_pascal;
  entry_size := entry_size_pascal;
  index_bits := index_bits_pascal;
  entries_per_index := entries_per_index_pascal;
  entry_offset := entry_offset_pascal;
  num_va_bits := num_va_bits_pascal;
  allocation_size := allocation_size_pascal;
  page_table_depth := page_table_depth_pascal;
  page_sizes := page_sizes_pascal
|}.

(** The mode functions: no 128K big pages from Pascal on.  [None] of the inner
    option is a NULL HAL. *)
Definition uvm_hal_mmu_mode_pascal (big_page_size : Z) : option (option uvm_mmu_mode_hal_t) :=
  UVM_ASSERT (big_page_size =? UVM_PAGE_SIZE_64K) || (big_page_size =? UVM_PAGE_SIZE_128K);
  if big_page_size =? UVM_PAGE_SIZE_128K then Some None else Some (Some pascal_mmu_mode_hal).

Definition uvm_hal_mmu_mode_volta (ats_enabled : bool) (big_page_size : Z) : option (option uvm_mmu_mode_hal_t) :=
  UVM_ASSERT (big_page_size =? UVM_PAGE_SIZE_64K) || (big_page_size =? UVM_PAGE_SIZE_128K);
  if big_page_size =? UVM_PAGE_SIZE_128K then Some None else
    pascal ← uvm_hal_mmu_mode_pascal big_page_size;
    hal ← pascal;
    Some (Some (hal <| make_pte := make_pte_volta |> <| make_pde := make_pde_volta ats_enabled |>)).

Definition uvm_hal_mmu_mode_turing (ats_enabled : bool) (big_page_size : Z) : option (option uvm_mmu_mode_hal_t) :=
  UVM_ASSERT (big_page_size =? UVM_PAGE_SIZE_64K) || (big_page_size =? UVM_PAGE_SIZE_128K);
  if big_page_size =? UVM_PAGE_SIZE_128K then Some None else
    volta ← uvm_hal_mmu_mode_volta ats_enabled big_page_size;
    hal ← volta;
    Some (Some (hal <| make_pte := make_pte_turing |>
                    <| make_sked_reflected_pte := make_sked_reflected_pte_turing |>
                    <| poisoned_pte := poisoned_pte_turing |>)).

Definition uvm_hal_mmu_mode_ampere (ats_enabled : bool) (big_page_size : Z) : option (option uvm_mmu_mode_hal_t) :=
  UVM_ASSERT (big_page_size =? UVM_PAGE_SIZE_64K) || (big_page_size =? UVM_PAGE_SIZE_128K);
  if big_page_size =? UVM_PAGE_SIZE_128K then Some None else
    turing ← uvm_hal_mmu_mode_turing ats_enabled big_page_size;
    hal ← turing;
    Some (Some (hal <| page_table_depth := page_table_depth_ampere |> <| page_sizes := page_sizes_ampere |>)).

(** ** Reading directory entries *)
Definition ver2_format : hw_format := {|
  hw_decode d ws :=
    match ws with
    | [w] =>
        if DRF_VAL64 NV_MMU_VER2_PDE_IS_PDE w =? 1 then HwPte
        else HwPde [hw_half NV_MMU_VER2_PDE_APERTURE NV_MMU_VER2_PDE_ADDRESS_VID NV_MMU_VER2_PDE_ADDRESS_SYS 12 w]
    | [big; small] =>
        if DRF_VAL64 NV_MMU_VER2_DUAL_PDE_IS_PDE big =? 1 then HwPte
        else HwPde [hw_half NV_MMU_VER2_DUAL_PDE_APERTURE_BIG NV_MMU_VER2_DUAL_PDE_ADDRESS_BIG_VID
                      NV_MMU_VER2_DUAL_PDE_ADDRESS_BIG_SYS 8 big;
                    hw_half NV_MMU_VER2_DUAL_PDE_APERTURE_SMALL NV_MMU_VER2_DUAL_PDE_ADDRESS_SMALL_VID
                      NV_MMU_VER2_DUAL_PDE_ADDRESS_SMALL_SYS 12 small]
    | _ => HwPte
    end;
  hw_phys_bits ap := if bool_decide (ap = UVM_APERTURE_VID) then 37 else 58
|}.

Definition ver2_single_reads (o : option uvm_mmu_page_table_alloc_t) (w : Z) : Prop :=
  DRF_VAL64 NV_MMU_VER2_PDE_IS_PDE w = 0 /\
  hw_half NV_MMU_VER2_PDE_APERTURE NV_MMU_VER2_PDE_ADDRESS_VID NV_MMU_VER2_PDE_ADDRESS_SYS 12 w = option_map pa_addr o.

Lemma single_pascal_reads o : table_fits ver2_format 12 o ->
  exists w, single_pde_pascal o = Some w /\ ver2_single_reads o w.
Proof.
  intros H. table_cases o H; unfold single_pde_pascal, ver2_single_reads; cbn [pa_addr aperture address];
    rewrite HWVALUE64_fits by (done || exact Hf); hw_encode; cbn; by rewrite Hs.
Qed.

Lemma single_volta_reads ats d o : table_fits ver2_format 12 o ->
  exists w, single_pde_volta ats o d = Some w /\ ver2_single_reads o w.
Proof.
  intros H. table_cases o H; unfold single_pde_volta, ver2_single_reads; cbn [pa_addr aperture address];
    rewrite HWVALUE64_fits by (done || exact Hf); cbn [mbind option_bind]; destruct ((d =? 2) && ats);
    hw_encode; cbn; by rewrite Hs.
Qed.

Lemma big_pascal_reads o : table_fits ver2_format 8 o -> exists w, big_half_pde_pascal o = Some w /\
  DRF_VAL64 NV_MMU_VER2_DUAL_PDE_IS_PDE w = 0 /\
  hw_half NV_MMU_VER2_DUAL_PDE_APERTURE_BIG NV_MMU_VER2_DUAL_PDE_ADDRESS_BIG_VID
    NV_MMU_VER2_DUAL_PDE_ADDRESS_BIG_SYS 8 w = option_map pa_addr o.
Proof.
  intros H. table_cases o H; unfold big_half_pde_pascal; cbn [pa_addr aperture address];
    rewrite HWVALUE64_fits by (done || exact Hf); hw_encode; cbn; by rewrite Hs.
Qed.

Lemma small_pascal_reads o : table_fits ver2_format 12 o -> exists w, small_half_pde_pascal o = Some w /\
  hw_half NV_MMU_VER2_DUAL_PDE_APERTURE_SMALL NV_MMU_VER2_DUAL_PDE_ADDRESS_SMALL_VID
    NV_MMU_VER2_DUAL_PDE_ADDRESS_SMALL_SYS 12 w = option_map pa_addr o.
Proof.
  intros H. table_cases o H; unfold small_half_pde_pascal; cbn [pa_addr aperture address];
    rewrite HWVALUE64_fits by (done || exact Hf); hw_encode; cbn; by rewrite Hs.
Qed.

Section encoding.
Context (h : uvm_mmu_mode_hal_t) (sizes : list Z) (single : option uvm_mmu_page_table_alloc_t -> Z -> option Z).
Hypothesis Hgeo : geometry_check h sizes = true.
Hypothesis Halign : forallb (fun d => half_align h sizes d 0 12) [0; 1; 2] = true.
Hypothesis Hbig : half_align h sizes 3 0 8 = true.
Hypothesis Hsmall : half_align h sizes 3 1 12 = true.
Hypothesis Hmax : hmax h = 4.
Hypothesis Hper : forall d, 0 <= d < 4 -> hper h d = if d =? 3 then 2 else 1.
Hypothesis Hsize : forall d, 0 <= d < 4 -> hsize h d = if d =? 3 then 16 else 8.
Hypothesis Hsingle : forall o d, table_fits ver2_format 12 o -> exists w, single o d = Some w /\ ver2_single_reads o w.
Hypothesis Hmake : forall allocs v i, 0 <= dv_depth v < 4 -> make_pde h allocs v i =
  if dv_depth v =? 3 then
    big ← allocs !! Z.to_nat MMU_BIG; small ← allocs !! Z.to_nat MMU_SMALL;
    b ← big_half_pde_pascal big; s ← small_half_pde_pascal small;
    Some [Z.lor b (HWCONST64 NV_MMU_VER2_DUAL_PDE_IS_PDE 0); s]
  else first ← allocs !! 0%nat; w ← single first (dv_depth v); Some [w].

Lemma ver2_encoding : encoding_ok h ver2_format.
Proof.
  intros v i allocs [Hv _] _ Hl Hc. rewrite Hmax in Hv. rewrite Hmake, Hsize by done. rewrite Hper in Hl |- * by done.
  assert (Hb : forall s ap, s <= 12 -> s <= hw_phys_bits ver2_format ap) by (intros s ap; simpl; case_bool_decide; lia).
  destruct (Z.eqb_spec (dv_depth v) 3) as [Hd|Hd].
  - rewrite Hd in *. destruct allocs as [|o0 [|o1 l]]; [simpl in Hl; lia..|].
    destruct (big_pascal_reads o0) as (w0 & E0 & I0 & R0).
    { exact (child_fits h _ sizes 3 0 8 _ 0 o0 Hgeo Hbig ltac:(lia) (fun ap => Hb 8 ap ltac:(lia)) Hc eq_refl eq_refl). }
    destruct (small_pascal_reads o1) as (w1 & E1 & R1).
    { exact (child_fits h _ sizes 3 1 12 _ 1 o1 Hgeo Hsmall ltac:(lia) (fun ap => Hb 12 ap ltac:(lia)) Hc eq_refl eq_refl). }
    rewrite lookup_big, lookup_small. cbn [mbind option_bind]. rewrite E0. cbn [mbind option_bind]. rewrite E1.
    cbn [mbind option_bind]. eexists. split; [reflexivity|]. split; [done|]. cbn [hw_decode ver2_format].
    replace (HWCONST64 (0 @@ 0) 0) with 0 by reflexivity. rewrite Z.lor_0_r, I0, R0, R1. done.
  - destruct allocs as [|o0 l]; [simpl in Hl; lia|].
    destruct (Hsingle o0 (dv_depth v)) as (w0 & E0 & I0 & R0).
    { refine (child_fits h _ sizes (dv_depth v) 0 12 _ 0 o0 Hgeo _ ltac:(lia) (fun ap => Hb 12 ap ltac:(lia)) Hc eq_refl eq_refl).
      apply (forallb_in _ _ (dv_depth v) Halign). rewrite !elem_of_cons. lia. }
    simpl. rewrite E0. eexists. split; [reflexivity|]. split; [done|]. cbn [hw_decode ver2_format]. by rewrite I0, R0.
Qed.
End encoding.

Lemma depth_cases (P : Z -> Prop) : P 0 -> P 1 -> P 2 -> P 3 -> forall d, 0 <= d < 4 -> P d.
Proof. intros ???? d Hd. assert (d = 0 \/ d = 1 \/ d = 2 \/ d = 3) as [->|[->|[->| ->]]] by lia; done. Qed.

Definition volta_mmu_mode_hal (ats_enabled : bool) : uvm_mmu_mode_hal_t :=
  pascal_mmu_mode_hal <| make_pte := make_pte_volta |> <| make_pde := make_pde_volta ats_enabled |>.
Definition turing_mmu_mode_hal (ats_enabled : bool) : uvm_mmu_mode_hal_t :=
  volta_mmu_mode_hal ats_enabled <| make_pte := make_pte_turing |>
    <| make_sked_reflected_pte := make_sked_reflected_pte_turing |> <| poisoned_pte := poisoned_pte_turing |>.
Definition ampere_mmu_mode_hal (ats_enabled : bool) : uvm_mmu_mode_hal_t :=
  turing_mmu_mode_hal ats_enabled <| page_table_depth := page_table_depth_ampere |> <| page_sizes := page_sizes_ampere |>.

Definition pascal_sizes : list Z := [UVM_PAGE_SIZE_4K; UVM_PAGE_SIZE_64K; UVM_PAGE_SIZE_2M].
Definition ampere_sizes : list Z := pascal_sizes ++ [UVM_PAGE_SIZE_512M].

(** [ver2_hal sizes single] proves the interface for a HAL of this family. *)
Ltac ver2_hal sizes single reads :=
  apply (check_hal_ok _ _ sizes); [vm_compute; reflexivity|];
  apply (ver2_encoding _ sizes single);
  [vm_compute; reflexivity..|apply depth_cases; reflexivity|apply depth_cases; reflexivity|intros; by apply reads|];
  intros allocs v i Hv; destruct v as [d chain]; cbn [dv_depth] in *; revert d Hv; apply depth_cases; reflexivity.

#[export] Instance pascal_hal_ok : hal_ok pascal_mmu_mode_hal ver2_format.
Proof. ver2_hal pascal_sizes (fun o (_ : Z) => single_pde_pascal o) single_pascal_reads. Qed.
#[export] Instance volta_hal_ok ats : hal_ok (volta_mmu_mode_hal ats) ver2_format.
Proof. ver2_hal pascal_sizes (single_pde_volta ats) single_volta_reads. Qed.
#[export] Instance turing_hal_ok ats : hal_ok (turing_mmu_mode_hal ats) ver2_format.
Proof. ver2_hal pascal_sizes (single_pde_volta ats) single_volta_reads. Qed.
#[export] Instance ampere_hal_ok ats : hal_ok (ampere_mmu_mode_hal ats) ver2_format.
Proof. ver2_hal ampere_sizes (single_pde_volta ats) single_volta_reads. Qed.
