(* ===== verification/MmuHopper.v ===== *)
(** * The MMU of Hopper and Blackwell GPUs

    Six levels ([uvm_hopper_mmu.c]): four directories of single-word entries, one of
    dual entries, and tables of 64K or 4K pages; 2M and 512M pages are entries of
    the last two directories.  On systems with ATS a directory entry, valid or
    not, says whether the MMU may look the address up through ATS, which depends on
    the address that the entry covers.  Blackwell adds 256G pages
    ([uvm_blackwell_mmu.c]).  The field positions are those of version 3 of the
    entry format in [hwref/hopper/gh100/dev_mmu.h]. *)

From S2P Require Import Prelude PageMask MmuTypes MmuPascal.

(** ** Fields (dev_mmu.h) *)
Notation NV_MMU_VER3_PDE_IS_PTE := (0 @@ 0).
Notation NV_MMU_VER3_PDE_APERTURE := (2 @@ 1).
Notation NV_MMU_VER3_PDE_PCF := (5 @@ 3).
Notation NV_MMU_VER3_PDE_ADDRESS := (51 @@ 12).
Notation NV_MMU_VER3_DUAL_PDE_IS_PTE := (0 @@ 0).
Notation NV_MMU_VER3_DUAL_PDE_APERTURE_BIG := (2 @@ 1).
Notation NV_MMU_VER3_DUAL_PDE_PCF_BIG := (5 @@ 3).
Notation NV_MMU_VER3_DUAL_PDE_ADDRESS_BIG := (51 @@ 8).
Notation NV_MMU_VER3_DUAL_PDE_APERTURE_SMALL := (66 @@ 65).
Notation NV_MMU_VER3_DUAL_PDE_PCF_SMALL := (69 @@ 67).
Notation NV_MMU_VER3_DUAL_PDE_ADDRESS_SMALL := (115 @@ 76).
Notation NV_MMU_VER3_PDE_ADDRESS_SHIFT := 12.
Notation NV_MMU_VER3_DUAL_PDE_ADDRESS_SHIFT := 12.
Notation NV_MMU_VER3_DUAL_PDE_ADDRESS_BIG_SHIFT := 8.
Notation NV_MMU_VER3_PDE_APERTURE_VIDEO_MEMORY := 1.
Notation NV_MMU_VER3_PDE_APERTURE_SYSTEM_COHERENT_MEMORY := 2.
Notation NV_MMU_VER3_PDE_PCF_INVALID_ATS_ALLOWED := 0.
Notation NV_MMU_VER3_PDE_PCF_VALID_UNCACHED_ATS_ALLOWED := 1.
Notation NV_MMU_VER3_PDE_PCF_INVALID_ATS_NOT_ALLOWED := 2.
Notation NV_MMU_VER3_PDE_PCF_VALID_UNCACHED_ATS_NOT_ALLOWED := 3.

Notation NV_MMU_VER3_PTE_VALID := (0 @@ 0).
Notation NV_MMU_VER3_PTE_APERTURE := (2 @@ 1).
Notation NV_MMU_VER3_PTE_PCF := (7 @@ 3).
Notation NV_MMU_VER3_PTE_KIND := (11 @@ 8).
Notation NV_MMU_VER3_PTE_ADDRESS := (51 @@ 12).
Notation NV_MMU_VER3_PTE_ADDRESS_VID := (39 @@ 12).
Notation NV_MMU_VER3_PTE_PEER_ID := (63 @@ 61).
Notation NV_MMU_VER3_PTE_APERTURE_VIDEO_MEMORY := 0.
Notation NV_MMU_VER3_PTE_APERTURE_PEER_MEMORY := 1.
Notation NV_MMU_VER3_PTE_APERTURE_SYSTEM_COHERENT_MEMORY := 2.
Notation NV_MMU_VER3_PTE_APERTURE_SYSTEM_NON_COHERENT_MEMORY := 3.
Notation NV_MMU_VER3_PTE_ADDRESS_SHIFT := 12.
Notation NV_MMU_VER3_PTE_PCF_SPARSE := 0x1.
Notation NV_MMU_VER3_PTE_PCF_NO_VALID_4KB_PAGE := 0x3.
Notation NV_MMU_VER3_PTE_PCF_REGULAR_RW_ATOMIC_CACHED_ACE := 0x0.
Notation NV_MMU_VER3_PTE_PCF_REGULAR_RW_ATOMIC_UNCACHED_ACE := 0x1.
Notation NV_MMU_VER3_PTE_PCF_REGULAR_RW_NO_ATOMIC_CACHED_ACE := 0x8.
Notation NV_MMU_VER3_PTE_PCF_REGULAR_RW_NO_ATOMIC_UNCACHED_ACE := 0x9.
Notation NV_MMU_VER3_PTE_PCF_REGULAR_RO_NO_ATOMIC_CACHED_ACE := 0xC.
Notation NV_MMU_VER3_PTE_PCF_REGULAR_RO_NO_ATOMIC_UNCACHED_ACE := 0xD.
Notation NV_MMU_VER3_PTE_PCF_REGULAR_RW_ATOMIC_CACHED_ACD := 0x10.
Notation NV_MMU_VER3_PTE_PCF_REGULAR_RW_ATOMIC_UNCACHED_ACD := 0x11.
Notation NV_MMU_VER3_PTE_PCF_REGULAR_RW_NO_ATOMIC_CACHED_ACD := 0x18.
Notation NV_MMU_VER3_PTE_PCF_REGULAR_RW_NO_ATOMIC_UNCACHED_ACD := 0x19.
Notation NV_MMU_VER3_PTE_PCF_REGULAR_RO_NO_ATOMIC_CACHED_ACD := 0x1C.
Notation NV_MMU_VER3_PTE_PCF_REGULAR_RO_NO_ATOMIC_UNCACHED_ACD := 0x1D.
Notation NV_MMU_VER3_PTE_PCF_PRIVILEGE_RO_NO_ATOMIC_UNCACHED_ACD := 0x1F.
Notation NV_MMU_PTE_KIND_GENERIC_MEMORY_HOPPER := 0x6.
Notation NV_MMU_PTE_KIND_SMSKED_MESSAGE_HOPPER := 0xF.

(** [g_uvm_global.ats.enabled], and the width of CPU virtual addresses
    ([uvm_cpu_num_va_bits()], from the kernel's TASK_SIZE). *)
Record mmu_system := { ats_enabled : bool; cpu_num_va_bits : Z }.

(** The unaddressable range of a virtual address space (uvm_common.h). *)
Definition uvm_get_unaddressable_range (num_va_bits : Z) : option (Z * Z) :=
  UVM_ASSERT num_va_bits <? 64;
  if 40 <? num_va_bits then
    Some (Z.shiftl 1 (num_va_bits - 1), NvU64 (Z.shiftr (sign 64 (Z.shiftl 1 63)) (64 - num_va_bits)))
  else Some (Z.shiftl 1 num_va_bits, NV_U64_MAX).

(** ** Levels *)
Definition page_table_depth_hopper (page_size : Z) : option Z :=
  if page_size =? UVM_PAGE_SIZE_2M then Some 4
  else if page_size =? UVM_PAGE_SIZE_512M then Some 3
  else
    UVM_ASSERT (page_size =? UVM_PAGE_SIZE_4K) || (page_size =? UVM_PAGE_SIZE_64K) || (page_size =? UVM_PAGE_SIZE_DEFAULT);
    Some 5.

Definition entries_per_index_hopper (depth : Z) : option Z :=
  UVM_ASSERT depth <? 6;
  Some (if depth =? 4 then 2 else 1).

Definition entry_offset_hopper (depth page_size : Z) : option Z :=
  UVM_ASSERT depth <? 6;
  Some (if (page_size =? UVM_PAGE_SIZE_4K) && (depth =? 4) then MMU_SMALL else MMU_BIG).

Definition entry_size_hopper (depth : Z) : option Z :=
  n ← entries_per_index_hopper depth; Some (n * 8).

Definition bit_widths_hopper : list Z := [1; 9; 9; 9; 8].

Definition index_bits_hopper (depth page_size : Z) : option Z :=
  UVM_ASSERT depth <? 6;
  if depth <? 5 then bit_widths_hopper !! Z.to_nat depth
  else if depth =? 5 then
    Some (if page_size =? UVM_PAGE_SIZE_4K then 9 else if page_size =? UVM_PAGE_SIZE_64K then 5 else 0)
  else Some 0.

Definition num_va_bits_hopper : Z := 57.

Definition allocation_size_hopper (depth page_size : Z) : option Z :=
  UVM_ASSERT depth <? 6;
  Some (if (depth =? 5) && (page_size =? UVM_PAGE_SIZE_64K) then 256 else 4096).

Definition page_table_depth_blackwell (page_size : Z) : option Z :=
  Some (if page_size =? UVM_PAGE_SIZE_2M then 4
        else if page_size =? UVM_PAGE_SIZE_512M then 3
        else if page_size =? UVM_PAGE_SIZE_256G then 2 else 5).

Definition page_sizes_blackwell : Z :=
  Z.lor (Z.lor (Z.lor (Z.lor UVM_PAGE_SIZE_256G UVM_PAGE_SIZE_512M) UVM_PAGE_SIZE_2M) UVM_PAGE_SIZE_64K) UVM_PAGE_SIZE_4K.

Definition page_sizes_blackwell_integrated : Z :=
  Z.lor (Z.lor UVM_PAGE_SIZE_2M UVM_PAGE_SIZE_64K) UVM_PAGE_SIZE_4K.

(** ** Directory entries *)
Inductive pde_type_t := PDE_TYPE_SINGLE | PDE_TYPE_DUAL_BIG | PDE_TYPE_DUAL_SMALL.

(** The two tables have the same codes in their three rows. *)
Definition valid_pcf (pde_type : pde_type_t) (ats_not_allowed : bool) : Z :=
  if ats_not_allowed then NV_MMU_VER3_PDE_PCF_VALID_UNCACHED_ATS_NOT_ALLOWED
  else NV_MMU_VER3_PDE_PCF_VALID_UNCACHED_ATS_ALLOWED.
Definition invalid_pcf (pde_type : pde_type_t) (ats_not_allowed : bool) : Z :=
  if ats_not_allowed then NV_MMU_VER3_PDE_PCF_INVALID_ATS_NOT_ALLOWED
  else NV_MMU_VER3_PDE_PCF_INVALID_ATS_ALLOWED.

Definition va_base : list Z := [56; 47; 38; 29; 21].

(** The walk up the directories: each adds its index at its level. *)
Fixpoint pde_base_va (acc : Z) (chain : list (Z * Z)) : option Z :=
  match chain with
  | [] => Some acc
  | (depth, index) :: up =>
      shift ← va_base !! Z.to_nat depth;
      pde_base_va (NvU64 (acc + index * Z.shiftl 1 shift)) up
  end.

Definition is_ats_range_valid (sys : mmu_system) (dir : dir_view) (child_index : Z) : option bool :=
  range ← uvm_get_unaddressable_range (cpu_num_va_bits sys);
  let '(max_va_lower, min_va_upper) := range in
  UVM_ASSERT dv_depth dir <? Z.of_nat (length va_base);
  bits ← index_bits_hopper (dv_depth dir) UVM_PAGE_SIZE_AGNOSTIC;
  UVM_ASSERT child_index <? Z.shiftl 1 bits;
  base ← pde_base_va 0 ((dv_depth dir, child_index) :: dv_chain dir);
  let base := NvU64 (Z.shiftr (sign 64 (NvU64 (Z.shiftl base (64 - num_va_bits_hopper)))) (64 - num_va_bits_hopper)) in
  Some ((base <? max_va_lower) || (min_va_upper <=? base)).

Definition pde_pcf (sys : mmu_system) (valid : bool) (pde_type : pde_type_t) (dir : dir_view) (child_index : Z) : option Z :=
  let pcf := if valid then valid_pcf else invalid_pcf in
  UVM_ASSERT dv_depth dir <? 5;
  if negb (ats_enabled sys) then Some (pcf pde_type false)
  else if dv_depth dir =? 0 then Some (pcf pde_type false)
  else if valid then Some (pcf pde_type true)
  else
    ok ← is_ats_range_valid sys dir child_index;
    Some (pcf pde_type (negb ok)).

Definition single_pde_hopper (sys : mmu_system) (phys_alloc : option uvm_mmu_page_table_alloc_t) (dir : dir_view)
    (child_index : Z) : option Z :=
  pde_bits ←
    match phys_alloc with
    | None => Some 0
    | Some pa =>
        let address := Z.shiftr (address (pa_addr pa)) NV_MMU_VER3_PDE_ADDRESS_SHIFT in
        let pde_bits := HWCONST64 NV_MMU_VER3_PDE_IS_PTE 0 in
        pde_bits ←
          match aperture (pa_addr pa) with
          | UVM_APERTURE_SYS =>
              Some (Z.lor pde_bits (HWCONST64 NV_MMU_VER3_PDE_APERTURE NV_MMU_VER3_PDE_APERTURE_SYSTEM_COHERENT_MEMORY))
          | UVM_APERTURE_VID =>
              Some (Z.lor pde_bits (HWCONST64 NV_MMU_VER3_PDE_APERTURE NV_MMU_VER3_PDE_APERTURE_VIDEO_MEMORY))
          | _ => None
          end;
        v ← HWVALUE64 NV_MMU_VER3_PDE_ADDRESS address;
        Some (Z.lor pde_bits v)
    end;
  code ← pde_pcf sys (bool_decide (is_Some phys_alloc)) PDE_TYPE_SINGLE dir child_index;
  p ← HWVALUE64 NV_MMU_VER3_PDE_PCF code;
  Some (Z.lor pde_bits p).

Definition big_half_pde_hopper (sys : mmu_system) (phys_alloc : option uvm_mmu_page_table_alloc_t) (dir : dir_view)
    (child_index : Z) : option Z :=
  pde_bits ←
    match phys_alloc with
    | None => Some 0
    | Some pa =>
        let address := Z.shiftr (address (pa_addr pa)) NV_MMU_VER3_DUAL_PDE_ADDRESS_BIG_SHIFT in
        pde_bits ←
          match aperture (pa_addr pa) with
          | UVM_APERTURE_SYS =>
              Some (HWCONST64 NV_MMU_VER3_DUAL_PDE_APERTURE_BIG NV_MMU_VER3_PDE_APERTURE_SYSTEM_COHERENT_MEMORY)
          | UVM_APERTURE_VID =>
              Some (HWCONST64 NV_MMU_VER3_DUAL_PDE_APERTURE_BIG NV_MMU_VER3_PDE_APERTURE_VIDEO_MEMORY)
          | _ => None
          end;
        v ← HWVALUE64 NV_MMU_VER3_DUAL_PDE_ADDRESS_BIG address;
        Some (Z.lor pde_bits v)
    end;
  code ← pde_pcf sys (bool_decide (is_Some phys_alloc)) PDE_TYPE_DUAL_BIG dir child_index;
  p ← HWVALUE64 NV_MMU_VER3_DUAL_PDE_PCF_BIG code;
  Some (Z.lor pde_bits p).

Definition small_half_pde_hopper (sys : mmu_system) (phys_alloc : option uvm_mmu_page_table_alloc_t) (dir : dir_view)
    (child_index : Z) : option Z :=
  pde_bits ←
    match phys_alloc with
    | None => Some 0
    | Some pa =>
        let address := Z.shiftr (address (pa_addr pa)) NV_MMU_VER3_DUAL_PDE_ADDRESS_SHIFT in
        pde_bits ←
          match aperture (pa_addr pa) with
          | UVM_APERTURE_SYS =>
              Some (HWCONST64 NV_MMU_VER3_DUAL_PDE_APERTURE_SMALL NV_MMU_VER3_PDE_APERTURE_SYSTEM_COHERENT_MEMORY)
          | UVM_APERTURE_VID =>
              Some (HWCONST64 NV_MMU_VER3_DUAL_PDE_APERTURE_SMALL NV_MMU_VER3_PDE_APERTURE_VIDEO_MEMORY)
          | _ => None
          end;
        v ← HWVALUE64 NV_MMU_VER3_DUAL_PDE_ADDRESS_SMALL address;
        Some (Z.lor pde_bits v)
    end;
  code ← pde_pcf sys (bool_decide (is_Some phys_alloc)) PDE_TYPE_DUAL_SMALL dir child_index;
  p ← HWVALUE64 NV_MMU_VER3_DUAL_PDE_PCF_SMALL code;
  Some (Z.lor pde_bits p).

Definition make_pde_hopper (sys : mmu_system) (phys_allocs : list (option uvm_mmu_page_table_alloc_t)) (dir : dir_view)
    (child_index : Z) : option (list Z) :=
  entry_count ← entries_per_index_hopper (dv_depth dir);
  if entry_count =? 1 then
    first ← phys_allocs !! 0%nat;
    w ← single_pde_hopper sys first dir child_index;
    Some [w]
  else if entry_count =? 2 then
    big ← phys_allocs !! Z.to_nat MMU_BIG;
    small ← phys_allocs !! Z.to_nat MMU_SMALL;
    big_bits ← big_half_pde_hopper sys big dir child_index;
    small_bits ← small_half_pde_hopper sys small dir child_index;
    Some [Z.lor big_bits (HWCONST64 NV_MMU_VER3_DUAL_PDE_IS_PTE 0); small_bits]
  else None.

(** ** Table entries *)
Definition pte_pcf (prot : uvm_prot_t) (flags : Z) : option Z :=
  let ac := negb (flag_set flags UVM_MMU_PTE_FLAGS_ACCESS_COUNTERS_DISABLED) in
  let cached := flag_set flags UVM_MMU_PTE_FLAGS_CACHED in
  UVM_ASSERT bool_decide (prot <> UVM_PROT_NONE);
  UVM_ASSERT flags_valid flags;
  if ac then
    match prot with
    | UVM_PROT_READ_ONLY =>
        Some (if cached then NV_MMU_VER3_PTE_PCF_REGULAR_RO_NO_ATOMIC_CACHED_ACE
              else NV_MMU_VER3_PTE_PCF_REGULAR_RO_NO_ATOMIC_UNCACHED_ACE)
    | UVM_PROT_READ_WRITE =>
        Some (if cached then NV_MMU_VER3_PTE_PCF_REGULAR_RW_NO_ATOMIC_CACHED_ACE
              else NV_MMU_VER3_PTE_PCF_REGULAR_RW_NO_ATOMIC_UNCACHED_ACE)
    | UVM_PROT_READ_WRITE_ATOMIC =>
        Some (if cached then NV_MMU_VER3_PTE_PCF_REGULAR_RW_ATOMIC_CACHED_ACE
              else NV_MMU_VER3_PTE_PCF_REGULAR_RW_ATOMIC_UNCACHED_ACE)
    | UVM_PROT_NONE => None
    end
  else
    match prot with
    | UVM_PROT_READ_ONLY =>
        Some (if cached then NV_MMU_VER3_PTE_PCF_REGULAR_RO_NO_ATOMIC_CACHED_ACD
              else NV_MMU_VER3_PTE_PCF_REGULAR_RO_NO_ATOMIC_UNCACHED_ACD)
    | UVM_PROT_READ_WRITE =>
        Some (if cached then NV_MMU_VER3_PTE_PCF_REGULAR_RW_NO_ATOMIC_CACHED_ACD
              else NV_MMU_VER3_PTE_PCF_REGULAR_RW_NO_ATOMIC_UNCACHED_ACD)
    | UVM_PROT_READ_WRITE_ATOMIC =>
        Some (if cached then NV_MMU_VER3_PTE_PCF_REGULAR_RW_ATOMIC_CACHED_ACD
              else NV_MMU_VER3_PTE_PCF_REGULAR_RW_ATOMIC_UNCACHED_ACD)
    | UVM_PROT_NONE => None
    end.

Definition make_pte_hopper (ap : uvm_aperture_t) (address : Z) (prot : uvm_prot_t) (flags : Z) : option Z :=
  let pte_bits := HWCONST64 NV_MMU_VER3_PTE_VALID 1 in
  aperture_bits ←
    (match ap with
     | UVM_APERTURE_SYS => Some NV_MMU_VER3_PTE_APERTURE_SYSTEM_COHERENT_MEMORY
     | UVM_APERTURE_VID => Some NV_MMU_VER3_PTE_APERTURE_VIDEO_MEMORY
     | _ => if uvm_aperture_is_peer ap then Some NV_MMU_VER3_PTE_APERTURE_PEER_MEMORY else None
     end);
  a ← HWVALUE64 NV_MMU_VER3_PTE_APERTURE aperture_bits;
  let pte_bits := Z.lor pte_bits a in
  code ← pte_pcf prot flags;
  p ← HWVALUE64 NV_MMU_VER3_PTE_PCF code;
  let pte_bits := Z.lor pte_bits p in
  k ← HWVALUE64 NV_MMU_VER3_PTE_KIND NV_MMU_PTE_KIND_GENERIC_MEMORY_HOPPER;
  let pte_bits := Z.lor pte_bits k in
  let address := Z.shiftr address NV_MMU_VER3_PTE_ADDRESS_SHIFT in
  if bool_decide (ap = UVM_APERTURE_VID) then
    v ← HWVALUE64 NV_MMU_VER3_PTE_ADDRESS_VID address; Some (Z.lor pte_bits v)
  else
    v ← HWVALUE64 NV_MMU_VER3_PTE_ADDRESS address;
    let pte_bits := Z.lor pte_bits v in
    if uvm_aperture_is_peer ap then
      id ← UVM_APERTURE_PEER_ID ap;
      q ← HWVALUE64 NV_MMU_VER3_PTE_PEER_ID id; Some (Z.lor pte_bits q)
    else Some pte_bits.

Definition make_sked_reflected_pte_hopper : option Z :=
  code ← pte_pcf UVM_PROT_READ_WRITE_ATOMIC UVM_MMU_PTE_FLAGS_NONE;
  p ← HWVALUE64 NV_MMU_VER3_PTE_PCF code;
  k ← HWVALUE64 NV_MMU_VER3_PTE_KIND NV_MMU_PTE_KIND_SMSKED_MESSAGE_HOPPER;
  Some (Z.lor (Z.lor (Z.lor (HWCONST64 NV_MMU_VER3_PTE_VALID 1)
    (HWCONST64 NV_MMU_VER3_PTE_APERTURE NV_MMU_VER3_PTE_APERTURE_SYSTEM_NON_COHERENT_MEMORY)) p) k).

Definition make_sparse_pte_hopper : option Z :=
  Some (Z.lor (HWCONST64 NV_MMU_VER3_PTE_VALID 0) (HWCONST64 NV_MMU_VER3_PTE_PCF NV_MMU_VER3_PTE_PCF_SPARSE)).

Definition unmapped_pte_hopper (page_size : Z) : Z :=
  if negb (page_size =? UVM_PAGE_SIZE_64K) then 0
  else Z.lor (HWCONST64 NV_MMU_VER3_PTE_VALID 0)
             (HWCONST64 NV_MMU_VER3_PTE_PCF NV_MMU_VER3_PTE_PCF_NO_VALID_4KB_PAGE).

Definition poisoned_pte_hopper : option Z :=
  pte_bits ← make_pte_hopper UVM_APERTURE_VID 0x2bad000000 UVM_PROT_READ_ONLY UVM_MMU_PTE_FLAGS_NONE;
  Some (WRITE_HWCONST64 pte_bits NV_MMU_VER3_PTE_PCF NV_MMU_VER3_PTE_PCF_PRIVILEGE_RO_NO_ATOMIC_UNCACHED_ACD).

(** ** The HALs *)
Definition hopper_mmu_mode_hal (sys : mmu_system) : uvm_mmu_mode_hal_t :=
  ampere_mmu_mode_hal (ats_enabled sys)
    <| entry_size := entry_size_hopper |> <| index_bits := index_bits_hopper |>
    <| entries_per_index := entries_per_index_hopper |> <| entry_offset := entry_offset_hopper |>
    <| num_va_bits := num_va_bits_hopper |> <| allocation_size := allocation_size_hopper |>
    <| page_table_depth := page_table_depth_hopper |> <| make_pte := make_pte_hopper |>
    <| make_sked_reflected_pte := make_sked_reflected_pte_hopper |> <| make_sparse_pte := make_sparse_pte_hopper |>
    <| unmapped_pte := unmapped_pte_hopper |> <| poisoned_pte := poisoned_pte_hopper |>
    <| make_pde := make_pde_hopper sys |>.

Definition uvm_hal_mmu_mode_hopper (sys : mmu_system) (big_page_size : Z) : option (option uvm_mmu_mode_hal_t) :=
  UVM_ASSERT (big_page_size =? UVM_PAGE_SIZE_64K) || (big_page_size =? UVM_PAGE_SIZE_128K);
  if big_page_size =? UVM_PAGE_SIZE_128K then Some None else
    ampere ← uvm_hal_mmu_mode_ampere (ats_enabled sys) big_page_size;
    _ ← ampere;
    Some (Some (hopper_mmu_mode_hal sys)).

Definition uvm_hal_mmu_mode_blackwell_common (sys : mmu_system) (big_page_size : Z) : option uvm_mmu_mode_hal_t :=
  UVM_ASSERT (big_page_size =? UVM_PAGE_SIZE_64K) || (big_page_size =? UVM_PAGE_SIZE_128K);
  hopper ← uvm_hal_mmu_mode_hopper sys big_page_size;
  hal ← hopper;
  Some (hal <| page_table_depth := page_table_depth_blackwell |>).

Definition uvm_hal_mmu_mode_blackwell (sys : mmu_system) (big_page_size : Z) : option (option uvm_mmu_mode_hal_t) :=
  if big_page_size =? UVM_PAGE_SIZE_128K then Some None else
    hal ← uvm_hal_mmu_mode_blackwell_common sys big_page_size;
    Some (Some (hal <| page_sizes := page_sizes_blackwell |>)).

Definition uvm_hal_mmu_mode_blackwell_integrated (sys : mmu_system) (big_page_size : Z) : option (option uvm_mmu_mode_hal_t) :=
  if big_page_size =? UVM_PAGE_SIZE_128K then Some None else
    hal ← uvm_hal_mmu_mode_blackwell_common sys big_page_size;
    Some (Some (hal <| page_sizes := page_sizes_blackwell_integrated |>)).

(** ** Reading directory entries *)
Definition ver3_format : hw_format := {|
  hw_decode d ws :=
    match ws with
    | [w] =>
        if DRF_VAL64 NV_MMU_VER3_PDE_IS_PTE w =? 1 then HwPte
        else HwPde [hw_half NV_MMU_VER3_PDE_APERTURE NV_MMU_VER3_PDE_ADDRESS NV_MMU_VER3_PDE_ADDRESS 12 w]
    | [big; small] =>
        if DRF_VAL64 NV_MMU_VER3_DUAL_PDE_IS_PTE big =? 1 then HwPte
        else HwPde [hw_half NV_MMU_VER3_DUAL_PDE_APERTURE_BIG NV_MMU_VER3_DUAL_PDE_ADDRESS_BIG
                      NV_MMU_VER3_DUAL_PDE_ADDRESS_BIG 8 big;
                    hw_half NV_MMU_VER3_DUAL_PDE_APERTURE_SMALL NV_MMU_VER3_DUAL_PDE_ADDRESS_SMALL
                      NV_MMU_VER3_DUAL_PDE_ADDRESS_SMALL 12 small]
    | _ => HwPte
    end;
  hw_phys_bits _ := 52
|}.

Definition hopper_view (v : dir_view) (i : Z) : Prop :=
  0 <= dv_depth v < 5 /\ Forall (fun p => 0 <= fst p < dv_depth v) (dv_chain v) /\
  0 <= i < 2 ^ default 0 (index_bits_hopper (dv_depth v) UVM_PAGE_SIZE_AGNOSTIC).

Lemma pde_base_va_some chain acc : Forall (fun p => 0 <= fst p < 5) chain -> is_Some (pde_base_va acc chain).
Proof.
  revert acc. induction chain as [|[d i] up IH]; intros acc Hc; [by eexists|]. inversion_clear Hc as [|?? Hd Hu].
  simpl in *. assert (Hs : is_Some (va_base !! Z.to_nat d)) by (apply lookup_lt_is_Some; simpl; lia).
  destruct Hs as [s ->]. simpl. by apply IH.
Qed.

(** Whatever the address range and ATS, the flags of an entry are a code of their
    field. *)
Lemma pde_pcf_some sys valid t v i : cpu_num_va_bits sys < 64 -> hopper_view v i ->
  exists c, pde_pcf sys valid t v i = Some c /\ 0 <= c < 2 ^ 3.
Proof.
  intros Hs (Hd & Hc & Hi). unfold pde_pcf. rewrite (proj2 (Z.ltb_lt _ _)) by lia.
  assert (Hr : forall b, exists c, Some ((if valid then valid_pcf else invalid_pcf) t b) = Some c /\ 0 <= c < 2 ^ 3).
  { intros b. eexists. split; [done|]. destruct valid, b; vm_compute; split; congruence. }
  destruct (negb (ats_enabled sys)); [apply Hr|]. destruct (dv_depth v =? 0); [apply Hr|]. destruct valid; [apply Hr|].
  unfold is_ats_range_valid, uvm_get_unaddressable_range. rewrite (proj2 (Z.ltb_lt _ _) Hs).
  assert (Hb : exists b, index_bits_hopper (dv_depth v) UVM_PAGE_SIZE_AGNOSTIC = Some b).
  { clear -Hd. destruct v as [d c]. cbn [dv_depth] in *.
    assert (d = 0 \/ d = 1 \/ d = 2 \/ d = 3 \/ d = 4) as [->|[->|[->|[->| ->]]]] by lia; by eexists. }
  destruct Hb as [b Hb]. rewrite Hb in Hi. simpl in Hi.
  assert (Hlt : (i <? Z.shiftl 1 b) = true) by (rewrite Z.shiftl_1_l; lia).
  destruct (pde_base_va_some ((dv_depth v, i) :: dv_chain v) 0) as [base Hbase].
  { constructor; [simpl; lia|]. eapply Forall_impl; [exact Hc|]. simpl. lia. }
  rewrite Hb, Hbase. destruct (40 <? cpu_num_va_bits sys); cbn [mbind option_bind];
    rewrite (proj2 (Z.ltb_lt _ (Z.of_nat (length va_base)))) by (simpl; lia); rewrite Hlt; cbn [mbind option_bind]; apply Hr.
Qed.

Section reads.
Context (sys : mmu_system) (Hsys : cpu_num_va_bits sys < 64).

(** [pcf_case o t v i Hv] gives the flags of the entry being made. *)
Ltac pcf_case o t v i Hv c E Hc :=
  destruct (pde_pcf_some sys (bool_decide (is_Some o)) t v i Hsys Hv) as (c & E & Hc).
Ltac pcf_encode o H Hc :=
  destruct o as [[[?ap ?addr] ?size]|]; cbn [mbind option_bind];
  [ let Ha := fresh in let Hf := fresh in let Hs := fresh in
    destruct (H _ eq_refl) as ([Ha|Ha] & Hf & Hs); cbn [pa_addr aperture address] in *; rewrite Ha in *; clear Ha;
    rewrite HWVALUE64_fits by (done || exact Hf); cbn [mbind option_bind];
    rewrite HWVALUE64_fits by (done || exact Hc); cbn [mbind option_bind];
    hw_encode; cbn; by rewrite Hs
  | rewrite HWVALUE64_fits by (done || exact Hc); cbn [mbind option_bind]; by hw_encode ].

Lemma single_hopper_reads v i o : hopper_view v i -> table_fits ver3_format 12 o -> exists w,
  single_pde_hopper sys o v i = Some w /\ DRF_VAL64 NV_MMU_VER3_PDE_IS_PTE w = 0 /\
  hw_half NV_MMU_VER3_PDE_APERTURE NV_MMU_VER3_PDE_ADDRESS NV_MMU_VER3_PDE_ADDRESS 12 w = option_map pa_addr o.
Proof.
  intros Hv H. pcf_case o PDE_TYPE_SINGLE v i Hv c E Hc. unfold single_pde_hopper. rewrite E. clear E. pcf_encode o H Hc.
Qed.

Lemma big_hopper_reads v i o : hopper_view v i -> table_fits ver3_format 8 o -> exists w,
  big_half_pde_hopper sys o v i = Some w /\ DRF_VAL64 NV_MMU_VER3_DUAL_PDE_IS_PTE w = 0 /\
  hw_half NV_MMU_VER3_DUAL_PDE_APERTURE_BIG NV_MMU_VER3_DUAL_PDE_ADDRESS_BIG NV_MMU_VER3_DUAL_PDE_ADDRESS_BIG 8 w =
    option_map pa_addr o.
Proof.
  intros Hv H. pcf_case o PDE_TYPE_DUAL_BIG v i Hv c E Hc. unfold big_half_pde_hopper. rewrite E. clear E. pcf_encode o H Hc.
Qed.

Lemma small_hopper_reads v i o : hopper_view v i -> table_fits ver3_format 12 o -> exists w,
  small_half_pde_hopper sys o v i = Some w /\
  hw_half NV_MMU_VER3_DUAL_PDE_APERTURE_SMALL NV_MMU_VER3_DUAL_PDE_ADDRESS_SMALL NV_MMU_VER3_DUAL_PDE_ADDRESS_SMALL 12 w =
    option_map pa_addr o.
Proof.
  intros Hv H. pcf_case o PDE_TYPE_DUAL_SMALL v i Hv c E Hc. unfold small_half_pde_hopper. rewrite E. clear E. pcf_encode o H Hc.
Qed.
End reads.

Section encoding.
Context (sys : mmu_system) (h : uvm_mmu_mode_hal_t) (sizes : list Z).
Hypothesis Hsys : cpu_num_va_bits sys < 64.
Hypothesis Hgeo : geometry_check h sizes = true.
Hypothesis Halign : forallb (fun d => half_align h sizes d 0 12) [0; 1; 2; 3] = true.
Hypothesis Hbig : half_align h sizes 4 0 8 = true.
Hypothesis Hsmall : half_align h sizes 4 1 12 = true.
Hypothesis Hmax : hmax h = 5.
Hypothesis Hper : entries_per_index h = entries_per_index_hopper.
Hypothesis Hsize : entry_size h = entry_size_hopper.
Hypothesis Hbits : index_bits h = index_bits_hopper.
Hypothesis Hmake : make_pde h = make_pde_hopper sys.

Lemma ver3_encoding : encoding_ok h ver3_format.
Proof.
  intros v i allocs [Hv Hch] Hi Hl Hc. rewrite Hmax in Hv. rewrite Hmake. unfold hsize, hper, hbits in *.
  rewrite Hper, Hbits, Hsize in *. assert (Hw : hopper_view v i) by done.
  assert (Hb : forall s (ap : uvm_aperture_t), s <= 12 -> s <= hw_phys_bits ver3_format ap) by (simpl; lia).
  unfold make_pde_hopper. destruct (Z.eq_dec (dv_depth v) 4) as [Hd|Hd].
  - rewrite Hd in *. destruct allocs as [|o0 [|o1 l]]; [simpl in Hl; lia..|].
    destruct (big_hopper_reads sys Hsys v i o0 Hw) as (w0 & E0 & I0 & R0).
    { exact (child_fits h _ sizes 4 0 8 _ 0 o0 Hgeo Hbig ltac:(lia) (fun ap => Hb 8 ap ltac:(lia)) Hc eq_refl eq_refl). }
    destruct (small_hopper_reads sys Hsys v i o1 Hw) as (w1 & E1 & R1).
    { exact (child_fits h _ sizes 4 1 12 _ 1 o1 Hgeo Hsmall ltac:(lia) (fun ap => Hb 12 ap ltac:(lia)) Hc eq_refl eq_refl). }
    change (entries_per_index_hopper 4) with (Some 2). cbn [mbind option_bind Z.eqb Pos.eqb].
    rewrite lookup_big, lookup_small. cbn [mbind option_bind]. rewrite E0. cbn [mbind option_bind]. rewrite E1.
    cbn [mbind option_bind]. eexists. split; [reflexivity|]. split; [done|]. cbn [hw_decode ver3_format].
    replace (HWCONST64 (0 @@ 0) 0) with 0 by reflexivity. rewrite Z.lor_0_r, I0, R0, R1. done.
  - assert (He : entries_per_index_hopper (dv_depth v) = Some 1).
    { unfold entries_per_index_hopper. rewrite (proj2 (Z.ltb_lt _ _)) by lia. by rewrite (proj2 (Z.eqb_neq _ _)). }
    assert (Hz : entry_size_hopper (dv_depth v) = Some 8) by (unfold entry_size_hopper; by rewrite He).
    rewrite He, Hz in *. destruct allocs as [|o0 l]; [simpl in Hl; lia|].
    destruct (single_hopper_reads sys Hsys v i o0 Hw) as (w0 & E0 & I0 & R0).
    { refine (child_fits h _ sizes (dv_depth v) 0 12 _ 0 o0 Hgeo _ ltac:(lia) (fun ap => Hb 12 ap ltac:(lia)) Hc eq_refl eq_refl).
      apply (forallb_in _ _ (dv_depth v) Halign). rewrite !elem_of_cons. lia. }
    cbn [mbind option_bind Z.eqb Pos.eqb lookup list_lookup]. rewrite E0. cbn [mbind option_bind].
    eexists. split; [reflexivity|]. split; [done|]. cbn [hw_decode ver3_format]. by rewrite I0, R0.
Qed.
End encoding.

Definition blackwell_mmu_mode_hal (sys : mmu_system) : uvm_mmu_mode_hal_t :=
  hopper_mmu_mode_hal sys <| page_table_depth := page_table_depth_blackwell |> <| page_sizes := page_sizes_blackwell |>.
Definition blackwell_integrated_mmu_mode_hal (sys : mmu_system) : uvm_mmu_mode_hal_t :=
  hopper_mmu_mode_hal sys <| page_table_depth := page_table_depth_blackwell |>
    <| page_sizes := page_sizes_blackwell_integrated |>.

Definition blackwell_sizes : list Z := ampere_sizes ++ [UVM_PAGE_SIZE_256G].

Ltac ver3_hal sys sizes := apply (check_hal_ok _ _ sizes); [vm_compute; reflexivity|]; by apply (ver3_encoding sys _ sizes).

Lemma hopper_hal_ok sys : cpu_num_va_bits sys < 64 -> hal_ok (hopper_mmu_mode_hal sys) ver3_format.
Proof. intros. ver3_hal sys ampere_sizes. Qed.
Lemma blackwell_hal_ok sys : cpu_num_va_bits sys < 64 -> hal_ok (blackwell_mmu_mode_hal sys) ver3_format.
Proof. intros. ver3_hal sys blackwell_sizes. Qed.
Lemma blackwell_integrated_hal_ok sys :
  cpu_num_va_bits sys < 64 -> hal_ok (blackwell_integrated_mmu_mode_hal sys) ver3_format.
Proof. intros. ver3_hal sys pascal_sizes. Qed.
