(* ===== verification/MmuModes.v ===== *)
(** * The MMU modes of all generations

    [arch_hal->mmu_mode_hal], the function that picks the MMU HAL of a GPU, and
    what holds of whatever it returns: the HAL satisfies the interface of
    [MmuTypes] on which the page tree is built, and the page table entries it
    makes read back as the mapping that was asked for. *)

From S2P Require Import Prelude PageMask MmuTypes MmuMaxwell MmuPascal MmuHopper.

Inductive generation := Maxwell | Pascal | Volta | Turing | Ampere | Hopper | Blackwell | BlackwellIntegrated.

(** The [mmu_mode_hal] member of the architecture HAL (uvm_hal.c). *)
Definition mmu_mode_hal (g : generation) (sys : mmu_system) (big_page_size : Z) : option (option uvm_mmu_mode_hal_t) :=
  match g with
  | Maxwell => uvm_hal_mmu_mode_maxwell big_page_size
  | Pascal => uvm_hal_mmu_mode_pascal big_page_size
  | Volta => uvm_hal_mmu_mode_volta (ats_enabled sys) big_page_size
  | Turing => uvm_hal_mmu_mode_turing (ats_enabled sys) big_page_size
  | Ampere => uvm_hal_mmu_mode_ampere (ats_enabled sys) big_page_size
  | Hopper => uvm_hal_mmu_mode_hopper sys big_page_size
  | Blackwell => uvm_hal_mmu_mode_blackwell sys big_page_size
  | BlackwellIntegrated => uvm_hal_mmu_mode_blackwell_integrated sys big_page_size
  end.

Definition mode_format (g : generation) : hw_format :=
  match g with
  | Maxwell => maxwell_format
  | Hopper | Blackwell | BlackwellIntegrated => ver3_format
  | _ => ver2_format
  end.

(** ** Reading page table entries *)

(** What a valid entry says: of memory, whether reads, writes and atomics are allowed
    ([None] where the format has no bit for it, or where its bits disagree), caching,
    privilege, access counting, the kind of the memory, and whether everything else in
    the entry is clear: encryption, locking and compression. *)
Record pte_view := {
  pv_aperture : option uvm_aperture_t;
  pv_address : Z;
  pv_read : bool;
  pv_write : option bool;
  pv_atomic : option bool;
  pv_volatile : bool;
  pv_privileged : bool;
  pv_counters : option bool;
  pv_kind : Z;
  pv_plain : bool
}.

(** An entry that is not valid is read as sparse, as one that hides the entries of the
    small pages, or, with nothing set, as empty. *)
Inductive pte_meaning := PteMapping (v : pte_view) | PteSparse | PteNoSmallPages | PteEmpty | PteOther.

Definition bit (f : field) (w : Z) : bool := DRF_VAL64 f w =? 1.

(** The apertures have the same codes in all formats; code 3, system memory that is not
    coherent, is used by no mapping. *)
Definition read_aperture (code peer : Z) : option uvm_aperture_t :=
  if code =? 0 then Some UVM_APERTURE_VID else if code =? 1 then Some (UVM_APERTURE_PEER peer) else if code =? 2 then Some UVM_APERTURE_SYS else None.

(** Until version 2: "When VALID == 0, MMU still reads the VOL and PRIV fields.
    VOL == 1 indicates that the PTE is sparse". *)
Definition read_invalid (vol priv : bool) : pte_meaning :=
  if vol then PteSparse else if priv then PteNoSmallPages else PteEmpty.

(** Maxwell has no atomics bit, and two bits against writes. *)
Definition maxwell_read_pte (w : Z) : pte_meaning :=
  let ap := DRF_VAL64 NV_MMU_PTE_APERTURE w in
  if bit NV_MMU_PTE_VALID w then PteMapping
    {| pv_aperture := read_aperture ap (DRF_VAL64 NV_MMU_PTE_ADDRESS_VID_PEER w);
       pv_address := Z.shiftl (if ap <? 2 then DRF_VAL64 NV_MMU_PTE_ADDRESS_VID w else DRF_VAL64 NV_MMU_PTE_ADDRESS_SYS w) 12;
       pv_read := negb (bit NV_MMU_PTE_READ_DISABLE w);
       pv_write := if eqb (bit NV_MMU_PTE_READ_ONLY w) (bit NV_MMU_PTE_WRITE_DISABLE w) then Some (negb (bit NV_MMU_PTE_READ_ONLY w)) else None;
       pv_atomic := None;
       pv_volatile := bit NV_MMU_PTE_VOL w;
       pv_privileged := bit NV_MMU_PTE_PRIVILEGE w;
       pv_counters := None;
       pv_kind := DRF_VAL64 NV_MMU_PTE_KIND w;
       pv_plain := negb (bit NV_MMU_PTE_ENCRYPTED w) && negb (bit NV_MMU_PTE_LOCK w) && (DRF_VAL64 NV_MMU_PTE_COMPTAGLINE w =? 0) |}
  else read_invalid (bit NV_MMU_PTE_VOL w) (bit NV_MMU_PTE_PRIVILEGE w).

(** [hi] is the field with the upper address bits of video and peer memory, from
    Volta on; on Pascal it holds compression tags. *)
Definition ver2_read_pte (hi : option field) (w : Z) : pte_meaning :=
  let ap := DRF_VAL64 NV_MMU_VER2_PTE_APERTURE w in
  let upper := match hi with Some f => Z.shiftl (DRF_VAL64 f w) (HWSIZE NV_MMU_VER2_PTE_ADDRESS_VID) | None => 0 end in
  if bit NV_MMU_VER2_PTE_VALID w then PteMapping
    {| pv_aperture := read_aperture ap (DRF_VAL64 NV_MMU_VER2_PTE_ADDRESS_VID_PEER w);
       pv_address := Z.shiftl (if ap <? 2 then upper + DRF_VAL64 NV_MMU_VER2_PTE_ADDRESS_VID w
                               else DRF_VAL64 NV_MMU_VER2_PTE_ADDRESS_SYS w) 12;
       pv_read := true;
       pv_write := Some (negb (bit NV_MMU_VER2_PTE_READ_ONLY w));
       pv_atomic := Some (negb (bit NV_MMU_VER2_PTE_ATOMIC_DISABLE w));
       pv_volatile := bit NV_MMU_VER2_PTE_VOL w;
       pv_privileged := bit NV_MMU_VER2_PTE_PRIVILEGE w;
       pv_counters := None;
       pv_kind := DRF_VAL64 NV_MMU_VER2_PTE_KIND w;
       pv_plain := negb (bit NV_MMU_VER2_PTE_ENCRYPTED w) &&
         match hi with Some _ => true | None => (2 <=? ap) || (DRF_VAL64 NV_MMU_VER2_PTE_COMPTAGLINE w =? 0) end |}
  else read_invalid (bit NV_MMU_VER2_PTE_VOL w) (bit NV_MMU_VER2_PTE_PRIVILEGE w).

(** The permission code of version 3: bit 0 uncached, bit 1 privileged, bit 2
    read-only, bit 3 no atomics, bit 4 no access counters. *)
Definition ver3_read_pte (w : Z) : pte_meaning :=
  let ap := DRF_VAL64 NV_MMU_VER3_PTE_APERTURE w in
  let pcf := DRF_VAL64 NV_MMU_VER3_PTE_PCF w in
  if bit NV_MMU_VER3_PTE_VALID w then PteMapping
    {| pv_aperture := read_aperture ap (DRF_VAL64 NV_MMU_VER3_PTE_PEER_ID w);
       pv_address := Z.shiftl (if ap =? 0 then DRF_VAL64 NV_MMU_VER3_PTE_ADDRESS_VID w else DRF_VAL64 NV_MMU_VER3_PTE_ADDRESS w) 12;
       pv_read := true;
       pv_write := Some (negb (Z.testbit pcf 2));
       pv_atomic := Some (negb (Z.testbit pcf 3));
       pv_volatile := Z.testbit pcf 0;
       pv_privileged := Z.testbit pcf 1;
       pv_counters := Some (negb (Z.testbit pcf 4));
       pv_kind := DRF_VAL64 NV_MMU_VER3_PTE_KIND w;
       pv_plain := true |}
  else if pcf =? 0 then PteEmpty else if pcf =? NV_MMU_VER3_PTE_PCF_SPARSE then PteSparse
  else if pcf =? NV_MMU_VER3_PTE_PCF_NO_VALID_4KB_PAGE then PteNoSmallPages else PteOther.

Definition read_pte (g : generation) : Z -> pte_meaning :=
  match g with
  | Maxwell => maxwell_read_pte
  | Pascal => ver2_read_pte None
  | Volta => ver2_read_pte (Some NV_MMU_VER2_PTE_COMPTAGLINE)
  | Turing | Ampere => ver2_read_pte (Some NV_MMU_VER2_PTE_COMPTAGLINE_TURING)
  | Hopper | Blackwell | BlackwellIntegrated => ver3_read_pte
  end.

(** The physical address bits that a page table entry holds. *)
Definition pte_phys_bits (g : generation) (ap : uvm_aperture_t) : Z :=
  match g, ap with
  | Maxwell, UVM_APERTURE_SYS => 40
  | Maxwell, _ | Pascal, UVM_APERTURE_VID | Pascal, UVM_APERTURE_PEER _ => 37
  | Volta, UVM_APERTURE_VID | Volta, UVM_APERTURE_PEER _ => 55
  | (Turing | Ampere), (UVM_APERTURE_VID | UVM_APERTURE_PEER _) => 57
  | (Hopper | Blackwell | BlackwellIntegrated), UVM_APERTURE_VID => 40
  | (Hopper | Blackwell | BlackwellIntegrated), _ => 52
  | _, _ => 58
  end.

(** Uncompressed memory, and memory for messages of the scheduler of work. *)
Definition memory_kind (g : generation) : Z := match g with Maxwell | Pascal | Volta => 0 | _ => 6 end.
Definition message_kind (g : generation) : Z := match g with Maxwell | Pascal | Volta => 0xca | _ => 0xf end.

(** A mapping that can be asked for: to video, system or peer memory, at a page of
    4K or more. *)
Definition mapping_ok (g : generation) (ap : uvm_aperture_t) (addr : Z) (prot : uvm_prot_t) (flags : Z) : Prop :=
  (ap = UVM_APERTURE_SYS \/ ap = UVM_APERTURE_VID \/ exists id, ap = UVM_APERTURE_PEER id /\ 0 <= id < 8) /\
  0 <= addr < 2 ^ pte_phys_bits g ap /\ addr mod 4096 = 0 /\
  prot <> UVM_PROT_NONE /\ flags_valid flags = true.

(** ** Every mode satisfies the interface *)
Definition page_size_list : list Z := [UVM_PAGE_SIZE_4K; UVM_PAGE_SIZE_64K; UVM_PAGE_SIZE_128K; UVM_PAGE_SIZE_2M; UVM_PAGE_SIZE_512M; UVM_PAGE_SIZE_256G].
Definition big_page_sizes : list Z := [UVM_PAGE_SIZE_64K; UVM_PAGE_SIZE_128K].

Lemma mode_64 g sys : exists h, mmu_mode_hal g sys UVM_PAGE_SIZE_64K = Some (Some h) /\
  (cpu_num_va_bits sys < 64 -> hal_ok h (mode_format g)) /\ supported h UVM_PAGE_SIZE_64K = true.
Proof.
  destruct g; eexists; (split; [reflexivity|]); (split; [intros Hs|reflexivity]).
  - exact maxwell_64_hal_ok.
  - exact pascal_hal_ok.
  - exact (volta_hal_ok _).
  - exact (turing_hal_ok _).
  - exact (ampere_hal_ok _).
  - exact (hopper_hal_ok sys Hs).
  - exact (blackwell_hal_ok sys Hs).
  - exact (blackwell_integrated_hal_ok sys Hs).
Qed.

Lemma mode_128 g sys : mmu_mode_hal g sys UVM_PAGE_SIZE_128K =
  Some (match g with Maxwell => Some maxwell_128_mmu_mode_hal | _ => None end).
Proof. by destruct g. Qed.

(** C17.  For every generation and both big page sizes the mode function returns
    without failing an assertion; there is no HAL exactly for 128K big pages from
    Pascal on; and a HAL that is returned supports the big page size and has the
    interface that the page tree relies on: its levels use up the virtual
    address down to the page offset, tables are large enough, indices above the
    leaves do not depend on the page size, and [make_pde] makes entries that read
    back, in the format of the hardware, as the addresses of the tables. *)
Theorem mode_interface (g : generation) (sys : mmu_system) (big_page_size : Z) :
  cpu_num_va_bits sys < 64 -> big_page_size ∈ big_page_sizes ->
  exists o, mmu_mode_hal g sys big_page_size = Some o /\
    (o = None <-> big_page_size = UVM_PAGE_SIZE_128K /\ g <> Maxwell) /\
    forall h, o = Some h -> hal_ok h (mode_format g) /\ supported h big_page_size = true.
Proof.
  intros Hs Hb. unfold big_page_sizes in Hb. rewrite !elem_of_cons, elem_of_nil in Hb. destruct Hb as [->|[->|[]]].
  - destruct (mode_64 g sys) as (h & E & Ho & Hsup). exists (Some h). split; [done|]. split; [split; [done|]|].
    + intros [H _]. by vm_compute in H.
    + intros ? [= <-]. split; [by apply Ho|done].
  - rewrite mode_128. destruct g; eexists; (split; [reflexivity|]); (split; [|]); try done.
    + split; [done|]. by intros [_ []].
    + intros ? [= <-]. split; [exact maxwell_128_hal_ok|reflexivity].
Qed.

Definition test_system : mmu_system := {| ats_enabled := true; cpu_num_va_bits := 48 |}.

Lemma mode_interface_witness : exists o, mmu_mode_hal Hopper test_system UVM_PAGE_SIZE_64K = Some o /\
    (o = None <-> UVM_PAGE_SIZE_64K = UVM_PAGE_SIZE_128K /\ Hopper <> Maxwell) /\
    forall h, o = Some h -> hal_ok h (mode_format Hopper) /\ supported h UVM_PAGE_SIZE_64K = true.
Proof. apply (mode_interface Hopper test_system UVM_PAGE_SIZE_64K); [done|by left]. Defined.

(** ** Page table entries read back *)

(** What the page table entry of a mapping reads as.  Entries of Maxwell do not say
    whether atomics are allowed, and only those of version 3 whether accesses count. *)
Definition mapping_view (g : generation) (ap : uvm_aperture_t) (addr : Z) (prot : uvm_prot_t) (flags : Z) : pte_view :=
  {| pv_aperture := Some ap; pv_address := addr;
     pv_read := true;
     pv_write := Some (bool_decide (prot <> UVM_PROT_READ_ONLY));
     pv_atomic := match g with Maxwell => None | _ => Some (bool_decide (prot = UVM_PROT_READ_WRITE_ATOMIC)) end;
     pv_volatile := negb (flag_set flags UVM_MMU_PTE_FLAGS_CACHED); pv_privileged := false;
     pv_counters := match g with
       | Hopper | Blackwell | BlackwellIntegrated => Some (negb (flag_set flags UVM_MMU_PTE_FLAGS_ACCESS_COUNTERS_DISABLED))
       | _ => None
       end;
     pv_kind := memory_kind g; pv_plain := true |}.

Definition encodes (g : generation) (make : uvm_aperture_t -> Z -> uvm_prot_t -> Z -> option Z) : Prop :=
  forall ap addr prot flags, mapping_ok g ap addr prot flags ->
    exists w, make ap addr prot flags = Some w /\ read_pte g w = PteMapping (mapping_view g ap addr prot flags).

Lemma page_frame addr b : 0 <= addr < 2 ^ b -> 12 <= b -> addr mod 4096 = 0 ->
  0 <= Z.shiftr addr 12 < 2 ^ (b - 12) /\ Z.shiftl (Z.shiftr addr 12) 12 = addr.
Proof.
  intros Ha Hb Hm. rewrite Z.shiftr_div_pow2, Z.shiftl_mul_pow2 by done. change (2 ^ 12) with 4096.
  split; [|symmetry; rewrite Z.mul_comm; by apply Z_div_exact_full_2].
  split; [apply Z.div_pos; lia|]. apply Z.div_lt_upper_bound; [lia|]. change 4096 with (2 ^ 12).
  rewrite <- Z.pow_add_r by lia. replace (12 + (b - 12)) with b by lia. lia.
Qed.

Ltac decide_bools :=
  repeat match goal with
  | |- context [bool_decide (?x = ?x)] => rewrite (bool_decide_eq_true_2 (x = x)) by done
  | |- context [bool_decide ?P] => rewrite (bool_decide_eq_false_2 P) by (done || by intros [])
  | |- context [bool_decide ?P] => rewrite (bool_decide_eq_true_2 P) by done
  end.

(** [hw_values] evaluates the checked fields, [hw_pte] then reads the entry. *)
Ltac hw_values :=
  cbn [mbind option_bind];
  repeat (rewrite HWVALUE64_fits by hw_fits; cbn [mbind option_bind]).
Ltac hw_pte := eexists; split; [reflexivity|]; unfold bit; hw_val; cbn -[Z.shiftl].

Lemma peer_id id : 0 <= id < 8 -> (0 <=? id) && (id <? 8) = true.
Proof. lia. Qed.

Lemma maxwell_encodes : encodes Maxwell make_pte_maxwell.
Proof.
  intros ap addr prot flags (Hap & Ha & Hm & Hp & Hf).
  destruct (page_frame addr _ Ha) as [Hr Hs]; [by destruct ap|done|].
  unfold make_pte_maxwell, UVM_APERTURE_PEER_ID, uvm_aperture_is_peer. rewrite bool_decide_eq_true_2, Hf by done.
  set (a := Z.shiftr addr 12) in *. clearbody a. unfold mapping_view, read_pte, maxwell_read_pte.
  generalize (flag_set flags UVM_MMU_PTE_FLAGS_CACHED) as c. intros c.
  rewrite (bool_decide_not (prot = UVM_PROT_READ_ONLY)). generalize (bool_decide (prot = UVM_PROT_READ_ONLY)) as r. intros r.
  destruct Hap as [->|[->|(id & -> & Hid)]]; decide_bools; rewrite ?peer_id by done;
    try (assert (Hi : fits (31 @@ 29) id) by exact Hid);
    first [assert (Hb : fits (28 @@ 4) a) by exact Hr | assert (Hb : fits (31 @@ 4) a) by exact Hr];
    hw_values; hw_pte; rewrite Hs; by destruct c, r.
Qed.

(** The start of a version 2 entry fills the low eight bits. *)
Record ver2_head_reads (ap : uvm_aperture_t) (prot : uvm_prot_t) (flags w : Z) : Prop := {
  vh_valid : DRF_VAL64 NV_MMU_VER2_PTE_VALID w = 1;
  vh_aperture : DRF_VAL64 NV_MMU_VER2_PTE_APERTURE w =
    match ap with UVM_APERTURE_SYS => 2 | UVM_APERTURE_VID => 0 | _ => 1 end;
  vh_vol : DRF_VAL64 NV_MMU_VER2_PTE_VOL w = if flag_set flags UVM_MMU_PTE_FLAGS_CACHED then 0 else 1;
  vh_privilege : DRF_VAL64 NV_MMU_VER2_PTE_PRIVILEGE w = 0;
  vh_read_only : DRF_VAL64 NV_MMU_VER2_PTE_READ_ONLY w = if bool_decide (prot = UVM_PROT_READ_ONLY) then 1 else 0;
  vh_atomic : DRF_VAL64 NV_MMU_VER2_PTE_ATOMIC_DISABLE w =
    if bool_decide (prot = UVM_PROT_READ_WRITE_ATOMIC) then 0 else 1;
  vh_encrypted : DRF_VAL64 NV_MMU_VER2_PTE_ENCRYPTED w = 0;
  vh_high f : field_ok f = true -> (8 <=? DRF_SHIFT64 f) = true -> DRF_VAL64 f w = 0
}.

Lemma low_clear f g n : field_ok f = true -> (8 <=? DRF_SHIFT64 f) = true ->
  field_ok g = true -> (DRF_SHIFT64 g + HWSIZE g <=? 8) = true -> DRF_VAL64 f (DRF_NUM64 g n) = 0.
Proof.
  intros Hf Hf8 Hg Hg8. apply val_num_other; [done..|]. unfold field_sep. apply orb_true_iff. right. lia.
Qed.

Lemma ver2_head ap prot flags :
  (ap = UVM_APERTURE_SYS \/ ap = UVM_APERTURE_VID \/ exists id, ap = UVM_APERTURE_PEER id /\ 0 <= id < 8) ->
  prot <> UVM_PROT_NONE -> flags_valid flags = true ->
  exists w, ver2_pte_head ap prot flags = Some w /\ ver2_head_reads ap prot flags w.
Proof.
  intros Hap Hp Hf. unfold ver2_pte_head. rewrite bool_decide_eq_true_2, Hf by done.
  assert (exists c, match ap with UVM_APERTURE_SYS => Some 2 | UVM_APERTURE_VID => Some 0
    | _ => if uvm_aperture_is_peer ap then Some 1 else None end = Some c /\
    c = match ap with UVM_APERTURE_SYS => 2 | UVM_APERTURE_VID => 0 | _ => 1 end /\ 0 <= c < 4) as (c & -> & Hc & Hc4).
  { destruct Hap as [->|[->|(id & -> & Hid)]]; simpl; rewrite ?peer_id by done; eexists; split; done. }
  assert (fits (2 @@ 1) c) by exact Hc4.
  cbn [mbind option_bind]. rewrite HWVALUE64_fits by done. cbn [mbind option_bind]. hw_consts.
  eexists. split; [reflexivity|]. constructor; [hw_val; (done || by rewrite Hc)..|].
  intros f Ho H8. by rewrite !val_lor, !(low_clear f) by done.
Qed.

(** A version 2 entry is its start and a part above it. *)
Ltac ver2_open ap addr prot flags Hap Ha Hm Hp Hf :=
  destruct (page_frame addr _ Ha) as [Hr Hs]; [by destruct ap|done|];
  destruct (ver2_head ap prot flags Hap Hp Hf) as (w & Hw & Hread);
  rewrite Hw; cbn [mbind option_bind]; set (a := Z.shiftr addr 12) in *; clearbody a.
Ltac ver2_close Hread Hs :=
  eexists; split; [reflexivity|]; unfold bit; rewrite !val_lor;
  rewrite ?(vh_valid _ _ _ _ Hread), ?(vh_aperture _ _ _ _ Hread), ?(vh_vol _ _ _ _ Hread), ?(vh_privilege _ _ _ _ Hread),
    ?(vh_read_only _ _ _ _ Hread), ?(vh_atomic _ _ _ _ Hread), ?(vh_encrypted _ _ _ _ Hread), ?(vh_high _ _ _ _ Hread) by reflexivity;
  hw_val; cbn -[Z.shiftl].

Lemma pascal_encodes : encodes Pascal make_pte_pascal.
Proof.
  intros ap addr prot flags (Hap & Ha & Hm & Hp & Hf). unfold make_pte_pascal, UVM_APERTURE_PEER_ID, uvm_aperture_is_peer.
  ver2_open ap addr prot flags Hap Ha Hm Hp Hf. unfold mapping_view, read_pte, ver2_read_pte.
  destruct Hap as [->|[->|(id & -> & Hid)]]; decide_bools; rewrite ?peer_id by done;
    try (assert (Hi : fits (35 @@ 33) id) by exact Hid);
    first [assert (Hb : fits (32 @@ 8) a) by exact Hr | assert (Hb : fits (53 @@ 8) a) by exact Hr];
    hw_values; ver2_close Hread Hs; rewrite ?Z.add_0_l, Hs; by destruct (flag_set _ _), prot.
Qed.

Lemma lo_hi a b : 0 <= a < 2 ^ (25 + b) -> 0 <= b ->
  0 <= Z.land a (Z.ones 25) < 2 ^ 25 /\ 0 <= Z.shiftr a 25 < 2 ^ b /\
  Z.shiftl (Z.shiftr a 25) 25 + Z.land a (Z.ones 25) = a.
Proof.
  intros Ha Hb. rewrite Z.land_ones, Z.shiftr_div_pow2, Z.shiftl_mul_pow2 by done. rewrite Z.pow_add_r in Ha by done.
  split; [apply Z.mod_pos_bound; lia|]. split; [split; [apply Z.div_pos; lia|apply Z.div_lt_upper_bound; lia]|].
  pose proof (Z.div_mod a (2 ^ 25)). lia.
Qed.

(** The cases of the two wide formats, with [ct] the field of the [b] upper bits. *)
Ltac wide_case a Hr Hs Hread ct b :=
  let Hlo := fresh in let Hhi := fresh in let He := fresh in let lo := fresh in let hi := fresh in
  destruct (lo_hi a b Hr ltac:(lia)) as (Hlo & Hhi & He);
  change (HWMASK64 (32 @@ 8)) with (Z.ones 25); change (HWSIZE (32 @@ 8)) with 25;
  set (lo := Z.land a (Z.ones 25)) in *; set (hi := Z.shiftr a 25) in *; clearbody lo hi;
  assert (fits (32 @@ 8) lo) by exact Hlo; assert (fits ct hi) by exact Hhi;
  hw_values; ver2_close Hread Hs; change (HWSIZE (32 @@ 8)) with 25; rewrite He, Hs.

Lemma volta_encodes : encodes Volta make_pte_volta.
Proof.
  intros ap addr prot flags (Hap & Ha & Hm & Hp & Hf).
  unfold make_pte_volta, ver2_wide_pte, UVM_APERTURE_PEER_ID, uvm_aperture_is_peer.
  ver2_open ap addr prot flags Hap Ha Hm Hp Hf. unfold mapping_view, read_pte, ver2_read_pte.
  destruct Hap as [->|[->|(id & -> & Hid)]]; decide_bools; rewrite ?peer_id by done.
  - assert (fits (53 @@ 8) a) by exact Hr. hw_values. ver2_close Hread Hs. rewrite Hs. by destruct (flag_set _ _), prot.
  - wide_case a Hr Hs Hread (53 @@ 36) 18. by destruct (flag_set _ _), prot.
  - assert (fits (35 @@ 33) id) by exact Hid. wide_case a Hr Hs Hread (53 @@ 36) 18. by destruct (flag_set _ _), prot.
Qed.

Lemma turing_encodes : encodes Turing make_pte_turing.
Proof.
  intros ap addr prot flags (Hap & Ha & Hm & Hp & Hf).
  unfold make_pte_turing, ver2_wide_pte, UVM_APERTURE_PEER_ID, uvm_aperture_is_peer.
  ver2_open ap addr prot flags Hap Ha Hm Hp Hf. unfold mapping_view, read_pte, ver2_read_pte.
  destruct Hap as [->|[->|(id & -> & Hid)]]; decide_bools; rewrite ?peer_id by done.
  - assert (fits (53 @@ 8) a) by exact Hr. hw_values. ver2_close Hread Hs. rewrite Hs. by destruct (flag_set _ _), prot.
  - wide_case a Hr Hs Hread (55 @@ 36) 20. by destruct (flag_set _ _), prot.
  - assert (fits (35 @@ 33) id) by exact Hid. wide_case a Hr Hs Hread (55 @@ 36) 20. by destruct (flag_set _ _), prot.
Qed.

(** The permission code of version 3 and its bits. *)
Lemma pte_pcf_reads prot flags : prot <> UVM_PROT_NONE -> flags_valid flags = true ->
  exists c, pte_pcf prot flags = Some c /\ fits (7 @@ 3) c /\
    Z.testbit c 2 = bool_decide (prot = UVM_PROT_READ_ONLY) /\ negb (Z.testbit c 3) = bool_decide (prot = UVM_PROT_READ_WRITE_ATOMIC) /\
    Z.testbit c 0 = negb (flag_set flags UVM_MMU_PTE_FLAGS_CACHED) /\ Z.testbit c 1 = false /\
    Z.testbit c 4 = flag_set flags UVM_MMU_PTE_FLAGS_ACCESS_COUNTERS_DISABLED.
Proof.
  intros Hp Hf. unfold pte_pcf. rewrite bool_decide_eq_true_2, Hf by done.
  destruct (flag_set flags UVM_MMU_PTE_FLAGS_ACCESS_COUNTERS_DISABLED), (flag_set flags UVM_MMU_PTE_FLAGS_CACHED), prot;
    try done; cbn [negb]; eexists; (split; [reflexivity|]); (split; [by apply fitsb_fits|done]).
Qed.

Lemma hopper_encodes g : g = Hopper \/ g = Blackwell \/ g = BlackwellIntegrated -> encodes g make_pte_hopper.
Proof.
  intros Hg ap addr prot flags (Hap & Ha & Hm & Hp & Hf).
  assert (Hr3 : read_pte g = ver3_read_pte) by by destruct Hg as [->|[->| ->]].
  assert (Hview : mapping_view g ap addr prot flags = mapping_view Hopper ap addr prot flags) by by destruct Hg as [->|[->| ->]].
  assert (Hbits : pte_phys_bits g ap = if bool_decide (ap = UVM_APERTURE_VID) then 40 else 52)
    by by destruct Hg as [->|[->| ->]], ap.
  destruct (page_frame addr _ Ha) as [Hr Hs]; [rewrite Hbits; by case_bool_decide|done|].
  destruct (pte_pcf_reads prot flags Hp Hf) as (c & Hc & Hfc & Hro & Hat & Hvol & Hpriv & Hacd).
  rewrite Hview. unfold make_pte_hopper, UVM_APERTURE_PEER_ID, uvm_aperture_is_peer, mapping_view. rewrite Hc, Hr3, Hbits in *.
  rewrite (bool_decide_not (prot = UVM_PROT_READ_ONLY)), <- Hro, <- Hat, <- Hvol, <- Hacd.
  set (a := Z.shiftr addr 12) in *. clearbody a. unfold ver3_read_pte.
  destruct Hap as [->|[->|(id & -> & Hid)]]; decide_bools; rewrite ?peer_id by done;
    try (assert (fits (63 @@ 61) id) by exact Hid);
    first [assert (fits (39 @@ 12) a) by exact Hr | assert (fits (51 @@ 12) a) by exact Hr];
    hw_values; eexists; (split; [reflexivity|]); unfold bit; hw_val; cbn -[Z.shiftl Z.testbit];
    by rewrite Hpriv, Hs.
Qed.

(** The special entries.  A poisoned one is a privileged, read-only mapping of video
    memory at an address that is not memory.  An unmapped one of the big page size
    hides the entries of the small pages, and is not read as sparse; one of another
    size is empty.  A sparse one is read as sparse.  A reflected one has the kind of
    messages. *)
Record specials_ok (g : generation) (h : uvm_mmu_mode_hal_t) (big : Z) : Prop := {
  so_poisoned : exists w v, poisoned_pte h = Some w /\ read_pte g w = PteMapping v /\
    pv_aperture v = Some UVM_APERTURE_VID /\ pv_privileged v = true /\ pv_write v = Some false /\ 2 ^ 36 <= pv_address v;
  so_unmapped_big : read_pte g (unmapped_pte h big) = PteNoSmallPages;
  so_unmapped ps : ps ∈ page_size_list -> supported h ps = true -> ps <> big -> read_pte g (unmapped_pte h ps) = PteEmpty /\ unmapped_pte h ps = 0;
  so_sparse : match make_sparse_pte h with
    | None => g = Maxwell
    | Some w => read_pte g w = PteSparse
    end;
  so_reflected : exists w v, make_sked_reflected_pte h = Some w /\ read_pte g w = PteMapping v /\ pv_kind v = message_kind g
}.

Ltac specials :=
  constructor;
  [ eexists _, _; split; [vm_compute; reflexivity|]; split; [vm_compute; reflexivity|]; vm_compute; split_and!; first [reflexivity | discriminate]
  | vm_compute; reflexivity
  | intros ps Hps; unfold page_size_list in Hps; rewrite !elem_of_cons, elem_of_nil in Hps;
    destruct Hps as [->|[->|[->|[->|[->|[->|[]]]]]]]; intros Hsup Hne; first [discriminate Hsup | by destruct Hne | vm_compute; split; reflexivity]
  | first [reflexivity | vm_compute; reflexivity]
  | eexists _, _; split; [vm_compute; reflexivity|]; split; vm_compute; reflexivity ].

Lemma mode_ptes_64 g sys : exists h, mmu_mode_hal g sys UVM_PAGE_SIZE_64K = Some (Some h) /\
  encodes g (make_pte h) /\ specials_ok g h UVM_PAGE_SIZE_64K.
Proof.
  destruct g; eexists; (split; [reflexivity|]); (split; [|specials]).
  - exact maxwell_encodes.
  - exact pascal_encodes.
  - exact volta_encodes.
  - exact turing_encodes.
  - exact turing_encodes.
  - apply hopper_encodes. auto.
  - apply hopper_encodes. auto.
  - apply hopper_encodes. auto.
Qed.

Lemma maxwell_128_specials : specials_ok Maxwell maxwell_128_mmu_mode_hal UVM_PAGE_SIZE_128K.
Proof. specials. Qed.

(** C16.  The page table entry that any HAL makes for a mapping to system, video or
    peer memory reads back, in the format of the hardware, as that mapping: valid,
    unprivileged, readable, with the same aperture, peer, address and cacheability, with
    writes allowed exactly if the protection allows them, atomics likewise on the
    formats that have a bit for them (Maxwell has none, and READ_WRITE and
    READ_WRITE_ATOMIC have the same entry there), access counters as asked for in
    version 3, the kind of plain memory, and nothing encrypted, locked or compressed;
    no assertion fails for an address that the format can hold.  The special entries
    read as what they stand for: in particular an unmapped big entry hides the small
    ones and is not read as sparse. *)
Theorem pte_roundtrip (g : generation) (sys : mmu_system) (big : Z) (h : uvm_mmu_mode_hal_t) :
  big ∈ big_page_sizes -> mmu_mode_hal g sys big = Some (Some h) ->
  (forall ap addr prot flags, mapping_ok g ap addr prot flags ->
    exists w, make_pte h ap addr prot flags = Some w /\ read_pte g w = PteMapping (mapping_view g ap addr prot flags)) /\
  specials_ok g h big.
Proof.
  intros Hb H. unfold big_page_sizes in Hb. rewrite !elem_of_cons, elem_of_nil in Hb. destruct Hb as [->|[->|[]]].
  - destruct (mode_ptes_64 g sys) as (h' & E & He & Hs). rewrite E in H. injection H as <-. split; [exact He|exact Hs].
  - rewrite mode_128 in H. destruct g; try discriminate H. injection H as <-.
    split; [exact maxwell_encodes|exact maxwell_128_specials].
Qed.

(** A read-only, cached mapping of peer 3's memory on Volta, above 37 bits. *)
Lemma pte_roundtrip_witness :
  exists w, make_pte_volta (UVM_APERTURE_PEER 3) 0x123456789000 UVM_PROT_READ_ONLY UVM_MMU_PTE_FLAGS_CACHED = Some w /\
    read_pte Volta w = PteMapping (mapping_view Volta (UVM_APERTURE_PEER 3) 0x123456789000 UVM_PROT_READ_ONLY UVM_MMU_PTE_FLAGS_CACHED).
Proof.
  apply (proj1 (pte_roundtrip Volta test_system UVM_PAGE_SIZE_64K (volta_mmu_mode_hal true)
    ltac:(by left) ltac:(reflexivity))).
  split; [right; right; exists 3; split; [reflexivity|lia]|]. split; [vm_compute; split; [discriminate|reflexivity]|].
  split; [reflexivity|]. split; [discriminate|reflexivity].
Defined.
