(* ===== verification/MmuPush.v ===== *)
(** * Pushes that write page tables

    The commands that the page table code puts into a push: writes by the copy
    engine (uvm_maxwell_ce.c), waits, barriers and TLB invalidates by the host
    engine, and the flags of a push that select the barrier after the next
    command (uvm_push.h, uvm_hal.{c,h}).  Copies of inline data are commands that
    carry the data.  The space that commands take in the push buffer is the
    subject of [Push]. *)

From S2P Require Import Prelude PageMask Push MmuTypes.

(** ** Commands *)
Inductive gpu_method :=
| CeWrite (pipelined : bool) (dst : uvm_gpu_phys_address_t) (words : list Z)
| CeMemset (pipelined : bool) (dst : uvm_gpu_phys_address_t) (value : Z) (count : Z)
| HostWfi
| HostMembar (membar : uvm_membar_t)
| HostInvalidateAll (pdb : uvm_gpu_phys_address_t) (depth : Z) (membar : uvm_membar_t)
| HostInvalidateVa (pdb : uvm_gpu_phys_address_t) (depth base size page_size : Z) (membar : uvm_membar_t).

(** The part of [uvm_push_t] that the commands are appended to. *)
Record mmu_push := mk_mmu_push {
  methods : list gpu_method;
  flag_membar_none : bool;
  flag_membar_gpu : bool;
  flag_pipelined : bool;
}.

#[export] Instance eta_mmu_push : Settable mmu_push :=
  fun r => mk_mmu_push (methods r) (flag_membar_none r) (flag_membar_gpu r) (flag_pipelined r).

Inductive uvm_push_flag_t :=
| UVM_PUSH_FLAG_CE_NEXT_PIPELINED
| UVM_PUSH_FLAG_NEXT_MEMBAR_NONE
| UVM_PUSH_FLAG_NEXT_MEMBAR_GPU.

Definition empty_push : mmu_push := mk_mmu_push [] false false false.

Definition push_flag (flag : uvm_push_flag_t) (push : mmu_push) : bool :=
  match flag with
  | UVM_PUSH_FLAG_CE_NEXT_PIPELINED => flag_pipelined push
  | UVM_PUSH_FLAG_NEXT_MEMBAR_NONE => flag_membar_none push
  | UVM_PUSH_FLAG_NEXT_MEMBAR_GPU => flag_membar_gpu push
  end.

Definition assign_flag (flag : uvm_push_flag_t) (b : bool) (push : mmu_push) : mmu_push :=
  match flag with
  | UVM_PUSH_FLAG_CE_NEXT_PIPELINED => push <| flag_pipelined := b |>
  | UVM_PUSH_FLAG_NEXT_MEMBAR_NONE => push <| flag_membar_none := b |>
  | UVM_PUSH_FLAG_NEXT_MEMBAR_GPU => push <| flag_membar_gpu := b |>
  end.

Definition uvm_push_set_flag (flag : uvm_push_flag_t) : mmu_push -> mmu_push := assign_flag flag true.

Definition uvm_push_get_and_reset_flag (flag : uvm_push_flag_t) (push : mmu_push) : bool * mmu_push :=
  (push_flag flag push, assign_flag flag false push).

Definition push_method (g : gpu_method) (push : mmu_push) : mmu_push := push <| methods := methods push ++ [g] |>.

(** ** Host engine *)
Definition wait_for_idle : mmu_push -> mmu_push := push_method HostWfi.

Definition uvm_hal_membar (membar : uvm_membar_t) (push : mmu_push) : mmu_push :=
  match membar with
  | UVM_MEMBAR_NONE => push
  | _ => push_method (HostMembar membar) push
  end.

Definition uvm_hal_wfi_membar (membar : uvm_membar_t) (push : mmu_push) : mmu_push :=
  uvm_hal_membar membar (wait_for_idle push).

(** ** Copy engine

    The Maxwell copy engine, for transfers of less than 4GB, which are one command
    each.  That a transfer is valid on its channel ([memcopy_is_valid],
    [memset_is_valid]) and that the push has room for the command are not modelled
    here. *)
Definition maxwell_membar_after_transfer (push : mmu_push) : mmu_push :=
  let '(none, push) := uvm_push_get_and_reset_flag UVM_PUSH_FLAG_NEXT_MEMBAR_NONE push in
  if none then push
  else
    let push := wait_for_idle push in
    let '(gpu, push) := uvm_push_get_and_reset_flag UVM_PUSH_FLAG_NEXT_MEMBAR_GPU push in
    push_method (HostMembar (if gpu then UVM_MEMBAR_GPU else UVM_MEMBAR_SYS)) push.

Definition ce_memcopy (dst : uvm_gpu_phys_address_t) (words : list Z) (push : mmu_push) : mmu_push :=
  let '(pipelined, push) := uvm_push_get_and_reset_flag UVM_PUSH_FLAG_CE_NEXT_PIPELINED push in
  maxwell_membar_after_transfer (push_method (CeWrite pipelined dst words) push).

Definition ce_memset_8 (dst : uvm_gpu_phys_address_t) (value size : Z) (push : mmu_push) : option mmu_push :=
  UVM_ASSERT size mod 8 =? 0;
  let '(pipelined, push) := uvm_push_get_and_reset_flag UVM_PUSH_FLAG_CE_NEXT_PIPELINED push in
  Some (maxwell_membar_after_transfer (push_method (CeMemset pipelined dst value (size / 8)) push)).

(** ** Inline data, in words of eight bytes *)
Definition inline_data_add (data words : list Z) : option (list Z) :=
  let data := data ++ words in
  UVM_ASSERT 8 * Z.of_nat (length data) <=? UVM_PUSH_INLINE_DATA_MAX_SIZE;
  Some data.

(** ** What the commands write *)
Notation word_write := (uvm_gpu_phys_address_t * Z)%type.
Notation memory := (gmap uvm_gpu_phys_address_t Z).

Definition addr_add (a : uvm_gpu_phys_address_t) (n : Z) : uvm_gpu_phys_address_t :=
  phys_address (aperture a) (address a + n).

Fixpoint words_at (dst : uvm_gpu_phys_address_t) (words : list Z) : list word_write :=
  match words with
  | [] => []
  | w :: words => (dst, w) :: words_at (addr_add dst 8) words
  end.

Definition method_writes (g : gpu_method) : list word_write :=
  match g with
  | CeWrite _ dst words => words_at dst words
  | CeMemset _ dst value count => words_at dst (replicate (Z.to_nat count) value)
  | _ => []
  end.

Definition methods_writes (l : list gpu_method) : list word_write := l ≫= method_writes.

(** ** Facts *)
Lemma addr_add_0 a : addr_add a 0 = a.
Proof. destruct a. unfold addr_add. simpl. by rewrite Z.add_0_r. Qed.
Lemma addr_add_add a x y : addr_add (addr_add a x) y = addr_add a (x + y).
Proof. unfold addr_add. simpl. by rewrite Z.add_assoc. Qed.
Lemma aperture_addr_add a n : aperture (addr_add a n) = aperture a.
Proof. done. Qed.

Lemma words_at_app dst l1 l2 :
  words_at dst (l1 ++ l2) = words_at dst l1 ++ words_at (addr_add dst (8 * Z.of_nat (length l1))) l2.
Proof.
  revert dst. induction l1 as [|w l1 IH]; intros dst; simpl; [by rewrite addr_add_0|].
  rewrite IH, addr_add_add. do 3 f_equal. f_equal. lia.
Qed.

Lemma methods_writes_app l1 l2 : methods_writes (l1 ++ l2) = methods_writes l1 ++ methods_writes l2.
Proof. apply bind_app. Qed.

Lemma words_at_length dst ws : length (words_at dst ws) = length ws.
Proof. revert dst. induction ws as [|w ws IH]; intros dst; simpl; [done|by rewrite IH]. Qed.

Lemma words_at_lookup dst ws i :
  words_at dst ws !! i = (fun w => (addr_add dst (8 * Z.of_nat i), w)) <$> ws !! i.
Proof.
  revert dst i. induction ws as [|w ws IH]; intros dst [|i]; simpl; [done..|by rewrite addr_add_0|].
  rewrite IH, addr_add_add. destruct (ws !! i); simpl; [|done]. do 3 f_equal. lia.
Qed.

(** A transfer that is asked to do no barrier appends just itself. *)
Lemma ce_memcopy_none dst words push : flag_membar_none push = true ->
  ce_memcopy dst words push = (push_method (CeWrite (flag_pipelined push) dst words) push)
    <| flag_pipelined := false |> <| flag_membar_none := false |>.
Proof. by destruct push as [l [] g p]. Qed.

Lemma ce_memset_8_none dst value size push : flag_membar_none push = true -> size mod 8 = 0 ->
  ce_memset_8 dst value size push =
    Some ((push_method (CeMemset (flag_pipelined push) dst value (size / 8)) push)
            <| flag_pipelined := false |> <| flag_membar_none := false |>).
Proof. intros H H8. unfold ce_memset_8. rewrite H8. by destruct push as [l [] g p]. Qed.
