(* ===== verification/PteBatch.v ===== *)
(** * Batches of page table entry writes

    Model of kernel-open/nvidia-uvm/uvm_pte_batch.{c,h}.  A batch collects writes
    of page table entries at consecutive addresses: up to four are queued and
    become separate fills, more are copied from inline data of the push.  The end
    of the batch is one barrier for all of them.

    [pte_batch_refines] compares what the commands of a batch write with the
    requests, one by one. *)

From S2P Require Import Prelude PageMask Push MmuTypes MmuPush.

Definition UVM_PTE_BATCH_MAX_PTES : Z := 4.

Record uvm_pte_batch_t := mk_pte_batch {
  batch_push : mmu_push;
  inline_data : list Z;
  inlining : bool;
  pte_first_address : uvm_gpu_phys_address_t;
  pte_entry_size : Z;
  pte_bits_queue : list Z;
  pte_count : Z;
  batch_membar : uvm_membar_t;
}.

#[export] Instance eta_pte_batch : Settable uvm_pte_batch_t := fun r =>
  mk_pte_batch (batch_push r) (inline_data r) (inlining r) (pte_first_address r) (pte_entry_size r)
    (pte_bits_queue r) (pte_count r) (batch_membar r).

(** [memset] makes the address zero in the aperture that is numbered zero. *)
Definition uvm_pte_batch_begin (push : mmu_push) : uvm_pte_batch_t :=
  mk_pte_batch push [] false (phys_address (UVM_APERTURE_PEER 0) 0) 0
    (replicate (Z.to_nat UVM_PTE_BATCH_MAX_PTES) 0) 0 UVM_MEMBAR_GPU.

Definition set_transfer_flags (push : mmu_push) : mmu_push :=
  uvm_push_set_flag UVM_PUSH_FLAG_CE_NEXT_PIPELINED (uvm_push_set_flag UVM_PUSH_FLAG_NEXT_MEMBAR_NONE push).

Definition uvm_pte_batch_flush_ptes_inline (batch : uvm_pte_batch_t) : option uvm_pte_batch_t :=
  let ptes_size := NvU32 (pte_count batch * pte_entry_size batch) in
  UVM_ASSERT negb (pte_count batch =? 0);
  UVM_ASSERT inlining batch;
  UVM_ASSERT ptes_size =? 8 * Z.of_nat (length (inline_data batch));
  let push := set_transfer_flags (batch_push batch) in
  Some (batch <| inlining := false |>
              <| batch_push := ce_memcopy (pte_first_address batch) (inline_data batch) push |>).

Fixpoint flush_memset_loop (addr : uvm_gpu_phys_address_t) (entry_size : Z) (queue : list Z) (count : nat)
    (push : mmu_push) {struct count} : option mmu_push :=
  match count with
  | O => Some push
  | S count =>
      match queue with
      | [] => None
      | bits :: queue =>
          push ← ce_memset_8 addr bits 8 (set_transfer_flags push);
          flush_memset_loop (addr_add addr entry_size) entry_size queue count push
      end
  end.

Definition uvm_pte_batch_flush_ptes_memset (batch : uvm_pte_batch_t) : option uvm_pte_batch_t :=
  UVM_ASSERT negb (pte_count batch =? 0);
  UVM_ASSERT negb (inlining batch);
  push ← flush_memset_loop (pte_first_address batch) (pte_entry_size batch) (pte_bits_queue batch)
           (Z.to_nat (pte_count batch)) (batch_push batch);
  Some (batch <| batch_push := push |>).

Definition uvm_pte_batch_flush_ptes (batch : uvm_pte_batch_t) : option uvm_pte_batch_t :=
  if pte_count batch =? 0 then Some batch
  else
    batch ← (if inlining batch then uvm_pte_batch_flush_ptes_inline batch
             else uvm_pte_batch_flush_ptes_memset batch);
    Some (batch <| pte_count := 0 |>).

Definition uvm_pte_batch_write_consecutive_inline (batch : uvm_pte_batch_t) (pte_bits : Z) : option uvm_pte_batch_t :=
  let extra_size := NvU64 (pte_entry_size batch - 8) in
  UVM_ASSERT extra_size <? pte_entry_size batch;
  UVM_ASSERT inlining batch;
  data ← inline_data_add (inline_data batch) [pte_bits];
  data ← (if negb (extra_size =? 0) then inline_data_add data (replicate (Z.to_nat (extra_size / 8)) 0) else Some data);
  Some (batch <| inline_data := data |>).

Definition uvm_pte_batch_write_consecutive (batch : uvm_pte_batch_t) (pte_bits : Z) : option uvm_pte_batch_t :=
  batch ←
    (if inlining batch then uvm_pte_batch_write_consecutive_inline batch pte_bits
     else
       UVM_ASSERT pte_count batch <? UVM_PTE_BATCH_MAX_PTES;
       Some (batch <| pte_bits_queue := <[Z.to_nat (pte_count batch) := pte_bits]> (pte_bits_queue batch) |>));
  Some (batch <| pte_count := pte_count batch + 1 |>).

Fixpoint begin_inline_loop (queue : list Z) (count : nat) (batch : uvm_pte_batch_t) {struct count} : option uvm_pte_batch_t :=
  match count with
  | O => Some batch
  | S count =>
      match queue with
      | [] => None
      | bits :: queue => batch ← uvm_pte_batch_write_consecutive_inline batch bits; begin_inline_loop queue count batch
      end
  end.

Definition pte_batch_begin_inline (batch : uvm_pte_batch_t) : option uvm_pte_batch_t :=
  UVM_ASSERT negb (inlining batch);
  let batch := batch <| inlining := true |> <| inline_data := [] |> in
  begin_inline_loop (pte_bits_queue batch) (Z.to_nat (pte_count batch)) batch.

Definition note_aperture (pte : uvm_gpu_phys_address_t) (batch : uvm_pte_batch_t) : uvm_pte_batch_t :=
  if is_sys pte then batch <| batch_membar := UVM_MEMBAR_SYS |> else batch.

(** The loop of [uvm_pte_batch_write_ptes]; [pte_bits] is what is left of the buffer. *)
Fixpoint write_ptes_loop (fuel : nat) (batch : uvm_pte_batch_t) (first_pte : uvm_gpu_phys_address_t)
    (pte_bits : list Z) (entry_size entry_count : Z) : option uvm_pte_batch_t :=
  if 0 <? entry_count then
    match fuel with
    | O => None
    | S fuel =>
        let max_entries := UVM_PUSH_INLINE_DATA_MAX_SIZE / entry_size in
        batch ← uvm_pte_batch_flush_ptes batch;
        batch ← pte_batch_begin_inline batch;
        let entries_this_time := Z.min max_entries entry_count in
        let words := Z.to_nat (entries_this_time * (entry_size / 8)) in
        UVM_ASSERT bool_decide (words <= length pte_bits)%nat;
        data ← inline_data_add (inline_data batch) (take words pte_bits);
        let batch := batch <| inline_data := data |> <| pte_entry_size := entry_size |>
                           <| pte_first_address := first_pte |> <| pte_count := entries_this_time |> in
        write_ptes_loop fuel batch (addr_add first_pte (entries_this_time * entry_size)) (drop words pte_bits)
          entry_size (entry_count - entries_this_time)
    end
  else Some batch.

Definition uvm_pte_batch_write_ptes (batch : uvm_pte_batch_t) (first_pte : uvm_gpu_phys_address_t)
    (pte_bits : list Z) (entry_size entry_count : Z) : option uvm_pte_batch_t :=
  write_ptes_loop (Z.to_nat entry_count) (note_aperture first_pte batch) first_pte pte_bits entry_size entry_count.

Definition uvm_pte_batch_write_pte (batch : uvm_pte_batch_t) (pte : uvm_gpu_phys_address_t) (pte_bits pte_size : Z)
    : option uvm_pte_batch_t :=
  let consecutive_pte_address := addr_add (pte_first_address batch) (NvU32 (pte_count batch * pte_size)) in
  let batch := note_aperture pte batch in
  let needs_flush :=
    (UVM_PUSH_INLINE_DATA_MAX_SIZE <? NvU32 ((pte_count batch + 1) * pte_entry_size batch))
    || bool_decide (pte <> consecutive_pte_address)
    || negb (pte_entry_size batch =? pte_size) in
  batch ←
    (if needs_flush then
       batch ← uvm_pte_batch_flush_ptes batch;
       Some (batch <| pte_first_address := pte |> <| pte_entry_size := pte_size |>)
     else Some batch);
  batch ←
    (if negb (inlining batch) && (pte_count batch =? UVM_PTE_BATCH_MAX_PTES) then pte_batch_begin_inline batch
     else Some batch);
  uvm_pte_batch_write_consecutive batch pte_bits.

Definition uvm_pte_batch_clear_ptes (batch : uvm_pte_batch_t) (first_pte : uvm_gpu_phys_address_t)
    (empty_pte_bits entry_size entry_count : Z) : option uvm_pte_batch_t :=
  batch ← uvm_pte_batch_flush_ptes batch;
  push ← ce_memset_8 first_pte empty_pte_bits (NvU32 (entry_size * entry_count)) (set_transfer_flags (batch_push batch));
  Some (note_aperture first_pte (batch <| batch_push := push |>)).

Definition uvm_pte_batch_end (batch : uvm_pte_batch_t) : option mmu_push :=
  batch ← uvm_pte_batch_flush_ptes batch;
  Some (uvm_hal_wfi_membar (batch_membar batch) (batch_push batch)).

Definition uvm_pte_batch_single_write_ptes (push : mmu_push) (first_pte : uvm_gpu_phys_address_t) (pte_bits : list Z)
    (entry_size entry_count : Z) : option mmu_push :=
  batch ← uvm_pte_batch_write_ptes (uvm_pte_batch_begin push) first_pte pte_bits entry_size entry_count;
  uvm_pte_batch_end batch.

(** ** Requests *)
Inductive pte_request :=
| WritePtes (first : uvm_gpu_phys_address_t) (words : list Z) (size count : Z)
| WritePte (pte : uvm_gpu_phys_address_t) (bits size : Z)
| ClearPtes (first : uvm_gpu_phys_address_t) (bits size count : Z).

Definition serve (batch : uvm_pte_batch_t) (r : pte_request) : option uvm_pte_batch_t :=
  match r with
  | WritePtes first words size count => uvm_pte_batch_write_ptes batch first words size count
  | WritePte pte bits size => uvm_pte_batch_write_pte batch pte bits size
  | ClearPtes first bits size count => uvm_pte_batch_clear_ptes batch first bits size count
  end.

Fixpoint serve_all (batch : uvm_pte_batch_t) (rs : list pte_request) : option uvm_pte_batch_t :=
  match rs with
  | [] => Some batch
  | r :: rs => batch ← serve batch r; serve_all batch rs
  end.

Definition pte_batch (push : mmu_push) (rs : list pte_request) : option mmu_push :=
  batch ← serve_all (uvm_pte_batch_begin push) rs; uvm_pte_batch_end batch.

Definition request_address (r : pte_request) : uvm_gpu_phys_address_t :=
  match r with WritePtes a _ _ _ | WritePte a _ _ | ClearPtes a _ _ _ => a end.

(** Entries have one or two words; a request covers less than 4GB of them. *)
Definition request_ok (r : pte_request) : Prop :=
  match r with
  | WritePtes _ words size count => (size = 8 \/ size = 16) /\ 0 < count /\
      Z.of_nat (length words) = count * (size / 8)
  | WritePte _ _ size => size = 8 \/ size = 16
  | ClearPtes _ _ size count => (size = 8 \/ size = 16) /\ 0 <= count < 2 ^ 28
  end.

(** What a request writes.  A single entry of two words is written with a zero
    second word, or its second word is left alone ([zero = false]). *)
Definition request_writes (zero : bool) (r : pte_request) : list word_write :=
  match r with
  | WritePtes first words _ _ => words_at first words
  | WritePte pte bits size => words_at pte (bits :: if zero then replicate (Z.to_nat (size / 8 - 1)) 0 else [])
  | ClearPtes first bits size count => words_at first (replicate (Z.to_nat (size * count / 8)) bits)
  end.

Definition requests_writes (zs : list bool) (rs : list pte_request) : list word_write :=
  concat (zip_with request_writes zs rs).

Definition transfer_ok (g : gpu_method) : Prop :=
  match g with
  | CeWrite p _ words => p = true /\ 8 * Z.of_nat (length words) <= UVM_PUSH_INLINE_DATA_MAX_SIZE
  | CeMemset p _ _ _ => p = true
  | _ => False
  end.

Definition queued (first : uvm_gpu_phys_address_t) (size : Z) (bits : list Z) : list pte_request :=
  imap (fun i w => WritePte (addr_add first (Z.of_nat i * size)) w size) bits.

(** The batch is well formed, and its commands so far write [W]. *)
Record batch_ok (push : mmu_push) (b : uvm_pte_batch_t) (W : list word_write) : Prop := {
  bo_flags : flag_membar_gpu (batch_push b) = flag_membar_gpu push;
  bo_queue : length (pte_bits_queue b) = 4%nat;
  bo_count : 0 <= pte_count b;
  bo_size : 0 < pte_count b -> pte_entry_size b = 8 \/ pte_entry_size b = 16;
  bo_methods : exists l, methods (batch_push b) = methods push ++ l /\ Forall transfer_ok l /\ methods_writes l = W;
  bo_inlining : inlining b = true -> 0 < pte_count b /\
    8 * Z.of_nat (length (inline_data b)) = pte_count b * pte_entry_size b /\
    8 * Z.of_nat (length (inline_data b)) <= UVM_PUSH_INLINE_DATA_MAX_SIZE;
  bo_queued : inlining b = false -> pte_count b <= UVM_PTE_BATCH_MAX_PTES
}.

(** [rs] are the requests so far: they are written or pending. *)
Definition batch_inv (push : mmu_push) (rs : list pte_request) (b : uvm_pte_batch_t) : Prop :=
  exists W, batch_ok push b W /\
    if inlining b then
      exists zs, length zs = length rs /\ W ++ words_at (pte_first_address b) (inline_data b) = requests_writes zs rs
    else
      exists rs1 zs1, length zs1 = length rs1 /\ W = requests_writes zs1 rs1 /\
        rs = rs1 ++ queued (pte_first_address b) (pte_entry_size b) (take (Z.to_nat (pte_count b)) (pte_bits_queue b)).

Definition membar_for (rs : list pte_request) : uvm_membar_t :=
  if existsb (fun r => is_sys (request_address r)) rs then UVM_MEMBAR_SYS else UVM_MEMBAR_GPU.

Lemma requests_writes_app zs1 zs2 rs1 rs2 : length zs1 = length rs1 ->
  requests_writes (zs1 ++ zs2) (rs1 ++ rs2) = requests_writes zs1 rs1 ++ requests_writes zs2 rs2.
Proof. intros H. unfold requests_writes. by rewrite zip_with_app, concat_app. Qed.

Lemma queued_cons first size w bits :
  queued first size (w :: bits) = WritePte first w size :: queued (addr_add first size) size bits.
Proof.
  unfold queued. simpl. rewrite addr_add_0. f_equal. apply imap_ext. intros i x _. simpl.
  rewrite addr_add_add. do 2 f_equal. lia.
Qed.

Lemma queued_snoc first size bits w :
  queued first size (bits ++ [w]) = queued first size bits ++ [WritePte (addr_add first (Z.of_nat (length bits) * size)) w size].
Proof. unfold queued. rewrite imap_app. simpl. do 4 f_equal. lia. Qed.

Lemma queued_length first size bits : length (queued first size bits) = length bits.
Proof. unfold queued. apply length_imap. Qed.

(** The fills of a queue. *)
Lemma flush_memset_loop_ok addr size queue n push : (n <= length queue)%nat ->
  exists l push', flush_memset_loop addr size queue n push = Some push' /\
    flag_membar_gpu push' = flag_membar_gpu push /\ methods push' = methods push ++ l /\ Forall transfer_ok l /\
    methods_writes l = requests_writes (replicate n false) (queued addr size (take n queue)).
Proof.
  revert addr queue push. induction n as [|n IH]; intros addr queue push Hn.
  - exists [], push. simpl. rewrite app_nil_r. split_and!; [done..|constructor|done].
  - destruct queue as [|w queue]; [simpl in Hn; lia|]. cbn [flush_memset_loop].
    rewrite ce_memset_8_none by done. cbn [mbind option_bind].
    edestruct (IH (addr_add addr size) queue) as (l & push' & -> & Hf & Hm & Ht & Hw); [simpl in Hn; lia|].
    exists (CeMemset true addr w 1 :: l), push'. split; [done|]. split; [by rewrite Hf|].
    split; [rewrite Hm; simpl; by rewrite <- app_assoc|]. split; [by constructor|].
    simpl firstn. rewrite queued_cons. cbn [methods_writes]. unfold requests_writes in *. simpl. by rewrite <- Hw.
Qed.

Lemma note_aperture_fields pte b : note_aperture pte b = b <| batch_membar := if is_sys pte then UVM_MEMBAR_SYS else batch_membar b |>.
Proof. unfold note_aperture. by destruct (is_sys pte), b. Qed.

(** The two entry sizes. *)
Ltac size_cases Hs :=
  destruct Hs as [-> | ->]; [change (8 / 8) with 1 in *|change (16 / 8) with 2 in *].

Lemma inline_max_size : UVM_PUSH_INLINE_DATA_MAX_SIZE = 32764.
Proof. done. Qed.

Section batch.
Context (push : mmu_push).

(** A flushed batch has nothing pending. *)
Definition flushed (b b' : uvm_pte_batch_t) (W : list word_write) : Prop :=
  batch_ok push b' W /\ pte_count b' = 0 /\ inlining b' = false /\ batch_membar b' = batch_membar b.

Lemma batch_ok_push b W l push' : batch_ok push b W ->
  flag_membar_gpu push' = flag_membar_gpu (batch_push b) -> methods push' = methods (batch_push b) ++ l ->
  Forall transfer_ok l ->
  batch_ok push (b <| batch_push := push' |> <| inlining := false |> <| pte_count := 0 |>) (W ++ methods_writes l).
Proof.
  intros [Hf Hq Hc Hs (l0 & Hm & Ht & Hw) Hi Hn] Hf' Hm' Ht'. constructor; simpl; try done; try lia; [congruence|].
  exists (l0 ++ l). rewrite Hm', Hm, app_assoc. split; [done|]. split; [by apply Forall_app|].
  by rewrite methods_writes_app, Hw.
Qed.

Lemma flush_inline b W : batch_ok push b W -> inlining b = true ->
  exists b', uvm_pte_batch_flush_ptes b = Some b' /\
    flushed b b' (W ++ words_at (pte_first_address b) (inline_data b)).
Proof.
  intros Hb Ei. pose proof Hb as [Hf Hq Hc Hs _ Hi _]. destruct (Hi Ei) as (Hpos & Hl & Hmax). rewrite inline_max_size in Hmax.
  unfold uvm_pte_batch_flush_ptes, uvm_pte_batch_flush_ptes_inline. replace (pte_count b =? 0) with false by lia.
  rewrite Ei. cbn [negb]. unfold NvU32. rewrite wrap_small by (unfold in_width; lia). rewrite Hl, Z.eqb_refl.
  cbn [mbind option_bind]. eexists. split; [reflexivity|]. split; [|done].
  replace (words_at _ _) with (methods_writes [CeWrite true (pte_first_address b) (inline_data b)])
    by (simpl; by rewrite app_nil_r).
  edestruct (batch_ok_push b W [CeWrite true (pte_first_address b) (inline_data b)]
    (ce_memcopy (pte_first_address b) (inline_data b) (set_transfer_flags (batch_push b))) Hb) as [? ? ? ? ? ? ?].
  1-2: by rewrite ce_memcopy_none.
  { constructor; [|done]. split; [done|]. by rewrite inline_max_size. }
  constructor; done.
Qed.

Lemma flush_queue b W : batch_ok push b W -> inlining b = false ->
  exists b', uvm_pte_batch_flush_ptes b = Some b' /\
    flushed b b' (W ++ requests_writes (replicate (Z.to_nat (pte_count b)) false)
      (queued (pte_first_address b) (pte_entry_size b) (take (Z.to_nat (pte_count b)) (pte_bits_queue b)))).
Proof.
  intros Hb Ei. pose proof Hb as [Hf Hq Hc Hs _ _ Hn]. specialize (Hn Ei). unfold UVM_PTE_BATCH_MAX_PTES in Hn.
  unfold uvm_pte_batch_flush_ptes, uvm_pte_batch_flush_ptes_memset. destruct (Z.eqb_spec (pte_count b) 0) as [E|E].
  { exists b. split; [done|]. rewrite E. simpl. unfold requests_writes. simpl. by rewrite app_nil_r. }
  rewrite Ei. cbn [negb].
  edestruct (flush_memset_loop_ok (pte_first_address b) (pte_entry_size b) (pte_bits_queue b) (Z.to_nat (pte_count b)) (batch_push b))
    as (l & push' & -> & Hf' & Hm' & Ht' & Hw'); [lia|].
  cbn [mbind option_bind]. eexists. split; [reflexivity|]. split; [|done].
  pose proof (batch_ok_push b W l _ Hb Hf' Hm' Ht') as H. rewrite Hw' in H. destruct H. constructor; simpl in *; try done; by rewrite Ei.
Qed.

(** Flushing settles the requests. *)
Lemma flush_ok rs b : batch_inv push rs b ->
  exists b' zs, uvm_pte_batch_flush_ptes b = Some b' /\ length zs = length rs /\ flushed b b' (requests_writes zs rs).
Proof.
  intros (W & Hb & Hp). destruct (inlining b) eqn:Ei.
  - destruct Hp as (zs & Hz & Hw). destruct (flush_inline b W Hb Ei) as (b' & E & H). rewrite Hw in H. eauto.
  - destruct Hp as (rs1 & zs1 & Hz & -> & ->). destruct (flush_queue b _ Hb Ei) as (b' & E & H).
    exists b', (zs1 ++ replicate (Z.to_nat (pte_count b)) false). split; [done|].
    rewrite requests_writes_app by done. split; [|done].
    destruct Hb as [? Hq ? ? _ _ Hn]. specialize (Hn Ei). unfold UVM_PTE_BATCH_MAX_PTES in Hn.
    rewrite !length_app, queued_length, length_replicate, length_take. lia.
Qed.

Definition entry_words (size bits : Z) : list Z := bits :: replicate (Z.to_nat (size / 8 - 1)) 0.

Lemma entry_words_length size bits : size = 8 \/ size = 16 -> 8 * Z.of_nat (length (entry_words size bits)) = size.
Proof. by intros [-> | ->]. Qed.

Lemma write_consecutive_inline_ok b bits : pte_entry_size b = 8 \/ pte_entry_size b = 16 -> inlining b = true ->
  8 * Z.of_nat (length (inline_data b)) + pte_entry_size b <= UVM_PUSH_INLINE_DATA_MAX_SIZE ->
  uvm_pte_batch_write_consecutive_inline b bits =
    Some (b <| inline_data := inline_data b ++ entry_words (pte_entry_size b) bits |>).
Proof.
  intros Hs Hi Hmax. unfold uvm_pte_batch_write_consecutive_inline, inline_data_add, entry_words. rewrite Hi.
  rewrite inline_max_size in *. rewrite length_app. cbn [length].
  destruct Hs as [E|E]; rewrite E in *;
    rewrite (proj2 (Z.leb_le (8 * Z.of_nat (length (inline_data b) + 1)) 32764)) by lia;
    cbn -[Z.leb Z.mul length app]; [done|].
  change (replicate (Z.to_nat (NvU64 (16 - 8) / 8)) 0) with [0]. change (NvU64 (16 - 8)) with 8. cbn -[Z.leb Z.mul app].
  rewrite !length_app. cbn [length].
  match goal with |- context [?x <=? 32764] => rewrite (proj2 (Z.leb_le x 32764)) by lia end.
  cbn [mbind option_bind]. by rewrite <- app_assoc.
Qed.

Lemma begin_inline_loop_ok queue n b : (n <= length queue)%nat -> pte_entry_size b = 8 \/ pte_entry_size b = 16 ->
  inlining b = true ->
  8 * Z.of_nat (length (inline_data b)) + Z.of_nat n * pte_entry_size b <= UVM_PUSH_INLINE_DATA_MAX_SIZE ->
  begin_inline_loop queue n b =
    Some (b <| inline_data := inline_data b ++ (take n queue ≫= entry_words (pte_entry_size b)) |>).
Proof.
  revert queue b. induction n as [|n IH]; intros queue b Hn Hs Hi Hmax; cbn [begin_inline_loop].
  - simpl. rewrite app_nil_r. by destruct b.
  - destruct queue as [|w queue]; [simpl in Hn; lia|]. rewrite write_consecutive_inline_ok by (done || lia).
    cbn [mbind option_bind]. rewrite IH; [|simpl in Hn; lia|done..|].
    + simpl. by rewrite <- app_assoc.
    + simpl. rewrite length_app, Nat2Z.inj_add. pose proof (entry_words_length (pte_entry_size b) w Hs). lia.
Qed.

Lemma queued_inline first size bits : size = 8 \/ size = 16 ->
  words_at first (bits ≫= entry_words size) = requests_writes (replicate (length bits) true) (queued first size bits).
Proof.
  intros Hs. revert first. induction bits as [|w bits IH]; intros first; [done|].
  rewrite queued_cons. cbn [length replicate mbind list_bind]. rewrite words_at_app, entry_words_length, IH by done. done.
Qed.

Lemma bind_entry_length size bits : size = 8 \/ size = 16 ->
  8 * Z.of_nat (length (bits ≫= entry_words size)) = Z.of_nat (length bits) * size.
Proof.
  intros Hs. induction bits as [|w bits IH]; [done|]. cbn [length mbind list_bind]. rewrite length_app, Nat2Z.inj_add.
  pose proof (entry_words_length size w Hs). lia.
Qed.

(** Switching from the queue to inline data. *)
Lemma begin_inline_ok rs b : batch_inv push rs b -> inlining b = false -> 0 < pte_count b ->
  exists b', pte_batch_begin_inline b = Some b' /\ batch_inv push rs b' /\ inlining b' = true /\
    pte_first_address b' = pte_first_address b /\ pte_entry_size b' = pte_entry_size b /\
    pte_count b' = pte_count b /\ batch_membar b' = batch_membar b.
Proof.
  intros (W & Hb & Hp) Hi Hpos. rewrite Hi in Hp. destruct Hp as (rs1 & zs1 & Hz & -> & ->).
  destruct Hb as [Hf Hq Hc Hs Hm _ Hn]. specialize (Hn Hi). specialize (Hs Hpos). unfold UVM_PTE_BATCH_MAX_PTES in Hn.
  unfold pte_batch_begin_inline. rewrite Hi. cbn [negb].
  rewrite begin_inline_loop_ok; [|simpl; lia|done..|simpl; rewrite inline_max_size; lia].
  eexists. split; [reflexivity|]. split; [|done]. simpl.
  set (q := take (Z.to_nat (pte_count b)) (pte_bits_queue b)).
  assert (Hl : Z.of_nat (length q) = pte_count b) by (unfold q; rewrite length_take; lia).
  exists (requests_writes zs1 rs1). split.
  - constructor; simpl; try done. intros _. split; [done|]. rewrite bind_entry_length, Hl, inline_max_size by done. lia.
  - simpl. exists (zs1 ++ replicate (length q) true). split; [rewrite !length_app, queued_length, length_replicate; lia|].
    rewrite requests_writes_app by done. f_equal. by apply queued_inline.
Qed.

Lemma batch_inv_membar rs b m : batch_inv push rs b -> batch_inv push rs (b <| batch_membar := m |>).
Proof. intros (W & [] & Hp). exists W. by split; [constructor|]. Qed.

(** An entry that follows the pending ones. *)
Lemma write_consecutive_ok rs b bits size : batch_inv push rs b -> size = 8 \/ size = 16 -> pte_entry_size b = size ->
  (pte_count b + 1) * size <= UVM_PUSH_INLINE_DATA_MAX_SIZE ->
  (inlining b = false -> pte_count b < UVM_PTE_BATCH_MAX_PTES) ->
  exists b', uvm_pte_batch_write_consecutive b bits = Some b' /\ batch_membar b' = batch_membar b /\
    batch_inv push (rs ++ [WritePte (addr_add (pte_first_address b) (pte_count b * size)) bits size]) b'.
Proof.
  intros (W & [Hf Hq Hc _ Hm Hi Hn] & Hp) Hs He Hmax Hlt. unfold uvm_pte_batch_write_consecutive.
  destruct (inlining b) eqn:Ei.
  - destruct (Hi eq_refl) as (Hpos & Hl & Hl'). destruct Hp as (zs & Hz & Hw).
    rewrite write_consecutive_inline_ok by (rewrite ?He; done || lia). cbn [mbind option_bind]. rewrite He.
    eexists. split; [reflexivity|]. split; [done|]. exists W. simpl. rewrite Ei.
    pose proof (entry_words_length size bits Hs) as Hel. split.
    + constructor; simpl; try done; [lia|by rewrite He| |by rewrite Ei]. intros _. rewrite length_app, He in *. lia.
    + exists (zs ++ [true]). split; [rewrite !length_app; simpl; lia|].
      rewrite words_at_app, app_assoc, Hw, requests_writes_app by done. f_equal. unfold requests_writes. simpl.
      rewrite app_nil_r. rewrite Hl, He. done.
  - specialize (Hlt eq_refl). destruct Hp as (rs1 & zs1 & Hz & -> & ->).
    rewrite (proj2 (Z.ltb_lt _ _) Hlt). cbn [mbind option_bind]. eexists. split; [reflexivity|]. split; [done|].
    unfold UVM_PTE_BATCH_MAX_PTES in *. exists (requests_writes zs1 rs1). simpl. rewrite Ei. split.
    + constructor; simpl; try done; [by rewrite length_insert|lia|by rewrite He|by rewrite Ei|unfold UVM_PTE_BATCH_MAX_PTES; lia].
    + exists rs1, zs1. split; [done|]. split; [done|]. rewrite <- app_assoc. f_equal.
      replace (Z.to_nat (pte_count b + 1)) with (S (Z.to_nat (pte_count b))) by lia.
      rewrite (take_S_r _ _ bits) by (apply list_lookup_insert_eq; lia). rewrite take_insert_ge by lia.
      rewrite queued_snoc, length_take, He. do 3 f_equal. f_equal. lia.
Qed.

Lemma write_pte_ok rs b pte bits size : batch_inv push rs b -> size = 8 \/ size = 16 ->
  exists b', uvm_pte_batch_write_pte b pte bits size = Some b' /\
    batch_membar b' = (if is_sys pte then UVM_MEMBAR_SYS else batch_membar b) /\
    batch_inv push (rs ++ [WritePte pte bits size]) b'.
Proof.
  intros Hinv Hs. unfold uvm_pte_batch_write_pte. rewrite note_aperture_fields.
  set (b0 := b <| batch_membar := if is_sys pte then UVM_MEMBAR_SYS else batch_membar b |>).
  assert (H0 : batch_inv push rs b0) by by apply batch_inv_membar.
  set (flush := _ || _ || _).
  (* after the flush *)
  assert (exists b1, (if flush then batch ← uvm_pte_batch_flush_ptes b0;
       Some (batch <| pte_first_address := pte |> <| pte_entry_size := size |>) else Some b0) = Some b1 /\
       batch_inv push rs b1 /\ batch_membar b1 = batch_membar b0 /\ pte_entry_size b1 = size /\
       pte = addr_add (pte_first_address b1) (pte_count b1 * size) /\
       (pte_count b1 + 1) * size <= UVM_PUSH_INLINE_DATA_MAX_SIZE) as (b1 & -> & H1 & Hm1 & He1 & Hp1 & Hmax1).
  { destruct flush eqn:Ef.
    - destruct (flush_ok rs b0 H0) as (b' & zs & -> & Hz & [Hq Hf Hc Hes Hl Hi Hn] & Hc0 & Hi0 & Hm).
      cbn [mbind option_bind]. eexists. split; [reflexivity|]. simpl. rewrite Hc0, addr_add_0, inline_max_size.
      split_and!; try done; [|lia]. exists (requests_writes zs rs). split.
      + constructor; simpl; try done; rewrite ?Hi0; done.
      + simpl. rewrite Hi0, Hc0. exists rs, zs. simpl. by rewrite app_nil_r.
    - exists b0. split; [done|]. split; [done|]. split; [done|]. unfold flush in Ef.
      rewrite !orb_false_iff, negb_false_iff, Z.eqb_eq, bool_decide_eq_false, Z.ltb_ge in Ef.
      destruct Ef as [[Ef1 Ef2] Ef3]. apply dec_stable in Ef2. split; [done|].
      destruct H0 as (W & [_ _ Hc _ _ Hi Hn] & _).
      assert (Hb : 0 <= pte_count b0 * size <= 32764).
      { destruct (inlining b0) eqn:Ei.
        - destruct (Hi eq_refl) as (_ & Hl & Hl'). rewrite inline_max_size, Hl, Ef3 in Hl'. lia.
        - specialize (Hn eq_refl). unfold UVM_PTE_BATCH_MAX_PTES in Hn. destruct Hs as [-> | ->]; lia. }
      unfold NvU32 in *. rewrite Ef3 in Ef1. change (pte_count b) with (pte_count b0) in Ef2.
      assert (0 < size <= 16) by (destruct Hs; lia). rewrite wrap_small in Ef1, Ef2 by (unfold in_width; lia). done. }
  cbn [mbind option_bind].
  (* after the switch to inline data *)
  assert (exists b2, (if negb (inlining b1) && (pte_count b1 =? UVM_PTE_BATCH_MAX_PTES) then pte_batch_begin_inline b1
      else Some b1) = Some b2 /\ batch_inv push rs b2 /\ batch_membar b2 = batch_membar b1 /\ pte_entry_size b2 = size /\
      pte_first_address b2 = pte_first_address b1 /\ pte_count b2 = pte_count b1 /\
      (inlining b2 = false -> pte_count b2 < UVM_PTE_BATCH_MAX_PTES)) as (b2 & -> & H2 & Hm2 & He2 & Hp2 & Hc2 & Hn2).
  { destruct (inlining b1) eqn:Ei; [exists b1; by rewrite Ei|]. destruct (Z.eqb_spec (pte_count b1) UVM_PTE_BATCH_MAX_PTES) as [E|E].
    - destruct (begin_inline_ok rs b1 H1 Ei) as (b2 & -> & ? & Hi2 & ? & ? & ? & ?); [by rewrite E|].
      exists b2. split_and!; try done; [congruence|by rewrite Hi2].
    - exists b1. split_and!; try done. intros _. destruct H1 as (W & [_ _ _ _ _ _ Hn] & _). specialize (Hn Ei). lia. }
  cbn [mbind option_bind].
  destruct (write_consecutive_ok rs b2 bits size H2 Hs He2) as (b3 & -> & Hm3 & H3); [by rewrite Hc2|done|].
  exists b3. split; [done|]. split; [by rewrite Hm3, Hm2, Hm1|]. by rewrite Hp1, <- Hp2, <- Hc2.
Qed.

(** A batch that writes [W] once it is flushed; one that is inlining and does. *)
Definition settles (b : uvm_pte_batch_t) (W : list word_write) : Prop :=
  exists b', uvm_pte_batch_flush_ptes b = Some b' /\ flushed b b' W.

Definition inlines (b : uvm_pte_batch_t) (W : list word_write) : Prop :=
  inlining b = true /\ exists W0, batch_ok push b W0 /\ W0 ++ words_at (pte_first_address b) (inline_data b) = W.

Lemma inlines_settles b W : inlines b W -> settles b W.
Proof. intros (Hi & W0 & Hb & <-). by apply flush_inline. Qed.

Lemma write_chunk b W first words size n : batch_ok push b W -> size = 8 \/ size = 16 -> 0 < n ->
  8 * Z.of_nat (length words) = n * size -> n * size <= UVM_PUSH_INLINE_DATA_MAX_SIZE ->
  inlines (b <| inlining := true |> <| inline_data := words |> <| pte_entry_size := size |>
             <| pte_first_address := first |> <| pte_count := n |>) (W ++ words_at first words).
Proof.
  intros [Hf Hq Hc _ Hm _ _] Hs Hn Hl Hmax. split; [done|]. exists W. split; [|done].
  constructor; simpl; try done; [lia|]. intros _. rewrite Hl. done.
Qed.

Lemma write_ptes_loop_ok fuel b W first words size n : settles b W -> size = 8 \/ size = 16 -> 0 < n ->
  (Z.to_nat n <= fuel)%nat -> Z.of_nat (length words) = n * (size / 8) ->
  exists b', write_ptes_loop fuel b first words size n = Some b' /\ batch_membar b' = batch_membar b /\
    inlines b' (W ++ words_at first words).
Proof.
  revert b W first words n. induction fuel as [|fuel IH]; intros b W first words n Hb Hs Hn Hf Hl; [lia|].
  cbn [write_ptes_loop]. rewrite (proj2 (Z.ltb_lt 0 n) Hn).
  destruct Hb as (b1 & -> & Hok & Hc1 & Hi1 & Hm1). cbn [mbind option_bind].
  unfold pte_batch_begin_inline. rewrite Hi1. simpl pte_count. rewrite Hc1.
  change (Z.to_nat 0) with 0%nat. cbn [negb begin_inline_loop mbind option_bind].
  set (k := Z.min (UVM_PUSH_INLINE_DATA_MAX_SIZE / size) n).
  assert (Hk : 0 < k <= n /\ k * size <= 32764).
  { unfold k. rewrite inline_max_size. destruct Hs as [-> | ->]; [change (32764 / 8) with 4095|change (32764 / 16) with 2047]; lia. }
  assert (Hwl : (Z.to_nat (k * (size / 8)) <= length words)%nat) by (size_cases Hs; lia).
  rewrite bool_decide_eq_true_2 by done. cbn [mbind option_bind]. unfold inline_data_add.
  match goal with |- context [inline_data ?b ++ _] => change (inline_data b) with (@nil Z) end. rewrite app_nil_l.
  set (ws := take (Z.to_nat (k * (size / 8))) words).
  assert (Hws : 8 * Z.of_nat (length ws) = k * size) by (unfold ws; rewrite length_take; size_cases Hs; lia).
  rewrite Hws, inline_max_size, (proj2 (Z.leb_le _ _) (proj2 Hk)). cbn [mbind option_bind].
  pose proof (write_chunk b1 W first ws size k Hok Hs (proj1 (proj1 Hk)) Hws ltac:(by rewrite inline_max_size; lia)) as Hin.
  set (b2 := b1 <| inlining := true |> <| inline_data := ws |> <| pte_entry_size := size |>
                <| pte_first_address := first |> <| pte_count := k |>) in Hin.
  replace (words_at first words) with (words_at first ws ++ words_at (addr_add first (k * size)) (drop (Z.to_nat (k * (size / 8))) words)).
  2:{ rewrite <- Hws, <- words_at_app. unfold ws. by rewrite take_drop. }
  rewrite app_assoc. destruct (Z.eq_dec n k) as [Ek|Ek].
  - exists b2. replace (n - k) with 0 by lia. split; [by destruct fuel|]. split; [exact Hm1|].
    rewrite (drop_ge words) by (size_cases Hs; lia). by rewrite app_nil_r.
  - destruct (IH b2 _ (addr_add first (k * size)) (drop (Z.to_nat (k * (size / 8))) words) (n - k) (inlines_settles _ _ Hin) Hs)
      as (b' & E & Hm & Ht); [lia|lia|rewrite length_drop; size_cases Hs; lia|].
    exists b'. split; [exact E|]. split; [by rewrite Hm, <- Hm1|done].
Qed.

Lemma write_ptes_ok rs b first words size n : batch_inv push rs b -> request_ok (WritePtes first words size n) ->
  exists b', uvm_pte_batch_write_ptes b first words size n = Some b' /\
    batch_membar b' = (if is_sys first then UVM_MEMBAR_SYS else batch_membar b) /\
    batch_inv push (rs ++ [WritePtes first words size n]) b'.
Proof.
  intros Hinv (Hs & Hn & Hl). unfold uvm_pte_batch_write_ptes. rewrite note_aperture_fields.
  set (b0 := b <| batch_membar := _ |>). assert (H0 : batch_inv push rs b0) by by apply batch_inv_membar.
  destruct (flush_ok rs b0 H0) as (b1 & zs & E & Hz & Hfl).
  destruct (write_ptes_loop_ok (Z.to_nat n) b0 (requests_writes zs rs) first words size n) as (b' & -> & Hm & Hi & W & Hok & Hw);
    [by exists b1|done..|].
  exists b'. split; [done|]. split; [by rewrite Hm|]. exists W. split; [done|]. rewrite Hi. exists (zs ++ [true]).
  split; [rewrite !length_app; simpl; lia|]. rewrite Hw, requests_writes_app by done. f_equal. unfold requests_writes.
  simpl. by rewrite app_nil_r.
Qed.

Lemma clear_ptes_ok rs b first bits size n : batch_inv push rs b -> request_ok (ClearPtes first bits size n) ->
  exists b', uvm_pte_batch_clear_ptes b first bits size n = Some b' /\
    batch_membar b' = (if is_sys first then UVM_MEMBAR_SYS else batch_membar b) /\
    batch_inv push (rs ++ [ClearPtes first bits size n]) b'.
Proof.
  intros Hinv (Hs & Hn). unfold uvm_pte_batch_clear_ptes.
  destruct (flush_ok rs b Hinv) as (b1 & zs & -> & Hz & Hok & Hc & Hi & Hm). cbn [mbind option_bind].
  assert (Hsize : 0 <= size * n < 2 ^ 32) by (size_cases Hs; lia).
  unfold NvU32. rewrite wrap_small by done.
  rewrite ce_memset_8_none; [|done|destruct Hs; subst size; [by rewrite Z.mul_comm, Z_mod_mult|]].
  2:{ replace (16 * n) with (2 * n * 8) by lia. apply Z_mod_mult. }
  cbn [mbind option_bind]. rewrite note_aperture_fields. eexists. split; [reflexivity|]. simpl. split; [by rewrite Hm|].
  exists (requests_writes zs rs ++ words_at first (replicate (Z.to_nat (size * n / 8)) bits)). split.
  - destruct Hok as [Hf Hq Hc' Hes (l & Hl & Ht & Hw) _ _]. constructor; simpl; try done; rewrite ?Hi, ?Hc; try done.
    exists (l ++ [CeMemset true first bits (size * n / 8)]). rewrite Hl, app_assoc. split; [done|]. split.
    + apply Forall_app. split; [done|]. by constructor.
    + rewrite methods_writes_app, Hw. simpl. by rewrite app_nil_r.
  - simpl. rewrite Hi, Hc. exists (rs ++ [ClearPtes first bits size n]), (zs ++ [true]).
    split; [rewrite !length_app; simpl; lia|]. simpl. rewrite app_nil_r. split; [|done].
    rewrite requests_writes_app by done. f_equal. unfold requests_writes. simpl. by rewrite app_nil_r.
Qed.

Lemma serve_ok rs b r : batch_inv push rs b -> batch_membar b = membar_for rs -> request_ok r ->
  exists b', serve b r = Some b' /\ batch_inv push (rs ++ [r]) b' /\ batch_membar b' = membar_for (rs ++ [r]).
Proof.
  intros Hinv Hm Hr.
  assert (exists b', serve b r = Some b' /\
    batch_membar b' = (if is_sys (request_address r) then UVM_MEMBAR_SYS else batch_membar b) /\
    batch_inv push (rs ++ [r]) b') as (b' & E & Hm' & H').
  { destruct r; simpl.
    - by apply write_ptes_ok.
    - by apply write_pte_ok.
    - by apply clear_ptes_ok. }
  exists b'. split; [done|]. split; [done|]. rewrite Hm', Hm. unfold membar_for. rewrite existsb_app. simpl.
  rewrite orb_false_r, orb_comm. by destruct (is_sys _).
Qed.

Lemma serve_all_ok rs0 rs b : batch_inv push rs0 b -> batch_membar b = membar_for rs0 -> Forall request_ok rs ->
  exists b', serve_all b rs = Some b' /\ batch_inv push (rs0 ++ rs) b' /\ batch_membar b' = membar_for (rs0 ++ rs).
Proof.
  intros Hinv Hm Hrs. revert rs0 b Hinv Hm. induction Hrs as [|r rs Hr _ IH]; intros rs0 b Hinv Hm; cbn [serve_all].
  - exists b. by rewrite app_nil_r.
  - destruct (serve_ok rs0 b r Hinv Hm Hr) as (b1 & -> & H1 & Hm1). cbn [mbind option_bind].
    destruct (IH _ b1 H1 Hm1) as (b' & -> & H' & Hm'). exists b'. by rewrite <- app_assoc in H', Hm'.
Qed.
End batch.

Lemma begin_inv push : batch_inv push [] (uvm_pte_batch_begin push).
Proof.
  exists []. split; [|by exists [], []]. constructor; simpl; try done. exists []. by rewrite app_nil_r.
Qed.

(** C18.  The commands of a batch write exactly what its requests ask for, in
    their order, whatever mixture of queued and inline entries they become: the
    only freedom is that the second word of a two-word entry that is written
    singly may be left alone instead of zeroed.  No assertion fails; inline data
    never exceeds its limit; all transfers are pipelined without barriers of their
    own, and one wait and one barrier follow them, of system scope exactly when some
    entry is in system memory. *)
Theorem pte_batch_refines (push : mmu_push) (rs : list pte_request) : Forall request_ok rs ->
  exists push' l zs, pte_batch push rs = Some push' /\
    methods push' = methods push ++ l ++ [HostWfi; HostMembar (membar_for rs)] /\
    Forall transfer_ok l /\ length zs = length rs /\ methods_writes l = requests_writes zs rs /\
    flag_membar_gpu push' = flag_membar_gpu push.
Proof.
  intros Hrs. unfold pte_batch.
  destruct (serve_all_ok push [] rs (uvm_pte_batch_begin push) (begin_inv push) eq_refl Hrs) as (b & -> & Hinv & Hm).
  cbn [mbind option_bind]. unfold uvm_pte_batch_end.
  destruct (flush_ok push _ b Hinv) as (b' & zs & -> & Hz & [Hf _ _ _ (l & Hl & Ht & Hw) _ _] & _ & _ & Hm').
  cbn [mbind option_bind]. rewrite Hm', Hm. exists (uvm_hal_wfi_membar (membar_for rs) (batch_push b')), l, zs.
  split; [done|]. split_and!; try done.
  - unfold membar_for. destruct (existsb _ _); simpl; by rewrite Hl, <- !app_assoc.
  - unfold membar_for. by destruct (existsb _ _).
Qed.

(** Five entries of a table in system memory, then a clear of 512 entries. *)
Lemma pte_batch_refines_witness :
  let rs := (map (fun i => WritePte (phys_address UVM_APERTURE_SYS (0x1000 + 16 * i)) (i + 1) 16) [0; 1; 2; 3; 4]) ++
            [ClearPtes (phys_address UVM_APERTURE_VID 0x8000) 0 8 512] in
  exists push' l zs, pte_batch empty_push rs = Some push' /\
    methods push' = methods empty_push ++ l ++ [HostWfi; HostMembar (membar_for rs)] /\
    Forall transfer_ok l /\ length zs = length rs /\ methods_writes l = requests_writes zs rs /\
    flag_membar_gpu push' = flag_membar_gpu empty_push.
Proof.
  intros rs. apply (pte_batch_refines empty_push rs). repeat constructor; simpl; lia.
Defined.
