(* ===== verification/TlbBatch.v ===== *)
(** * Batches of TLB invalidates

    Model of kernel-open/nvidia-uvm/uvm_tlb_batch.{c,h}.  A batch collects ranges of
    virtual addresses whose cached translations have to go.  While few pages or
    ranges are queued they are kept and invalidated one by one; otherwise the end
    of the batch invalidates everything below the level of the largest page size.

    [tlb_batch_covers] shows that nothing that was asked for survives; the count of
    pages has 32 bits, and [tlb_batch_page_count_wraps] shows what happens when it
    wraps around. *)

From S2P Require Import Prelude PageMask Push MmuTypes MmuPascal MmuPush.

Definition UVM_TLB_BATCH_MAX_ENTRIES : Z := 4.

(** What the batch reads of the page tree and its GPU. *)
Record tlb_tree := {
  tlb_hal : uvm_mmu_mode_hal_t;
  tlb_pdb : uvm_gpu_phys_address_t;
  va_invalidate_supported : bool;
  va_range_invalidate_supported : bool;
  max_ranges : Z;
  max_pages : Z;
}.

Record uvm_tlb_batch_range_t := mk_tlb_range {
  tr_start : Z;
  tr_size : Z;
  tr_page_sizes : Z;
}.

(** [total] is the union of [total_pages] and [total_ranges]. *)
Record uvm_tlb_batch_t := mk_tlb_batch {
  total : Z;
  tlb_ranges : list uvm_tlb_batch_range_t;
  tlb_count : Z;
  tlb_biggest_page_size : Z;
  tlb_membar : uvm_membar_t;
}.

#[export] Instance eta_tlb_batch : Settable uvm_tlb_batch_t :=
  fun r => mk_tlb_batch (total r) (tlb_ranges r) (tlb_count r) (tlb_biggest_page_size r) (tlb_membar r).

Definition uvm_tlb_batch_begin : uvm_tlb_batch_t :=
  mk_tlb_batch 0 (replicate (Z.to_nat UVM_TLB_BATCH_MAX_ENTRIES) (mk_tlb_range 0 0 0)) 0 0 UVM_MEMBAR_NONE.

(** [__ffs] of a word that is not zero. *)
Definition ffs (x : Z) : Z := find_next_bit x 64 0.

Definition smallest_page_size (page_sizes : Z) : option Z :=
  UVM_ASSERT negb (page_sizes =? 0);
  Some (2 ^ ffs page_sizes).

Definition biggest_page_size (page_sizes : Z) : option Z :=
  UVM_ASSERT negb (page_sizes =? 0);
  Some (2 ^ Z.log2 page_sizes).

Section tlb_batch.
Context (tree : tlb_tree).

Fixpoint flush_per_va_loop (count : nat) (i : Z) (ranges : list uvm_tlb_batch_range_t) (batch : uvm_tlb_batch_t)
    (push : mmu_push) {struct count} : option mmu_push :=
  match count with
  | O => Some push
  | S count =>
      match ranges with
      | [] => None
      | entry :: ranges =>
          min_page_size ← smallest_page_size (tr_page_sizes entry);
          max_page_size ← biggest_page_size (tr_page_sizes entry);
          depth ← page_table_depth (tlb_hal tree) max_page_size;
          let membar := if i =? tlb_count batch - 1 then tlb_membar batch else UVM_MEMBAR_NONE in
          flush_per_va_loop count (i + 1) ranges batch
            (push_method (HostInvalidateVa (tlb_pdb tree) depth (tr_start entry) (tr_size entry) min_page_size membar) push)
      end
  end.

Definition tlb_batch_flush_invalidate_per_va (batch : uvm_tlb_batch_t) (push : mmu_push) : option mmu_push :=
  flush_per_va_loop (Z.to_nat (tlb_count batch)) 0 (tlb_ranges batch) batch push.

Definition tlb_batch_flush_invalidate_all (batch : uvm_tlb_batch_t) (push : mmu_push) : option mmu_push :=
  depth ← page_table_depth (tlb_hal tree) (tlb_biggest_page_size batch);
  Some (push_method (HostInvalidateAll (tlb_pdb tree) depth (tlb_membar batch)) push).

Definition tlb_batch_should_invalidate_all (batch : uvm_tlb_batch_t) : bool :=
  if negb (va_invalidate_supported tree) then true
  else if UVM_TLB_BATCH_MAX_ENTRIES <? tlb_count batch then true
  else if va_range_invalidate_supported tree then max_ranges tree <? total batch
  else max_pages tree <? total batch.

Definition uvm_tlb_batch_end (batch : uvm_tlb_batch_t) (membar : uvm_membar_t) (push : mmu_push) : option mmu_push :=
  if tlb_count batch =? 0 then Some push
  else
    let batch := batch <| tlb_membar := uvm_membar_max membar (tlb_membar batch) |> in
    if tlb_batch_should_invalidate_all batch then tlb_batch_flush_invalidate_all batch push
    else tlb_batch_flush_invalidate_per_va batch push.

Definition uvm_tlb_batch_invalidate (batch : uvm_tlb_batch_t) (start size page_sizes : Z) (membar : uvm_membar_t)
    : option uvm_tlb_batch_t :=
  let batch := batch <| tlb_membar := uvm_membar_max membar (tlb_membar batch) |>
                     <| tlb_count := tlb_count batch + 1 |> in
  batch ←
    (if va_range_invalidate_supported tree then Some (batch <| total := NvU32 (total batch + 1) |>)
     else
       smallest ← smallest_page_size page_sizes;
       pages ← uvm_div_pow2_64 size smallest;
       Some (batch <| total := NvU32 (total batch + pages) |>));
  biggest ← biggest_page_size page_sizes;
  let batch := batch <| tlb_biggest_page_size := Z.max (tlb_biggest_page_size batch) biggest |> in
  if tlb_batch_should_invalidate_all batch then Some batch
  else
    Some (batch <| tlb_ranges := <[Z.to_nat (tlb_count batch - 1) := mk_tlb_range start size page_sizes]> (tlb_ranges batch) |>).

Definition uvm_tlb_batch_single_invalidate (start size page_sizes : Z) (membar : uvm_membar_t) (push : mmu_push)
    : option mmu_push :=
  batch ← uvm_tlb_batch_invalidate uvm_tlb_batch_begin start size page_sizes UVM_MEMBAR_NONE;
  uvm_tlb_batch_end batch membar push.
End tlb_batch.

(** ** Requests and cached translations *)
Record tlb_request := mk_tlb_request { rq_range : uvm_tlb_batch_range_t; rq_membar : uvm_membar_t }.

Fixpoint queue_all (tree : tlb_tree) (batch : uvm_tlb_batch_t) (rs : list tlb_request) : option uvm_tlb_batch_t :=
  match rs with
  | [] => Some batch
  | r :: rs =>
      batch ← uvm_tlb_batch_invalidate tree batch (tr_start (rq_range r)) (tr_size (rq_range r))
                (tr_page_sizes (rq_range r)) (rq_membar r);
      queue_all tree batch rs
  end.

Definition tlb_batch (tree : tlb_tree) (rs : list tlb_request) (membar : uvm_membar_t) (push : mmu_push) : option mmu_push :=
  batch ← queue_all tree uvm_tlb_batch_begin rs; uvm_tlb_batch_end tree batch membar push.

(** A translation in the TLB: the page of size [te_size] at [te_base]. *)
Record tlb_entry := mk_tlb_entry { te_base : Z; te_size : Z }.

Definition in_page (e : tlb_entry) (va : Z) : Prop := te_base e <= va < te_base e + te_size e.

(** The request wants the translation to go. *)
Definition wants (r : tlb_request) (e : tlb_entry) : Prop :=
  is_power_of_2 (te_size e) = true /\ Z.land (te_size e) (tr_page_sizes (rq_range r)) <> 0 /\
  te_base e mod te_size e = 0 /\
  exists va, tr_start (rq_range r) <= va < tr_start (rq_range r) + tr_size (rq_range r) /\ in_page e va.

(** The command removes the translation: it reaches the level of its page table,
    and a page that it addresses lies in it. *)
Definition removes (tree : tlb_tree) (g : gpu_method) (e : tlb_entry) : Prop :=
  match g with
  | HostInvalidateAll pdb depth _ => pdb = tlb_pdb tree /\ depth <= hdepth (tlb_hal tree) (te_size e)
  | HostInvalidateVa pdb depth base size page_size _ =>
      pdb = tlb_pdb tree /\ depth <= hdepth (tlb_hal tree) (te_size e) /\
      exists va, base <= va < base + size /\ (va - base) mod page_size = 0 /\ in_page e va
  | _ => False
  end.

Definition method_membar (g : gpu_method) : uvm_membar_t :=
  match g with
  | HostInvalidateAll _ _ m | HostInvalidateVa _ _ _ _ _ m => m
  | _ => UVM_MEMBAR_NONE
  end.

Definition smallest_of (page_sizes : Z) : Z := 2 ^ ffs page_sizes.
Definition biggest_of (page_sizes : Z) : Z := 2 ^ Z.log2 page_sizes.

(** Page sizes of the HAL, and a range in units of the smallest of them. *)
Definition range_ok (h : uvm_mmu_mode_hal_t) (r : uvm_tlb_batch_range_t) : Prop :=
  0 < tr_page_sizes r < 2 ^ 64 /\ Z.land (tr_page_sizes r) (page_sizes h) = tr_page_sizes r /\
  0 < tr_size r /\ tr_start r mod smallest_of (tr_page_sizes r) = 0 /\ tr_size r mod smallest_of (tr_page_sizes r) = 0.

Definition pages_of (r : tlb_request) : Z := tr_size (rq_range r) / smallest_of (tr_page_sizes (rq_range r)).

(** What is added to [total] for a request. *)
Definition weight (tree : tlb_tree) (r : tlb_request) : Z :=
  if va_range_invalidate_supported tree then 1 else pages_of r.

Definition weights (tree : tlb_tree) (rs : list tlb_request) : Z := foldr (fun r n => weight tree r + n) 0 rs.

Definition membars (m : uvm_membar_t) (rs : list tlb_request) : uvm_membar_t :=
  foldl (fun m r => uvm_membar_max (rq_membar r) m) m rs.

(** ** Page sizes *)
Lemma pow2_supported h k : 0 <= k -> Z.testbit (page_sizes h) k = true -> supported h (2 ^ k) = true.
Proof.
  intros Hk Ht. unfold supported, is_power_of_2. rewrite Z.log2_pow2, Z.eqb_refl by done.
  replace (0 <? 2 ^ k) with true by (symmetry; apply Z.ltb_lt, Z.pow_pos_nonneg; lia). simpl.
  rewrite negb_true_iff, Z.eqb_neq. intros H0. assert (Hb : Z.testbit (Z.land (2 ^ k) (page_sizes h)) k = true).
  { by rewrite Z.land_spec, Z.pow2_bits_true, Ht. }
  by rewrite H0, Z.bits_0 in Hb.
Qed.

Lemma ffs_spec s : 0 < s < 2 ^ 64 -> 0 <= ffs s <= Z.log2 s /\ Z.testbit s (ffs s) = true /\
  forall j, 0 <= j -> Z.testbit s j = true -> ffs s <= j.
Proof.
  intros Hs. unfold ffs, find_next_bit. destruct (find_next_spec (Z.testbit s) 64 0) as (H1 & H2 & H3 & H4).
  assert (Hlog : Z.log2 s < 64) by (apply Z.log2_lt_pow2; lia).
  assert (Hbit : Z.testbit s (Z.log2 s) = true) by (apply Z.bit_log2; lia). pose proof (Z.log2_nonneg s).
  set (r := find_next _ _ _) in *. assert (Hmin : forall j, 0 <= j -> Z.testbit s j = true -> r <= j).
  { intros j Hj Ht. destruct (decide (r <= j)) as [|Hlt]; [done|]. rewrite H3 in Ht; [done|lia]. }
  specialize (H1 ltac:(lia)). pose proof (Hmin (Z.log2 s) ltac:(lia) Hbit). split; [lia|]. split; [apply H4; lia|done].
Qed.

Section covers.
Context (tree : tlb_tree) (F : hw_format) `{Hhal : !hal_ok (tlb_hal tree) F}.
Notation h := (tlb_hal tree).

(** Larger pages are mapped higher up. *)
Lemma va_shift_agrees ps ps' n : supported h ps = true -> supported h ps' = true ->
  (Z.of_nat n <= hdepth h ps + 1) -> (Z.of_nat n <= hdepth h ps' + 1) -> (Z.of_nat n <= hmax h) ->
  va_shift h ps n = va_shift h ps' n.
Proof.
  intros Hs Hs'. induction n as [|n IH]; intros H1 H2 H3; simpl; [done|]. rewrite IH by lia. f_equal.
  pose proof (ok_bits_any (F:=F) ps (Z.of_nat n) Hs ltac:(lia) ltac:(lia)) as E1.
  pose proof (ok_bits_any (F:=F) ps' (Z.of_nat n) Hs' ltac:(lia) ltac:(lia)) as E2. congruence.
Qed.

Lemma va_shift_mono ps n k : supported h ps = true -> Z.of_nat (n + k) <= hdepth h ps + 1 ->
  va_shift h ps (n + k) <= va_shift h ps n.
Proof.
  intros Hs. induction k as [|k IH]; intros Hk; [by rewrite Nat.add_0_r|]. rewrite Nat.add_succ_r. simpl.
  destruct (ok_bits (F:=F) ps (Z.of_nat (n + k)) Hs ltac:(lia)) as [_ ?]. lia.
Qed.

Lemma supported_pow2 ps : supported h ps = true -> 0 < ps /\ 2 ^ Z.log2 ps = ps.
Proof. unfold supported, is_power_of_2. rewrite !andb_true_iff, Z.ltb_lt, Z.eqb_eq. tauto. Qed.

Lemma depth_antitone ps ps' : supported h ps = true -> supported h ps' = true -> ps <= ps' -> hdepth h ps' <= hdepth h ps.
Proof.
  intros Hs Hs' Hle. destruct (decide (hdepth h ps' <= hdepth h ps)) as [|Hlt]; [done|exfalso].
  destruct (ok_depth (F:=F) ps Hs) as [_ D], (ok_depth (F:=F) ps' Hs') as [_ D'].
  pose proof (ok_shift (F:=F) ps Hs) as E. pose proof (ok_shift (F:=F) ps' Hs') as E'.
  rewrite (va_shift_agrees ps ps') in E by (done || lia).
  pose proof (va_shift_mono ps' (S (Z.to_nat (hdepth h ps))) (Z.to_nat (hdepth h ps' - hdepth h ps)) Hs') as Hm.
  replace (S (Z.to_nat (hdepth h ps)) + Z.to_nat (hdepth h ps' - hdepth h ps))%nat with (S (Z.to_nat (hdepth h ps'))) in Hm by lia.
  rewrite E, E' in Hm. specialize (Hm ltac:(lia)).
  destruct (supported_pow2 ps Hs) as [? P], (supported_pow2 ps' Hs') as [? P'].
  assert (Z.log2 ps = Z.log2 ps') as El by (pose proof (Z.log2_le_mono ps ps' Hle); lia).
  assert (ps = ps') as -> by congruence. lia.
Qed.

(** The page sizes of a request. *)
Lemma range_bit r k : range_ok h r -> 0 <= k -> Z.testbit (tr_page_sizes r) k = true -> supported h (2 ^ k) = true.
Proof.
  intros (_ & Hsub & _) Hk Ht. apply pow2_supported; [done|]. rewrite <- Hsub, Z.land_spec, andb_true_iff in Ht. tauto.
Qed.

Lemma biggest_ok r : range_ok h r ->
  biggest_page_size (tr_page_sizes r) = Some (biggest_of (tr_page_sizes r)) /\ supported h (biggest_of (tr_page_sizes r)) = true.
Proof.
  intros Hr. pose proof Hr as ((Hp & _) & _). unfold biggest_page_size. replace (tr_page_sizes r =? 0) with false by lia.
  split; [done|]. apply (range_bit r); [done|apply Z.log2_nonneg|by apply Z.bit_log2].
Qed.

Lemma smallest_ok r : range_ok h r ->
  smallest_page_size (tr_page_sizes r) = Some (smallest_of (tr_page_sizes r)) /\ 0 < smallest_of (tr_page_sizes r) /\
  is_power_of_2 (smallest_of (tr_page_sizes r)) = true.
Proof.
  intros ((Hp & Hlt) & _). unfold smallest_page_size, smallest_of, is_power_of_2. replace (tr_page_sizes r =? 0) with false by lia.
  destruct (ffs_spec (tr_page_sizes r) (conj Hp Hlt)) as (? & _). pose proof (Z.pow_pos_nonneg 2 (ffs (tr_page_sizes r))).
  split; [done|]. split; [lia|]. rewrite Z.log2_pow2, Z.eqb_refl by lia. rewrite andb_true_r. apply Z.ltb_lt. lia.
Qed.

Lemma wanted_size r e : range_ok h (rq_range r) -> wants r e -> let s := tr_page_sizes (rq_range r) in
  supported h (te_size e) = true /\ te_size e <= biggest_of s /\ te_size e mod smallest_of s = 0.
Proof.
  intros Hr (Hp2 & Hland & _). cbn zeta. pose proof Hr as (Hs & _). unfold is_power_of_2 in Hp2.
  rewrite andb_true_iff, Z.ltb_lt, Z.eqb_eq in Hp2. destruct Hp2 as [Hpos Hp2].
  set (k := Z.log2 (te_size e)) in *. pose proof (Z.log2_nonneg (te_size e)) as Hk. fold k in Hk. clearbody k.
  assert (Ht : Z.testbit (tr_page_sizes (rq_range r)) k = true).
  { destruct (Z.testbit _ k) eqn:Et; [done|]. exfalso. apply Hland. apply Z.bits_inj'. intros i Hi.
    rewrite <- Hp2, Z.land_spec, Z.pow2_bits_eqb, Z.bits_0 by lia. destruct (Z.eqb_spec k i); [by subst|done]. }
  destruct (ffs_spec _ Hs) as (Hf & _ & Hmin). specialize (Hmin k Hk Ht). rewrite <- Hp2. split_and!.
  - by apply (range_bit (rq_range r)).
  - apply Z.pow_le_mono_r; [lia|]. destruct (decide (k <= Z.log2 (tr_page_sizes (rq_range r)))) as [|Hlt]; [done|].
    rewrite Z.bits_above_log2 in Ht by lia. done.
  - unfold smallest_of. replace k with (ffs (tr_page_sizes (rq_range r)) + (k - ffs (tr_page_sizes (rq_range r)))) by lia.
    rewrite Z.pow_add_r by lia. rewrite Z.mul_comm. apply Z_mod_mult.
Qed.

(** A page that overlaps the range contains an address that is invalidated. *)
Lemma page_addressed p start size e : 0 < p -> start mod p = 0 -> te_size e mod p = 0 -> te_base e mod te_size e = 0 -> 0 < te_size e ->
  (exists va, start <= va < start + size /\ in_page e va) ->
  exists va, start <= va < start + size /\ (va - start) mod p = 0 /\ in_page e va.
Proof.
  intros Hp Hs He Hb Hpos (va & Hva & Hin). exists (start + (va - start) / p * p). unfold in_page in *.
  pose proof (Z_div_mod_eq_full (va - start) p). pose proof (Z.mod_pos_bound (va - start) p Hp).
  assert (0 <= (va - start) / p) by (apply Z.div_pos; lia). split; [lia|]. split.
  { replace (start + (va - start) / p * p - start) with ((va - start) / p * p) by lia. apply Z_mod_mult. }
  apply Z.div_exact in Hs, He, Hb; [|lia..]. split; [|lia].
  (* both are multiples of p *)
  replace (te_base e) with (p * (te_size e / p * (te_base e / te_size e))) in * by (rewrite Z.mul_assoc, <- He; done).
  rewrite Hs. set (u := te_size e / p * (te_base e / te_size e)) in *. rewrite Hs in Hva. set (v := start / p) in *.
  rewrite Hs in *. set (q := (va - p * v) / p) in *. assert (u < v + q + 1) by nia. nia.
Qed.

Lemma range_removed r e d m : range_ok h (rq_range r) -> wants r e ->
  d <= hdepth h (biggest_of (tr_page_sizes (rq_range r))) ->
  removes tree (HostInvalidateVa (tlb_pdb tree) d (tr_start (rq_range r)) (tr_size (rq_range r))
    (smallest_of (tr_page_sizes (rq_range r))) m) e.
Proof.
  intros Hr Hw Hd. destruct (wanted_size r e Hr Hw) as (Hsup & Hle & Hmod). destruct (biggest_ok _ Hr) as [_ Hbig].
  pose proof (depth_antitone _ _ Hsup Hbig Hle). pose proof Hr as (_ & _ & _ & Hst & _). destruct Hw as (_ & _ & Hb & Hov).
  split; [done|]. split; [lia|]. apply page_addressed; try done.
  - by destruct (smallest_ok _ Hr) as (_ & ? & _).
  - by destruct (supported_pow2 _ Hsup).
Qed.

(** ** The batch while requests are queued *)
Record queue_inv (rs : list tlb_request) (b : uvm_tlb_batch_t) : Prop := {
  qi_count : tlb_count b = Z.of_nat (length rs);
  qi_total : total b = weights tree rs;
  qi_length : length (tlb_ranges b) = 4%nat;
  qi_membar : tlb_membar b = membars UVM_MEMBAR_NONE rs;
  qi_biggest : match rs with [] => tlb_biggest_page_size b = 0 | _ => supported h (tlb_biggest_page_size b) = true end;
  qi_biggest_max : Forall (fun r => biggest_of (tr_page_sizes (rq_range r)) <= tlb_biggest_page_size b) rs;
  qi_stored : tlb_batch_should_invalidate_all tree b = false -> take (length rs) (tlb_ranges b) = map rq_range rs
}.

Lemma weight_nonneg r : range_ok h (rq_range r) -> 0 <= weight tree r.
Proof.
  intros Hr. unfold weight, pages_of. destruct (va_range_invalidate_supported tree); [lia|].
  destruct (smallest_ok _ Hr) as (_ & ? & _). destruct Hr as (_ & _ & ? & _). apply Z.div_pos; lia.
Qed.

Lemma weights_app rs1 rs2 : weights tree (rs1 ++ rs2) = weights tree rs1 + weights tree rs2.
Proof. induction rs1 as [|r rs1 IH]; simpl; [done|]. unfold weights in *. simpl. rewrite IH. lia. Qed.

Lemma weights_nonneg rs : Forall (fun r => range_ok h (rq_range r)) rs -> 0 <= weights tree rs.
Proof. induction 1 as [|r rs Hr _ IH]; [done|]. simpl. pose proof (weight_nonneg r Hr). unfold weights in *. simpl. lia. Qed.

(** The choice to invalidate everything is final while counters do not wrap. *)
Lemma should_all_mono b b' : tlb_count b <= tlb_count b' -> total b <= total b' ->
  tlb_batch_should_invalidate_all tree b' = false -> tlb_batch_should_invalidate_all tree b = false.
Proof.
  intros Hc Ht. unfold tlb_batch_should_invalidate_all. destruct (va_invalidate_supported tree); [|done]. cbn [negb].
  destruct (Z.ltb_spec UVM_TLB_BATCH_MAX_ENTRIES (tlb_count b')); [done|].
  destruct (Z.ltb_spec UVM_TLB_BATCH_MAX_ENTRIES (tlb_count b)); [lia|].
  destruct (va_range_invalidate_supported tree); rewrite !Z.ltb_ge; lia.
Qed.

Lemma few_entries b : tlb_batch_should_invalidate_all tree b = false -> tlb_count b <= 4.
Proof.
  unfold tlb_batch_should_invalidate_all. destruct (va_invalidate_supported tree); [|done]. cbn [negb].
  destruct (Z.ltb_spec UVM_TLB_BATCH_MAX_ENTRIES (tlb_count b)) as [|H]; [done|]. intros _. exact H.
Qed.

Lemma pages_shift r : range_ok h (rq_range r) ->
  uvm_div_pow2_64 (tr_size (rq_range r)) (smallest_of (tr_page_sizes (rq_range r))) = Some (pages_of r).
Proof.
  intros Hr. destruct (smallest_ok _ Hr) as (_ & Hpos & Hp2). unfold uvm_div_pow2_64. rewrite Hp2.
  replace (smallest_of _ =? 0) with false by lia. cbn [negb]. unfold pages_of, smallest_of.
  destruct Hr as (Hs & _). destruct (ffs_spec _ Hs) as (? & _).
  rewrite Z.shiftr_div_pow2 by (rewrite Z.log2_pow2; lia). by rewrite Z.log2_pow2 by lia.
Qed.

(** The batch after the counters of a request have been updated. *)
Definition counted (b : uvm_tlb_batch_t) (r : tlb_request) : uvm_tlb_batch_t :=
  mk_tlb_batch (total b + weight tree r) (tlb_ranges b) (tlb_count b + 1)
    (Z.max (tlb_biggest_page_size b) (biggest_of (tr_page_sizes (rq_range r)))) (uvm_membar_max (rq_membar r) (tlb_membar b)).

Lemma invalidate_counted b r : range_ok h (rq_range r) -> 0 <= total b -> total b + weight tree r < 2 ^ 32 ->
  uvm_tlb_batch_invalidate tree b (tr_start (rq_range r)) (tr_size (rq_range r)) (tr_page_sizes (rq_range r)) (rq_membar r) =
    Some (let c := counted b r in if tlb_batch_should_invalidate_all tree c then c
          else c <| tlb_ranges := <[Z.to_nat (tlb_count b) := rq_range r]> (tlb_ranges b) |>).
Proof.
  intros Hr H0 Hlt. unfold uvm_tlb_batch_invalidate. pose proof (weight_nonneg r Hr) as Hw.
  destruct (biggest_ok _ Hr) as [-> _]. destruct (smallest_ok _ Hr) as [-> _].
  assert (Hwrap : NvU32 (total b + weight tree r) = total b + weight tree r) by (apply wrap_small; unfold in_width; lia).
  unfold weight in *. unfold counted, weight.
  destruct (va_range_invalidate_supported tree); cbn [mbind option_bind]; rewrite ?pages_shift by done; cbn [mbind option_bind];
    simpl total; rewrite Hwrap; simpl; destruct (tlb_batch_should_invalidate_all _ _); try done;
    rewrite Z.add_simpl_r; by destruct (rq_range r).
Qed.

Lemma membars_snoc m rs r : membars m (rs ++ [r]) = uvm_membar_max (rq_membar r) (membars m rs).
Proof. unfold membars. by rewrite foldl_app. Qed.

Lemma invalidate_ok rs b r : Forall (fun r => range_ok h (rq_range r)) rs -> queue_inv rs b -> range_ok h (rq_range r) ->
  weights tree (rs ++ [r]) < 2 ^ 32 ->
  exists b', uvm_tlb_batch_invalidate tree b (tr_start (rq_range r)) (tr_size (rq_range r)) (tr_page_sizes (rq_range r))
               (rq_membar r) = Some b' /\ queue_inv (rs ++ [r]) b'.
Proof.
  intros Hrs [Hc Ht Hl Hm Hb Hbm Hst] Hr Hlt. pose proof (weights_nonneg rs Hrs). pose proof (weight_nonneg r Hr).
  rewrite weights_app in Hlt. simpl in Hlt. rewrite invalidate_counted by (done || lia). cbv zeta.
  destruct (biggest_ok _ Hr) as [_ Hsup].
  assert (Hcount : tlb_count b + 1 = Z.of_nat (length (rs ++ [r]))) by (rewrite length_app; simpl; lia).
  assert (Htot : total b + weight tree r = weights tree (rs ++ [r])) by (rewrite weights_app; simpl; lia).
  assert (Hmem : uvm_membar_max (rq_membar r) (tlb_membar b) = membars UVM_MEMBAR_NONE (rs ++ [r])) by by rewrite membars_snoc, Hm.
  assert (Hmax : supported h (Z.max (tlb_biggest_page_size b) (biggest_of (tr_page_sizes (rq_range r)))) = true).
  { destruct (Z.max_spec (tlb_biggest_page_size b) (biggest_of (tr_page_sizes (rq_range r)))) as [[_ ->]|[Hle ->]]; [done|].
    destruct rs as [|r0 rs]; [|done]. destruct (supported_pow2 _ Hsup). lia. }
  assert (Hall : Forall (fun x => biggest_of (tr_page_sizes (rq_range x)) <=
    Z.max (tlb_biggest_page_size b) (biggest_of (tr_page_sizes (rq_range r)))) (rs ++ [r])).
  { apply Forall_app. split; [|constructor; [lia|done]]. eapply Forall_impl; [exact Hbm|]. intros x Hx. simpl in Hx. lia. }
  eexists. split; [reflexivity|]. destruct (tlb_batch_should_invalidate_all tree (counted b r)) eqn:Eall.
  - constructor; simpl; try done; [by destruct rs|]. by rewrite Eall.
  - pose proof (few_entries _ Eall) as Hfew. simpl in Hfew.
    constructor; simpl; try done; [by rewrite length_insert|by destruct rs|]. intros _.
    assert (Hold : tlb_batch_should_invalidate_all tree b = false)
      by (eapply should_all_mono; [| |exact Eall]; simpl; lia).
    rewrite length_app, map_app, <- (Hst Hold). simpl. rewrite Nat.add_1_r.
    replace (Z.to_nat (tlb_count b)) with (length rs) by lia.
    rewrite (take_S_r _ _ (rq_range r)) by (apply list_lookup_insert_eq; lia). by rewrite take_insert_ge by lia.
Qed.

Lemma queue_all_ok rs0 rs b : Forall (fun r => range_ok h (rq_range r)) (rs0 ++ rs) -> queue_inv rs0 b ->
  weights tree (rs0 ++ rs) < 2 ^ 32 -> exists b', queue_all tree b rs = Some b' /\ queue_inv (rs0 ++ rs) b'.
Proof.
  revert rs0 b. induction rs as [|r rs IH]; intros rs0 b Hrs Hb Hlt; cbn [queue_all].
  { exists b. by rewrite app_nil_r. }
  pose proof Hrs as Hall. rewrite cons_middle, app_assoc in Hrs, Hlt. pose proof Hlt as Hlt'.
  rewrite weights_app in Hlt'. apply Forall_app in Hrs as [H0 Hr1]. pose proof (weights_nonneg _ Hr1).
  apply Forall_app in H0 as [H0 Hr]. rewrite Forall_singleton in Hr.
  destruct (invalidate_ok rs0 b r H0 Hb Hr ltac:(lia)) as (b1 & -> & H1). cbn [mbind option_bind].
  rewrite cons_middle, app_assoc in Hall. destruct (IH _ b1 Hall H1 Hlt) as (b' & E & H'). exists b'.
  rewrite <- app_assoc in H'. done.
Qed.

(** ** The end of the batch *)
Lemma flush_per_va_ok b n ranges i push : Forall (range_ok h) (take n ranges) -> (n <= length ranges)%nat ->
  i + Z.of_nat n = tlb_count b ->
  exists l, flush_per_va_loop tree n i ranges b push = Some (push <| methods := methods push ++ l |>) /\ length l = n /\
    (forall k g, l !! k = Some g -> exists r, ranges !! k = Some r /\
       g = HostInvalidateVa (tlb_pdb tree) (hdepth h (biggest_of (tr_page_sizes r))) (tr_start r) (tr_size r)
             (smallest_of (tr_page_sizes r)) (if (S k =? n)%nat then tlb_membar b else UVM_MEMBAR_NONE)).
Proof.
  revert ranges i push. induction n as [|n IH]; intros ranges i push Hok Hlen Hi; cbn [flush_per_va_loop].
  { exists []. rewrite app_nil_r. split; [by destruct push|done]. }
  destruct ranges as [|r ranges]; [simpl in Hlen; lia|]. simpl in Hok. apply Forall_cons in Hok as [Hr Hok].
  destruct (smallest_ok r Hr) as [-> _]. destruct (biggest_ok r Hr) as [-> Hsup].
  cbn [mbind option_bind]. destruct (ok_depth (F:=F) _ Hsup) as [-> _]. cbn [mbind option_bind].
  edestruct (IH ranges (i + 1)) as (l & -> & Hl & Hg); [done|simpl in Hlen; lia|lia|].
  eexists (_ :: l). split; [simpl; by rewrite <- app_assoc|]. split; [simpl; lia|].
  intros [|k] g Hk; simpl in Hk.
  - injection Hk as <-. exists r. split; [done|]. f_equal.
    replace (i =? tlb_count b - 1) with ((1 =? S n)%nat); [done|]. apply eq_bool_prop_intro. rewrite !Is_true_true, Nat.eqb_eq, Z.eqb_eq. lia.
  - apply Hg in Hk. by simpl.
Qed.
End covers.

Lemma begin_queue_inv tree : queue_inv tree [] uvm_tlb_batch_begin.
Proof. by constructor. Qed.

Lemma last_membar l m : (0 < length l)%nat ->
  (forall k g, l !! k = Some g -> method_membar g = if (S k =? length l)%nat then m else UVM_MEMBAR_NONE) ->
  map method_membar l = replicate (length l - 1) UVM_MEMBAR_NONE ++ [m].
Proof.
  intros Hpos Hl. apply list_eq. intros k. rewrite list_lookup_fmap. destruct (l !! k) as [g|] eqn:Hk.
  - simpl. rewrite (Hl k g Hk). apply lookup_lt_Some in Hk. destruct (Nat.eqb_spec (S k) (length l)) as [Ek|Ek].
    + rewrite lookup_app_r by (rewrite length_replicate; lia). rewrite length_replicate.
      by replace (k - (length l - 1))%nat with 0%nat by lia.
    + rewrite lookup_app_l by (rewrite length_replicate; lia). symmetry. apply lookup_replicate_2. lia.
  - simpl. symmetry. apply lookup_ge_None. apply lookup_ge_None in Hk. rewrite length_app, length_replicate. simpl. lia.
Qed.

(** C19.  Every cached translation that some request of the batch names (a page of
    one of its page sizes that overlaps its range) is removed by a command that the
    batch pushes, whether it invalidates ranges one by one or everything; no
    assertion fails.  The last command carries the strongest barrier asked for and
    the others carry none.  This needs the number of pages to fit into the 32 bits
    of its counter. *)
Theorem tlb_batch_covers (tree : tlb_tree) (F : hw_format) (rs : list tlb_request) (membar : uvm_membar_t) (push : mmu_push) :
  hal_ok (tlb_hal tree) F -> Forall (fun r => range_ok (tlb_hal tree) (rq_range r)) rs -> weights tree rs < 2 ^ 32 ->
  exists l, tlb_batch tree rs membar push = Some (push <| methods := methods push ++ l |>) /\
    (forall r e, r ∈ rs -> wants r e -> exists g, g ∈ l /\ removes tree g e) /\
    map method_membar l =
      match rs with [] => [] | _ => replicate (length l - 1) UVM_MEMBAR_NONE ++ [uvm_membar_max membar (membars UVM_MEMBAR_NONE rs)] end.
Proof.
  intros Hhal Hrs Hlt. unfold tlb_batch.
  destruct (queue_all_ok tree [] rs uvm_tlb_batch_begin Hrs (begin_queue_inv tree) Hlt) as (b & -> & Hb).
  cbn [mbind option_bind]. unfold uvm_tlb_batch_end. simpl app in Hb. pose proof Hb as [Hc _ Hl Hm Hbig Hbm Hst]. rewrite Hc.
  destruct rs as [|r0 rs0]; [exists []; simpl; rewrite app_nil_r; split; [by destruct push|by split; [set_solver|]]|].
  replace (Z.of_nat (length (r0 :: rs0)) =? 0) with false by (simpl; lia).
  set (rs := r0 :: rs0) in *. set (b' := b <| tlb_membar := _ |>).
  change (tlb_batch_should_invalidate_all tree b') with (tlb_batch_should_invalidate_all tree b).
  destruct (tlb_batch_should_invalidate_all tree b) eqn:Eall.
  - unfold tlb_batch_flush_invalidate_all. destruct (ok_depth (F:=F) (tlb_biggest_page_size b) Hbig) as [E _].
    change (tlb_biggest_page_size b') with (tlb_biggest_page_size b). rewrite E. cbn [mbind option_bind].
    eexists [_]. split; [reflexivity|]. split; [|simpl; by rewrite Hm]. intros r e Hr Hw.
    eexists. split; [by left|]. split; [done|]. rewrite Forall_forall in Hrs. apply Hrs in Hr as Hok.
    destruct (wanted_size tree r e Hok Hw) as (Hsup & Hle & _). rewrite Forall_forall in Hbm. specialize (Hbm r Hr). simpl in Hbm.
    apply (depth_antitone tree F); [done|done|lia].
  - unfold tlb_batch_flush_invalidate_per_va. pose proof (few_entries tree b Eall) as Hfew. specialize (Hst eq_refl).
    edestruct (flush_per_va_ok tree F b' (length rs) (tlb_ranges b) 0 push) as (l & E & Hll & Hg); [|lia|symmetry; exact Hc|].
    { rewrite Hst. rewrite Forall_map. exact Hrs. }
    change (tlb_count b') with (tlb_count b). change (tlb_ranges b') with (tlb_ranges b).
    rewrite Hc, Nat2Z.id, E. exists l. split; [done|]. split.
    + intros r e Hr Hw. apply list_elem_of_lookup in Hr as [k Hk].
      assert (Hkl : (k < length rs)%nat) by (by eapply lookup_lt_Some).
      destruct (lookup_lt_is_Some_2 l k ltac:(lia)) as [g Hgk]. destruct (Hg k g Hgk) as (r' & Hr' & ->).
      assert (r' = rq_range r) as ->.
      { assert (H : map rq_range rs !! k = Some (rq_range r)) by by rewrite list_lookup_fmap, Hk.
        rewrite <- Hst, lookup_take_lt in H by done. congruence. }
      eexists. split; [by eapply list_elem_of_lookup_2|]. apply (range_removed tree F); [|done|lia].
      rewrite Forall_forall in Hrs. apply Hrs. by eapply list_elem_of_lookup_2.
    + apply last_membar; [unfold rs in *; simpl in *; lia|]. intros k g Hk. destruct (Hg k g Hk) as (r' & _ & ->).
      rewrite <- Hll. cbn [method_membar]. change (tlb_membar b') with (uvm_membar_max membar (tlb_membar b)). by rewrite Hm.
Qed.

(** Pascal's settings. *)
Definition pascal_tlb_tree : tlb_tree := {|
  tlb_hal := pascal_mmu_mode_hal; tlb_pdb := phys_address UVM_APERTURE_VID 0x10000;
  va_invalidate_supported := true; va_range_invalidate_supported := false; max_ranges := 0; max_pages := 32
|}.

Definition tlb_req (start size page_sizes : Z) : tlb_request := mk_tlb_request (mk_tlb_range start size page_sizes) UVM_MEMBAR_GPU.

Lemma tlb_batch_covers_witness :
  let rs := [tlb_req 0x200000 0x3000 UVM_PAGE_SIZE_4K; tlb_req 0x400000 0x200000 (Z.lor UVM_PAGE_SIZE_2M UVM_PAGE_SIZE_64K)] in
  exists l, tlb_batch pascal_tlb_tree rs UVM_MEMBAR_SYS empty_push = Some (empty_push <| methods := methods empty_push ++ l |>) /\
    (forall r e, r ∈ rs -> wants r e -> exists g, g ∈ l /\ removes pascal_tlb_tree g e) /\
    map method_membar l =
      match rs with [] => [] | _ => replicate (length l - 1) UVM_MEMBAR_NONE ++ [uvm_membar_max UVM_MEMBAR_SYS (membars UVM_MEMBAR_NONE rs)] end.
Proof.
  intros rs. apply (tlb_batch_covers pascal_tlb_tree ver2_format rs UVM_MEMBAR_SYS empty_push).
  - exact pascal_hal_ok.
  - repeat constructor; vm_compute; congruence.
  - vm_compute. reflexivity.
Defined.

(** C40.  When the count of pages wraps around, a batch that had already given up
    storing ranges stores one again, and its end reads the slot that was never
    filled: on Pascal, a range of 33 small pages followed by one of almost 16TB
    fails the assertion that the page sizes of a stored range are not zero. *)
Theorem tlb_batch_page_count_wraps (membar : uvm_membar_t) (push : mmu_push) :
  let rs := [tlb_req 0 (33 * UVM_PAGE_SIZE_4K) UVM_PAGE_SIZE_4K;
             tlb_req 0x100000 ((2 ^ 32 - 33) * UVM_PAGE_SIZE_4K) UVM_PAGE_SIZE_4K] in
  Forall (fun r => range_ok pascal_mmu_mode_hal (rq_range r)) rs /\
  Forall (fun r => tr_start (rq_range r) + tr_size (rq_range r) <= 2 ^ num_va_bits pascal_mmu_mode_hal) rs /\
  weights pascal_tlb_tree rs = 2 ^ 32 /\
  tlb_batch pascal_tlb_tree rs membar push = None.
Proof.
  intros rs. split; [repeat constructor; vm_compute; congruence|].
  split; [repeat constructor; vm_compute; congruence|]. split; [vm_compute; reflexivity|].
  by destruct membar; vm_compute.
Qed.
