(* ===== verification/PageTree.v ===== *)
(** * Page trees

    Model of the page trees of kernel-open/nvidia-uvm/uvm_mmu.{c,h}: the directories
    that the driver keeps for the page tables of a GPU address space, and the
    commands by which it writes them.

    Directories are objects in a store, reached by pointers ([dir_ptr]).  The
    physical memory of page tables is seen through the log of the operations on it:
    writes and barriers by the CPU, pushes, waits, and the freeing of tables.  A push
    acquires the tracker of the tree and becomes the new content of that tracker, so
    the GPU runs the pushes in the order of the log, which for that reason holds
    them as they are submitted.

    The environment [page_tree_env] decides what the rest of the system does, as a
    function of the state, which has a clock: whether memory can be allocated and
    where it is, whether pushes and waits succeed, and what other threads do to the
    tree before this one gets the lock.  The name of a new directory and the address
    of its memory are drawn when they are first stored.

    Not modelled: accounting of memory to control groups, descriptions of pushes,
    fake pushes and GPUs of the unit test, the space that commands take in a push. *)

From S2P Require Import Prelude PageMask StateMonad Push PmmChunks MmuTypes MmuHopper MmuPush PteBatch TlbBatch.

Definition MAX_OPERATION_DEPTH : Z := 5.

Notation dir_ptr := positive.

Record uvm_page_directory_t := mk_dir {
  host_parent : option dir_ptr;
  index_in_parent : Z;
  phys_alloc : uvm_mmu_page_table_alloc_t;
  ref_count : Z;
  depth : Z;
  entries : list (option dir_ptr);
}.

#[export] Instance eta_dir : Settable uvm_page_directory_t := fun r =>
  mk_dir (host_parent r) (index_in_parent r) (phys_alloc r) (ref_count r) (depth r) (entries r).

Record uvm_page_table_range_t := mk_pt_range {
  table : option dir_ptr;
  start_index : Z;
  entry_count : Z;
  range_page_size : Z;
}.

#[export] Instance eta_pt_range : Settable uvm_page_table_range_t := fun r =>
  mk_pt_range (table r) (start_index r) (entry_count r) (range_page_size r).

Inductive uvm_page_tree_type_t := UVM_PAGE_TREE_TYPE_USER | UVM_PAGE_TREE_TYPE_KERNEL.

#[export] Instance uvm_page_tree_type_t_eq_dec : EqDecision uvm_page_tree_type_t.
Proof. solve_decision. Defined.

(** Operations on the memory of page tables. *)
Inductive mem_op :=
| OpCpuWrite (writes : list word_write)
| OpMb
| OpSubmit (l : list gpu_method)
| OpWait
| OpFree (a : uvm_mmu_page_table_alloc_t).

(** What does not change: the GPU, the system and module parameters. *)
Record tree_config := {
  cfg_hal : uvm_mmu_mode_hal_t;
  cfg_ce_phys_vidmem_write_supported : bool;
  cfg_static_flat_mapping_ready : bool;
  cfg_map_remap_larger_page_promotion : bool;
  cfg_ats_enabled : bool;
  cfg_va_space_ats_enabled : bool;
  cfg_no_ats_range_required : bool;
  cfg_coherent : bool;
  cfg_force_membar_sys : bool;
  cfg_cpu_num_va_bits : Z;
  cfg_x86_64 : bool;
  cfg_mem_info_size : Z;
  cfg_max_vidmem_page_size : Z;
  cfg_vidmem_only : bool;
  cfg_page_table_aperture : uvm_aperture_t;
  cfg_debug : bool;
  cfg_tlb : tlb_tree;
}.

(** [global_status] is the status of the whole driver: once a fatal error has
    occurred it stays. *)
Record page_tree := mk_tree {
  lock : bool;
  root : option dir_ptr;
  tree_type : uvm_page_tree_type_t;
  location : uvm_aperture_t;
  location_sys_fallback : bool;
  pdb_rm_dma_address : uvm_gpu_phys_address_t;
  ptes_invalid_4k : uvm_mmu_page_table_alloc_t;
  pde0 : option dir_ptr;
  no_ats_ranges : list uvm_page_table_range_t;
  dirs : gmap dir_ptr uvm_page_directory_t;
  log : list mem_op;
  global_status : NV_STATUS;
  clock : nat;
}.

#[export] Instance eta_page_tree : Settable page_tree := fun r =>
  mk_tree (lock r) (root r) (tree_type r) (location r) (location_sys_fallback r) (pdb_rm_dma_address r)
    (ptes_invalid_4k r) (pde0 r) (no_ats_ranges r) (dirs r) (log r) (global_status r) (clock r).

Notation PT := (SM page_tree).

Record page_tree_env := {
  env_kvmalloc : page_tree -> bool;
  env_new_dir : page_tree -> dir_ptr;
  env_alloc_pages : page_tree -> bool;
  env_map_cpu_pages : page_tree -> Z -> NV_STATUS * Z;
  env_pmm_alloc : page_tree -> Z -> NV_STATUS;
  env_pmm_tracker_empty : page_tree -> bool;
  env_tracker_add : page_tree -> NV_STATUS;
  env_chunk_address : page_tree -> Z -> Z;
  env_push_begin : page_tree -> NV_STATUS;
  env_tracker_wait : page_tree -> NV_STATUS;
  env_others : page_tree -> page_tree;
}.

Definition no_alloc : uvm_mmu_page_table_alloc_t := pt_alloc (phys_address (UVM_APERTURE_PEER 0) 0) 0.
Definition no_range : uvm_page_table_range_t := mk_pt_range None 0 0 0.

Section page_tree.
Context (C : tree_config) (E : page_tree_env).
Notation hal := (cfg_hal C).

(** ** The environment *)
Definition ask {A} (f : page_tree -> A) : PT A := fun s => Returns (f s, s <| clock := S (clock s) |>).

Definition append (l : list mem_op) : PT unit := sm_modify (fun s => s <| log := log s ++ l |>).

Definition get_dir (p : dir_ptr) : PT uvm_page_directory_t := s ← sm_get; sm_lift (dirs s !! p).
Definition set_dir (p : dir_ptr) (d : uvm_page_directory_t) : PT unit := sm_modify (fun s => s <| dirs := <[p := d]> (dirs s) |>).
Definition uvm_kvfree (p : dir_ptr) : PT unit := sm_modify (fun s => s <| dirs := delete p (dirs s) |>).

Definition uvm_mutex_lock : PT unit :=
  s ← sm_get;
  _ ← sm_assert (negb (lock s));
  s ← ask (env_others E);
  sm_modify (fun _ => s <| lock := true |>).

Definition uvm_mutex_unlock : PT unit :=
  s ← sm_get; _ ← sm_assert (lock s); sm_modify (fun s => s <| lock := false |>).

Definition uvm_assert_mutex_locked : PT unit := s ← sm_get; sm_assert (lock s).

(** A failing status is a fatal error of the driver. *)
Definition note_status (status : NV_STATUS) : PT NV_STATUS :=
  _ ← sm_modify (fun s => if (status =? NV_OK) || negb (global_status s =? NV_OK) then s else s <| global_status := status |>);
  mret status.

Definition page_tree_begin_acquire : PT NV_STATUS := status ← ask (env_push_begin E); note_status status.

Definition uvm_tracker_wait : PT NV_STATUS :=
  status ← ask (env_tracker_wait E);
  _ ← (if status =? NV_OK then append [OpWait] else mret tt);
  note_status status.

(** The end of a push appends the barrier that is due before its semaphore
    ([uvm_hal_membar_before_semaphore]). *)
Definition page_tree_end (push : mmu_push) : PT unit :=
  let push :=
    if flag_membar_none push then push
    else uvm_hal_wfi_membar (if flag_membar_gpu push then UVM_MEMBAR_GPU else UVM_MEMBAR_SYS) push in
  append [OpSubmit (methods push)].

Definition page_tree_end_and_wait (push : mmu_push) : PT NV_STATUS := _ ← page_tree_end push; uvm_tracker_wait.

(** ** Memory for page tables *)
Definition phys_mem_allocate_sysmem (size : Z) : PT (NV_STATUS * uvm_mmu_page_table_alloc_t) :=
  page ← ask (env_alloc_pages E);
  if negb page then mret (NV_ERR_NO_MEMORY, no_alloc)
  else
    r ← ask (fun s => env_map_cpu_pages E s size);
    if negb (r.1 =? NV_OK) then mret (r.1, no_alloc)
    else mret (NV_OK, pt_alloc (phys_address UVM_APERTURE_SYS r.2) size).

Definition phys_mem_allocate_vidmem (size : Z) : PT (NV_STATUS * uvm_mmu_page_table_alloc_t) :=
  status ← ask (fun s => env_pmm_alloc E s size);
  if negb (status =? NV_OK) then mret (status, no_alloc)
  else
    no_work ← ask (env_pmm_tracker_empty E);
    status ←
      (if (no_work : bool) then mret status
       else
         _ ← uvm_mutex_lock;
         status ← ask (env_tracker_add E);
         _ ← uvm_mutex_unlock;
         mret status);
    if negb (status =? NV_OK) then mret (status, no_alloc)
    else
      address ← ask (fun s => env_chunk_address E s size);
      mret (status, pt_alloc (phys_address UVM_APERTURE_VID address) size).

Definition phys_mem_allocate (size : Z) (loc : uvm_aperture_t) : PT (NV_STATUS * uvm_mmu_page_table_alloc_t) :=
  _ ← sm_assert (bool_decide (loc = UVM_APERTURE_VID) || bool_decide (loc = UVM_APERTURE_SYS));
  if bool_decide (loc = UVM_APERTURE_SYS) then phys_mem_allocate_sysmem size else phys_mem_allocate_vidmem size.

Definition phys_mem_deallocate_vidmem (a : uvm_mmu_page_table_alloc_t) : PT unit :=
  _ ← uvm_assert_mutex_locked;
  _ ← sm_assert (is_vid (pa_addr a));
  append [OpFree a].

Definition phys_mem_deallocate_sysmem (a : uvm_mmu_page_table_alloc_t) : PT unit :=
  _ ← uvm_assert_mutex_locked;
  status ← uvm_tracker_wait;
  s ← sm_get;
  _ ← sm_assert ((status =? NV_OK) || (status =? global_status s));
  _ ← sm_assert (is_sys (pa_addr a));
  append [OpFree a].

Definition phys_mem_deallocate (a : uvm_mmu_page_table_alloc_t) : PT unit :=
  if is_sys (pa_addr a) then phys_mem_deallocate_sysmem a else phys_mem_deallocate_vidmem a.

(** Freeing a directory and its table. *)
Definition free_directory (p : dir_ptr) : PT unit :=
  d ← get_dir p; _ ← phys_mem_deallocate (phys_alloc d); uvm_kvfree p.

(** ** Ranges *)
Definition page_table_range_init (page_size : Z) (p : dir_ptr) (start end_ : Z) : PT uvm_page_table_range_t :=
  let range := mk_pt_range (Some p) start (NvU32 (1 + end_ - start)) page_size in
  d ← get_dir p;
  _ ← set_dir p (d <| ref_count := NvU32 (ref_count d + entry_count range) |>);
  mret range.

(** ** Writing tables *)
Definition uvm_mmu_use_cpu (s : page_tree) : bool :=
  bool_decide (location s <> UVM_APERTURE_SYS) && negb (cfg_ce_phys_vidmem_write_supported C)
    && negb (cfg_static_flat_mapping_ready C).

(** The directory as [make_pde] sees it; [fuel] bounds the way up to the root. *)
Fixpoint dir_chain (fuel : nat) (ds : gmap dir_ptr uvm_page_directory_t) (d : uvm_page_directory_t) : option (list (Z * Z)) :=
  match host_parent d with
  | None => Some []
  | Some q =>
      match fuel with
      | O => None
      | S fuel =>
          dq ← ds !! q;
          rest ← dir_chain fuel ds dq;
          Some ((depth dq, index_in_parent d) :: rest)
      end
  end.

Definition view_of (ds : gmap dir_ptr uvm_page_directory_t) (d : uvm_page_directory_t) : option dir_view :=
  chain ← dir_chain (Z.to_nat MAX_OPERATION_DEPTH) ds d; Some (DirView (depth d) chain).

Definition hal_make_pde (allocs : list (option uvm_mmu_page_table_alloc_t)) (d : uvm_page_directory_t) (i : Z) : PT (list Z) :=
  s ← sm_get; sm_lift (v ← view_of (dirs s) d; make_pde hal allocs v i).

Definition uvm_mmu_page_tree_entries (dep page_size : Z) : option Z :=
  bits ← index_bits hal dep page_size; Some (2 ^ bits).

(** [uvm_mmu_page_table_cpu_map]: the offset of the table in the mapped page. *)
Definition cpu_map_offset (a : uvm_mmu_page_table_alloc_t) : option Z :=
  UVM_ASSERT pa_size a <=? PAGE_SIZE;
  Some (address (pa_addr a) mod PAGE_SIZE).

Definition uvm_mmu_page_table_cpu_memset_8 (a : uvm_mmu_page_table_alloc_t) (start pattern num_entries : Z) : PT unit :=
  ptr ← sm_lift (cpu_map_offset a);
  _ ← sm_assert (ptr mod 8 =? 0);
  _ ← sm_assert (NvU32 (start + num_entries) * 8 <=? pa_size a);
  append [OpCpuWrite (words_at (addr_add (pa_addr a) (8 * start)) (replicate (Z.to_nat num_entries) pattern))].

Definition uvm_mmu_page_table_cpu_memset_16 (a : uvm_mmu_page_table_alloc_t) (start : Z) (pattern : list Z) (num_entries : Z) : PT unit :=
  ptr ← sm_lift (cpu_map_offset a);
  _ ← sm_assert (ptr mod 16 =? 0);
  _ ← sm_assert (NvU32 (start + num_entries) * 16 <=? pa_size a);
  append [OpCpuWrite (words_at (addr_add (pa_addr a) (16 * start)) (concat (replicate (Z.to_nat num_entries) (take 2 pattern))))].

Fixpoint pde_fill_cpu_loop (count : nat) (i : Z) (d : uvm_page_directory_t) (start entry_size : Z)
    (allocs : list (option uvm_mmu_page_table_alloc_t)) : PT unit :=
  match count with
  | O => mret tt
  | S count =>
      pde_data ← hal_make_pde allocs d (start + i);
      _ ← (if entry_size =? 8
           then w ← sm_lift (head pde_data); uvm_mmu_page_table_cpu_memset_8 (phys_alloc d) (start + i) w 1
           else uvm_mmu_page_table_cpu_memset_16 (phys_alloc d) (start + i) pde_data 1);
      pde_fill_cpu_loop count (i + 1) d start entry_size allocs
  end.

Definition pde_fill_cpu (d : uvm_page_directory_t) (start pde_count : Z) (allocs : list (option uvm_mmu_page_table_alloc_t)) : PT unit :=
  s ← sm_get;
  _ ← sm_assert (uvm_mmu_use_cpu s);
  entry_size ← sm_lift (entry_size hal (depth d));
  _ ← sm_assert (entry_size <=? 16);
  pde_fill_cpu_loop (Z.to_nat pde_count) 0 d start entry_size allocs.

(** The inline data of entries [i, i + count). *)
Fixpoint inline_pdes (count : nat) (i : Z) (d : uvm_page_directory_t) (allocs : list (option uvm_mmu_page_table_alloc_t))
    (data : list Z) : PT (list Z) :=
  match count with
  | O => mret data
  | S count =>
      pde_data ← hal_make_pde allocs d i;
      data ← sm_lift (inline_data_add data pde_data);
      inline_pdes count (i + 1) d allocs data
  end.

Fixpoint pde_fill_gpu_loop (fuel : nat) (i : Z) (d : uvm_page_directory_t) (start pde_count entry_size max_inline : Z)
    (addr : uvm_gpu_phys_address_t) (flag : option uvm_push_flag_t) (allocs : list (option uvm_mmu_page_table_alloc_t))
    (push : mmu_push) : PT mmu_push :=
  if i <? pde_count then
    match fuel with
    | O => sm_wait
    | S fuel =>
        let push := if negb (i =? 0) then uvm_push_set_flag UVM_PUSH_FLAG_CE_NEXT_PIPELINED push else push in
        let entry_count := Z.min (pde_count - i) max_inline in
        let push :=
          if i + entry_count <? pde_count then uvm_push_set_flag UVM_PUSH_FLAG_NEXT_MEMBAR_NONE push
          else match flag with Some f => uvm_push_set_flag f push | None => push end in
        data ← inline_pdes (Z.to_nat entry_count) (start + i) d allocs [];
        let push := ce_memcopy addr data push in
        pde_fill_gpu_loop fuel (i + entry_count) d start pde_count entry_size max_inline
          (addr_add addr (entry_size * entry_count)) flag allocs push
    end
  else mret push.

Definition pde_fill_gpu (d : uvm_page_directory_t) (start pde_count : Z) (allocs : list (option uvm_mmu_page_table_alloc_t))
    (push : mmu_push) : PT mmu_push :=
  s ← sm_get;
  _ ← sm_assert (negb (uvm_mmu_use_cpu s));
  entry_size ← sm_lift (entry_size hal (depth d));
  _ ← sm_assert (entry_size <=? 16);
  let max_inline_entries := UVM_PUSH_INLINE_DATA_MAX_SIZE / entry_size in
  let '(none, push) := uvm_push_get_and_reset_flag UVM_PUSH_FLAG_NEXT_MEMBAR_NONE push in
  let '(flag, push) :=
    if none then (Some UVM_PUSH_FLAG_NEXT_MEMBAR_NONE, push)
    else
      let '(gpu, push) := uvm_push_get_and_reset_flag UVM_PUSH_FLAG_NEXT_MEMBAR_GPU push in
      (if gpu then Some UVM_PUSH_FLAG_NEXT_MEMBAR_GPU else None, push) in
  pde_fill_gpu_loop (Z.to_nat pde_count) 0 d start pde_count entry_size max_inline_entries
    (addr_add (pa_addr (phys_alloc d)) (start * entry_size)) flag allocs push.

(** Without a push the CPU writes. *)
Definition pde_fill (d : uvm_page_directory_t) (start pde_count : Z) (allocs : list (option uvm_mmu_page_table_alloc_t))
    (push : option mmu_push) : PT (option mmu_push) :=
  n ← sm_lift (uvm_mmu_page_tree_entries (depth d) UVM_PAGE_SIZE_AGNOSTIC);
  _ ← sm_assert (start + pde_count <=? n);
  match push with
  | Some push => push ← pde_fill_gpu d start pde_count allocs push; mret (Some push)
  | None => _ ← pde_fill_cpu d start pde_count allocs; mret None
  end.

Definition phys_mem_init (page_size : Z) (p : dir_ptr) (push : option mmu_push) : PT (option mmu_push) :=
  d ← get_dir p;
  entries_count ← sm_lift (uvm_mmu_page_tree_entries (depth d) page_size);
  leaf_depth ← sm_lift (page_table_depth hal UVM_PAGE_SIZE_AGNOSTIC);
  let max_pde_depth := leaf_depth - 1 in
  if (max_pde_depth <? depth d) || ((512 <? entries_count) && negb (cfg_ats_enabled C)) then
    table_depth ← sm_lift (page_table_depth hal page_size);
    clear_bits ←
      (if negb (depth d =? table_depth) then
         bits ← hal_make_pde [None; None] d 0;
         size ← sm_lift (entry_size hal (depth d));
         _ ← sm_assert ((size =? 8) || bool_decide (bits !! 0%nat = bits !! 1%nat));
         sm_lift (head bits)
       else mret 0);
    match push with
    | Some push => push ← sm_lift (ce_memset_8 (pa_addr (phys_alloc d)) clear_bits (pa_size (phys_alloc d)) push); mret (Some push)
    | None => _ ← uvm_mmu_page_table_cpu_memset_8 (phys_alloc d) 0 clear_bits (pa_size (phys_alloc d) / 8); mret None
    end
  else pde_fill d 0 entries_count [None; None] push.

(** ** Directories *)
Definition allocate_directory (page_size dep pmm_flags : Z) : PT (option dir_ptr) :=
  phys_alloc_size ← sm_lift (allocation_size hal dep page_size);
  leaf_depth ← sm_lift (page_table_depth hal UVM_PAGE_SIZE_AGNOSTIC);
  count ← (if dep =? leaf_depth then mret 0
           else
             per ← sm_lift (entries_per_index hal dep);
             bits ← sm_lift (index_bits hal dep page_size);
             mret (Z.shiftl per bits));
  kv ← ask (env_kvmalloc E);
  if negb kv then mret None
  else
    s ← sm_get;
    r ← phys_mem_allocate phys_alloc_size (location s);
    s ← sm_get;
    r ← (if (r.1 =? NV_ERR_NO_MEMORY) && bool_decide (location s = UVM_APERTURE_VID) && location_sys_fallback s
            && negb (Z.land pmm_flags UVM_PMM_ALLOC_FLAGS_EVICT =? 0)
         then phys_mem_allocate phys_alloc_size UVM_APERTURE_SYS
         else mret r);
    if negb (r.1 =? NV_OK) then mret None
    else
      p ← ask (env_new_dir E);
      _ ← set_dir p (mk_dir None 0 r.2 0 dep (replicate (Z.to_nat count) None));
      mret (Some p).

Definition entry_index_from_vaddr (vaddr addr_bit_shift bits : Z) : Z :=
  NvU32 (Z.land (Z.shiftr vaddr addr_bit_shift) (2 ^ bits - 1)).

Definition index_to_entry (entry_index dep page_size : Z) : option Z :=
  per ← entries_per_index hal dep;
  off ← entry_offset hal dep page_size;
  Some (NvU32 (per * entry_index + off)).

(** [dir->entries[k]] *)
Definition entry_at (d : uvm_page_directory_t) (k : Z) : option (option dir_ptr) := entries d !! Z.to_nat k.
Definition set_entry (p : dir_ptr) (k : Z) (e : option dir_ptr) : PT unit :=
  d ← get_dir p;
  _ ← sm_assert (bool_decide (Z.to_nat k < length (entries d))%nat);
  set_dir p (d <| entries := <[Z.to_nat k := e]> (entries d) |>).

Definition host_pde_write (p parent : dir_ptr) (index : Z) : PT unit :=
  d ← get_dir p;
  _ ← set_dir p (d <| host_parent := Some parent |> <| index_in_parent := index |>);
  dp ← get_dir parent;
  set_dir parent (dp <| ref_count := NvU32 (ref_count dp + 1) |>).

(** The allocations of the children of entries [k, k + n). *)
Fixpoint child_allocs (n : nat) (k : Z) (d : uvm_page_directory_t) (force_clear : bool) : PT (list (option uvm_mmu_page_table_alloc_t)) :=
  match n with
  | O => mret []
  | S n =>
      entry ← sm_lift (entry_at d k);
      a ← match entry with
          | Some q => if force_clear then mret None else dq ← get_dir q; mret (Some (phys_alloc dq))
          | None => mret None
          end;
      rest ← child_allocs n (k + 1) d force_clear;
      mret (a :: rest)
  end.

Definition pde_write (p : dir_ptr) (entry_index : Z) (force_clear : bool) (push : option mmu_push) : PT (option mmu_push) :=
  d ← get_dir p;
  per ← sm_lift (entries_per_index hal (depth d));
  phys_allocs ← child_allocs (Z.to_nat per) (per * entry_index) d force_clear;
  pde_fill d entry_index 1 phys_allocs push.

Definition host_pde_clear (p : dir_ptr) (entry_index page_size : Z) : PT unit :=
  d ← get_dir p;
  _ ← sm_assert (0 <? ref_count d);
  k ← sm_lift (index_to_entry entry_index (depth d) page_size);
  _ ← set_entry p k None;
  d ← get_dir p;
  set_dir p (d <| ref_count := ref_count d - 1 |>).

Definition pde_clear (p : dir_ptr) (entry_index page_size : Z) (push : option mmu_push) : PT (option mmu_push) :=
  _ ← host_pde_clear p entry_index page_size;
  pde_write p entry_index false push.

(** ** New tables become part of the tree *)
Definition uvm_page_tree_pdb_address : PT uvm_gpu_phys_address_t :=
  s ← sm_get;
  r ← sm_lift (root s);
  d ← get_dir r;
  mret (if is_vid (pa_addr (phys_alloc d)) then pa_addr (phys_alloc d) else pdb_rm_dma_address s).

Definition tlb_invalidate_all (dep : Z) (membar : uvm_membar_t) (push : mmu_push) : PT mmu_push :=
  pdb ← uvm_page_tree_pdb_address; mret (push_method (HostInvalidateAll pdb dep membar) push).

Definition parent_of (p : dir_ptr) : PT (dir_ptr * Z) :=
  d ← get_dir p; parent ← sm_lift (host_parent d); mret (parent, index_in_parent d).

Fixpoint init_tables_cpu (page_size : Z) (dirs_used : list dir_ptr) : PT unit :=
  match dirs_used with
  | [] => mret tt
  | p :: rest => _ ← phys_mem_init page_size p None; init_tables_cpu page_size rest
  end.

(** The argument of the two loops over parents is the reverse of [dirs_used]. *)
Fixpoint write_parents_cpu (rev_used : list dir_ptr) : PT unit :=
  match rev_used with
  | [] => mret tt
  | p :: rest => q ← parent_of p; _ ← pde_write q.1 q.2 false None; write_parents_cpu rest
  end.

Definition write_gpu_state_cpu (page_size invalidate_depth : Z) (dirs_used : list dir_ptr) : PT NV_STATUS :=
  _ ← uvm_assert_mutex_locked;
  s ← sm_get;
  _ ← sm_assert (uvm_mmu_use_cpu s);
  if bool_decide (dirs_used = []) then mret NV_OK
  else
    status ← uvm_tracker_wait;
    if negb (status =? NV_OK) then mret status
    else
      _ ← init_tables_cpu page_size dirs_used;
      _ ← append [OpMb];
      _ ← write_parents_cpu (rev dirs_used);
      status ← page_tree_begin_acquire;
      if negb (status =? NV_OK) then mret status
      else
        _ ← sm_assert (0 <=? invalidate_depth);
        push ← tlb_invalidate_all invalidate_depth UVM_MEMBAR_NONE empty_push;
        _ ← page_tree_end push;
        mret NV_OK.

Definition pipelined_unordered (push : mmu_push) : mmu_push :=
  uvm_push_set_flag UVM_PUSH_FLAG_NEXT_MEMBAR_NONE (uvm_push_set_flag UVM_PUSH_FLAG_CE_NEXT_PIPELINED push).

Fixpoint init_tables_gpu (page_size : Z) (dirs_used : list dir_ptr) (membar : uvm_membar_t) (push : mmu_push)
    : PT (uvm_membar_t * mmu_push) :=
  match dirs_used with
  | [] => mret (membar, push)
  | p :: rest =>
      o ← phys_mem_init page_size p (Some (pipelined_unordered push));
      push ← sm_lift o;
      d ← get_dir p;
      init_tables_gpu page_size rest (if is_sys (pa_addr (phys_alloc d)) then UVM_MEMBAR_SYS else membar) push
  end.

Fixpoint write_parents_gpu (rev_used : list dir_ptr) (membar : uvm_membar_t) (push : mmu_push) : PT (uvm_membar_t * mmu_push) :=
  match rev_used with
  | [] => mret (membar, push)
  | p :: rest =>
      q ← parent_of p;
      o ← pde_write q.1 q.2 false (Some (pipelined_unordered push));
      push ← sm_lift o;
      dq ← get_dir q.1;
      write_parents_gpu rest (if is_sys (pa_addr (phys_alloc dq)) then UVM_MEMBAR_SYS else membar) push
  end.

Definition write_gpu_state_gpu (page_size invalidate_depth : Z) (dirs_used : list dir_ptr) : PT NV_STATUS :=
  _ ← uvm_assert_mutex_locked;
  s ← sm_get;
  _ ← sm_assert (negb (uvm_mmu_use_cpu s));
  if bool_decide (dirs_used = []) then mret NV_OK
  else
    status ← page_tree_begin_acquire;
    if negb (status =? NV_OK) then mret status
    else
      r ← init_tables_gpu page_size dirs_used UVM_MEMBAR_GPU empty_push;
      let push := uvm_hal_wfi_membar r.1 r.2 in
      r ← write_parents_gpu (rev dirs_used) UVM_MEMBAR_GPU push;
      let push := uvm_hal_wfi_membar r.1 r.2 in
      _ ← sm_assert (0 <=? invalidate_depth);
      push ← tlb_invalidate_all invalidate_depth UVM_MEMBAR_NONE push;
      _ ← page_tree_end (uvm_push_set_flag UVM_PUSH_FLAG_NEXT_MEMBAR_NONE push);
      mret NV_OK.

Definition write_gpu_state (page_size invalidate_depth : Z) (dirs_used : list dir_ptr) : PT NV_STATUS :=
  s ← sm_get;
  if uvm_mmu_use_cpu s then write_gpu_state_cpu page_size invalidate_depth dirs_used
  else write_gpu_state_gpu page_size invalidate_depth dirs_used.

Fixpoint free_unused_directories (dirs_used : list dir_ptr) (dir_cache : list (option dir_ptr)) : PT unit :=
  match dir_cache with
  | [] => mret tt
  | None :: rest => free_unused_directories dirs_used rest
  | Some p :: rest =>
      _ ← (if bool_decide (p ∈ dirs_used) then mret tt else free_directory p);
      free_unused_directories dirs_used rest
  end.

(** ** Getting entries *)

(** [uvm_gpu_can_address] and [uvm_gpu_can_address_kernel] of uvm_gpu.c. *)
Definition uvm_gpu_can_address (addr size : Z) : option bool :=
  let addr_end := NvU64 (addr + size - 1) in
  UVM_ASSERT num_va_bits hal <? 64;
  UVM_ASSERT addr <=? addr_end;
  UVM_ASSERT 0 <? size;
  let gpu_addr_shift := num_va_bits hal in
  let cpu_addr_shift := cfg_cpu_num_va_bits C in
  let addr_shift :=
    if 40 <? gpu_addr_shift then
      if gpu_addr_shift <? cpu_addr_shift then (if cfg_x86_64 C then 48 else 49)
      else if gpu_addr_shift =? 57 then gpu_addr_shift
      else cpu_addr_shift
    else gpu_addr_shift in
  r ← uvm_get_unaddressable_range addr_shift;
  Some ((addr_end <? r.1) || (r.2 <=? addr)).

Definition uvm_gpu_can_address_kernel (addr size : Z) : option bool :=
  let addr_end := NvU64 (addr + size - 1) in
  UVM_ASSERT num_va_bits hal <? 64;
  UVM_ASSERT addr <=? addr_end;
  UVM_ASSERT 0 <? size;
  Some (addr_end <? 2 ^ num_va_bits hal).

(** What a walk down the tree ends with: a directory is missing below a directory
    of some depth, or the range, the new directories and the depth to invalidate. *)
Inductive walk_result :=
| WalkMissing (cur_depth : Z)
| WalkFound (range : uvm_page_table_range_t) (dirs_used : list dir_ptr) (invalidate_depth : Z).

Fixpoint undo_used (dirs_used : list dir_ptr) (page_size : Z) : PT unit :=
  match dirs_used with
  | [] => mret tt
  | p :: rest => q ← parent_of p; _ ← host_pde_clear q.1 q.2 page_size; undo_used rest page_size
  end.

Fixpoint get_ptes_walk (fuel : nat) (page_size start size addr_bit_shift : Z) (p : dir_ptr) (dirs_used : list dir_ptr)
    (invalidate_depth : Z) (dir_cache : list (option dir_ptr)) : PT walk_result :=
  match fuel with
  | O => sm_wait
  | S fuel =>
      d ← get_dir p;
      index_bits ← sm_lift (index_bits hal (depth d) page_size);
      let addr_bit_shift := addr_bit_shift - index_bits in
      let start_index := entry_index_from_vaddr start addr_bit_shift index_bits in
      let end_index := entry_index_from_vaddr (NvU64 (start + size - 1)) addr_bit_shift index_bits in
      _ ← sm_assert ((start_index <=? end_index) && (end_index <? 2 ^ index_bits));
      k ← sm_lift (index_to_entry start_index (depth d) page_size);
      table_depth ← sm_lift (page_table_depth hal page_size);
      if depth d =? table_depth then
        range ← page_table_range_init page_size p start_index end_index;
        mret (WalkFound range dirs_used invalidate_depth)
      else
        _ ← sm_assert (start_index =? end_index);
        entry ← sm_lift (entry_at d k);
        match entry with
        | Some q => get_ptes_walk fuel page_size start size addr_bit_shift q dirs_used invalidate_depth dir_cache
        | None =>
            cached ← sm_lift (dir_cache !! Z.to_nat (depth d));
            match cached with
            | None => _ ← undo_used dirs_used page_size; mret (WalkMissing (depth d))
            | Some q =>
                _ ← host_pde_write q p start_index;
                _ ← set_entry p k (Some q);
                _ ← sm_assert (Z.of_nat (length dirs_used) <? MAX_OPERATION_DEPTH);
                get_ptes_walk fuel page_size start size addr_bit_shift q (dirs_used ++ [q])
                  (if invalidate_depth =? -1 then depth d else invalidate_depth) dir_cache
            end
        end
  end.

Definition try_get_ptes (page_size start size : Z) (range : uvm_page_table_range_t) (cur_depth : Z)
    (dir_cache : list (option dir_ptr)) : PT (NV_STATUS * uvm_page_table_range_t * Z) :=
  _ ← uvm_assert_mutex_locked;
  _ ← sm_assert (is_power_of_2 page_size);
  _ ← sm_assert (negb (Z.land page_size (page_sizes hal) =? 0));
  _ ← sm_assert ((start mod page_size =? 0) && (size mod page_size =? 0));
  s ← sm_get;
  ok ← sm_lift (match tree_type s with
                | UVM_PAGE_TREE_TYPE_USER => uvm_gpu_can_address start size
                | UVM_PAGE_TREE_TYPE_KERNEL => uvm_gpu_can_address_kernel start size
                end);
  _ ← sm_assert ok;
  r ← sm_lift (root s);
  w ← get_ptes_walk (S (Z.to_nat MAX_OPERATION_DEPTH)) page_size start size (num_va_bits hal) r [] (-1) dir_cache;
  match w with
  | WalkMissing dep => mret (NV_ERR_MORE_PROCESSING_REQUIRED, range, dep)
  | WalkFound range dirs_used invalidate_depth =>
      _ ← free_unused_directories dirs_used dir_cache;
      status ← write_gpu_state page_size invalidate_depth dirs_used;
      mret (status, range, cur_depth)
  end.

(** Large pages of the tree are first mapped to tables of invalid small pages. *)
Definition uvm_page_table_range_aperture (range : uvm_page_table_range_t) : PT uvm_aperture_t :=
  p ← sm_lift (table range); d ← get_dir p; mret (aperture (pa_addr (phys_alloc d))).

Definition map_remap (start size : Z) (range : uvm_page_table_range_t) : PT NV_STATUS :=
  if negb (range_page_size range =? UVM_PAGE_SIZE_512M) then mret NV_OK
  else
    p ← sm_lift (table range);
    d ← get_dir p;
    per ← sm_lift (entries_per_index hal (depth d));
    _ ← sm_assert (per =? 1);
    status ← page_tree_begin_acquire;
    if negb (status =? NV_OK) then mret status
    else
      ap ← uvm_page_table_range_aperture range;
      let push := if bool_decide (ap = UVM_APERTURE_VID) then uvm_push_set_flag UVM_PUSH_FLAG_NEXT_MEMBAR_GPU empty_push
                  else empty_push in
      s ← sm_get;
      q ← sm_lift (pde0 s);
      dq ← get_dir q;
      o ← pde_fill d (start_index range) (entry_count range) [Some (phys_alloc dq)] (Some push);
      push ← sm_lift o;
      let push := wait_for_idle push in
      let sizes := Z.land (Z.lor (range_page_size range) (range_page_size range - 1)) (page_sizes hal) in
      pdb ← uvm_page_tree_pdb_address;
      push ← sm_lift (uvm_tlb_batch_single_invalidate
        {| tlb_hal := hal; tlb_pdb := pdb; va_invalidate_supported := va_invalidate_supported (cfg_tlb C);
           va_range_invalidate_supported := va_range_invalidate_supported (cfg_tlb C);
           max_ranges := max_ranges (cfg_tlb C); max_pages := max_pages (cfg_tlb C) |}
        start size sizes UVM_MEMBAR_NONE push);
      _ ← page_tree_end push;
      mret NV_OK.

(** The loop of [uvm_page_tree_get_ptes_async], entered with the lock. *)
Fixpoint get_ptes_loop (fuel : nat) (page_size start size pmm_flags : Z) (range : uvm_page_table_range_t) (cur_depth : Z)
    (dir_cache : list (option dir_ptr)) : PT (NV_STATUS * uvm_page_table_range_t) :=
  match fuel with
  | O => sm_wait
  | S fuel =>
      r ← try_get_ptes page_size start size range cur_depth dir_cache;
      let '(status, range, cur_depth) := r in
      if status =? NV_ERR_MORE_PROCESSING_REQUIRED then
        _ ← uvm_mutex_unlock;
        p ← allocate_directory page_size (cur_depth + 1) pmm_flags;
        _ ← sm_assert (bool_decide (Z.to_nat cur_depth < length dir_cache)%nat);
        let dir_cache := <[Z.to_nat cur_depth := p]> dir_cache in
        _ ← uvm_mutex_lock;
        match p with
        | None =>
            _ ← free_unused_directories [] dir_cache;
            _ ← uvm_mutex_unlock;
            mret (NV_ERR_NO_MEMORY, range)
        | Some _ => get_ptes_loop fuel page_size start size pmm_flags range cur_depth dir_cache
        end
      else
        status ← (if (status =? NV_OK) && cfg_map_remap_larger_page_promotion C then map_remap start size range else mret status);
        _ ← uvm_mutex_unlock;
        mret (status, range)
  end.

Definition uvm_page_tree_get_ptes_async (fuel : nat) (page_size start size pmm_flags : Z) (range : uvm_page_table_range_t)
    : PT (NV_STATUS * uvm_page_table_range_t) :=
  _ ← uvm_mutex_lock;
  get_ptes_loop fuel page_size start size pmm_flags range 0 (replicate (Z.to_nat MAX_OPERATION_DEPTH) None).

Definition uvm_page_tree_wait : PT NV_STATUS :=
  _ ← uvm_mutex_lock; status ← uvm_tracker_wait; _ ← uvm_mutex_unlock; mret status.

Definition uvm_page_tree_get_ptes (fuel : nat) (page_size start size pmm_flags : Z) (range : uvm_page_table_range_t)
    : PT (NV_STATUS * uvm_page_table_range_t) :=
  r ← uvm_page_tree_get_ptes_async fuel page_size start size pmm_flags range;
  if negb (r.1 =? NV_OK) then mret r
  else status ← uvm_page_tree_wait; mret (status, r.2).

(** ** Putting entries back *)
Definition uvm_hal_downgrade_membar_type (is_local_vidmem : bool) : uvm_membar_t :=
  if is_local_vidmem && negb (cfg_coherent C) && negb (cfg_force_membar_sys C) then UVM_MEMBAR_GPU else UVM_MEMBAR_SYS.

(** The state of the loop of [uvm_page_tree_put_ptes_async]. *)
Record put_state := mk_put {
  put_push : mmu_push;
  free_queue : list dir_ptr;
  put_invalidate_depth : Z;
  membar_after_pde_clears : uvm_membar_t;
  membar_after_invalidate : uvm_membar_t;
}.

(** What precedes the first clear: the tracker, for the CPU, and a push. *)
Definition put_begin : PT NV_STATUS :=
  s ← sm_get;
  status ← (if uvm_mmu_use_cpu s then uvm_tracker_wait else mret NV_OK);
  if status =? NV_OK then page_tree_begin_acquire else mret status.

(** One directory of the way up that is no longer in use. *)
Definition put_directory (range : uvm_page_table_range_t) (p parent : dir_ptr) (st : put_state) : PT put_state :=
  s ← sm_get;
  d ← get_dir p;
  push ←
    (if uvm_mmu_use_cpu s
     then _ ← pde_clear parent (index_in_parent d) (range_page_size range) None; mret (put_push st)
     else
       o ← pde_clear parent (index_in_parent d) (range_page_size range) (Some (pipelined_unordered (put_push st)));
       sm_lift o);
  dp ← get_dir parent;
  let this_membar :=
    if uvm_mmu_use_cpu s then UVM_MEMBAR_SYS else uvm_hal_downgrade_membar_type (is_vid (pa_addr (phys_alloc d))) in
  table_depth ← sm_lift (page_table_depth hal (range_page_size range));
  _ ← sm_assert (Z.of_nat (length (free_queue st)) <? table_depth);
  mret (mk_put push (free_queue st ++ [p]) (depth dp)
    (if is_sys (pa_addr (phys_alloc dp)) then UVM_MEMBAR_SYS else membar_after_pde_clears st)
    (uvm_membar_max (membar_after_invalidate st) this_membar)).

(** The loop; [None] when the work could not be begun. *)
Fixpoint put_ptes_loop (fuel : nat) (range : uvm_page_table_range_t) (p : dir_ptr) (st : put_state) : PT (option put_state) :=
  d ← get_dir p;
  match host_parent d with
  | None => mret (Some st)
  | Some parent =>
      if negb (ref_count d =? 0) then mret (Some st)
      else
        match fuel with
        | O => sm_wait
        | S fuel =>
            status ← (if bool_decide (free_queue st = []) then put_begin else mret NV_OK);
            if negb (status =? NV_OK) then
              s ← sm_get;
              _ ← sm_assert (status =? global_status s);
              _ ← set_dir p (d <| ref_count := NvU32 (ref_count d + entry_count range) |>);
              mret None
            else
              st ← put_directory range p parent st;
              put_ptes_loop fuel range parent st
        end
  end.

Fixpoint free_directories (l : list dir_ptr) : PT unit :=
  match l with
  | [] => mret tt
  | p :: rest => _ ← free_directory p; free_directories rest
  end.

Definition put_finish (st : put_state) : PT unit :=
  if bool_decide (free_queue st = []) then mret tt
  else
    s ← sm_get;
    push ← (if uvm_mmu_use_cpu s then _ ← append [OpMb]; mret (put_push st)
            else mret (uvm_hal_wfi_membar (membar_after_pde_clears st) (put_push st)));
    push ← tlb_invalidate_all (put_invalidate_depth st) (membar_after_invalidate st) push;
    let push := if uvm_mmu_use_cpu s then push else uvm_push_set_flag UVM_PUSH_FLAG_NEXT_MEMBAR_NONE push in
    _ ← page_tree_end push;
    free_directories (free_queue st).

Definition uvm_page_tree_put_ptes_async (range : uvm_page_table_range_t) : PT unit :=
  table_depth ← sm_lift (page_table_depth hal (range_page_size range));
  _ ← sm_assert (table_depth <=? MAX_OPERATION_DEPTH);
  p ← sm_lift (table range);
  _ ← uvm_mutex_lock;
  d ← get_dir p;
  _ ← sm_assert (entry_count range <=? ref_count d);
  _ ← set_dir p (d <| ref_count := ref_count d - entry_count range |>);
  o ← put_ptes_loop (Z.to_nat MAX_OPERATION_DEPTH) range p (mk_put empty_push [] 0 UVM_MEMBAR_GPU UVM_MEMBAR_GPU);
  _ ← match o with Some st => put_finish st | None => mret tt end;
  uvm_mutex_unlock.

Definition uvm_page_tree_put_ptes (range : uvm_page_table_range_t) : PT unit :=
  _ ← uvm_page_tree_put_ptes_async range; _ ← uvm_page_tree_wait; mret tt.

(** ** Changing ranges *)
Definition uvm_page_table_range_get_upper (existing : uvm_page_table_range_t) (num_upper_pages : Z) : PT uvm_page_table_range_t :=
  let upper_start_index := NvU32 (start_index existing + NvU32 (entry_count existing - num_upper_pages)) in
  let upper_end_index := NvU32 (upper_start_index + num_upper_pages - 1) in
  _ ← sm_assert (negb (num_upper_pages =? 0));
  _ ← sm_assert (num_upper_pages <=? entry_count existing);
  p ← sm_lift (table existing);
  _ ← uvm_mutex_lock;
  upper ← page_table_range_init (range_page_size existing) p upper_start_index upper_end_index;
  _ ← uvm_mutex_unlock;
  mret upper.

(** The result is the shrunk range; without pages it is as it was. *)
Definition uvm_page_table_range_shrink (range : uvm_page_table_range_t) (new_page_count : Z) : PT uvm_page_table_range_t :=
  _ ← sm_assert (new_page_count <=? entry_count range);
  if 0 <? new_page_count then
    p ← sm_lift (table range);
    _ ← uvm_mutex_lock;
    d ← get_dir p;
    _ ← sm_assert (entry_count range <=? ref_count d);
    _ ← set_dir p (d <| ref_count := ref_count d - (entry_count range - new_page_count) |>);
    _ ← uvm_mutex_unlock;
    mret (range <| entry_count := new_page_count |>)
  else _ ← uvm_page_tree_put_ptes range; mret range.

(** ** Single entries *)
Definition uvm_page_tree_get_entry (fuel : nat) (page_size start pmm_flags : Z) (single : uvm_page_table_range_t)
    : PT (NV_STATUS * uvm_page_table_range_t) :=
  r ← uvm_page_tree_get_ptes fuel page_size start page_size pmm_flags single;
  _ ← sm_assert (entry_count r.2 =? 1);
  mret r.

Definition uvm_page_tree_write_pde (single : uvm_page_table_range_t) (push : mmu_push) : PT mmu_push :=
  _ ← sm_assert (entry_count single =? 1);
  p ← sm_lift (table single);
  o ← pde_write p (start_index single) false (Some push);
  sm_lift o.

Definition uvm_page_tree_clear_pde (single : uvm_page_table_range_t) (push : mmu_push) : PT mmu_push :=
  _ ← sm_assert (entry_count single =? 1);
  p ← sm_lift (table single);
  o ← pde_write p (start_index single) true (Some push);
  sm_lift o.

Definition poison_ptes (pte_dir parent : dir_ptr) (page_size : Z) : PT NV_STATUS :=
  _ ← uvm_assert_mutex_locked;
  d ← get_dir pte_dir;
  table_depth ← sm_lift (page_table_depth hal page_size);
  _ ← sm_assert (depth d =? table_depth);
  s ← sm_get;
  _ ← sm_assert (negb (uvm_mmu_use_cpu s));
  status ← page_tree_begin_acquire;
  if negb (status =? NV_OK) then mret status
  else
    bits ← sm_lift (poisoned_pte hal);
    push ← sm_lift (ce_memset_8 (pa_addr (phys_alloc d)) bits (pa_size (phys_alloc d)) empty_push);
    dp ← get_dir parent;
    let push := if is_vid (pa_addr (phys_alloc d)) && is_vid (pa_addr (phys_alloc dp))
                then uvm_push_set_flag UVM_PUSH_FLAG_NEXT_MEMBAR_GPU push else push in
    _ ← page_tree_end push;
    mret NV_OK.

(** The critical section of [uvm_page_tree_alloc_table], with the new directory [p]
    and the entry [k] of the table [t]. *)
Definition alloc_table_locked (page_size : Z) (single : uvm_page_table_range_t) (t p : dir_ptr) (k : Z)
    : PT (NV_STATUS * option uvm_page_table_range_t) :=
  status ← (if cfg_debug C then poison_ptes p t page_size else mret NV_OK);
  status ← (if status =? NV_OK then uvm_tracker_wait else mret status);
  if negb (status =? NV_OK) then _ ← free_directory p; mret (status, None)
  else
    d ← get_dir p;
    bits ← sm_lift (index_bits hal (depth d) page_size);
    dt ← get_dir t;
    entry ← sm_lift (entry_at dt k);
    q ← match entry with
        | None => _ ← set_entry t k (Some p); _ ← host_pde_write p t (start_index single); mret p
        | Some q => mret q
        end;
    let children := mk_pt_range (Some q) 0 (2 ^ bits) page_size in
    dq ← get_dir q;
    _ ← set_dir q (dq <| ref_count := NvU32 (ref_count dq + entry_count children) |>);
    _ ← match entry with None => mret tt | Some _ => free_directory p end;
    mret (NV_OK, Some children).

Definition uvm_page_tree_alloc_table (page_size pmm_flags : Z) (single : uvm_page_table_range_t)
    : PT (NV_STATUS * option uvm_page_table_range_t) :=
  _ ← sm_assert (entry_count single =? 1);
  t ← sm_lift (table single);
  dt ← get_dir t;
  k ← sm_lift (index_to_entry (start_index single) (depth dt) page_size);
  o ← allocate_directory page_size (depth dt + 1) pmm_flags;
  match o with
  | None => mret (NV_ERR_NO_MEMORY, None)
  | Some p =>
      _ ← uvm_mutex_lock;
      r ← alloc_table_locked page_size single t p k;
      _ ← uvm_mutex_unlock;
      mret r
  end.

(** ** Creating and destroying a tree *)
Definition uvm_mmu_page_size_supported (page_size : Z) : option bool :=
  UVM_ASSERT is_power_of_2 page_size;
  Some (negb (Z.land (page_sizes hal) page_size =? 0)).

Definition uvm_mmu_biggest_page_size_up_to (max_page_size : Z) : option Z :=
  let gpu_page_sizes := page_sizes hal in
  let smallest_gpu_page_size := Z.ldiff gpu_page_sizes (gpu_page_sizes - 1) in
  UVM_ASSERT is_power_of_2 max_page_size;
  if max_page_size <? smallest_gpu_page_size then Some 0
  else
    let sizes := Z.land gpu_page_sizes (Z.lor max_page_size (max_page_size - 1)) in
    let page_size := 2 ^ Z.log2 sizes in
    ok ← uvm_mmu_page_size_supported page_size;
    UVM_ASSERT (ok : bool);
    Some page_size.

Definition mmu_biggest_page_size (ap : uvm_aperture_t) : option Z :=
  UVM_ASSERT negb (bool_decide (ap = UVM_APERTURE_DEFAULT));
  if bool_decide (ap = UVM_APERTURE_VID) then uvm_mmu_biggest_page_size_up_to (cfg_max_vidmem_page_size C)
  else Some (2 ^ Z.log2 (page_sizes hal)).

Definition page_tree_ats_init_required (s : page_tree) : bool :=
  match tree_type s with
  | UVM_PAGE_TREE_TYPE_KERNEL => false
  | UVM_PAGE_TREE_TYPE_USER => if cfg_va_space_ats_enabled C then cfg_no_ats_range_required C else false
  end.

Definition set_no_ats_range (i : nat) (range : uvm_page_table_range_t) : PT unit :=
  sm_modify (fun s => s <| no_ats_ranges := <[i := range]> (no_ats_ranges s) |>).

(** [uvm_page_tree_get_ptes] into [no_ats_ranges[i]]. *)
Definition get_no_ats_range (fuel i : nat) (page_size start : Z) : PT NV_STATUS :=
  s ← sm_get;
  old ← sm_lift (no_ats_ranges s !! i);
  r ← uvm_page_tree_get_ptes fuel page_size start page_size UVM_PMM_ALLOC_FLAGS_EVICT old;
  _ ← set_no_ats_range i r.2;
  if negb (r.1 =? NV_OK) then mret r.1
  else _ ← sm_assert (entry_count r.2 =? 1); mret NV_OK.

Definition page_tree_ats_init (fuel : nat) : PT NV_STATUS :=
  s ← sm_get;
  if negb (page_tree_ats_init_required s) then mret NV_OK
  else
    page_size ← sm_lift (if negb (cfg_mem_info_size C =? 0) then mmu_biggest_page_size UVM_APERTURE_VID
                         else mmu_biggest_page_size UVM_APERTURE_SYS);
    unaddressable ← sm_lift (uvm_get_unaddressable_range (cfg_cpu_num_va_bits C));
    status ← get_no_ats_range fuel 0 page_size unaddressable.1;
    if negb (status =? NV_OK) then mret status
    else get_no_ats_range fuel 1 page_size (NvU64 (unaddressable.2 - page_size)).

Definition put_no_ats_range (i : nat) : PT unit :=
  s ← sm_get;
  range ← sm_lift (no_ats_ranges s !! i);
  if negb (entry_count range =? 0) then uvm_page_tree_put_ptes range else mret tt.

Definition page_tree_ats_deinit : PT unit :=
  s ← sm_get;
  if page_tree_ats_init_required s then
    _ ← put_no_ats_range 0;
    _ ← put_no_ats_range 1;
    sm_modify (fun s => s <| no_ats_ranges := [no_range; no_range] |>)
  else mret tt.

Definition map_remap_deinit : PT unit :=
  s ← sm_get;
  _ ← match pde0 s with
      | Some p => _ ← free_directory p; sm_modify (fun s => s <| pde0 := None |>)
      | None => mret tt
      end;
  s ← sm_get;
  if negb (pa_size (ptes_invalid_4k s) =? 0) then
    _ ← phys_mem_deallocate (ptes_invalid_4k s);
    sm_modify (fun s => s <| ptes_invalid_4k := no_alloc |>)
  else mret tt.

Definition allocate_page_table (page_size : Z) : PT (NV_STATUS * uvm_mmu_page_table_alloc_t) :=
  dep ← sm_lift (page_table_depth hal page_size);
  alloc_size ← sm_lift (allocation_size hal dep page_size);
  s ← sm_get;
  phys_mem_allocate alloc_size (location s).

(** The pde0 directory of a GPU with 512M pages. *)
Definition map_remap_pde0 : PT bool :=
  if negb (Z.land (page_sizes hal) UVM_PAGE_SIZE_512M =? 0) then
    dep ← sm_lift (page_table_depth hal UVM_PAGE_SIZE_2M);
    p ← allocate_directory UVM_PAGE_SIZE_2M dep UVM_PMM_ALLOC_FLAGS_EVICT;
    _ ← sm_modify (fun s => s <| pde0 := p |>);
    mret (bool_decide (p <> None))
  else mret true.

Definition map_remap_write : PT NV_STATUS :=
  status ← page_tree_begin_acquire;
  if negb (status =? NV_OK) then _ ← map_remap_deinit; mret status
  else
    s ← sm_get;
    dep ← sm_lift (page_table_depth hal UVM_PAGE_SIZE_4K);
    size ← sm_lift (entry_size hal dep);
    push ← sm_lift (
      batch ← uvm_pte_batch_clear_ptes (uvm_pte_batch_begin empty_push) (pa_addr (ptes_invalid_4k s)) 0 size
                (pa_size (ptes_invalid_4k s) / size);
      uvm_pte_batch_end batch);
    push ←
      (if negb (Z.land (page_sizes hal) UVM_PAGE_SIZE_512M =? 0) then
         index_4k ← sm_lift (entry_offset hal (dep - 1) UVM_PAGE_SIZE_4K);
         p ← sm_lift (pde0 s);
         d ← get_dir p;
         esize ← sm_lift (entry_size hal (depth d));
         let phys_allocs := <[Z.to_nat index_4k := Some (ptes_invalid_4k s)]> [None; None] in
         let push := if is_vid (pa_addr (phys_alloc d)) then uvm_push_set_flag UVM_PUSH_FLAG_NEXT_MEMBAR_GPU push else push in
         o ← pde_fill d 0 (pa_size (phys_alloc d) / esize) phys_allocs (Some push);
         sm_lift o
       else mret push);
    page_tree_end_and_wait push.

Definition map_remap_init : PT NV_STATUS :=
  s ← sm_get;
  _ ← sm_assert (negb (uvm_mmu_use_cpu s));
  r ← allocate_page_table UVM_PAGE_SIZE_4K;
  _ ← sm_modify (fun s => s <| ptes_invalid_4k := r.2 |>);
  if negb (r.1 =? NV_OK) then _ ← map_remap_deinit; mret r.1
  else
    ok ← map_remap_pde0;
    if negb ok then _ ← map_remap_deinit; mret NV_ERR_NO_MEMORY
    else map_remap_write.

Definition page_tree_set_location (loc : uvm_aperture_t) : PT unit :=
  _ ← sm_assert (bool_decide (loc = UVM_APERTURE_VID) || bool_decide (loc = UVM_APERTURE_SYS) || bool_decide (loc = UVM_APERTURE_DEFAULT));
  _ ← sm_assert (negb (cfg_vidmem_only C) || bool_decide (loc = UVM_APERTURE_VID));
  _ ← sm_assert (negb (cfg_mem_info_size C =? 0) || bool_decide (loc = UVM_APERTURE_SYS));
  sm_modify (fun s =>
    if bool_decide (loc = UVM_APERTURE_DEFAULT) then
      if bool_decide (cfg_page_table_aperture C = UVM_APERTURE_DEFAULT)
      then s <| location := UVM_APERTURE_VID |> <| location_sys_fallback := true |>
      else s <| location := cfg_page_table_aperture C |> <| location_sys_fallback := false |>
    else s <| location := loc |> <| location_sys_fallback := false |>).

(** [memset] and the fields that are set before the location. *)
Definition page_tree_zero (type : uvm_page_tree_type_t) (s : page_tree) : page_tree :=
  mk_tree false None type (UVM_APERTURE_PEER 0) false (phys_address (UVM_APERTURE_PEER 0) 0) no_alloc None [no_range; no_range]
    (dirs s) (log s) (global_status s) (clock s).

Definition uvm_page_tree_init (fuel : nat) (type : uvm_page_tree_type_t) (big_page_size : Z) (loc : uvm_aperture_t) : PT NV_STATUS :=
  _ ← sm_modify (page_tree_zero type);
  leaf_depth ← sm_lift (page_table_depth hal UVM_PAGE_SIZE_AGNOSTIC);
  _ ← sm_assert (leaf_depth <=? MAX_OPERATION_DEPTH);
  ok ← sm_lift (uvm_mmu_page_size_supported big_page_size);
  _ ← sm_assert ok;
  _ ← page_tree_set_location loc;
  r ← allocate_directory UVM_PAGE_SIZE_AGNOSTIC 0 UVM_PMM_ALLOC_FLAGS_EVICT;
  _ ← sm_modify (fun s => s <| root := r |>);
  match r with
  | None => mret NV_ERR_NO_MEMORY
  | Some p =>
      status ← (if cfg_map_remap_larger_page_promotion C then map_remap_init else mret NV_OK);
      if negb (status =? NV_OK) then mret status
      else
        s ← sm_get;
        if uvm_mmu_use_cpu s then _ ← phys_mem_init UVM_PAGE_SIZE_AGNOSTIC p None; mret NV_OK
        else
          status ← page_tree_begin_acquire;
          if negb (status =? NV_OK) then mret status
          else
            o ← phys_mem_init UVM_PAGE_SIZE_AGNOSTIC p (Some empty_push);
            push ← sm_lift o;
            status ← page_tree_end_and_wait push;
            if negb (status =? NV_OK) then mret status
            else page_tree_ats_init fuel
  end.

Definition deinit_invalidate : PT unit :=
  s ← sm_get;
  if cfg_ats_enabled C && bool_decide (tree_type s = UVM_PAGE_TREE_TYPE_USER) then
    status ← page_tree_begin_acquire;
    if status =? NV_OK then push ← tlb_invalidate_all 0 UVM_MEMBAR_NONE empty_push; page_tree_end push
    else s ← sm_get; sm_assert (status =? global_status s)
  else mret tt.

Definition uvm_page_tree_deinit : PT unit :=
  _ ← page_tree_ats_deinit;
  s ← sm_get;
  p ← sm_lift (root s);
  d ← get_dir p;
  _ ← sm_assert (ref_count d =? 0);
  _ ← uvm_mutex_lock;
  _ ← deinit_invalidate;
  _ ← uvm_tracker_wait;
  _ ← phys_mem_deallocate (phys_alloc d);
  _ ← (if cfg_map_remap_larger_page_promotion C then map_remap_deinit else mret tt);
  _ ← uvm_mutex_unlock;
  uvm_kvfree p.
End page_tree.
