(* ===== verification/PageTreeInv.v ===== *)
(** * The invariant of page trees

    [tree_struct] is the invariant of the directories of a page tree ([PageTree]):
    their shape, the links between parents and children, and the reference counts.
    It is stated for a set of directories of which some ([P]) are private to threads
    (allocated but not yet linked, or unlinked and about to be freed), some ([X]) may
    be without references for the moment, and for the ranges [R] of entries that
    threads hold.  The lemmas of this file say what each elementary change of the
    directories does to it. *)

From S2P Require Import Prelude PageMask StateMonad Push PmmChunks MmuTypes MmuHopper MmuPush PteBatch TlbBatch PageTree.

Notation dir_store := (gmap dir_ptr uvm_page_directory_t).

Definition region_disjoint (a b : uvm_mmu_page_table_alloc_t) : Prop :=
  aperture (pa_addr a) <> aperture (pa_addr b) \/
  address (pa_addr a) + pa_size a <= address (pa_addr b) \/ address (pa_addr b) + pa_size b <= address (pa_addr a).

Lemma region_disjoint_sym a b : region_disjoint a b -> region_disjoint b a.
Proof. unfold region_disjoint. intros [H|[H|H]]; auto. Qed.

(** The entries of a directory that are in use. *)
Definition live_entries (d : uvm_page_directory_t) : Z := Z.of_nat (length (filter is_Some (entries d))).

(** The entries that ranges hold in the table [p]. *)
Definition held (p : dir_ptr) (r : uvm_page_table_range_t) : Z := if bool_decide (table r = Some p) then entry_count r else 0.
Definition range_refs (R : list uvm_page_table_range_t) (p : dir_ptr) : Z := foldr (fun r n => held p r + n) 0 R.

Section tree_inv.
Context (h : uvm_mmu_mode_hal_t) (F : hw_format).

(** The entries of the host's array for a directory. *)
Definition entry_total (dep : Z) : Z := if dep =? hmax h then 0 else hper h dep * 2 ^ hbits h dep UVM_PAGE_SIZE_AGNOSTIC.

(** A directory that was allocated for the page size [ps]. *)
Record shape (d : uvm_page_directory_t) (ps : Z) : Prop := {
  sh_ps : supported h ps = true \/ (ps = UVM_PAGE_SIZE_AGNOSTIC /\ depth d = 0);
  sh_depth : 0 <= depth d <= hdepth h ps;
  sh_size : pa_size (phys_alloc d) = halloc h (depth d) ps;
  sh_entries : Z.of_nat (length (entries d)) = entry_total (depth d);
  sh_point : pointable F (phys_alloc d)
}.

(** Entry [k] of [dq], the directory [q], leads to [dp]. *)
Record child_link (q : dir_ptr) (dq : uvm_page_directory_t) (k : nat) (dp : uvm_page_directory_t) : Prop := {
  cl_parent : host_parent dp = Some q;
  cl_depth : depth dp = depth dq + 1;
  cl_index : index_in_parent dp = Z.of_nat k / hper h (depth dq);
  cl_half : exists ps, half_of h (depth dq) (Z.of_nat k mod hper h (depth dq)) ps /\ shape dp ps
}.

(** A range of entries of [d] for pages of the range's size. *)
Record range_in (d : uvm_page_directory_t) (r : uvm_page_table_range_t) : Prop := {
  ri_supported : supported h (range_page_size r) = true;
  ri_depth : depth d = hdepth h (range_page_size r);
  ri_leaf : depth d = hmax h -> shape d (range_page_size r);
  ri_bounds : 0 <= start_index r /\ 0 < entry_count r /\
    start_index r + entry_count r <= 2 ^ hbits h (depth d) (range_page_size r)
}.

Record tree_struct (ds : dir_store) (rt : dir_ptr) (P X : list dir_ptr) (R : list uvm_page_table_range_t) : Prop := {
  ts_root : exists d, ds !! rt = Some d /\ depth d = 0 /\ host_parent d = None /\ rt ∉ P;
  ts_shape p d : ds !! p = Some d -> exists ps, shape d ps;
  ts_child q dq k p : ds !! q = Some dq -> entries dq !! k = Some (Some p) ->
    p ∉ P /\ p <> rt /\ exists dp, ds !! p = Some dp /\ child_link q dq k dp;
  ts_parent p dp : ds !! p = Some dp -> p ∉ P -> p <> rt ->
    exists q dq k, ds !! q = Some dq /\ q ∉ P /\ entries dq !! k = Some (Some p);
  ts_unique q dq k q' dq' k' p : ds !! q = Some dq -> ds !! q' = Some dq' ->
    entries dq !! k = Some (Some p) -> entries dq' !! k' = Some (Some p) -> q = q' /\ k = k';
  ts_private_nodup : NoDup P;
  ts_private p : p ∈ P -> exists d, ds !! p = Some d /\ 0 < depth d /\ ref_count d = 0;
  ts_refs p d : ds !! p = Some d -> ref_count d = live_entries d + range_refs R p /\ ref_count d < 2 ^ 32;
  ts_range r : r ∈ R -> exists p d, table r = Some p /\ p ∉ P /\ ds !! p = Some d /\ range_in d r;
  ts_used p d : ds !! p = Some d -> p ∉ P -> p <> rt -> p ∉ X -> 0 < ref_count d;
  ts_disjoint p q dp dq : ds !! p = Some dp -> ds !! q = Some dq -> p <> q -> region_disjoint (phys_alloc dp) (phys_alloc dq)
}.

Lemma live_entries_nonneg d : 0 <= live_entries d.
Proof. unfold live_entries. lia. Qed.

Context `{Hhal : !hal_ok h F}.

(** ** Shapes *)
Lemma depth_bound d ps : shape d ps -> 0 <= depth d <= hmax h.
Proof.
  intros [Hps Hd _ _ _]. destruct Hps as [Hs|[-> _]]; [|done]. destruct (ok_depth (F:=F) ps Hs). lia.
Qed.

Lemma shape_bits d ps : shape d ps -> index_bits h (depth d) ps = Some (hbits h (depth d) ps) /\ 0 <= hbits h (depth d) ps <= 16.
Proof.
  intros [[Hs|[-> H0]] Hd _ _ _]; [by apply (ok_bits (F:=F))|]. rewrite H0.
  destruct (ok_root (F:=F)) as (_ & -> & _ & _ & ? & _). done.
Qed.

(** Above the leaves the page size does not matter. *)
Lemma shape_bits_any d ps : shape d ps -> depth d < hmax h -> hbits h (depth d) UVM_PAGE_SIZE_AGNOSTIC = hbits h (depth d) ps /\
  index_bits h (depth d) UVM_PAGE_SIZE_AGNOSTIC = Some (hbits h (depth d) ps).
Proof.
  intros [[Hs|[-> H0]] Hd _ _ _] Hlt.
  - pose proof (ok_bits_any (F:=F) ps (depth d) Hs Hd Hlt) as E. unfold hbits at 1. by rewrite E.
  - rewrite H0. destruct (ok_root (F:=F)) as (_ & -> & _). done.
Qed.

Lemma shape_bits_ps d ps ps' : shape d ps -> depth d < hmax h -> supported h ps' = true -> depth d <= hdepth h ps' ->
  hbits h (depth d) ps' = hbits h (depth d) ps.
Proof.
  intros Hd Hlt Hs Hle. destruct (shape_bits_any d ps Hd Hlt) as [_ E]. pose proof (sh_depth _ _ Hd).
  pose proof (ok_bits_any (F:=F) ps' (depth d) Hs ltac:(lia) Hlt). congruence.
Qed.

Lemma shape_alloc d ps : shape d ps -> hsize h (depth d) * 2 ^ hbits h (depth d) ps <= pa_size (phys_alloc d) /\
  pa_size (phys_alloc d) mod 256 = 0.
Proof.
  intros [[Hs|[-> H0]] Hd -> _ _].
  - by destruct (ok_alloc (F:=F) ps (depth d) Hs Hd) as (_ & ? & ?).
  - rewrite H0. by destruct (ok_root (F:=F)) as (_ & _ & ? & ? & _).
Qed.

Lemma shape_wide d ps : shape d ps -> depth d < hmax h -> 9 < hbits h (depth d) ps -> hsize h (depth d) = 8 /\
  (supported h ps = true -> depth d < hdepth h ps).
Proof.
  intros [[Hs|[-> H0]] Hd _ _ _] Hlt Hw; [by destruct (ok_wide (F:=F) ps (depth d) Hs Hd Hlt Hw)|].
  rewrite H0 in *. destruct (ok_root (F:=F)) as (_ & _ & _ & _ & _ & H8). split; [auto|].
  unfold supported. done.
Qed.

Lemma shape_sizes d ps : shape d ps -> entry_size h (depth d) = Some (hsize h (depth d)) /\
  (hsize h (depth d) = 8 \/ hsize h (depth d) = 16) /\ entries_per_index h (depth d) = Some (hper h (depth d)) /\
  1 <= hper h (depth d) <= 2.
Proof.
  intros Hd. pose proof (depth_bound _ _ Hd) as Hb. destruct (ok_size (F:=F) (depth d) Hb), (ok_per (F:=F) (depth d) Hb). done.
Qed.

(** A parent is above the leaves. *)
Lemma child_depth q dq k dp : child_link q dq k dp -> 0 <= depth dq -> depth dq < hmax h.
Proof. intros [_ Hd _ (ps & _ & Hs)] H0. pose proof (depth_bound _ _ Hs). lia. Qed.

(** ** Counting *)
Lemma range_refs_nonneg R p : Forall (fun r => 0 < entry_count r) R -> 0 <= range_refs R p.
Proof. induction 1 as [|r R Hr _ IH]; [done|]. unfold range_refs in *. simpl. unfold held at 1. case_bool_decide; lia. Qed.

Lemma range_refs_cons r R p : range_refs (r :: R) p = held p r + range_refs R p.
Proof. done. Qed.

Lemma range_refs_perm R R' p : R ≡ₚ R' -> range_refs R p = range_refs R' p.
Proof. induction 1; rewrite ?range_refs_cons; lia. Qed.

Lemma range_refs_notin R p : Forall (fun r => table r <> Some p) R -> range_refs R p = 0.
Proof.
  induction 1 as [|r R Hr _ IH]; [done|]. rewrite range_refs_cons, IH. unfold held. by rewrite bool_decide_eq_false_2.
Qed.

Lemma live_entries_insert (l : list (option dir_ptr)) (k : nat) (o o' : option dir_ptr) : l !! k = Some o ->
  Z.of_nat (length (filter is_Some (<[k := o']> l))) =
  Z.of_nat (length (filter is_Some l)) + (if o' then 1 else 0) - (if o then 1 else 0).
Proof.
  intros Hk. rewrite <- (take_drop_middle l k o Hk) at 2. rewrite insert_take_drop by (by eapply lookup_lt_Some).
  rewrite !filter_app, !filter_cons, !length_app. destruct o, o'; simpl; repeat case_decide; simpl; rewrite ?is_Some_alt in *; try done; lia.
Qed.

Lemma live_entries_pos d k p : entries d !! k = Some (Some p) -> 0 < live_entries d.
Proof.
  intros Hk. unfold live_entries. pose proof (list_elem_of_lookup_2 _ _ _ Hk) as Hin.
  assert (Some p ∈ filter is_Some (entries d)) as Hf by (apply list_elem_of_filter; eauto).
  destruct (filter is_Some (entries d)); [by apply elem_of_nil in Hf|simpl; lia].
Qed.

Lemma live_entries_zero d : live_entries d = 0 -> forall k o, entries d !! k = Some o -> o = None.
Proof. intros H0 k [p|] Hk; [|done]. pose proof (live_entries_pos d k p Hk). lia. Qed.

(** ** Elementary changes *)
Section changes.
Context (ds : dir_store) (rt : dir_ptr) (P X : list dir_ptr) (R : list uvm_page_table_range_t).
Hypothesis Hts : tree_struct ds rt P X R.

Lemma struct_ranges_pos : Forall (fun r => 0 < entry_count r) R.
Proof. apply Forall_forall. intros r Hr. destruct (ts_range _ _ _ _ _ Hts r Hr) as (p & d & _ & _ & _ & [_ _ _ ?]). lia. Qed.

Lemma struct_refs_bound p d : ds !! p = Some d -> 0 <= ref_count d /\ 0 <= range_refs R p.
Proof.
  intros Hp. destruct (ts_refs _ _ _ _ _ Hts p d Hp) as [-> _]. pose proof (range_refs_nonneg R p struct_ranges_pos).
  pose proof (live_entries_nonneg d). lia.
Qed.

Lemma struct_private_refs p : p ∈ P -> range_refs R p = 0.
Proof.
  intros Hp. apply range_refs_notin, Forall_forall. intros r Hr Ht.
  destruct (ts_range _ _ _ _ _ Hts r Hr) as (p' & d & Ht' & Hn & _). congruence.
Qed.

Lemma struct_private_empty p d : p ∈ P -> ds !! p = Some d -> live_entries d = 0.
Proof.
  intros Hp Hd. destruct (ts_private _ _ _ _ _ Hts p Hp) as (d' & Hd' & _ & H0). simplify_eq.
  destruct (ts_refs _ _ _ _ _ Hts p d Hd) as [E _]. rewrite struct_private_refs in E by done. lia.
Qed.

(** A directory without references has no children and no ranges. *)
Lemma struct_unreferenced p d : ds !! p = Some d -> ref_count d = 0 -> live_entries d = 0 /\ range_refs R p = 0.
Proof.
  intros Hd H0. destruct (ts_refs _ _ _ _ _ Hts p d Hd) as [E _]. destruct (struct_refs_bound p d Hd).
  pose proof (live_entries_nonneg d). lia.
Qed.

Lemma struct_weaken P' X' R' : P ≡ₚ P' -> (forall x, x ∈ X -> x ∈ X') -> R ≡ₚ R' -> tree_struct ds rt P' X' R'.
Proof.
  intros HP HX HR. destruct Hts. constructor; try done.
  - destruct ts_root0 as (d & ? & ? & ? & Hn). exists d. by rewrite <- HP.
  - intros q dq k p Hq Hk. rewrite <- HP. eauto.
  - intros p dp Hp Hn Hr. rewrite <- HP in Hn. destruct (ts_parent0 p dp Hp Hn Hr) as (q & dq & k & ? & ? & ?).
    exists q, dq, k. by rewrite <- HP.
  - by rewrite <- HP.
  - intros p Hp. rewrite <- HP in Hp. auto.
  - intros p d Hd. rewrite <- (range_refs_perm R R' p HR). auto.
  - intros r Hr. rewrite <- HR in Hr. destruct (ts_range0 r Hr) as (p & d & ? & ? & ? & ?). exists p, d. by rewrite <- HP.
  - intros p d Hd Hn Hr Hx. rewrite <- HP in Hn. apply (ts_used0 p d Hd Hn Hr). auto.
Qed.

(** Only the reference count of [p] changes. *)
Lemma struct_set_refs p d n X' R' : ds !! p = Some d -> p ∉ P ->
  (forall q, range_refs R' q = range_refs R q + (if bool_decide (q = p) then n else 0)) ->
  (forall r, r ∈ R' -> r ∈ R \/ (table r = Some p /\ range_in d r)) ->
  ref_count d + n < 2 ^ 32 -> (p ∉ X' -> p <> rt -> 0 < ref_count d + n) -> (forall x, x ∈ X -> x = p \/ x ∈ X') ->
  tree_struct (<[p := d <| ref_count := ref_count d + n |>]> ds) rt P X' R'.
Proof.
  intros Hp Hpriv Hrefs HR Hlt Hpos HX. destruct Hts.
  assert (Hlook : forall q dq', <[p := d <| ref_count := ref_count d + n |>]> ds !! q = Some dq' ->
    exists dq, ds !! q = Some dq /\ (dq' = dq \/ (q = p /\ dq = d /\ dq' = d <| ref_count := ref_count d + n |>))).
  { intros q dq'. rewrite lookup_insert_Some. intros [[<- <-]|[? ?]]; [exists d; auto|eauto]. }
  assert (Hback : forall q dq, ds !! q = Some dq -> exists dq', <[p := d <| ref_count := ref_count d + n |>]> ds !! q = Some dq' /\
    (dq' = dq \/ (q = p /\ dq = d /\ dq' = d <| ref_count := ref_count d + n |>))).
  { intros q dq Hq. destruct (decide (p = q)) as [->|Hne]; [|rewrite lookup_insert_ne by done; eauto].
    rewrite lookup_insert_eq. eexists. split; [done|]. right. by simplify_eq. }
  constructor; try done.
  - destruct ts_root0 as (dr & Hr & ? & ? & ?). destruct (Hback rt dr Hr) as (dr' & ? & [->|(? & -> & ->)]); eauto.
  - intros q dq' Hq. destruct (Hlook q dq' Hq) as (dq & Hq0 & [->|(-> & -> & ->)]); [eauto|].
    destruct (ts_shape0 p d Hq0) as (ps & []). exists ps. by constructor.
  - intros q dq' k c Hq Hk. destruct (Hlook q dq' Hq) as (dq & Hq0 & Heq).
    assert (entries dq !! k = Some (Some c)) as Hk0 by (destruct Heq as [->|(-> & -> & ->)]; done).
    destruct (ts_child0 q dq k c Hq0 Hk0) as (? & ? & dc & Hc & Hl). split; [done|]. split; [done|].
    destruct (Hback c dc Hc) as (dc' & Hc' & Hceq). exists dc'. split; [done|].
    destruct Hl as [? ? ? (ps & ? & [])]. destruct Heq as [->|(-> & -> & ->)]; destruct Hceq as [->|(-> & -> & ->)];
      constructor; try done; exists ps; (split; [done|]); by constructor.
  - intros c dc' Hc Hn Hr. destruct (Hlook c dc' Hc) as (dc & Hc0 & _).
    destruct (ts_parent0 c dc Hc0 Hn Hr) as (q & dq & k & Hq & ? & ?). destruct (Hback q dq Hq) as (dq' & Hq' & Heq).
    exists q, dq', k. split; [done|]. split; [done|]. destruct Heq as [->|(-> & -> & ->)]; done.
  - intros a da' k b db' k' c Ha Hb Hk Hk'. destruct (Hlook a da' Ha) as (da & Ha0 & Hae), (Hlook b db' Hb) as (db & Hb0 & Hbe).
    apply (ts_unique0 a da k b db k' c); try done; [destruct Hae as [->|(-> & -> & ->)]|destruct Hbe as [->|(-> & -> & ->)]]; done.
  - intros q Hq. destruct (ts_private0 q Hq) as (dq & Hq0 & ? & ?). exists dq. split; [|done]. rewrite lookup_insert_ne; [done|].
    intros ->. done.
  - intros q dq' Hq. rewrite Hrefs. rewrite lookup_insert_Some in Hq. destruct Hq as [[<- <-]|[Hne Hq]].
    + rewrite bool_decide_eq_true_2 by done. destruct (ts_refs0 p d Hp). simpl. unfold live_entries in *. simpl. lia.
    + rewrite bool_decide_eq_false_2 by done. rewrite Z.add_0_r. auto.
  - intros r Hr. destruct (HR r Hr) as [Hin|[Ht Hri]].
    + destruct (ts_range0 r Hin) as (q & dq & ? & ? & Hq & Hri). destruct (Hback q dq Hq) as (dq' & ? & Heq).
      exists q, dq'. split_and!; try done. destruct Heq as [->|(-> & -> & ->)]; [done|]. destruct Hri as [? ? Hl ?].
      constructor; try done. intros Hd. destruct (Hl Hd). by constructor.
    + exists p, (d <| ref_count := ref_count d + n |>). rewrite lookup_insert_eq. split_and!; try done.
      destruct Hri as [? ? Hl ?]. constructor; try done. intros Hd. destruct (Hl Hd). by constructor.
  - intros q dq' Hq Hn Hr Hx. rewrite lookup_insert_Some in Hq. destruct Hq as [[<- <-]|[Hne Hq]]; [by apply Hpos|].
    apply (ts_used0 q dq' Hq Hn Hr). intros Hin. destruct (HX q Hin); [by subst|done].
  - intros a b da' db' Ha Hb Hne. destruct (Hlook a da' Ha) as (da & Ha0 & Hae), (Hlook b db' Hb) as (db & Hb0 & Hbe).
    pose proof (ts_disjoint0 a b da db Ha0 Hb0 Hne). destruct Hae as [->|(-> & -> & ->)], Hbe as [->|(-> & -> & ->)]; done.
Qed.

(** A directory that is in use need not be excepted. *)
Lemma struct_used x X' : (forall y, y ∈ X -> y = x \/ y ∈ X') -> (forall d, ds !! x = Some d -> 0 < ref_count d) -> tree_struct ds rt P X' R.
Proof.
  intros HX Hx. destruct Hts. constructor; try done. intros p d Hd Hn Hr Hp. destruct (decide (p = x)) as [->|Hne]; [auto|].
  apply (ts_used0 p d Hd Hn Hr). intros Hin. destruct (HX p Hin); done.
Qed.

(** The place that a private directory was last linked to does not matter. *)
Lemma struct_private_host x dx hp i : x ∈ P -> ds !! x = Some dx ->
  tree_struct (<[x := dx <| host_parent := hp |> <| index_in_parent := i |>]> ds) rt P X R.
Proof.
  intros Hx Hdx. set (dx' := dx <| host_parent := hp |> <| index_in_parent := i |>).
  assert (Hlook : forall q dq', <[x := dx']> ds !! q = Some dq' -> exists dq, ds !! q = Some dq /\ entries dq' = entries dq /\
    ref_count dq' = ref_count dq /\ depth dq' = depth dq /\ phys_alloc dq' = phys_alloc dq /\ (forall ps, shape dq ps -> shape dq' ps) /\
    (q <> x -> dq' = dq)).
  { intros q dq'. rewrite lookup_insert_Some. intros [[<- <-]|[? ?]]; [|eauto 10]. exists dx. split_and!; try done. intros ps []. by constructor. }
  assert (Hback : forall q dq, ds !! q = Some dq -> exists dq', <[x := dx']> ds !! q = Some dq').
  { intros q dq Hq. destruct (decide (x = q)) as [->|Hne]; [rewrite lookup_insert_eq; eauto|rewrite lookup_insert_ne by done; eauto]. }
  destruct Hts. constructor; try done.
  - destruct ts_root0 as (d & ? & ? & ? & Hn). exists d. rewrite lookup_insert_ne; [done|]. by intros ->.
  - intros q dq' Hq. destruct (Hlook q dq' Hq) as (dq & Hq0 & _ & _ & _ & _ & Hs & _). destruct (ts_shape0 q dq Hq0) as [ps ?]. eauto.
  - intros q dq' k c Hq Hk. destruct (Hlook q dq' Hq) as (dq & Hq0 & He & _ & Hd & _). rewrite He in Hk.
    destruct (ts_child0 q dq k c Hq0 Hk) as (Hn & ? & dc & Hc & []). split; [done|]. split; [done|]. exists dc.
    split; [rewrite lookup_insert_ne; [done|]; by intros ->|]. by constructor; rewrite ?Hd.
  - intros c dc' Hc Hn Hr. destruct (Hlook c dc' Hc) as (dc & Hc0 & _). destruct (ts_parent0 c dc Hc0 Hn Hr) as (q & dq & k & Hq & Hqn & ?).
    destruct (Hback q dq Hq) as [dq' Hq']. destruct (Hlook q dq' Hq') as (? & ? & He & _). simplify_eq. exists q, dq', k. by rewrite He.
  - intros a da' k b db' k' c Ha Hb Hk Hk'. destruct (Hlook a da' Ha) as (da & Ha0 & Hae & _), (Hlook b db' Hb) as (db & Hb0 & Hbe & _).
    rewrite Hae in Hk. rewrite Hbe in Hk'. eauto.
  - intros q Hq. destruct (ts_private0 q Hq) as (dq & Hq0 & ? & ?). destruct (Hback q dq Hq0) as [dq' Hq'].
    destruct (Hlook q dq' Hq') as (? & ? & _ & Hr & Hd & _). simplify_eq. exists dq'. by rewrite Hr, Hd.
  - intros q dq' Hq. destruct (Hlook q dq' Hq) as (dq & Hq0 & He & Hr & _). unfold live_entries. rewrite He, Hr. by apply ts_refs0.
  - intros r Hr. destruct (ts_range0 r Hr) as (q & dq & ? & Hn & Hq & ?). exists q, dq. rewrite lookup_insert_ne; [done|]. by intros ->.
  - intros q dq' Hq. destruct (Hlook q dq' Hq) as (dq & Hq0 & _ & Hr & _). rewrite Hr. by apply ts_used0.
  - intros a b da' db' Ha Hb Hne. destruct (Hlook a da' Ha) as (da & Ha0 & _ & _ & _ & -> & _), (Hlook b db' Hb) as (db & Hb0 & _ & _ & _ & -> & _). eauto.
Qed.

(** A private directory is freed. *)
Lemma struct_delete p P' : P ≡ₚ p :: P' -> tree_struct (delete p ds) rt P' X R.
Proof.
  intros HP. pose proof (ts_private_nodup _ _ _ _ _ Hts) as Hnd. rewrite HP in Hnd. apply NoDup_cons in Hnd as [Hni Hnd].
  assert (Hin : forall q, q ∈ P <-> q = p \/ q ∈ P') by (intros q; by rewrite HP, elem_of_cons). destruct Hts.
  constructor; try done.
  - destruct ts_root0 as (d & ? & ? & ? & Hn). exists d. rewrite Hin in Hn. split_and!; try done; [|tauto].
    rewrite lookup_delete_ne; [done|]. intros ->. tauto.
  - intros q d [? ?]%lookup_delete_Some. eauto.
  - intros q dq k c [? Hq]%lookup_delete_Some Hk. destruct (ts_child0 q dq k c Hq Hk) as (Hn & ? & dc & ? & ?).
    rewrite Hin in Hn. split; [tauto|]. split; [done|]. exists dc. split; [|done].
    rewrite lookup_delete_ne; [done|]. intros ->. tauto.
  - intros c dc [? Hc]%lookup_delete_Some Hn Hr. destruct (ts_parent0 c dc Hc) as (q & dq & k & ? & Hq & ?); [|done|].
    { rewrite Hin. intros [?|?]; [by subst|done]. }
    rewrite Hin in Hq. exists q, dq, k. split_and!; try done; [|tauto]. rewrite lookup_delete_ne; [done|]. intros ->. tauto.
  - intros a da k b db k' c [? ?]%lookup_delete_Some [? ?]%lookup_delete_Some. eauto.
  - intros q Hq. destruct (ts_private0 q) as (d & ? & ? & ?); [rewrite Hin; tauto|]. exists d.
    rewrite lookup_delete_ne; [done|]. intros ->. done.
  - intros q d [? ?]%lookup_delete_Some. auto.
  - intros r Hr. destruct (ts_range0 r Hr) as (q & d & ? & Hn & ? & ?). rewrite Hin in Hn. exists q, d. split_and!; try done; [tauto|].
    rewrite lookup_delete_ne; [done|]. intros ->. tauto.
  - intros q d [? Hq]%lookup_delete_Some Hn Hr Hx. apply (ts_used0 q d Hq); [|done..].
    rewrite Hin. intros [?|?]; [by subst|done].
  - intros a b da db [? ?]%lookup_delete_Some [? ?]%lookup_delete_Some. eauto.
Qed.

(** A new private directory. *)
Lemma struct_new p d ps : ds !! p = None -> shape d ps -> 0 < depth d -> ref_count d = 0 -> live_entries d = 0 ->
  (forall q dq, ds !! q = Some dq -> region_disjoint (phys_alloc d) (phys_alloc dq)) ->
  tree_struct (<[p := d]> ds) rt (p :: P) X R.
Proof.
  intros Hnone Hsh Hdep Href Hlive Hdisj.
  assert (Hne : forall q, is_Some (ds !! q) -> q <> p) by (intros q [? ?] ->; simplify_eq).
  assert (HR0 : range_refs R p = 0).
  { apply range_refs_notin, Forall_forall. intros r Hr Ht. destruct (ts_range _ _ _ _ _ Hts r Hr) as (p' & d' & Ht' & _ & Hd' & _).
    rewrite Ht' in Ht. simplify_eq. }
  destruct Hts. constructor.
  - destruct ts_root0 as (dr & Hr & ? & ? & Hn). exists dr. pose proof (Hne rt ltac:(eauto)).
    rewrite lookup_insert_ne by done. split_and!; try done. by rewrite not_elem_of_cons.
  - intros q dq [[<- <-]|[? ?]]%lookup_insert_Some; eauto.
  - intros q dq k c [[<- <-]|[? Hq]]%lookup_insert_Some Hk.
    { by pose proof (live_entries_zero d Hlive k _ Hk). }
    destruct (ts_child0 q dq k c Hq Hk) as (Hn & ? & dc & Hc & ?). pose proof (Hne c ltac:(eauto)).
    split; [by rewrite not_elem_of_cons|]. split; [done|]. exists dc. by rewrite lookup_insert_ne.
  - intros c dc [[<- <-]|[? Hc]]%lookup_insert_Some Hn Hr; rewrite not_elem_of_cons in Hn; [tauto|].
    destruct (ts_parent0 c dc Hc) as (q & dq & k & Hq & Hqn & ?); [tauto|done|]. pose proof (Hne q ltac:(eauto)).
    exists q, dq, k. rewrite lookup_insert_ne by done. split_and!; try done. by rewrite not_elem_of_cons.
  - intros a da k b db k' c [[<- <-]|[? Ha]]%lookup_insert_Some [[<- <-]|[? Hb]]%lookup_insert_Some Hk Hk';
      try by (pose proof (live_entries_zero d Hlive _ _ Hk); done). all: try by (pose proof (live_entries_zero d Hlive _ _ Hk'); done).
    eauto.
  - apply NoDup_cons. split; [|done]. intros Hin. destruct (ts_private0 p Hin) as (? & ? & _). simplify_eq.
  - intros q Hq. apply elem_of_cons in Hq as [->|Hq].
    + exists d. by rewrite lookup_insert_eq.
    + destruct (ts_private0 q Hq) as (dq & ? & ? & ?). exists dq. pose proof (Hne q ltac:(eauto)). by rewrite lookup_insert_ne.
  - intros q dq [[<- <-]|[? Hq]]%lookup_insert_Some; [rewrite HR0; lia|auto].
  - intros r Hr. destruct (ts_range0 r Hr) as (q & dq & ? & Hn & Hq & ?). pose proof (Hne q ltac:(eauto)).
    exists q, dq. rewrite lookup_insert_ne by done. split_and!; try done. by rewrite not_elem_of_cons.
  - intros q dq [[<- <-]|[? Hq]]%lookup_insert_Some Hn Hr Hx; rewrite not_elem_of_cons in Hn; [tauto|]. apply (ts_used0 q dq Hq); [tauto|done..].
  - intros a b da db [[<- <-]|[? Ha]]%lookup_insert_Some [[<- <-]|[? Hb]]%lookup_insert_Some Hab; [done|eauto| |eauto].
    apply region_disjoint_sym. eauto.
Qed.

(** Two directories that are not [p], if [p] is private or has the other's depth plus one. *)
Lemma struct_depth_ne p q dp dq : ds !! p = Some dp -> ds !! q = Some dq -> depth dp = depth dq + 1 -> p <> q.
Proof. intros Hp Hq Hd ->. simplify_eq. lia. Qed.

(** *** The private directory [p] becomes the child of [q] at entry [k] *)
Section link.
Context (p q : dir_ptr) (dp dq : uvm_page_directory_t) (k : nat) (i ps : Z) (P' : list dir_ptr).
Hypothesis HP : P ≡ₚ p :: P'.
Hypothesis Hp : ds !! p = Some dp.
Hypothesis Hq : ds !! q = Some dq.
Hypothesis HqP : q ∉ P.
Hypothesis Hk : entries dq !! k = Some None.

Definition link_parent : uvm_page_directory_t :=
  dq <| entries := <[k := Some p]> (entries dq) |> <| ref_count := ref_count dq + 1 |>.
Definition link_child : uvm_page_directory_t := dp <| host_parent := Some q |> <| index_in_parent := i |>.
Definition linked : dir_store := <[q := link_parent]> (<[p := link_child]> ds).

Lemma link_in x : x ∈ P <-> x = p \/ x ∈ P'.
Proof. by rewrite HP, elem_of_cons. Qed.

Lemma link_ne : p <> q.
Proof. intros Heq. apply HqP. rewrite link_in. auto. Qed.

Lemma link_empty : live_entries dp = 0.
Proof. apply (struct_private_empty p); [rewrite link_in; auto|done]. Qed.

Lemma link_lookup c dc : linked !! c = Some dc ->
  (c = q /\ dc = link_parent) \/ (c = p /\ dc = link_child) \/ (c <> q /\ c <> p /\ ds !! c = Some dc).
Proof. unfold linked. intros [[<- <-]|[? [[<- <-]|[? ?]]%lookup_insert_Some]]%lookup_insert_Some; auto. Qed.

Lemma link_shape_parent ps' : shape dq ps' -> shape link_parent ps'.
Proof. intros []. constructor; try done. simpl. by rewrite length_insert. Qed.
Lemma link_shape_child ps' : shape dp ps' -> shape link_child ps'.
Proof. intros []. by constructor. Qed.

Lemma link_old c dc : linked !! c = Some dc -> exists d0, ds !! c = Some d0 /\
  depth dc = depth d0 /\ phys_alloc dc = phys_alloc d0 /\ (forall ps, shape d0 ps -> shape dc ps) /\
  (c <> p -> host_parent dc = host_parent d0 /\ index_in_parent dc = index_in_parent d0).
Proof.
  intros [(-> & ->)|[(-> & ->)|(_ & _ & Hc)]]%link_lookup.
  - exists dq. split_and!; try done. apply link_shape_parent.
  - exists dp. split_and!; try done. apply link_shape_child.
  - exists dc. done.
Qed.

Lemma link_new c dc : ds !! c = Some dc -> exists dc', linked !! c = Some dc'.
Proof.
  intros Hc. unfold linked. destruct (decide (c = q)) as [->|]; [rewrite lookup_insert_eq; eauto|].
  destruct (decide (c = p)) as [->|]; [rewrite lookup_insert_ne, lookup_insert_eq by done; eauto|].
  rewrite !lookup_insert_ne by done. eauto.
Qed.

Lemma link_entry c dc k' x : linked !! c = Some dc -> entries dc !! k' = Some (Some x) ->
  (c = q /\ k' = k /\ x = p) \/ (x <> p /\ exists d0, ds !! c = Some d0 /\ entries d0 !! k' = Some (Some x)).
Proof.
  intros Hc Hk'.
  assert (Hno : forall d0, ds !! c = Some d0 -> entries d0 !! k' = Some (Some x) -> x <> p).
  { intros d0 Hd0 He ->. destruct (ts_child _ _ _ _ _ Hts c d0 k' p Hd0 He) as (Hn & _). apply Hn, link_in. auto. }
  destruct (link_lookup c dc Hc) as [(-> & ->)|[(-> & ->)|(_ & _ & Hc0)]].
  - simpl in Hk'. rewrite list_lookup_insert_Some in Hk'. destruct Hk' as [(-> & [= <-] & _)|[Hne Hk']]; [by left|].
    right. split; [by eapply Hno|]. eauto.
  - simpl in Hk'. by pose proof (live_entries_zero dp link_empty k' _ Hk').
  - right. split; [by eapply Hno|]. eauto.
Qed.

Lemma link_keeps_entry c d0 k' x : ds !! c = Some d0 -> entries d0 !! k' = Some (Some x) ->
  exists dc, linked !! c = Some dc /\ entries dc !! k' = Some (Some x).
Proof.
  intros Hc He. destruct (link_new c d0 Hc) as [dc Hdc]. exists dc. split; [done|].
  destruct (link_lookup c dc Hdc) as [(-> & ->)|[(-> & ->)|(_ & _ & Hc0)]]; simplify_eq; try done.
  simpl. rewrite list_lookup_insert_ne; [done|]. intros ->. simplify_eq.
Qed.

Lemma struct_link X' : depth dp = depth dq + 1 -> i = Z.of_nat k / hper h (depth dq) ->
  half_of h (depth dq) (Z.of_nat k mod hper h (depth dq)) ps -> shape dp ps -> ref_count dq + 1 < 2 ^ 32 ->
  p ∈ X' -> (forall x, x ∈ X -> x = q \/ x ∈ X') -> tree_struct linked rt P' X' R.
Proof.
  intros Hdep Hi Hhalf Hsh Hlt HpX HX. destruct (struct_refs_bound q dq Hq) as [Hq0 _]. pose proof link_ne as Hpq.
  pose proof (ts_private_nodup _ _ _ _ _ Hts) as Hnd. rewrite HP in Hnd. apply NoDup_cons in Hnd as [Hni Hnd].
  pose proof link_in as Hin. pose proof (struct_private_refs p ltac:(rewrite Hin; auto)) as HR0. pose proof link_empty as Hemp.
  assert (HQ : linked !! q = Some link_parent) by (unfold linked; by rewrite lookup_insert_eq).
  assert (HPl : linked !! p = Some link_child) by (unfold linked; by rewrite lookup_insert_ne, lookup_insert_eq).
  constructor.
  - destruct (ts_root _ _ _ _ _ Hts) as (dr & Hr & H0 & Hh & Hn). rewrite Hin in Hn. destruct (link_new rt dr Hr) as [dr' Hr'].
    destruct (link_old rt dr' Hr') as (d0 & ? & Hd & _ & _ & Hkeep). simplify_eq. destruct Hkeep as [Hk1 _]; [tauto|].
    exists dr'. split_and!; try done; [congruence|congruence|tauto].
  - intros c dc Hc. destruct (link_old c dc Hc) as (d0 & H0 & _ & _ & Hs & _).
    destruct (ts_shape _ _ _ _ _ Hts c d0 H0) as [ps' ?]. eauto.
  - intros c dc k' x Hc Hk'. destruct (link_entry c dc k' x Hc Hk') as [(-> & -> & ->)|(Hxp & d0 & H0 & He)].
    + split; [done|]. split. { intros ->. destruct (ts_root _ _ _ _ _ Hts) as (? & ? & ? & ? & Hn). apply Hn, Hin. auto. }
      exists link_child. split; [done|]. simplify_eq. constructor; try done. exists ps. split; [done|]. by apply link_shape_child.
    + destruct (ts_child _ _ _ _ _ Hts c d0 k' x H0 He) as (Hn & Hr & dx & Hx & [L1 L2 L3 (ps' & L4 & L5)]).
      rewrite Hin in Hn. split; [tauto|]. split; [done|]. destruct (link_new x dx Hx) as [dx' Hx']. exists dx'. split; [done|].
      destruct (link_old x dx' Hx') as (? & ? & Hd & _ & Hs & Hkeep). simplify_eq. destruct (Hkeep Hxp) as [Kp Ki].
      destruct (link_old c dc Hc) as (? & ? & Hdc & _). simplify_eq.
      constructor; rewrite ?Hd, ?Hdc, ?Kp, ?Ki; try done. exists ps'. auto.
  - intros c dc Hc Hn Hr. destruct (link_old c dc Hc) as (d0 & H0 & _). destruct (decide (c = p)) as [->|Hcp].
    { exists q, link_parent, k. split; [done|]. split; [rewrite Hin in HqP; tauto|]. simpl. apply list_lookup_insert_eq.
      by eapply lookup_lt_Some. }
    destruct (ts_parent _ _ _ _ _ Hts c d0 H0) as (a & da & k' & Ha & HaP & He); [rewrite Hin; tauto|done|].
    destruct (link_keeps_entry a da k' c Ha He) as (da' & Ha' & He'). exists a, da', k'. rewrite Hin in HaP. tauto.
  - intros a da k1 b db k2 c Ha Hb H1 H2.
    destruct (link_entry a da k1 c Ha H1) as [(-> & -> & ->)|(Hc1 & da0 & Ha0 & He1)],
      (link_entry b db k2 _ Hb H2) as [(E1 & E2 & E3)|(Hc2 & db0 & Hb0 & He2)]; try done.
    by eapply (ts_unique _ _ _ _ _ Hts).
  - done.
  - intros x Hx. destruct (ts_private _ _ _ _ _ Hts x) as (dx & Hdx & ? & ?); [rewrite Hin; auto|].
    assert (x <> p) by (intros ->; done). assert (x <> q) by (intros ->; apply HqP; rewrite Hin; auto).
    exists dx. unfold linked. by rewrite !lookup_insert_ne.
  - intros c dc [(-> & ->)|[(-> & ->)|(_ & _ & Hc)]]%link_lookup.
    + destruct (ts_refs _ _ _ _ _ Hts q dq Hq) as [E _]. simpl. unfold live_entries in *. simpl.
      rewrite (live_entries_insert _ _ _ _ Hk). lia.
    + destruct (ts_refs _ _ _ _ _ Hts p dp Hp) as [E ?]. done.
    + by apply (ts_refs _ _ _ _ _ Hts).
  - intros r Hr. destruct (ts_range _ _ _ _ _ Hts r Hr) as (c & dc & Ht & Hn & Hc & [I1 I2 I3 I4]). rewrite Hin in Hn.
    destruct (link_new c dc Hc) as [dc' Hc']. destruct (link_old c dc' Hc') as (? & ? & Hd & _ & Hs & _). simplify_eq.
    exists c, dc'. split_and!; try done; [tauto|]. constructor; rewrite ?Hd; auto.
  - intros c dc Hc Hn Hr Hx. destruct (link_lookup c dc Hc) as [(-> & ->)|[(-> & ->)|(Hcq & Hcp & Hc0)]]; [simpl; lia|done|].
    apply (ts_used _ _ _ _ _ Hts c dc Hc0); [rewrite Hin; tauto|done|]. intros Hin'. destruct (HX c Hin'); done.
  - intros a b da db Ha Hb Hab. destruct (link_old a da Ha) as (da0 & Ha0 & _ & -> & _), (link_old b db Hb) as (db0 & Hb0 & _ & -> & _).
    by apply (ts_disjoint _ _ _ _ _ Hts a b).
Qed.
End link.

(** *** The unreferenced directory [p] is unlinked from its parent [q] *)
Section unlink.
Context (p q : dir_ptr) (dp dq : uvm_page_directory_t) (k : nat).
Hypothesis Hp : ds !! p = Some dp.
Hypothesis Href : ref_count dp = 0.
Hypothesis Hq : ds !! q = Some dq.
Hypothesis Hk : entries dq !! k = Some (Some p).

Definition unlink_parent : uvm_page_directory_t :=
  dq <| entries := <[k := None]> (entries dq) |> <| ref_count := ref_count dq - 1 |>.
Definition unlinked : dir_store := <[q := unlink_parent]> ds.

Lemma unlink_private : p ∉ P /\ p <> rt /\ child_link q dq k dp.
Proof.
  destruct (ts_child _ _ _ _ _ Hts q dq k p Hq Hk) as (Hn & Hr & d & Hd & Hl). simplify_eq. done.
Qed.

Lemma unlink_parent_in : q ∉ P.
Proof.
  destruct unlink_private as (Hn & Hr & _). destruct (ts_parent _ _ _ _ _ Hts p dp Hp Hn Hr) as (a & da & k' & Ha & HaP & He).
  by destruct (ts_unique _ _ _ _ _ Hts q dq k a da k' p) as [-> _].
Qed.

Lemma unlink_ne : p <> q.
Proof. destruct unlink_private as (_ & _ & [_ Hd _ _]). intros ->. simplify_eq. lia. Qed.

Lemma unlink_lookup c dc : unlinked !! c = Some dc -> exists d0, ds !! c = Some d0 /\
  depth dc = depth d0 /\ phys_alloc dc = phys_alloc d0 /\ (forall ps, shape d0 ps -> shape dc ps) /\
  host_parent dc = host_parent d0 /\ index_in_parent dc = index_in_parent d0 /\
  (forall k' x, entries dc !! k' = Some (Some x) -> entries d0 !! k' = Some (Some x) /\ x <> p) /\
  (c <> q -> dc = d0).
Proof.
  unfold unlinked. intros [[<- <-]|[Hne Hc]]%lookup_insert_Some.
  - exists dq. split_and!; try done.
    + intros ps []. constructor; try done. simpl. by rewrite length_insert.
    + intros k' x. simpl. rewrite list_lookup_insert_Some. intros [(_ & ? & _)|[Hkk Hx]]; [done|]. split; [done|].
      intros ->. destruct (ts_unique _ _ _ _ _ Hts q dq k q dq k' p); done.
  - exists dc. split_and!; try done. intros k' x Hx. split; [done|]. intros ->.
    destruct (ts_unique _ _ _ _ _ Hts q dq k c dc k' p); done.
Qed.

Lemma unlink_new c dc : ds !! c = Some dc -> exists dc', unlinked !! c = Some dc'.
Proof.
  intros Hc. unfold unlinked. destruct (decide (c = q)) as [->|]; [rewrite lookup_insert_eq; eauto|].
  rewrite lookup_insert_ne by done. eauto.
Qed.

Lemma unlink_keeps_entry c d0 k' x : ds !! c = Some d0 -> entries d0 !! k' = Some (Some x) -> x <> p ->
  exists dc, unlinked !! c = Some dc /\ entries dc !! k' = Some (Some x).
Proof.
  intros Hc He Hx. unfold unlinked. destruct (decide (c = q)) as [->|Hne].
  - rewrite lookup_insert_eq. eexists. split; [done|]. simplify_eq. simpl. rewrite list_lookup_insert_ne; [done|].
    intros ->. simplify_eq.
  - rewrite lookup_insert_ne by done. eauto.
Qed.

Lemma struct_unlink X' : q ∈ X' -> (forall x, x ∈ X -> x = p \/ x ∈ X') -> tree_struct unlinked rt (p :: P) X' R.
Proof.
  intros HqX HX. destruct unlink_private as (HpP & Hpr & Hlink). pose proof unlink_parent_in as HqP. pose proof unlink_ne as Hpq.
  destruct (struct_unreferenced p dp Hp Href) as [Hlive Hrange0]. pose proof (live_entries_pos dq k p Hk) as Hpos.
  destruct (struct_refs_bound q dq Hq) as [_ Hqr].
  assert (HpU : unlinked !! p = Some dp) by (unfold unlinked; by rewrite lookup_insert_ne).
  assert (Hnop : forall r, r ∈ R -> table r <> Some p).
  { intros r Hr Ht. pose proof struct_ranges_pos as Hps. rewrite Forall_forall in Hps.
    apply elem_of_Permutation in Hr as Hr'. destruct Hr' as [R' HR']. rewrite (range_refs_perm _ _ p HR'), range_refs_cons in Hrange0.
    unfold held in Hrange0. rewrite bool_decide_eq_true_2 in Hrange0 by done. pose proof (Hps r Hr).
    assert (0 <= range_refs R' p); [|lia]. apply range_refs_nonneg, Forall_forall.
    intros y Hy. apply Hps. rewrite HR'. by right. }
  constructor.
  - destruct (ts_root _ _ _ _ _ Hts) as (dr & Hr & H0 & Hh & Hn). destruct (unlink_new rt dr Hr) as [dr' Hr'].
    destruct (unlink_lookup rt dr' Hr') as (d0 & ? & Hd & _ & _ & Hh' & _). simplify_eq. exists dr'. rewrite not_elem_of_cons.
    split_and!; try done; congruence.
  - intros c dc Hc. destruct (unlink_lookup c dc Hc) as (d0 & H0 & _ & _ & Hs & _).
    destruct (ts_shape _ _ _ _ _ Hts c d0 H0) as [ps' ?]. eauto.
  - intros c dc k' x Hc Hk'. destruct (unlink_lookup c dc Hc) as (d0 & H0 & Hd0 & _ & _ & _ & _ & He & _).
    destruct (He k' x Hk') as [He0 Hxp]. destruct (ts_child _ _ _ _ _ Hts c d0 k' x H0 He0) as (Hn & Hr & dx & Hx & [L1 L2 L3 (ps' & L4 & L5)]).
    rewrite not_elem_of_cons. split; [done|]. split; [done|]. destruct (unlink_new x dx Hx) as [dx' Hx']. exists dx'. split; [done|].
    destruct (unlink_lookup x dx' Hx') as (? & ? & Hd & _ & Hs & Kp & Ki & _). simplify_eq.
    constructor; rewrite ?Hd, ?Hd0, ?Kp, ?Ki; try done. exists ps'. auto.
  - intros c dc Hc Hn Hr. rewrite not_elem_of_cons in Hn. destruct Hn as [Hcp HcP].
    destruct (unlink_lookup c dc Hc) as (d0 & H0 & _). destruct (ts_parent _ _ _ _ _ Hts c d0 H0 HcP Hr) as (a & da & k' & Ha & HaP & He).
    destruct (unlink_keeps_entry a da k' c Ha He Hcp) as (da' & Ha' & He'). exists a, da', k'. rewrite not_elem_of_cons. split_and!; try done.
    intros ->. simplify_eq. by pose proof (live_entries_zero _ Hlive k' _ He).
  - intros a da k1 b db k2 c Ha Hb H1 H2. destruct (unlink_lookup a da Ha) as (da0 & Ha0 & _ & _ & _ & _ & _ & E1 & _).
    destruct (unlink_lookup b db Hb) as (db0 & Hb0 & _ & _ & _ & _ & _ & E2 & _).
    destruct (E1 k1 c H1), (E2 k2 c H2). by apply (ts_unique _ _ _ _ _ Hts a da0 k1 b db0 k2 c).
  - apply NoDup_cons. split; [done|]. apply (ts_private_nodup _ _ _ _ _ Hts).
  - intros x Hx. apply elem_of_cons in Hx as [->|Hx].
    + exists dp. split; [done|]. destruct Hlink as [_ Hd _ _]. destruct (ts_shape _ _ _ _ _ Hts q dq Hq) as [ps' Hs].
      pose proof (depth_bound _ _ Hs). split; [lia|done].
    + destruct (ts_private _ _ _ _ _ Hts x Hx) as (dx & Hdx & ? & ?). exists dx. split; [|done]. unfold unlinked.
      rewrite lookup_insert_ne; [done|]. intros ->. done.
  - intros c dc Hc. unfold unlinked in Hc. apply lookup_insert_Some in Hc as [[<- <-]|[Hne Hc]]; [|by apply (ts_refs _ _ _ _ _ Hts)].
    destruct (ts_refs _ _ _ _ _ Hts q dq Hq) as [E ?]. simpl. unfold live_entries in *. simpl.
    rewrite (live_entries_insert _ _ _ _ Hk). lia.
  - intros r Hr. destruct (ts_range _ _ _ _ _ Hts r Hr) as (c & dc & Ht & Hn & Hc & [I1 I2 I3 I4]).
    destruct (unlink_new c dc Hc) as [dc' Hc']. destruct (unlink_lookup c dc' Hc') as (? & ? & Hd & _ & Hs & _). simplify_eq.
    exists c, dc'. rewrite not_elem_of_cons. split_and!; try done; [intros ->; by apply (Hnop r)|]. constructor; rewrite ?Hd; auto.
  - intros c dc Hc Hn Hr Hx. rewrite not_elem_of_cons in Hn. destruct Hn as [Hcp HcP].
    destruct (unlink_lookup c dc Hc) as (d0 & H0 & _ & _ & _ & _ & _ & _ & Heq).
    destruct (decide (c = q)) as [->|Hcq]; [done|]. rewrite (Heq Hcq). apply (ts_used _ _ _ _ _ Hts c d0 H0 HcP Hr).
    intros Hin. destruct (HX c Hin); done.
  - intros a b da db Ha Hb Hab. destruct (unlink_lookup a da Ha) as (da0 & Ha0 & _ & -> & _), (unlink_lookup b db Hb) as (db0 & Hb0 & _ & -> & _).
    by apply (ts_disjoint _ _ _ _ _ Hts a b).
Qed.
End unlink.
End changes.
End tree_inv.
