(* ===== verification/PageTreeRun.v ===== *)
(** * Running the operations of a page tree

    What the elementary functions of [PageTree] return and do to the state: views of
    directories for [make_pde], the entries that [pde_fill] writes, the initial
    contents of tables, and the changes of the host's directories. *)

From S2P Require Import Prelude PageMask StateMonad Push PmmChunks MmuTypes MmuHopper MmuPush PteBatch TlbBatch PageTree PageTreeInv.

(** ** Steps of specifications *)
Section steps.
Context {S A B : Type}.

Lemma spec_bind_run b (m : SM S A) (f : A -> SM S B) Q s a s' : m s = Returns (a, s') -> spec b (f a) Q s' -> spec b (m ≫= f) Q s.
Proof. intros Hm Hf. unfold spec. by rewrite (sm_bind_run m f s a s' Hm). Qed.

Lemma spec_bind_assert b c (f : unit -> SM S B) Q s : c = true -> spec b (f tt) Q s -> spec b (sm_assert c ≫= f) Q s.
Proof. intros -> Hf. exact Hf. Qed.

Lemma spec_bind_lift b (o : option A) a (f : A -> SM S B) Q s : o = Some a -> spec b (f a) Q s -> spec b (sm_lift o ≫= f) Q s.
Proof. intros -> Hf. exact Hf. Qed.

Lemma spec_bind_get b (f : S -> SM S B) Q s : spec b (f s) Q s -> spec b (sm_get ≫= f) Q s.
Proof. intros Hf. exact Hf. Qed.

Lemma spec_bind_modify b g (f : unit -> SM S B) Q s : spec b (f tt) Q (g s) -> spec b (sm_modify g ≫= f) Q s.
Proof. intros Hf. exact Hf. Qed.

Lemma spec_bind_mret b (a : A) (f : A -> SM S B) Q s : spec b (f a) Q s -> spec b (mret a ≫= f) Q s.
Proof. done. Qed.

Lemma sm_bind_get (f : S -> SM S B) s : (sm_get ≫= f) s = f s s.
Proof. done. Qed.
Lemma sm_bind_assert c (f : unit -> SM S B) s : c = true -> (sm_assert c ≫= f) s = f tt s.
Proof. by intros ->. Qed.
Lemma sm_bind_modify g (f : unit -> SM S B) s : (sm_modify g ≫= f) s = f tt (g s).
Proof. done. Qed.
Lemma sm_bind_ret (a : A) (f : A -> SM S B) s : (mret a ≫= f) s = f a s.
Proof. done. Qed.
End steps.

Lemma get_dir_run s p d : dirs s !! p = Some d -> get_dir p s = Returns (d, s).
Proof. intros H. unfold get_dir, mbind, SM_bind, sm_get. cbn. by rewrite H. Qed.

Lemma spec_bind_dir {B} b p d (f : _ -> PT B) Q s : dirs s !! p = Some d -> spec b (f d) Q s -> spec b (get_dir p ≫= f) Q s.
Proof. intros H. eapply spec_bind_run. by apply get_dir_run. Qed.

(** ** Views *)
Section run.
Context (C : tree_config) (F : hw_format).
Notation h := (cfg_hal C).
Context `{Hhal : !hal_ok h F}.

Lemma dir_chain_ok ds rt P X R p d fuel : tree_struct h F ds rt P X R -> ds !! p = Some d -> p ∉ P ->
  depth d <= Z.of_nat fuel -> exists chain, dir_chain fuel ds d = Some chain /\ Forall (fun x => 0 <= fst x < depth d) chain.
Proof.
  intros Hts. revert p d. induction fuel as [|fuel IH]; intros p d Hp HpP Hdep.
  - destruct (decide (p = rt)) as [->|Hne].
    + destruct (ts_root _ _ _ _ _ _ _ Hts) as (d' & ? & _ & Hh & _). simplify_eq. exists []. simpl. by rewrite Hh.
    + destruct (ts_parent _ _ _ _ _ _ _ Hts p d Hp HpP Hne) as (q & dq & k & Hq & _ & Hk).
      destruct (ts_child _ _ _ _ _ _ _ Hts q dq k p Hq Hk) as (_ & _ & d' & Hd' & [_ Hd _ _]). simplify_eq.
      destruct (ts_shape _ _ _ _ _ _ _ Hts q dq Hq) as [ps Hs]. pose proof (depth_bound _ _ _ _ Hs). lia.
  - destruct (decide (p = rt)) as [->|Hne].
    + destruct (ts_root _ _ _ _ _ _ _ Hts) as (d' & ? & _ & Hh & _). simplify_eq. exists []. simpl. by rewrite Hh.
    + destruct (ts_parent _ _ _ _ _ _ _ Hts p d Hp HpP Hne) as (q & dq & k & Hq & HqP & Hk).
      destruct (ts_child _ _ _ _ _ _ _ Hts q dq k p Hq Hk) as (_ & _ & d' & Hd' & [Hpar Hd _ _]). simplify_eq.
      destruct (ts_shape _ _ _ _ _ _ _ Hts q dq Hq) as [ps Hs]. pose proof (depth_bound _ _ _ _ Hs).
      destruct (IH q dq Hq HqP ltac:(lia)) as (chain & Hc & Hall). cbn [dir_chain]. rewrite Hpar, Hq. cbn [mbind option_bind].
      rewrite Hc. cbn [mbind option_bind]. eexists. split; [reflexivity|]. constructor; [simpl; lia|].
      eapply Forall_impl; [exact Hall|]. simpl. intros. lia.
Qed.

Lemma view_of_ok ds rt P X R p d : tree_struct h F ds rt P X R -> ds !! p = Some d -> p ∉ P -> depth d < hmax h ->
  exists v, view_of ds d = Some v /\ dv_depth v = depth d /\ view_ok h v.
Proof.
  intros Hts Hp HpP Hlt. destruct (ts_shape _ _ _ _ _ _ _ Hts p d Hp) as [ps Hs]. pose proof (depth_bound _ _ _ _ Hs).
  destruct (ok_max (F:=F)) as [_ Hmax].
  destruct (dir_chain_ok ds rt P X R p d (Z.to_nat MAX_OPERATION_DEPTH) Hts Hp HpP) as (chain & Hc & Hall).
  { unfold MAX_OPERATION_DEPTH. lia. }
  unfold view_of. rewrite Hc. cbn [mbind option_bind]. eexists. split; [reflexivity|]. split; [done|]. split; [simpl; lia|done].
Qed.

(** ** Entries *)
Definition pde_words (ds : dir_store) (d : uvm_page_directory_t) (allocs : list (option uvm_mmu_page_table_alloc_t)) (i : Z) : option (list Z) :=
  v ← view_of ds d; make_pde h allocs v i.

(** The tables below entry [i] of [d]. *)
Definition child_at (ds : dir_store) (d : uvm_page_directory_t) (k : nat) : option uvm_mmu_page_table_alloc_t :=
  match entries d !! k with Some (Some c) => phys_alloc <$> ds !! c | _ => None end.
Definition children (ds : dir_store) (d : uvm_page_directory_t) (i : Z) : list (option uvm_mmu_page_table_alloc_t) :=
  map (fun j => child_at ds d (Z.to_nat (hper h (depth d) * i) + j)) (seq 0 (Z.to_nat (hper h (depth d)))).

Definition reads_as (d : uvm_page_directory_t) (ws : list Z) (allocs : list (option uvm_mmu_page_table_alloc_t)) : Prop :=
  8 * Z.of_nat (length ws) = hsize h (depth d) /\
  hw_decode F (depth d) ws = HwPde (addrs_of (take (Z.to_nat (hper h (depth d))) allocs)).

Lemma make_pde_run s d allocs i ws : pde_words (dirs s) d allocs i = Some ws -> hal_make_pde C allocs d i s = Returns (ws, s).
Proof. intros H. unfold hal_make_pde. rewrite sm_bind_get. unfold sm_lift, pde_words in *. by rewrite H. Qed.

Lemma pde_words_ok ds rt P X R p d allocs i : tree_struct h F ds rt P X R -> ds !! p = Some d -> p ∉ P -> depth d < hmax h ->
  0 <= i < 2 ^ hbits h (depth d) UVM_PAGE_SIZE_AGNOSTIC -> (Z.to_nat (hper h (depth d)) <= length allocs)%nat ->
  (forall k a, allocs !! k = Some (Some a) -> child_ok h F (depth d) (Z.of_nat k) a) ->
  exists ws, pde_words ds d allocs i = Some ws /\ reads_as d ws allocs.
Proof.
  intros Hts Hp HpP Hlt Hi Hlen Hall. destruct (view_of_ok ds rt P X R p d Hts Hp HpP Hlt) as (v & Hv & Hd & Hok).
  rewrite <- Hd in *. destruct (ok_pde (F:=F) v i allocs Hok Hi Hlen Hall) as (ws & Hw & H8 & Hdec).
  exists ws. unfold pde_words. rewrite Hv. cbn [mbind option_bind]. unfold reads_as. rewrite <- Hd. done.
Qed.

Lemma blank_pde_ok ds rt P X R p d i : tree_struct h F ds rt P X R -> ds !! p = Some d -> p ∉ P -> depth d < hmax h ->
  0 <= i < 2 ^ hbits h (depth d) UVM_PAGE_SIZE_AGNOSTIC ->
  exists ws, pde_words ds d [None; None] i = Some ws /\ reads_as d ws [None; None].
Proof.
  intros Hts Hp HpP Hlt Hi. destruct (ts_shape _ _ _ _ _ _ _ Hts p d Hp) as [ps Hs].
  destruct (shape_sizes _ _ _ _ Hs) as (_ & _ & _ & Hper).
  eapply pde_words_ok; try done; [simpl; lia|]. intros [|[|k]] a Hk; done.
Qed.

(** The children of an entry can be pointed to. *)
Lemma children_ok ds rt P X R p d i : tree_struct h F ds rt P X R -> ds !! p = Some d -> 0 <= i ->
  length (children ds d i) = Z.to_nat (hper h (depth d)) /\
  forall k a, children ds d i !! k = Some (Some a) -> child_ok h F (depth d) (Z.of_nat k) a.
Proof.
  intros Hts Hp Hi. destruct (ts_shape _ _ _ _ _ _ _ Hts p d Hp) as [ps Hs].
  destruct (shape_sizes _ _ _ _ Hs) as (_ & _ & _ & Hper). unfold children. split; [by rewrite length_map, length_seq|].
  intros k a. rewrite list_lookup_fmap, fmap_Some. intros (j & Hj & Ha). apply lookup_seq in Hj as [-> Hj].
  unfold child_at in Ha. destruct (entries d !! _) as [[c|]|] eqn:Hc; [|done|done]. symmetry in Ha.
  apply fmap_Some in Ha as (dc & Hdc & ->).
  destruct (ts_child _ _ _ _ _ _ _ Hts p d _ c Hp Hc) as (_ & _ & d' & Hd' & [_ Hd _ (ps' & Hhalf & [_ _ Hsz _ Hpt])]). simplify_eq.
  split; [done|]. exists ps'. split; [|by rewrite Hsz, Hd]. replace (Z.of_nat k) with (Z.of_nat (Z.to_nat (hper h (depth d) * i) + (0 + k)) mod hper h (depth d)); [done|].
  rewrite Nat2Z.inj_add, Z2Nat.id by nia. rewrite Z.add_comm, Z.mul_comm, Z.mod_add by lia. rewrite Nat.add_0_l.
  apply Z.mod_small. lia.
Qed.

(** ** Filling entries *)
Definition flag_barrier (flag : option uvm_push_flag_t) : list gpu_method :=
  match flag with
  | Some UVM_PUSH_FLAG_NEXT_MEMBAR_NONE => []
  | Some UVM_PUSH_FLAG_NEXT_MEMBAR_GPU => [HostWfi; HostMembar UVM_MEMBAR_GPU]
  | _ => [HostWfi; HostMembar UVM_MEMBAR_SYS]
  end.

Definition is_transfer (g : gpu_method) : Prop := match g with CeWrite _ _ _ | CeMemset _ _ _ _ => True | _ => False end.

Definition barrier_flag (push : mmu_push) : option uvm_push_flag_t :=
  if flag_membar_none push then Some UVM_PUSH_FLAG_NEXT_MEMBAR_NONE
  else if flag_membar_gpu push then Some UVM_PUSH_FLAG_NEXT_MEMBAR_GPU else None.

(** What operations on memory write. *)
Definition op_writes (o : mem_op) : list word_write :=
  match o with OpCpuWrite ws => ws | OpSubmit l => methods_writes l | _ => [] end.
Definition log_writes (l : list mem_op) : list word_write := l ≫= op_writes.
Definition is_cpu_write (o : mem_op) : Prop := match o with OpCpuWrite _ => True | _ => False end.

Section fill.
Context (s : page_tree) (d : uvm_page_directory_t) (allocs : list (option uvm_mmu_page_table_alloc_t)) (f : Z -> list Z).
Context (start n ps : Z).
Hypothesis Hshape : shape h F d ps.
Hypothesis Hwords : forall j, start <= j < start + n -> pde_words (dirs s) d allocs j = Some (f j) /\
  8 * Z.of_nat (length (f j)) = hsize h (depth d).
Hypothesis Hstart : 0 <= start.
Hypothesis Hn : 0 < n.

Definition run_words (i m : Z) : list Z := concat (f <$> seqZ i m).

Lemma run_words_cons i m : 0 < m -> run_words i m = f i ++ run_words (i + 1) (m - 1).
Proof. intros. unfold run_words. rewrite seqZ_cons by done. simpl. by rewrite <- Z.add_1_r, Z.sub_1_r. Qed.

Lemma run_words_app i m k : 0 <= m -> 0 <= k -> run_words i (m + k) = run_words i m ++ run_words (i + m) k.
Proof. intros. unfold run_words. by rewrite seqZ_app, fmap_app, concat_app. Qed.

Lemma run_words_length i m : start <= i -> 0 <= m -> i + m <= start + n ->
  8 * Z.of_nat (length (run_words i m)) = hsize h (depth d) * m.
Proof.
  intros Hi Hm. revert i Hi. pattern m. apply natlike_ind; [|clear m Hm; intros m Hm IH|done]; intros i Hi Hle.
  - unfold run_words. simpl. lia.
  - rewrite run_words_cons by lia. rewrite length_app. replace (Z.succ m - 1) with m by lia.
    specialize (IH (i + 1) ltac:(lia) ltac:(lia)). destruct (Hwords i ltac:(lia)) as [_ ?]. lia.
Qed.

Lemma inline_pdes_run m i data : start <= i -> i + Z.of_nat m <= start + n ->
  8 * Z.of_nat (length data) + hsize h (depth d) * Z.of_nat m <= UVM_PUSH_INLINE_DATA_MAX_SIZE ->
  inline_pdes C m i d allocs data s = Returns (data ++ run_words i (Z.of_nat m), s).
Proof.
  destruct (shape_sizes _ _ _ _ Hshape) as (_ & Hsz & _ & _).
  revert i data. induction m as [|m IH]; intros i data Hi Hle Hmax; cbn [inline_pdes].
  - unfold run_words. simpl. by rewrite app_nil_r.
  - destruct (Hwords i ltac:(lia)) as [Hw Hl]. rewrite (sm_bind_run _ _ _ _ _ (make_pde_run s d allocs i _ Hw)).
    assert (Hadd : 8 * Z.of_nat (length (data ++ f i)) = 8 * Z.of_nat (length data) + hsize h (depth d)) by (rewrite length_app; lia).
    rewrite (sm_bind_lift _ (data ++ f i)).
    + rewrite IH by lia. rewrite (run_words_cons i) by lia. rewrite <- app_assoc. repeat f_equal. lia.
    + unfold inline_data_add. rewrite (proj2 (Z.leb_le _ _)); [done|lia].
Qed.

Lemma fill_gpu_loop_run fuel i addr flag push : 0 <= i < n -> n - i <= Z.of_nat fuel ->
  flag_membar_none push = false -> flag_membar_gpu push = false -> flag <> Some UVM_PUSH_FLAG_CE_NEXT_PIPELINED ->
  exists l, Forall is_transfer l /\ methods_writes l = words_at addr (run_words (start + i) (n - i)) /\
    pde_fill_gpu_loop C fuel i d start n (hsize h (depth d)) (UVM_PUSH_INLINE_DATA_MAX_SIZE / hsize h (depth d)) addr flag allocs push s =
    Returns (mk_mmu_push (methods push ++ l ++ flag_barrier flag) false false false, s).
Proof.
  destruct (shape_sizes _ _ _ _ Hshape) as (_ & Hsz & _ & _).
  assert (Hmax : 1 <= UVM_PUSH_INLINE_DATA_MAX_SIZE / hsize h (depth d) /\
    hsize h (depth d) * (UVM_PUSH_INLINE_DATA_MAX_SIZE / hsize h (depth d)) <= UVM_PUSH_INLINE_DATA_MAX_SIZE).
  { destruct Hsz as [-> | ->]; vm_compute; split; congruence. }
  revert Hmax. generalize (UVM_PUSH_INLINE_DATA_MAX_SIZE / hsize h (depth d)). intros mx [Hmx1 Hmx].
  revert i addr push. induction fuel as [|fuel IH]; intros i addr push Hi Hfuel Hnone Hgpu Hflag; [lia|].
  cbn [pde_fill_gpu_loop]. rewrite (proj2 (Z.ltb_lt i n)) by lia.
  set (ec := Z.min (n - i) mx). assert (Hec : 1 <= ec <= n - i /\ ec <= mx) by (unfold ec; lia).
  rewrite (sm_bind_run _ _ _ _ _ (inline_pdes_run (Z.to_nat ec) (start + i) [] ltac:(lia) ltac:(lia) ltac:(simpl; nia))).
  rewrite Z2Nat.id by lia. rewrite app_nil_l. destruct push as [ms b1 b2 pl]. simpl in Hnone, Hgpu. subst b1 b2.
  destruct (Z.ltb_spec (i + ec) n) as [Hlt|Hge].
  - rewrite ce_memcopy_none by done.
    destruct (IH (i + ec) (addr_add addr (hsize h (depth d) * ec))
      (mk_mmu_push (ms ++ [CeWrite (if negb (i =? 0) then true else pl) addr (run_words (start + i) ec)]) false false false))
      as (l & Hl & Hw & Hrun); [lia|lia|done..|].
    exists (CeWrite (if negb (i =? 0) then true else pl) addr (run_words (start + i) ec) :: l).
    split; [by constructor|]. split.
    + unfold methods_writes in *. cbn [mbind list_bind method_writes]. rewrite Hw.
      replace (n - i) with (ec + (n - (i + ec))) by lia. rewrite run_words_app, words_at_app by lia.
      rewrite run_words_length by lia. by rewrite Z.add_assoc.
    + simpl in Hrun. rewrite <- app_assoc in Hrun. by destruct (negb (i =? 0)).
  - assert (ec = n - i) as -> by lia. replace (i + (n - i)) with n by lia.
    exists [CeWrite (if negb (i =? 0) then true else pl) addr (run_words (start + i) (n - i))].
    split; [by constructor; [|constructor]|]. split; [unfold methods_writes; simpl; by rewrite app_nil_r|].
    destruct fuel; cbn [pde_fill_gpu_loop]; rewrite Z.ltb_irrefl; destruct flag as [[]|], (negb (i =? 0)); try done;
      unfold mret, SM_ret, ce_memcopy, maxwell_membar_after_transfer, wait_for_idle, push_method; simpl; by rewrite <- !app_assoc.
Qed.

Lemma pde_fill_gpu_run push : uvm_mmu_use_cpu C s = false -> flag_membar_none push && flag_membar_gpu push = false ->
  exists l, Forall is_transfer l /\
    methods_writes l = words_at (addr_add (pa_addr (phys_alloc d)) (hsize h (depth d) * start)) (run_words start n) /\
    pde_fill_gpu C d start n allocs push s =
    Returns (mk_mmu_push (methods push ++ l ++ flag_barrier (barrier_flag push)) false false false, s).
Proof.
  intros Hcpu Hflags. destruct (shape_sizes _ _ _ _ Hshape) as (He & Hsz & _ & _). unfold pde_fill_gpu.
  rewrite sm_bind_get, Hcpu. rewrite sm_bind_assert by done.
  rewrite (sm_bind_lift _ _ _ _ He). rewrite sm_bind_assert by (by destruct Hsz as [-> | ->]).
  destruct (fill_gpu_loop_run (Z.to_nat n) 0 (addr_add (pa_addr (phys_alloc d)) (start * hsize h (depth d))) (barrier_flag push)
    (mk_mmu_push (methods push) false false (flag_pipelined push))) as (l & Hl & Hw & Hrun); try done; try lia.
  { unfold barrier_flag. by destruct (flag_membar_none push), (flag_membar_gpu push). }
  exists l. split; [done|]. rewrite Z.add_0_r, Z.sub_0_r in Hw. rewrite (Z.mul_comm (hsize h (depth d))). split; [done|].
  cbn [methods] in Hrun. rewrite <- Hrun. by destruct push as [ms [] [] pl].
Qed.

Lemma shape_aligned : address (pa_addr (phys_alloc d)) mod 256 = 0 /\ 0 < pa_size (phys_alloc d).
Proof.
  destruct (shape_alloc _ _ _ _ Hshape) as [Hle Hm]. destruct (shape_sizes _ _ _ _ Hshape) as (_ & Hsz & _ & _).
  destruct (shape_bits _ _ _ _ Hshape) as [_ Hb]. assert (0 < 2 ^ hbits h (depth d) ps) by (apply Z.pow_pos_nonneg; lia).
  assert (Hpos : 0 < pa_size (phys_alloc d)) by (destruct Hsz as [E|E]; rewrite E in Hle; lia). split; [|done].
  destruct (sh_point _ _ _ _ Hshape) as (_ & _ & _ & Ha). apply Z.mod_divide in Hm; [|lia]. apply Z.mod_divide; [lia|].
  apply Z.mod_divide in Ha; [|lia]. etransitivity; [|exact Ha].
  destruct (Z.min_spec (pa_size (phys_alloc d)) 4096) as [[_ ->]|[_ ->]]; [done|by exists 16].
Qed.

Lemma cpu_memset_map m : m = 8 \/ m = 16 -> pa_size (phys_alloc d) <= PAGE_SIZE ->
  cpu_map_offset (phys_alloc d) = Some (address (pa_addr (phys_alloc d)) mod PAGE_SIZE) /\
  (address (pa_addr (phys_alloc d)) mod PAGE_SIZE) mod m = 0.
Proof.
  intros Hm Hle. split; [unfold cpu_map_offset; by rewrite (proj2 (Z.leb_le _ _) Hle)|].
  destruct shape_aligned as [Ha _]. apply Z.mod_divide in Ha; [|lia].
  rewrite (Z.mod_eq _ PAGE_SIZE) by (unfold PAGE_SIZE; lia). apply Z.mod_divide; [lia|]. apply Z.divide_sub_r.
  - etransitivity; [|exact Ha]. destruct Hm as [-> | ->]; [by exists 32|by exists 16].
  - apply Z.divide_mul_l. destruct Hm as [-> | ->]; [by exists 512|by exists 256].
Qed.
End fill.

Lemma append_run l s : append l s = Returns (tt, s <| log := log s ++ l |>).
Proof. done. Qed.

Lemma cpu_memset_8_run s d ps start w m : shape h F d ps -> pa_size (phys_alloc d) <= PAGE_SIZE -> 0 <= start -> 0 <= m ->
  8 * (start + m) <= pa_size (phys_alloc d) ->
  uvm_mmu_page_table_cpu_memset_8 (phys_alloc d) start w m s =
  Returns (tt, s <| log := log s ++ [OpCpuWrite (words_at (addr_add (pa_addr (phys_alloc d)) (8 * start)) (replicate (Z.to_nat m) w))] |>).
Proof.
  intros Hs Hle H0 Hm Hsz. destruct (cpu_memset_map d ps Hs 8 ltac:(auto) Hle) as [Hmap Hal]. unfold uvm_mmu_page_table_cpu_memset_8.
  rewrite (sm_bind_lift _ _ _ _ Hmap), Hal. rewrite sm_bind_assert by done.
  rewrite sm_bind_assert; [done|]. unfold PAGE_SIZE in Hle. rewrite NvU32_small by lia. lia.
Qed.

Lemma cpu_memset_16_run s d ps start ws : shape h F d ps -> pa_size (phys_alloc d) <= PAGE_SIZE -> 0 <= start ->
  16 * (start + 1) <= pa_size (phys_alloc d) -> length ws = 2%nat ->
  uvm_mmu_page_table_cpu_memset_16 (phys_alloc d) start ws 1 s =
  Returns (tt, s <| log := log s ++ [OpCpuWrite (words_at (addr_add (pa_addr (phys_alloc d)) (16 * start)) ws)] |>).
Proof.
  intros Hs Hle H0 Hsz Hl. destruct (cpu_memset_map d ps Hs 16 ltac:(auto) Hle) as [Hmap Hal]. unfold uvm_mmu_page_table_cpu_memset_16.
  rewrite (sm_bind_lift _ _ _ _ Hmap), Hal. rewrite sm_bind_assert by done.
  rewrite sm_bind_assert.
  - rewrite append_run. change (Z.to_nat 1) with 1%nat. simpl. rewrite app_nil_r. rewrite firstn_all2 by lia. done.
  - unfold PAGE_SIZE in Hle. rewrite NvU32_small by lia. lia.
Qed.

(** The result of a function that writes memory, by the CPU or through a push. *)
Definition wrote (s : page_tree) (push push' : option mmu_push) (s' : page_tree) (W : list word_write) : Prop :=
  match push with
  | Some g => s' = s /\ exists l, Forall is_transfer l /\ methods_writes l = W /\
      push' = Some (mk_mmu_push (methods g ++ l ++ flag_barrier (barrier_flag g)) false false false)
  | None => push' = None /\ exists l, Forall is_cpu_write l /\ log_writes l = W /\ s' = s <| log := log s ++ l |>
  end.

(** The writer fits the tree, and the table [d] the writer. *)
Definition writer_ok (s : page_tree) (push : option mmu_push) : Prop :=
  match push with
  | Some g => uvm_mmu_use_cpu C s = false /\ flag_membar_none g && flag_membar_gpu g = false
  | None => uvm_mmu_use_cpu C s = true
  end.
Definition fits_page (push : option mmu_push) (d : uvm_page_directory_t) : Prop := push = None -> pa_size (phys_alloc d) <= PAGE_SIZE.

Lemma fill_cpu_loop_run s d allocs f start n ps m i l0 : shape h F d ps ->
  (forall j, start <= j < start + n -> pde_words (dirs s) d allocs j = Some (f j) /\
     8 * Z.of_nat (length (f j)) = hsize h (depth d)) ->
  0 <= start -> 0 <= i -> i + Z.of_nat m <= n -> hsize h (depth d) * (start + n) <= pa_size (phys_alloc d) <= PAGE_SIZE ->
  exists l, Forall is_cpu_write l /\
    log_writes l = words_at (addr_add (pa_addr (phys_alloc d)) (hsize h (depth d) * (start + i))) (run_words f (start + i) (Z.of_nat m)) /\
    pde_fill_cpu_loop C m i d start (hsize h (depth d)) allocs (s <| log := log s ++ l0 |>) =
    Returns (tt, s <| log := log s ++ l0 ++ l |>).
Proof.
  intros Hs Hw Hst Hi Hm Hsz. destruct (shape_sizes _ _ _ _ Hs) as (_ & He & _ & _).
  revert i l0 Hi Hm. induction m as [|m IH]; intros i l0 Hi Hm; cbn [pde_fill_cpu_loop].
  - exists []. split; [done|]. rewrite app_nil_r. done.
  - destruct (Hw (start + i) ltac:(lia)) as [Hpde Hlen].
    set (W := words_at (addr_add (pa_addr (phys_alloc d)) (hsize h (depth d) * (start + i))) (f (start + i))).
    destruct (IH (i + 1) (l0 ++ [OpCpuWrite W]) ltac:(lia) ltac:(lia)) as (l & Hl & HW & Hrun).
    exists (OpCpuWrite W :: l). split; [by constructor|]. split.
    + unfold log_writes in *. cbn [mbind list_bind op_writes]. rewrite HW. rewrite (run_words_cons f (start + i)) by lia.
      rewrite words_at_app, addr_add_add, Hlen. fold W. replace (Z.of_nat (S m) - 1) with (Z.of_nat m) by lia.
      replace (start + i + 1) with (start + (i + 1)) by lia. do 3 f_equal. lia.
    + rewrite <- app_assoc in Hrun. etransitivity; [|exact Hrun]. etransitivity.
      { eapply sm_bind_run. by apply (make_pde_run (s <| log := log s ++ l0 |>)). }
      apply (sm_bind_run _ (fun _ => pde_fill_cpu_loop C m (i + 1) d start (hsize h (depth d)) allocs) _ tt).
      replace (s <| log := log s ++ l0 ++ [OpCpuWrite W] |>) with ((s <| log := log s ++ l0 |>) <| log := (log s ++ l0) ++ [OpCpuWrite W] |>) by (by rewrite <- app_assoc).
      unfold W. destruct He as [E|E]; rewrite E in *; cbn [Z.eqb Pos.eqb].
      * destruct (f (start + i)) as [|w [|? ?]] eqn:Ef; simpl in Hlen; try lia. rewrite (sm_bind_lift _ w) by done.
        rewrite (cpu_memset_8_run _ d ps) by (done || lia). done.
      * rewrite (cpu_memset_16_run _ d ps) by (done || lia). done.
Qed.

Lemma pde_fill_run s d allocs f start n ps push : shape h F d ps -> depth d < hmax h ->
  (forall j, start <= j < start + n -> pde_words (dirs s) d allocs j = Some (f j) /\
     8 * Z.of_nat (length (f j)) = hsize h (depth d)) ->
  0 <= start -> 0 < n -> start + n <= 2 ^ hbits h (depth d) UVM_PAGE_SIZE_AGNOSTIC -> writer_ok s push -> fits_page push d ->
  exists push' s', pde_fill C d start n allocs push s = Returns (push', s') /\
    wrote s push push' s' (words_at (addr_add (pa_addr (phys_alloc d)) (hsize h (depth d) * start)) (run_words f start n)).
Proof.
  intros Hs Hlt Hw Hst Hn Hle Hok Hfit. destruct (shape_bits_any _ _ _ _ Hs Hlt) as [Hb Hbits]. unfold pde_fill.
  rewrite (sm_bind_lift _ (2 ^ hbits h (depth d) UVM_PAGE_SIZE_AGNOSTIC)).
  2:{ unfold uvm_mmu_page_tree_entries. rewrite Hbits, Hb. done. }
  rewrite sm_bind_assert by lia. destruct push as [g|].
  - destruct Hok as [Hcpu Hfl]. destruct (pde_fill_gpu_run s d allocs f start n ps Hs Hw Hn g Hcpu Hfl) as (l & Hl & HW & Hrun).
    rewrite (sm_bind_run _ _ _ _ _ Hrun). do 2 eexists. split; [done|]. split; [done|]. eauto.
  - simpl in Hok. unfold pde_fill_cpu. destruct (shape_sizes _ _ _ _ Hs) as (He & Hsz & _ & _).
    destruct (shape_alloc _ _ _ _ Hs) as [Hal _]. rewrite <- Hb in Hal. pose proof (Hfit eq_refl).
    destruct (fill_cpu_loop_run s d allocs f start n ps (Z.to_nat n) 0 [] Hs Hw Hst) as (l & Hl & HW & Hrun); [lia|lia|nia|].
    rewrite Z.add_0_r, Z2Nat.id in HW by lia. rewrite app_nil_l, app_nil_r in Hrun.
    replace (s <| log := log s |>) with s in Hrun by (by destruct s). exists None, (s <| log := log s ++ l |>). split; [|split; [done|]; by exists l].
    erewrite sm_bind_run; [done|]. rewrite sm_bind_get, sm_bind_assert by done. rewrite (sm_bind_lift _ _ _ _ He).
    rewrite sm_bind_assert by (by destruct Hsz as [-> | ->]). exact Hrun.
Qed.

(** ** Initial contents *)
Definition entry_words (d : uvm_page_directory_t) : nat := Z.to_nat (hsize h (depth d) / 8).
Definition slice (d : uvm_page_directory_t) (ws : list Z) (i : Z) : list Z :=
  take (entry_words d) (drop (entry_words d * Z.to_nat i) ws).
Definition blank (d : uvm_page_directory_t) (ws : list Z) : Prop :=
  depth d < hmax h -> forall i, 0 <= i < 2 ^ hbits h (depth d) UVM_PAGE_SIZE_AGNOSTIC -> reads_as d (slice d ws i) [None; None].

Lemma concat_slice {A} (l : list (list A)) n i x : Forall (fun y => length y = n) l -> l !! i = Some x ->
  take n (drop (n * i) (concat l)) = x.
Proof.
  intros Hl. revert i. induction Hl as [|y l Hy _ IH]; intros [|i] Hi; try done; simpl in Hi.
  - injection Hi as ->. rewrite Nat.mul_0_r. simpl. by apply take_app_length'.
  - simpl. replace (n * S i)%nat with (length y + n * i)%nat by lia. rewrite drop_app_add'; auto.
Qed.

Lemma slice_run d ps f n i : shape h F d ps -> 0 <= i < n -> (forall j, 0 <= j < n -> 8 * Z.of_nat (length (f j)) = hsize h (depth d)) ->
  slice d (run_words f 0 n) i = f i.
Proof.
  intros Hs Hi Hf. destruct (shape_sizes _ _ _ _ Hs) as (_ & Hsz & _ & _). apply concat_slice.
  - apply Forall_fmap, Forall_forall. intros j Hj%elem_of_seqZ. specialize (Hf j ltac:(lia)). simpl. unfold entry_words.
    destruct Hsz as [E|E]; rewrite E in *; [change (8 / 8) with 1|change (16 / 8) with 2]; lia.
  - rewrite list_lookup_fmap, lookup_seqZ_lt by lia. simpl. do 2 f_equal. lia.
Qed.

Lemma slice_replicate d n w i : hsize h (depth d) = 8 -> 0 <= i < n -> slice d (replicate (Z.to_nat n) w) i = [w].
Proof.
  intros E Hi. unfold slice, entry_words. rewrite E. change (Z.to_nat (8 / 8)) with 1%nat. rewrite drop_replicate, take_replicate.
  replace (1 `min` _)%nat with 1%nat by lia. done.
Qed.

Lemma ce_memset_8_run a v size g : flag_membar_none g && flag_membar_gpu g = false -> size mod 8 = 0 ->
  exists pl, ce_memset_8 a v size g =
    Some (mk_mmu_push (methods g ++ [CeMemset pl a v (size / 8)] ++ flag_barrier (barrier_flag g)) false false false).
Proof.
  intros Hf H8. exists (flag_pipelined g). unfold ce_memset_8. rewrite H8.
  destruct g as [ms [] [] pl]; try done; unfold maxwell_membar_after_transfer, wait_for_idle, push_method; simpl; by rewrite <- ?app_assoc.
Qed.

Lemma memset_run s d ps w push : shape h F d ps -> writer_ok s push -> fits_page push d ->
  exists push' s', match push with
    | Some push => push ← sm_lift (ce_memset_8 (pa_addr (phys_alloc d)) w (pa_size (phys_alloc d)) push); mret (Some push)
    | None => _ ← uvm_mmu_page_table_cpu_memset_8 (phys_alloc d) 0 w (pa_size (phys_alloc d) / 8); mret None
    end s = Returns (push', s') /\
    wrote s push push' s' (words_at (pa_addr (phys_alloc d)) (replicate (Z.to_nat (pa_size (phys_alloc d) / 8)) w)).
Proof.
  intros Hs Hok Hfit. destruct (shape_alloc _ _ _ _ Hs) as [_ Hm]. destruct (shape_aligned d ps Hs) as [_ Hpos].
  assert (H8 : pa_size (phys_alloc d) mod 8 = 0).
  { apply Z.mod_divide in Hm; [|lia]. apply Z.mod_divide; [lia|]. etransitivity; [|exact Hm]. by exists 32. }
  destruct push as [g|].
  - destruct Hok as [_ Hfl]. destruct (ce_memset_8_run (pa_addr (phys_alloc d)) w _ g Hfl H8) as [pl Hrun].
    rewrite (sm_bind_lift _ _ _ _ Hrun). do 2 eexists. split; [done|]. split; [done|].
    eexists [_]. split; [|split; [|reflexivity]]; [by repeat constructor|]. unfold methods_writes. simpl. by rewrite app_nil_r.
  - pose proof (Z.mul_div_le (pa_size (phys_alloc d)) 8 ltac:(lia)). pose proof (Z.div_pos (pa_size (phys_alloc d)) 8 ltac:(lia) ltac:(lia)).
    pose proof (cpu_memset_8_run s d ps 0 w _ Hs (Hfit eq_refl) ltac:(lia) ltac:(eassumption) ltac:(lia)) as Hrun.
    rewrite (sm_bind_run _ _ _ _ _ Hrun). do 2 eexists. split; [done|]. split; [done|].
    eexists [_]. split; [|split; [|reflexivity]]; [by repeat constructor|]. unfold log_writes. simpl. by rewrite app_nil_r, addr_add_0.
Qed.

Lemma shape_table_depth d ps : shape h F d ps -> page_table_depth h ps = Some (hdepth h ps).
Proof. intros [[Hs|[-> _]] _ _ _ _]; [by apply (ok_depth (F:=F))|by apply (ok_max (F:=F))]. Qed.

(** The entries that fill a table with nothing. *)
Lemma blank_fill ds rt P X R p d ps : tree_struct h F ds rt P X R -> ds !! p = Some d -> p ∉ P -> depth d < hmax h -> shape h F d ps ->
  exists f, (forall j, 0 <= j < 0 + 2 ^ hbits h (depth d) ps -> pde_words ds d [None; None] j = Some (f j) /\
     8 * Z.of_nat (length (f j)) = hsize h (depth d)) /\
    blank d (run_words f 0 (2 ^ hbits h (depth d) ps)).
Proof.
  intros Hts Hp HpP Hlt Hs. destruct (shape_bits_any _ _ _ _ Hs Hlt) as [Hb _].
  assert (Hall : forall j, 0 <= j < 2 ^ hbits h (depth d) ps -> reads_as d (default [] (pde_words ds d [None; None] j)) [None; None] /\
    pde_words ds d [None; None] j = Some (default [] (pde_words ds d [None; None] j))).
  { intros j Hj. destruct (blank_pde_ok ds rt P X R p d j Hts Hp HpP Hlt) as (ws & -> & Hr); [by rewrite Hb|done]. }
  exists (fun j => default [] (pde_words ds d [None; None] j)). split.
  - intros j Hj. destruct (Hall j ltac:(lia)) as [[? _] ?]. done.
  - intros _ i Hi. rewrite Hb in Hi. rewrite (slice_run d ps) by (try done; intros j Hj; by destruct (Hall j Hj) as [[? _] _]).
    by apply Hall.
Qed.

Section init.
Context (s : page_tree) (rt : dir_ptr) (P X : list dir_ptr) (R : list uvm_page_table_range_t).
Context (p : dir_ptr) (d : uvm_page_directory_t) (ps : Z) (push : option mmu_push).
Hypothesis Hts : tree_struct h F (dirs s) rt P X R.
Hypothesis Hp : dirs s !! p = Some d.
Hypothesis HpP : p ∉ P.
Hypothesis Hs : shape h F d ps.
Hypothesis Hok : writer_ok s push.
Hypothesis Hfit : fits_page push d.

Definition init_done (m : PT (option mmu_push)) : Prop :=
  exists push' s' ws, m s = Returns (push', s') /\ wrote s push push' s' (words_at (pa_addr (phys_alloc d)) ws) /\ blank d ws /\
    8 * Z.of_nat (length ws) <= pa_size (phys_alloc d).

(** The branch of [phys_mem_init] that sets all words to one value. *)
Definition init_memset : PT (option mmu_push) :=
  table_depth ← sm_lift (page_table_depth h ps);
  clear_bits ←
    (if negb (depth d =? table_depth) then
       bits ← hal_make_pde C [None; None] d 0;
       size ← sm_lift (entry_size h (depth d));
       _ ← sm_assert ((size =? 8) || bool_decide (bits !! 0%nat = bits !! 1%nat));
       sm_lift (head bits)
     else mret 0);
  match push with
  | Some push => push ← sm_lift (ce_memset_8 (pa_addr (phys_alloc d)) clear_bits (pa_size (phys_alloc d)) push); mret (Some push)
  | None => _ ← uvm_mmu_page_table_cpu_memset_8 (phys_alloc d) 0 clear_bits (pa_size (phys_alloc d) / 8); mret None
  end.

Lemma replicate_fits (w : Z) : 8 * Z.of_nat (length (replicate (Z.to_nat (pa_size (phys_alloc d) / 8)) w)) <= pa_size (phys_alloc d).
Proof.
  rewrite length_replicate. destruct (shape_aligned d ps Hs) as [_ Hpos].
  pose proof (Z.mul_div_le (pa_size (phys_alloc d)) 8 ltac:(lia)). pose proof (Z.div_pos (pa_size (phys_alloc d)) 8). lia.
Qed.

Lemma init_leaf : depth d = hmax h -> init_done init_memset.
Proof.
  intros Heq. destruct (ok_max (F:=F)) as [_ Hmax]. unfold init_done, init_memset. rewrite (sm_bind_lift _ _ _ _ (shape_table_depth d ps Hs)).
  assert (depth d = hdepth h ps) as ->.
  { destruct (sh_ps _ _ _ _ Hs) as [Hsup|[-> H0]]; [|lia]. pose proof (sh_depth _ _ _ _ Hs). destruct (ok_depth (F:=F) ps Hsup). lia. }
  rewrite Z.eqb_refl. cbn [negb]. rewrite sm_bind_ret. destruct (memset_run s d ps 0 push Hs Hok Hfit) as (push' & s' & Hrun & HW).
  exists push', s', (replicate (Z.to_nat (pa_size (phys_alloc d) / 8)) 0). split; [exact Hrun|]. split; [done|].
  split; [|apply replicate_fits]. intros ?. lia.
Qed.

Lemma init_wide : depth d < hmax h -> 512 < 2 ^ hbits h (depth d) ps -> init_done init_memset.
Proof.
  intros Hlt Hwide. destruct (shape_bits _ _ _ _ Hs) as [_ Hb]. assert (Hb9 : 9 < hbits h (depth d) ps).
  { apply (Z.pow_lt_mono_r_iff 2); [lia|lia|exact Hwide]. }
  destruct (shape_wide _ _ _ _ Hs Hlt Hb9) as [H8 Hdl]. destruct (shape_sizes _ _ _ _ Hs) as (He & _).
  destruct (shape_bits_any _ _ _ _ Hs Hlt) as [Hany _]. destruct (shape_alloc _ _ _ _ Hs) as [Hal _]. rewrite H8 in Hal.
  destruct (blank_fill (dirs s) rt P X R p d ps Hts Hp HpP Hlt Hs) as (f & Hf & Hblank).
  unfold init_done, init_memset. rewrite (sm_bind_lift _ _ _ _ (shape_table_depth d ps Hs)).
  replace (depth d =? hdepth h ps) with false by (destruct (sh_ps _ _ _ _ Hs) as [Hsup|[-> H0]]; [pose proof (Hdl Hsup)|fold (hmax h)]; lia).
  cbn [negb]. destruct (Hf 0 ltac:(lia)) as [Hw0 Hlen0]. rewrite H8 in Hlen0.
  destruct (f 0) as [|w [|? ?]] eqn:Ef; simpl in Hlen0; try lia.
  destruct (memset_run s d ps w push Hs Hok Hfit) as (push' & s' & Hrun & HW).
  exists push', s', (replicate (Z.to_nat (pa_size (phys_alloc d) / 8)) w). split.
  { erewrite sm_bind_run; [exact Hrun|]. rewrite (sm_bind_run _ _ _ _ _ (make_pde_run _ _ _ _ _ Hw0)).
    rewrite (sm_bind_lift _ _ _ _ He). rewrite sm_bind_assert by (by rewrite H8). done. }
  split; [done|]. split; [|apply replicate_fits]. intros _ i Hi. rewrite (slice_replicate d _ w i H8).
  - pose proof (Hblank Hlt 0 ltac:(lia)) as H0. rewrite (slice_run d ps) in H0 by (try done; try lia; intros; by apply Hf). by rewrite Ef in H0.
  - rewrite Hany in Hi. split; [lia|]. apply Z.lt_le_trans with (2 ^ hbits h (depth d) ps); [lia|]. apply Z.div_le_lower_bound; lia.
Qed.

Lemma init_fill : depth d < hmax h -> init_done (pde_fill C d 0 (2 ^ hbits h (depth d) ps) [None; None] push).
Proof.
  intros Hlt. destruct (shape_bits _ _ _ _ Hs) as [_ Hb]. destruct (shape_bits_any _ _ _ _ Hs Hlt) as [Hany _].
  destruct (shape_alloc _ _ _ _ Hs) as [Hal _]. destruct (blank_fill (dirs s) rt P X R p d ps Hts Hp HpP Hlt Hs) as (f & Hf & Hblank).
  assert (0 < 2 ^ hbits h (depth d) ps) by (apply Z.pow_pos_nonneg; lia).
  destruct (pde_fill_run s d [None; None] f 0 (2 ^ hbits h (depth d) ps) ps push Hs Hlt Hf) as (push' & s' & Hrun & HW); try done; [by rewrite Hany|].
  rewrite Z.mul_0_r, addr_add_0 in HW. exists push', s', (run_words f 0 (2 ^ hbits h (depth d) ps)). split_and!; try done.
  rewrite (run_words_length s d [None; None] f 0 (2 ^ hbits h (depth d) ps)) by (done || lia). done.
Qed.

Lemma phys_mem_init_run : init_done (phys_mem_init C ps p push).
Proof.
  destruct (shape_bits _ _ _ _ Hs) as [Hbits _]. pose proof (depth_bound _ _ _ _ Hs) as Hd. destruct (ok_max (F:=F)) as [Hmax _].
  unfold init_done, phys_mem_init. rewrite (sm_bind_run _ _ _ _ _ (get_dir_run s p d Hp)).
  rewrite (sm_bind_lift _ (2 ^ hbits h (depth d) ps)) by (unfold uvm_mmu_page_tree_entries; by rewrite Hbits).
  rewrite (sm_bind_lift _ _ _ _ Hmax). destruct (decide (depth d = hmax h)) as [Heq|Hne].
  - rewrite (proj2 (Z.ltb_lt (hmax h - 1) (depth d))) by lia. exact (init_leaf Heq).
  - rewrite (proj2 (Z.ltb_ge (hmax h - 1) (depth d))) by lia. assert (depth d < hmax h) by lia.
    destruct (Z.ltb_spec 512 (2 ^ hbits h (depth d) ps)), (cfg_ats_enabled C);
      [by apply init_fill|by apply init_wide|by apply init_fill..].
Qed.
End init.

(** ** Writing one entry *)
Lemma child_allocs_run s rt P X R p d force n k : tree_struct h F (dirs s) rt P X R -> dirs s !! p = Some d -> 0 <= k ->
  (Z.to_nat k + n <= length (entries d))%nat ->
  child_allocs n k d force s =
  Returns (map (fun j => if force then None else child_at (dirs s) d (Z.to_nat k + j)) (seq 0 n), s).
Proof.
  intros Hts Hp. revert k. induction n as [|n IH]; intros k Hk Hlen; [done|]. cbn [child_allocs].
  destruct (lookup_lt_is_Some_2 (entries d) (Z.to_nat k)) as [o Ho]; [lia|]. rewrite (sm_bind_lift _ _ _ _ Ho).
  assert (Hhead : (match o with
    | Some q => if force then mret None else dq ← get_dir q; mret (Some (phys_alloc dq))
    | None => mret None
    end : PT (option uvm_mmu_page_table_alloc_t)) s = Returns (if force then None else child_at (dirs s) d (Z.to_nat k), s)).
  { unfold child_at. rewrite Ho. destruct o as [q|], force; try done.
    destruct (ts_child _ _ _ _ _ _ _ Hts p d _ q Hp Ho) as (_ & _ & dq & Hq & _).
    rewrite (sm_bind_run _ _ _ _ _ (get_dir_run s q dq Hq)). by rewrite Hq. }
  rewrite (sm_bind_run _ _ _ _ _ Hhead). rewrite (sm_bind_run _ _ _ _ _ (IH (k + 1) ltac:(lia) ltac:(lia))).
  cbn [seq map]. rewrite Nat.add_0_r. unfold mret, SM_ret. do 3 f_equal. rewrite <- fmap_S_seq, <- list_fmap_compose.
  apply list_fmap_ext. intros _ j _. simpl. by replace (Z.to_nat (k + 1) + j)%nat with (Z.to_nat k + S j)%nat by lia.
Qed.

Definition pde_content (force : bool) (ds : dir_store) (d : uvm_page_directory_t) (i : Z) : list (option uvm_mmu_page_table_alloc_t) :=
  if force then replicate (Z.to_nat (hper h (depth d))) None else children ds d i.

Lemma shape_entry_index d ps i : shape h F d ps -> depth d < hmax h -> 0 <= i < 2 ^ hbits h (depth d) UVM_PAGE_SIZE_AGNOSTIC ->
  (Z.to_nat (hper h (depth d) * i) + Z.to_nat (hper h (depth d)) <= length (entries d))%nat.
Proof.
  intros Hs Hlt Hi. destruct (shape_sizes _ _ _ _ Hs) as (_ & _ & _ & Hper). pose proof (sh_entries _ _ _ _ Hs) as He.
  unfold entry_total in He. rewrite (proj2 (Z.eqb_neq (depth d) (hmax h))) in He by lia. nia.
Qed.

Lemma pde_write_run s rt P X R p d i force push : tree_struct h F (dirs s) rt P X R -> dirs s !! p = Some d -> p ∉ P ->
  depth d < hmax h -> 0 <= i < 2 ^ hbits h (depth d) UVM_PAGE_SIZE_AGNOSTIC -> writer_ok s push -> fits_page push d ->
  exists push' s' ws, pde_write C p i force push s = Returns (push', s') /\
    wrote s push push' s' (words_at (addr_add (pa_addr (phys_alloc d)) (hsize h (depth d) * i)) ws) /\
    reads_as d ws (pde_content force (dirs s) d i).
Proof.
  intros Hts Hp HpP Hlt Hi Hok Hfit. destruct (ts_shape _ _ _ _ _ _ _ Hts p d Hp) as [ps Hs].
  destruct (shape_sizes _ _ _ _ Hs) as (_ & _ & Hpi & Hper). pose proof (shape_entry_index d ps i Hs Hlt Hi) as Hlen.
  destruct (children_ok (dirs s) rt P X R p d i Hts Hp ltac:(lia)) as [Hcl Hco].
  destruct (pde_words_ok (dirs s) rt P X R p d (pde_content force (dirs s) d i) i Hts Hp HpP Hlt Hi) as (ws & Hw & Hr).
  { unfold pde_content. destruct force; [by rewrite length_replicate|by rewrite Hcl]. }
  { intros k a. unfold pde_content. destruct force; [|apply Hco]. intros [? ?]%lookup_replicate. done. }
  destruct (pde_fill_run s d (pde_content force (dirs s) d i) (fun _ => ws) i 1 ps push Hs Hlt) as (push' & s' & Hrun & HW); try done; try lia.
  { intros j Hj. assert (j = i) as -> by lia. split; [done|apply Hr]. }
  exists push', s', ws. split.
  - unfold pde_write. rewrite (sm_bind_run _ _ _ _ _ (get_dir_run s p d Hp)), (sm_bind_lift _ _ _ _ Hpi).
    rewrite (sm_bind_run _ _ _ _ _ (child_allocs_run s rt P X R p d force _ (hper h (depth d) * i) Hts Hp ltac:(nia) Hlen)).
    rewrite <- Hrun. f_equal. unfold pde_content, children. destruct force; [|done].
    clear. generalize 0%nat as m. induction (Z.to_nat (hper h (depth d))) as [|n IH]; intros m; [done|]. simpl. by rewrite IH.
  - split; [|done]. unfold run_words in HW. simpl in HW. by rewrite app_nil_r in HW.
Qed.
End run.
