(* ===== verification/PageTreeWalk.v ===== *)
(** * The walk down a page tree

    What [get_ptes_walk] does to the directories: it links private directories from
    the cache below the last directory that exists and takes references on the
    range, or it finds a directory missing and undoes its links. *)

From S2P Require Import Prelude PageMask StateMonad Push PmmChunks MmuTypes MmuHopper MmuPush PteBatch TlbBatch PageTree PageTreeInv PageTreeRun.

(** ** Elementary changes of the host's directories *)
Lemma set_dir_run s p d : set_dir p d s = Returns (tt, s <| dirs := <[p := d]> (dirs s) |>).
Proof. done. Qed.

Lemma set_entry_run s p d k e : dirs s !! p = Some d -> (Z.to_nat k < length (entries d))%nat ->
  set_entry p k e s = Returns (tt, s <| dirs := <[p := d <| entries := <[Z.to_nat k := e]> (entries d) |>]> (dirs s) |>).
Proof.
  intros Hp Hk. unfold set_entry. rewrite (sm_bind_run _ _ _ _ _ (get_dir_run s p d Hp)).
  rewrite sm_bind_assert by (by apply bool_decide_eq_true_2). done.
Qed.

Lemma host_pde_write_run s p q dp dq i : dirs s !! p = Some dp -> dirs s !! q = Some dq -> p <> q -> 0 <= ref_count dq < 2 ^ 32 - 1 ->
  host_pde_write p q i s =
  Returns (tt, s <| dirs := <[q := dq <| ref_count := ref_count dq + 1 |>]> (<[p := link_child q dp i]> (dirs s)) |>).
Proof.
  intros Hp Hq Hne Hr. unfold host_pde_write. rewrite (sm_bind_run _ _ _ _ _ (get_dir_run s p dp Hp)).
  rewrite (sm_bind_run _ _ _ _ _ (set_dir_run s p _)). erewrite sm_bind_run.
  2:{ apply get_dir_run. simpl. by rewrite lookup_insert_ne. }
  rewrite set_dir_run. rewrite NvU32_small by lia. done.
Qed.

(** A link followed by the rest of the code. *)
Lemma link_run {A} s p q dp dq k i (f : unit -> PT A) : dirs s !! p = Some dp -> dirs s !! q = Some dq -> p <> q ->
  0 <= ref_count dq < 2 ^ 32 - 1 -> (Z.to_nat k < length (entries dq))%nat ->
  (_ ← host_pde_write p q i; x ← set_entry q k (Some p); f x) s = f tt (s <| dirs := linked (dirs s) p q dp dq (Z.to_nat k) i |>).
Proof.
  intros Hp Hq Hne Hr Hk. rewrite (sm_bind_run _ _ _ _ _ (host_pde_write_run s p q dp dq i Hp Hq Hne Hr)).
  erewrite sm_bind_run.
  2:{ eapply set_entry_run; [simpl; apply lookup_insert_eq|done]. }
  simpl. unfold linked. by rewrite insert_insert_eq.
Qed.

Section walk.
Context (C : tree_config) (F : hw_format).
Notation h := (cfg_hal C).
Context `{Hhal : !hal_ok h F}.

Lemma host_pde_clear_run s q dq i k ps : dirs s !! q = Some dq -> 0 < ref_count dq ->
  index_to_entry C i (depth dq) ps = Some (Z.of_nat k) -> (k < length (entries dq))%nat ->
  host_pde_clear C q i ps s = Returns (tt, s <| dirs := unlinked (dirs s) q dq k |>).
Proof.
  intros Hq Hr Hi Hk. unfold host_pde_clear. rewrite (sm_bind_run _ _ _ _ _ (get_dir_run s q dq Hq)).
  rewrite sm_bind_assert by lia. rewrite (sm_bind_lift _ _ _ _ Hi).
  rewrite (sm_bind_run _ _ _ _ _ (set_entry_run s q dq (Z.of_nat k) None Hq ltac:(lia))). erewrite sm_bind_run.
  2:{ apply get_dir_run. simpl. apply lookup_insert_eq. }
  rewrite set_dir_run. simpl. rewrite insert_insert_eq, Nat2Z.id. done.
Qed.

(** ** Indices *)
Lemma index_to_entry_ok ps dep i : supported h ps = true -> 0 <= dep <= hdepth h ps -> 0 <= i < 2 ^ 16 ->
  index_to_entry C i dep ps = Some (hper h dep * i + hoffset h dep ps) /\
  (hper h dep * i + hoffset h dep ps) / hper h dep = i /\ (hper h dep * i + hoffset h dep ps) mod hper h dep = hoffset h dep ps /\
  0 <= hper h dep * i + hoffset h dep ps.
Proof.
  intros Hs Hd Hi. destruct (ok_depth (F:=F) ps Hs) as [_ Hle]. assert (Hm : 0 <= dep <= hmax h) by lia. destruct (ok_per (F:=F) dep Hm) as [Hp Hper].
  destruct (ok_offset (F:=F) ps dep Hs Hd) as [Ho Hoff]. unfold index_to_entry. rewrite Hp, Ho. cbn [mbind option_bind].
  rewrite NvU32_small by nia. split; [done|]. rewrite (Z.mul_comm (hper h dep)), Z.add_comm.
  rewrite Z.div_add, Z.mod_add, Z.div_small, Z.mod_small by lia. lia.
Qed.

(** ** Links of a walk *)
Record link := mk_link { lk_child : dir_ptr; lk_parent : dir_ptr; lk_slot : nat; lk_index : Z }.

Definition link_dir (l : link) (ds : dir_store) : dir_store :=
  alter (fun dq => link_parent (lk_child l) dq (lk_slot l)) (lk_parent l)
    (alter (fun dp => link_child (lk_parent l) dp (lk_index l)) (lk_child l) ds).
Definition place_dir (l : link) (ds : dir_store) : dir_store :=
  alter (fun dp => link_child (lk_parent l) dp (lk_index l)) (lk_child l) ds.
Definition unlink_dir (l : link) (ds : dir_store) : dir_store :=
  alter (fun dq => unlink_parent dq (lk_slot l)) (lk_parent l) ds.

Definition link_all (ls : list link) (ds : dir_store) : dir_store := foldl (fun ds l => link_dir l ds) ds ls.
Definition place_all (ls : list link) (ds : dir_store) : dir_store := foldl (fun ds l => place_dir l ds) ds ls.

(** Each link continues below the last, from [q] down to [p]. *)
Fixpoint chain (q : dir_ptr) (ls : list link) (p : dir_ptr) : Prop :=
  match ls with [] => q = p | l :: ls => lk_parent l = q /\ chain (lk_child l) ls p end.

Record good_link (ds : dir_store) (ps : Z) (l : link) : Prop := {
  gl_child : exists dp, ds !! lk_child l = Some dp;
  gl_parent : exists dq, ds !! lk_parent l = Some dq /\ entries dq !! lk_slot l = Some None /\ 0 <= ref_count dq /\
    index_to_entry C (lk_index l) (depth dq) ps = Some (Z.of_nat (lk_slot l)) /\ lk_index l = Z.of_nat (lk_slot l) / hper h (depth dq)
}.

Lemma alter_lookup_insert (f : uvm_page_directory_t -> uvm_page_directory_t) p d (ds : dir_store) :
  ds !! p = Some d -> alter f p ds = <[p := f d]> ds.
Proof.
  intros Hp. apply map_eq. intros q. destruct (decide (p = q)) as [->|Hne].
  - by rewrite lookup_alter_eq, lookup_insert_eq, Hp.
  - by rewrite lookup_alter_ne, lookup_insert_ne.
Qed.

Lemma link_dir_linked ds l dp dq : ds !! lk_child l = Some dp -> ds !! lk_parent l = Some dq -> lk_child l <> lk_parent l ->
  link_dir l ds = linked ds (lk_child l) (lk_parent l) dp dq (lk_slot l) (lk_index l).
Proof.
  intros Hp Hq Hne. unfold link_dir, linked. rewrite (alter_lookup_insert _ (lk_child l) dp) by done.
  by rewrite (alter_lookup_insert _ (lk_parent l) dq) by (by rewrite lookup_insert_ne).
Qed.

Lemma link_unlink ds l dq : ds !! lk_parent l = Some dq -> entries dq !! lk_slot l = Some None -> lk_child l <> lk_parent l ->
  unlink_dir l (link_dir l ds) = place_dir l ds.
Proof.
  intros Hq Hk Hne. unfold unlink_dir, link_dir, place_dir. rewrite alter_alter_eq. apply alter_id.
  intros d. rewrite lookup_alter_ne by done. rewrite Hq. intros [= <-]. unfold compose, unlink_parent, link_parent.
  destruct dq as [hp ix pa rc dep es]. simpl in *. rewrite list_insert_insert_eq, list_insert_id by done. by replace (rc + 1 - 1) with rc by lia.
Qed.

Lemma unlink_dir_comm l l' ds : lk_parent l <> lk_child l' -> lk_parent l <> lk_parent l' ->
  unlink_dir l (link_dir l' ds) = link_dir l' (unlink_dir l ds).
Proof. intros H1 H2. unfold unlink_dir, link_dir. rewrite alter_alter_ne by done. by rewrite (alter_alter_ne _ _ _ (lk_parent l)) by done. Qed.

(** What links leave as it was. *)
Lemma link_all_other ls x ds : x ∉ map lk_child ls -> x ∉ map lk_parent ls -> link_all ls ds !! x = ds !! x.
Proof.
  revert ds. induction ls as [|l ls IH]; intros ds Hc Hp; [done|]. cbn in Hc, Hp. rewrite not_elem_of_cons in Hc, Hp.
  unfold link_all. cbn [foldl]. fold (link_all ls (link_dir l ds)). rewrite IH by tauto. unfold link_dir. by rewrite !lookup_alter_ne by (intros ?; subst; tauto).
Qed.

Lemma chain_parents q ls p : chain q ls p -> forall x, x ∈ map lk_parent ls -> x = q \/ x ∈ map lk_child ls.
Proof.
  revert q. induction ls as [|l ls IH]; intros q; cbn; [by intros _ x ?%elem_of_nil|]. intros [<- Hc] x.
  rewrite !elem_of_cons. intros [->|Hx]; [auto|]. destruct (IH _ Hc x Hx); auto.
Qed.

Lemma unlink_all_comm l ls ds : lk_parent l ∉ map lk_child ls -> lk_parent l ∉ map lk_parent ls ->
  unlink_dir l (link_all ls ds) = link_all ls (unlink_dir l ds).
Proof.
  revert ds. induction ls as [|l' ls IH]; intros ds Hc Hp; [done|]. cbn in Hc, Hp. rewrite not_elem_of_cons in Hc, Hp.
  change (unlink_dir l (link_all ls (link_dir l' ds)) = link_all ls (link_dir l' (unlink_dir l ds))).
  rewrite IH by tauto. by rewrite unlink_dir_comm by tauto.
Qed.

(** A directory before and after links: [kept x ls d0 d]. *)
Definition kept (x : dir_ptr) (ls : list link) (d0 d : uvm_page_directory_t) : Prop :=
  depth d = depth d0 /\ phys_alloc d = phys_alloc d0 /\ length (entries d) = length (entries d0) /\
  (x ∉ map lk_child ls -> host_parent d = host_parent d0 /\ index_in_parent d = index_in_parent d0) /\
  (x ∉ map lk_parent ls -> entries d = entries d0 /\ ref_count d = ref_count d0).

Lemma link_all_kept ls x ds d0 : ds !! x = Some d0 -> exists d, link_all ls ds !! x = Some d /\ kept x ls d0 d.
Proof.
  revert ds d0. induction ls as [|l ls IH]; intros ds d0 Hx; [by exists d0|].
  assert (Hone : exists d1, link_dir l ds !! x = Some d1 /\ kept x [l] d0 d1).
  { assert (Hc : exists d1, place_dir l ds !! x = Some d1 /\ (x = lk_child l \/ d1 = d0) /\ depth d1 = depth d0 /\ phys_alloc d1 = phys_alloc d0 /\
      entries d1 = entries d0 /\ ref_count d1 = ref_count d0).
    { unfold place_dir. destruct (decide (lk_child l = x)) as [<-|Hne]; [rewrite lookup_alter_eq, Hx|rewrite lookup_alter_ne by done]; eexists; split_and!; eauto. }
    destruct Hc as (d1 & Hd1 & Hor & H1 & H2 & H3 & H4). change (link_dir l ds) with (alter (fun dq => link_parent (lk_child l) dq (lk_slot l)) (lk_parent l) (place_dir l ds)).
    unfold kept. cbn. rewrite <- H1, <- H2, <- H3, <- H4.
    destruct (decide (lk_parent l = x)) as [<-|Hne]; [rewrite lookup_alter_eq, Hd1|rewrite lookup_alter_ne by done]; eexists; (split; [done|]);
      cbn; rewrite ?length_insert; split_and!; try done; rewrite not_elem_of_cons; intros [Hn _]; destruct Hor; subst; done. }
  destruct Hone as (d1 & Hd1 & K1). destruct (IH _ d1 Hd1) as (d & Hd & K). exists d. split; [done|].
  destruct K1 as (A1 & A2 & A3 & A4 & A5), K as (B1 & B2 & B3 & B4 & B5). split_and!; try congruence; cbn; rewrite not_elem_of_cons; intros [Hn1 Hn2].
  - destruct B4 as [-> ->]; [done|]. apply A4. cbn. rewrite not_elem_of_cons. split; [done|]. by apply not_elem_of_nil.
  - destruct B5 as [-> ->]; [done|]. apply A5. cbn. rewrite not_elem_of_cons. split; [done|]. by apply not_elem_of_nil.
Qed.

Lemma link_all_lookup ls x ds d : link_all ls ds !! x = Some d -> exists d0, ds !! x = Some d0 /\ kept x ls d0 d.
Proof.
  intros Hx. destruct (ds !! x) as [d0|] eqn:E.
  - destruct (link_all_kept ls x ds d0 E) as (d' & Hd' & K). simplify_eq. eauto.
  - exfalso. revert ds E Hx. induction ls as [|l ls IH]; intros ds E Hx; [by cbn in Hx; simplify_eq|].
    apply (IH (link_dir l ds)); [|done]. unfold link_dir. by rewrite !lookup_alter_None.
Qed.

(** Only the slots of the links change. *)
Lemma link_all_entries ls x ds d0 d k : ds !! x = Some d0 -> link_all ls ds !! x = Some d ->
  (forall l, l ∈ ls -> lk_parent l = x -> lk_slot l <> k) -> entries d !! k = entries d0 !! k.
Proof.
  revert ds d0. induction ls as [|l ls IH]; intros ds d0 Hx Hd Hk; [by cbn in Hd; simplify_eq|].
  change (link_all ls (link_dir l ds) !! x = Some d) in Hd.
  destruct (link_all_kept [l] x ds d0 Hx) as (d1 & Hd1 & _ & _ & _ & _ & Hsame). change (link_dir l ds !! x = Some d1) in Hd1.
  rewrite (IH _ d1 Hd1 Hd) by (intros l' Hl'; apply Hk; by right). destruct (decide (lk_parent l = x)) as [E|Hne].
  - pose proof (Hk l ltac:(left) E) as Hs. subst x. unfold link_dir in Hd1. rewrite lookup_alter_eq in Hd1.
    assert (Hp : exists d', place_dir l ds !! lk_parent l = Some d' /\ entries d' = entries d0).
    { unfold place_dir. destruct (decide (lk_child l = lk_parent l)) as [->|Hne]; [rewrite lookup_alter_eq, Hx|rewrite lookup_alter_ne by done]; eexists; done. }
    destruct Hp as (d' & Hd' & He). unfold place_dir in Hd'. rewrite Hd' in Hd1. injection Hd1 as <-. cbn. rewrite list_lookup_insert_ne by done. by rewrite He.
  - destruct Hsame as [-> _]; [|done]. cbn. rewrite not_elem_of_cons. split; [congruence|by apply not_elem_of_nil].
Qed.

Lemma link_all_host ls l ds : NoDup (map lk_child ls) -> l ∈ ls -> lk_child l <> lk_parent l -> (forall l, l ∈ ls -> is_Some (ds !! lk_child l)) ->
  exists d, link_all ls ds !! lk_child l = Some d /\ host_parent d = Some (lk_parent l) /\ index_in_parent d = lk_index l.
Proof.
  revert ds. induction ls as [|l' ls IH]; intros ds Hnd Hl Hne Hin; [by apply elem_of_nil in Hl|]. cbn [map] in Hnd. apply NoDup_cons in Hnd as [Hn Hnd].
  change (link_all (l' :: ls) ds) with (link_all ls (link_dir l' ds)). apply elem_of_cons in Hl as [->|Hl].
  - destruct (Hin l' ltac:(left)) as [dp Hp]. assert (Hl1 : link_dir l' ds !! lk_child l' = Some (link_child (lk_parent l') dp (lk_index l'))).
    { unfold link_dir. rewrite lookup_alter_ne, lookup_alter_eq by congruence. by rewrite Hp. }
    destruct (link_all_kept ls _ _ _ Hl1) as (d & Hd & _ & _ & _ & Hh & _). destruct (Hh Hn) as [E1 E2]. exists d. by rewrite E1, E2.
  - apply IH; try done. intros x Hx. destruct (Hin x ltac:(by right)) as [dx Hdx]. destruct (link_all_kept [l'] _ _ _ Hdx) as (d & Hd & _). by exists d.
Qed.

Lemma good_link_place ds ps l l' : good_link ds ps l -> good_link (place_dir l' ds) ps l.
Proof.
  intros [[dp Hp] (dq & Hq & Hk & Hr & Hi & Hx)]. unfold place_dir. constructor.
  - destruct (decide (lk_child l' = lk_child l)) as [->|Hne]; [rewrite lookup_alter_eq, Hp|rewrite lookup_alter_ne by done]; eauto.
  - destruct (decide (lk_child l' = lk_parent l)) as [->|Hne].
    + rewrite lookup_alter_eq, Hq. eexists. split; [reflexivity|]. done.
    + rewrite lookup_alter_ne by done. eauto 10.
Qed.

Lemma undo_run ls ps : forall s ds q p, chain q ls p -> NoDup (q :: map lk_child ls) -> Forall (good_link ds ps) ls ->
  dirs s = link_all ls ds -> undo_used C (map lk_child ls) ps s = Returns (tt, s <| dirs := place_all ls ds |>).
Proof.
  induction ls as [|l ls IH]; intros s ds q p Hch Hnd Hgood Hds.
  { cbn in *. rewrite <- Hds. unfold mret, SM_ret. by destruct s. }
  destruct Hch as [<- Hch]. cbn [map] in Hnd. apply NoDup_cons in Hnd as [Hq Hnd]. rewrite not_elem_of_cons in Hq. destruct Hq as [Hqp Hqc].
  assert (Hqpar : lk_parent l ∉ map lk_parent ls) by (intros Hin; destruct (chain_parents _ _ _ Hch _ Hin); congruence).
  pose proof (proj1 (proj1 (NoDup_cons _ _) Hnd)) as Hpc. apply Forall_cons in Hgood as [[[dp Hp] (dq & Hdq & Hk & Hr & Hi & _)] Hgood].
  change (dirs s = link_all ls (link_dir l ds)) in Hds.
  assert (Hl1 : link_dir l ds !! lk_child l = Some (link_child (lk_parent l) dp (lk_index l))).
  { unfold link_dir. rewrite lookup_alter_ne, lookup_alter_eq by congruence. by rewrite Hp. }
  assert (Hl2 : dirs s !! lk_parent l = Some (link_parent (lk_child l) dq (lk_slot l))).
  { rewrite Hds, link_all_other by done. unfold link_dir. rewrite lookup_alter_eq, lookup_alter_ne by congruence. by rewrite Hdq. }
  destruct (link_all_kept ls _ _ _ Hl1) as (d & Hd & _ & _ & _ & Hhost & _). rewrite <- Hds in Hd. destruct (Hhost Hpc) as [Hh1 Hh2].
  cbn [map undo_used]. unfold parent_of. rewrite (sm_bind_run _ _ s (lk_parent l, lk_index l) s).
  2:{ rewrite (sm_bind_run _ _ _ _ _ (get_dir_run s _ d Hd)). rewrite (sm_bind_lift _ (lk_parent l)) by (by rewrite Hh1). by rewrite Hh2. }
  cbn [fst snd]. rewrite (sm_bind_run _ _ _ _ _ (host_pde_clear_run s (lk_parent l) _ (lk_index l) (lk_slot l) ps Hl2 ltac:(cbn; lia) Hi
    ltac:(cbn; rewrite length_insert; by eapply lookup_lt_Some))).
  rewrite (IH _ (place_dir l ds) (lk_child l) p Hch Hnd).
  - done.
  - eapply Forall_impl; [exact Hgood|]. intros l'. apply good_link_place.
  - cbn. rewrite <- (link_unlink ds l dq Hdq Hk) by congruence. rewrite <- unlink_all_comm by done. rewrite <- Hds. unfold unlink_dir.
    by rewrite (alter_lookup_insert _ _ _ _ Hl2).
Qed.

Lemma chain_snoc q ls p l : chain q ls p -> lk_parent l = p -> chain q (ls ++ [l]) (lk_child l).
Proof. revert q. induction ls as [|l' ls IH]; intros q; cbn; [by intros -> ->|]. intros [-> Hc] Hl. auto. Qed.

Lemma link_all_snoc ls l ds : link_all (ls ++ [l]) ds = link_dir l (link_all ls ds).
Proof. unfold link_all. by rewrite foldl_snoc. Qed.

Lemma place_all_struct ls : forall ds rt P X R, tree_struct h F ds rt P X R -> (forall l, l ∈ ls -> lk_child l ∈ P) ->
  tree_struct h F (place_all ls ds) rt P X R.
Proof.
  induction ls as [|l ls IH]; intros ds rt P X R Hts Hin; [done|]. change (place_all (l :: ls) ds) with (place_all ls (place_dir l ds)).
  pose proof (Hin l ltac:(left)) as Hl. destruct (ts_private _ _ _ _ _ _ _ Hts _ Hl) as (d & Hd & _). apply IH.
  - unfold place_dir. rewrite (alter_lookup_insert _ _ d) by done. by apply struct_private_host.
  - intros l' Hl'. apply Hin. by right.
Qed.
End walk.

(** ** Virtual addresses *)
Section address.
Context (C : tree_config) (F : hw_format).
Notation h := (cfg_hal C).
Context `{Hhal : !hal_ok h F}.
Context (ps : Z).
Hypothesis Hps : supported h ps = true.

(** The index of [a] at a level of the tree. *)
Definition va_index (a dep : Z) : Z := (a / 2 ^ va_shift h ps (S (Z.to_nat dep))) mod 2 ^ hbits h dep ps.

Lemma page_size_pow : 2 ^ Z.log2 ps = ps /\ 0 < ps.
Proof.
  unfold supported, is_power_of_2 in Hps. rewrite !andb_true_iff, Z.ltb_lt, Z.eqb_eq in Hps. destruct Hps as [[? ?] _]. done.
Qed.

Lemma va_shift_le m n : (n <= m)%nat -> Z.of_nat m <= hdepth h ps + 1 -> va_shift h ps m <= va_shift h ps n.
Proof.
  intros Hle Hm. induction Hle as [|m Hle IH]; [lia|]. cbn [va_shift].
  destruct (ok_bits (F:=F) ps (Z.of_nat m) Hps ltac:(lia)) as [_ ?]. specialize (IH ltac:(lia)). lia.
Qed.

Lemma va_shift_low n : Z.of_nat n <= hdepth h ps + 1 -> Z.log2 ps <= va_shift h ps n.
Proof.
  intros Hn. destruct (ok_depth (F:=F) ps Hps) as [_ Hd]. rewrite <- (ok_shift (F:=F) ps Hps). apply va_shift_le; lia.
Qed.

Lemma entry_index_ok a sh bits : 0 <= sh -> 0 <= bits <= 16 -> entry_index_from_vaddr a sh bits = (a / 2 ^ sh) mod 2 ^ bits.
Proof.
  intros Hsh Hb. unfold entry_index_from_vaddr. rewrite Z.shiftr_div_pow2 by done.
  replace (2 ^ bits - 1) with (Z.ones bits) by (rewrite Z.ones_equiv; lia). rewrite Z.land_ones by lia.
  apply NvU32_small. pose proof (Z.mod_pos_bound (a / 2 ^ sh) (2 ^ bits) ltac:(apply Z.pow_pos_nonneg; lia)).
  assert (2 ^ bits <= 2 ^ 16) by (apply Z.pow_le_mono_r; lia). change (2 ^ 16) with 65536 in *. lia.
Qed.

Lemma va_index_bound a dep : 0 <= dep <= hdepth h ps -> 0 <= va_index a dep < 2 ^ hbits h dep ps /\ va_index a dep < 2 ^ 16.
Proof.
  intros Hd. destruct (ok_bits (F:=F) ps dep Hps Hd) as [_ Hb]. unfold va_index.
  pose proof (Z.mod_pos_bound (a / 2 ^ va_shift h ps (S (Z.to_nat dep))) (2 ^ hbits h dep ps) ltac:(apply Z.pow_pos_nonneg; lia)).
  assert (2 ^ hbits h dep ps <= 2 ^ 16) by (apply Z.pow_le_mono_r; lia). lia.
Qed.

(** A request for the entries of the pages of [start, start + size), which one table holds. *)
Record request_in_table (start size : Z) : Prop := {
  rt_start : 0 <= start;
  rt_size : 0 < size;
  rt_end : start + size <= 2 ^ 64;
  rt_aligned : start mod ps = 0 /\ size mod ps = 0;
  rt_table : start / 2 ^ va_shift h ps (Z.to_nat (hdepth h ps)) = (start + size - 1) / 2 ^ va_shift h ps (Z.to_nat (hdepth h ps))
}.

Lemma request_index_above start size dep : request_in_table start size -> 0 <= dep < hdepth h ps ->
  va_index (start + size - 1) dep = va_index start dep.
Proof.
  intros [_ _ _ _ Ht] Hd. unfold va_index.
  pose proof (va_shift_le (Z.to_nat (hdepth h ps)) (S (Z.to_nat dep)) ltac:(lia) ltac:(lia)) as Hm.
  pose proof (va_shift_low (Z.to_nat (hdepth h ps)) ltac:(lia)) as Hlow. pose proof (Z.log2_nonneg ps).
  replace (va_shift h ps (S (Z.to_nat dep))) with (va_shift h ps (Z.to_nat (hdepth h ps)) + (va_shift h ps (S (Z.to_nat dep)) - va_shift h ps (Z.to_nat (hdepth h ps)))) by lia.
  rewrite Z.pow_add_r by lia. rewrite <- !Z.div_div by (try apply Z.pow_nonzero; try apply Z.pow_pos_nonneg; lia). by rewrite Ht.
Qed.

Lemma request_index_leaf start size : request_in_table start size ->
  va_index (start + size - 1) (hdepth h ps) = va_index start (hdepth h ps) + size / ps - 1 /\ 0 < size / ps.
Proof.
  intros [Hst Hsz _ [Ha1 Ha2] Ht]. destruct page_size_pow as [Hpow Hpos]. destruct (ok_depth (F:=F) ps Hps) as [_ Hd].
  destruct (ok_bits (F:=F) ps (hdepth h ps) Hps ltac:(lia)) as [_ Hb]. unfold va_index. pose proof (ok_shift (F:=F) ps Hps) as Hsh.
  rewrite Hsh, Hpow. cbn [va_shift] in Hsh. rewrite Z2Nat.id in Hsh by lia.
  assert (Hsum : va_shift h ps (Z.to_nat (hdepth h ps)) = Z.log2 ps + hbits h (hdepth h ps) ps) by lia. rewrite Hsum in Ht.
  pose proof (Z.log2_nonneg ps). rewrite Z.pow_add_r, Hpow in Ht by lia.
  set (m := 2 ^ hbits h (hdepth h ps) ps) in *. assert (0 < m) by (apply Z.pow_pos_nonneg; lia).
  apply Z.mod_divide in Ha1 as [a ->]; [|lia]. apply Z.mod_divide in Ha2 as [n ->]; [|lia].
  assert (0 < n) by nia. rewrite Z.div_mul by lia. rewrite <- !Z.div_div in Ht by lia.
  replace ((a * ps + n * ps - 1) / ps) with (a + n - 1) in *.
  2:{ apply (Z.div_unique _ _ _ (ps - 1)); lia. }
  rewrite Z.div_mul in * by lia. split; [|lia].
  pose proof (Z.div_mod a m ltac:(lia)). pose proof (Z.div_mod (a + n - 1) m ltac:(lia)). nia.
Qed.
End address.

(** ** The walk *)
Section spec.
Context (C : tree_config) (F : hw_format).
Notation h := (cfg_hal C).
Context `{Hhal : !hal_ok h F}.

(** The directory at depth [n] on the way of the address [a]. *)
Fixpoint walk_dir (ds : dir_store) (rt : dir_ptr) (ps a : Z) (n : nat) : option dir_ptr :=
  match n with
  | O => Some rt
  | S m =>
      q ← walk_dir ds rt ps a m;
      dq ← ds !! q;
      k ← index_to_entry C (va_index C ps a (Z.of_nat m)) (Z.of_nat m) ps;
      mjoin (entry_at dq k)
  end.

Definition grows (ds ds' : dir_store) : Prop :=
  forall q dq, ds !! q = Some dq -> exists dq', ds' !! q = Some dq' /\
    forall k c, entries dq !! k = Some (Some c) -> entries dq' !! k = Some (Some c).

Lemma walk_dir_grows ds ds' rt ps a n p : grows ds ds' -> walk_dir ds rt ps a n = Some p -> walk_dir ds' rt ps a n = Some p.
Proof.
  intros Hg. revert p. induction n as [|n IH]; intros p; [done|]. cbn [walk_dir]. rewrite !bind_Some.
  intros (q & Hq & Hrest). exists q. split; [auto|]. revert Hrest. rewrite !bind_Some. intros (dq & Hdq & Hrest).
  destruct (Hg q dq Hdq) as (dq' & Hdq' & He). exists dq'. split; [done|]. revert Hrest. rewrite !bind_Some.
  intros (k & Hk & Hj). exists k. split; [done|]. unfold entry_at in *. destruct (entries dq !! Z.to_nat k) as [[c|]|] eqn:Ec; try done.
  by rewrite (He _ _ Ec).
Qed.

Lemma chain_end q ls p : chain q ls p -> (ls = [] /\ p = q) \/ p ∈ map lk_child ls.
Proof.
  revert q. induction ls as [|l ls IH]; intros q; cbn; [by left|]. intros [_ Hc]. right. rewrite elem_of_cons.
  destruct (IH _ Hc) as [[_ ->]|?]; auto.
Qed.

Lemma chain_end_parent q ls p : chain q ls p -> NoDup (q :: map lk_child ls) -> p ∉ map lk_parent ls.
Proof.
  revert q. induction ls as [|l ls IH]; intros q; [intros _ _; by apply not_elem_of_nil|]. cbn [chain map].
  intros [<- Hc] [Hq Hnd]%NoDup_cons. rewrite not_elem_of_cons. split; [|by eapply IH]. intros ->.
  rewrite not_elem_of_cons in Hq. destruct (chain_end _ _ _ Hc) as [[-> E]|E]; [by destruct Hq|tauto].
Qed.

Section go.
Context (s0 : page_tree) (rt : dir_ptr) (P0 : list dir_ptr) (R : list uvm_page_table_range_t).
Context (ps start size : Z) (cache : list (option dir_ptr)).
Hypothesis Hts0 : tree_struct h F (dirs s0) rt P0 [] R.
Hypothesis Hps : supported h ps = true.
Hypothesis Hreq : request_in_table C ps start size.
(** No count of references is near its end. *)
Hypothesis Hroom : forall p d, dirs s0 !! p = Some d -> ref_count d <= 2 ^ 31.
Hypothesis Hclen : length cache = Z.to_nat MAX_OPERATION_DEPTH.
Hypothesis Hcache : forall e c, cache !! e = Some (Some c) ->
  c ∈ P0 /\ exists dc, dirs s0 !! c = Some dc /\ depth dc = Z.of_nat e + 1 /\ shape h F dc ps.

(** The walk has come to [p] through the links [ls]. *)
Record walking (ls : list link) (p : dir_ptr) (d : uvm_page_directory_t) (P' : list dir_ptr) : Prop := {
  wk_struct : tree_struct h F (link_all ls (dirs s0)) rt P' [p] R;
  wk_private : P0 ≡ₚ map lk_child ls ++ P';
  wk_chain : exists q, chain q ls p /\ q ∉ P0;
  wk_good : Forall (good_link C (dirs s0) ps) ls;
  wk_path : walk_dir (link_all ls (dirs s0)) rt ps start (Z.to_nat (depth d)) = Some p;
  wk_dir : link_all ls (dirs s0) !! p = Some d;
  wk_depth : 0 <= depth d <= hdepth h ps;
  wk_leaf : depth d = hmax h -> shape h F d ps;
  wk_len : Z.of_nat (length ls) <= depth d;
  wk_above : forall l, l ∈ ls -> exists dc, dirs s0 !! lk_child l = Some dc /\ 0 < depth dc <= depth d /\ shape h F dc ps;
  wk_cached : forall l, l ∈ ls -> Some (lk_child l) ∈ cache
}.

(** A depth from which cached translations have to go: above all entries that change. *)
Definition first_depth (ls : list link) (inval : Z) : Prop :=
  (ls = [] /\ inval = -1) \/ (0 <= inval /\ forall l, l ∈ ls -> exists dc, dirs s0 !! lk_child l = Some dc /\ inval < depth dc).

Section at_dir.
Context (ls : list link) (p : dir_ptr) (d : uvm_page_directory_t) (P' : list dir_ptr).
Hypothesis W : walking ls p d P'.

Lemma walking_nodup : NoDup (map lk_child ls) /\ NoDup P' /\ (forall x, x ∈ map lk_child ls -> x ∉ P').
Proof.
  pose proof (ts_private_nodup _ _ _ _ _ _ _ Hts0) as Hnd. rewrite (wk_private _ _ _ _ W) in Hnd.
  apply NoDup_app in Hnd as (? & ? & ?). auto.
Qed.

Lemma walking_chain : exists q, chain q ls p /\ q ∉ P0 /\ NoDup (q :: map lk_child ls).
Proof.
  destruct (wk_chain _ _ _ _ W) as (q & Hc & Hq). exists q. split; [done|]. split; [done|]. destruct walking_nodup as (Hnd & _).
  apply NoDup_cons. split; [|done]. intros Hin. apply Hq. rewrite (wk_private _ _ _ _ W), elem_of_app. auto.
Qed.

Lemma walking_public : p ∉ P' /\ p ∉ map lk_parent ls.
Proof.
  destruct walking_chain as (q & Hc & Hq & Hnd). split; [|by eapply chain_end_parent].
  destruct (chain_end _ _ _ Hc) as [[-> ->]|Hin].
  - intros Hin. apply Hq. rewrite (wk_private _ _ _ _ W), elem_of_app. auto.
  - by apply walking_nodup.
Qed.

(** What is known of [p] before the walk. *)
Lemma walking_before : exists d0, dirs s0 !! p = Some d0 /\ depth d = depth d0 /\ entries d = entries d0 /\ ref_count d = ref_count d0.
Proof.
  destruct (link_all_lookup ls p (dirs s0) d (wk_dir _ _ _ _ W)) as (d0 & Hd0 & K1 & _ & _ & _ & K5).
  destruct (K5 (proj2 walking_public)). eauto.
Qed.

Lemma walking_refs : 0 <= ref_count d <= 2 ^ 31.
Proof.
  destruct walking_before as (d0 & Hd0 & _ & _ & ->). split; [|by eapply Hroom]. by apply (struct_refs_bound _ _ _ _ _ _ _ Hts0 p).
Qed.

(** A cached directory for the next level is still private. *)
Lemma walking_cached e c : depth d <= Z.of_nat e -> cache !! e = Some (Some c) ->
  c ∈ P' /\ exists dc, link_all ls (dirs s0) !! c = Some dc /\ dirs s0 !! c = Some dc /\ depth dc = Z.of_nat e + 1 /\ shape h F dc ps.
Proof.
  intros He Hc. destruct (Hcache e c Hc) as (HcP & dc & Hdc & Hdep & Hsh).
  assert (Hn : c ∉ map lk_child ls).
  { intros (l & -> & Hl)%list_elem_of_fmap. destruct (wk_above _ _ _ _ W l Hl) as (dc' & ? & ? & _). simplify_eq. lia. }
  rewrite (wk_private _ _ _ _ W), elem_of_app in HcP. destruct HcP as [?|HcP]; [done|]. split; [done|]. exists dc.
  rewrite link_all_other; [done|done|]. destruct walking_chain as (q & Hch & Hq & _). intros Hin.
  destruct (chain_parents _ _ _ Hch c Hin) as [->|?]; [|done]. apply Hq. rewrite (wk_private _ _ _ _ W), elem_of_app. auto.
Qed.

Hypothesis Hlt : depth d < hdepth h ps.
Notation i := (va_index C ps start (depth d)).
Notation k := (hper h (depth d) * i + hoffset h (depth d) ps).

Lemma walking_slot : index_to_entry C i (depth d) ps = Some k /\ k / hper h (depth d) = i /\ k mod hper h (depth d) = hoffset h (depth d) ps /\ 0 <= k /\
  (Z.to_nat k < length (entries d))%nat /\ half_of h (depth d) (Z.of_nat (Z.to_nat k) mod hper h (depth d)) ps /\ 0 <= i < 2 ^ hbits h (depth d) UVM_PAGE_SIZE_AGNOSTIC.
Proof.
  pose proof (wk_depth _ _ _ _ W) as Hd. destruct (va_index_bound C F ps Hps start (depth d) ltac:(lia)) as [Hi1 Hi2].
  destruct (index_to_entry_ok C F ps (depth d) i Hps ltac:(lia) ltac:(lia)) as (K1 & K2 & K3 & K4).
  destruct (ts_shape _ _ _ _ _ _ _ (wk_struct _ _ _ _ W) p d (wk_dir _ _ _ _ W)) as [ps' Hs].
  destruct (shape_sizes _ _ _ _ Hs) as (_ & _ & _ & Hper). destruct (ok_depth (F:=F) ps Hps) as [_ Hmax].
  destruct (ok_offset (F:=F) ps (depth d) Hps ltac:(lia)) as [_ Hoff]. pose proof (sh_entries _ _ _ _ Hs) as He. unfold entry_total in He.
  rewrite (proj2 (Z.eqb_neq (depth d) (hmax h))) in He by lia.
  destruct (shape_bits_any _ _ _ _ Hs ltac:(lia)) as [Hb _]. rewrite <- (shape_bits_ps _ _ _ _ ps Hs ltac:(lia) Hps ltac:(lia)) in Hb. rewrite Hb in He |- *.
  split_and!; try done; try lia; [nia|]. rewrite Z2Nat.id by lia. rewrite K3. by split_and!.
Qed.

Lemma walk_dir_step ls' c d' : walk_dir (link_all ls' (dirs s0)) rt ps start (Z.to_nat (depth d)) = Some p ->
  link_all ls' (dirs s0) !! p = Some d' -> entries d' !! Z.to_nat k = Some (Some c) ->
  walk_dir (link_all ls' (dirs s0)) rt ps start (Z.to_nat (depth d + 1)) = Some c.
Proof.
  intros Hw Hd' Hc. pose proof (wk_depth _ _ _ _ W). replace (Z.to_nat (depth d + 1)) with (S (Z.to_nat (depth d))) by lia.
  cbn [walk_dir]. rewrite Hw. cbn [mbind option_bind]. rewrite Hd'. cbn [mbind option_bind]. rewrite Z2Nat.id by lia.
  rewrite (proj1 walking_slot). cbn [mbind option_bind]. unfold entry_at. by rewrite Hc.
Qed.

Lemma walking_descend c : entries d !! Z.to_nat k = Some (Some c) -> exists dc, walking ls c dc P' /\ depth dc = depth d + 1.
Proof.
  intros Hc. destruct walking_slot as (K1 & K2 & K3 & K4 & K5 & K6 & K7). pose proof (wk_depth _ _ _ _ W) as Hd.
  pose proof (wk_struct _ _ _ _ W) as Hts. destruct (ts_child _ _ _ _ _ _ _ Hts p d _ c (wk_dir _ _ _ _ W) Hc) as (Hn & Hr & dc & Hdc & [L1 L2 L3 (ps' & L4 & L5)]).
  exists dc. split; [|done]. constructor; try apply W; try done; rewrite ?L2.
  - apply (struct_used _ _ _ _ _ _ _ Hts p [c]); [intros y ?%list_elem_of_singleton; auto|].
    intros d' Hd'. rewrite (wk_dir _ _ _ _ W) in Hd'. injection Hd' as <-. destruct (ts_refs _ _ _ _ _ _ _ Hts p d (wk_dir _ _ _ _ W)) as [-> _].
    pose proof (live_entries_pos d _ c Hc). destruct (struct_refs_bound _ _ _ _ _ _ _ Hts p d (wk_dir _ _ _ _ W)). lia.
  - destruct walking_chain as (q & Hch & Hq & _). destruct (chain_end _ _ _ Hch) as [[Hls ->]|Hin].
    + exists c. rewrite Hls. split; [done|]. by rewrite (wk_private _ _ _ _ W), Hls.
    + exfalso. destruct walking_before as (d0 & Hd0 & _ & He & _). rewrite He in Hc.
      assert (p ∈ P0) as HpP by (rewrite (wk_private _ _ _ _ W), elem_of_app; auto).
      pose proof (struct_private_empty _ _ _ _ _ _ _ Hts0 p d0 HpP Hd0) as H0. by pose proof (live_entries_zero d0 H0 _ _ Hc).
  - eapply walk_dir_step; [apply W|apply W|done].
  - lia.
  - intros Hm. rewrite Z2Nat.id, K3 in L4 by lia. assert (Hd1 : depth d = hmax h - 1) by lia. rewrite Z2Nat.id, K3, Hd1 in K6 by lia. rewrite Hd1 in L4.
    by rewrite <- (ok_leaf (F:=F) ps' ps L4 K6).
  - pose proof (wk_len _ _ _ _ W). lia.
  - intros l Hl. destruct (wk_above _ _ _ _ W l Hl) as (d' & ? & ? & ?). exists d'. split_and!; try done; lia.
Qed.

Lemma link_dir_grows ls' l : (exists dq, link_all ls' (dirs s0) !! lk_parent l = Some dq /\ entries dq !! lk_slot l = Some None) ->
  grows (link_all ls' (dirs s0)) (link_dir l (link_all ls' (dirs s0))).
Proof.
  intros (dq & Hdq & Hk) x dx Hx. unfold link_dir. destruct (decide (lk_parent l = x)) as [<-|Hne].
  - rewrite lookup_alter_eq. destruct (decide (lk_child l = lk_parent l)) as [E|Hne].
    + rewrite E, lookup_alter_eq, Hx. eexists. split; [done|]. cbn. intros j c Hj. simplify_eq. rewrite list_lookup_insert_ne; [done|]. intros <-. simplify_eq.
    + rewrite lookup_alter_ne, Hx by done. eexists. split; [done|]. cbn. intros j c Hj. simplify_eq. rewrite list_lookup_insert_ne; [done|]. intros <-. simplify_eq.
  - rewrite lookup_alter_ne by done. destruct (decide (lk_child l = x)) as [<-|Hne'].
    + rewrite lookup_alter_eq, Hx. eexists. split; [done|]. done.
    + rewrite lookup_alter_ne by done. eauto.
Qed.

Lemma walking_link c : entries d !! Z.to_nat k = Some None -> cache !! Z.to_nat (depth d) = Some (Some c) ->
  exists dp, link_all ls (dirs s0) !! c = Some dp /\ c <> p /\
    let l := mk_link c p (Z.to_nat k) i in
    link_all (ls ++ [l]) (dirs s0) = linked (link_all ls (dirs s0)) c p dp d (Z.to_nat k) i /\
    exists P'', walking (ls ++ [l]) c (link_child p dp i) P'' /\ depth (link_child p dp i) = depth d + 1.
Proof.
  intros He Hc. destruct walking_slot as (K1 & K2 & K3 & K4 & K5 & K6 & K7). pose proof (wk_depth _ _ _ _ W) as Hd.
  destruct (walking_cached (Z.to_nat (depth d)) c ltac:(lia) Hc) as (HcP & dp & Hdp & Hdp0 & Hdep & Hsh). rewrite Z2Nat.id in Hdep by lia.
  destruct walking_public as [HpP Hpp]. assert (Hne : c <> p) by (intros ->; done). exists dp. split; [done|]. split; [done|].
  set (l := mk_link c p (Z.to_nat k) i). cbn zeta.
  assert (Hlinked : link_all (ls ++ [l]) (dirs s0) = linked (link_all ls (dirs s0)) c p dp d (Z.to_nat k) i).
  { rewrite link_all_snoc. by apply (link_dir_linked _ l dp d Hdp (wk_dir _ _ _ _ W)). }
  split; [done|]. apply elem_of_Permutation in HcP as HP. destruct HP as [P'' HP]. exists P''. split; [|done].
  pose proof walking_refs as Hrefs. destruct walking_before as (d0 & Hd0 & Hdd & Hee & Hrr).
  assert (Hg : good_link C (dirs s0) ps l).
  { unfold l. constructor; cbn [lk_child lk_parent lk_slot lk_index]; [by exists dp|]. exists d0. rewrite <- Hdd, <- Hee, <- Hrr. rewrite Z2Nat.id by lia. split_and!; try done; lia. }
  constructor.
  - rewrite Hlinked. apply (struct_link _ _ _ _ _ _ _ (wk_struct _ _ _ _ W) c p dp d (Z.to_nat k) i ps P'' HP Hdp (wk_dir _ _ _ _ W) HpP He); try done.
    + by rewrite Z2Nat.id, K2 by lia.
    + lia.
    + by apply list_elem_of_singleton.
    + intros x ?%list_elem_of_singleton. auto.
  - rewrite (wk_private _ _ _ _ W), HP, map_app, <- app_assoc. done.
  - destruct (wk_chain _ _ _ _ W) as (q & Hch & Hq). exists q. split; [|done]. by apply (chain_snoc q ls p l).
  - apply Forall_app. split; [apply W|]. by constructor.
  - cbn [depth link_child]. change (depth (link_child p dp i)) with (depth dp). rewrite Hdep. eapply walk_dir_step.
    + rewrite link_all_snoc. eapply walk_dir_grows; [|apply W]. apply link_dir_grows. exists d. split; [apply W|done].
    + rewrite Hlinked. unfold linked. by rewrite lookup_insert_eq.
    + cbn. by apply list_lookup_insert_eq.
  - rewrite Hlinked. unfold linked. by rewrite lookup_insert_ne, lookup_insert_eq by done.
  - cbn. lia.
  - intros _. destruct Hsh. by constructor.
  - rewrite length_app. cbn. pose proof (wk_len _ _ _ _ W). lia.
  - intros l' [Hl'| ->%list_elem_of_singleton]%elem_of_app.
    + destruct (wk_above _ _ _ _ W l' Hl') as (d' & ? & ? & ?). exists d'. cbn. split_and!; try done; lia.
    + exists dp. cbn. split_and!; try done; lia.
  - intros l' [Hl'| ->%list_elem_of_singleton]%elem_of_app; [by apply W|]. by eapply list_elem_of_lookup_2.
Qed.
End at_dir.

Lemma first_depth_snoc ls l inval dep dc : first_depth ls inval -> inval < dep -> 0 <= dep -> dirs s0 !! lk_child l = Some dc -> depth dc = dep + 1 ->
  first_depth (ls ++ [l]) (if inval =? -1 then dep else inval).
Proof.
  intros [[-> ->]|(H0 & H4)] Hlt Hd Hl Hdc; right.
  - cbn. split; [done|]. intros l' ->%list_elem_of_singleton. exists dc. split; [done|lia].
  - replace (inval =? -1) with false by lia. split; [done|].
    intros l' [Hl'| ->%list_elem_of_singleton]%elem_of_app; [auto|]. exists dc. split; [done|lia].
Qed.

(** The walk ended at the table [p] and took the range [r]. *)
Record walk_found (s : page_tree) (r : uvm_page_table_range_t) (ls : list link) (P' : list dir_ptr) (p : dir_ptr) (d : uvm_page_directory_t) : Prop := {
  wf_walking : walking ls p d P';
  wf_depth : depth d = hdepth h ps;
  wf_range : r = mk_pt_range (Some p) (va_index C ps start (hdepth h ps)) (size / ps) ps;
  wf_state : s = s0 <| dirs := <[p := d <| ref_count := ref_count d + size / ps |>]> (link_all ls (dirs s0)) |>;
  wf_struct : tree_struct h F (dirs s) rt P' [] (r :: R)
}.

(** The walk stopped at a directory of depth [dep] and left the tree as it was. *)
Definition walk_missing (s : page_tree) (dep : Z) : Prop :=
  0 <= dep < hdepth h ps /\ cache !! Z.to_nat dep = Some None /\
  exists ls, (forall l, l ∈ ls -> lk_child l ∈ P0) /\ s = s0 <| dirs := place_all ls (dirs s0) |>.

Definition walk_post (w : walk_result) (s : page_tree) : Prop :=
  match w with
  | WalkMissing dep => walk_missing s dep
  | WalkFound r used inval => exists ls P' p d, walk_found s r ls P' p d /\ used = map lk_child ls /\ first_depth ls inval
  end.

Lemma walking_table ls p d P' : walking ls p d P' -> depth d = hdepth h ps ->
  let r := mk_pt_range (Some p) (va_index C ps start (hdepth h ps)) (size / ps) ps in
  let ds := <[p := d <| ref_count := ref_count d + size / ps |>]> (link_all ls (dirs s0)) in
  0 < size / ps <= 2 ^ 16 /\ tree_struct h F ds rt P' [] (r :: R).
Proof.
  intros W Hd r ds. destruct (ok_depth (F:=F) ps Hps) as [_ Hmax]. destruct (request_index_leaf C F ps Hps start size Hreq) as [Hidx Hn].
  assert (Hleaf : 0 <= hdepth h ps <= hdepth h ps) by lia.
  destruct (va_index_bound C F ps Hps start (hdepth h ps) Hleaf) as [B1 B2], (va_index_bound C F ps Hps (start + size - 1) (hdepth h ps) Hleaf) as [B3 B4].
  split; [lia|]. pose proof (walking_refs ls p d P' W) as Hrefs.
  apply (struct_set_refs _ _ _ _ _ _ _ (wk_struct _ _ _ _ W) p d (size / ps) [] (r :: R) (wk_dir _ _ _ _ W) (proj1 (walking_public _ _ _ _ W))).
  - intros q. rewrite range_refs_cons. unfold held, r. cbn [table entry_count]. destruct (decide (q = p)) as [->|Hne].
    + rewrite !bool_decide_eq_true_2 by done. lia.
    + rewrite !bool_decide_eq_false_2 by congruence. lia.
  - intros r' [->|Hr']%elem_of_cons; [right|auto]. split; [done|]. constructor; cbn; try done.
    + apply W.
    + rewrite Hd. lia.
  - lia.
  - intros _ _. lia.
  - intros x ?%list_elem_of_singleton. auto.
Qed.

Lemma walk_spec fuel : forall ls p d P' sh inval, walking ls p d P' -> hdepth h ps - depth d < Z.of_nat fuel ->
  sh = va_shift h ps (Z.to_nat (depth d)) -> first_depth ls inval -> inval < depth d ->
  spec true (get_ptes_walk C fuel ps start size sh p (map lk_child ls) inval cache) walk_post (s0 <| dirs := link_all ls (dirs s0) |>).
Proof.
  induction fuel as [|fuel IH]; intros ls p d P' sh inval W Hfuel Hsh Hfirst Hinv; pose proof (wk_depth _ _ _ _ W) as Hd; [lia|].
  cbn [get_ptes_walk]. eapply spec_bind_dir; [apply W|]. destruct (ok_bits (F:=F) ps (depth d) Hps Hd) as [Hbits Hb].
  eapply spec_bind_lift; [exact Hbits|]. cbn zeta.
  assert (Hsh1 : sh - hbits h (depth d) ps = va_shift h ps (S (Z.to_nat (depth d)))) by (cbn [va_shift]; rewrite Z2Nat.id; lia).
  rewrite Hsh1. pose proof (va_shift_low C F ps Hps (S (Z.to_nat (depth d))) ltac:(lia)) as Hlow. pose proof (Z.log2_nonneg ps).
  pose proof (rt_end _ _ _ _ Hreq). pose proof (rt_size _ _ _ _ Hreq). pose proof (rt_start _ _ _ _ Hreq).
  rewrite !entry_index_ok by lia. rewrite NvU64_small by lia. fold (va_index C ps start (depth d)). fold (va_index C ps (start + size - 1) (depth d)).
  pose proof (va_index_bound C F ps Hps start (depth d) Hd) as [B1 B2]. pose proof (va_index_bound C F ps Hps (start + size - 1) (depth d) Hd) as [B3 B4].
  destruct (request_index_leaf C F ps Hps start size Hreq) as [Hidx Hn].
  destruct (index_to_entry_ok C F ps (depth d) (va_index C ps start (depth d)) Hps Hd ltac:(lia)) as (K1 & _).
  destruct (decide (depth d = hdepth h ps)) as [Heq|Hne].
  - apply spec_bind_assert; [rewrite Heq in *; lia|]. eapply spec_bind_lift; [exact K1|].
    eapply spec_bind_lift; [by apply (ok_depth (F:=F))|]. rewrite Heq, Z.eqb_refl. destruct (walking_table ls p d P' W Heq) as [Hcount Hts].
    pose proof (walking_refs ls p d P' W). eapply spec_bind_run.
    { unfold page_table_range_init. erewrite sm_bind_run by (apply get_dir_run, W). rewrite (sm_bind_run _ _ _ _ _ (set_dir_run _ _ _)). reflexivity. }
    rewrite Hidx. replace (1 + (va_index C ps start (hdepth h ps) + size / ps - 1) - va_index C ps start (hdepth h ps)) with (size / ps) by lia.
    cbn [entry_count]. rewrite !NvU32_small by lia. apply spec_ret. exists ls, P', p, d. split; [|done]. constructor; try done.
  - apply spec_bind_assert; [rewrite (request_index_above C F ps Hps start size (depth d) Hreq) by lia; lia|].
    eapply spec_bind_lift; [exact K1|]. eapply spec_bind_lift; [by apply (ok_depth (F:=F))|]. rewrite (proj2 (Z.eqb_neq _ _) Hne).
    apply spec_bind_assert; [rewrite (request_index_above C F ps Hps start size (depth d) Hreq) by lia; lia|].
    destruct (walking_slot ls p d P' W ltac:(lia)) as (_ & _ & _ & Hk0 & Hklen & _).
    destruct (lookup_lt_is_Some_2 _ _ Hklen) as [o Ho]. eapply spec_bind_lift; [exact Ho|]. destruct o as [c|].
    + destruct (walking_descend ls p d P' W ltac:(lia) c Ho) as (dc & W' & Hdc). apply (IH ls c dc P'); try done; [lia| |lia].
      rewrite Hdc. by replace (Z.to_nat (depth d + 1)) with (S (Z.to_nat (depth d))) by lia.
    + destruct (ok_max (F:=F)) as [_ Hmax]. destruct (ok_depth (F:=F) ps Hps) as [_ Hdm].
      destruct (lookup_lt_is_Some_2 cache (Z.to_nat (depth d))) as [o Hc]; [rewrite Hclen; unfold MAX_OPERATION_DEPTH; lia|].
      eapply spec_bind_lift; [exact Hc|]. destruct o as [c|].
      * destruct (walking_link ls p d P' W ltac:(lia) c Ho Hc) as (dp & Hdp & Hcp & Hl & P'' & W' & Hdep). cbn zeta in Hl.
        pose proof (walking_refs ls p d P' W). unfold spec. erewrite link_run; [|exact Hdp|apply W|done|lia|exact Hklen].
        match goal with |- context [linked ?a _ _ _ _ _ _] => change a with (link_all ls (dirs s0)) end. rewrite <- Hl.
        match goal with |- match ?m ?s with _ => _ end => change (spec true m walk_post s) end.
        apply spec_bind_assert; [rewrite length_map; pose proof (wk_len _ _ _ _ W); unfold MAX_OPERATION_DEPTH; lia|].
        replace (map lk_child ls ++ [c]) with (map lk_child (ls ++ [mk_link c p (Z.to_nat (hper h (depth d) * va_index C ps start (depth d) + hoffset h (depth d) ps)) (va_index C ps start (depth d))])) by (by rewrite map_app).
        apply (IH _ c (link_child p dp (va_index C ps start (depth d))) P'' _ _ W'); [lia|rewrite Hdep; by replace (Z.to_nat (depth d + 1)) with (S (Z.to_nat (depth d))) by lia| |rewrite Hdep; destruct (inval =? -1); lia].
        destruct (walking_cached _ _ _ _ W (Z.to_nat (depth d)) c ltac:(lia) Hc) as (_ & dc & _ & Hdc & Hdcd & _).
        apply (first_depth_snoc ls _ inval (depth d) dc); [done|lia|lia|done|lia].
      * destruct (walking_chain _ _ _ _ W) as (q & Hch & _ & Hnd). eapply spec_bind_run.
        { by apply (undo_run C ls ps _ (dirs s0) q p Hch Hnd (wk_good _ _ _ _ W)). }
        apply spec_ret. split; [lia|]. split; [done|]. exists ls. split; [|done]. intros l Hl. rewrite (wk_private _ _ _ _ W), elem_of_app. left.
        by apply list_elem_of_fmap_2.
Qed.

(** The walk from the root. *)
Lemma walking_root d : dirs s0 !! rt = Some d -> depth d = 0 -> walking [] rt d P0.
Proof.
  intros Hd H0. destruct (ok_depth (F:=F) ps Hps) as [_ Hdm]. destruct (ts_root _ _ _ _ _ _ _ Hts0) as (d' & ? & _ & _ & Hn).
  constructor; cbn; try done; rewrite ?H0; try lia; try done.
  - eapply struct_weaken; try done. intros x ?%elem_of_nil. done.
  - by exists rt.
  - intros l ?%elem_of_nil. done.
  - intros l ?%elem_of_nil. done.
Qed.

Lemma walk_root_spec : spec true (get_ptes_walk C (S (Z.to_nat MAX_OPERATION_DEPTH)) ps start size (num_va_bits h) rt [] (-1) cache) walk_post s0.
Proof.
  destruct (ts_root _ _ _ _ _ _ _ Hts0) as (d & Hd & H0 & _). destruct (ok_depth (F:=F) ps Hps) as [_ Hdm]. destruct (ok_max (F:=F)) as [_ Hmax].
  pose proof (walk_spec (S (Z.to_nat MAX_OPERATION_DEPTH)) [] rt d P0 (num_va_bits h) (-1) (walking_root d Hd H0)) as Hw. cbn [link_all foldl map] in Hw.
  replace (s0 <| dirs := dirs s0 |>) with s0 in Hw by (by destruct s0). apply Hw; [unfold MAX_OPERATION_DEPTH; lia|by rewrite H0|by left|lia].
Qed.
End go.
End spec.

Arguments wf_walking {C F s0 rt P0 R ps start size cache s r ls P' p d}.
Arguments wf_depth {C F s0 rt P0 R ps start size cache s r ls P' p d}.
Arguments wf_range {C F s0 rt P0 R ps start size cache s r ls P' p d}.
Arguments wf_state {C F s0 rt P0 R ps start size cache s r ls P' p d}.
Arguments wf_struct {C F s0 rt P0 R ps start size cache s r ls P' p d}.
Arguments wk_struct {C F s0 rt P0 R ps start cache ls p d P'}.
Arguments wk_private {C F s0 rt P0 R ps start cache ls p d P'}.
Arguments wk_chain {C F s0 rt P0 R ps start cache ls p d P'}.
Arguments wk_good {C F s0 rt P0 R ps start cache ls p d P'}.
Arguments wk_path {C F s0 rt P0 R ps start cache ls p d P'}.
Arguments wk_dir {C F s0 rt P0 R ps start cache ls p d P'}.
Arguments wk_depth {C F s0 rt P0 R ps start cache ls p d P'}.
Arguments wk_leaf {C F s0 rt P0 R ps start cache ls p d P'}.
Arguments wk_len {C F s0 rt P0 R ps start cache ls p d P'}.
Arguments wk_above {C F s0 rt P0 R ps start cache ls p d P'}.
Arguments wk_cached {C F s0 rt P0 R ps start cache ls p d P'}.
