(* ===== verification/PageTreeMem.v ===== *)
(** * Page trees in memory

    The contents of page tables as the MMU reads them.  [tables_match] says that the
    entries of the tables in memory are the links between the directories of the
    tree; the lemmas of this file say how initialising a table and writing an entry
    re-establish it after a change of the directories. *)

From S2P Require Import Prelude PageMask StateMonad Push PmmChunks MmuTypes MmuHopper MmuPush PteBatch TlbBatch PageTree PageTreeInv PageTreeRun PageTreeWalk.

(** ** Memory *)
Definition mem_after (M : memory) (ws : list word_write) : memory := foldl (fun M w => <[w.1 := w.2]> M) M ws.
Definition read_words (M : memory) (a : uvm_gpu_phys_address_t) (n : nat) : option (list Z) :=
  mapM (fun j => M !! addr_add a (8 * Z.of_nat j)) (seq 0 n).

Lemma mem_after_app M l1 l2 : mem_after M (l1 ++ l2) = mem_after (mem_after M l1) l2.
Proof. apply foldl_app. Qed.

Lemma mem_after_other M ws b : (forall w, w ∈ ws -> w.1 <> b) -> mem_after M ws !! b = M !! b.
Proof.
  revert M. induction ws as [|w ws IH]; intros M H; [done|]. cbn. change (foldl _ ?x ws) with (mem_after x ws).
  rewrite IH by (intros; apply H; by right). rewrite lookup_insert_ne; [done|]. apply H. left.
Qed.

(** The words from [a] on, [n] bytes, are those of [b] on, [m] bytes, or apart from them. *)
Definition apart (a : uvm_gpu_phys_address_t) (n : Z) (b : uvm_gpu_phys_address_t) (m : Z) : Prop :=
  aperture a <> aperture b \/ address a + n <= address b \/ address b + m <= address a.

Lemma words_at_address a ws w : w ∈ words_at a ws -> exists j, 0 <= j < Z.of_nat (length ws) /\ w.1 = addr_add a (8 * j).
Proof.
  intros [j Hj]%list_elem_of_lookup. rewrite words_at_lookup in Hj. destruct (ws !! j) eqn:E; [|done]. cbn in Hj. injection Hj as <-.
  exists (Z.of_nat j). split; [|done]. apply lookup_lt_Some in E. lia.
Qed.

Lemma read_words_apart M a ws b n : apart a (8 * Z.of_nat (length ws)) b (8 * Z.of_nat n) ->
  read_words (mem_after M (words_at a ws)) b n = read_words M b n.
Proof.
  intros Hap. unfold read_words. apply Forall_mapM_ext, Forall_forall. intros j Hj%elem_of_seq. apply mem_after_other.
  intros w Hw Heq. destruct (words_at_address a ws w Hw) as (i & Hi & E). rewrite E in Heq.
  unfold addr_add in Heq. injection Heq as Ha He. unfold apart in Hap. destruct Hap as [?|[?|?]]; [done|lia|lia].
Qed.

Lemma mem_after_words M a ws j w : ws !! j = Some w -> mem_after M (words_at a ws) !! addr_add a (8 * Z.of_nat j) = Some w.
Proof.
  revert M a j. induction ws as [|x ws IH]; intros M a j Hj; [done|]. cbn [words_at mem_after foldl].
  change (foldl _ ?x _) with (mem_after x (words_at (addr_add a 8) ws)). destruct j as [|j]; cbn in Hj.
  - injection Hj as ->. rewrite mem_after_other; [by rewrite addr_add_0, lookup_insert_eq|].
    intros y Hy Heq. destruct (words_at_address _ _ _ Hy) as (i & Hi & E). rewrite E, addr_add_add in Heq. unfold addr_add in Heq. injection Heq. lia.
  - pose proof (IH (<[(a, x).1 := (a, x).2]> M) (addr_add a 8) j Hj) as H. rewrite addr_add_add in H.
    by replace (8 + 8 * Z.of_nat j) with (8 * Z.of_nat (S j)) in H by lia.
Qed.

Lemma read_words_written M a ws i n : (i + n <= length ws)%nat ->
  read_words (mem_after M (words_at a ws)) (addr_add a (8 * Z.of_nat i)) n = Some (take n (drop i ws)).
Proof.
  intros Hle. unfold read_words. apply mapM_Some. apply Forall2_same_length_lookup. split.
  - rewrite length_seq, length_take, length_drop. lia.
  - intros j x y Hx Hy. apply lookup_seq in Hx as [-> Hj]. rewrite lookup_take_Some, lookup_drop in Hy. destruct Hy as [Hy _].
    rewrite addr_add_add. replace (8 * Z.of_nat i + 8 * Z.of_nat (0 + j)) with (8 * Z.of_nat (i + j)) by lia. by apply mem_after_words.
Qed.

Section mem.
Context (C : tree_config) (F : hw_format).
Notation h := (cfg_hal C).
Context `{Hhal : !hal_ok h F}.

(** ** Entries in memory *)
Definition entry_address (d : uvm_page_directory_t) (i : Z) : uvm_gpu_phys_address_t :=
  addr_add (pa_addr (phys_alloc d)) (hsize h (depth d) * i).
Definition hw_entry_at (M : memory) (d : uvm_page_directory_t) (i : Z) : option hw_entry :=
  ws ← read_words M (entry_address d i) (entry_words C d); Some (hw_decode F (depth d) ws).

(** The entries of the tables are the links of the directories, but for those of
    private directories and those in [W]. *)
Definition tables_match (M : memory) (ds : dir_store) (P : list dir_ptr) (W : dir_ptr -> Z -> Prop) : Prop :=
  forall p d i, ds !! p = Some d -> p ∉ P -> depth d < hmax h -> 0 <= i < 2 ^ hbits h (depth d) UVM_PAGE_SIZE_AGNOSTIC -> ~ W p i ->
    hw_entry_at M d i = Some (HwPde (addrs_of (children C ds d i))).

Definition in_table (d : uvm_page_directory_t) (a : uvm_gpu_phys_address_t) (n : Z) : Prop :=
  aperture a = aperture (pa_addr (phys_alloc d)) /\ address (pa_addr (phys_alloc d)) <= address a /\
  address a + n <= address (pa_addr (phys_alloc d)) + pa_size (phys_alloc d).

Lemma apart_tables d1 d2 a n b m : region_disjoint (phys_alloc d1) (phys_alloc d2) -> in_table d1 a n -> in_table d2 b m -> apart a n b m.
Proof. intros Hd (A1 & A2 & A3) (B1 & B2 & B3). unfold apart. rewrite A1, B1. destruct Hd as [?|[?|?]]; [auto|right; left; lia|right; right; lia]. Qed.

Lemma entry_words_size d ps : shape h F d ps -> 8 * Z.of_nat (entry_words C d) = hsize h (depth d) /\ (0 < entry_words C d)%nat.
Proof.
  intros Hs. destruct (shape_sizes _ _ _ _ Hs) as (_ & Hsz & _ & _). unfold entry_words.
  destruct Hsz as [-> | ->]; [change (8 / 8) with 1|change (16 / 8) with 2]; lia.
Qed.

Lemma entry_in_table d ps i : shape h F d ps -> depth d < hmax h -> 0 <= i < 2 ^ hbits h (depth d) UVM_PAGE_SIZE_AGNOSTIC ->
  in_table d (entry_address d i) (8 * Z.of_nat (entry_words C d)).
Proof.
  intros Hs Hlt Hi. destruct (entry_words_size d ps Hs) as [-> _]. destruct (shape_alloc _ _ _ _ Hs) as [Hal _].
  destruct (shape_bits_any _ _ _ _ Hs Hlt) as [Hb _]. rewrite Hb in Hi. destruct (shape_sizes _ _ _ _ Hs) as (_ & Hsz & _ & _).
  unfold in_table, entry_address, addr_add. cbn [aperture address]. split; [done|]. nia.
Qed.

Lemma entry_at_apart M a ws d i : apart a (8 * Z.of_nat (length ws)) (entry_address d i) (8 * Z.of_nat (entry_words C d)) ->
  hw_entry_at (mem_after M (words_at a ws)) d i = hw_entry_at M d i.
Proof. intros Hap. unfold hw_entry_at. by rewrite read_words_apart. Qed.

Lemma children_length ds d i : length (children C ds d i) = Z.to_nat (hper h (depth d)).
Proof. unfold children. by rewrite length_map, length_seq. Qed.

Lemma addrs_of_none n : addrs_of (replicate n None) = replicate n None.
Proof. induction n as [|n IH]; [done|]. cbn. f_equal. exact IH. Qed.

Section change.
Context (M : memory) (ds : dir_store) (rt : dir_ptr) (P0 X : list dir_ptr) (R : list uvm_page_table_range_t).
Hypothesis Hts : tree_struct h F ds rt P0 X R.
Context (p : dir_ptr) (d : uvm_page_directory_t) (ps : Z) (P : list dir_ptr).
Hypothesis Hp : ds !! p = Some d.
Hypothesis Hs : shape h F d ps.

Lemma match_init W ws : blank C F d ws -> 8 * Z.of_nat (length ws) <= pa_size (phys_alloc d) ->
  (forall i, 0 <= i -> ~ W p i -> children C ds d i = replicate (Z.to_nat (hper h (depth d))) None) -> tables_match M ds (p :: P) W ->
  tables_match (mem_after M (words_at (pa_addr (phys_alloc d)) ws)) ds P W.
Proof.
  intros Hb Hlen Hnone Hm q dq i Hq HqP Hlt Hi HW. destruct (decide (q = p)) as [->|Hne].
  - simplify_eq. destruct (Hb Hlt i Hi) as [Hsl Hdec]. destruct (entry_words_size d ps Hs) as [Hw Hw0].
    assert (Hfit : (entry_words C d * Z.to_nat i + entry_words C d <= length ws)%nat).
    { unfold slice in Hsl. rewrite length_take, length_drop in Hsl. lia. }
    unfold hw_entry_at. replace (entry_address d i) with (addr_add (pa_addr (phys_alloc d)) (8 * Z.of_nat (entry_words C d * Z.to_nat i))).
    2:{ unfold entry_address. f_equal. nia. }
    rewrite read_words_written by done. cbn [mbind option_bind]. unfold slice in Hdec. rewrite Hdec, (Hnone i ltac:(lia) HW).
    destruct (shape_sizes _ _ _ _ Hs) as (_ & _ & _ & Hper). do 3 f_equal.
    destruct (decide (hper h (depth d) = 1)) as [->|]; [done|]. replace (hper h (depth d)) with 2 by lia. done.
  - destruct (ts_shape _ _ _ _ _ _ _ Hts q dq Hq) as [ps' Hs']. rewrite entry_at_apart.
    + apply (Hm q); try done. by rewrite not_elem_of_cons.
    + eapply apart_tables; [|split; [done|]; split; [lia|]; lia|by eapply entry_in_table]. by apply (ts_disjoint _ _ _ _ _ _ _ Hts p q).
Qed.

Lemma match_write W i ws : depth d < hmax h -> 0 <= i < 2 ^ hbits h (depth d) UVM_PAGE_SIZE_AGNOSTIC ->
  reads_as C F d ws (children C ds d i) -> tables_match M ds P (fun q j => W q j \/ (q = p /\ j = i)) ->
  tables_match (mem_after M (words_at (entry_address d i) ws)) ds P W.
Proof.
  intros Hlt Hi [Hlen Hdec] Hm q dq j Hq HqP Hlt' Hj HW. destruct (entry_words_size d ps Hs) as [Hw Hw0].
  assert (Hl : length ws = entry_words C d) by lia. destruct (decide (q = p)) as [->|Hne].
  - simplify_eq. destruct (decide (j = i)) as [->|Hji].
    + unfold hw_entry_at. rewrite <- (addr_add_0 (entry_address d i)) at 2. change 0 with (8 * Z.of_nat 0).
      rewrite read_words_written by lia. cbn [mbind option_bind]. rewrite drop_0, firstn_all2 by lia. rewrite Hdec.
      by rewrite firstn_all2 by (by rewrite children_length).
    + rewrite entry_at_apart; [apply (Hm p); try done; tauto|]. unfold apart, entry_address, addr_add. cbn [aperture address]. nia.
  - destruct (ts_shape _ _ _ _ _ _ _ Hts q dq Hq) as [ps' Hs']. rewrite entry_at_apart.
    + apply (Hm q); try done. intros [?|[? _]]; done.
    + rewrite Hl. eapply apart_tables; [|by eapply entry_in_table..]. by apply (ts_disjoint _ _ _ _ _ _ _ Hts p q).
Qed.
End change.

Lemma tables_match_weaken M ds P P' (W W' : dir_ptr -> Z -> Prop) : tables_match M ds P W -> (forall x, x ∈ P -> x ∈ P') -> (forall q i, W q i -> W' q i) ->
  tables_match M ds P' W'.
Proof. intros Hm HP HW p d i Hd Hn Hlt Hi Hw. apply (Hm p d i Hd); auto. Qed.

(** ** Loops over new tables *)
Section loops.
Context (s : page_tree) (rt : dir_ptr) (P0 X : list dir_ptr) (R : list uvm_page_table_range_t) (ps : Z).
Hypothesis Hts : tree_struct h F (dirs s) rt P0 X R.
Hypothesis Hpage : uvm_mmu_use_cpu C s = true -> forall p d, dirs s !! p = Some d -> pa_size (phys_alloc d) <= PAGE_SIZE.
Notation ds := (dirs s).

Definition new_table (W : dir_ptr -> Z -> Prop) (p : dir_ptr) : Prop :=
  exists d, ds !! p = Some d /\ p ∉ P0 /\ shape h F d ps /\
    forall i, 0 <= i -> ~ W p i -> children C ds d i = replicate (Z.to_nat (hper h (depth d))) None.

Definition sys_table (p : dir_ptr) : bool := match ds !! p with Some d => is_sys (pa_addr (phys_alloc d)) | None => false end.
Definition sys_membar (l : list dir_ptr) (m : uvm_membar_t) : uvm_membar_t := foldl (fun m p => if sys_table p then UVM_MEMBAR_SYS else m) m l.

Lemma fits_writer push p d : writer_ok C s push -> ds !! p = Some d -> fits_page push d.
Proof. intros Hok Hd ->. by apply (Hpage Hok p). Qed.

Lemma init_tables_gpu_run W P used : forall M m push, uvm_mmu_use_cpu C s = false -> flag_membar_gpu push = false ->
  Forall (new_table W) used -> tables_match M ds (used ++ P) W ->
  exists l Wr fl, Forall is_transfer l /\ methods_writes l = Wr /\ tables_match (mem_after M Wr) ds P W /\ flag_membar_gpu fl = false /\
    methods fl = methods push ++ l /\
    init_tables_gpu C ps used m push s = Returns ((sys_membar used m, fl), s).
Proof.
  induction used as [|p used IH]; intros M m push Hcpu Hg Hall Hm.
  { exists [], [], push. rewrite app_nil_r. done. }
  apply Forall_cons in Hall as [(d & Hd & HpP & Hs & Hnone) Hall].
  assert (Hok : writer_ok C s (Some (pipelined_unordered push))) by (split; [done|]; by cbn; rewrite Hg).
  destruct (phys_mem_init_run C F s rt P0 X R p d ps _ Hts Hd HpP Hs Hok (fits_writer _ _ _ Hok Hd)) as (push' & s' & ws & Hrun & Hwr & Hb & Hlen).
  destruct Hwr as [-> (l & Hl & HW & ->)]. pose proof (match_init M ds rt P0 X R Hts p d ps (used ++ P) Hd Hs W ws Hb Hlen Hnone Hm) as Hm'.
  destruct (IH _ (if is_sys (pa_addr (phys_alloc d)) then UVM_MEMBAR_SYS else m)
    (mk_mmu_push (methods push ++ l ++ []) false false false) Hcpu eq_refl Hall Hm') as (l' & Wr & fl & Hl' & HWr & Hfin & Hfl & Hms & Hrest).
  exists (l ++ l'), (words_at (pa_addr (phys_alloc d)) ws ++ Wr), fl. split; [by apply Forall_app|]. split; [by rewrite methods_writes_app, HW, HWr|].
  split; [by rewrite mem_after_app|]. split; [done|]. split; [rewrite Hms; cbn; by rewrite app_nil_r, app_assoc|].
  cbn [init_tables_gpu]. rewrite (sm_bind_run _ _ _ _ _ Hrun). rewrite (sm_bind_lift _ _ _ _ eq_refl).
  rewrite (sm_bind_run _ _ _ _ _ (get_dir_run s p d Hd)). unfold sys_membar. cbn [foldl]. unfold sys_table at 2. rewrite Hd. exact Hrest.
Qed.

Lemma log_writes_app l1 l2 : log_writes (l1 ++ l2) = log_writes l1 ++ log_writes l2.
Proof. apply bind_app. Qed.

Lemma init_tables_cpu_run W P used : forall M l0, uvm_mmu_use_cpu C s = true ->
  Forall (new_table W) used -> tables_match M ds (used ++ P) W ->
  exists l Wr, Forall is_cpu_write l /\ log_writes l = Wr /\ tables_match (mem_after M Wr) ds P W /\
    init_tables_cpu C ps used (s <| log := log s ++ l0 |>) = Returns (tt, s <| log := log s ++ l0 ++ l |>).
Proof.
  induction used as [|p used IH]; intros M l0 Hcpu Hall Hm.
  { exists [], []. rewrite app_nil_r. done. }
  apply Forall_cons in Hall as [(d & Hd & HpP & Hs & Hnone) Hall].
  set (s1 := s <| log := log s ++ l0 |>).
  destruct (phys_mem_init_run C F s1 rt P0 X R p d ps None Hts Hd HpP Hs Hcpu (fits_writer None p d Hcpu Hd)) as (push' & s' & ws & Hrun & Hwr & Hb & Hlen).
  destruct Hwr as [-> (l & Hl & HW & ->)]. pose proof (match_init M ds rt P0 X R Hts p d ps (used ++ P) Hd Hs W ws Hb Hlen Hnone Hm) as Hm'.
  destruct (IH _ (l0 ++ l) Hcpu Hall Hm') as (l' & Wr & Hl' & HWr & Hfin & Hrest).
  exists (l ++ l'), (words_at (pa_addr (phys_alloc d)) ws ++ Wr). split; [by apply Forall_app|]. split; [by rewrite log_writes_app, HW, HWr|].
  split; [by rewrite mem_after_app|]. cbn [init_tables_cpu]. etransitivity; [exact (sm_bind_run _ _ _ _ _ Hrun)|].
  rewrite <- app_assoc in Hrest. cbn -[app]. rewrite <- app_assoc. exact Hrest.
Qed.

(** *** Entries of the parents *)
Definition pending (L : list dir_ptr) (q : dir_ptr) (i : Z) : Prop :=
  exists p d, p ∈ L /\ ds !! p = Some d /\ host_parent d = Some q /\ index_in_parent d = i.

Definition new_child (p : dir_ptr) : Prop :=
  exists d q dq, ds !! p = Some d /\ host_parent d = Some q /\ ds !! q = Some dq /\ q ∉ P0 /\ depth dq < hmax h /\
    0 <= index_in_parent d < 2 ^ hbits h (depth dq) UVM_PAGE_SIZE_AGNOSTIC.

Definition sys_parent (p : dir_ptr) : bool :=
  match d ← ds !! p; q ← host_parent d; ds !! q with Some dq => is_sys (pa_addr (phys_alloc dq)) | None => false end.
Definition parent_membar (l : list dir_ptr) (m : uvm_membar_t) : uvm_membar_t := foldl (fun m p => if sys_parent p then UVM_MEMBAR_SYS else m) m l.

Lemma parent_of_run p d q s1 : dirs s1 = ds -> ds !! p = Some d -> host_parent d = Some q -> parent_of p s1 = Returns ((q, index_in_parent d), s1).
Proof.
  intros E Hd Hq. unfold parent_of. rewrite <- E in Hd. rewrite (sm_bind_run _ _ _ _ _ (get_dir_run s1 p d Hd)). by rewrite (sm_bind_lift _ _ _ _ Hq).
Qed.

Lemma pending_entry_cons W p L d q : ds !! p = Some d -> host_parent d = Some q -> forall x j,
  (W x j \/ pending (p :: L) x j) -> ((W x j \/ pending L x j) \/ (x = q /\ j = index_in_parent d)).
Proof.
  intros Hd Hq x j [?|(p' & d' & [->|Hin]%elem_of_cons & Hd' & Hx & Hj)]; [auto|simplify_eq; auto|]. left. right. by exists p', d'.
Qed.

Lemma write_parents_gpu_run W P used : forall M m push, uvm_mmu_use_cpu C s = false -> flag_membar_gpu push = false ->
  Forall new_child used -> tables_match M ds P (fun q i => W q i \/ pending used q i) ->
  exists l Wr fl, Forall is_transfer l /\ methods_writes l = Wr /\ tables_match (mem_after M Wr) ds P W /\ flag_membar_gpu fl = false /\
    methods fl = methods push ++ l /\
    write_parents_gpu C used m push s = Returns ((parent_membar used m, fl), s).
Proof.
  induction used as [|p used IH]; intros M m push Hcpu Hg Hall Hm.
  { exists [], [], push. rewrite app_nil_r. split_and!; try done. eapply tables_match_weaken; [exact Hm|auto|].
    intros q i [?|(? & ? & ?%elem_of_nil & _)]; done. }
  apply Forall_cons in Hall as [(d & q & dq & Hd & Hq & Hdq & HqP & Hlt & Hi) Hall].
  assert (Hok : writer_ok C s (Some (pipelined_unordered push))) by (split; [done|]; by cbn; rewrite Hg).
  destruct (pde_write_run C F s rt P0 X R q dq (index_in_parent d) false _ Hts Hdq HqP Hlt Hi Hok (fits_writer _ _ _ Hok Hdq)) as (push' & s' & ws & Hrun & Hwr & Hr).
  destruct Hwr as [-> (l & Hl & HW & ->)]. destruct (ts_shape _ _ _ _ _ _ _ Hts q dq Hdq) as [ps' Hs].
  pose proof (match_write M ds rt P0 X R Hts q dq ps' P Hdq Hs (fun q i => W q i \/ pending used q i) _ ws Hlt Hi Hr) as Hm'.
  specialize (Hm' ltac:(eapply tables_match_weaken; [exact Hm|auto|exact (pending_entry_cons W p used d q Hd Hq)])).
  destruct (IH _ (if is_sys (pa_addr (phys_alloc dq)) then UVM_MEMBAR_SYS else m)
    (mk_mmu_push (methods push ++ l ++ []) false false false) Hcpu eq_refl Hall Hm') as (l' & Wr & fl & Hl' & HWr & Hfin & Hfl & Hms & Hrest).
  exists (l ++ l'), (words_at (entry_address dq (index_in_parent d)) ws ++ Wr), fl. split; [by apply Forall_app|]. split; [by rewrite methods_writes_app, HW, HWr|].
  split; [by rewrite mem_after_app|]. split; [done|]. split; [rewrite Hms; cbn; by rewrite app_nil_r, app_assoc|].
  cbn [write_parents_gpu]. rewrite (sm_bind_run _ _ _ _ _ (parent_of_run p d q s eq_refl Hd Hq)). cbn [fst snd].
  rewrite (sm_bind_run _ _ _ _ _ Hrun). rewrite (sm_bind_lift _ _ _ _ eq_refl). rewrite (sm_bind_run _ _ _ _ _ (get_dir_run s q dq Hdq)).
  unfold parent_membar. cbn [foldl]. unfold sys_parent at 2. rewrite Hd. cbn [mbind option_bind]. rewrite Hq. cbn [mbind option_bind]. rewrite Hdq. exact Hrest.
Qed.

Lemma write_parents_cpu_run W P used : forall M l0, uvm_mmu_use_cpu C s = true ->
  Forall new_child used -> tables_match M ds P (fun q i => W q i \/ pending used q i) ->
  exists l Wr, Forall is_cpu_write l /\ log_writes l = Wr /\ tables_match (mem_after M Wr) ds P W /\
    write_parents_cpu C used (s <| log := log s ++ l0 |>) = Returns (tt, s <| log := log s ++ l0 ++ l |>).
Proof.
  induction used as [|p used IH]; intros M l0 Hcpu Hall Hm.
  { exists [], []. rewrite app_nil_r. split_and!; try done. eapply tables_match_weaken; [exact Hm|auto|].
    intros q i [?|(? & ? & ?%elem_of_nil & _)]; done. }
  apply Forall_cons in Hall as [(d & q & dq & Hd & Hq & Hdq & HqP & Hlt & Hi) Hall].
  set (s1 := s <| log := log s ++ l0 |>).
  destruct (pde_write_run C F s1 rt P0 X R q dq (index_in_parent d) false None Hts Hdq HqP Hlt Hi Hcpu (fits_writer None q dq Hcpu Hdq)) as (push' & s' & ws & Hrun & Hwr & Hr).
  destruct Hwr as [-> (l & Hl & HW & ->)]. destruct (ts_shape _ _ _ _ _ _ _ Hts q dq Hdq) as [ps' Hs].
  pose proof (match_write M ds rt P0 X R Hts q dq ps' P Hdq Hs (fun q i => W q i \/ pending used q i) _ ws Hlt Hi Hr) as Hm'.
  specialize (Hm' ltac:(eapply tables_match_weaken; [exact Hm|auto|exact (pending_entry_cons W p used d q Hd Hq)])).
  destruct (IH _ (l0 ++ l) Hcpu Hall Hm') as (l' & Wr & Hl' & HWr & Hfin & Hrest).
  exists (l ++ l'), (words_at (entry_address dq (index_in_parent d)) ws ++ Wr). split; [by apply Forall_app|]. split; [by rewrite log_writes_app, HW, HWr|].
  split; [by rewrite mem_after_app|]. cbn [write_parents_cpu].
  etransitivity; [exact (sm_bind_run _ _ _ _ _ (parent_of_run p d q s1 eq_refl Hd Hq))|]. cbn [fst snd].
  etransitivity; [exact (sm_bind_run _ _ _ _ _ Hrun)|]. rewrite <- app_assoc in Hrest. cbn -[app]. rewrite <- app_assoc. exact Hrest.
Qed.
End loops.

(** ** After a walk *)
Lemma children_ext ds ds' d d' i : depth d' = depth d ->
  (forall j, (j < Z.to_nat (hper h (depth d)))%nat -> entries d' !! (Z.to_nat (hper h (depth d) * i) + j)%nat = entries d !! (Z.to_nat (hper h (depth d) * i) + j)%nat) ->
  (forall k c, entries d !! k = Some (Some c) -> phys_alloc <$> ds' !! c = phys_alloc <$> ds !! c) ->
  children C ds' d' i = children C ds d i.
Proof.
  intros Hd He Hc. unfold children. rewrite Hd. apply list_fmap_ext. intros j x Hx. apply lookup_seq in Hx as [-> Hj].
  unfold child_at. rewrite He by lia. destruct (entries d !! _) as [[c|]|] eqn:E; try done. by eapply Hc.
Qed.

Lemma hw_entry_at_ext M d d' i : depth d' = depth d -> phys_alloc d' = phys_alloc d -> hw_entry_at M d' i = hw_entry_at M d i.
Proof. intros Hd Hp. unfold hw_entry_at, entry_address, entry_words. by rewrite Hd, Hp. Qed.

Lemma children_none ds d i : live_entries d = 0 -> children C ds d i = replicate (Z.to_nat (hper h (depth d))) None.
Proof.
  intros H0. unfold children. generalize 0%nat. induction (Z.to_nat (hper h (depth d))) as [|n IH]; intros m; [done|]. cbn. f_equal; [|apply IH].
  unfold child_at. destruct (entries d !! _) as [[c|]|] eqn:Ec; try done. by pose proof (live_entries_zero d H0 _ _ Ec).
Qed.

Section walked.
Context (s0 : page_tree) (rt : dir_ptr) (P0 : list dir_ptr) (R : list uvm_page_table_range_t) (ps start size : Z) (cache : list (option dir_ptr)).
Context (s : page_tree) (r : uvm_page_table_range_t) (ls : list link) (P' : list dir_ptr) (p : dir_ptr) (d : uvm_page_directory_t).
Hypothesis Hts0 : tree_struct h F (dirs s0) rt P0 [] R.
Hypothesis Hf : walk_found C F s0 rt P0 R ps start size cache s r ls P' p d.
Notation used := (map lk_child ls).

(** A directory before and after the walk. *)
Lemma walked_lookup x dx : dirs s !! x = Some dx -> exists d0, dirs s0 !! x = Some d0 /\ depth dx = depth d0 /\ phys_alloc dx = phys_alloc d0 /\
  length (entries dx) = length (entries d0) /\ forall k, (forall l, l ∈ ls -> lk_parent l = x -> lk_slot l <> k) -> entries dx !! k = entries d0 !! k.
Proof.
  rewrite (wf_state Hf). cbn.
  assert (Hgen : forall y, link_all ls (dirs s0) !! x = Some y -> exists d0, dirs s0 !! x = Some d0 /\ depth y = depth d0 /\ phys_alloc y = phys_alloc d0 /\
    length (entries y) = length (entries d0) /\ forall k, (forall l, l ∈ ls -> lk_parent l = x -> lk_slot l <> k) -> entries y !! k = entries d0 !! k).
  { intros y Hy. destruct (link_all_lookup ls x (dirs s0) y Hy) as (d0 & Hd0 & K1 & K2 & K3 & _). exists d0. split_and!; try done.
    intros k Hk. by eapply link_all_entries. }
  intros [[<- <-]|[Hne Hx]]%lookup_insert_Some; [|by apply Hgen].
  destruct (Hgen d) as (d0 & ? & ? & ? & ? & ?); [apply (wf_walking Hf)|]. exists d0. done.
Qed.

Lemma walked_lookup_back x d0 : dirs s0 !! x = Some d0 -> exists dx, dirs s !! x = Some dx.
Proof.
  intros Hx. rewrite (wf_state Hf). cbn. destruct (decide (p = x)) as [->|Hne]; [rewrite lookup_insert_eq; eauto|].
  rewrite lookup_insert_ne by done. destruct (link_all_kept ls x (dirs s0) d0 Hx) as (dx & Hdx & _). eauto.
Qed.

Lemma walked_public x : x ∉ used ++ P' <-> x ∉ P0.
Proof. by rewrite (wk_private (wf_walking Hf)). Qed.

(** The links of the walk are pending. *)
Lemma walked_pending l : l ∈ ls -> pending s used (lk_parent l) (lk_index l).
Proof.
  intros Hl. pose proof (wf_walking Hf) as Wk. destruct (walking_nodup C F s0 rt P0 R ps start cache Hts0 ls p d P' Wk) as (Hnd & _).
  pose proof (wk_good Wk) as Hgood. rewrite Forall_forall in Hgood.
  destruct (link_all_host ls l (dirs s0) Hnd Hl) as (dc & Hdc & Hh & Hi).
  - destruct (walking_chain C F s0 rt P0 R ps start cache Hts0 ls p d P' Wk) as (q & Hch & _ & Hnd'). clear -Hch Hnd' Hl.
    revert q Hch Hnd'. induction ls as [|l' ls' IH]; intros q; [by apply elem_of_nil in Hl|]. cbn [chain map]. intros [<- Hch] [Hn Hnd]%NoDup_cons.
    apply elem_of_cons in Hl as [->|Hl]; [intros E; apply Hn; rewrite <- E; left|by eapply IH].
  - intros x Hx. destruct (gl_child _ _ _ _ (Hgood x Hx)) as [dx ?]. by exists dx.
  - assert (Hd' : exists dc', dirs s !! lk_child l = Some dc' /\ host_parent dc' = host_parent dc /\ index_in_parent dc' = index_in_parent dc).
    { rewrite (wf_state Hf). cbn. destruct (decide (p = lk_child l)) as [E|Hne].
      - rewrite <- E in *. rewrite lookup_insert_eq. rewrite (wk_dir Wk) in Hdc. injection Hdc as ->. eexists. split; [done|done].
      - rewrite lookup_insert_ne by done. eauto. }
    destruct Hd' as (dc' & Hdc' & E1 & E2). exists (lk_child l), dc'. split; [by apply list_elem_of_fmap_2|]. split; [done|]. by rewrite E1, E2.
Qed.

Lemma walked_children x d0 dx i : dirs s0 !! x = Some d0 -> dirs s !! x = Some dx -> 0 <= i -> ~ pending s used x i ->
  children C (dirs s) dx i = children C (dirs s0) d0 i.
Proof.
  intros Hx0 Hx Hi Hnp. destruct (walked_lookup x dx Hx) as (d1 & Hd1 & Hdep & _ & _ & He). simplify_eq.
  destruct (ts_shape _ _ _ _ _ _ _ Hts0 x d0 Hx0) as [ps' Hs']. destruct (shape_sizes _ _ _ _ Hs') as (_ & _ & _ & Hper).
  apply children_ext; [done| |].
  - intros j Hj. apply He. intros l Hl E Hk. apply Hnp. replace i with (lk_index l); [rewrite <- E; by apply walked_pending|].
    pose proof (wk_good (wf_walking Hf)) as Hgood. rewrite Forall_forall in Hgood.
    destruct (gl_parent _ _ _ _ (Hgood l Hl)) as (dq & Hdq & _ & _ & _ & ->). rewrite E in Hdq. simplify_eq. rewrite Hk.
    rewrite Nat2Z.inj_add, Z2Nat.id by nia. rewrite Z.mul_comm, Z.add_comm, Z.div_add by lia. rewrite Z.div_small by lia. lia.
  - intros k c Hc. destruct (ts_child _ _ _ _ _ _ _ Hts0 x d0 k c Hx0 Hc) as (_ & _ & dc & Hdc & _).
    destruct (walked_lookup_back c dc Hdc) as (dc' & Hdc'). destruct (walked_lookup c dc' Hdc') as (d1 & ? & _ & Hpa & _). simplify_eq.
    rewrite Hdc, Hdc'. cbn. by rewrite Hpa.
Qed.

Lemma walked_match M (W : dir_ptr -> Z -> Prop) : tables_match M (dirs s0) P0 W -> tables_match M (dirs s) (used ++ P') (fun q i => W q i \/ pending s used q i).
Proof.
  intros Hm x dx i Hx HxP Hlt Hi HW. destruct (walked_lookup x dx Hx) as (d0 & Hd0 & Hdep & Hpa & _).
  rewrite (walked_children x d0 dx i Hd0 Hx ltac:(lia) ltac:(tauto)). rewrite (hw_entry_at_ext M d0 dx i Hdep Hpa). rewrite Hdep in Hlt, Hi.
  apply (Hm x); try done; [by apply walked_public|tauto].
Qed.

Lemma walked_new_tables (W : dir_ptr -> Z -> Prop) : Forall (new_table s P' ps (fun q i => W q i \/ pending s used q i)) used.
Proof.
  apply Forall_forall. intros x Hx. pose proof (wf_walking Hf) as Wk.
  assert (HxP : x ∈ P0) by (rewrite (wk_private Wk), elem_of_app; auto).
  apply list_elem_of_fmap in Hx as (l & -> & Hl). destruct (wk_above Wk l Hl) as (d0 & Hd0 & _ & [Hs1 Hs2 Hs3 Hs4 Hs5]).
  destruct (walked_lookup_back _ _ Hd0) as (dx & Hdx). destruct (walked_lookup _ _ Hdx) as (d1 & ? & Hdep & Hpa & Hlen & _). simplify_eq.
  exists dx. split; [done|]. split; [|split].
  - apply (walking_nodup C F s0 rt P0 R ps start cache Hts0 ls p d P' Wk). by apply list_elem_of_fmap_2.
  - constructor; rewrite ?Hdep, ?Hpa, ?Hlen; done.
  - intros i Hi HW. rewrite (walked_children _ d0 dx i Hd0 Hdx Hi ltac:(tauto)), Hdep. apply children_none.
    by apply (struct_private_empty _ _ _ _ _ _ _ Hts0 (lk_child l)).
Qed.
End walked.

(** Every directory of the tree but the root is below another. *)
Lemma tree_new_child s rt P X R p d : tree_struct h F (dirs s) rt P X R -> dirs s !! p = Some d -> p ∉ P -> p <> rt -> new_child s P p.
Proof.
  intros Hts Hp HpP Hr. destruct (ts_parent _ _ _ _ _ _ _ Hts p d Hp HpP Hr) as (q & dq & k & Hq & HqP & Hk).
  destruct (ts_child _ _ _ _ _ _ _ Hts q dq k p Hq Hk) as (_ & _ & d' & Hd' & Hl). simplify_eq. destruct (ts_shape _ _ _ _ _ _ _ Hts q dq Hq) as [ps Hs].
  pose proof (depth_bound _ _ _ _ Hs) as Hb. pose proof (child_depth h F q dq k d Hl ltac:(lia)) as Hlt. destruct Hl as [Hpar _ Hidx _].
  destruct (shape_sizes _ _ _ _ Hs) as (_ & _ & _ & Hper). pose proof (sh_entries _ _ _ _ Hs) as He. unfold entry_total in He.
  rewrite (proj2 (Z.eqb_neq _ _)) in He by lia. apply lookup_lt_Some in Hk. exists d, q, dq. split_and!; try done; rewrite Hidx.
  - apply Z.div_pos; lia.
  - apply Z.div_lt_upper_bound; lia.
Qed.

(** Freeing private directories. *)
Lemma tables_match_delete M ds rt P X R p Pm W : tree_struct h F ds rt P X R -> p ∈ P -> tables_match M ds (p :: Pm) W -> tables_match M (delete p ds) Pm W.
Proof.
  intros Hts Hp Hm q dq i [Hne Hq]%lookup_delete_Some HqP Hlt Hi HW.
  replace (children C (delete p ds) dq i) with (children C ds dq i).
  - apply (Hm q); try done. rewrite not_elem_of_cons. done.
  - symmetry. apply children_ext; [done|done|]. intros k c Hc. destruct (ts_child _ _ _ _ _ _ _ Hts q dq k c Hq Hc) as (Hn & _).
    rewrite lookup_delete_ne; [done|]. by intros ->.
Qed.
End mem.
