(* ===== verification/PageTreeOps.v ===== *)
(** * Updates of the page tables in memory

    Specifications of the operations of [PageTree] that push work, wait, or free
    memory: [write_gpu_state], which makes new tables part of the tree in memory, and
    the freeing of directories. *)

From S2P Require Import Prelude PageMask StateMonad Push PmmChunks MmuTypes MmuHopper MmuPush PteBatch TlbBatch PageTree PageTreeInv PageTreeRun PageTreeWalk PageTreeMem.

(** ** Statuses *)

(** The one code with which channels fail, such as NV_ERR_RC_ERROR on GPUs without
    ECC.  [uvm_channel_get_status] has a second one, NV_ERR_ECC_ERROR; where both occur
    a status may differ from the driver's first one, which the code asserts it does
    not. *)
Class fatal_code : Type := fatal_status : NV_STATUS.

Section statuses.
Context {Hfatal : fatal_code}.

(** The driver's status is kept from the first failure on. *)
Definition status_after (g g' : NV_STATUS) : Prop := g' = g \/ (g = NV_OK /\ g' = fatal_status).
Definition known (s : page_tree) : Prop := global_status s = NV_OK \/ global_status s = fatal_status.

(** [s'] comes after [s] with the operations [l] on memory; only the driver's status
    may have changed besides. *)
Definition later (s s' : page_tree) (l : list mem_op) : Prop :=
  exists g c, s' = s <| log := log s ++ l |> <| global_status := g |> <| clock := c |> /\ status_after (global_status s) g.

(** A status that a push or a wait has returned. *)
Definition status_ok (status : NV_STATUS) (s : page_tree) : Prop :=
  status = NV_OK \/ (status = fatal_status /\ global_status s <> NV_OK).

Lemma status_after_kept g g' : status_after g g' -> g <> NV_OK -> g' = g.
Proof. intros [?|[? _]]; done. Qed.

Lemma status_after_trans g1 g2 g3 : status_after g1 g2 -> status_after g2 g3 -> status_after g1 g3.
Proof. unfold status_after. intros [->|[-> ->]] [->|[-> ->]]; auto. Qed.

Lemma status_after_known s s' : status_after (global_status s) (global_status s') -> known s -> known s'.
Proof. unfold known. intros [->|[_ ->]]; auto. Qed.

Lemma status_ok_known status s : status_ok status s -> known s -> status = NV_OK \/ status = global_status s.
Proof. intros [?|[-> Hne]] [?|Hg]; [by left..|done|by right]. Qed.

Lemma later_refl s : later s s [].
Proof. exists (global_status s), (clock s). split; [|by left]. rewrite app_nil_r. by destruct s. Qed.

Lemma later_trans s1 s2 s3 l1 l2 : later s1 s2 l1 -> later s2 s3 l2 -> later s1 s3 (l1 ++ l2).
Proof.
  intros (g1 & c1 & -> & H1) (g2 & c2 & -> & H2). exists g2, c2. cbn in *. split; [by rewrite app_assoc|]. by eapply status_after_trans.
Qed.

Lemma later_append s l : later s (s <| log := log s ++ l |>) l.
Proof. exists (global_status s), (clock s). split; [|by left]. by destruct s. Qed.

Lemma later_dirs s s' l : later s s' l -> dirs s' = dirs s /\ log s' = log s ++ l /\ lock s' = lock s /\ root s' = root s /\ location s' = location s.
Proof. by intros (g & c & -> & _). Qed.

Lemma later_status s s' l : later s s' l -> status_after (global_status s) (global_status s').
Proof. by intros (g & c & -> & ?). Qed.

(** ** The environment

    A push or a wait that fails does so with the one code of fatal errors. *)
Record pushes_ok (E : page_tree_env) : Prop := {
  po_code : fatal_status <> NV_OK /\ fatal_status <> NV_ERR_MORE_PROCESSING_REQUIRED;
  po_begin s : env_push_begin E s = NV_OK \/ env_push_begin E s = fatal_status;
  po_wait s : env_tracker_wait E s = NV_OK \/ env_tracker_wait E s = fatal_status
}.
End statuses.

Section ops.
Context {Hfatal : fatal_code}.
Context (C : tree_config) (E : page_tree_env) (F : hw_format).
Notation h := (cfg_hal C).
Context `{Hhal : !hal_ok h F}.
Hypothesis Hpush : pushes_ok E.

Lemma note_status_later st s s0 l : later s0 s l -> st = NV_OK \/ st = fatal_status ->
  spec true (note_status st) (fun r s' => r = st /\ later s0 s' l /\ status_ok st s') s.
Proof.
  intros Hl Hst. unfold note_status. apply spec_bind_modify, spec_ret. split; [done|]. unfold status_ok.
  destruct (Z.eqb_spec st NV_OK) as [->|Hne]; cbn [orb]; [auto|]. destruct Hst as [?|Hst]; [done|].
  destruct (Z.eqb_spec (global_status s) NV_OK) as [Hg|Hg]; cbn [negb]; [|auto].
  split; [|by right]. destruct Hl as (g & c & -> & H0). exists st, c. split; [done|]. cbn in Hg. subst. destruct H0 as [H0|[H0 _]]; by right.
Qed.

Lemma begin_acquire_spec s : spec true (page_tree_begin_acquire E) (fun st s' => later s s' [] /\ status_ok st s') s.
Proof.
  unfold page_tree_begin_acquire, ask. eapply spec_bind_run; [reflexivity|]. eapply spec_mono; [eapply (note_status_later _ _ s [])|].
  - eexists _, _. split; [|by left]. rewrite app_nil_r. by destruct s.
  - cbn. by apply po_begin.
  - cbn. intros st s' (-> & ? & ?). done.
Qed.

Lemma tracker_wait_spec s : spec true (uvm_tracker_wait E)
  (fun st s' => later s s' (if st =? NV_OK then [OpWait] else []) /\ status_ok st s') s.
Proof.
  unfold uvm_tracker_wait, ask. eapply spec_bind_run; [reflexivity|]. set (st := env_tracker_wait E s).
  eapply spec_bind_run.
  { instantiate (2 := tt). instantiate (1 := s <| clock := S (clock s) |> <| log := log s ++ (if st =? NV_OK then [OpWait] else []) |>).
    destruct (st =? NV_OK); [done|]. rewrite app_nil_r. unfold mret, SM_ret. by destruct s. }
  eapply spec_mono; [eapply (note_status_later st _ s (if st =? NV_OK then [OpWait] else []))|].
  - eexists _, _. split; [|by left]. by destruct s.
  - by apply po_wait.
  - cbn. intros st' s' (-> & ? & ?). done.
Qed.

(** The address of the page directory base. *)
Definition tree_pdb (s : page_tree) (d : uvm_page_directory_t) : uvm_gpu_phys_address_t :=
  if is_vid (pa_addr (phys_alloc d)) then pa_addr (phys_alloc d) else pdb_rm_dma_address s.

Lemma invalidate_run s rt d dep m push : root s = Some rt -> dirs s !! rt = Some d ->
  tlb_invalidate_all dep m push s = Returns (push_method (HostInvalidateAll (tree_pdb s d) dep m) push, s).
Proof.
  intros Hr Hd. unfold tlb_invalidate_all, uvm_page_tree_pdb_address. erewrite sm_bind_run; [done|]. rewrite sm_bind_get.
  rewrite (sm_bind_lift _ _ _ _ Hr). by rewrite (sm_bind_run _ _ _ _ _ (get_dir_run s rt d Hd)).
Qed.

(** ** New tables become part of the tree *)
Definition mem_of (s : page_tree) : memory := mem_after ∅ (log_writes (log s)).

Lemma mem_of_later s s' l : later s s' l -> mem_of s' = mem_after (mem_of s) (log_writes l).
Proof. intros (_ & Hl & _)%later_dirs. unfold mem_of. by rewrite Hl, log_writes_app, mem_after_app. Qed.

Section write.
Context (s : page_tree) (rt : dir_ptr) (P0 X P : list dir_ptr) (R : list uvm_page_table_range_t) (ps inval : Z) (used : list dir_ptr).
Context (W : dir_ptr -> Z -> Prop).
Notation Wp := (fun q i => W q i \/ pending s used q i).
Hypothesis Hts : tree_struct h F (dirs s) rt P0 X R.
Hypothesis Hroot : root s = Some rt.
Hypothesis Hlock : lock s = true.
Hypothesis Hpage : uvm_mmu_use_cpu C s = true -> forall p d, dirs s !! p = Some d -> pa_size (phys_alloc d) <= PAGE_SIZE.
Hypothesis Hnew : Forall (new_table C F s P0 ps Wp) used.
Hypothesis Hchild : Forall (new_child C s P0) used.
Hypothesis Hmatch : tables_match C F (mem_of s) (dirs s) (used ++ P) Wp.
Hypothesis Hinval : used <> [] -> 0 <= inval.

(** The tables are initialised before the entries that lead to them are written. *)
Definition init_then_link (Wi Wl : list word_write) : Prop :=
  tables_match C F (mem_after (mem_of s) Wi) (dirs s) P Wp /\ tables_match C F (mem_after (mem_of s) (Wi ++ Wl)) (dirs s) P W.

Definition gpu_update (d : uvm_page_directory_t) (l : list mem_op) : Prop := exists li lp,
  l = [OpSubmit (li ++ [HostWfi; HostMembar (sys_membar s used UVM_MEMBAR_GPU)] ++ lp ++
        [HostWfi; HostMembar (parent_membar s (rev used) UVM_MEMBAR_GPU); HostInvalidateAll (tree_pdb s d) inval UVM_MEMBAR_NONE])] /\
  Forall is_transfer li /\ Forall is_transfer lp /\ init_then_link (methods_writes li) (methods_writes lp).

Definition cpu_update (d : uvm_page_directory_t) (l : list mem_op) : Prop := exists li lp,
  l = [OpWait] ++ li ++ [OpMb] ++ lp ++
      [OpSubmit [HostInvalidateAll (tree_pdb s d) inval UVM_MEMBAR_NONE; HostWfi; HostMembar UVM_MEMBAR_SYS]] /\
  Forall is_cpu_write li /\ Forall is_cpu_write lp /\ init_then_link (log_writes li) (log_writes lp).

Definition update_post (st : NV_STATUS) (s' : page_tree) : Prop := exists l, later s s' l /\ status_ok st s' /\
  (st = NV_OK -> used <> [] -> exists d, dirs s !! rt = Some d /\ (gpu_update d l \/ cpu_update d l)) /\ (used = [] -> l = [] /\ st = NV_OK).

(** After the update the tables match the directories. *)
Lemma update_match d l : gpu_update d l \/ cpu_update d l -> tables_match C F (mem_after (mem_of s) (log_writes l)) (dirs s) P W.
Proof.
  intros [(li & lp & -> & _ & _ & _ & Hm)|(li & lp & -> & _ & _ & _ & Hm)].
  - unfold log_writes. cbn [mbind list_bind op_writes]. rewrite app_nil_r, !methods_writes_app. cbn. by rewrite app_nil_r.
  - rewrite !log_writes_app. unfold log_writes at 1 3 5. cbn. by rewrite app_nil_r.
Qed.

Lemma pending_rev q i : pending s (rev used) q i <-> pending s used q i.
Proof.
  unfold pending. split; intros (p & d & Hp & ?); exists p, d; (split; [|done]); rewrite list_elem_of_In in *; [by apply in_rev|by apply in_rev in Hp].
Qed.

Lemma sys_membar_shape l m f : m = UVM_MEMBAR_GPU \/ m = UVM_MEMBAR_SYS ->
  let x := foldl (fun m (p : dir_ptr) => if f p : bool then UVM_MEMBAR_SYS else m) m l in x = UVM_MEMBAR_GPU \/ x = UVM_MEMBAR_SYS.
Proof. revert m. induction l as [|p l IH]; intros m Hm; [done|]. cbn. apply IH. destruct (f p); auto. Qed.

Lemma wfi_membar_methods m push : m = UVM_MEMBAR_GPU \/ m = UVM_MEMBAR_SYS ->
  methods (uvm_hal_wfi_membar m push) = methods push ++ [HostWfi; HostMembar m] /\ flag_membar_gpu (uvm_hal_wfi_membar m push) = flag_membar_gpu push.
Proof. intros [-> | ->]; cbn; by rewrite <- app_assoc. Qed.

Lemma write_gpu_state_gpu_spec : uvm_mmu_use_cpu C s = false -> used <> [] ->
  spec true (write_gpu_state_gpu C E ps inval used) update_post s.
Proof.
  intros Hcpu Hne. destruct (ts_root _ _ _ _ _ _ _ Hts) as (dr & Hdr & _). unfold write_gpu_state_gpu.
  eapply spec_bind_run; [unfold uvm_assert_mutex_locked; rewrite sm_bind_get; by rewrite Hlock|]. apply spec_bind_get.
  apply spec_bind_assert; [by rewrite Hcpu|]. rewrite bool_decide_eq_false_2 by done.
  eapply spec_bind; [apply begin_acquire_spec|]. intros st s1 [Hl1 Hst]. destruct (Z.eqb_spec st NV_OK) as [->|Hbad]; cbn [negb].
  2:{ apply spec_ret. exists []. split_and!; try done. }
  pose proof Hl1 as (g & c & Hs1 & _). assert (Hd1 : dirs s1 = dirs s) by (by rewrite Hs1). assert (Hr1 : root s1 = Some rt) by (by rewrite Hs1).
  assert (Hcpu1 : uvm_mmu_use_cpu C s1 = false) by (by rewrite Hs1).
  assert (Hts1 : tree_struct h F (dirs s1) rt P0 X R) by (by rewrite Hd1).
  assert (Hpage1 : uvm_mmu_use_cpu C s1 = true -> forall p d, dirs s1 !! p = Some d -> pa_size (phys_alloc d) <= PAGE_SIZE) by (by rewrite Hcpu1).
  destruct (init_tables_gpu_run C F s1 rt P0 X R ps Hts1 Hpage1 Wp P used (mem_of s) UVM_MEMBAR_GPU empty_push Hcpu1 eq_refl) as (li & Wi & fi & Hli & HWi & Hmi & Hgi & Hfi & Hrun).
  { unfold new_table in *. by rewrite Hd1. }
  { by rewrite Hd1. }
  eapply spec_bind_run; [exact Hrun|]. cbn [fst snd].
  set (m1 := sys_membar s1 used UVM_MEMBAR_GPU). destruct (wfi_membar_methods m1 fi ltac:(apply sys_membar_shape; auto)) as [Hm1 Hg1].
  destruct (write_parents_gpu_run C F s1 rt P0 X R Hts1 Hpage1 W P (rev used) (mem_after (mem_of s) Wi) UVM_MEMBAR_GPU (uvm_hal_wfi_membar m1 fi) Hcpu1 ltac:(by rewrite Hg1)) as (lp & Wp' & fp & Hlp & HWp & Hmp & Hgp & Hfp & Hrun').
  { rewrite Forall_forall in Hchild |- *. unfold new_child in *. rewrite Hd1. intros x Hx. apply Hchild. rewrite list_elem_of_In in *. by apply in_rev. }
  { eapply tables_match_weaken; [exact Hmi|auto|]. intros q i [?|Hp]; [auto|right]. apply pending_rev in Hp. unfold pending in *. by rewrite Hd1. }
  eapply spec_bind_run; [exact Hrun'|]. cbn [fst snd]. set (m2 := parent_membar s1 (rev used) UVM_MEMBAR_GPU).
  destruct (wfi_membar_methods m2 fp ltac:(apply sys_membar_shape; auto)) as [Hm2 Hg2].
  apply spec_bind_assert; [pose proof (Hinval Hne); lia|]. eapply spec_bind_run; [apply (invalidate_run s1 rt dr); [done|by rewrite Hd1]|].
  eapply spec_bind_run; [reflexivity|]. apply spec_ret. eexists. split; [eapply later_trans; [exact Hl1|apply later_append]|].
  split; [by left|]. split; [|done]. intros _ _. exists dr. split; [done|]. left. exists li, lp.
  rewrite HWi, HWp. split; [|split; [done|split; [done|split]]].
  - cbn [flag_membar_none uvm_push_set_flag assign_flag]. cbn. rewrite Hm2, Hfp, Hm1, Hfi. cbn. rewrite <- !app_assoc. cbn. subst s1. done.
  - by rewrite Hd1 in Hmi.
  - rewrite mem_after_app. by rewrite Hd1 in Hmp.
Qed.

Lemma write_gpu_state_cpu_spec : uvm_mmu_use_cpu C s = true -> used <> [] ->
  spec true (write_gpu_state_cpu C E ps inval used) update_post s.
Proof.
  intros Hcpu Hne. destruct (ts_root _ _ _ _ _ _ _ Hts) as (dr & Hdr & _). unfold write_gpu_state_cpu.
  eapply spec_bind_run; [unfold uvm_assert_mutex_locked; rewrite sm_bind_get; by rewrite Hlock|]. apply spec_bind_get.
  apply spec_bind_assert; [by rewrite Hcpu|]. rewrite bool_decide_eq_false_2 by done.
  eapply spec_bind; [apply tracker_wait_spec|]. intros st s1 [Hl1 Hst]. destruct (Z.eqb_spec st NV_OK) as [->|Hbad]; cbn [negb].
  2:{ apply spec_ret. exists []. split_and!; try done. }
  pose proof Hl1 as (g & c & Hs1 & _). assert (Hd1 : dirs s1 = dirs s) by (by rewrite Hs1).
  assert (Hcpu1 : uvm_mmu_use_cpu C s1 = true) by (by rewrite Hs1). assert (Hts1 : tree_struct h F (dirs s1) rt P0 X R) by (by rewrite Hd1).
  assert (Hpage1 : uvm_mmu_use_cpu C s1 = true -> forall p d, dirs s1 !! p = Some d -> pa_size (phys_alloc d) <= PAGE_SIZE) by (intros _; rewrite Hd1; exact (Hpage Hcpu)).
  destruct (init_tables_cpu_run C F s1 rt P0 X R ps Hts1 Hpage1 Wp P used (mem_of s) [] Hcpu1) as (li & Wi & Hli & HWi & Hmi & Hrun).
  { unfold new_table in *. by rewrite Hd1. }
  { by rewrite Hd1. }
  rewrite app_nil_r in Hrun. replace (s1 <| log := log s1 |>) with s1 in Hrun by (by destruct s1). cbn [app] in Hrun.
  eapply spec_bind_run; [exact Hrun|]. eapply spec_bind_run; [reflexivity|].
  destruct (write_parents_cpu_run C F s1 rt P0 X R Hts1 Hpage1 W P (rev used) (mem_after (mem_of s) Wi) (li ++ [OpMb]) Hcpu1) as (lp & Wp' & Hlp & HWp & Hmp & Hrun').
  { rewrite Forall_forall in Hchild |- *. unfold new_child in *. rewrite Hd1. intros x Hx. apply Hchild. rewrite list_elem_of_In in *. by apply in_rev. }
  { eapply tables_match_weaken; [exact Hmi|auto|]. intros q i [?|Hp]; [auto|right]. apply pending_rev in Hp. unfold pending in *. by rewrite Hd1. }
  eapply spec_bind_run; [etransitivity; [|exact Hrun']; cbn -[app]; by rewrite <- app_assoc|].
  pose proof (later_trans _ _ _ _ _ Hl1 (later_append s1 ((li ++ [OpMb]) ++ lp))) as Hl2.
  eapply spec_bind; [apply begin_acquire_spec|]. intros st s2 [Hl3 Hst2]. pose proof (later_trans _ _ _ _ _ Hl2 Hl3) as Hl4.
  destruct (Z.eqb_spec st NV_OK) as [->|Hbad]; cbn [negb].
  2:{ apply spec_ret. eexists. split_and!; try done. }
  apply spec_bind_assert; [pose proof (Hinval Hne); lia|].
  pose proof Hl4 as (g2 & c2 & Hs2 & _). eapply spec_bind_run; [apply (invalidate_run s2 rt dr); by rewrite Hs2|].
  eapply spec_bind_run; [reflexivity|]. apply spec_ret. eexists. split; [eapply later_trans; [exact Hl4|apply later_append]|].
  split; [by left|]. split; [|done]. intros _ _. exists dr. split; [done|]. right. exists li, lp.
  rewrite HWi, HWp. split; [|split; [done|split; [done|split]]].
  - rewrite Hs2. rewrite !app_nil_r. cbn -[app]. rewrite <- !app_assoc. done.
  - by rewrite Hd1 in Hmi.
  - rewrite mem_after_app. by rewrite Hd1 in Hmp.
Qed.

Lemma write_gpu_state_spec : spec true (write_gpu_state C E ps inval used) update_post s.
Proof.
  unfold write_gpu_state. apply spec_bind_get. destruct (decide (used = [])) as [Hnil|Hne].
  - assert (Hdone : update_post NV_OK s) by (exists []; split_and!; try done; [apply later_refl|by left]).
    destruct (uvm_mmu_use_cpu C s) eqn:Hcpu; unfold write_gpu_state_cpu, write_gpu_state_gpu.
    all: eapply spec_bind_run; [unfold uvm_assert_mutex_locked; rewrite sm_bind_get; by rewrite Hlock|].
    all: apply spec_bind_get, spec_bind_assert; [by rewrite Hcpu|]; rewrite bool_decide_eq_true_2 by done; by apply spec_ret.
  - destruct (Bool.bool_dec (uvm_mmu_use_cpu C s) true) as [Hcpu|Hcpu%Bool.not_true_is_false]; rewrite Hcpu;
      [by apply write_gpu_state_cpu_spec|by apply write_gpu_state_gpu_spec].
Qed.
End write.

(** ** Freeing *)

(** As [later], with a change of the directories. *)
Definition evolves (s s' : page_tree) (l : list mem_op) (ds : dir_store) : Prop :=
  exists g c, s' = s <| dirs := ds |> <| log := log s ++ l |> <| global_status := g |> <| clock := c |> /\ status_after (global_status s) g.

Lemma later_evolves s s' l : later s s' l <-> evolves s s' l (dirs s).
Proof. split; intros (g & c & -> & Hg); exists g, c; (split; [|done]); by destruct s. Qed.

Lemma evolves_refl s : evolves s s [] (dirs s).
Proof. apply later_evolves, later_refl. Qed.

Lemma evolves_trans s1 s2 s3 l1 l2 d1 d2 : evolves s1 s2 l1 d1 -> evolves s2 s3 l2 d2 -> evolves s1 s3 (l1 ++ l2) d2.
Proof.
  intros (g1 & c1 & -> & H1) (g2 & c2 & -> & H2). exists g2, c2. cbn in *. split; [by rewrite app_assoc|]. by eapply status_after_trans.
Qed.

Lemma evolves_dirs s ds : evolves s (s <| dirs := ds |>) [] ds.
Proof. exists (global_status s), (clock s). split; [|by left]. rewrite app_nil_r. by destruct s. Qed.

Lemma evolves_fields s s' l ds : evolves s s' l ds -> dirs s' = ds /\ log s' = log s ++ l /\ lock s' = lock s /\ root s' = root s /\
  location s' = location s /\ uvm_mmu_use_cpu C s' = uvm_mmu_use_cpu C s /\ (global_status s <> NV_OK -> global_status s' = global_status s).
Proof. intros (g & c & -> & ?). split_and!; try done. by apply status_after_kept. Qed.

Lemma evolves_known s s' l ds : evolves s s' l ds -> known s -> known s'.
Proof. intros (g & c & -> & ?). by apply status_after_known. Qed.

Lemma mem_of_evolves s s' l ds : evolves s s' l ds -> mem_of s' = mem_after (mem_of s) (log_writes l).
Proof. intros (_ & Hl & _)%evolves_fields. unfold mem_of. by rewrite Hl, log_writes_app, mem_after_app. Qed.

Definition delete_all (L : list dir_ptr) (ds : dir_store) : dir_store := foldl (fun ds p => delete p ds) ds L.

Lemma delete_all_lookup L : forall ds x, delete_all L ds !! x = if bool_decide (x ∈ L) then None else ds !! x.
Proof.
  induction L as [|p L IH]; intros ds x; [by rewrite bool_decide_eq_false_2 by apply not_elem_of_nil|].
  change (delete_all (p :: L) ds) with (delete_all L (delete p ds)). rewrite IH. destruct (decide (x ∈ L)).
  - by rewrite !bool_decide_eq_true_2 by (rewrite ?elem_of_cons; auto).
  - rewrite (bool_decide_eq_false_2 (x ∈ L)) by done. destruct (decide (x = p)) as [->|Hne].
    + by rewrite lookup_delete_eq, bool_decide_eq_true_2 by (rewrite elem_of_cons; auto).
    + by rewrite lookup_delete_ne, bool_decide_eq_false_2 by (rewrite ?elem_of_cons; tauto || done).
Qed.

Definition freed (l : list mem_op) : list uvm_mmu_page_table_alloc_t := omap (fun o => match o with OpFree a => Some a | _ => None end) l.
Definition free_op (o : mem_op) : Prop := match o with OpWait | OpFree _ => True | _ => False end.

Lemma free_ops_write_nothing l : Forall free_op l -> log_writes l = [].
Proof. induction 1 as [|o l Ho _ IH]; [done|]. unfold log_writes in *. cbn [mbind list_bind]. rewrite IH. by destruct o. Qed.

Lemma phys_mem_deallocate_spec s a : lock s = true -> known s -> (aperture (pa_addr a) = UVM_APERTURE_SYS \/ aperture (pa_addr a) = UVM_APERTURE_VID) ->
  spec true (phys_mem_deallocate E a) (fun _ s' => exists l, later s s' l /\ Forall free_op l /\ freed l = [a]) s.
Proof.
  intros Hlock Hkn Ha. unfold phys_mem_deallocate, phys_mem_deallocate_sysmem, phys_mem_deallocate_vidmem.
  assert (Hlk : forall s, lock s = true -> uvm_assert_mutex_locked s = Returns (tt, s)) by (intros x Hx; unfold uvm_assert_mutex_locked; rewrite sm_bind_get; by rewrite Hx).
  assert (Hsv : is_sys (pa_addr a) = true \/ (is_sys (pa_addr a) = false /\ is_vid (pa_addr a) = true)).
  { unfold is_sys, is_vid. destruct Ha as [-> | ->]; [by left|by right]. }
  destruct Hsv as [Hsys|[Hsys Hvid]]; rewrite Hsys.
  - eapply spec_bind_run; [by apply Hlk|]. eapply spec_bind; [apply tracker_wait_spec|]. intros st s1 [Hl Hst]. apply spec_bind_get.
    apply spec_bind_assert; [destruct (status_ok_known _ _ Hst) as [-> | ->]; [by eapply status_after_known, Hkn; eapply later_status|done|rewrite Z.eqb_refl; apply orb_true_r]|]. apply spec_bind_assert; [done|].
    unfold append. apply spec_modify. eexists. split; [eapply later_trans; [exact Hl|apply later_append]|].
    split; [destruct (st =? NV_OK); repeat constructor|]. by destruct (st =? NV_OK).
  - eapply spec_bind_run; [by apply Hlk|]. apply spec_bind_assert; [done|]. unfold append. apply spec_modify. exists [OpFree a].
    split; [apply later_append|]. split; [repeat constructor|done].
Qed.

Lemma free_directories_spec L : forall s rt P Pf X R, tree_struct h F (dirs s) rt P X R -> P ≡ₚ L ++ Pf -> lock s = true -> known s ->
  spec true (free_directories E L) (fun _ s' => exists l, evolves s s' l (delete_all L (dirs s)) /\ Forall free_op l /\
    map Some (freed l) = map (fun p => phys_alloc <$> dirs s !! p) L /\ tree_struct h F (dirs s') rt Pf X R) s.
Proof.
  induction L as [|p L IH]; intros s rt P Pf X R Hts HP Hlock Hkn.
  { cbn [free_directories]. apply spec_ret. exists []. split_and!; try done; [apply evolves_refl|]. eapply struct_weaken; [exact Hts|done|auto|done]. }
  cbn [free_directories]. unfold free_directory.
  destruct (ts_private _ _ _ _ _ _ _ Hts p) as (d & Hd & _); [rewrite HP; by left|]. destruct (ts_shape _ _ _ _ _ _ _ Hts p d Hd) as [ps Hs].
  eapply spec_bind.
  { eapply spec_bind_dir; [exact Hd|]. eapply spec_bind; [apply (phys_mem_deallocate_spec s _ Hlock Hkn); destruct (sh_point _ _ _ _ Hs) as [? _]; tauto|].
    intros [] s1 (l & Hl & Hf & Hfr). unfold uvm_kvfree. apply spec_modify. instantiate (1 := fun _ s' => exists l, evolves s s' l (delete p (dirs s)) /\ Forall free_op l /\ freed l = [phys_alloc d]).
    exists l. split; [|done]. apply later_evolves in Hl. destruct (evolves_fields _ _ _ _ Hl) as (Hd1 & _). rewrite <- Hd1. rewrite <- (app_nil_r l).
    eapply evolves_trans; [exact Hl|]. apply evolves_dirs. }
  intros [] s1 (l & Hev & Hf & Hfr). destruct (evolves_fields _ _ _ _ Hev) as (Hd1 & _ & Hlk1 & _).
  eapply spec_mono; [eapply (IH s1 rt (L ++ Pf) Pf X R); [|done|by rewrite Hlk1|by eapply evolves_known]|].
  - rewrite Hd1. eapply struct_delete; [exact Hts|done].
  - intros [] s2 (l2 & Hev2 & Hf2 & Hfr2 & Hts2). exists (l ++ l2). rewrite Hd1 in *. split; [eapply evolves_trans; [exact Hev|exact Hev2]|].
    split; [by apply Forall_app|]. split; [|done]. unfold freed in *. rewrite omap_app, Hfr. cbn [app map]. rewrite Hd. cbn [fmap option_fmap option_map]. f_equal.
    rewrite Hfr2. apply list_fmap_ext. intros j x Hx. f_equal. apply lookup_delete_ne. intros ->.
    pose proof (ts_private_nodup _ _ _ _ _ _ _ Hts) as Hnd. rewrite HP in Hnd. cbn in Hnd. apply NoDup_cons in Hnd as [Hn _]. apply Hn.
    rewrite elem_of_app. left. by eapply list_elem_of_lookup_2.
Qed.
End ops.
