(* ===== verification/PageTreeGet.v ===== *)
(** * Getting page table entries

    The specification of [try_get_ptes] and of [uvm_page_tree_get_ptes_async] with
    other threads at work: no assertion fails, the loop ends, the tree stays
    coherent and in memory, and the range that is returned is the one that the MMU
    reads for the addresses of the request. *)

From S2P Require Import Prelude PageMask StateMonad Push PmmChunks MmuTypes MmuHopper MmuPush PteBatch TlbBatch PageTree PageTreeInv PageTreeRun PageTreeWalk PageTreeMem PageTreeOps.

Section get.
Context {Hfatal : fatal_code}.
Context (C : tree_config) (E : page_tree_env) (F : hw_format).
Notation h := (cfg_hal C).
Context `{Hhal : !hal_ok h F}.
Hypothesis Hpush : pushes_ok E.
(** Systems whose CPU writes page tables have tables of at most a page. *)
Hypothesis Hsmall : cfg_ce_phys_vidmem_write_supported C = false -> cfg_static_flat_mapping_ready C = false ->
  forall dep ps, halloc h dep ps <= PAGE_SIZE.
(** The entries that their holders write. *)
Context (W : dir_ptr -> Z -> Prop).

(** The invariant of a tree: private directories [P], held ranges [R]. *)
Record tree_inv (s : page_tree) (rt : dir_ptr) (P : list dir_ptr) (R : list uvm_page_table_range_t) : Prop := {
  ti_root : root s = Some rt;
  ti_struct : tree_struct h F (dirs s) rt P [] R;
  ti_known : known s;
  ti_mem : global_status s = NV_OK -> tables_match C F (mem_of s) (dirs s) P W
}.

Lemma page_tables_small s rt P X R : tree_struct h F (dirs s) rt P X R -> uvm_mmu_use_cpu C s = true ->
  forall p d, dirs s !! p = Some d -> pa_size (phys_alloc d) <= PAGE_SIZE.
Proof.
  intros Hts Hcpu p d Hd. unfold uvm_mmu_use_cpu in Hcpu. rewrite !andb_true_iff, !negb_true_iff in Hcpu. destruct Hcpu as [[_ H1] H2].
  destruct (ts_shape _ _ _ _ _ _ _ Hts p d Hd) as [ps Hs]. rewrite (sh_size _ _ _ _ Hs). by apply Hsmall.
Qed.

(** The way of an address leads through the tree. *)
Lemma walk_dir_public ds rt P X R ps a n : tree_struct h F ds rt P X R -> forall p, walk_dir C ds rt ps a n = Some p -> p ∉ P /\ is_Some (ds !! p).
Proof.
  intros Hts. induction n as [|n IH]; intros p; cbn [walk_dir].
  - intros [= <-]. destruct (ts_root _ _ _ _ _ _ _ Hts) as (d & Hd & _ & _ & Hn). rewrite Hd. eauto.
  - rewrite bind_Some. intros (q & Hq & Hrest). rewrite bind_Some in Hrest. destruct Hrest as (dq & Hdq & Hrest). rewrite bind_Some in Hrest.
    destruct Hrest as (k & _ & Hj). unfold entry_at in Hj. destruct (entries dq !! Z.to_nat k) as [[c|]|] eqn:Ec; try done. cbn in Hj. injection Hj as ->.
    destruct (ts_child _ _ _ _ _ _ _ Hts q dq _ p Hdq Ec) as (Hn & _ & dp & Hdp & _). rewrite Hdp. eauto.
Qed.

Lemma walk_dir_same ds ds' rt P X R ps a n : tree_struct h F ds rt P X R -> (forall x, x ∉ P -> ds' !! x = ds !! x) ->
  forall p, walk_dir C ds rt ps a n = Some p -> walk_dir C ds' rt ps a n = Some p.
Proof.
  intros Hts Hsame. induction n as [|n IH]; intros p; [done|]. cbn [walk_dir]. rewrite !bind_Some. intros (q & Hq & Hrest). exists q.
  split; [auto|]. rewrite Hsame; [done|]. by apply (walk_dir_public ds rt P X R ps a n Hts).
Qed.

(** ** Directories that are not used *)
Lemma free_unused_run used cache s : free_unused_directories E used cache s = free_directories E (filter (fun p => p ∉ used) (omap id cache)) s.
Proof.
  revert s. induction cache as [|[p|] cache IH]; intros s; [done| |by apply IH]. cbn [free_unused_directories omap list_omap].
  change (omap id cache) with (list_omap _ _ id cache) in IH. cbn [id]. rewrite filter_cons. destruct (decide (p ∈ used)) as [Hin|Hin].
  - rewrite bool_decide_eq_true_2, sm_bind_ret by done. destruct (decide (p ∉ used)) as [Hn|_]; [done|]. apply IH.
  - rewrite bool_decide_eq_false_2 by done. destruct (decide (p ∉ used)) as [_|Hn]; [|done]. cbn [free_directories].
    unfold mbind, SM_bind. destruct (free_directory E p s) as [[a s']| |]; [apply IH|done|done].
Qed.

Lemma cache_split (used cached Pf P' : list dir_ptr) : NoDup (cached ++ Pf) -> cached ++ Pf ≡ₚ used ++ P' -> (forall x, x ∈ used -> x ∈ cached) ->
  P' ≡ₚ filter (fun p => p ∉ used) cached ++ Pf.
Proof.
  intros Hnd HP Hsub. assert (Hc : cached ≡ₚ used ++ filter (fun p => p ∉ used) cached).
  { pose proof Hnd as Hnd'. rewrite HP in Hnd'. apply NoDup_app in Hnd' as (Hu & _). apply NoDup_app in Hnd as (Hnc & _).
    apply NoDup_Permutation; [done| |].
    - apply NoDup_app. split; [done|]. split; [|by apply NoDup_filter]. intros x Hx [Hn _]%list_elem_of_filter. done.
    - intros x. rewrite elem_of_app, list_elem_of_filter. destruct (decide (x ∈ used)); split; intros; auto; tauto. }
  rewrite Hc, <- app_assoc in HP. by apply Permutation_app_inv_l in HP.
Qed.

Section freed.
Context (s1 s2 : page_tree) (rt : dir_ptr) (P' X Pf L : list dir_ptr) (R : list uvm_page_table_range_t) (used : list dir_ptr).
Hypothesis Hts : tree_struct h F (dirs s1) rt P' X R.
Hypothesis HP : P' ≡ₚ L ++ Pf.
Hypothesis Hd : dirs s2 = delete_all L (dirs s1).
Hypothesis Hused : forall x, x ∈ used -> x ∉ P'.

Lemma freed_in x : x ∈ L -> x ∈ P'.
Proof. rewrite HP, elem_of_app. auto. Qed.

Lemma freed_lookup x : x ∉ L -> dirs s2 !! x = dirs s1 !! x.
Proof. intros Hx. by rewrite Hd, delete_all_lookup, bool_decide_eq_false_2. Qed.

Lemma freed_pending q i : pending s2 used q i <-> pending s1 used q i.
Proof.
  unfold pending. split; intros (p & d & Hp & Hdp & Hrest); exists p, d; (split; [done|]); (split; [|done]);
    [rewrite <- freed_lookup|rewrite freed_lookup]; try done; intros ?%freed_in; by apply (Hused p).
Qed.

Lemma freed_children x d i : dirs s1 !! x = Some d -> children C (dirs s2) d i = children C (dirs s1) d i.
Proof.
  intros Hx. apply children_ext; [done|done|]. intros k c Hc. destruct (ts_child _ _ _ _ _ _ _ Hts x d k c Hx Hc) as (Hn & _).
  rewrite freed_lookup; [done|]. by intros ?%freed_in.
Qed.

Lemma freed_new_tables ps W0 : Forall (new_table C F s1 P' ps W0) used -> Forall (new_table C F s2 Pf ps W0) used.
Proof.
  intros Hall. eapply Forall_impl; [exact Hall|]. intros x (d & Hx & HxP & Hs & Hc). assert (x ∉ L) by (by intros ?%freed_in).
  exists d. rewrite freed_lookup by done. split_and!; try done; [intros ?; apply HxP; rewrite HP, elem_of_app; auto|].
  intros i Hi HW. by rewrite (freed_children x) by done; apply Hc.
Qed.

Lemma freed_match M Q W0 : tables_match C F M (dirs s1) (Q ++ P') W0 -> tables_match C F M (dirs s2) (Q ++ Pf) W0.
Proof.
  intros Hm x d i Hx HxP Hlt Hi HW. assert (HxL : x ∉ L) by (intros Hin; rewrite Hd, delete_all_lookup, bool_decide_eq_true_2 in Hx by done; done).
  rewrite freed_lookup in Hx by done. rewrite (freed_children x) by done. apply (Hm x); try done.
  intros [Hin|Hin]%elem_of_app; apply HxP, elem_of_app; [auto|]. rewrite HP in Hin. apply elem_of_app in Hin. tauto.
Qed.
End freed.

(** ** One attempt *)
Definition can_address (s : page_tree) (start size : Z) : Prop :=
  match tree_type s with
  | UVM_PAGE_TREE_TYPE_USER => uvm_gpu_can_address C start size
  | UVM_PAGE_TREE_TYPE_KERNEL => uvm_gpu_can_address_kernel C start size
  end = Some true.

Section try.
Context (s : page_tree) (rt : dir_ptr) (Pf : list dir_ptr) (R : list uvm_page_table_range_t).
Context (ps start size : Z) (cache : list (option dir_ptr)).
Notation cached := (omap id cache).
Hypothesis Hinv : tree_inv s rt (cached ++ Pf) R.
Hypothesis Hlock : lock s = true.
Hypothesis Hps : supported h ps = true.
Hypothesis Hreq : request_in_table C ps start size.
Hypothesis Hcan : can_address s start size.
Hypothesis Hroom : forall p d, dirs s !! p = Some d -> ref_count d <= 2 ^ 31.
Hypothesis Hclen : length cache = Z.to_nat MAX_OPERATION_DEPTH.
Hypothesis Hcache : forall e c, cache !! e = Some (Some c) -> exists dc, dirs s !! c = Some dc /\ depth dc = Z.of_nat e + 1 /\ shape h F dc ps.

(** How the directories of the cache that are now used got to be part of the tree in
    memory: those that are not used were freed, with exactly their memory, which leads
    to [s1], and the tables were initialised and linked from there. *)
Definition updated (s' : page_tree) : Prop := exists s1 used inval lf l,
  dirs s' = dirs s1 /\ log s1 = log s ++ lf /\ Forall free_op lf /\
  map Some (freed lf) = map (fun p => phys_alloc <$> dirs s !! p) (filter (fun p => p ∉ used) cached) /\ log s' = log s1 ++ l /\
  (forall p, p ∈ used <-> p ∈ cached /\ is_Some (dirs s' !! p)) /\
  (used = [] /\ l = [] \/
   (forall p, p ∈ used -> exists d, dirs s1 !! p = Some d /\ 0 <= inval < depth d) /\
   exists d, dirs s1 !! rt = Some d /\ (gpu_update C F s1 Pf inval used W d l \/ cpu_update C F s1 Pf inval used W d l)).

Record got_range (s' : page_tree) (r : uvm_page_table_range_t) : Prop := {
  gr_inv : tree_inv s' rt Pf (r :: R);
  gr_range : exists p, r = mk_pt_range (Some p) (va_index C ps start (hdepth h ps)) (size / ps) ps /\
    walk_dir C (dirs s') rt ps start (Z.to_nat (hdepth h ps)) = Some p
}.

(** The fields that an attempt leaves alone. *)
Definition same_fields (s s' : page_tree) : Prop :=
  lock s' = lock s /\ root s' = root s /\ tree_type s' = tree_type s /\ location s' = location s /\
  location_sys_fallback s' = location_sys_fallback s /\ status_after (global_status s) (global_status s').

Definition try_post (range : uvm_page_table_range_t) (res : NV_STATUS * uvm_page_table_range_t * Z) (s' : page_tree) : Prop :=
  let '(st, r, dep) := res in same_fields s s' /\
  (st = NV_ERR_MORE_PROCESSING_REQUIRED /\ r = range /\ 0 <= dep < hdepth h ps /\ cache !! Z.to_nat dep = Some None /\
     tree_inv s' rt (cached ++ Pf) R /\ (forall x d', dirs s' !! x = Some d' -> exists d, dirs s !! x = Some d /\ ref_count d' = ref_count d) /\
     (forall e c, cache !! e = Some (Some c) -> exists dc, dirs s' !! c = Some dc /\ depth dc = Z.of_nat e + 1 /\ shape h F dc ps)
   \/ status_ok st s' /\ got_range s' r /\ (global_status s' = NV_OK -> updated s')).

Lemma place_all_lookup ls x d' : forall ds, place_all ls ds !! x = Some d' -> exists d, ds !! x = Some d /\ ref_count d' = ref_count d /\ depth d' = depth d /\
  phys_alloc d' = phys_alloc d /\ entries d' = entries d.
Proof.
  induction ls as [|l ls IH]; intros ds; [cbn; eauto 10|]. intros Hx. change (place_all ls (place_dir l ds) !! x = Some d') in Hx.
  destruct (IH _ Hx) as (d1 & Hd1 & ? & ? & ? & ?). unfold place_dir in Hd1. destruct (decide (lk_child l = x)) as [<-|Hne].
  - rewrite lookup_alter_eq in Hd1. destruct (ds !! lk_child l) as [d0|]; [|done]. cbn in Hd1. injection Hd1 as <-. exists d0. done.
  - rewrite lookup_alter_ne in Hd1 by done. exists d1. done.
Qed.

Lemma place_all_back ls x d : forall ds, ds !! x = Some d -> exists d', place_all ls ds !! x = Some d'.
Proof.
  intros ds. revert d. revert ds. induction ls as [|l ls IH]; intros ds d Hx; [by exists d|]. change (place_all (l :: ls) ds) with (place_all ls (place_dir l ds)).
  unfold place_dir. destruct (decide (lk_child l = x)) as [<-|Hne]; eapply IH; [by rewrite lookup_alter_eq, Hx|by rewrite lookup_alter_ne].
Qed.

Lemma shape_same d d' ps' : depth d' = depth d -> phys_alloc d' = phys_alloc d -> entries d' = entries d -> shape h F d ps' -> shape h F d' ps'.
Proof. intros H1 H2 H3 []. constructor; rewrite ?H1, ?H2, ?H3; done. Qed.

(** The attempt found a directory missing. *)
Lemma try_missing range dep s' : walk_missing C s (cached ++ Pf) ps cache s' dep ->
  try_post range (NV_ERR_MORE_PROCESSING_REQUIRED, range, dep) s'.
Proof.
  intros (Hdep & Hnone & ls & Hls & ->). split; [split_and!; try done; by left|]. left. split; [done|]. split; [done|]. split; [done|]. split; [done|]. destruct Hinv as [Hr Hts Hkn Hm].
  assert (Hts' : tree_struct h F (place_all ls (dirs s)) rt (cached ++ Pf) [] R) by (by apply place_all_struct).
  split; [constructor; try done|split].
  - intros Hg x d' i Hx HxP Hlt Hi HW. cbn in *. destruct (place_all_lookup ls x d' _ Hx) as (d & Hd & _ & Hdp & Hpa & He).
    rewrite (hw_entry_at_ext C F _ d d' i Hdp Hpa). rewrite (children_ext C (dirs s) _ d d' i Hdp).
    + rewrite Hdp in *. by apply (Hm Hg x).
    + by rewrite He.
    + intros k c Hc. destruct (ts_child _ _ _ _ _ _ _ Hts x d k c Hd Hc) as (_ & _ & dc & Hdc & _).
      destruct (place_all_back ls c dc _ Hdc) as [dc' Hdc']. destruct (place_all_lookup ls c dc' _ Hdc') as (d1 & ? & _ & _ & Hpc & _). simplify_eq.
      rewrite Hdc', Hdc. cbn. by rewrite Hpc.
  - intros x d' Hx. destruct (place_all_lookup ls x d' _ Hx) as (d & ? & ? & _). eauto.
  - intros e c Hc. destruct (Hcache e c Hc) as (dc & Hdc & Hdep' & Hs). destruct (place_all_back ls c dc _ Hdc) as [dc' Hdc'].
    destruct (place_all_lookup ls c dc' _ Hdc') as (d1 & ? & _ & Hd1 & Hpc & He). simplify_eq. exists dc'. split; [done|]. split; [by rewrite Hd1|]. by eapply shape_same.
Qed.

Section found.
Context (s1 : page_tree) (r : uvm_page_table_range_t) (ls : list link) (P' : list dir_ptr) (p : dir_ptr) (d : uvm_page_directory_t) (inval : Z).
Hypothesis Hfound : walk_found C F s rt (cached ++ Pf) R ps start size cache s1 r ls P' p d.
Hypothesis Hfirst : first_depth s ls inval.
Notation used := (map lk_child ls).
Notation L := (filter (fun p => p ∉ used) cached).
Context (s2 : page_tree).
Hypothesis Hlock2 : lock s2 = true.
Hypothesis Hroot2 : root s2 = Some rt.
Hypothesis Hd2 : dirs s2 = delete_all L (dirs s1).
Hypothesis Hts2 : tree_struct h F (dirs s2) rt Pf [] (r :: R).
Hypothesis Hmem2 : mem_of s2 = mem_of s.

Lemma found_split : P' ≡ₚ L ++ Pf.
Proof.
  pose proof (wf_walking Hfound) as Wk. apply (cache_split used cached Pf P').
  - exact (ts_private_nodup _ _ _ _ _ _ _ (ti_struct _ _ _ _ Hinv)).
  - apply (wk_private Wk).
  - intros x (l & -> & Hl)%list_elem_of_fmap. apply list_elem_of_omap. exists (Some (lk_child l)). split; [by apply (wk_cached Wk)|done].
Qed.

Lemma found_used x : x ∈ used -> x ∉ P' /\ x ∈ cached ++ Pf.
Proof.
  intros Hx. pose proof (wf_walking Hfound) as Wk. split; [|rewrite (wk_private Wk), elem_of_app; auto].
  by apply (walking_nodup C F s rt _ R ps start cache (ti_struct _ _ _ _ Hinv) ls p d P' Wk).
Qed.

Lemma found_update W1 : tables_match C F (mem_of s) (dirs s) (cached ++ Pf) W1 ->
  spec true (write_gpu_state C E ps inval used) (update_post C F s2 rt Pf inval used W1) s2.
Proof.
  intros Hm. pose proof (ti_struct _ _ _ _ Hinv) as Hts. pose proof found_split as HP.
  assert (Hused : forall x, x ∈ used -> x ∉ P') by (intros x Hx; by apply found_used).
  pose proof (wf_struct Hfound) as Hts1.
  assert (Hpend : forall q i, pending s2 used q i <-> pending s1 used q i) by (intros q i; by apply (freed_pending s1 s2 P' Pf L used HP Hd2 Hused)).
  assert (Hnew : Forall (new_table C F s2 Pf ps (fun q i => W1 q i \/ pending s2 used q i)) used).
  { eapply Forall_impl; [apply (freed_new_tables s1 s2 rt P' [] Pf L (r :: R) used Hts1 HP Hd2 ps (fun q i => W1 q i \/ pending s1 used q i))|].
    - by eapply (walked_new_tables C F s rt _ R ps start size cache s1 r ls P' p d Hts Hfound).
    - intros x (dx & Hx & HxP & Hs & Hc). exists dx. split_and!; try done. intros i Hi HW. apply Hc; [done|]. by rewrite <- Hpend. }
  apply (write_gpu_state_spec C E F Hpush s2 rt Pf [] Pf (r :: R) ps inval used W1); try done.
  - intros Hcpu. by eapply page_tables_small.
  - apply Forall_forall. intros x Hx. destruct (proj1 (Forall_forall _ _) Hnew x Hx) as (dx & Hdx & HxP & _).
    eapply (tree_new_child C F); try done. intros ->. destruct (ts_root _ _ _ _ _ _ _ Hts) as (? & _ & _ & _ & Hn). by apply Hn, found_used.
  - rewrite Hmem2. apply (tables_match_weaken C F _ _ (used ++ Pf) _ (fun q i => W1 q i \/ pending s1 used q i)); [|done|intros q i [?|?]; [auto|right; by apply Hpend]].
    apply (freed_match s1 s2 rt P' [] Pf L (r :: R) Hts1 HP Hd2 (mem_of s) used). exact (walked_match C F s rt _ R ps start size cache s1 r ls P' p d Hts Hfound (mem_of s) W1 Hm).
  - intros Hne. destruct Hfirst as [[-> _]|[? _]]; done.
Qed.

Lemma found_path : walk_dir C (dirs s2) rt ps start (Z.to_nat (hdepth h ps)) = Some p.
Proof.
  pose proof (wf_walking Hfound) as Wk. apply (walk_dir_same (dirs s1) (dirs s2) rt P' [] (r :: R) ps start _ (wf_struct Hfound)).
  - intros x Hx. rewrite Hd2, delete_all_lookup, bool_decide_eq_false_2; [done|]. intros Hin. apply Hx. rewrite found_split, elem_of_app. auto.
  - eapply walk_dir_grows; [|rewrite <- (wf_depth Hfound); exact (wk_path Wk)]. rewrite (wf_state Hfound). cbn. intros q dq Hq.
    destruct (decide (p = q)) as [<-|Hne]; [|rewrite lookup_insert_ne by done; eauto]. rewrite lookup_insert_eq.
    rewrite (wk_dir Wk) in Hq. injection Hq as <-. eauto.
Qed.

Lemma found_depths x : x ∈ used -> exists dx, dirs s2 !! x = Some dx /\ 0 <= inval < depth dx.
Proof.
  intros Hx. destruct (found_used x Hx) as [HxP _]. pose proof Hx as (l & -> & Hl)%list_elem_of_fmap. pose proof (wf_walking Hfound) as Wk.
  destruct (wk_above Wk l Hl) as (d0 & Hd0 & _). destruct (walked_lookup_back C F s rt _ R ps start size cache s1 r ls P' p d Hfound _ _ Hd0) as (dx & Hdx).
  assert (Hdx2 : dirs s2 !! lk_child l = Some dx).
  { rewrite Hd2, delete_all_lookup, bool_decide_eq_false_2; [done|]. intros [Hn _]%list_elem_of_filter. done. }
  exists dx. split; [done|]. destruct Hfirst as [[-> _]|(H0 & Hall)]; [by apply elem_of_nil in Hl|]. destruct (Hall l Hl) as (dc & Hdc & Hlt).
  destruct (walked_lookup C F s rt _ R ps start size cache s1 r ls P' p d Hfound _ _ Hdx) as (d1 & ? & -> & _). simplify_eq. done.
Qed.

Lemma found_cached x : x ∈ used <-> x ∈ cached /\ is_Some (dirs s2 !! x).
Proof.
  split.
  - intros Hx. destruct (found_depths x Hx) as (dx & Hdx & _). split; [|by rewrite Hdx]. pose proof (wf_walking Hfound) as Wk. apply list_elem_of_fmap in Hx as (l & -> & Hl).
    apply list_elem_of_omap. exists (Some (lk_child l)). split; [by apply (wk_cached Wk)|done].
  - intros [Hc [dx Hdx]]. destruct (decide (x ∈ used)) as [?|Hn]; [done|]. rewrite Hd2, delete_all_lookup, bool_decide_eq_true_2 in Hdx; [done|]. by apply list_elem_of_filter.
Qed.

Context (lf : list mem_op).
Hypothesis Hlog2 : log s2 = log s ++ lf.
Hypothesis Hfree2 : Forall free_op lf.
Hypothesis Hfreed2 : map Some (freed lf) = map (fun p => phys_alloc <$> dirs s1 !! p) L.

Lemma found_freed : map Some (freed lf) = map (fun p => phys_alloc <$> dirs s !! p) L.
Proof.
  rewrite Hfreed2. apply list_fmap_ext. intros j x _. destruct (dirs s1 !! x) as [dx|] eqn:Hx.
  - destruct (walked_lookup C F s rt _ R ps start size cache s1 r ls P' p d Hfound _ _ Hx) as (d0 & -> & _ & Hpa & _). cbn. by rewrite Hpa.
  - destruct (dirs s !! x) as [d0|] eqn:H0; [|done]. destruct (walked_lookup_back C F s rt _ R ps start size cache s1 r ls P' p d Hfound _ _ H0) as (dx & Hdx). congruence.
Qed.

Lemma found_post range cur l st s3 : same_fields s s2 -> later s2 s3 l -> status_ok st s3 ->
  (global_status s3 = NV_OK -> st = NV_OK -> used <> [] ->
     exists d, dirs s2 !! rt = Some d /\ (gpu_update C F s2 Pf inval used W d l \/ cpu_update C F s2 Pf inval used W d l)) ->
  (used = [] -> l = [] /\ st = NV_OK) -> try_post range (st, r, cur) s3.
Proof.
  intros Hsame Hl Hst Hup Hnil. pose proof (later_dirs _ _ _ Hl) as (Hd3 & Hlog3 & _ & Hr3 & _). pose proof (mem_of_later _ _ _ Hl) as Hm3.
  assert (Hglob : global_status s3 = NV_OK -> st = NV_OK /\ global_status s = NV_OK).
  { intros Hg. destruct Hst as [->|(_ & H1)]; [|done]. split; [done|]. destruct (decide (global_status s = NV_OK)) as [?|Hne]; [done|]. exfalso.
    destruct Hsame as (_ & _ & _ & _ & _ & Hs). pose proof (status_after_trans _ _ _ Hs (later_status _ _ _ Hl)) as Hk. by rewrite (status_after_kept _ _ Hk Hne) in Hg. }
  split; [|right; split; [done|split]].
  - destruct Hsame as (E1 & E2 & E3 & E4 & E5 & E6). destruct Hl as (g & c & -> & Hk). unfold same_fields. cbn. split_and!; try done.
    by eapply status_after_trans.
  - constructor.
    + constructor; [by rewrite Hr3|by rewrite Hd3| |].
      { eapply status_after_known; [by eapply later_status|]. eapply status_after_known; [|apply Hinv]. by destruct Hsame as (_ & _ & _ & _ & _ & ?). }
      intros Hg. destruct (Hglob Hg) as [Hok Hg0]. rewrite Hm3, Hd3.
      destruct (decide (used = [])) as [Hu|Hu].
      * destruct (Hnil Hu) as [-> _]. rewrite Hmem2.
        pose proof (freed_match s1 s2 rt P' [] Pf L (r :: R) (wf_struct Hfound) found_split Hd2 (mem_of s) used _
          (walked_match C F s rt _ R ps start size cache s1 r ls P' p d (ti_struct _ _ _ _ Hinv) Hfound (mem_of s) W (ti_mem _ _ _ _ Hinv Hg0))) as Hm.
        rewrite Hu in Hm. eapply tables_match_weaken; [exact Hm|done|]. intros q i [?|(? & ? & ?%elem_of_nil & _)]; done.
      * destruct (Hup Hg Hok Hu) as (dr & _ & Hu'). by apply (update_match C F s2 Pf inval used W dr).
    + exists p. split; [apply (wf_range Hfound)|]. rewrite Hd3. apply found_path.
  - intros Hg. destruct (Hglob Hg) as [Hok Hg0]. exists s2, used, inval, lf, l. split; [done|]. split; [done|]. split; [done|]. split; [apply found_freed|]. split; [done|]. split; [rewrite Hd3; apply found_cached|].
    destruct (decide (used = [])) as [Hu|Hu]; [left; split; [done|]; by apply Hnil|right]. split; [apply found_depths|]. by apply Hup.
Qed.
End found.

(** The attempt found its range. *)
Lemma try_found range cur s1 r ls P' p d inval : walk_found C F s rt (cached ++ Pf) R ps start size cache s1 r ls P' p d -> first_depth s ls inval ->
  spec true (_ ← free_unused_directories E (map lk_child ls) cache; status ← write_gpu_state C E ps inval (map lk_child ls); mret (status, r, cur))
    (try_post range) s1.
Proof.
  intros Hf Hfirst. pose proof (wf_state Hf) as Hs1. pose proof (found_split s1 r ls P' p d Hf) as HP.
  eapply spec_bind.
  { unfold spec. rewrite free_unused_run. apply (free_directories_spec C E F Hpush _ s1 rt P' Pf [] (r :: R) (wf_struct Hf) HP); rewrite Hs1; [done|apply Hinv]. }
  intros [] s2 (lf & Hev & Hfree & Hfreed & Hts2). pose proof (evolves_fields C _ _ _ _ Hev) as (Hd2 & Hlog2 & Hlk2 & Hr2 & Hloc2 & _ & Hg2).
  assert (Hsame : same_fields s s2).
  { destruct Hev as (g & c & -> & Hk). unfold same_fields. rewrite Hs1 in *. cbn in *. done. }
  assert (Hmem2 : mem_of s2 = mem_of s).
  { rewrite (mem_of_evolves C _ _ _ _ Hev), free_ops_write_nothing by done. by rewrite Hs1. }
  assert (Hlog2' : log s2 = log s ++ lf) by (by rewrite Hlog2, Hs1).
  assert (Hlock2 : lock s2 = true) by (by rewrite Hlk2, Hs1). assert (Hroot2 : root s2 = Some rt) by (rewrite Hr2, Hs1; apply Hinv).
  assert (Hglob : forall s3 l3, later s2 s3 l3 -> global_status s3 = NV_OK -> global_status s = NV_OK).
  { intros s3 l3 Hl Hg. destruct (decide (global_status s = NV_OK)) as [?|Hne]; [done|]. exfalso.
    destruct Hsame as (_ & _ & _ & _ & _ & Hs). pose proof (status_after_trans _ _ _ Hs (later_status _ _ _ Hl)) as Hk. by rewrite (status_after_kept _ _ Hk Hne) in Hg. }
  destruct (decide (global_status s = NV_OK)) as [Hg|Hg].
  - eapply spec_bind; [by eapply (found_update s1 r ls P' p d inval Hf Hfirst s2); [..|apply Hinv]|].
    intros st s3 (l3 & Hl3 & Hst & Hup & Hnil). apply spec_ret. eapply (found_post s1 r ls P' p d inval Hf Hfirst s2) with (lf := lf); try done.
  - eapply spec_bind; [eapply (found_update s1 r ls P' p d inval Hf Hfirst s2 Hlock2 Hroot2 Hd2 Hts2 Hmem2 (fun _ _ => True)); by intros ? ? ? ? ? ? ? []|].
    intros st s3 (l3 & Hl3 & Hst & Hup & Hnil). apply spec_ret. eapply (found_post s1 r ls P' p d inval Hf Hfirst s2) with (lf := lf); try done. intros Hg3. by destruct (Hg (Hglob _ _ Hl3 Hg3)).
Qed.

Lemma try_get_ptes_spec range cur : spec true (try_get_ptes C E ps start size range cur cache) (try_post range) s.
Proof.
  unfold try_get_ptes. eapply spec_bind_run; [unfold uvm_assert_mutex_locked; rewrite sm_bind_get; by rewrite Hlock|].
  pose proof Hps as Hps'. unfold supported in Hps'. apply andb_true_iff in Hps' as [Hp1 Hp2]. apply spec_bind_assert; [done|]. apply spec_bind_assert; [done|].
  destruct (rt_aligned _ _ _ _ Hreq) as [Ha1 Ha2]. apply spec_bind_assert; [by rewrite Ha1, Ha2|]. apply spec_bind_get.
  eapply spec_bind_lift; [exact Hcan|]. apply spec_bind_assert; [done|]. eapply spec_bind_lift; [apply Hinv|].
  eapply spec_bind; [apply (walk_root_spec C F s rt (cached ++ Pf) R ps start size cache (ti_struct _ _ _ _ Hinv) Hps Hreq Hroom Hclen)|].
  - intros e c Hc. split; [|by apply Hcache]. rewrite elem_of_app. left. apply list_elem_of_omap. exists (Some c). split; [by eapply list_elem_of_lookup_2|done].
  - intros [dep|r used inval] s1; cbn [walk_post].
    + intros Hm. apply spec_ret. by apply try_missing.
    + intros (ls & P' & p & d & Hf & -> & Hfirst). by eapply try_found.
Qed.
End try.
End get.
