(* ===== verification/PageTreePut.v ===== *)
(** * Putting page table entries back

    What [uvm_page_tree_put_ptes_async] does under the lock: the directories that
    lose their last reference are unlinked from the bottom up, in the tree and in
    memory, the TLB entries of what was unlinked are invalidated, and only then is
    their memory freed. *)

From S2P Require Import Prelude PageMask StateMonad Push PmmChunks MmuTypes MmuHopper MmuPush PteBatch TlbBatch PageTree PageTreeInv PageTreeRun PageTreeWalk PageTreeMem PageTreeOps PageTreeGet.

Section put.
Context {Hfatal : fatal_code}.
Context (C : tree_config) (E : page_tree_env) (F : hw_format).
Notation h := (cfg_hal C).
Context `{Hhal : !hal_ok h F}.
Hypothesis Hpush : pushes_ok E.
Hypothesis Hsmall : cfg_ce_phys_vidmem_write_supported C = false -> cfg_static_flat_mapping_ready C = false ->
  forall dep ps, halloc h dep ps <= PAGE_SIZE.
Context (W : dir_ptr -> Z -> Prop).

(** ** The place of a directory in its parent *)

(** The half of an entry is the one of the page size of the range below it. *)
Lemma slot_half q dq k dp ps : child_link h F q dq k dp -> supported h ps = true -> 0 <= depth dq -> depth dp <= hdepth h ps ->
  (depth dp = hmax h -> shape h F dp ps) -> Z.of_nat k mod hper h (depth dq) = hoffset h (depth dq) ps.
Proof.
  intros [_ Hdep _ (ps' & (Hs' & Hd' & Ho) & Hsh')] Hs H0 Hle Hleaf. destruct (ok_depth (F:=F) ps Hs) as [_ Hm], (ok_depth (F:=F) ps' Hs') as [_ Hm'].
  destruct (decide (depth dp = hmax h)) as [Hmax|Hmax].
  - pose proof (sh_size _ _ _ _ (Hleaf Hmax)) as Hz. rewrite (sh_size _ _ _ _ Hsh'), Hmax in Hz.
    assert (hdepth h ps = hmax h /\ hdepth h ps' = hmax h) as [Hp Hp'] by lia.
    rewrite (ok_leaf_alloc (F:=F) ps ps' Hs Hs' Hp Hp' (eq_sym Hz)). done.
  - assert (Hlt : 0 <= depth dq < hmax h - 1) by lia. pose proof (ok_halves (F:=F) (depth dq) Hlt) as Hper.
    destruct (ok_offset (F:=F) ps (depth dq) Hs ltac:(lia)) as [_ Hoff].
    rewrite Hper in *. rewrite Z.mod_1_r. lia.
Qed.

Section place.
Context (s : page_tree) (rt : dir_ptr) (P X : list dir_ptr) (R : list uvm_page_table_range_t).
Hypothesis Hts : tree_struct h F (dirs s) rt P X R.
Context (p : dir_ptr) (d : uvm_page_directory_t) (ps : Z).
Hypothesis Hd : dirs s !! p = Some d.
Hypothesis HpP : p ∉ P.
Hypothesis Hps : supported h ps = true.
Hypothesis Hle : depth d <= hdepth h ps.
Hypothesis Hleaf : depth d = hmax h -> shape h F d ps.

Lemma parent_slot q : host_parent d = Some q -> exists dq k, dirs s !! q = Some dq /\ q ∉ P /\ entries dq !! k = Some (Some p) /\ depth d = depth dq + 1 /\
  0 <= depth dq < hmax h /\ index_to_entry C (index_in_parent d) (depth dq) ps = Some (Z.of_nat k) /\ index_in_parent d = Z.of_nat k / hper h (depth dq) /\
  0 <= index_in_parent d < 2 ^ hbits h (depth dq) UVM_PAGE_SIZE_AGNOSTIC.
Proof.
  intros Hq. assert (Hr : p <> rt). { intros ->. destruct (ts_root _ _ _ _ _ _ _ Hts) as (dr & Hdr & _ & Hn & _). simplify_eq. }
  destruct (tree_new_child C F s rt P X R p d Hts Hd HpP Hr) as (d' & q' & dq & Hd' & Hq' & Hdq & HqP & Hlt & Hi).
  assert (d' = d) as -> by congruence. assert (q' = q) as -> by congruence. clear Hd' Hq'.
  destruct (ts_parent _ _ _ _ _ _ _ Hts p d Hd HpP Hr) as (q2 & dq2 & k & Hq2 & _ & Hk).
  destruct (ts_child _ _ _ _ _ _ _ Hts q2 dq2 k p Hq2 Hk) as (_ & _ & d2 & Hd2 & Hl). assert (d2 = d) as -> by congruence.
  pose proof (cl_parent _ _ _ _ _ _ Hl) as Hpar. assert (q2 = q) as -> by congruence. assert (dq2 = dq) as -> by congruence.
  destruct (ts_shape _ _ _ _ _ _ _ Hts q dq Hdq) as [psq Hs]. pose proof (sh_depth _ _ _ _ Hs) as Hdep. pose proof (cl_depth _ _ _ _ _ _ Hl) as Hd1.
  exists dq, k. split_and!; try done; try lia; [|apply (cl_index _ _ _ _ _ _ Hl)].
  destruct (shape_bits_any _ _ _ _ Hs Hlt) as [Hb _]. destruct (shape_bits _ _ _ _ Hs) as [_ Hb16]. rewrite Hb in Hi.
  assert (2 ^ hbits h (depth dq) psq <= 2 ^ 16) by (apply Z.pow_le_mono_r; lia).
  destruct (index_to_entry_ok C F ps (depth dq) (index_in_parent d) Hps ltac:(lia) ltac:(lia)) as (-> & _). f_equal.
  rewrite <- (slot_half q dq k d ps Hl Hps ltac:(lia) Hle Hleaf), (cl_index _ _ _ _ _ _ Hl). symmetry. apply Z.div_mod.
  destruct (shape_sizes _ _ _ _ Hs) as (_ & _ & _ & Hper). lia.
Qed.

(** Without the link the tables match but for the entry that has to be written. *)
Lemma unlink_match q dq k M Pm W0 : dirs s !! q = Some dq -> entries dq !! k = Some (Some p) -> tables_match C F M (dirs s) Pm W0 ->
  tables_match C F M (unlinked (dirs s) q dq k) (p :: Pm) (fun x j => W0 x j \/ (x = q /\ j = Z.of_nat k / hper h (depth dq))).
Proof.
  intros Hq Hk Hm x dx i Hx HxP Hlt Hi HW. rewrite not_elem_of_cons in HxP.
  assert (Hpa : forall c, phys_alloc <$> unlinked (dirs s) q dq k !! c = phys_alloc <$> dirs s !! c).
  { intros c. unfold unlinked. destruct (decide (c = q)) as [->|Hne]; [by rewrite lookup_insert_eq, Hq|by rewrite lookup_insert_ne]. }
  destruct (decide (x = q)) as [->|Hne].
  - unfold unlinked in Hx. rewrite lookup_insert_eq in Hx. injection Hx as <-. change (depth (unlink_parent dq k)) with (depth dq) in *.
    rewrite (hw_entry_at_ext C F M dq) by done. rewrite (children_ext C (dirs s) _ dq); [apply (Hm q); tauto|done| |auto].
    intros j Hj. cbn. rewrite list_lookup_insert_ne; [done|]. intros ->. apply HW. right. split; [done|].
    destruct (ts_shape _ _ _ _ _ _ _ Hts q dq Hq) as [psq Hs]. destruct (shape_sizes _ _ _ _ Hs) as (_ & _ & _ & Hper).
    rewrite Nat2Z.inj_add, Z2Nat.id by nia. rewrite Z.mul_comm, Z.add_comm, Z.div_add by lia. rewrite Z.div_small by lia. lia.
  - unfold unlinked in Hx. rewrite lookup_insert_ne in Hx by done. rewrite (children_ext C (dirs s) _ dx dx); [|done|done|auto]. apply (Hm x); tauto.
Qed.
End place.

(** ** Unlinking directories upwards *)
Section up.
Context (s0 : page_tree) (rt : dir_ptr) (P : list dir_ptr) (R : list uvm_page_table_range_t) (ps : Z).
Hypothesis Hps : supported h ps = true.
Hypothesis Hlock0 : lock s0 = true.
Hypothesis Hroot0 : root s0 = Some rt.
Hypothesis Hknown0 : known s0.

(** What does not change of a directory. *)
Definition place_of (d : uvm_page_directory_t) : option dir_ptr * Z * uvm_mmu_page_table_alloc_t * Z :=
  (host_parent d, index_in_parent d, phys_alloc d, depth d).

Definition this_membar (d : uvm_page_directory_t) : uvm_membar_t :=
  if uvm_mmu_use_cpu C s0 then UVM_MEMBAR_SYS else uvm_hal_downgrade_membar_type C (is_vid (pa_addr (phys_alloc d))).

(** The operations on memory so far, in the log or, of the GPU, in the push. *)
Definition put_ops (begun : bool) (s : page_tree) (st : put_state) : Prop :=
  if uvm_mmu_use_cpu C s0
  then methods (put_push st) = [] /\ exists lw, evolves s0 s ((if begun then [OpWait] else []) ++ lw) (dirs s) /\ Forall is_cpu_write lw /\ (begun = false -> lw = [])
  else evolves s0 s [] (dirs s) /\ Forall is_transfer (methods (put_push st)) /\ (begun = false -> methods (put_push st) = []).

Record putting (begun : bool) (s : page_tree) (q : dir_ptr) (st : put_state) : Prop := {
  pu_struct : tree_struct h F (dirs s) rt (free_queue st ++ P) [q] R;
  pu_ops : put_ops begun s st;
  pu_flags : flag_membar_gpu (put_push st) = false /\ flag_membar_none (put_push st) = false;
  pu_dir : exists d, dirs s !! q = Some d /\ q ∉ free_queue st ++ P /\ depth d + Z.of_nat (length (free_queue st)) = hdepth h ps /\
    (depth d = hmax h -> shape h F d ps) /\ (free_queue st <> [] -> put_invalidate_depth st = depth d);
  pu_match : global_status s = NV_OK -> tables_match C F (mem_after (mem_of s) (methods_writes (methods (put_push st)))) (dirs s) (free_queue st ++ P) W;
  pu_same x : place_of <$> dirs s !! x = place_of <$> dirs s0 !! x;
  pu_above x : x ∈ free_queue st -> exists d, dirs s0 !! x = Some d /\ hdepth h ps - Z.of_nat (length (free_queue st)) < depth d;
  pu_clears : (membar_after_pde_clears st = UVM_MEMBAR_GPU \/ membar_after_pde_clears st = UVM_MEMBAR_SYS) /\
    forall x d y dy, x ∈ free_queue st -> dirs s0 !! x = Some d -> host_parent d = Some y -> dirs s0 !! y = Some dy ->
      is_sys (pa_addr (phys_alloc dy)) = true -> membar_after_pde_clears st = UVM_MEMBAR_SYS;
  pu_after x d : x ∈ free_queue st -> dirs s0 !! x = Some d -> uvm_membar_max (membar_after_invalidate st) (this_membar d) = membar_after_invalidate st
}.

Lemma putting_evolves b s q st : putting b s q st -> exists l, evolves s0 s l (dirs s).
Proof. intros Hp. pose proof (pu_ops _ _ _ _ Hp) as Ho. unfold put_ops in Ho. destruct (uvm_mmu_use_cpu C s0); [destruct Ho as (_ & lw & ? & _)|destruct Ho as (? & _)]; eauto. Qed.

Lemma putting_known b s q st : putting b s q st -> known s.
Proof. intros [l Hev]%putting_evolves. by eapply evolves_known. Qed.

Lemma membar_max_absorb a b c : uvm_membar_max a b = a -> uvm_membar_max (uvm_membar_max a c) b = uvm_membar_max a c.
Proof. destruct a, b, c; done. Qed.

Lemma membar_max_right a c : uvm_membar_max (uvm_membar_max a c) c = uvm_membar_max a c.
Proof. destruct a, c; done. Qed.

Lemma put_use_cpu b s q st : putting b s q st -> uvm_mmu_use_cpu C s = uvm_mmu_use_cpu C s0.
Proof. intros Hput. destruct (putting_evolves _ _ _ _ Hput) as [l Hev]. by destruct (evolves_fields C _ _ _ _ Hev) as (_ & _ & _ & _ & _ & ? & _). Qed.

Section step.
Context (s : page_tree) (p q : dir_ptr) (st : put_state) (d dq : uvm_page_directory_t) (k : nat).
Hypothesis Hput : putting true s p st.
Hypothesis Hd : dirs s !! p = Some d.
Hypothesis Href : ref_count d = 0.
Hypothesis Hq : dirs s !! q = Some dq.
Hypothesis HqP : q ∉ free_queue st ++ P.
Hypothesis Hk : entries dq !! k = Some (Some p).
Hypothesis Hpar : host_parent d = Some q.
Hypothesis Hdep : depth d = depth dq + 1.
Hypothesis Hlt : 0 <= depth dq < hmax h.
Hypothesis Hindex : index_to_entry C (index_in_parent d) (depth dq) ps = Some (Z.of_nat k).
Hypothesis Hi : index_in_parent d = Z.of_nat k / hper h (depth dq).
Hypothesis Hib : 0 <= index_in_parent d < 2 ^ hbits h (depth dq) UVM_PAGE_SIZE_AGNOSTIC.
Definition cleared : page_tree := s <| dirs := unlinked (dirs s) q dq k |>.
Notation s1 := cleared.

Lemma step_struct : tree_struct h F (unlinked (dirs s) q dq k) rt (p :: free_queue st ++ P) [q] R.
Proof.
  apply (struct_unlink h F (dirs s) rt (free_queue st ++ P) [p] R (pu_struct _ _ _ _ Hput) p q d dq k Hd Href Hq Hk); [by left|].
  intros x Hx%list_elem_of_singleton. by left.
Qed.

Lemma step_parent : unlinked (dirs s) q dq k !! q = Some (unlink_parent dq k).
Proof. unfold unlinked. by rewrite lookup_insert_eq. Qed.

Lemma step_clear push : writer_ok C s push -> exists push' s' ws, pde_clear C q (index_in_parent d) ps push s = Returns (push', s') /\
  wrote s1 push push' s' ws /\
  forall M Pm, tables_match C F M (dirs s) Pm W -> tables_match C F (mem_after M ws) (unlinked (dirs s) q dq k) (p :: Pm) W.
Proof.
  intros Hw. pose proof (pu_struct _ _ _ _ Hput) as Hts. pose proof step_struct as Hts1. pose proof step_parent as Hq1.
  assert (Hne : p <> q) by (intros ->; simplify_eq; lia).
  destruct (pde_write_run C F s1 rt (p :: free_queue st ++ P) [q] R q (unlink_parent dq k) (index_in_parent d) false push Hts1 Hq1) as (push' & s' & ws & Hrun & Hwr & Hr).
  - rewrite not_elem_of_cons. done.
  - cbn. lia.
  - done.
  - exact Hw.
  - intros Hn. rewrite Hn in Hw. cbn in Hw. change (pa_size (phys_alloc dq) <= PAGE_SIZE). by eapply (page_tables_small C F Hsmall s); [exact Hts|exact Hw|exact Hq].
  - exists push', s', (words_at (entry_address C dq (index_in_parent d)) ws). split; [|split; [exact Hwr|]].
    + unfold pde_clear. pose proof (live_entries_pos dq k p Hk). destruct (ts_refs _ _ _ _ _ _ _ Hts q dq Hq) as [Hrq _].
      destruct (struct_refs_bound _ _ _ _ _ _ _ Hts q dq Hq) as [_ ?].
      rewrite (sm_bind_run _ _ _ _ _ (host_pde_clear_run C s q dq (index_in_parent d) k ps Hq ltac:(lia) Hindex ltac:(by eapply lookup_lt_Some))). exact Hrun.
    + intros M Pm Hm. destruct (ts_shape _ _ _ _ _ _ _ Hts1 q _ Hq1) as [psq Hs].
      apply (match_write C F M _ rt _ _ R Hts1 q (unlink_parent dq k) psq (p :: Pm) Hq1 Hs W (index_in_parent d) ws); [cbn; lia|done|exact Hr|].
      rewrite Hi. exact (unlink_match s rt _ _ R Hts p q dq k M Pm W Hq Hk Hm).
Qed.

(** The write, by the CPU or into the push. *)
Definition step_written (push : mmu_push) (s' : page_tree) : Prop := exists Wr,
  (forall M Pm, tables_match C F M (dirs s) Pm W -> tables_match C F (mem_after M Wr) (unlinked (dirs s) q dq k) (p :: Pm) W) /\
  if uvm_mmu_use_cpu C s0
  then push = put_push st /\ exists l, Forall is_cpu_write l /\ log_writes l = Wr /\ s' = cleared <| log := log s ++ l |>
  else s' = cleared /\ exists l, Forall is_transfer l /\ methods_writes l = Wr /\ push = mk_mmu_push (methods (put_push st) ++ l) false false false.

Lemma step_use_cpu : uvm_mmu_use_cpu C s = uvm_mmu_use_cpu C s0.
Proof. exact (put_use_cpu _ _ _ _ Hput). Qed.

Lemma step_write : spec true
  (if uvm_mmu_use_cpu C s then _ ← pde_clear C q (index_in_parent d) ps None; mret (put_push st)
   else o ← pde_clear C q (index_in_parent d) ps (Some (pipelined_unordered (put_push st))); sm_lift o) step_written s.
Proof.
  rewrite step_use_cpu. unfold step_written. destruct (Bool.bool_dec (uvm_mmu_use_cpu C s0) true) as [Hcpu|Hcpu%Bool.not_true_is_false]; rewrite Hcpu.
  - destruct (step_clear None) as (push' & s' & ws & Hrun & [-> (l & Hl & HW & ->)] & Hm); [cbn; by rewrite step_use_cpu|].
    eapply spec_bind_run; [exact Hrun|]. apply spec_ret. exists ws. split; [done|]. split; [done|]. by exists l.
  - destruct (pu_flags _ _ _ _ Hput) as [Hg Hn].
    destruct (step_clear (Some (pipelined_unordered (put_push st)))) as (push' & s' & ws & Hrun & [-> (l & Hl & HW & ->)] & Hm).
    { split; [by rewrite step_use_cpu|]. cbn. by rewrite Hg. }
    eapply spec_bind_run; [exact Hrun|]. cbn [sm_lift]. unfold spec, sm_lift. exists ws. split; [done|]. split; [done|]. exists l. split; [done|]. split; [done|].
    cbn. by rewrite app_nil_r.
Qed.

Lemma step_evolves push s' : step_written push s' -> exists l, evolves s s' l (dirs s') /\ dirs s' = unlinked (dirs s) q dq k.
Proof.
  intros (Wr & _ & Hw). destruct (uvm_mmu_use_cpu C s0).
  - destruct Hw as (_ & l & _ & _ & ->). exists l. split; [|done]. exists (global_status s), (clock s). split; [|by left]. unfold cleared. by destruct s.
  - destruct Hw as (-> & _). exists []. split; [|done]. apply evolves_dirs.
Qed.

Lemma step_ops push s' fq dep m1 m2 : step_written push s' -> put_ops true s' (mk_put push fq dep m1 m2).
Proof.
  intros Hw. pose proof (pu_ops _ _ _ _ Hput) as Ho. pose proof (step_evolves push s' Hw) as (l0 & _ & Hds). destruct Hw as (Wr & _ & Hw). unfold put_ops in *.
  destruct (uvm_mmu_use_cpu C s0).
  - destruct Ho as (Hm & lw & Hev & Hlw & _), Hw as (-> & l & Hl & _ & ->). split; [done|]. exists (lw ++ l). split; [|split; [by apply Forall_app|done]].
    rewrite app_assoc. eapply evolves_trans; [exact Hev|]. exists (global_status s), (clock s). split; [|by left]. unfold cleared. by destruct s.
  - destruct Ho as (Hev & Hm & _), Hw as (-> & l & Hl & _ & ->). split; [|split; [by apply Forall_app|done]].
    change (@nil mem_op) with (@nil mem_op ++ []). eapply evolves_trans; [exact Hev|]. apply evolves_dirs.
Qed.

Lemma step_match push s' : step_written push s' -> global_status s' = NV_OK ->
  tables_match C F (mem_after (mem_of s') (methods_writes (methods push))) (dirs s') (p :: free_queue st ++ P) W.
Proof.
  intros (Wr & Hm & Hw) Hg. pose proof (pu_ops _ _ _ _ Hput) as Ho. unfold put_ops in *. destruct (uvm_mmu_use_cpu C s0).
  - destruct Ho as (Hnil & _), Hw as (-> & l & _ & <- & ->). pose proof (pu_match _ _ _ _ Hput Hg) as H0. rewrite Hnil in *. cbn in H0 |- *.
    unfold mem_of. cbn. rewrite log_writes_app, mem_after_app. by apply Hm.
  - destruct Hw as (-> & l & _ & <- & ->). cbn [methods]. rewrite methods_writes_app, mem_after_app. apply Hm. by apply (pu_match _ _ _ _ Hput).
Qed.

Lemma step_place x : place_of <$> unlinked (dirs s) q dq k !! x = place_of <$> dirs s0 !! x.
Proof.
  rewrite <- (pu_same _ _ _ _ Hput). unfold unlinked. destruct (decide (x = q)) as [->|Hne]; [by rewrite lookup_insert_eq, Hq|by rewrite lookup_insert_ne].
Qed.

Lemma step_place_back x dx : dirs s !! x = Some dx -> exists d0, dirs s0 !! x = Some d0 /\ place_of d0 = place_of dx.
Proof. intros Hx. pose proof (pu_same _ _ _ _ Hput x) as H0. rewrite Hx in H0. destruct (dirs s0 !! x) as [d0|]; [|done]. cbn in H0. injection H0. eexists. split; [done|]. unfold place_of. congruence. Qed.

Lemma step_this_membar d0 : place_of d0 = place_of d -> this_membar d0 = this_membar d.
Proof. intros [= _ _ E1 _]. unfold this_membar. by rewrite E1. Qed.

(** The next directory of the way up. *)
Lemma step_next push s' : step_written push s' ->
  putting true s' q (mk_put push (free_queue st ++ [p]) (depth dq)
    (if is_sys (pa_addr (phys_alloc dq)) then UVM_MEMBAR_SYS else membar_after_pde_clears st)
    (uvm_membar_max (membar_after_invalidate st) (this_membar d))).
Proof.
  intros Hw. destruct (step_evolves push s' Hw) as (l0 & _ & Hds). destruct (pu_dir _ _ _ _ Hput) as (d' & Hd' & HpP & Hlen & Hleaf & _). assert (d' = d) as -> by congruence.
  destruct (step_place_back p d Hd) as (dp0 & Hdp0 & Epl). destruct (step_place_back q dq Hq) as (dq0 & Hdq0 & Eql).
  assert (HP : p :: free_queue st ++ P ≡ₚ (free_queue st ++ [p]) ++ P) by (by rewrite <- app_assoc, Permutation_middle).
  constructor; cbn [free_queue put_push put_invalidate_depth membar_after_pde_clears membar_after_invalidate].
  - rewrite Hds. eapply struct_weaken; [exact step_struct|exact HP|auto|done].
  - by apply step_ops.
  - destruct Hw as (Wr & _ & Hw). destruct (uvm_mmu_use_cpu C s0); [destruct Hw as (-> & _); by apply (pu_flags _ _ _ _ Hput)|by destruct Hw as (_ & l & _ & _ & ->)].
  - exists (unlink_parent dq k). rewrite Hds, step_parent, length_app. cbn -[Z.add]. rewrite <- HP, not_elem_of_cons. split_and!; try done; [|lia..].
    intros ->. simplify_eq. lia.
  - intros Hg. eapply tables_match_weaken; [by apply step_match|intros x; by rewrite HP|done].
  - intros x. rewrite Hds. apply step_place.
  - intros x [Hx|Hx%list_elem_of_singleton]%elem_of_app; rewrite length_app; cbn.
    + destruct (pu_above _ _ _ _ Hput x Hx) as (dx & ? & ?). exists dx. split; [done|lia].
    + subst x. exists dp0. split; [done|]. unfold place_of in Epl. injection Epl. lia.
  - destruct (pu_clears _ _ _ _ Hput) as [Hm1 Hm2]. split; [destruct (is_sys _); auto|].
    intros x dx y dy [Hx|Hx%list_elem_of_singleton]%elem_of_app Hdx Hy Hdy Hsys; [by case_match; [|eapply Hm2]|].
    subst x. unfold place_of in Epl, Eql. injection Epl as E1 _ _ _. injection Eql as _ _ E2 _. simplify_eq. assert (y = q) as -> by congruence. simplify_eq. by rewrite <- E2, Hsys.
  - intros x dx [Hx|Hx%list_elem_of_singleton]%elem_of_app Hdx; [apply membar_max_absorb; by apply (pu_after _ _ _ _ Hput x)|]. subst x. assert (dx = dp0) as -> by congruence.
    rewrite (step_this_membar dp0 Epl). apply membar_max_right.
Qed.
End step.

Lemma put_directory_spec range s p q st d : range_page_size range = ps -> putting true s p st -> dirs s !! p = Some d -> ref_count d = 0 -> host_parent d = Some q ->
  spec true (put_directory C range p q st) (fun st' s' => putting true s' q st' /\ free_queue st' = free_queue st ++ [p]) s.
Proof.
  intros Hr Hput Hd Href Hpar. destruct (pu_dir _ _ _ _ Hput) as (d' & Hd' & HpP & Hlen & Hleaf & _). assert (d' = d) as -> by congruence.
  destruct (parent_slot s rt _ _ R (pu_struct _ _ _ _ Hput) p d ps Hd HpP Hps ltac:(lia) Hleaf q Hpar)
    as (dq & k & Hq & HqP & Hk & Hdep & Hlt & Hindex & Hi & Hib).
  unfold put_directory. rewrite Hr. apply spec_bind_get. eapply spec_bind_dir; [exact Hd|].
  eapply spec_bind; [by eapply (step_write s p q st d dq k)|]. intros push s' Hw.
  destruct (step_evolves s p q st d dq k Hput Hd Hq push s' Hw) as (l0 & _ & Hds).
  eapply spec_bind_dir; [rewrite Hds; apply step_parent|]. destruct (ok_depth (F:=F) ps Hps) as [Htd _].
  eapply spec_bind_lift; [exact Htd|]. apply spec_bind_assert; [lia|]. apply spec_ret. split; [|done]. rewrite (step_use_cpu s p st Hput).
  by apply (step_next s p q st d dq k).
Qed.

(** ** Before the first write *)
Lemma put_begun s s' q st : putting false s q st -> later s s' (if uvm_mmu_use_cpu C s0 then [OpWait] else []) -> putting true s' q st.
Proof.
  intros [K1 K2 K3 K4 K5 K6 K7 K8 K9] Hl. pose proof (later_dirs _ _ _ Hl) as (Hd & _). constructor; rewrite ?Hd; try done.
  - unfold put_ops in *. destruct (uvm_mmu_use_cpu C s0).
    + destruct K2 as (Hm & lw & Hev & _ & Hlw). split; [done|]. exists []. rewrite (Hlw eq_refl) in Hev. split; [|done].
      change ([OpWait] ++ []) with ([] ++ [OpWait]). rewrite Hd. eapply evolves_trans; [exact Hev|]. by apply later_evolves.
    + destruct K2 as (Hev & Hm & _). split; [|done]. change (@nil mem_op) with (@nil mem_op ++ []). rewrite Hd. eapply evolves_trans; [exact Hev|]. by apply later_evolves.
  - intros Hg. assert (Hmem : mem_of s' = mem_of s) by (rewrite (mem_of_later _ _ _ Hl); by destruct (uvm_mmu_use_cpu C s0)). rewrite Hmem. apply K5.
    destruct (decide (global_status s = NV_OK)) as [?|Hne]; [done|]. by rewrite (status_after_kept _ _ (later_status _ _ _ Hl) Hne) in Hg.
Qed.

Lemma put_begin_spec s q st : putting false s q st -> spec true (put_begin C E)
  (fun status s' => status = NV_OK /\ putting true s' q st /\ dirs s' = dirs s \/
     status <> NV_OK /\ status = global_status s' /\ exists l, later s s' l /\ Forall free_op l) s.
Proof.
  intros Hput. unfold put_begin. apply spec_bind_get. rewrite (put_use_cpu false s q st Hput).
  assert (Hkn : known s) by (by apply (putting_known false s q st)).
  assert (Hbad : forall st' s' l, later s s' l -> status_ok st' s' -> st' <> NV_OK -> st' = global_status s').
  { intros st' s' l Hl Hst Hne. destruct (status_ok_known _ _ Hst) as [?|?]; [|done..]. eapply status_after_known, Hkn. by eapply later_status. }
  pose proof (put_begun s) as Hbegun. destruct (uvm_mmu_use_cpu C s0).
  - eapply spec_bind; [by apply tracker_wait_spec|]. intros st1 s1 [Hl1 Hst1]. destruct (Z.eqb_spec st1 NV_OK) as [->|Hne].
    + eapply spec_mono; [by apply begin_acquire_spec|]. intros st2 s2 [Hl2 Hst2]. pose proof (later_trans _ _ _ _ _ Hl1 Hl2) as Hl2'.
      destruct (decide (st2 = NV_OK)) as [->|Hne2]; [left; split; [done|split; [by apply (Hbegun s2 q st)|apply (later_dirs _ _ _ Hl2')]]|right]. split; [done|]. split; [eauto|]. eexists. split; [exact Hl2'|repeat constructor].
    + apply spec_ret. right. split; [done|]. split; [eauto|]. exists []. done.
  - eapply spec_bind; [by apply (spec_ret true NV_OK (fun a s' => a = NV_OK /\ s' = s))|]. intros ? ? [-> ->]. cbn [Z.eqb]. rewrite Z.eqb_refl.
    eapply spec_mono; [by apply begin_acquire_spec|]. intros st2 s2 [Hl2' Hst2].
    destruct (decide (st2 = NV_OK)) as [->|Hne2]; [left; split; [done|split; [by apply (Hbegun s2 q st)|apply (later_dirs _ _ _ Hl2')]]|right]. split; [done|]. split; [eauto|]. exists []. done.
Qed.

(** ** The loop *)
Definition put_loop_post (p0 : dir_ptr) (n : Z) (o : option put_state) (s : page_tree) : Prop :=
  match o with
  | Some st => exists q, putting (negb (bool_decide (free_queue st = []))) s q st /\ tree_struct h F (dirs s) rt (free_queue st ++ P) [] R
  | None => global_status s <> NV_OK /\ exists l d, evolves s0 s l (<[p0 := d <| ref_count := NvU32 (ref_count d + n) |>]> (dirs s0)) /\ Forall free_op l /\
      dirs s0 !! p0 = Some d /\ ref_count d = 0
  end.

(** The loop stops at a directory that is in use. *)
Lemma put_stops b s q st d : putting b s q st -> dirs s !! q = Some d -> host_parent d = None \/ ref_count d <> 0 ->
  tree_struct h F (dirs s) rt (free_queue st ++ P) [] R.
Proof.
  intros Hput Hd Hstop. pose proof (pu_struct _ _ _ _ Hput) as Hts. destruct (pu_dir _ _ _ _ Hput) as (d' & Hd' & HqP & _). assert (d' = d) as -> by congruence.
  destruct (decide (q = rt)) as [->|Hne].
  - destruct Hts. constructor; try done. intros x dx Hx HxP Hr _. apply (ts_used x dx Hx HxP Hr). by rewrite list_elem_of_singleton.
  - apply (struct_used h F (dirs s) rt _ [q] R Hts q []); [intros y Hy%list_elem_of_singleton; auto|]. intros dx Hx. assert (dx = d) as -> by congruence.
    destruct (struct_refs_bound _ _ _ _ _ _ _ Hts q d Hd) as [H0 _]. destruct Hstop as [Hn|Hn]; [|lia].
    destruct (tree_new_child C F s rt _ _ R q d Hts Hd HqP Hne) as (d1 & q1 & dq & Hd1 & Hq1 & _). congruence.
Qed.

Lemma put_loop_spec range p0 : range_page_size range = ps -> forall fuel s p st d, putting (negb (bool_decide (free_queue st = []))) s p st ->
  dirs s !! p = Some d -> depth d <= Z.of_nat fuel -> (free_queue st = [] -> p = p0 /\ s = s0) ->
  spec true (put_ptes_loop C E fuel range p st) (put_loop_post p0 (entry_count range)) s.
Proof.
  intros Hr. induction fuel as [|fuel IH]; intros s p st d Hput Hd Hle Hfirst; cbn [put_ptes_loop]; (eapply spec_bind_dir; [exact Hd|]).
  all: destruct (host_parent d) as [q|] eqn:Hpar; [|apply spec_ret; exists p; split; [done|]; eapply put_stops; [exact Hput|exact Hd|by left]].
  all: destruct (Z.eqb_spec (ref_count d) 0) as [Href|Href]; cbn [negb]; [|apply spec_ret; exists p; split; [done|]; eapply put_stops; [exact Hput|exact Hd|by right]].
  all: destruct (pu_dir _ _ _ _ Hput) as (d' & Hd' & HpP & Hlen & Hleaf & _); assert (d' = d) as -> by congruence.
  all: destruct (parent_slot s rt _ _ R (pu_struct _ _ _ _ Hput) p d ps Hd HpP Hps ltac:(lia) Hleaf q Hpar) as (dq & k & Hq & _ & _ & Hdep & Hlt & _).
  { lia. }
  eapply (spec_bind true _ _ (fun status s' => status = NV_OK /\ putting true s' p st /\ dirs s' = dirs s \/
    free_queue st = [] /\ status <> NV_OK /\ status = global_status s' /\ exists l, later s s' l /\ Forall free_op l)).
  { destruct (decide (free_queue st = [])) as [Hnil|Hnil].
    - rewrite !(bool_decide_eq_true_2 (free_queue st = [])) in * by done. eapply spec_mono; [by apply (put_begin_spec s p st)|].
      intros a s' [?|?]; [by left|by right].
    - rewrite !(bool_decide_eq_false_2 (free_queue st = [])) in * by done. apply spec_ret. left. done. }
  intros status s1 [(-> & Hput1 & Hd1)|(Hnil & Hne & Hg & l & Hl & Hf)].
  - cbn [negb]. rewrite Z.eqb_refl. cbn [negb]. eapply spec_bind; [apply (put_directory_spec range s1 p q st d Hr Hput1); [by rewrite Hd1|done..]|].
    intros st2 s2 [Hput2 Hfq]. destruct (pu_dir _ _ _ _ Hput2) as (d2 & Hd2 & _ & Hlen2 & _). assert (Hne : free_queue st2 <> []) by (rewrite Hfq; by destruct (free_queue st)).
    apply (IH s2 q st2 d2); [by rewrite bool_decide_eq_false_2|done| |done]. rewrite Hfq, length_app in Hlen2. cbn in Hlen2. lia.
  - rewrite (proj2 (Z.eqb_neq _ _) Hne). cbn [negb]. apply spec_bind_get. apply spec_bind_assert; [by apply Z.eqb_eq|].
    destruct (Hfirst Hnil) as [-> ->]. eapply spec_bind_run; [apply set_dir_run|]. apply spec_ret. split; [cbn; congruence|].
    exists l, d. split; [|done]. pose proof (later_dirs _ _ _ Hl) as (Hd1 & _). rewrite <- (app_nil_r l), <- Hd1. eapply evolves_trans; [by apply later_evolves|]. apply evolves_dirs.
Qed.

(** ** After the loop *)

(** The order of the operations [l] that take the directories [L] out of the tree:
    the entries of their parents are written, with [Wr], a barrier makes the writes
    visible, the TLB is invalidated from a depth above all of [L], and the memory of
    [L] is freed, in [lf].  The barrier reaches system memory when a parent is there,
    and the barrier after the invalidation is one that the memory of [L] needs. *)
Definition unmap_order (L : list dir_ptr) (l lf : list mem_op) (Wr : list word_write) : Prop := exists dr inval m1 m2,
  dirs s0 !! rt = Some dr /\
  (uvm_mmu_use_cpu C s0 = false /\ (exists lw, Forall is_transfer lw /\ methods_writes lw = Wr /\
     l = OpSubmit (lw ++ [HostWfi; HostMembar m1; HostInvalidateAll (tree_pdb s0 dr) inval m2]) :: lf) \/
   uvm_mmu_use_cpu C s0 = true /\ (exists lw, Forall is_cpu_write lw /\ log_writes lw = Wr /\
     l = OpWait :: lw ++ OpMb :: OpSubmit [HostInvalidateAll (tree_pdb s0 dr) inval m2; HostWfi; HostMembar UVM_MEMBAR_SYS] :: lf)) /\
  forall x d, x ∈ L -> dirs s0 !! x = Some d -> inval < depth d /\ uvm_membar_max m2 (this_membar d) = m2 /\
    (forall y dy, host_parent d = Some y -> dirs s0 !! y = Some dy -> is_sys (pa_addr (phys_alloc dy)) = true -> m1 = UVM_MEMBAR_SYS).

Record put_effect (s : page_tree) (L : list dir_ptr) (l : list mem_op) : Prop := {
  pe_evolves : evolves s0 s l (dirs s);
  pe_struct : tree_struct h F (dirs s) rt P [] R;
  pe_dirs x : place_of <$> dirs s !! x = if bool_decide (x ∈ L) then None else place_of <$> dirs s0 !! x;
  pe_match : global_status s = NV_OK -> tables_match C F (mem_of s) (dirs s) P W;
  pe_none : L = [] -> l = [];
  pe_order : L <> [] -> exists lf Wr, unmap_order L l lf Wr /\ Forall free_op lf /\ map Some (freed lf) = map (fun x => phys_alloc <$> dirs s0 !! x) L /\
    (global_status s = NV_OK -> tables_match C F (mem_after (mem_of s0) Wr) (dirs s) P W)
}.

Section finish.
Context (s : page_tree) (q : dir_ptr) (st : put_state).
Notation L := (free_queue st).
Hypothesis Hput : putting (negb (bool_decide (L = []))) s q st.
Hypothesis Hts : tree_struct h F (dirs s) rt (L ++ P) [] R.

Lemma finish_root : exists dr dr0, dirs s !! rt = Some dr /\ dirs s0 !! rt = Some dr0 /\ root s = Some rt /\ tree_pdb s dr = tree_pdb s0 dr0.
Proof.
  destruct (ts_root _ _ _ _ _ _ _ Hts) as (dr & Hdr & _). pose proof (pu_same _ _ _ _ Hput rt) as Hpl. rewrite Hdr in Hpl.
  destruct (dirs s0 !! rt) as [dr0|]; [|done]. exists dr, dr0. cbn in Hpl. injection Hpl as _ _ E1 _. destruct (putting_evolves _ _ _ _ Hput) as (l & g & c & -> & _).
  split_and!; try done. unfold tree_pdb. by rewrite E1.
Qed.

(** What the directories that are freed ask of the invalidation. *)
Lemma finish_barriers x d : L <> [] -> x ∈ L -> dirs s0 !! x = Some d -> put_invalidate_depth st < depth d /\
  uvm_membar_max (membar_after_invalidate st) (this_membar d) = membar_after_invalidate st /\
  (forall y dy, host_parent d = Some y -> dirs s0 !! y = Some dy -> is_sys (pa_addr (phys_alloc dy)) = true -> membar_after_pde_clears st = UVM_MEMBAR_SYS).
Proof.
  intros Hne Hx Hd. destruct (pu_dir _ _ _ _ Hput) as (dq & _ & _ & Hlen & _ & Hinv). rewrite (Hinv Hne).
  destruct (pu_above _ _ _ _ Hput x Hx) as (d' & Hd' & Hlt). assert (d' = d) as -> by congruence. split; [lia|]. split; [by apply (pu_after _ _ _ _ Hput x)|].
  intros y dy Hy Hdy Hsys. by apply (proj2 (pu_clears _ _ _ _ Hput) x d y dy).
Qed.

(** The TLB invalidation and its barriers. *)
Lemma finish_run : L <> [] -> exists l0 l1 Wr, evolves s0 s l0 (dirs s) /\ put_finish C E st s = free_directories E L (s <| log := log s ++ l1 |>) /\
  (forall lf, unmap_order L (l0 ++ l1 ++ lf) lf Wr) /\ log_writes (l0 ++ l1) = Wr /\
  mem_after (mem_of s) (methods_writes (methods (put_push st))) = mem_after (mem_of s0) Wr.
Proof.
  intros Hne. destruct finish_root as (dr & dr0 & Hdr & Hdr0 & Hroot & Hpdb). pose proof (pu_ops _ _ _ _ Hput) as Ho. pose proof (put_use_cpu _ _ _ _ Hput) as Hcpu.
  destruct (pu_flags _ _ _ _ Hput) as [Hg Hn]. destruct (pu_clears _ _ _ _ Hput) as [Hm1 _].
  rewrite (bool_decide_eq_false_2 (L = [])) in Ho by done. unfold put_ops in Ho. cbn [negb] in Ho. unfold put_finish. rewrite (bool_decide_eq_false_2 (L = [])) by done.
  set (inval := put_invalidate_depth st). set (m2 := membar_after_invalidate st). set (m1 := membar_after_pde_clears st).
  destruct (uvm_mmu_use_cpu C s0) eqn:Hc0.
  - destruct Ho as (Hnil & lw & Hev & Hlw & _). exists (OpWait :: lw), [OpMb; OpSubmit [HostInvalidateAll (tree_pdb s0 dr0) inval m2; HostWfi; HostMembar UVM_MEMBAR_SYS]], (log_writes lw).
    split; [exact Hev|]. split; [|split; [|split]].
    + rewrite sm_bind_get, Hcpu. set (s1 := s <| log := log s ++ [OpMb] |>).
      erewrite (sm_bind_run _ _ _ (put_push st) s1) by done. rewrite (sm_bind_run _ _ _ _ _ (invalidate_run s1 rt dr inval m2 (put_push st) Hroot Hdr)).
      unfold page_tree_end. change (flag_membar_none (push_method _ ?x)) with (flag_membar_none x). change (flag_membar_gpu (push_method _ ?x)) with (flag_membar_gpu x). rewrite Hn, Hg. rewrite (sm_bind_run _ _ _ _ _ (append_run _ _)). cbn. rewrite Hnil. unfold s1. cbn.
      rewrite <- app_assoc. change (tree_pdb _ dr) with (tree_pdb s dr). by rewrite Hpdb.
    + intros lf. exists dr0, inval, m1, m2. split; [done|]. split; [right; split; [done|]; exists lw; done|].
      intros x d Hx Hd. exact (finish_barriers x d Hne Hx Hd).
    + change (OpWait :: lw) with ([OpWait] ++ lw). rewrite !log_writes_app. cbn. by rewrite app_nil_r.
    + rewrite Hnil. cbn. rewrite (mem_of_evolves C _ _ _ _ Hev), log_writes_app. done.
  - destruct Ho as (Hev & Htr & _). exists [], [OpSubmit (methods (put_push st) ++ [HostWfi; HostMembar m1; HostInvalidateAll (tree_pdb s0 dr0) inval m2])], (methods_writes (methods (put_push st))).
    split; [exact Hev|]. split; [|split; [|split]].
    + rewrite sm_bind_get, Hcpu. rewrite sm_bind_ret. rewrite (sm_bind_run _ _ _ _ _ (invalidate_run s rt dr inval m2 _ Hroot Hdr)).
      unfold page_tree_end. destruct (wfi_membar_methods m1 (put_push st) Hm1) as [Hm _]. cbn [push_method uvm_push_set_flag assign_flag flag_membar_none].
      rewrite (sm_bind_run _ _ _ _ _ (append_run _ _)). cbn. rewrite Hm. rewrite <- app_assoc. cbn. by rewrite Hpdb.
    + intros lf. exists dr0, inval, m1, m2. split; [done|]. split; [left; split; [done|]; by exists (methods (put_push st))|].
      intros x d Hx Hd. exact (finish_barriers x d Hne Hx Hd).
    + cbn. rewrite app_nil_r, methods_writes_app. cbn. by rewrite app_nil_r.
    + by rewrite (mem_of_evolves C _ _ _ _ Hev).
Qed.

Lemma finish_place s' L' : dirs s' = delete_all L' (dirs s) -> forall x, place_of <$> dirs s' !! x = if bool_decide (x ∈ L') then None else place_of <$> dirs s0 !! x.
Proof. intros -> x. rewrite delete_all_lookup, <- (pu_same _ _ _ _ Hput). by destruct (bool_decide (x ∈ L')). Qed.

Lemma put_finish_spec : spec true (put_finish C E st) (fun _ s' => exists l, put_effect s' L l) s.
Proof.
  assert (Hlk : lock s = true). { destruct (putting_evolves _ _ _ _ Hput) as (l & g & c & -> & _). done. }
  destruct (decide (L = [])) as [Hnil|Hne].
  { unfold put_finish. rewrite bool_decide_eq_true_2 by done. apply spec_ret. exists []. pose proof Hput as [_ Ho _ _ Hm _ _ _ _]. rewrite bool_decide_eq_true_2 in Ho by done.
    assert (Hev : evolves s0 s [] (dirs s) /\ methods (put_push st) = []).
    { unfold put_ops in Ho. cbn [negb] in Ho. destruct (uvm_mmu_use_cpu C s0); [destruct Ho as (? & lw & Hev & _ & Hlw)|destruct Ho as (? & _ & ?); auto].
      rewrite (Hlw eq_refl) in Hev. done. }
    destruct Hev as [Hev Hp]. rewrite Hp, Hnil in *. constructor; try done. intros x. rewrite bool_decide_eq_false_2 by (apply not_elem_of_nil). apply (pu_same _ _ _ _ Hput). }
  destruct (finish_run Hne) as (l0 & l1 & Wr & Hev & Hrun & Hord & Hw & Hmem). unfold spec. rewrite Hrun. set (s1 := s <| log := log s ++ l1 |>).
  pose proof (free_directories_spec C E F Hpush L s1 rt (L ++ P) P [] R Hts ltac:(done) Hlk (putting_known _ _ _ _ Hput)) as Hfree. unfold spec in Hfree.
  destruct (free_directories E L s1) as [[[] s2]| |]; try done. destruct Hfree as (lf & Hev2 & Hfr & Hfreed & Hts2).
  pose proof (evolves_fields C _ _ _ _ Hev2) as (Hd2 & _ & _ & _ & _ & _ & Hg2).
  assert (Hev3 : evolves s0 s2 (l0 ++ l1 ++ lf) (dirs s2)).
  { eapply evolves_trans; [exact Hev|]. eapply (evolves_trans s s1 s2 l1 lf (dirs s)); [|by rewrite Hd2]. apply later_evolves, later_append. }
  assert (Hmatch : global_status s2 = NV_OK -> tables_match C F (mem_after (mem_of s0) Wr) (dirs s2) P W).
  { intros Hg. rewrite <- Hmem. eapply (freed_match C F W s1 s2 rt (L ++ P) [] P L R Hts ltac:(done) Hd2 _ []). apply (pu_match _ _ _ _ Hput).
    destruct (decide (global_status s = NV_OK)) as [?|Hbad]; [done|]. by rewrite (Hg2 Hbad) in Hg. }
  exists (l0 ++ l1 ++ lf). constructor; try done.
  - by apply finish_place.
  - intros Hg. rewrite (mem_of_evolves C _ _ _ _ Hev3), app_assoc, log_writes_app, Hw, mem_after_app, (free_ops_write_nothing lf) by done. by apply Hmatch.
  - intros _. exists lf, Wr. split; [apply Hord|]. split; [done|]. split; [|done]. rewrite Hfreed. apply list_fmap_ext. intros j x Hx. change (dirs s1) with (dirs s).
    pose proof (pu_same _ _ _ _ Hput x) as Hpl. unfold place_of in Hpl. destruct (dirs s !! x), (dirs s0 !! x); cbn in Hpl |- *; congruence.
Qed.
End finish.
End up.

(** ** The critical section *)
Section critical.
Context (s : page_tree) (rt : dir_ptr) (P : list dir_ptr) (R : list uvm_page_table_range_t) (r : uvm_page_table_range_t) (p : dir_ptr) (d : uvm_page_directory_t).
Hypothesis Hinv : tree_inv C F W s rt P (r :: R).
Hypothesis Hlock : lock s = true.
Hypothesis Htable : table r = Some p.
Hypothesis Hd : dirs s !! p = Some d.
Notation ps := (range_page_size r).

Lemma put_range : p ∉ P /\ range_in h F d r.
Proof. destruct (ts_range _ _ _ _ _ _ _ (ti_struct _ _ _ _ _ _ _ Hinv) r) as (p' & d' & Hp & ? & Hd' & ?); [by left|]. assert (p' = p) as -> by congruence. assert (d' = d) as -> by congruence. done. Qed.

Lemma put_count : 0 < entry_count r <= ref_count d /\ ref_count d < 2 ^ 32.
Proof.
  destruct (ts_refs _ _ _ _ _ _ _ (ti_struct _ _ _ _ _ _ _ Hinv) p d Hd) as [Hr Hlt]. destruct put_range as [_ Hin]. pose proof (ri_bounds _ _ _ _ Hin).
  pose proof (struct_ranges_pos _ _ _ _ _ _ _ (ti_struct _ _ _ _ _ _ _ Hinv)) as Hpos. apply Forall_cons in Hpos as [_ Hpos].
  pose proof (range_refs_nonneg R p Hpos). pose proof (live_entries_nonneg d). rewrite range_refs_cons in Hr. unfold held in Hr. rewrite bool_decide_eq_true_2 in Hr by done. lia.
Qed.

(** The references of the range are dropped first. *)
Definition released : page_tree := s <| dirs := <[p := d <| ref_count := ref_count d - entry_count r |>]> (dirs s) |>.

Lemma released_struct : tree_struct h F (dirs released) rt P [p] R.
Proof.
  destruct put_range as [HpP Hin]. pose proof put_count as Hc.
  apply (struct_set_refs h F (dirs s) rt P [] (r :: R) (ti_struct _ _ _ _ _ _ _ Hinv) p d (- entry_count r) [p] R Hd HpP); try lia.
  - intros x. rewrite range_refs_cons. unfold held. destruct (decide (x = p)) as [->|Hne].
    + rewrite !bool_decide_eq_true_2 by done. lia.
    + rewrite !bool_decide_eq_false_2 by congruence. lia.
  - intros x Hx. left. by right.
  - intros Hn. by rewrite list_elem_of_singleton in Hn.
  - intros x Hx. by apply elem_of_nil in Hx.
Qed.

Lemma match_refs M W0 n : tables_match C F M (dirs s) P W0 -> tables_match C F M (<[p := d <| ref_count := n |>]> (dirs s)) P W0.
Proof.
  intros Hm x dx i Hx HxP Hlt Hi HW.
  assert (Hpa : forall c, phys_alloc <$> <[p := d <| ref_count := n |>]> (dirs s) !! c = phys_alloc <$> dirs s !! c).
  { intros c. destruct (decide (c = p)) as [->|Hne]; [by rewrite lookup_insert_eq, Hd|by rewrite lookup_insert_ne]. }
  destruct (decide (x = p)) as [->|Hne].
  - rewrite lookup_insert_eq in Hx. injection Hx as <-. rewrite (hw_entry_at_ext C F M d) by done. rewrite (children_ext C (dirs s) _ d); [by apply (Hm p)|done|done|auto].
  - rewrite lookup_insert_ne in Hx by done. rewrite (children_ext C (dirs s) _ dx dx); [by apply (Hm x)|done|done|auto].
Qed.

Lemma put_starts : putting released rt P R ps false released p (mk_put empty_push [] 0 UVM_MEMBAR_GPU UVM_MEMBAR_GPU).
Proof.
  destruct put_range as [HpP Hin]. constructor; cbn [free_queue put_push app].
  - exact released_struct.
  - unfold put_ops. destruct (uvm_mmu_use_cpu C released); [split; [done|]; exists []; split; [apply evolves_refl|done]|split; [apply evolves_refl|done]].
  - done.
  - exists (d <| ref_count := ref_count d - entry_count r |>). split; [unfold released; cbn; by rewrite lookup_insert_eq|]. split; [done|].
    split; [cbn -[Z.add]; rewrite (ri_depth _ _ _ _ Hin); lia|]. split; [|done]. intros Hm. pose proof (ri_leaf _ _ _ _ Hin Hm) as Hs. by eapply (shape_same C F d).
  - intros Hg. cbn. apply match_refs. by apply (ti_mem _ _ _ _ _ _ _ Hinv).
  - done.
  - intros x Hx. by apply elem_of_nil in Hx.
  - split; [by left|]. intros x ? ? ? Hx. by apply elem_of_nil in Hx.
  - intros x ? Hx. by apply elem_of_nil in Hx.
Qed.

(** The range is put back, or nothing has changed since the GPU failed. *)
Definition put_result (s' : page_tree) : Prop :=
  (exists L l, put_effect released rt P R s' L l) \/
  global_status s' <> NV_OK /\ exists l, evolves s s' l (dirs s) /\ Forall free_op l.

Lemma put_critical_spec {A} (next : PT A) (Q : A -> page_tree -> Prop) : (forall s', put_result s' -> spec true next Q s') -> spec true
  (d ← get_dir p; _ ← sm_assert (entry_count r <=? ref_count d); _ ← set_dir p (d <| ref_count := ref_count d - entry_count r |>);
   o ← put_ptes_loop C E (Z.to_nat MAX_OPERATION_DEPTH) r p (mk_put empty_push [] 0 UVM_MEMBAR_GPU UVM_MEMBAR_GPU);
   _ ← match o with Some st => put_finish C E st | None => mret tt end; next) Q s.
Proof.
  intros Hnext.
  destruct put_range as [HpP Hin]. pose proof put_count as Hc. pose proof (ri_supported _ _ _ _ Hin) as Hps. pose proof (ri_depth _ _ _ _ Hin) as Hdep.
  destruct (ok_depth (F:=F) ps Hps) as [_ Hm]. destruct (ok_max (h:=h) (F:=F)) as [_ H5].
  eapply spec_bind_dir; [exact Hd|]. apply spec_bind_assert; [lia|]. eapply spec_bind_run; [apply set_dir_run|]. change (s <| dirs := _ |>) with released.
  eapply spec_bind.
  { eapply (put_loop_spec released rt P R ps Hps (ti_known _ _ _ _ _ _ _ Hinv) r p eq_refl _ released p _ (d <| ref_count := ref_count d - entry_count r |>)).
    - exact put_starts.
    - unfold released. cbn. by rewrite lookup_insert_eq.
    - change (depth d <= 5). lia.
    - done. }
  intros [st|] s1; cbn [put_loop_post].
  - intros (q & Hput & Hts). eapply spec_bind; [by apply (put_finish_spec released rt P R ps Hlock (ti_root _ _ _ _ _ _ _ Hinv) (ti_known _ _ _ _ _ _ _ Hinv) s1 q st)|].
    intros [] s2 [l Hl]. apply Hnext. left. by exists (free_queue st), l.
  - intros (Hg & l & d' & Hev & Hl & Hd' & H0). eapply spec_bind_run; [reflexivity|]. apply Hnext. right. split; [done|]. exists l. split; [|done].
    unfold released in Hd'. cbn in Hd'. rewrite lookup_insert_eq in Hd'. injection Hd' as <-. cbn in H0.
    replace (dirs s) with (<[p := (d <| ref_count := ref_count d - entry_count r |>) <| ref_count := NvU32 (ref_count (d <| ref_count := ref_count d - entry_count r |>) + entry_count r) |>]> (dirs released)).
    { destruct Hev as (g & c & -> & Hk). exists g, c. split; [|done]. reflexivity. }
    unfold released. cbn. rewrite insert_insert_eq. rewrite Z.sub_add, NvU32_small by lia. apply insert_id. rewrite Hd. by destruct d.
Qed.
End critical.
End put.
