(* ===== verification/PageTreeHw.v ===== *)
(** * The MMU's walk of the page tables

    The walk that the MMU does through the memory that the operations of the tree
    have written, and that it follows the directories of the tree. *)

From S2P Require Import Prelude PageMask StateMonad Push PmmChunks MmuTypes MmuHopper MmuPush PteBatch TlbBatch PageTree PageTreeInv PageTreeRun PageTreeWalk PageTreeMem PageTreeOps PageTreeGet.

Section hw.
Context (C : tree_config) (F : hw_format).
Notation h := (cfg_hal C).
Context `{Hhal : !hal_ok h F}.

(** The table at depth [n] that the MMU reads for the pages of size [ps] at the
    address [a], from the table at [t] down. *)
Fixpoint hw_walk (M : memory) (t : uvm_gpu_phys_address_t) (ps a : Z) (n : nat) : option uvm_gpu_phys_address_t :=
  match n with
  | O => Some t
  | S m =>
      b ← hw_walk M t ps a m;
      let dep := Z.of_nat m in
      ws ← read_words M (addr_add b (hsize h dep * va_index C ps a dep)) (Z.to_nat (hsize h dep / 8));
      match hw_decode F dep ws with
      | HwPde l => mjoin (l !! Z.to_nat (hoffset h dep ps))
      | _ => None
      end
  end.

(** The address of the table of a directory. *)
Definition table_address (ds : dir_store) (p : dir_ptr) : option uvm_gpu_phys_address_t := (fun d => pa_addr (phys_alloc d)) <$> ds !! p.

Section walk.
Context (M : memory) (ds : dir_store) (rt : dir_ptr) (P X : list dir_ptr) (R : list uvm_page_table_range_t) (W : dir_ptr -> Z -> Prop).
Hypothesis Hts : tree_struct h F ds rt P X R.
Hypothesis Hmatch : tables_match C F M ds P W.
Context (ps : Z).
Hypothesis Hps : supported h ps = true.

Lemma walk_dir_depth a n p : walk_dir C ds rt ps a n = Some p -> exists d, ds !! p = Some d /\ depth d = Z.of_nat n.
Proof.
  revert p. induction n as [|n IH]; intros p; cbn [walk_dir].
  - intros [= <-]. destruct (ts_root _ _ _ _ _ _ _ Hts) as (d & ? & ? & _). eauto.
  - rewrite bind_Some. intros (q & Hq & Hrest). rewrite bind_Some in Hrest. destruct Hrest as (dq & Hdq & Hrest). rewrite bind_Some in Hrest.
    destruct Hrest as (k & _ & Hj). unfold entry_at in Hj. destruct (entries dq !! Z.to_nat k) as [[c|]|] eqn:Ec; try done. cbn in Hj. injection Hj as ->.
    destruct (ts_child _ _ _ _ _ _ _ Hts q dq _ p Hdq Ec) as (_ & _ & dp & Hdp & Hl). destruct (IH q Hq) as (d & Hd & Hn). simplify_eq.
    exists dp. split; [done|]. rewrite (cl_depth _ _ _ _ _ _ Hl). lia.
Qed.

(** The half of an entry for pages of size [ps]. *)
Lemma children_half d dep i : depth d = dep -> 0 <= dep < hdepth h ps -> 0 <= i ->
  children C ds d i !! Z.to_nat (hoffset h dep ps) = Some (child_at ds d (Z.to_nat (hper h dep * i + hoffset h dep ps))).
Proof.
  intros <- Hd Hi. destruct (ok_depth (F:=F) ps Hps) as [_ Hm]. assert (Hd' : 0 <= depth d <= hmax h) by lia.
  destruct (ok_per (F:=F) (depth d) Hd') as [_ Hper]. destruct (ok_offset (F:=F) ps (depth d) Hps ltac:(lia)) as [_ Ho].
  unfold children. apply list_lookup_fmap_Some. exists (Z.to_nat (hoffset h (depth d) ps)). split; [f_equal; nia|]. apply lookup_seq. lia.
Qed.

Definition path_free (a : Z) (n : nat) : Prop :=
  forall m q, (m < n)%nat -> walk_dir C ds rt ps a m = Some q -> ~ W q (va_index C ps a (Z.of_nat m)).

(** The MMU finds the tables of the directories on the way, and none where there is none. *)
Lemma hw_walk_follows a n t : Z.of_nat n <= hdepth h ps -> path_free a n -> table_address ds rt = Some t ->
  hw_walk M t ps a n = p ← walk_dir C ds rt ps a n; table_address ds p.
Proof.
  intros Hn Hfree Ht. induction n as [|n IH]; [cbn; done|]. cbn [hw_walk walk_dir]. rewrite IH; [|lia|intros m q Hm; apply Hfree; lia]. clear IH.
  destruct (walk_dir C ds rt ps a n) as [q|] eqn:Eq; [|done]. cbn [mbind option_bind].
  destruct (walk_dir_depth a n q Eq) as (dq & Hdq & Hdep). destruct (walk_dir_public C F ds rt P X R ps a n Hts q Eq) as [HqP _].
  unfold table_address at 1. rewrite Hdq. cbn [fmap option_fmap option_map mbind option_bind].
  destruct (ok_depth (F:=F) ps Hps) as [_ Hm]. assert (Hr : 0 <= Z.of_nat n <= hdepth h ps) by lia. assert (Hlt : Z.of_nat n < hmax h) by lia. destruct (va_index_bound C F ps Hps a (Z.of_nat n) Hr) as [Hi Hi16].
  assert (Hany : hbits h (Z.of_nat n) UVM_PAGE_SIZE_AGNOSTIC = hbits h (Z.of_nat n) ps).
  { pose proof (ok_bits_any (F:=F) ps (Z.of_nat n) Hps Hr Hlt) as Hb. unfold hbits at 1. by rewrite Hb. }
  pose proof (Hmatch q dq (va_index C ps a (Z.of_nat n)) Hdq HqP ltac:(lia) ltac:(rewrite Hdep, Hany; lia) (Hfree n q ltac:(lia) Eq)) as He.
  unfold hw_entry_at, entry_address, entry_words in He. rewrite Hdep in He. destruct (read_words _ _ _) as [ws|]; [|done]. cbn [mbind option_bind] in He |- *.
  injection He as ->. unfold addrs_of. rewrite list_lookup_fmap, (children_half dq (Z.of_nat n) (va_index C ps a (Z.of_nat n)) Hdep ltac:(lia) ltac:(lia)).
  destruct (index_to_entry_ok C F ps (Z.of_nat n) (va_index C ps a (Z.of_nat n)) Hps Hr ltac:(lia)) as (-> & _). cbn [mbind option_bind fmap option_fmap option_map].
  unfold entry_at, child_at. destruct (entries dq !! _) as [[c|]|]; try done. cbn [mjoin option_join mbind option_bind]. unfold table_address. by destruct (ds !! c).
Qed.
End walk.

(** ** The addresses of a request *)
Section request.
Context (ps start size a : Z).
Hypothesis Hps : supported h ps = true.
Hypothesis Hreq : request_in_table C ps start size.
Hypothesis Ha : start <= a < start + size.

Lemma request_block : a / 2 ^ va_shift h ps (Z.to_nat (hdepth h ps)) = start / 2 ^ va_shift h ps (Z.to_nat (hdepth h ps)).
Proof.
  pose proof (rt_table _ _ _ _ Hreq) as Ht. pose proof (va_shift_low C F ps Hps (Z.to_nat (hdepth h ps))) as Hlow. destruct (ok_depth (F:=F) ps Hps) as [_ Hm].
  pose proof (Z.log2_nonneg ps). assert (Hpos : 0 < 2 ^ va_shift h ps (Z.to_nat (hdepth h ps))) by (apply Z.pow_pos_nonneg; lia).
  pose proof (Z.div_le_mono start a _ Hpos ltac:(lia)). pose proof (Z.div_le_mono a (start + size - 1) _ Hpos ltac:(lia)). lia.
Qed.

Lemma request_same_way dep : 0 <= dep < hdepth h ps -> va_index C ps a dep = va_index C ps start dep.
Proof.
  intros Hd. unfold va_index. pose proof (va_shift_le C F ps Hps (Z.to_nat (hdepth h ps)) (S (Z.to_nat dep)) ltac:(lia) ltac:(lia)) as Hm.
  pose proof (va_shift_low C F ps Hps (Z.to_nat (hdepth h ps)) ltac:(lia)) as Hlow. pose proof (Z.log2_nonneg ps).
  replace (va_shift h ps (S (Z.to_nat dep))) with (va_shift h ps (Z.to_nat (hdepth h ps)) + (va_shift h ps (S (Z.to_nat dep)) - va_shift h ps (Z.to_nat (hdepth h ps)))) by lia.
  rewrite Z.pow_add_r by lia. rewrite <- !Z.div_div by (try apply Z.pow_nonzero; try apply Z.pow_pos_nonneg; lia). by rewrite request_block.
Qed.

Lemma request_walk ds rt n : Z.of_nat n <= hdepth h ps -> walk_dir C ds rt ps a n = walk_dir C ds rt ps start n.
Proof.
  induction n as [|n IH]; intros Hn; [done|]. cbn [walk_dir]. rewrite IH by lia. by rewrite request_same_way by lia.
Qed.

(** The entry of the page of [a] is as far into the range as the page into the request. *)
Lemma request_entry : va_index C ps a (hdepth h ps) = va_index C ps start (hdepth h ps) + (a - start) / ps /\ 0 <= (a - start) / ps < size / ps.
Proof.
  destruct Hreq as [Hst Hsz _ [Ha1 Ha2] _]. pose proof request_block as Ht. destruct (page_size_pow C ps Hps) as [Hpow Hpos]. destruct (ok_depth (F:=F) ps Hps) as [_ Hd].
  destruct (ok_bits (F:=F) ps (hdepth h ps) Hps ltac:(lia)) as [_ Hb]. unfold va_index. pose proof (ok_shift (F:=F) ps Hps) as Hsh.
  rewrite Hsh, Hpow. cbn [va_shift] in Hsh. rewrite Z2Nat.id in Hsh by lia.
  assert (Hsum : va_shift h ps (Z.to_nat (hdepth h ps)) = Z.log2 ps + hbits h (hdepth h ps) ps) by lia. rewrite Hsum in Ht.
  pose proof (Z.log2_nonneg ps). rewrite Z.pow_add_r, Hpow in Ht by lia.
  set (m := 2 ^ hbits h (hdepth h ps) ps) in *. assert (0 < m) by (apply Z.pow_pos_nonneg; lia).
  apply Z.mod_divide in Ha1 as [b ->]; [|lia]. apply Z.mod_divide in Ha2 as [n ->]; [|lia]. rewrite <- !Z.div_div in Ht by lia.
  replace (a - b * ps) with (a + (- b) * ps) by lia. rewrite Z.div_add by lia. rewrite !Z.div_mul in * by lia.
  assert (Hab : b <= a / ps < b + n) by (split; [apply Z.div_le_lower_bound|apply Z.div_lt_upper_bound]; lia).
  pose proof (Z.div_mod (a / ps) m ltac:(lia)). pose proof (Z.div_mod b m ltac:(lia)). lia.
Qed.
End request.
End hw.
