(* ===== verification/PageTreeSys.v ===== *)
(** * Page trees among other threads

    The laws of the environment of a page tree, and the specifications of taking the
    lock and of allocating directories under them.  A thread owns private
    directories and ranges, and so do the other threads.  [coherent] says that the tree
    is made of a root, of what the thread owns and of what the others own; it accounts
    for every directory and every reference, so that what an operation leaks or does
    not release shows as a change of what the others own.  These change theirs along a
    relation [G], of which only is assumed that it is a preorder: with equality for [G]
    they change nothing. *)

From S2P Require Import Prelude PageMask StateMonad Push PmmChunks MmuTypes MmuHopper MmuPush PteBatch TlbBatch PageTree PageTreeInv PageTreeRun PageTreeWalk PageTreeMem PageTreeOps PageTreeGet.

(** What other threads own: private directories and ranges. *)
Definition holdings : Type := list dir_ptr * list uvm_page_table_range_t.

Section sys.
Context {Hfatal : fatal_code}.
Context (C : tree_config) (E : page_tree_env) (F : hw_format).
Notation h := (cfg_hal C).
Context `{Hhal : !hal_ok h F}.
Context (W : dir_ptr -> Z -> Prop).

Definition coherent (s : page_tree) (O : holdings) (P : list dir_ptr) (R : list uvm_page_table_range_t) : Prop :=
  exists rt, tree_inv C F W s rt (P ++ O.1) (R ++ O.2).

(** Memory that no table of the tree uses, and that the address of a chunk of video
    memory is of such memory. *)
Definition fresh_memory (s : page_tree) (a : uvm_mmu_page_table_alloc_t) : Prop :=
  pointable F a /\ forall p d, dirs s !! p = Some d -> region_disjoint a (phys_alloc d).
Definition vidmem_left (s : page_tree) (size : Z) : Prop :=
  fresh_memory s (pt_alloc (phys_address UVM_APERTURE_VID (env_chunk_address E s size)) size).

(** What does not change between two states for the owner of [P]. *)
Record frame (P : list dir_ptr) (s s' : page_tree) : Prop := {
  fr_root : root s' = root s;
  fr_type : tree_type s' = tree_type s;
  fr_location : location s' = location s;
  fr_fallback : location_sys_fallback s' = location_sys_fallback s;
  fr_status : status_after (global_status s) (global_status s');
  fr_private p : p ∈ P -> dirs s' !! p = dirs s !! p
}.

Definition few_references (s : page_tree) : Prop := forall p d, dirs s !! p = Some d -> ref_count d <= 2 ^ 31.

(** Memory that the allocators give is not in use, a new directory has a new name, and
    other threads, which run when the lock is free, keep the tree coherent, leave alone
    what this thread owns, change what they own along [G], and do not use up the
    references of a directory or the memory that was set aside.  None of them knows a
    tree that has no root yet. *)
Record env_ok (G : relation holdings) : Prop := {
  eo_moves : PreOrder G;
  eo_pushes : pushes_ok E;
  eo_new s : dirs s !! env_new_dir E s = None;
  eo_sysmem s size a : 0 < size -> env_map_cpu_pages E s size = (NV_OK, a) -> fresh_memory s (pt_alloc (phys_address UVM_APERTURE_SYS a) size);
  eo_pmm s size : 0 < size -> env_pmm_alloc E s size = NV_OK -> vidmem_left s size;
  eo_chunk s s' size : dirs s' = dirs s -> env_chunk_address E s' size = env_chunk_address E s size;
  eo_others s O P R : lock s = false -> coherent s O P R ->
    (exists O', G O O' /\ coherent (env_others E s) O' P R) /\ lock (env_others E s) = false /\ frame P s (env_others E s) /\
    (few_references s -> few_references (env_others E s)) /\
    (forall size, vidmem_left s size -> vidmem_left (env_others E s) size);
  eo_unborn s : root s = None -> env_others E s = s
}.

Lemma frame_refl P s : frame P s s.
Proof. constructor; try done. by left. Qed.

Lemma frame_trans P s1 s2 s3 : frame P s1 s2 -> frame P s2 s3 -> frame P s1 s3.
Proof.
  intros [] []. constructor; try congruence.
  - by eapply status_after_trans.
  - intros p Hp. rewrite fr_private1 by done. auto.
Qed.

Lemma frame_sub P P' s s' : (forall x, x ∈ P' -> x ∈ P) -> frame P s s' -> frame P' s s'.
Proof. intros HP []. constructor; auto. Qed.

Context (G : relation holdings) (O0 : holdings).
Hypothesis He : env_ok G.

(** The thread owns [P] and [R], and since the others owned [O0] they have moved on
    along [G]. *)
Definition own (s : page_tree) (P : list dir_ptr) (R : list uvm_page_table_range_t) : Prop :=
  exists rt Pf Rf, G O0 (Pf, Rf) /\ tree_inv C F W s rt (P ++ Pf) (R ++ Rf).

Lemma own_coherent s P R : own s P R <-> exists O, G O0 O /\ coherent s O P R.
Proof. split; [intros (rt & Pf & Rf & HG & Hi); exists (Pf, Rf); split; [done|by exists rt]|intros ([Pf Rf] & HG & rt & Hi); by exists rt, Pf, Rf]. Qed.

Lemma own_start s P R : coherent s O0 P R -> own s P R.
Proof. intros Hc. apply own_coherent. exists O0. split; [|done]. destruct (eo_moves G He). reflexivity. Qed.

Lemma own_others s P R : lock s = false -> own s P R -> own (env_others E s) P R /\ lock (env_others E s) = false /\ frame P s (env_others E s) /\
  (few_references s -> few_references (env_others E s)) /\ (forall size, vidmem_left s size -> vidmem_left (env_others E s) size).
Proof.
  intros Hl (O & HG & Hc)%own_coherent. destruct (eo_others G He s O P R Hl Hc) as [(O' & HG' & Hc') Hrest]. split; [|done].
  apply own_coherent. exists O'. split; [|done]. destruct (eo_moves G He). by transitivity O.
Qed.

Lemma own_same s s' P R : root s' = root s -> dirs s' = dirs s -> log s' = log s -> global_status s' = global_status s -> own s P R -> own s' P R.
Proof.
  intros H1 H2 H3 H4 (rt & Pf & Rf & HG & [T1 T2 Tk T3]). exists rt, Pf, Rf. split; [done|].
  constructor; [congruence|by rewrite H2|unfold known in *; by rewrite H4|]. unfold mem_of in *. by rewrite H2, H3, H4.
Qed.

Lemma vidmem_same s s' size : dirs s' = dirs s -> vidmem_left s size -> vidmem_left s' size.
Proof. intros H2 [Hp Hd]. unfold vidmem_left. rewrite (eo_chunk G He s s') by done. split; [done|]. by rewrite H2. Qed.

(** ** The lock *)
Definition locked (s : page_tree) : page_tree := env_others E s <| lock := true |>.

Lemma lock_spec s P R : lock s = false -> own s P R ->
  spec true (uvm_mutex_lock E) (fun _ s' => lock s' = true /\ own s' P R /\ frame P s s' /\ (few_references s -> few_references s') /\
    (forall size, vidmem_left s size -> vidmem_left s' size) /\ s' = locked s) s.
Proof.
  intros Hl Ho. destruct (own_others s P R Hl Ho) as (O1 & O2 & [] & O4 & O5). unfold uvm_mutex_lock. apply spec_bind_get.
  apply spec_bind_assert; [by rewrite Hl|]. eapply spec_bind_run; [reflexivity|]. apply spec_modify. split; [done|].
  split; [by eapply own_same; [..|exact O1]|]. split; [by constructor|]. split; [done|]. split; [|done]. intros size Hv. by eapply vidmem_same, O5.
Qed.

Lemma unlock_spec s P R : lock s = true -> own s P R ->
  spec true uvm_mutex_unlock (fun _ s' => lock s' = false /\ own s' P R /\ frame P s s' /\ dirs s' = dirs s /\ log s' = log s /\
    global_status s' = global_status s) s.
Proof.
  intros Hl Ho. unfold uvm_mutex_unlock. apply spec_bind_get, spec_bind_assert; [done|]. apply spec_modify. split; [done|].
  split; [by eapply own_same; [..|exact Ho]|]. split; [constructor; try done; by left|]. done.
Qed.

(** ** Allocating memory and directories *)

(** What holds while other threads run. *)
Record stable (Q : page_tree -> Prop) : Prop := {
  sb_lock s : Q s -> lock s = false;
  sb_clock s c : Q s -> Q (s <| clock := c |>);
  sb_others s : Q s -> Q (env_others E s) /\ forall size, vidmem_left s size -> vidmem_left (env_others E s) size
}.

(** In the state [s] an allocator refuses memory for a table of [size] bytes, for the
    directory itself or for the tracker of the tree. *)
Definition refuses (s : page_tree) (size : Z) : Prop :=
  env_kvmalloc E s = false \/ env_alloc_pages E s = false \/ (env_map_cpu_pages E s size).1 <> NV_OK \/ env_pmm_alloc E s size <> NV_OK \/
  env_tracker_add E (s <| lock := true |>) <> NV_OK.

Section alloc.
Context (Q : page_tree -> Prop).
Hypothesis HQ : stable Q.

Lemma ask_spec {A} (f : page_tree -> A) s (Post : A -> page_tree -> Prop) : Q s ->
  (forall s', Q s' -> dirs s' = dirs s -> Post (f s) s') -> spec true (ask f) Post s.
Proof. intros Hs HP. unfold ask, spec. apply HP; [by apply (sb_clock _ HQ)|done]. Qed.

Definition memory_post (size : Z) (r : NV_STATUS * uvm_mmu_page_table_alloc_t) (s : page_tree) : Prop :=
  Q s /\ (r.1 = NV_OK -> fresh_memory s r.2 /\ pa_size r.2 = size) /\ (r.1 <> NV_OK -> exists sa, Q sa /\ refuses sa size).

Lemma phys_mem_allocate_sysmem_spec s size : Q s -> 0 < size -> spec true (phys_mem_allocate_sysmem E size) (memory_post size) s.
Proof.
  intros Hq Hs. unfold phys_mem_allocate_sysmem. eapply spec_bind; [apply (ask_spec _ s (fun page s' => Q s' /\ page = env_alloc_pages E s) Hq); auto|].
  intros page s1 [Hq1 Hpage]. destruct page; cbn [negb].
  2:{ apply spec_ret. split; [done|]. split; [done|]. intros _. exists s. split; [done|]. right. by left. }
  eapply spec_bind; [apply (ask_spec _ s1 (fun r s' => Q s' /\ dirs s' = dirs s1 /\ r = env_map_cpu_pages E s1 size) Hq1); auto|].
  intros r s2 (Hq2 & Hd & ->). destruct (env_map_cpu_pages E s1 size) as [st a] eqn:Em. cbn [fst snd]. destruct (Z.eqb_spec st NV_OK) as [->|Hne]; cbn [negb]; apply spec_ret.
  - split; [done|]. split; [|done]. intros _. cbn. split; [|done]. destruct (eo_sysmem G He s1 size a Hs Em) as [Hp Hdj]. split; [done|]. by rewrite Hd.
  - split; [done|]. split; [done|]. intros _. exists s1. split; [done|]. do 2 right. left. by rewrite Em.
Qed.

(** The tracker of the allocation is added to that of the tree, under its lock. *)
Lemma tracker_added_spec s size : Q s -> vidmem_left s size ->
  spec true (_ ← uvm_mutex_lock E; status ← ask (env_tracker_add E); _ ← uvm_mutex_unlock; mret status)
    (fun st s' => (Q s' /\ vidmem_left s' size) /\ (st <> NV_OK -> exists sa, Q sa /\ refuses sa size)) s.
Proof.
  intros Hq Hv. destruct (sb_others _ HQ s Hq) as [Ho Hv']. pose proof (sb_lock _ HQ _ Ho) as Hl. unfold uvm_mutex_lock, uvm_mutex_unlock, ask.
  eapply spec_bind_run; [rewrite sm_bind_get, sm_bind_assert by (by rewrite (sb_lock _ HQ _ Hq)); reflexivity|].
  eapply spec_bind_run; [reflexivity|]. eapply spec_bind_run; [reflexivity|]. apply spec_ret. split; [split|].
  - assert (Heta : env_others E s <| lock := false |> = env_others E s) by (destruct (env_others E s); cbn in *; by subst).
    pose proof (sb_clock _ HQ _ (S (clock (env_others E s))) Ho) as Hc. rewrite <- Heta in Hc. exact Hc.
  - by eapply vidmem_same, Hv'.
  - intros Hst. exists (env_others E s). split; [done|]. by do 4 right.
Qed.

Lemma phys_mem_allocate_vidmem_spec s size : Q s -> 0 < size -> spec true (phys_mem_allocate_vidmem E size) (memory_post size) s.
Proof.
  intros Hq Hs. unfold phys_mem_allocate_vidmem.
  eapply spec_bind; [apply (ask_spec _ s (fun st s' => Q s' /\ (st = NV_OK -> vidmem_left s' size) /\ (st <> NV_OK -> refuses s size)) Hq)|].
  { intros s' Hq' Hd. split; [done|]. split; [|intros Hst; do 3 right; by left]. intros Hst. eapply vidmem_same; [exact Hd|]. by apply (eo_pmm G He). }
  intros st s1 (Hq1 & Hv1 & Hr1). destruct (Z.eqb_spec st NV_OK) as [->|Hne]; cbn [negb]; [|apply spec_ret; split; [done|]; split; [done|]; eauto].
  eapply spec_bind; [apply (ask_spec _ s1 (fun _ s' => Q s' /\ vidmem_left s' size) Hq1)|].
  { intros s' Hq' Hd. split; [done|]. eapply vidmem_same; [exact Hd|auto]. }
  intros no_work s2 [Hq2 Hv2]. eapply (spec_bind true _ _ (fun st s' => (Q s' /\ vidmem_left s' size) /\ (st <> NV_OK -> exists sa, Q sa /\ refuses sa size))).
  { destruct no_work; [by apply spec_ret|]. by apply tracker_added_spec. }
  intros st s3 [[Hq3 Hv3] Hr3]. destruct (Z.eqb_spec st NV_OK) as [->|Hne]; cbn [negb]; [|apply spec_ret; split; done].
  eapply spec_bind; [apply (ask_spec _ s3 (fun a s' => Q s' /\ dirs s' = dirs s3 /\ a = env_chunk_address E s3 size) Hq3); auto|].
  intros a s4 (Hq4 & Hd4 & ->). apply spec_ret. split; [done|]. split; [|done]. intros _. cbn. split; [|done].
  destruct Hv3 as [Hp Hdj]. split; [done|]. by rewrite Hd4.
Qed.

Lemma phys_mem_allocate_spec s size loc : Q s -> 0 < size -> loc = UVM_APERTURE_VID \/ loc = UVM_APERTURE_SYS ->
  spec true (phys_mem_allocate E size loc) (memory_post size) s.
Proof.
  intros Hq Hs Hloc. unfold phys_mem_allocate. apply spec_bind_assert; [by destruct Hloc as [-> | ->]|].
  case_bool_decide; [by apply phys_mem_allocate_sysmem_spec|by apply phys_mem_allocate_vidmem_spec].
Qed.

Definition location_ok (s : page_tree) : Prop := location s = UVM_APERTURE_VID \/ location s = UVM_APERTURE_SYS.

Definition new_directory (dep : Z) (a : uvm_mmu_page_table_alloc_t) : uvm_page_directory_t :=
  mk_dir None 0 a 0 dep (replicate (Z.to_nat (entry_total h dep)) None).

Hypothesis HQloc : forall s, Q s -> location_ok s.

(** The sizes of a new directory are those of its depth. *)
Lemma allocate_directory_run s ps dep flags bits : Q s -> 0 <= dep <= hmax h -> allocation_size h dep ps = Some (halloc h dep ps) -> 0 < halloc h dep ps ->
  (dep < hmax h -> index_bits h dep ps = Some bits /\ 0 <= bits /\ hbits h dep UVM_PAGE_SIZE_AGNOSTIC = bits) ->
  spec true (allocate_directory C E ps dep flags)
    (fun o s' => match o with
       | None => Q s' /\ exists sa, Q sa /\ refuses sa (halloc h dep ps)
       | Some p => exists s4 a, Q s4 /\ dirs s4 !! p = None /\ fresh_memory s4 a /\ pa_size a = halloc h dep ps /\
           s' = s4 <| dirs := <[p := new_directory dep a]> (dirs s4) |>
       end) s.
Proof.
  intros Hq Hdep Ha Hpos Hbits. destruct (ok_per (F:=F) dep Hdep) as [Hper Hper2].
  unfold allocate_directory. eapply spec_bind_lift; [exact Ha|]. eapply spec_bind_lift; [apply (ok_max (F:=F))|].
  eapply (spec_bind_run true _ _ _ _ (entry_total h dep)).
  { unfold entry_total. destruct (Z.eqb_spec dep (hmax h)) as [->|Hne]; [done|]. destruct Hbits as (Hb & Hb0 & ->); [lia|].
    rewrite (sm_bind_lift _ _ _ _ Hper), (sm_bind_lift _ _ _ _ Hb). by rewrite Z.shiftl_mul_pow2 by lia. }
  eapply spec_bind; [apply (ask_spec _ s (fun kv s' => Q s' /\ kv = env_kvmalloc E s) Hq); auto|]. intros kv s1 [Hq1 Hkv]. destruct kv; cbn [negb].
  2:{ apply spec_ret. split; [done|]. exists s. split; [done|]. by left. }
  apply spec_bind_get. eapply spec_bind; [apply (phys_mem_allocate_spec s1 _ (location s1) Hq1 Hpos); by apply HQloc|]. intros r s2 Hm2. apply spec_bind_get.
  eapply (spec_bind true _ _ (memory_post (halloc h dep ps))).
  { case_match; [|by apply spec_ret]. apply phys_mem_allocate_spec; [apply Hm2|done|by right]. }
  intros [st3 a3] s3 (Hq3 & Hr3 & Href). cbn [fst snd] in *. destruct (Z.eqb_spec st3 NV_OK) as [Hok|Hne]; cbn [negb]; [|apply spec_ret; auto].
  eapply spec_bind; [apply (ask_spec _ s3 (fun p s' => Q s' /\ dirs s' = dirs s3 /\ p = env_new_dir E s3) Hq3); auto|].
  intros p s4 (Hq4 & Hd4 & ->). destruct (Hr3 Hok) as [[Hpt Hfr] Hsize]. eapply spec_bind_run; [apply set_dir_run|]. apply spec_ret.
  exists s4, a3. split; [done|]. rewrite Hd4. split; [apply (eo_new G He)|]. split; [|done]. split; [done|]. by rewrite Hd4.
Qed.
End alloc.

Section quiet.
Context (P : list dir_ptr) (R : list uvm_page_table_range_t) (s0 : page_tree).

(** The thread owns [P] and [R], since [s0]. *)
Definition quiet (s : page_tree) : Prop := lock s = false /\ own s P R /\ frame P s0 s /\ (few_references s0 -> few_references s).

Lemma quiet_stable : stable quiet.
Proof.
  constructor.
  - by intros s [? _].
  - intros s c (Hl & Ho & [] & Hn). split; [done|]. split; [by eapply own_same; [..|exact Ho]|]. split; [by constructor|done].
  - intros s (Hl & Ho & Hf & Hn). destruct (own_others s P R Hl Ho) as (O1 & O2 & O3 & O4 & O5). split; [|done]. split; [done|]. split; [done|].
    split; [by eapply frame_trans|auto].
Qed.

Lemma quiet_refl : lock s0 = false -> own s0 P R -> quiet s0.
Proof. intros. split; [done|]. split; [done|]. split; [apply frame_refl|done]. Qed.
End quiet.

Lemma empty_entries n : Z.of_nat (length (replicate n (None : option dir_ptr))) = Z.of_nat n /\
  Z.of_nat (length (filter is_Some (replicate n (None : option dir_ptr)))) = 0.
Proof. rewrite length_replicate. split; [done|]. induction n as [|n IH]; [done|]. cbn [replicate]. rewrite filter_cons. case_decide as Hs; [by destruct Hs|done]. Qed.

(** A new directory belongs to this thread. *)
Lemma own_new s P R p d ps : own s P R -> dirs s !! p = None -> shape h F d ps -> 0 < depth d -> ref_count d = 0 -> live_entries d = 0 ->
  fresh_memory s (phys_alloc d) -> own (s <| dirs := <[p := d]> (dirs s) |>) (p :: P) R.
Proof.
  intros (rt & Pf & Rf & HG & [T1 T2 Tk T3]) Hn Hs Hd Hr Hl [_ Hf]. exists rt, Pf, Rf. split; [done|]. constructor; [done|by eapply struct_new|done|].
  intros Hg x dx i Hx HxP Hlt Hi HW. cbn in Hx, HxP. rewrite not_elem_of_cons in HxP. cbn [dirs]. rewrite lookup_insert_ne in Hx by (intros ->; tauto).
  change (mem_of (s <| dirs := <[p := d]> (dirs s) |>)) with (mem_of s). change (dirs (s <| dirs := <[p := d]> (dirs s) |>)) with (<[p := d]> (dirs s)).
  rewrite (children_ext C (dirs s) _ dx dx i); [apply (T3 Hg x); try done; tauto|done|done|].
  intros k c Hc. destruct (ts_child _ _ _ _ _ _ _ T2 x dx k c Hx Hc) as (_ & _ & dc & Hdc & _). rewrite lookup_insert_ne; [done|]. intros ->. simplify_eq.
Qed.

Lemma new_directory_shape dep a ps : (supported h ps = true \/ (ps = UVM_PAGE_SIZE_AGNOSTIC /\ dep = 0)) -> 0 <= dep <= hdepth h ps -> hdepth h ps <= hmax h ->
  pa_size a = halloc h dep ps -> pointable F a -> shape h F (new_directory dep a) ps /\ live_entries (new_directory dep a) = 0.
Proof.
  intros Hps Hdep Hm Hsz Hpt. destruct (empty_entries (Z.to_nat (entry_total h dep))) as [E1 E2]. assert (Hd : 0 <= dep <= hmax h) by lia.
  destruct (ok_per (F:=F) dep Hd) as [_ Hper]. split; [|done].
  assert (0 <= entry_total h dep) by (unfold entry_total; case_match; [lia|]; apply Z.mul_nonneg_nonneg; [lia|]; apply Z.pow_nonneg; lia).
  constructor; cbn; [done|lia|done|rewrite E1; lia|done].
Qed.

Lemma halloc_pos ps dep : supported h ps = true -> 0 <= dep <= hdepth h ps -> 0 < halloc h dep ps.
Proof.
  intros Hps Hdep. destruct (ok_depth (F:=F) ps Hps) as [_ Hdm]. assert (Hd : 0 <= dep <= hmax h) by lia.
  destruct (ok_alloc (F:=F) ps dep Hps Hdep) as (_ & Hsz & _). destruct (ok_bits (F:=F) ps dep Hps Hdep) as [_ Hb]. destruct (ok_size (F:=F) dep Hd) as [_ Hes].
  assert (0 < 2 ^ hbits h dep ps) by (apply Z.pow_pos_nonneg; lia). destruct Hes as [E8|E8]; rewrite E8 in Hsz; lia.
Qed.

Lemma allocate_directory_spec s P R ps dep flags : lock s = false -> own s P R -> location_ok s -> supported h ps = true -> 0 < dep <= hdepth h ps ->
  spec true (allocate_directory C E ps dep flags)
    (fun o s' => lock s' = false /\ frame P s s' /\ (few_references s -> few_references s') /\
       match o with
       | None => own s' P R /\ exists sa, own sa P R /\ frame P s sa /\ refuses sa (halloc h dep ps)
       | Some p => own s' (p :: P) R /\ p ∉ P /\ exists d, dirs s' !! p = Some d /\ depth d = dep /\ shape h F d ps
       end) s.
Proof.
  intros Hl Ho Hloc Hps Hdep. destruct (ok_depth (F:=F) ps Hps) as [_ Hdm]. destruct (ok_alloc (F:=F) ps dep Hps ltac:(lia)) as (Ha & _).
  destruct (ok_bits (F:=F) ps dep Hps ltac:(lia)) as [Hb Hb16].
  eapply spec_mono; [apply (allocate_directory_run (quiet P R s) (quiet_stable P R s)) with (bits := hbits h dep ps)|].
  - intros x (_ & _ & Hfr & _). unfold location_ok. by rewrite (fr_location _ _ _ Hfr).
  - by apply quiet_refl.
  - lia.
  - done.
  - apply halloc_pos; [done|lia].
  - intros Hlt. pose proof (ok_bits_any (F:=F) ps dep Hps ltac:(lia) Hlt) as Hany. split; [done|]. split; [lia|]. unfold hbits at 1. by rewrite Hany.
  - intros [p|] s'; [|intros [(Q1 & Q2 & Q3 & Q4) (sa & (R1 & R2 & R3 & _) & R4)]; eauto 10]. intros (s4 & a & (Q1 & Q2 & Q3 & Q4) & Hnew & Hfresh & Hsz & ->).
    destruct (new_directory_shape dep a ps ltac:(auto) ltac:(lia) ltac:(lia) Hsz (proj1 Hfresh)) as [Hs Hlive].
    assert (HpP : p ∉ P). { intros Hin. destruct Q2 as (rt & Pf & Rf & _ & [_ T2 _ _]). destruct (ts_private _ _ _ _ _ _ _ T2 p) as (dp & Hdp & _); [apply elem_of_app; auto|]. congruence. }
    split; [done|]. split; [|split; [|split; [|split; [done|]]]].
    + destruct Q3. constructor; try done. intros x Hx. cbn. rewrite lookup_insert_ne; [auto|]. intros <-. done.
    + intros Hn x dx. cbn. rewrite lookup_insert_Some. intros [[_ <-]|[_ Hx]]; [cbn; lia|]. by apply (Q4 Hn x).
    + apply (own_new s4 P R p _ ps Q2 Hnew Hs); [cbn; lia|done|done|done].
    + exists (new_directory dep a). cbn. by rewrite lookup_insert_eq.
Qed.
End sys.
