(* ===== verification/PageTreeInit.v ===== *)
(** * The life of a page tree

    [uvm_page_tree_init] makes a tree that is coherent, and [uvm_page_tree_deinit]
    takes down one whose entries were all put back. *)

From S2P Require Import Prelude PageMask StateMonad Push PmmChunks MmuTypes MmuHopper MmuPush PteBatch TlbBatch PageTree PageTreeInv PageTreeRun PageTreeWalk PageTreeMem PageTreeOps PageTreeGet PageTreeSys.

Section init.
Context {Hfatal : fatal_code}.
Context (C : tree_config) (E : page_tree_env) (F : hw_format).
Notation h := (cfg_hal C).
Context `{Hhal : !hal_ok h F}.
Context (W : dir_ptr -> Z -> Prop).
Context (G : relation holdings).
Hypothesis He : env_ok C E F W G.
Notation Hpush := (eo_pushes _ _ _ _ _ He).
Hypothesis Hsmall : cfg_ce_phys_vidmem_write_supported C = false -> cfg_static_flat_mapping_ready C = false ->
  forall dep ps, halloc h dep ps <= PAGE_SIZE.

(** ** A tree of only a root *)
Section root.
Context (rt : dir_ptr) (a : uvm_mmu_page_table_alloc_t).
Notation d := (new_directory C 0 a).
Definition root_only : dir_store := <[rt := d]> ∅.

Lemma root_only_lookup p dp : root_only !! p = Some dp -> p = rt /\ dp = d.
Proof. unfold root_only. rewrite lookup_insert_Some, lookup_empty. intros [[<- <-]|[_ ?]]; done. Qed.

Lemma root_only_root : root_only !! rt = Some d.
Proof. apply lookup_insert_eq. Qed.

Hypothesis Hsize : pa_size a = halloc h 0 UVM_PAGE_SIZE_AGNOSTIC.
Hypothesis Hpoint : pointable F a.

Lemma root_shape : shape h F d UVM_PAGE_SIZE_AGNOSTIC /\ live_entries d = 0.
Proof. destruct (ok_max (h:=h) (F:=F)) as [_ Hm]. apply (new_directory_shape C F 0 a UVM_PAGE_SIZE_AGNOSTIC); try done; [by right|change (hdepth h UVM_PAGE_SIZE_AGNOSTIC) with (hmax h); lia]. Qed.

Lemma root_struct : tree_struct h F root_only rt [] [] [].
Proof.
  destruct root_shape as [Hs Hl].
  pose proof root_only_lookup as Hone.
  assert (Hno : forall p dp k c, root_only !! p = Some dp -> entries dp !! k = Some (Some c) -> False).
  { intros p dp k c [_ ->]%Hone Hk. by pose proof (live_entries_zero d Hl _ _ Hk). }
  constructor.
  - exists d. rewrite root_only_root. split_and!; try done. apply not_elem_of_nil.
  - intros p dp [_ ->]%Hone. eauto.
  - intros q dq k p Hq Hk. by destruct (Hno q dq k p).
  - intros p dp [-> _]%Hone _ Hne. done.
  - intros q dq k q' dq' k' p Hq _ Hk. by destruct (Hno q dq k p).
  - constructor.
  - intros p Hp. by apply elem_of_nil in Hp.
  - intros p dp [_ ->]%Hone. rewrite Hl. cbn. lia.
  - intros r Hr. by apply elem_of_nil in Hr.
  - intros p dp [-> _]%Hone _ Hne. done.
  - intros p q dp dq [-> _]%Hone [-> _]%Hone. done.
Qed.

Lemma root_init_match ws M : blank C F d ws -> 8 * Z.of_nat (length ws) <= pa_size a ->
  tables_match C F (mem_after M (words_at (pa_addr a) ws)) root_only [] W.
Proof.
  intros Hb Hlen. destruct root_shape as [Hs Hl].
  apply (match_init C F M root_only rt [] [] [] root_struct rt d UVM_PAGE_SIZE_AGNOSTIC [] root_only_root Hs W ws Hb Hlen).
  - intros i _ _. by apply children_none.
  - intros p dp i [-> _]%root_only_lookup Hn. by rewrite list_elem_of_singleton in Hn.
Qed.
End root.

(** ** Creating a tree *)
Section create.
Context (type : uvm_page_tree_type_t) (big_page_size : Z) (loc : uvm_aperture_t) (fuel : nat).
Hypothesis Hbig : supported h big_page_size = true.
Hypothesis Hloc : loc = UVM_APERTURE_VID \/ loc = UVM_APERTURE_SYS \/ loc = UVM_APERTURE_DEFAULT.
Hypothesis Hvidonly : cfg_vidmem_only C = true -> loc = UVM_APERTURE_VID.
Hypothesis Hnovid : cfg_mem_info_size C = 0 -> loc = UVM_APERTURE_SYS.
Hypothesis Haperture : cfg_page_table_aperture C = UVM_APERTURE_VID \/ cfg_page_table_aperture C = UVM_APERTURE_SYS \/
  cfg_page_table_aperture C = UVM_APERTURE_DEFAULT.
Hypothesis Hnopromo : cfg_map_remap_larger_page_promotion C = false.
Hypothesis Hnoats : type = UVM_PAGE_TREE_TYPE_KERNEL \/ cfg_va_space_ats_enabled C = false \/ cfg_no_ats_range_required C = false.

(** A new tree: nothing is held, and there is a root or no memory for it. *)
Definition init_post (status : NV_STATUS) (s : page_tree) : Prop :=
  lock s = false /\ tree_type s = type /\ location_ok s /\ few_references s /\
  (status = NV_ERR_NO_MEMORY /\ root s = None /\ dirs s = ∅ /\ (exists sa, dirs sa = ∅ /\ refuses E sa (halloc h 0 UVM_PAGE_SIZE_AGNOSTIC)) \/
   status_ok status s /\ exists rt a, tree_inv C F W s rt [] [] /\ dirs s = root_only rt a).

Lemma set_location_spec s : spec true (page_tree_set_location C loc)
  (fun _ s' => location_ok s' /\ exists l f, s' = s <| location := l |> <| location_sys_fallback := f |>) s.
Proof.
  unfold page_tree_set_location. apply spec_bind_assert; [destruct Hloc as [-> |[-> | ->]]; done|].
  apply spec_bind_assert; [destruct (cfg_vidmem_only C); [by rewrite Hvidonly|done]|].
  apply spec_bind_assert; [destruct (Z.eqb_spec (cfg_mem_info_size C) 0); [by rewrite Hnovid|done]|].
  apply spec_modify. unfold location_ok. case_bool_decide as Hl; [case_bool_decide|].
  - split; [by left|]. eexists _, _. done.
  - split; [cbn; tauto|]. eexists _, _. done.
  - split; [cbn; tauto|]. eexists _, _. done.
Qed.

Lemma ats_init_skipped s : tree_type s = type -> page_tree_ats_init C E fuel s = Returns (NV_OK, s).
Proof.
  intros Ht. unfold page_tree_ats_init. rewrite sm_bind_get. replace (page_tree_ats_init_required C s) with false; [done|].
  unfold page_tree_ats_init_required. rewrite Ht. destruct Hnoats as [-> |[-> | ->]]; [done|by destruct type|destruct type, (cfg_va_space_ats_enabled C); done].
Qed.

(** The root table is written. *)
Lemma root_write_run s rt a push : dirs s = root_only rt a -> pa_size a = halloc h 0 UVM_PAGE_SIZE_AGNOSTIC -> pointable F a -> writer_ok C s push -> exists push' s' ws, phys_mem_init C UVM_PAGE_SIZE_AGNOSTIC rt push s = Returns (push', s') /\
  wrote s push push' s' (words_at (pa_addr a) ws) /\ forall M, tables_match C F (mem_after M (words_at (pa_addr a) ws)) (root_only rt a) [] W.
Proof.
  intros Hdirs Hsize Hpoint Hw. destruct (root_shape a Hsize Hpoint) as [Hs _]. assert (Hts : tree_struct h F (dirs s) rt [] [] []) by (rewrite Hdirs; by apply root_struct).
  assert (Hd : dirs s !! rt = Some (new_directory C 0 a)) by (rewrite Hdirs; apply root_only_root).
  destruct (phys_mem_init_run C F s rt [] [] [] rt _ UVM_PAGE_SIZE_AGNOSTIC push Hts Hd (not_elem_of_nil _) Hs Hw) as (push' & s' & ws & Hrun & Hwr & Hb & Hlen).
  { intros ->. cbn in Hw. by eapply (page_tables_small C F Hsmall s). }
  exists push', s', ws. split; [done|]. split; [done|]. intros M. by apply root_init_match.
Qed.

Section write.
Context (s : page_tree) (rt : dir_ptr) (a : uvm_mmu_page_table_alloc_t).
Hypothesis Hroot : root s = Some rt.
Hypothesis Hdirs : dirs s = root_only rt a.
Hypothesis Hlock : lock s = false.
Hypothesis Htype : tree_type s = type.
Hypothesis Hlocation : location_ok s.
Hypothesis Hknown : known s.
Hypothesis Hsize : pa_size a = halloc h 0 UVM_PAGE_SIZE_AGNOSTIC.
Hypothesis Hpoint : pointable F a.

Lemma created status s' l : later s s' l -> status_ok status s' -> (global_status s' = NV_OK -> tables_match C F (mem_of s') (root_only rt a) [] W) -> init_post status s'.
Proof.
  intros (g & c & -> & Hg) Hst Hm. split_and!; try done.
  - intros p d. cbn. rewrite Hdirs. intros [_ ->]%root_only_lookup. cbn. lia.
  - right. split; [done|]. exists rt, a. split; [|done]. constructor; [done|cbn; rewrite Hdirs; by apply root_struct|by apply (status_after_known s)|]. cbn [dirs]. intros Hok. cbn. rewrite Hdirs. by apply Hm.
Qed.

Lemma root_write_spec : spec true
  (s ← sm_get;
   if uvm_mmu_use_cpu C s then _ ← phys_mem_init C UVM_PAGE_SIZE_AGNOSTIC rt None; mret NV_OK
   else
     status ← page_tree_begin_acquire E;
     if negb (status =? NV_OK) then mret status
     else
       o ← phys_mem_init C UVM_PAGE_SIZE_AGNOSTIC rt (Some empty_push);
       push ← sm_lift o;
       status ← page_tree_end_and_wait E push;
       if negb (status =? NV_OK) then mret status else page_tree_ats_init C E fuel) init_post s.
Proof.
  apply spec_bind_get. destruct (uvm_mmu_use_cpu C s) eqn:Hcpu.
  - destruct (root_write_run s rt a None Hdirs Hsize Hpoint Hcpu) as (push' & s' & ws & Hrun & [-> (l & _ & HW & ->)] & Hm).
    eapply spec_bind_run; [exact Hrun|]. apply spec_ret. eapply created; [apply later_append|by left|]. intros _. unfold mem_of. cbn. rewrite log_writes_app, mem_after_app, HW. apply Hm.
  - eapply spec_bind; [by apply begin_acquire_spec, Hpush|]. intros st s1 [Hl1 Hst]. destruct (Z.eqb_spec st NV_OK) as [->|Hbad]; cbn [negb].
    2:{ apply spec_ret. eapply created; [exact Hl1|done|]. by destruct Hst as [?|[_ ?]]. }
    pose proof (later_dirs _ _ _ Hl1) as (Hd1 & _).
    destruct (root_write_run s1 rt a (Some empty_push)) as (push' & s' & ws & Hrun & [-> (l & _ & HW & ->)] & Hm); [by rewrite Hd1|done|done|split; [|done]|].
    { destruct Hl1 as (g & c & -> & _). done. }
    eapply spec_bind_run; [exact Hrun|]. eapply spec_bind_lift; [reflexivity|]. unfold page_tree_end_and_wait.
    set (lg := OpSubmit (methods (uvm_hal_wfi_membar UVM_MEMBAR_SYS (mk_mmu_push (methods empty_push ++ l ++ flag_barrier (barrier_flag empty_push)) false false false)))).
    eapply (spec_bind true _ _ (fun st s' => later s s' ([lg] ++ (if st =? NV_OK then [OpWait] else [])) /\ status_ok st s')).
    { eapply spec_bind_run; [reflexivity|]. eapply spec_mono; [by apply tracker_wait_spec, Hpush|]. intros st s2 [Hl2 Hst2]. split; [|done].
      change ([lg] ++ ?x) with ([] ++ [lg] ++ x). eapply later_trans; [exact Hl1|]. eapply later_trans; [apply later_append|exact Hl2]. }
    intros st s2 [Hl2 Hst2]. assert (Hpost : forall st', status_ok st' s2 -> init_post st' s2).
    { intros st' Hst'. eapply created; [exact Hl2|done|]. intros _. rewrite (mem_of_later _ _ _ Hl2). rewrite log_writes_app.
      replace (log_writes (if st =? NV_OK then [OpWait] else [])) with (@nil word_write) by (by destruct (st =? NV_OK)).
      unfold lg, log_writes. cbn. rewrite !app_nil_r, !methods_writes_app, HW. cbn. rewrite !app_nil_r. apply Hm. }
    destruct (Z.eqb_spec st NV_OK) as [->|Hbad]; cbn [negb]; [|apply spec_ret; auto].
    unfold spec. rewrite ats_init_skipped; [auto|]. destruct Hl2 as (g & c & -> & _). done.
Qed.
End write.

Lemma page_tree_init_spec s : dirs s = ∅ -> known s -> spec true (uvm_page_tree_init C E fuel type big_page_size loc) init_post s.
Proof.
  intros Hd0 Hkn. unfold uvm_page_tree_init. apply spec_bind_modify. destruct (ok_max (h:=h) (F:=F)) as [Hmax Hm5]. eapply spec_bind_lift; [exact Hmax|].
  apply spec_bind_assert; [unfold MAX_OPERATION_DEPTH; lia|]. pose proof Hbig as Hb'. unfold supported in Hb'. apply andb_true_iff in Hb' as [Hb1 Hb2].
  eapply spec_bind_lift; [unfold uvm_mmu_page_size_supported; rewrite Hb1, Z.land_comm; reflexivity|]. apply spec_bind_assert; [done|].
  eapply spec_bind; [apply set_location_spec|]. intros [] s1 (Hloc1 & l & f & Hs1). destruct (ok_root (h:=h) (F:=F)) as (Ha & Hbits & Hsz & _ & Hb16 & _).
  assert (Hz : 0 <= 0 <= hmax h) by lia. destruct (ok_size (F:=F) 0 Hz) as [_ Hes].
  assert (Hpow : 0 < 2 ^ hbits h 0 UVM_PAGE_SIZE_AGNOSTIC) by (apply Z.pow_pos_nonneg; lia).
  set (Q := fun x : page_tree => exists c, x = s1 <| clock := c |>).
  assert (HQ : stable E F Q).
  { constructor; unfold Q.
    - intros x [c ->]. by rewrite Hs1.
    - intros x c [c' ->]. by exists c.
    - intros x [c ->]. rewrite (eo_unborn _ _ _ _ _ He); [eauto|by rewrite Hs1]. }
  eapply spec_bind; [apply (allocate_directory_run C E F W G He Q HQ) with (bits := hbits h 0 UVM_PAGE_SIZE_AGNOSTIC)|].
  - intros x [c ->]. exact Hloc1.
  - exists (clock s1). by destruct s1.
  - lia.
  - done.
  - destruct Hes as [E8|E8]; rewrite E8 in Hsz; lia.
  - intros _. split; [done|]. split; [lia|done].
  - intros [p|] s2 Hs2.
    + destruct Hs2 as (s4 & a & [c Hs4] & _ & Hfresh & Hsize & ->). apply spec_bind_modify. rewrite Hnopromo.
      eapply spec_bind; [by apply (spec_ret true NV_OK (fun x y => x = NV_OK /\ y = s4 <| dirs := <[p := new_directory C 0 a]> (dirs s4) |> <| root := Some p |>))|].
      intros ? ? [-> ->]. cbn [Z.eqb negb]. rewrite Z.eqb_refl. cbn [negb]. apply (root_write_spec _ p a); try done; try (by rewrite Hs4, Hs1).
      * rewrite Hs4, Hs1. cbn. by rewrite Hd0.
      * unfold location_ok in *. by rewrite Hs4.
      * apply Hfresh.
    + destruct Hs2 as [[c ->] (sa & [ca Hsa] & Href)]. apply spec_bind_modify, spec_ret. split_and!; try (by rewrite Hs1); [exact Hloc1| |left].
      * intros x d Hx. rewrite Hs1 in Hx. cbn in Hx. by rewrite Hd0, lookup_empty in Hx.
      * split_and!; [done|by rewrite Hs1|by rewrite Hs1|]. exists sa. split; [|done]. by rewrite Hsa, Hs1.
Qed.
End create.

(** ** Destroying a tree *)
Lemma live_entry d : live_entries d <> 0 -> exists k c, entries d !! k = Some (Some c).
Proof.
  unfold live_entries. intros Hl. destruct (filter is_Some (entries d)) as [|o l] eqn:Ef; [done|].
  assert (Ho : o ∈ filter is_Some (entries d)) by (rewrite Ef; by left). apply list_elem_of_filter in Ho as [[c ->] [k Hk]%list_elem_of_lookup]. eauto.
Qed.

(** Without ranges there are no directories but the root. *)
Lemma unheld_empty ds rt n : tree_struct h F ds rt [] [] [] -> forall p d, ds !! p = Some d -> hmax h - depth d < Z.of_nat n -> live_entries d = 0.
Proof.
  intros Hts. induction n as [|n IH]; intros p d Hd Hn; destruct (ts_shape _ _ _ _ _ _ _ Hts p d Hd) as [ps Hs]; pose proof (depth_bound _ _ _ _ Hs); [lia|].
  destruct (decide (live_entries d = 0)) as [?|Hl]; [done|]. destruct (live_entry d Hl) as (k & c & Hk).
  destruct (ts_child _ _ _ _ _ _ _ Hts p d k c Hd Hk) as (Hn0 & Hr & dc & Hdc & Hlink). pose proof (cl_depth _ _ _ _ _ _ Hlink).
  pose proof (ts_used _ _ _ _ _ _ _ Hts c dc Hdc Hn0 Hr Hn0) as Hu. destruct (ts_refs _ _ _ _ _ _ _ Hts c dc Hdc) as [Href _].
  rewrite (IH c dc Hdc) in Href by lia. cbn in Href. lia.
Qed.

Lemma unheld_root_only ds rt : tree_struct h F ds rt [] [] [] -> forall p d, ds !! p = Some d -> p = rt /\ ref_count d = 0.
Proof.
  intros Hts p d Hd. pose proof (unheld_empty ds rt (S (Z.to_nat (hmax h - depth d))) Hts p d Hd ltac:(lia)) as Hl. destruct (ts_refs _ _ _ _ _ _ _ Hts p d Hd) as [Href _].
  rewrite Hl in Href. cbn in Href. destruct (decide (p = rt)) as [?|Hne]; [done|]. pose proof (ts_used _ _ _ _ _ _ _ Hts p d Hd (not_elem_of_nil _) Hne (not_elem_of_nil _)). lia.
Qed.

(** What may still be done to the TLB of GPUs with ATS. *)
Lemma deinit_invalidate_spec s rt d : known s -> root s = Some rt -> dirs s !! rt = Some d -> spec true (deinit_invalidate C E) (fun _ s' => exists l, later s s' l /\ freed l = []) s.
Proof.
  intros Hkn Hr Hd. unfold deinit_invalidate. apply spec_bind_get. case_match; [|apply spec_ret; exists []; split; [apply later_refl|done]].
  eapply spec_bind; [by apply begin_acquire_spec, Hpush|]. intros st s1 [Hl1 Hst]. destruct (Z.eqb_spec st NV_OK) as [->|Hbad].
  - destruct Hl1 as (g & c & -> & Hg). eapply spec_bind_run; [by apply (invalidate_run _ rt d)|]. unfold page_tree_end, append. apply spec_modify. eexists. split; [|shelve].
    eapply later_trans; [by exists g, c|]. apply later_append.
    Unshelve. done.
  - apply spec_bind_get. unfold sm_assert. rewrite (proj2 (Z.eqb_eq st (global_status s1))); [|destruct (status_ok_known _ _ Hst) as [?|?]; [by eapply status_after_known, Hkn; eapply later_status|done..]]. exists []. done.
Qed.

Hypothesis Hnopromo : cfg_map_remap_larger_page_promotion C = false.

Definition deinit_post (d : uvm_page_directory_t) (rt : dir_ptr) (s : page_tree) : Prop :=
  lock s = false /\ dirs s !! rt = None /\ exists s1 l, log s = log s1 ++ l /\ freed l = [phys_alloc d].

Lemma page_tree_deinit_spec s rt d : tree_inv C F W s rt [] [] -> dirs s !! rt = Some d -> lock s = false ->
  tree_type s = UVM_PAGE_TREE_TYPE_KERNEL \/ cfg_va_space_ats_enabled C = false \/ cfg_no_ats_range_required C = false ->
  spec true (uvm_page_tree_deinit C E) (fun _ s' => deinit_post d rt s') s.
Proof.
  intros Hi Hd Hl Hnoats. unfold uvm_page_tree_deinit. eapply spec_bind_run.
  { unfold page_tree_ats_deinit. rewrite sm_bind_get. replace (page_tree_ats_init_required C s) with false; [reflexivity|].
    unfold page_tree_ats_init_required. destruct Hnoats as [-> |[-> | ->]]; [done|by destruct (tree_type s)|destruct (tree_type s), (cfg_va_space_ats_enabled C); done]. }
  apply spec_bind_get. eapply spec_bind_lift; [apply Hi|]. eapply spec_bind_dir; [exact Hd|]. destruct (unheld_root_only _ _ (ti_struct _ _ _ _ _ _ _ Hi) rt d Hd) as [_ H0].
  apply spec_bind_assert; [by apply Z.eqb_eq|]. eapply spec_bind; [apply (lock_spec C E F W G ([], []) He s [] [] Hl); apply (own_start C E F W G ([], []) He); by exists rt|].
  intros [] s1 (L1 & (rt1 & Pf & Rf & _ & Hi1) & L3 & _). assert (rt1 = rt) as ->.
  { pose proof (ti_root _ _ _ _ _ _ _ Hi1) as E1. rewrite (fr_root _ _ _ L3), (ti_root _ _ _ _ _ _ _ Hi) in E1. congruence. }
  destruct (ts_root _ _ _ _ _ _ _ (ti_struct _ _ _ _ _ _ _ Hi1)) as (d1 & Hd1 & _).
  eapply spec_bind; [by apply (deinit_invalidate_spec s1 rt d1); [apply Hi1..|]|]. intros [] s2 (l2 & Hl2 & Hf2).
  eapply spec_bind; [by apply tracker_wait_spec, Hpush|]. intros st s3 [Hl3 _]. destruct (ts_shape _ _ _ _ _ _ _ (ti_struct _ _ _ _ _ _ _ Hi) rt d Hd) as [ps Hs].
  pose proof (later_trans _ _ _ _ _ Hl2 Hl3) as Hl23. assert (Hlk3 : lock s3 = true) by (destruct (later_dirs _ _ _ Hl23) as (_ & _ & -> & _); done).
  eapply spec_bind; [apply (phys_mem_deallocate_spec E Hpush s3 _ Hlk3 (status_after_known _ _ (later_status _ _ _ Hl23) (ti_known _ _ _ _ _ _ _ Hi1))); destruct (sh_point _ _ _ _ Hs) as [? _]; tauto|].
  intros [] s4 (l4 & Hl4 & _ & Hf4). rewrite Hnopromo. eapply spec_bind_run; [reflexivity|]. destruct (later_dirs _ _ _ Hl4) as (_ & Hlog4 & Hlk4 & _).
  eapply spec_bind_run; [unfold uvm_mutex_unlock; rewrite sm_bind_get, sm_bind_assert by congruence; reflexivity|]. unfold uvm_kvfree. apply spec_modify.
  split; [done|]. split; [cbn; apply lookup_delete_eq|]. exists s3, l4. done.
Qed.
End init.
