(* ===== verification/PageTreeApi.v ===== *)
(** * The interface of page trees

    [uvm_page_tree_get_ptes] and its relatives among other threads: no assertion
    fails, loops end, and the tree stays coherent, in the directories and in
    memory. *)

From S2P Require Import Prelude PageMask StateMonad Push PmmChunks MmuTypes MmuHopper MmuPush PteBatch TlbBatch PageTree PageTreeInv PageTreeRun PageTreeWalk PageTreeMem PageTreeOps PageTreeGet PageTreePut PageTreeSys.

Section api.
Context {Hfatal : fatal_code}.
Context (C : tree_config) (E : page_tree_env) (F : hw_format).
Notation h := (cfg_hal C).
Context `{Hhal : !hal_ok h F}.
Context (W : dir_ptr -> Z -> Prop).
Context (G : relation holdings) (O0 : holdings).
Notation own := (own C F W G O0).
Notation coherent := (coherent C F W).
Notation tree_inv := (tree_inv C F W).
Hypothesis He : env_ok C E F W G.
Hypothesis Hsmall : cfg_ce_phys_vidmem_write_supported C = false -> cfg_static_flat_mapping_ready C = false ->
  forall dep ps, halloc h dep ps <= PAGE_SIZE.

Lemma inv_same s s' rt P R : root s' = root s -> dirs s' = dirs s -> log s' = log s -> global_status s' = global_status s -> tree_inv s rt P R -> tree_inv s' rt P R.
Proof.
  intros H1 H2 H3 H4 [T1 T2 Tk T3]. constructor; [congruence|by rewrite H2|unfold known in *; by rewrite H4|]. unfold mem_of in *. by rewrite H2, H3, H4.
Qed.

Lemma own_perm s P P' R R' : P ≡ₚ P' -> R ≡ₚ R' -> own s P R -> own s P' R'.
Proof.
  intros HP HR (rt & Pf & Rf & HG & [T1 T2 Tk T3]). exists rt, Pf, Rf. split; [done|]. constructor; [done| |done|].
  - eapply struct_weaken; [exact T2|by rewrite HP|done|by rewrite HR].
  - intros Hg. eapply tables_match_weaken; [by apply T3| |done]. intros x. by rewrite HP.
Qed.

(** Freeing private directories. *)
Lemma inv_freed s s' rt L Pf R l : tree_inv s rt (L ++ Pf) R -> evolves s s' l (delete_all L (dirs s)) -> Forall free_op l ->
  tree_struct h F (dirs s') rt Pf [] R -> tree_inv s' rt Pf R.
Proof.
  intros [T1 T2 Tk T3] Hev Hl Hts. destruct (evolves_fields C _ _ _ _ Hev) as (Hd & _ & _ & Hr & _ & _ & Hg). constructor; [by rewrite Hr|done|by eapply evolves_known|].
  intros Hok. rewrite (mem_of_evolves C _ _ _ _ Hev), free_ops_write_nothing by done. cbn [mem_after foldl].
  apply (freed_match C F W s s' rt (L ++ Pf) [] Pf L R T2 ltac:(done) Hd (mem_of s) [] W). apply T3.
  destruct (decide (global_status s = NV_OK)) as [?|Hne]; [done|]. by rewrite Hg in Hok.
Qed.

Lemma evolves_frame s s' l ds P : evolves s s' l ds -> (forall x, x ∈ P -> ds !! x = dirs s !! x) -> frame P s s'.
Proof. intros (g & c & -> & Hg) HP. constructor; cbn; auto. Qed.

Lemma filter_none_out (l : list dir_ptr) : filter (fun p => p ∉ []) l = l.
Proof. induction l as [|x l IH]; [done|]. rewrite filter_cons, IH. case_decide as Hn; [done|]. by apply elem_of_nil in Hn. Qed.

(** ** The loop of [uvm_page_tree_get_ptes_async] *)
Section get.
Context (ps start size flags : Z) (R : list uvm_page_table_range_t).
Hypothesis Hps : supported h ps = true.
Hypothesis Hreq : request_in_table C ps start size.
Hypothesis Hnopromo : cfg_map_remap_larger_page_promotion C = false.

(** The thread holds the range [r] besides [R], and it is the one of the request. *)
Definition granted (s : page_tree) (r : uvm_page_table_range_t) : Prop := exists rt Pf Rf,
  G O0 (Pf, Rf) /\ got_range C F W rt Pf (R ++ Rf) ps start size s r.

(** From [s1] to [s] the directories [L] and their memory are freed. *)
Definition all_freed (s1 s : page_tree) (L : list dir_ptr) : Prop := dirs s = delete_all L (dirs s1) /\
  exists l, log s = log s1 ++ l /\ Forall free_op l /\ map Some (freed l) = map (fun p => phys_alloc <$> dirs s1 !! p) L.

(** A table of the request was refused while the thread had the private directories
    [L]; these are freed. *)
Definition get_refused (s0 s : page_tree) : Prop := exists sa s1 dep L O,
  (own sa L R /\ frame [] s0 sa /\ 0 < dep <= hdepth h ps /\ refuses E sa (halloc h dep ps)) /\
  G O0 O /\ coherent s1 O L R /\ all_freed s1 s L /\ coherent s O [] R.

Definition get_post (s0 : page_tree) (range : uvm_page_table_range_t) (res : NV_STATUS * uvm_page_table_range_t) (s : page_tree) : Prop :=
  lock s = false /\ frame [] s0 s /\
  (res = (NV_ERR_NO_MEMORY, range) /\ get_refused s0 s \/ status_ok res.1 s /\ granted s res.2).

Definition cache_ok (s : page_tree) (cache : list (option dir_ptr)) : Prop :=
  length cache = Z.to_nat MAX_OPERATION_DEPTH /\
  forall e c, cache !! e = Some (Some c) -> exists dc, dirs s !! c = Some dc /\ depth dc = Z.of_nat e + 1 /\ shape h F dc ps.

Definition empty_slots (cache : list (option dir_ptr)) : nat := length (filter (fun o => o = None) cache).

Lemma cache_fill (cache : list (option dir_ptr)) e p : cache !! e = Some None ->
  omap id (<[e := Some p]> cache) ≡ₚ p :: omap id cache /\ S (empty_slots (<[e := Some p]> cache)) = empty_slots cache.
Proof.
  intros Hc. unfold empty_slots. rewrite insert_take_drop by (by eapply lookup_lt_Some). rewrite <- (take_drop_middle cache e None Hc) at 3 6.
  rewrite !omap_app, !filter_app, !length_app. cbn [omap list_omap id]. split.
  - change (list_omap _ _ id (drop (S e) cache)) with (omap id (drop (S e) cache)). by rewrite Permutation_middle.
  - rewrite !filter_cons. repeat case_decide; done.
Qed.

Lemma cache_ok_frame s s' cache : cache_ok s cache -> frame (omap id cache) s s' -> cache_ok s' cache.
Proof.
  intros [Hl Hc] Hf. split; [done|]. intros e c Hec. destruct (Hc e c Hec) as (dc & Hdc & ?). exists dc. rewrite (fr_private _ _ _ Hf); [done|].
  apply list_elem_of_omap. exists (Some c). split; [by eapply list_elem_of_lookup_2|done].
Qed.

Lemma same_fields_frame s s' : same_fields s s' -> frame [] s s'.
Proof. intros (_ & ? & ? & ? & ? & ?). constructor; try done. intros p Hp. by apply elem_of_nil in Hp. Qed.

Lemma frame_nil P s s' : frame P s s' -> frame [] s s'.
Proof. apply frame_sub. intros x Hx. by apply elem_of_nil in Hx. Qed.

(** An allocation failed: the directories that were allocated before are freed. *)
Lemma get_failed range s0 s cache sa dep : lock s = true -> own s (omap id cache) R -> frame [] s0 s ->
  own sa (omap id cache) R -> frame [] s0 sa -> 0 < dep <= hdepth h ps -> refuses E sa (halloc h dep ps) ->
  spec true (_ ← free_unused_directories E [] cache; _ ← uvm_mutex_unlock; mret (NV_ERR_NO_MEMORY, range)) (get_post s0 range) s.
Proof.
  intros Hl (rt & Pf & Rf & HG & Hi) Hf Hoa Hfa Hdep Href. eapply spec_bind.
  { unfold spec. rewrite free_unused_run, filter_none_out.
    exact (free_directories_spec C E F (eo_pushes _ _ _ _ _ He) _ s rt _ Pf [] _ (ti_struct _ _ _ _ _ _ _ Hi) ltac:(done) Hl (ti_known _ _ _ _ _ _ _ Hi)). }
  intros [] s1 (l & Hev & Hfree & Hfr & Hts). pose proof (inv_freed _ _ _ _ _ _ _ Hi Hev Hfree Hts) as Hi1. destruct (evolves_fields C _ _ _ _ Hev) as (Hd1 & Hl1 & Hlk & _).
  assert (Ho1 : own s1 [] R) by (by exists rt, Pf, Rf).
  eapply spec_bind; [apply (unlock_spec C F W G O0 s1 [] R); [by rewrite Hlk|done]|].
  intros [] s2 (U1 & _ & U3 & U4 & U5 & U6). apply spec_ret. split; [done|]. split.
  - eapply frame_trans; [exact Hf|]. eapply frame_trans; [|exact U3]. eapply evolves_frame; [exact Hev|]. intros x Hx. by apply elem_of_nil in Hx.
  - left. split; [done|]. exists sa, s, dep, (omap id cache), (Pf, Rf). split; [done|]. split; [done|]. split; [by exists rt|]. split.
    + split; [by rewrite U4|]. exists l. by rewrite U5.
    + exists rt. by apply (inv_same s1 s2); [apply U3|..].
Qed.

Lemma granted_same s s' r : root s' = root s -> dirs s' = dirs s -> log s' = log s -> global_status s' = global_status s -> granted s r -> granted s' r.
Proof.
  intros H1 H2 H3 H4 (rt & Pf & Rf & HG & [Hi Hr]). exists rt, Pf, Rf. split; [done|]. constructor; [by eapply inv_same; [..|exact Hi]|by rewrite H2].
Qed.

Lemma granted_own s r : granted s r -> own s [] (r :: R).
Proof. intros (rt & Pf & Rf & HG & [Hi _]). by exists rt, Pf, Rf. Qed.

(** The attempt had all it needs. *)
Lemma get_done range s0 s st r : lock s = true -> frame [] s0 s -> status_ok st s -> granted s r ->
  spec true (status ← (if (st =? NV_OK) && cfg_map_remap_larger_page_promotion C then map_remap C E start size r else mret st);
    _ ← uvm_mutex_unlock; mret (status, r)) (get_post s0 range) s.
Proof.
  intros Hl Hf Hst Hg. rewrite Hnopromo, andb_false_r. eapply spec_bind; [by apply (spec_ret true st (fun a s' => a = st /\ s' = s))|]. intros ? ? [-> ->].
  eapply spec_bind; [apply (unlock_spec C F W G O0 s [] (r :: R) Hl (granted_own _ _ Hg))|]. intros [] s1 (U1 & _ & U3 & U4 & U5 & U6).
  apply spec_ret. split; [done|]. split; [by eapply frame_trans|]. right. split.
  - destruct Hst as [->|[-> Hne]]; [by left|right]. by rewrite U6.
  - eapply granted_same; [apply U3|done..].
Qed.

Lemma cache_ok_fill s cache e p d : cache_ok s cache -> dirs s !! p = Some d -> depth d = Z.of_nat e + 1 -> shape h F d ps ->
  cache_ok s (<[e := Some p]> cache).
Proof.
  intros [Hl Hc] Hd Hdep Hs. split; [by rewrite length_insert|]. intros k c. rewrite list_lookup_insert_Some.
  intros [(-> & [= <-] & _)|[_ Hk]]; [eauto|by apply Hc].
Qed.

Lemma get_ptes_loop_spec s0 range : location_ok s0 -> can_address C s0 start size -> forall fuel s cache cur, lock s = true -> own s (omap id cache) R ->
  frame [] s0 s -> few_references s -> cache_ok s cache -> (empty_slots cache < fuel)%nat ->
  spec true (get_ptes_loop C E fuel ps start size flags range cur cache) (get_post s0 range) s.
Proof.
  intros Hloc Hcan. induction fuel as [|fuel IH]; intros s cache cur Hl Ho Hf Hn [Hlen Hc] Hlt; [lia|]. destruct Ho as (rt & Pf & Rf & HG & Hi). cbn [get_ptes_loop].
  assert (Hcan' : can_address C s start size) by (unfold can_address; by rewrite (fr_type _ _ _ Hf)).
  eapply spec_bind; [by apply (try_get_ptes_spec C E F (eo_pushes _ _ _ _ _ He) Hsmall W s rt Pf (R ++ Rf) ps start size cache Hi)|].
  intros [[st r] dep] s1 (Hsame & Hres). assert (Hf1 : frame [] s0 s1) by (eapply frame_trans; [exact Hf|by apply same_fields_frame]).
  assert (Hl1 : lock s1 = true) by (destruct Hsame as [-> _]; done).
  destruct Hres as [(-> & -> & Hdep & Hnone & Hi1 & Hrefs & Hc1)|(Hst & Hr & _)].
  2:{ replace (st =? NV_ERR_MORE_PROCESSING_REQUIRED) with false by (destruct Hst as [-> |[-> _]]; [done|symmetry; apply Z.eqb_neq, (po_code _ (eo_pushes _ _ _ _ _ He))]).
      apply get_done; [done..|]. by exists rt, Pf, Rf. }
  rewrite Z.eqb_refl. assert (Ho1 : own s1 (omap id cache) R) by (by exists rt, Pf, Rf).
  eapply spec_bind; [apply (unlock_spec C F W G O0 s1 _ R Hl1 Ho1)|]. intros [] s2 (U1 & U2 & U3 & U4 & _).
  eapply spec_bind; [apply (allocate_directory_spec C E F W G O0 He s2 (omap id cache) R ps (dep + 1) flags U1 U2)|].
  { unfold location_ok. by rewrite (fr_location _ _ _ U3), (fr_location _ _ _ Hf1). }
  { done. }
  { lia. }
  intros o s3 (A1 & A2 & A3 & A4). apply spec_bind_assert; [apply bool_decide_eq_true_2; by eapply lookup_lt_Some|].
  assert (Hc3 : cache_ok s3 cache) by (eapply cache_ok_frame; [|exact A2]; eapply cache_ok_frame; [|exact U3]; done).
  assert (Hf3 : frame [] s0 s3) by (eapply frame_trans; [exact Hf1|]; eapply frame_trans; eapply frame_nil; done).
  assert (Hn3 : few_references s3).
  { apply A3. intros x d Hx. rewrite U4 in Hx. destruct (Hrefs x d Hx) as (d0 & Hd0 & ->). by apply (Hn x). }
  destruct o as [p|].
  - destruct A4 as (Ho3 & HpP & d & Hd & Hdd & Hs). destruct (cache_fill cache (Z.to_nat dep) p Hnone) as [HP He'].
    eapply spec_bind; [apply (lock_spec C E F W G O0 He s3 (omap id (<[Z.to_nat dep := Some p]> cache)) R A1)|].
    { by apply (own_perm s3 (p :: omap id cache) _ R R). }
    intros [] s4 (L1 & L2 & L3 & L4 & _). apply IH; try done; [by eapply frame_trans; [|eapply frame_nil]|auto| |lia].
    eapply cache_ok_frame; [|exact L3]. eapply cache_ok_fill; try done. lia.
  - destruct A4 as [A4 (sa & Hoa & Hfa & Href)]. rewrite list_insert_id by done. eapply spec_bind; [apply (lock_spec C E F W G O0 He s3 (omap id cache) R A1 A4)|].
    intros [] s4 (L1 & L2 & L3 & _ & _). apply (get_failed range s0 s4 cache sa (dep + 1)); try done; [by eapply frame_trans; [|eapply frame_nil]| |lia].
    eapply frame_trans; [exact Hf1|]. eapply frame_trans; eapply frame_nil; done.
Qed.

Definition GET_FUEL : nat := S (Z.to_nat MAX_OPERATION_DEPTH).

Lemma get_ptes_async_spec range s : lock s = false -> own s [] R -> few_references s -> location_ok s -> can_address C s start size ->
  spec true (uvm_page_tree_get_ptes_async C E GET_FUEL ps start size flags range) (get_post s range) s.
Proof.
  intros Hl Ho Hn Hloc Hcan. unfold uvm_page_tree_get_ptes_async. eapply spec_bind; [by apply (lock_spec C E F W G O0 He s [] R)|].
  intros [] s1 (L1 & L2 & L3 & L4 & _). apply get_ptes_loop_spec; try done; [auto| |by vm_compute; lia].
  split; [by rewrite length_replicate|]. intros e c Hc. apply lookup_replicate in Hc as [? _]. done.
Qed.
End get.

(** ** Putting a range back *)
Section put.
Context (R : list uvm_page_table_range_t) (r : uvm_page_table_range_t).

(** In the state [s1] with the lock the range was put back, with the effect that
    [put_effect] describes; or the GPU has failed and the references stay. *)
Definition put_post (s0 s : page_tree) : Prop := lock s = false /\ frame [] s0 s /\
  (own s [] R /\ (let s1 := locked E s0 in exists rt Pf Rf p d L l s2, G O0 (Pf, Rf) /\ tree_inv s1 rt Pf (r :: R ++ Rf) /\ table r = Some p /\ dirs s1 !! p = Some d /\
     put_effect C F W (released s1 r p d) rt Pf (R ++ Rf) s2 L l /\ dirs s = dirs s2 /\ log s = log s2 /\ global_status s = global_status s2) \/
   global_status s <> NV_OK /\ own s [] (r :: R)).

Lemma put_result_own s rt Pf Rf p d s' : G O0 (Pf, Rf) -> tree_inv s rt Pf (r :: R ++ Rf) -> lock s = true -> put_result C F W s rt Pf (R ++ Rf) r p d s' ->
  lock s' = true /\ frame [] s s' /\ (own s' [] R /\ (exists L l, put_effect C F W (released s r p d) rt Pf (R ++ Rf) s' L l) \/ global_status s' <> NV_OK /\ own s' [] (r :: R)).
Proof.
  intros HG Hi Hl [(L & l & Heff)|(Hg & l & Hev & Hf)].
  - pose proof (pe_evolves _ _ _ _ _ _ _ _ _ _ Heff) as Hev. destruct (evolves_fields C _ _ _ _ Hev) as (_ & _ & Hlk & Hr & _).
    split; [by rewrite Hlk|]. split; [|left; split; [|eauto]].
    + destruct (evolves_frame _ _ _ _ [] Hev) as []; [intros x Hx; by apply elem_of_nil in Hx|]. constructor; try done. intros x Hx. by apply elem_of_nil in Hx.
    + exists rt, Pf, Rf. split; [done|]. constructor; [rewrite Hr; apply Hi|apply Heff|eapply evolves_known; [exact Hev|apply Hi]|apply Heff].
  - destruct (evolves_fields C _ _ _ _ Hev) as (Hd & _ & Hlk & Hr & _). split; [by rewrite Hlk|]. split; [eapply evolves_frame; [exact Hev|done]|right].
    split; [done|]. exists rt, Pf, Rf. split; [done|]. constructor; [rewrite Hr; apply Hi|rewrite Hd; apply Hi|eapply evolves_known; [exact Hev|apply Hi]|done].
Qed.

Lemma put_ptes_async_spec s : lock s = false -> own s [] (r :: R) -> spec true (uvm_page_tree_put_ptes_async C E r) (fun _ s' => put_post s s') s.
Proof.
  intros Hl Ho. pose proof Ho as (rt0 & Pf0 & Rf0 & _ & Hi0). destruct (ts_range _ _ _ _ _ _ _ (ti_struct _ _ _ _ _ _ _ Hi0) r) as (p & d0 & Hp & _ & _ & Hin0); [by left|].
  destruct (ok_depth (F:=F) (range_page_size r) (ri_supported _ _ _ _ Hin0)) as [Htd Hm]. destruct (ok_max (h:=h) (F:=F)) as [_ H5].
  unfold uvm_page_tree_put_ptes_async. eapply spec_bind_lift; [exact Htd|]. apply spec_bind_assert; [unfold MAX_OPERATION_DEPTH; lia|].
  eapply spec_bind_lift; [exact Hp|]. eapply spec_bind; [by apply (lock_spec C E F W G O0 He s [] (r :: R))|]. intros [] s1 (L1 & (rt & Pf & Rf & HG & Hi) & L3 & _ & _ & Hs1).
  destruct (ts_range _ _ _ _ _ _ _ (ti_struct _ _ _ _ _ _ _ Hi) r) as (p' & d & Hp' & _ & Hd & _); [by left|]. assert (p' = p) as -> by congruence.
  apply (put_critical_spec C E F (eo_pushes _ _ _ _ _ He) Hsmall W s1 rt Pf (R ++ Rf) r p d Hi L1 Hp Hd). intros s2 Hres.
  destruct (put_result_own s1 rt Pf Rf p d s2 HG Hi L1 Hres) as (Hl2 & Hf2 & Hown). assert (Hf : frame [] s s2) by (by eapply frame_trans).
  destruct Hown as [(Hown & L & l & Heff)|(Hg & Hown)].
  - eapply spec_mono; [by apply (unlock_spec C F W G O0 s2 [] R)|]. intros [] s3 (U1 & U2 & U3 & U4 & U5 & U6). split; [done|]. split; [by eapply frame_trans|]. left.
    split; [done|]. rewrite <- Hs1. exists rt, Pf, Rf, p, d, L, l, s2. done.
  - eapply spec_mono; [by apply (unlock_spec C F W G O0 s2 [] (r :: R))|]. intros [] s3 (U1 & U2 & U3 & U4 & U5 & U6). split; [done|]. split; [by eapply frame_trans|]. right.
    by rewrite U6.
Qed.
End put.

(** ** Waiting *)
Lemma page_tree_wait_spec s R : lock s = false -> own s [] R ->
  spec true (uvm_page_tree_wait E) (fun st s' => lock s' = false /\ frame [] s s' /\ own s' [] R /\ status_ok st s') s.
Proof.
  intros Hl Ho. unfold uvm_page_tree_wait. eapply spec_bind; [by apply (lock_spec C E F W G O0 He s [] R)|]. intros [] s1 (L1 & (rt & Pf & Rf & HG & [T1 T2 Tk T3]) & L3 & _).
  eapply spec_bind; [by apply tracker_wait_spec, (eo_pushes _ _ _ _ _ He)|]. intros st s2 [Hl2 Hst2].
  assert (Ho2 : own s2 [] R).
  { destruct (later_dirs _ _ _ Hl2) as (Hd & _ & _ & Hr & _). exists rt, Pf, Rf. split; [done|].
    constructor; [by rewrite Hr|by rewrite Hd|eapply status_after_known; [by eapply later_status|done]|]. intros Hg. rewrite (mem_of_later _ _ _ Hl2), Hd.
    replace (log_writes (if st =? NV_OK then [OpWait] else [])) with (@nil word_write) by (by destruct (st =? NV_OK)). apply T3.
    destruct (decide (global_status s1 = NV_OK)) as [?|Hne]; [done|]. by rewrite (status_after_kept _ _ (later_status _ _ _ Hl2) Hne) in Hg. }
  eapply spec_bind; [apply (unlock_spec C F W G O0 s2 [] R); [|exact Ho2]|].
  { by destruct (later_dirs _ _ _ Hl2) as (_ & _ & -> & _). }
  intros [] s3 (U1 & U2 & U3 & _ & _ & U6). apply spec_ret. split; [done|]. split; [|split; [done|]].
  - eapply frame_trans; [exact L3|]. eapply frame_trans; [|exact U3]. eapply evolves_frame; [by apply later_evolves|done].
  - destruct Hst2 as [?|[? ?]]; [by left|right]. by rewrite U6.
Qed.

Lemma put_ptes_spec s R r : lock s = false -> own s [] (r :: R) ->
  spec true (uvm_page_tree_put_ptes C E r) (fun _ s' => lock s' = false /\ frame [] s s' /\ (own s' [] R \/ global_status s' <> NV_OK /\ own s' [] (r :: R))) s.
Proof.
  intros Hl Ho. unfold uvm_page_tree_put_ptes. eapply spec_bind; [by apply (put_ptes_async_spec R r s)|]. intros [] s1 (P1 & P2 & P3).
  destruct P3 as [(Ho1 & _)|(Hg & Ho1)].
  - eapply spec_bind; [by apply (page_tree_wait_spec s1 R)|]. intros st s2 (Q1 & Q2 & Q3 & _). apply spec_ret. split; [done|]. split; [by eapply frame_trans|by left].
  - eapply spec_bind; [by apply (page_tree_wait_spec s1 (r :: R))|]. intros st s2 (Q1 & Q2 & Q3 & _). apply spec_ret. split; [done|]. split; [by eapply frame_trans|right].
    by rewrite (status_after_kept _ _ (fr_status _ _ _ Q2)).
Qed.

(** ** Parts of ranges *)
Lemma inv_set_refs s rt Pf RR RR' p d n : tree_inv s rt Pf RR -> dirs s !! p = Some d -> p ∉ Pf ->
  (forall q, range_refs RR' q = range_refs RR q + (if bool_decide (q = p) then n else 0)) ->
  (forall r, r ∈ RR' -> r ∈ RR \/ (table r = Some p /\ range_in h F d r)) -> 0 < ref_count d + n < 2 ^ 32 ->
  tree_inv (s <| dirs := <[p := d <| ref_count := ref_count d + n |>]> (dirs s) |>) rt Pf RR'.
Proof.
  intros [T1 T2 Tk T3] Hd HpP Hrefs Hin Hlt. constructor; [done| |done|].
  - cbn [dirs]. apply (struct_set_refs h F (dirs s) rt Pf [] RR T2 p d n [] RR' Hd HpP Hrefs Hin); [lia|intros _ _; lia|].
    intros x Hx. by apply elem_of_nil in Hx.
  - intros Hg. exact (match_refs C F s Pf p d Hd (mem_of s) W (ref_count d + n) (T3 Hg)).
Qed.

Lemma set_refs_frame s p d n : dirs s !! p = Some d -> frame [] s (s <| dirs := <[p := d <| ref_count := n |>]> (dirs s) |>).
Proof. intros Hd. constructor; try done; [by left|]. intros x Hx. by apply elem_of_nil in Hx. Qed.

(** The table of a held range. *)
Lemma held_table s rt Pf r RR : tree_inv s rt Pf (r :: RR) -> exists p d, table r = Some p /\ p ∉ Pf /\ dirs s !! p = Some d /\ range_in h F d r /\
  0 <= start_index r /\ 0 < entry_count r <= ref_count d /\ start_index r + entry_count r <= 2 ^ 16 /\ ref_count d < 2 ^ 32.
Proof.
  intros Hi. destruct (ts_range _ _ _ _ _ _ _ (ti_struct _ _ _ _ _ _ _ Hi) r) as (p & d & Hp & HpP & Hd & Hin); [by left|]. exists p, d.
  destruct (put_count C F W s rt Pf RR r p d Hi Hp Hd) as [Hc Hlt]. destruct (ri_bounds _ _ _ _ Hin) as (B1 & B2 & B3).
  destruct (ok_depth (F:=F) (range_page_size r) (ri_supported _ _ _ _ Hin)) as [_ Hd0]. pose proof (ri_depth _ _ _ _ Hin) as Hdd.
  destruct (ok_bits (F:=F) (range_page_size r) (depth d) (ri_supported _ _ _ _ Hin) ltac:(lia)) as [_ Hb].
  assert (2 ^ hbits h (depth d) (range_page_size r) <= 2 ^ 16) by (apply Z.pow_le_mono_r; lia). split_and!; try done; lia.
Qed.

Definition upper_range (r : uvm_page_table_range_t) (n : Z) : uvm_page_table_range_t :=
  mk_pt_range (table r) (start_index r + entry_count r - n) n (range_page_size r).

(** The upper entries of a range are held a second time. *)
Lemma range_get_upper_spec s R r n : lock s = false -> few_references s -> own s [] (r :: R) -> 0 < n <= entry_count r ->
  spec true (uvm_page_table_range_get_upper E r n) (fun upper s' => lock s' = false /\ frame [] s s' /\ upper = upper_range r n /\ own s' [] (upper :: r :: R)) s.
Proof.
  intros Hl Hfew Ho Hn. pose proof Ho as (rt0 & Pf0 & Rf0 & _ & Hi0). destruct (held_table _ _ _ _ _ Hi0) as (p & d0 & Hp & _ & _ & _ & B1 & B2 & B3 & _).
  unfold uvm_page_table_range_get_upper. apply spec_bind_assert; [lia|]. apply spec_bind_assert; [lia|]. eapply spec_bind_lift; [exact Hp|].
  eapply spec_bind; [by apply (lock_spec C E F W G O0 He s [] (r :: R))|]. intros [] s1 (L1 & (rt & Pf & Rf & HG & Hi) & L3 & L4 & _).
  destruct (held_table _ _ _ _ _ Hi) as (p' & d & Hp' & HpP & Hd & Hin & _). assert (p' = p) as -> by congruence. pose proof (L4 Hfew p d Hd) as Hroom.
  unfold page_table_range_init. rewrite (NvU32_small (entry_count r - n)) by lia. rewrite (NvU32_small (start_index r + _)) by lia.
  rewrite (NvU32_small (_ + n - 1)) by lia. replace (1 + _ - _) with n by lia. rewrite (NvU32_small n) by lia.
  destruct (ts_refs _ _ _ _ _ _ _ (ti_struct _ _ _ _ _ _ _ Hi) p d Hd) as [_ Hlt]. destruct (struct_refs_bound _ _ _ _ _ _ _ (ti_struct _ _ _ _ _ _ _ Hi) p d Hd) as [H0 _].
  eapply (spec_bind_run true _ _ _ _ (upper_range r n)).
  { rewrite (sm_bind_run _ _ _ _ _ (get_dir_run s1 p d Hd)). cbn [entry_count]. rewrite NvU32_small by lia. rewrite (sm_bind_run _ _ _ _ _ (set_dir_run _ _ _)).
    unfold mret, SM_ret. unfold upper_range. rewrite Hp. do 3 f_equal. lia. }
  set (s2 := s1 <| dirs := <[p := d <| ref_count := ref_count d + n |>]> (dirs s1) |>).
  assert (Ho2 : own s2 [] (upper_range r n :: r :: R)).
  { exists rt, Pf, Rf. split; [done|]. apply (inv_set_refs s1 rt Pf (r :: R ++ Rf) (upper_range r n :: r :: R ++ Rf) p d n Hi Hd HpP); [| |lia].
    - intros q. rewrite range_refs_cons. unfold held at 1. cbn [upper_range table entry_count]. rewrite Hp. destruct (decide (q = p)) as [->|Hne].
      + rewrite !bool_decide_eq_true_2 by done. lia.
      + rewrite !bool_decide_eq_false_2 by congruence. lia.
    - intros x [->|Hx]%elem_of_cons; [right|by left]. split; [done|]. destruct Hin as [I1 I2 I3 I4]. constructor; cbn; try done. lia. }
  eapply spec_bind; [apply (unlock_spec C F W G O0 s2 [] (upper_range r n :: r :: R) L1 Ho2)|]. intros [] s3 (U1 & U2 & U3 & _). apply spec_ret.
  split; [done|]. split; [|done]. eapply frame_trans; [exact L3|]. eapply frame_trans; [by apply (set_refs_frame s1 p d (ref_count d + n))|exact U3].
Qed.

(** A range that is shrunk gives back its upper entries; without entries, all of it. *)
Lemma range_shrink_spec s R r n : lock s = false -> own s [] (r :: R) -> 0 <= n <= entry_count r ->
  spec true (uvm_page_table_range_shrink C E r n) (fun r' s' => lock s' = false /\ frame [] s s' /\
    (0 < n -> r' = r <| entry_count := n |> /\ own s' [] (r' :: R)) /\
    (n = 0 -> r' = r /\ (own s' [] R \/ global_status s' <> NV_OK /\ own s' [] (r :: R)))) s.
Proof.
  intros Hl Ho Hn. unfold uvm_page_table_range_shrink. apply spec_bind_assert; [lia|]. destruct (Z.ltb_spec 0 n) as [Hpos|Hzero].
  2:{ eapply spec_bind; [by apply (put_ptes_spec s R r)|]. intros [] s1 (P1 & P2 & P3). apply spec_ret. split_and!; try done. intros. lia. }
  pose proof Ho as (rt0 & Pf0 & Rf0 & _ & Hi0). destruct (held_table _ _ _ _ _ Hi0) as (p & d0 & Hp & _ & _ & _ & B1 & B2 & B3 & _).
  eapply spec_bind_lift; [exact Hp|]. eapply spec_bind; [by apply (lock_spec C E F W G O0 He s [] (r :: R))|]. intros [] s1 (L1 & (rt & Pf & Rf & HG & Hi) & L3 & _).
  destruct (held_table _ _ _ _ _ Hi) as (p' & d & Hp' & HpP & Hd & Hin & _ & Hc & _ & Hlt). assert (p' = p) as -> by congruence.
  eapply spec_bind_dir; [exact Hd|]. apply spec_bind_assert; [lia|]. eapply spec_bind_run; [apply set_dir_run|]. set (r' := r <| entry_count := n |>).
  set (s2 := s1 <| dirs := _ |>).
  assert (Ho2 : own s2 [] (r' :: R)).
  { exists rt, Pf, Rf. split; [done|]. apply (inv_set_refs s1 rt Pf (r :: R ++ Rf) (r' :: R ++ Rf) p d (- (entry_count r - n)) Hi Hd HpP); [| |lia].
    - intros q. rewrite !range_refs_cons. unfold held. assert (Hp2 : table r' = Some p) by exact Hp. change (entry_count r') with n. destruct (decide (q = p)) as [->|Hne].
      + rewrite !bool_decide_eq_true_2 by done. lia.
      + rewrite !bool_decide_eq_false_2 by congruence. lia.
    - intros x [->|Hx]%elem_of_cons; [right|left; by right]. split; [done|]. destruct Hin as [I1 I2 I3 I4]. constructor; cbn; try done. lia. }
  eapply spec_bind; [apply (unlock_spec C F W G O0 s2 [] (r' :: R) L1 Ho2)|]. intros [] s3 (U1 & U2 & U3 & _). apply spec_ret.
  split; [done|]. split; [|split; [done|lia]]. eapply frame_trans; [exact L3|]. eapply frame_trans; [by eapply (set_refs_frame s1 p d)|exact U3].
Qed.
End api.
