(* ===== verification/PageTreeExample.v ===== *)
(** * A system for page trees

    An instance of the environment of page trees: allocators that place each table
    behind all others, no other threads, and a GPU that does not fail.  It satisfies
    the laws of [PageTreeSys], so what is proved from them is not vacuous. *)

From S2P Require Import Prelude PageMask StateMonad Push PmmChunks MmuTypes MmuPascal MmuHopper MmuPush PteBatch TlbBatch PageTree PageTreeInv PageTreeRun PageTreeWalk PageTreeMem PageTreeOps PageTreeGet PageTreePut PageTreeSys PageTreeInit PageTreeApi.

(** The result of a run that returns. *)
Definition returned {S A} (r : outcome (A * S)) (default : A * S) : A * S := match r with Returns x => x | _ => default end.

Lemma returned_spec {S A} (m : SM S A) (Q : A -> S -> Prop) s default : spec true m Q s -> Q (returned (m s) default).1 (returned (m s) default).2.
Proof. unfold spec, returned. destruct (m s) as [[a s']| |]; done. Qed.

(** ** Allocators *)
Definition table_end (d : uvm_page_directory_t) : Z := address (pa_addr (phys_alloc d)) + pa_size (phys_alloc d).
Definition next_address (s : page_tree) : Z := 4096 * (foldr (fun p m => Z.max m (table_end p.2)) 0 (map_to_list (dirs s)) / 4096 + 1).
Definition next_dir (s : page_tree) : dir_ptr := Pos.succ (foldr (fun p m => Pos.max m p.1) 1%positive (map_to_list (dirs s))).

Lemma next_dir_new s : dirs s !! next_dir s = None.
Proof.
  destruct (dirs s !! next_dir s) as [d|] eqn:E; [|done]. exfalso. apply elem_of_map_to_list in E. revert E. unfold next_dir.
  generalize (map_to_list (dirs s)). intros l. set (n := foldr _ _ l). assert (H : forall x, x ∈ l -> (x.1 <= n)%positive); [|intros Hin%H; cbn in Hin; lia].
  subst n. induction l as [|y l IH]; intros x Hx; [by apply elem_of_nil in Hx|]. apply elem_of_cons in Hx as [->|Hx]; cbn; [lia|]. specialize (IH x Hx). lia.
Qed.

Lemma next_address_above s p d : dirs s !! p = Some d -> table_end d <= next_address s.
Proof.
  intros Hd%elem_of_map_to_list. unfold next_address. set (n := foldr _ _ _).
  assert (H : table_end d <= n); [|pose proof (Z.mul_succ_div_gt n 4096); lia]. subst n. revert Hd. generalize (map_to_list (dirs s)). intros l Hx.
  induction l as [|y l IH]; [by apply elem_of_nil in Hx|]. apply elem_of_cons in Hx as [<-|Hx]; cbn; [lia|]. specialize (IH Hx). lia.
Qed.

(** GPUs without ECC. *)
#[export] Instance example_fatal : fatal_code := NV_ERR_RC_ERROR.

Section example.
Context (memory_size : Z).

(** There is memory of [memory_size] bytes in either aperture, for tables whose size
    is a power of two. *)
Definition room (s : page_tree) (size : Z) : bool :=
  (next_address s + size <=? memory_size) && (4096 mod Z.min size 4096 =? 0).

Definition example_env : page_tree_env := {|
  env_kvmalloc := fun _ => true;
  env_new_dir := next_dir;
  env_alloc_pages := fun _ => true;
  env_map_cpu_pages := fun s size => if room s size then (NV_OK, next_address s) else (NV_ERR_NO_MEMORY, 0);
  env_pmm_alloc := fun s size => if room s size then NV_OK else NV_ERR_NO_MEMORY;
  env_pmm_tracker_empty := fun _ => true;
  env_tracker_add := fun _ => NV_OK;
  env_chunk_address := fun s _ => next_address s;
  env_push_begin := fun _ => NV_OK;
  env_tracker_wait := fun _ => NV_OK;
  env_others := fun s => s
|}.

Definition example_config : tree_config := {|
  cfg_hal := pascal_mmu_mode_hal;
  cfg_ce_phys_vidmem_write_supported := true;
  cfg_static_flat_mapping_ready := false;
  cfg_map_remap_larger_page_promotion := false;
  cfg_ats_enabled := false;
  cfg_va_space_ats_enabled := false;
  cfg_no_ats_range_required := false;
  cfg_coherent := false;
  cfg_force_membar_sys := false;
  cfg_cpu_num_va_bits := 47;
  cfg_x86_64 := true;
  cfg_mem_info_size := memory_size;
  cfg_max_vidmem_page_size := UVM_PAGE_SIZE_2M;
  cfg_vidmem_only := false;
  cfg_page_table_aperture := UVM_APERTURE_VID;
  cfg_debug := false;
  cfg_tlb := {| tlb_hal := pascal_mmu_mode_hal; tlb_pdb := phys_address UVM_APERTURE_VID 0; va_invalidate_supported := true;
                va_range_invalidate_supported := false; max_ranges := 1; max_pages := 1 |}
|}.

Hypothesis Hmem : memory_size <= 2 ^ 36.

Lemma next_fresh s ap size : ap = UVM_APERTURE_SYS \/ ap = UVM_APERTURE_VID -> 0 < size -> room s size = true ->
  fresh_memory ver2_format s (pt_alloc (phys_address ap (next_address s)) size).
Proof.
  intros Hap Hs Hroom. unfold room in Hroom. rewrite andb_true_iff, Z.leb_le, Z.eqb_eq in Hroom. destruct Hroom as [Hfit Hdiv].
  assert (H0 : 0 <= next_address s).
  { unfold next_address. set (n := foldr _ _ _). assert (0 <= n); [subst n; induction (map_to_list (dirs s)) as [|x l IH]; cbn; lia|]. pose proof (Z.div_pos n 4096). lia. }
  split; [split; [done|]; cbn; split_and!; [done| |]|].
  - apply (Z.lt_le_trans _ (2 ^ 36)); [lia|]. by destruct Hap as [-> | ->]; vm_compute.
  - unfold next_address. apply Z.mod_divide; [lia|]. apply Z.divide_mul_l. apply Z.mod_divide; [lia|done].
  - intros p d Hd. pose proof (next_address_above s p d Hd) as Ha. right. right. exact Ha.
Qed.

(** The laws hold, for any entries that are left to their holders; other threads change
    nothing of what they own. *)
Lemma example_env_ok C W : env_ok C example_env ver2_format W eq.
Proof.
  constructor; cbn [example_env env_new_dir env_map_cpu_pages env_pmm_alloc env_chunk_address env_others].
  - typeclasses eauto.
  - constructor; cbn; auto.
  - apply next_dir_new.
  - intros s size a Hs. destruct (room s size) eqn:Hr; [|done]. intros [= <-]. by apply next_fresh; [left|..].
  - intros s size Hs. destruct (room s size) eqn:Hr; [|done]. intros _. by apply next_fresh; [right|..].
  - intros s s' size Hd. unfold next_address. by rewrite Hd.
  - intros s O P R Hl Hc. split_and!; try done; [by exists O|apply frame_refl].
  - done.
Qed.

(** ** A tree *)
Definition no_tree : page_tree :=
  mk_tree false None UVM_PAGE_TREE_TYPE_KERNEL UVM_APERTURE_SYS false (phys_address UVM_APERTURE_SYS 0) no_alloc None [no_range; no_range] ∅ [] NV_OK 0.

Definition example_created : NV_STATUS * page_tree :=
  returned (uvm_page_tree_init example_config example_env 6 UVM_PAGE_TREE_TYPE_KERNEL UVM_PAGE_SIZE_64K UVM_APERTURE_SYS no_tree) (NV_ERR_NO_MEMORY, no_tree).
Definition example_tree : page_tree := example_created.2.
End example.

Definition example_memory : Z := 2 ^ 30.
Notation tree := (example_tree example_memory).
Notation config := (example_config example_memory).
Notation env := (example_env example_memory).

Lemma example_hal : hal_ok (cfg_hal config) ver2_format.
Proof. exact pascal_hal_ok. Qed.

Lemma example_small : cfg_ce_phys_vidmem_write_supported config = false -> cfg_static_flat_mapping_ready config = false ->
  forall dep ps, halloc (cfg_hal config) dep ps <= PAGE_SIZE.
Proof. done. Qed.

Lemma example_init W : init_post config env ver2_format W UVM_PAGE_TREE_TYPE_KERNEL NV_OK tree.
Proof.
  pose proof (page_tree_init_spec config env ver2_format (Hhal := example_hal) W eq (example_env_ok example_memory ltac:(done) config W) example_small
    UVM_PAGE_TREE_TYPE_KERNEL UVM_PAGE_SIZE_64K UVM_APERTURE_SYS 6 ltac:(by vm_compute) ltac:(auto) ltac:(done) ltac:(done) ltac:(auto) ltac:(done) ltac:(auto) no_tree eq_refl ltac:(by left)) as H.
  apply (returned_spec _ _ _ (NV_ERR_NO_MEMORY, no_tree)) in H.
  assert (Hst : (example_created example_memory).1 = NV_OK) by (by vm_compute). rewrite <- Hst. exact H.
Qed.

(** What is granted to the holder of a range. *)
Lemma few_check s : forallb (fun p => ref_count p.2 <=? 2 ^ 31) (map_to_list (dirs s)) = true -> few_references s.
Proof. rewrite forallb_forall. intros H p d Hd%elem_of_map_to_list. apply Z.leb_le, (H (p, d)). by apply list_elem_of_In. Qed.

Definition nowhere : dir_ptr -> Z -> Prop := fun _ _ => False.

Lemma example_own : coherent config ver2_format nowhere tree ([], []) [] [].
Proof.
  destruct (example_init nowhere) as (_ & _ & _ & _ & [(Hn & _)|(_ & rt & a & Hi & _)]); [done|]. by exists rt.
Qed.

Definition example_got : NV_STATUS * uvm_page_table_range_t * page_tree :=
  returned (uvm_page_tree_get_ptes_async config env GET_FUEL UVM_PAGE_SIZE_4K 0 (2 * UVM_PAGE_SIZE_4K) 0 no_range tree) (NV_ERR_NO_MEMORY, no_range, tree).

Lemma example_request : request_in_table config UVM_PAGE_SIZE_4K 0 (2 * UVM_PAGE_SIZE_4K).
Proof. constructor; by vm_compute. Qed.

Lemma example_get : get_post config env ver2_format nowhere eq ([], []) UVM_PAGE_SIZE_4K 0 (2 * UVM_PAGE_SIZE_4K) [] tree no_range example_got.1 example_got.2.
Proof.
  destruct (example_init nowhere) as (Hl & _ & Hloc & Hfew & _).
  pose proof (get_ptes_async_spec config env ver2_format (Hhal := example_hal) nowhere eq ([], []) (example_env_ok example_memory ltac:(done) config nowhere) example_small
    UVM_PAGE_SIZE_4K 0 (2 * UVM_PAGE_SIZE_4K) 0 [] ltac:(by vm_compute) example_request eq_refl no_range tree Hl (own_start _ _ _ _ _ _ (example_env_ok example_memory ltac:(done) config nowhere) _ _ _ example_own) Hfew Hloc ltac:(by vm_compute)) as H.
  apply (returned_spec _ _ _ (NV_ERR_NO_MEMORY, no_range, tree)) in H. exact H.
Qed.

Lemma example_got_status : example_got.1.1 = NV_OK /\ global_status example_got.2 = NV_OK.
Proof. by vm_compute. Qed.

Lemma example_held : lock example_got.2 = false /\ own config ver2_format nowhere eq ([], []) example_got.2 [] [example_got.1.2].
Proof.
  destruct example_get as (Hl & _ & [(Hn & _)|(_ & Hg)]); [pose proof (proj1 example_got_status) as Hok; rewrite Hn in Hok; discriminate Hok|].
  split; [done|]. by apply (granted_own config ver2_format nowhere eq ([], []) UVM_PAGE_SIZE_4K 0 (2 * UVM_PAGE_SIZE_4K)).
Qed.

(** A directory for the 64K pages beside the 4K pages that are held. *)
Lemma own_locked s P R : own config ver2_format nowhere eq ([], []) s P R -> own config ver2_format nowhere eq ([], []) (locked env s) P R.
Proof. intros Ho. by eapply own_same; [..|exact Ho]. Qed.

Lemma cache_new s r p s' : lock s = false -> own config ver2_format nowhere eq ([], []) s [] [r] -> location_ok s ->
  allocate_directory config env UVM_PAGE_SIZE_64K 4 0 s = Returns (Some p, s') ->
  own config ver2_format nowhere eq ([], []) (locked env s') [p] [r] /\ cache_ok config ver2_format UVM_PAGE_SIZE_64K (locked env s') [None; None; None; Some p; None].
Proof.
  intros Hl Ho Hloc Hrun. pose proof (example_env_ok example_memory ltac:(done) config nowhere) as He.
  assert (Hps : supported (cfg_hal config) UVM_PAGE_SIZE_64K = true) by (vm_compute; reflexivity).
  assert (Hdep : 0 < 4 <= hdepth (cfg_hal config) UVM_PAGE_SIZE_64K) by (vm_compute; split; [reflexivity|discriminate]).
  pose proof (allocate_directory_spec config env ver2_format (Hhal := example_hal) nowhere eq ([], []) He s [] [r] UVM_PAGE_SIZE_64K 4 0 Hl Ho Hloc Hps Hdep) as H.
  unfold spec in H. rewrite Hrun in H. destruct H as (_ & _ & _ & Ho1 & _ & d & Hd & Hd4 & Hs). split; [by apply own_locked|].
  split; [done|]. intros e c Hc. destruct e as [|[|[|[|[|e]]]]]; cbn in Hc; try discriminate Hc. injection Hc as <-. by exists d.
Qed.

Definition example_new : page_tree := (returned (allocate_directory config env UVM_PAGE_SIZE_64K 4 0 example_got.2) (None, no_tree)).2.
Definition example_cache : list (option dir_ptr) := [None; None; None; Some 7%positive; None].
Definition example_locked : page_tree := locked env example_new.

Lemma example_new_run : allocate_directory config env UVM_PAGE_SIZE_64K 4 0 example_got.2 = Returns (Some 7%positive, example_new).
Proof. vm_compute. reflexivity. Qed.

Lemma example_request_big : request_in_table config UVM_PAGE_SIZE_64K 0 UVM_PAGE_SIZE_64K.
Proof. constructor; by vm_compute. Qed.

Lemma example_location : location_ok example_got.2.
Proof. right. vm_compute. reflexivity. Qed.

Lemma example_new_owned : own config ver2_format nowhere eq ([], []) example_locked (omap id example_cache) [example_got.1.2] /\ few_references example_locked /\
  cache_ok config ver2_format UVM_PAGE_SIZE_64K example_locked example_cache.
Proof.
  destruct (cache_new example_got.2 example_got.1.2 7 example_new (proj1 example_held) (proj2 example_held) example_location example_new_run) as [Ho Hc].
  split; [exact Ho|]. split; [|exact Hc]. apply few_check. vm_compute. reflexivity.
Qed.
