(* ===== verification/PageTreeCorrect.v ===== *)
(** * Page trees are correct

    The properties of the interface of page trees, for every MMU mode that satisfies
    [hal_ok] and every environment that satisfies [env_ok]: no assertion fails, the
    tree stays coherent among other threads, the MMU finds in memory the tables that
    the tree has, and memory is freed only when the MMU no longer finds it. *)

From S2P Require Import Prelude PageMask StateMonad Push PmmChunks MmuTypes MmuPascal MmuHopper MmuPush PteBatch TlbBatch PageTree PageTreeInv PageTreeRun PageTreeWalk PageTreeMem PageTreeOps PageTreeGet PageTreePut PageTreeHw PageTreeSys PageTreeInit PageTreeApi PageTreeExample.

(** A GPU, the rest of the driver, and the format that the MMU reads.  Tables that the
    CPU writes are no larger than a page; larger pages are not promoted through the
    remap tables, as they are on GA100. *)
Record tree_system {e : fatal_code} (C : tree_config) (E : page_tree_env) (F : hw_format) (W : dir_ptr -> Z -> Prop) (G : relation holdings) : Prop := {
  sys_hal : hal_ok (cfg_hal C) F;
  sys_env : env_ok C E F W G;
  sys_small : cfg_ce_phys_vidmem_write_supported C = false -> cfg_static_flat_mapping_ready C = false ->
    forall dep ps, halloc (cfg_hal C) dep ps <= PAGE_SIZE;
  sys_nopromo : cfg_map_remap_larger_page_promotion C = false
}.

(** A tree whose lock is free, of which the thread holds the ranges [R] and the others
    own [O]. *)
Record idle_tree {e : fatal_code} (C : tree_config) (F : hw_format) (W : dir_ptr -> Z -> Prop) (s : page_tree) (O : holdings) (R : list uvm_page_table_range_t) : Prop := {
  it_lock : lock s = false;
  it_own : coherent C F W s O [] R;
  it_few : few_references s;
  it_location : location_ok s
}.

Lemma spec_returns {S A} (m : SM S A) Q s : spec true m Q s -> exists a s', m s = Returns (a, s') /\ Q a s'.
Proof. unfold spec. destruct (m s) as [[a s']| |]; try done. eauto. Qed.

Section correct.
Context {e : fatal_code} (C : tree_config) (E : page_tree_env) (F : hw_format) (W : dir_ptr -> Z -> Prop) (G : relation holdings).
Notation h := (cfg_hal C).
Hypothesis Hsys : tree_system C E F W G.
#[local] Instance Hhal : hal_ok h F := sys_hal _ _ _ _ _ Hsys.
#[local] Notation He := (sys_env C E F W G Hsys).

Section request.
Context (s : page_tree) (O : holdings) (R : list uvm_page_table_range_t) (ps start size flags : Z) (range : uvm_page_table_range_t).
Hypothesis Hidle : idle_tree C F W s O R.
Hypothesis Hps : supported h ps = true.
Hypothesis Hreq : request_in_table C ps start size.
Hypothesis Hcan : can_address C s start size.

Lemma get_spec : spec true (uvm_page_tree_get_ptes_async C E GET_FUEL ps start size flags range) (get_post C E F W G O ps start size R s range) s.
Proof.
  destruct Hidle as [I1 I2 I3 I4].
  exact (get_ptes_async_spec C E F W G O He (sys_small _ _ _ _ _ Hsys) ps start size flags R Hps Hreq (sys_nopromo _ _ _ _ _ Hsys) range s I1
    (own_start C E F W G O He _ _ _ I2) I3 I4 Hcan).
Qed.

Lemma get_granted r s' : uvm_page_tree_get_ptes_async C E GET_FUEL ps start size flags range s = Returns ((NV_OK, r), s') -> granted C F W G O ps start size R s' r.
Proof. intros Hrun. pose proof get_spec as H. unfold spec in H. rewrite Hrun in H. destruct H as (_ & _ & [[Hn _]|[_ Hg]]); [discriminate Hn|exact Hg]. Qed.

Lemma get_mapped r s' a : granted C F W G O ps start size R s' r -> global_status s' = NV_OK -> start <= a < start + size ->
  exists rt t p, root s' = Some rt /\ table_address (dirs s') rt = Some t /\ table r = Some p /\ is_Some (table_address (dirs s') p) /\
    (path_free C (dirs s') rt W ps a (Z.to_nat (hdepth h ps)) ->
     hw_walk C F (mem_of s') t ps a (Z.to_nat (hdepth h ps)) = table_address (dirs s') p) /\
    va_index C ps a (hdepth h ps) = start_index r + (a - start) / ps /\ 0 <= (a - start) / ps < entry_count r.
Proof.
  intros (rt & Pf & Rf & _ & [[T1 T2 _ T3] (p & -> & Hw)]) Hg Ha. destruct (ts_root _ _ _ _ _ _ _ T2) as (dr & Hdr & _).
  destruct (ok_depth (F:=F) ps Hps) as [_ Hd]. destruct (request_entry C F ps start size a Hps Hreq Ha) as [Hi Hlt].
  exists rt, (pa_addr (phys_alloc dr)), p. cbn [table start_index entry_count]. split; [done|]. split; [unfold table_address; by rewrite Hdr|]. split; [done|].
  destruct (walk_dir_public C F _ _ _ _ _ ps start _ T2 p Hw) as [_ [dp Hdp]]. split; [unfold table_address; rewrite Hdp; by eexists|]. split; [|done]. intros Hfree.
  rewrite (hw_walk_follows C F (mem_of s') (dirs s') rt Pf [] _ W T2 (T3 Hg) ps Hps a (Z.to_nat (hdepth h ps)) (pa_addr (phys_alloc dr)) ltac:(lia) Hfree ltac:(unfold table_address; by rewrite Hdr)).
  rewrite (request_walk C F ps start size a Hps Hreq Ha) by lia. by rewrite Hw.
Qed.
End request.

End correct.

(** ** Getting entries *)


Lemma example_system : tree_system (example_config example_memory) (example_env example_memory) ver2_format nowhere eq.
Proof. constructor; [exact example_hal|by apply example_env_ok|exact example_small|done]. Qed.

Lemma example_idle : idle_tree (example_config example_memory) ver2_format nowhere (example_tree example_memory) ([], []) [].
Proof. destruct (example_init nowhere) as (I1 & _ & I3 & I4 & _). constructor; try done. exact example_own. Qed.



(** C4.  What the caller gets is what the MMU reads.  When the request succeeds and
    the GPU has not failed, the MMU that walks the tables in memory from the root, for
    any address of the request, ends at the table of the range, and the entry it reads
    there is as far into the range as the page is into the request.  Memory is what
    the copies and fills of the submitted pushes, or the CPU, have written.  It is
    assumed that none of the entries on the way of the address is among those that
    were given to holders to write, and that larger pages are not promoted, as they are
    on GA100. *)
Theorem get_ptes_mapped {e : fatal_code} C E F W G s O R ps start size flags range r s' :
  tree_system C E F W G -> idle_tree C F W s O R -> supported (cfg_hal C) ps = true -> request_in_table C ps start size -> can_address C s start size ->
  uvm_page_tree_get_ptes_async C E GET_FUEL ps start size flags range s = Returns ((NV_OK, r), s') -> global_status s' = NV_OK ->
  forall a, start <= a < start + size -> exists rt t p, root s' = Some rt /\ table_address (dirs s') rt = Some t /\ table r = Some p /\ is_Some (table_address (dirs s') p) /\
    (path_free C (dirs s') rt W ps a (Z.to_nat (hdepth (cfg_hal C) ps)) ->
     hw_walk C F (mem_of s') t ps a (Z.to_nat (hdepth (cfg_hal C) ps)) = table_address (dirs s') p) /\
    va_index C ps a (hdepth (cfg_hal C) ps) = start_index r + (a - start) / ps /\ 0 <= (a - start) / ps < entry_count r.
Proof.
  intros Hsys Hidle Hps Hreq Hcan Hrun Hg a Ha. apply (get_mapped C E F W G Hsys O R ps start size Hps Hreq r s' a); [|done|done].
  by apply (get_granted C E F W G Hsys s O R ps start size flags range Hidle Hps Hreq Hcan).
Qed.

Lemma example_got_run : uvm_page_tree_get_ptes_async (example_config example_memory) (example_env example_memory) GET_FUEL UVM_PAGE_SIZE_4K 0 (2 * UVM_PAGE_SIZE_4K) 0 no_range
    (example_tree example_memory) = Returns ((NV_OK, example_got.1.2), example_got.2).
Proof.
  destruct (spec_returns _ _ _ (get_spec _ _ _ _ _ example_system (example_tree example_memory) ([], []) [] UVM_PAGE_SIZE_4K 0 (2 * UVM_PAGE_SIZE_4K) 0 no_range example_idle
    ltac:(by vm_compute) example_request ltac:(by vm_compute))) as ([st r] & s' & Hrun & _).
  pose proof (proj1 example_got_status) as Hok. unfold example_got in *. rewrite Hrun in *. cbn [returned fst snd] in *. subst st. reflexivity.
Qed.

Lemma get_ptes_mapped_witness : exists rt t p,
  root example_got.2 = Some rt /\ table_address (dirs example_got.2) rt = Some t /\ table example_got.1.2 = Some p /\
  hw_walk (example_config example_memory) ver2_format (mem_of example_got.2) t UVM_PAGE_SIZE_4K UVM_PAGE_SIZE_4K 4 = table_address (dirs example_got.2) p.
Proof.
  destruct (get_ptes_mapped (example_config example_memory) (example_env example_memory) ver2_format nowhere eq (example_tree example_memory) ([], []) []
    UVM_PAGE_SIZE_4K 0 (2 * UVM_PAGE_SIZE_4K) 0 no_range example_got.1.2 example_got.2 example_system example_idle ltac:(by vm_compute) example_request ltac:(by vm_compute)
    example_got_run (proj2 example_got_status) UVM_PAGE_SIZE_4K ltac:(by vm_compute)) as (rt & t & p & H1 & H2 & H3 & _ & H4 & _).
  exists rt, t, p. split; [exact H1|]. split; [exact H2|]. split; [exact H3|]. apply H4. intros m q _ _ [].
Defined.

(** C14.  New tables become visible in the right order.  When an attempt under the lock
    succeeds and the GPU has not failed, the directories of the cache that it did not
    use are freed, with exactly their memory, and for those that it used, if any, the operations on memory that
    follow are: the new tables are initialised, a barrier, the entries that lead to
    them are written from the bottom up, a barrier, and an invalidation of the TLB from
    a depth above all of them.  The barriers reach system memory when a table or a
    parent is there.  At the first barrier the tables in memory are those of the tree
    but for the entries that are still to be written, and at the second one without
    exception, so the MMU never walks into a table that is not initialised. *)
Theorem attempt_ordered {e : fatal_code} C E F W G s rt Pf R ps start size cache range cur r dep s' :
  tree_system C E F W G -> tree_inv C F W s rt (omap id cache ++ Pf) R -> lock s = true -> few_references s -> cache_ok C F ps s cache ->
  supported (cfg_hal C) ps = true -> request_in_table C ps start size -> can_address C s start size ->
  try_get_ptes C E ps start size range cur cache s = Returns ((NV_OK, r, dep), s') -> global_status s' = NV_OK ->
  updated C F W s rt Pf cache s'.
Proof.
  intros Hsys Hi Hl Hfew [Hlen Hc] Hps Hreq Hcan Hrun Hg.
  pose proof (try_get_ptes_spec C E F (Hhal := sys_hal _ _ _ _ _ Hsys) (eo_pushes _ _ _ _ _ (sys_env _ _ _ _ _ Hsys)) (sys_small _ _ _ _ _ Hsys) W s rt Pf R ps start size cache
    Hi Hl Hps Hreq Hcan Hfew Hlen Hc range cur) as H. unfold spec in H. rewrite Hrun in H. destruct H as (_ & [(Hn & _)|(_ & _ & Hu)]); [discriminate Hn|by apply Hu].
Qed.

Lemma attempt_ordered_witness : exists rt Pf s', updated (example_config example_memory) ver2_format nowhere example_locked rt Pf example_cache s'.
Proof.
  destruct example_new_owned as ((rt & Pf & Rf & _ & Hi) & Hfew & Hc).
  assert (H : exists r dep s', try_get_ptes (example_config example_memory) (example_env example_memory) UVM_PAGE_SIZE_64K 0 UVM_PAGE_SIZE_64K no_range 0 example_cache example_locked =
    Returns ((NV_OK, r, dep), s') /\ global_status s' = NV_OK) by (eexists _, _, _; vm_compute; split; reflexivity).
  destruct H as (r & dep & s' & Hrun & Hg). exists rt, Pf, s'. assert (Hl : lock example_locked = true) by (vm_compute; reflexivity).
  assert (Hps : supported (cfg_hal (example_config example_memory)) UVM_PAGE_SIZE_64K = true) by (vm_compute; reflexivity).
  assert (Hcan : can_address (example_config example_memory) example_locked 0 UVM_PAGE_SIZE_64K) by (vm_compute; reflexivity).
  exact (attempt_ordered (example_config example_memory) (example_env example_memory) ver2_format nowhere eq example_locked rt Pf ([example_got.1.2] ++ Rf) UVM_PAGE_SIZE_64K 0
    UVM_PAGE_SIZE_64K example_cache no_range 0 r dep s' example_system Hi Hl Hfew Hc Hps example_request_big Hcan Hrun Hg).
Defined.

(** ** Putting entries back *)
Section putting_back.
Context {e : fatal_code} (C : tree_config) (E : page_tree_env) (F : hw_format) (W : dir_ptr -> Z -> Prop) (G : relation holdings).
Hypothesis Hsys : tree_system C E F W G.
#[local] Instance put_hal : hal_ok (cfg_hal C) F := sys_hal _ _ _ _ _ Hsys.
#[local] Notation He := (sys_env C E F W G Hsys).
Context (s : page_tree) (O : holdings) (R : list uvm_page_table_range_t) (r : uvm_page_table_range_t).
Hypothesis Hlock : lock s = false.
Hypothesis Hown : coherent C F W s O [] (r :: R).

Lemma put_spec : spec true (uvm_page_tree_put_ptes_async C E r) (fun _ s' => put_post C E F W G O R r s s') s.
Proof. exact (put_ptes_async_spec C E F W G O He (sys_small _ _ _ _ _ Hsys) R r s Hlock (own_start C E F W G O He _ _ _ Hown)). Qed.

(** A range whose references cannot be dropped stays. *)
Lemma put_done s' : uvm_page_tree_put_ptes_async C E r s = Returns (tt, s') -> global_status s' = NV_OK -> let s1 := locked E s in
  exists rt Pf Rf p d L l s2, G O (Pf, Rf) /\ tree_inv C F W s1 rt Pf (r :: R ++ Rf) /\ table r = Some p /\ dirs s1 !! p = Some d /\
    put_effect C F W (released s1 r p d) rt Pf (R ++ Rf) s2 L l /\ dirs s' = dirs s2 /\ log s' = log s2 /\ global_status s' = global_status s2.
Proof.
  intros Hrun Hg. pose proof put_spec as H. unfold spec in H. rewrite Hrun in H. destruct H as (_ & _ & [(_ & H)|(Hn & _)]); [exact H|done].
Qed.
End putting_back.

(** C15.  Putting a range back is safe among other threads, and releases it: no
    assertion fails, in particular none on the reference counts, if channels fail with
    one code only, and afterwards the tree is coherent without the range.  It then
    consists of the root, of what the caller still holds and of what the others own,
    and the reference count of each directory is the number of its children and of
    these entries, so the references of the range are dropped and the directories that
    have no more are gone.  What the others own has changed only along the relation by
    which they change it themselves: if they do nothing, not at all.  Only if the GPU
    has failed, so that the tables cannot be changed, the range stays held. *)
Theorem put_ptes_coherent {e : fatal_code} C E F W G s O R r : tree_system C E F W G -> lock s = false -> coherent C F W s O [] (r :: R) ->
  exists s' O', uvm_page_tree_put_ptes_async C E r s = Returns (tt, s') /\ lock s' = false /\ G O O' /\
    (coherent C F W s' O' [] R \/ global_status s' = fatal_status /\ fatal_status <> NV_OK /\ coherent C F W s' O' [] (r :: R)).
Proof.
  intros Hsys Hl Ho. destruct (spec_returns _ _ _ (put_spec C E F W G Hsys s O R r Hl Ho)) as ([] & s' & Hrun & Hl' & _ & Hres).
  exists s'. destruct Hres as [[(O' & HG & Hc)%own_coherent _]|[Hg (O' & HG & Hc)%own_coherent]]; exists O'; do 3 (split; [done|]); [by left|right].
  split; [|split; [apply (po_code _ (eo_pushes _ _ _ _ _ (sys_env _ _ _ _ _ Hsys)))|done]]. destruct Hc as [rt Hi]. by destruct (ti_known _ _ _ _ _ _ _ Hi).
Qed.

Lemma example_held_coherent : coherent (example_config example_memory) ver2_format nowhere example_got.2 ([], []) [] [example_got.1.2].
Proof. destruct (proj2 example_held) as (rt & Pf & Rf & HG & Hi). injection HG as <- <-. by exists rt. Qed.

(** The entries that are put back are the only ones, so only a root remains. *)
Lemma put_ptes_coherent_witness : exists s',
  uvm_page_tree_put_ptes_async (example_config example_memory) (example_env example_memory) example_got.1.2 example_got.2 = Returns (tt, s') /\ lock s' = false /\
  (global_status s' = NV_OK -> coherent (example_config example_memory) ver2_format nowhere s' ([], []) [] []).
Proof.
  destruct (put_ptes_coherent (example_config example_memory) (example_env example_memory) ver2_format nowhere eq example_got.2 ([], []) [] example_got.1.2
    example_system (proj1 example_held) example_held_coherent) as (s' & O' & H & Hl & <- & Hres).
  exists s'. split; [exact H|]. split; [exact Hl|]. intros Hok. destruct Hres as [Hc|(Hg & Hne & _)]; [exact Hc|]. destruct Hne. rewrite <- Hg. exact Hok.
Defined.

Lemma place_of_lookup (ds ds' : dir_store) x : place_of <$> ds !! x = place_of <$> ds' !! x -> phys_alloc <$> ds !! x = phys_alloc <$> ds' !! x.
Proof. unfold place_of. intros H. destruct (ds !! x), (ds' !! x); cbn in *; congruence. Qed.

Lemma released_place s r p d x : dirs s !! p = Some d -> place_of <$> dirs (released s r p d) !! x = place_of <$> dirs s !! x.
Proof. intros Hd. unfold released. cbn. destruct (decide (x = p)) as [->|Hne]; [by rewrite lookup_insert_eq, Hd|by rewrite lookup_insert_ne]. Qed.

(** C5.  Tables are freed only when the MMU cannot read them, unless the GPU has failed.
    With [s1] the state when
    the lock is taken, [L] the directories that the call takes out of the tree and [l]
    the operations on memory that it does: if [L] is not empty then the entries that
    lead to its tables are cleared, a barrier follows, which reaches system memory when
    a parent is there, the TLB is invalidated from a depth above all of [L], with the
    barrier that the memory of the tables needs, and then exactly the memory of [L] is
    freed.  At the invalidation the MMU finds, for every page size, address and depth,
    exactly the tables of the tree without [L], on ways that do not lead through the
    entries that were given to holders to write. *)
Theorem put_ptes_ordered {e : fatal_code} C E F W G s O R r s' : tree_system C E F W G -> lock s = false -> coherent C F W s O [] (r :: R) ->
  uvm_page_tree_put_ptes_async C E r s = Returns (tt, s') -> global_status s' = NV_OK -> let s1 := locked E s in
  exists rt p d L l, root s1 = Some rt /\ table r = Some p /\ dirs s1 !! p = Some d /\ log s' = log s1 ++ l /\
    (forall x, x ∈ L <-> is_Some (dirs s1 !! x) /\ dirs s' !! x = None) /\ (L = [] -> l = []) /\
    (L <> [] -> exists lf Wr t, unmap_order C (released s1 r p d) rt L l lf Wr /\ Forall free_op lf /\
       map Some (freed lf) = map (fun x => phys_alloc <$> dirs s1 !! x) L /\ table_address (dirs s') rt = Some t /\
       forall ps a n, supported (cfg_hal C) ps = true -> Z.of_nat n <= hdepth (cfg_hal C) ps -> path_free C (dirs s') rt W ps a n ->
         hw_walk C F (mem_after (mem_of s1) Wr) t ps a n = q ← walk_dir C (dirs s') rt ps a n; table_address (dirs s') q).
Proof.
  intros Hsys Hl Ho Hrun Hg s1. destruct (put_done C E F W G Hsys s O R r Hl Ho s' Hrun Hg) as (rt & Pf & Rf & p & d & L & l & s2 & _ & Hi & Hp & Hd & Heff & Hds & Hlog & Hgs).
  fold s1 in Hi, Hd, Heff. clearbody s1. pose proof (pe_dirs _ _ _ _ _ _ _ _ _ _ Heff) as Hpl. destruct (evolves_fields C _ _ _ _ (pe_evolves _ _ _ _ _ _ _ _ _ _ Heff)) as (_ & Hl2 & _).
  exists rt, p, d, L, l. rewrite Hds, Hlog. split; [apply Hi|]. split; [done|]. split; [done|]. split; [exact Hl2|]. split; [|split; [apply Heff|]].
  - intros x. specialize (Hpl x). rewrite (released_place _ r p d x Hd) in Hpl. split.
    + intros Hx. rewrite bool_decide_eq_true_2 in Hpl by done. split; [|by destruct (dirs s2 !! x)].
      destruct (pe_order _ _ _ _ _ _ _ _ _ _ Heff) as (lf & Wr & _ & _ & Hfr & _); [intros ->; by apply elem_of_nil in Hx|].
      apply list_elem_of_lookup in Hx as [j Hj]. assert (E1 : map Some (freed lf) !! j = Some (phys_alloc <$> dirs (released s1 r p d) !! x)) by (rewrite Hfr, list_lookup_fmap, Hj; done).
      rewrite list_lookup_fmap in E1. rewrite (place_of_lookup _ (dirs s1)) in E1 by (by apply released_place).
      destruct (freed lf !! j), (dirs s1 !! x) as [dx|] eqn:Ex; done.
    + intros [[dx Hdx] Hn]. destruct (decide (x ∈ L)) as [?|Hx]; [done|]. rewrite bool_decide_eq_false_2, Hn, Hdx in Hpl by done. done.
  - intros Hne. destruct (pe_order _ _ _ _ _ _ _ _ _ _ Heff Hne) as (lf & Wr & Hord & Hfree & Hfr & Hm). pose proof (pe_struct _ _ _ _ _ _ _ _ _ _ Heff) as Hts.
    destruct (ts_root _ _ _ _ _ _ _ Hts) as (dr & Hdr & _). assert (Ht : table_address (dirs s2) rt = Some (pa_addr (phys_alloc dr))) by (unfold table_address; by rewrite Hdr).
    exists lf, Wr, (pa_addr (phys_alloc dr)). split; [exact Hord|]. split; [done|]. split; [|split; [done|]].
    + rewrite Hfr. apply list_fmap_ext. intros j x _. apply place_of_lookup. by apply released_place.
    + intros ps a n Hps Hn Hfp. rewrite Hgs in Hg.
      exact (hw_walk_follows C F (Hhal := sys_hal _ _ _ _ _ Hsys) _ (dirs s2) rt Pf [] _ W Hts (Hm Hg) ps Hps a n _ Hn Hfp Ht).
Qed.

Definition example_put : page_tree :=
  (returned (uvm_page_tree_put_ptes_async (example_config example_memory) (example_env example_memory) example_got.1.2 example_got.2) (tt, no_tree)).2.

Lemma example_put_run : uvm_page_tree_put_ptes_async (example_config example_memory) (example_env example_memory) example_got.1.2 example_got.2 = Returns (tt, example_put).
Proof.
  destruct (spec_returns _ _ _ (put_spec _ _ _ _ _ example_system example_got.2 ([], []) [] example_got.1.2 (proj1 example_held) example_held_coherent)) as ([] & s' & Hrun & _).
  unfold example_put. rewrite Hrun. reflexivity.
Qed.

Lemma put_ptes_ordered_witness : exists (L : list dir_ptr) l, log example_put = log (locked (example_env example_memory) example_got.2) ++ l /\ 6%positive ∈ L.
Proof.
  destruct (put_ptes_ordered (example_config example_memory) (example_env example_memory) ver2_format nowhere eq example_got.2 ([], []) [] example_got.1.2 example_put
    example_system (proj1 example_held) example_held_coherent example_put_run ltac:(by vm_compute)) as (rt & p & d & L & l & _ & _ & _ & Hlog & HL & _).
  exists L, l. split; [exact Hlog|]. apply HL. split; [vm_compute; eexists; reflexivity|vm_compute; reflexivity].
Defined.

(** ** Parts of ranges *)

(** A range can be split.  Getting the upper [n] entries of a range and shrinking
    it by as many leaves the caller with two ranges, of the same table, that together
    are the range: the lower one begins where the range did, the upper one where the
    lower one ends.  No assertion fails and the tree stays coherent; in particular the
    references that the two hold are those that the range held. *)
Theorem range_split {e : fatal_code} C E F W G s O R r n : tree_system C E F W G -> idle_tree C F W s O (r :: R) -> 0 < n < entry_count r ->
  exists upper lower s',
    (upper ← uvm_page_table_range_get_upper E r n; lower ← uvm_page_table_range_shrink C E r (entry_count r - n); mret (upper, lower)) s = Returns ((upper, lower), s') /\
    lock s' = false /\ own C F W G O s' [] (lower :: upper :: R) /\ table lower = table r /\ table upper = table r /\
    start_index lower = start_index r /\ entry_count lower = entry_count r - n /\ start_index upper = start_index r + entry_count lower /\ entry_count upper = n /\
    range_page_size lower = range_page_size r /\ range_page_size upper = range_page_size r.
Proof.
  intros Hsys [Hl Ho Hfew _] Hn. pose proof (sys_hal _ _ _ _ _ Hsys) as Hhal. pose proof (sys_env _ _ _ _ _ Hsys) as He.
  destruct (spec_returns _ _ _ (range_get_upper_spec C E F W G O He s R r n Hl Hfew (own_start C E F W G O He _ _ _ Ho) ltac:(lia))) as (upper & s1 & Hrun1 & Hl1 & _ & -> & Ho1).
  apply (own_perm C F W G O s1 [] [] _ (r :: upper_range r n :: R)) in Ho1; [|done|apply Permutation_swap].
  destruct (spec_returns _ _ _ (range_shrink_spec C E F W G O He (sys_small _ _ _ _ _ Hsys) s1 (upper_range r n :: R) r (entry_count r - n) Hl1 Ho1 ltac:(lia)))
    as (lower & s2 & Hrun2 & Hl2 & _ & Hpos & _). destruct Hpos as [-> Ho2]; [lia|].
  exists (upper_range r n), (r <| entry_count := entry_count r - n |>), s2. split.
  { rewrite (sm_bind_run _ _ _ _ _ Hrun1). by rewrite (sm_bind_run _ _ _ _ _ Hrun2). }
  split; [done|]. split; [done|]. cbn. split_and!; try done. lia.
Qed.

Lemma example_got_idle : idle_tree (example_config example_memory) ver2_format nowhere example_got.2 ([], []) [example_got.1.2].
Proof. constructor; [apply example_held|exact example_held_coherent|apply few_check; vm_compute; reflexivity|right; vm_compute; reflexivity]. Qed.

Lemma range_split_witness : exists upper lower s',
  (upper ← uvm_page_table_range_get_upper (example_env example_memory) example_got.1.2 1;
   lower ← uvm_page_table_range_shrink (example_config example_memory) (example_env example_memory) example_got.1.2 (entry_count example_got.1.2 - 1);
   mret (upper, lower)) example_got.2 = Returns ((upper, lower), s') /\ entry_count upper = 1.
Proof.
  destruct (range_split (example_config example_memory) (example_env example_memory) ver2_format nowhere eq example_got.2 ([], []) [] example_got.1.2 1 example_system example_got_idle
    ltac:(vm_compute; split; reflexivity)) as (upper & lower & s' & Hrun & _ & _ & _ & _ & _ & _ & _ & Hc & _).
  exists upper, lower, s'. exact (conj Hrun Hc).
Defined.

(** ** Creating a tree *)
Lemma root_only_walk C rt a ps va n : walk_dir C (root_only C rt a) rt ps va (S n) = None.
Proof.
  induction n as [|n IH].
  - cbn [walk_dir mbind option_bind]. rewrite root_only_root. cbn [mbind option_bind]. destruct (index_to_entry C _ _ _) as [k|]; [|done]. cbn [mbind option_bind].
    unfold entry_at, new_directory. cbn [entries]. destruct (replicate _ _ !! Z.to_nat k) as [e|] eqn:Ee; [|done]. by apply lookup_replicate in Ee as [-> _].
  - cbn [walk_dir] in *. by rewrite IH.
Qed.

(** C20.  A tree is coherent from its creation on, and maps nothing.  For every location
    that the driver may ask for, on a GPU that does not promote larger pages through
    remap tables (GA100 does) and for a tree that needs no ranges set aside for ATS
    (kernel trees, VA spaces without ATS, and CPUs that address as much as the GPU),
    [uvm_page_tree_init] fails no assertion.  If an allocator refuses the root there is
    no tree, and the status is NV_ERR_NO_MEMORY; else the tree has only a root, to which
    nothing refers, the status is an error only if the GPU has failed, and if it has not
    then the MMU finds no table below the root, for any page size and address whose
    entries were not given to holders. *)
Theorem page_tree_init_coherent {e : fatal_code} C E F W G s fuel type big loc : tree_system C E F W G -> dirs s = ∅ -> known s -> supported (cfg_hal C) big = true ->
  loc = UVM_APERTURE_VID \/ loc = UVM_APERTURE_SYS \/ loc = UVM_APERTURE_DEFAULT ->
  (cfg_vidmem_only C = true -> loc = UVM_APERTURE_VID) -> (cfg_mem_info_size C = 0 -> loc = UVM_APERTURE_SYS) ->
  cfg_page_table_aperture C = UVM_APERTURE_VID \/ cfg_page_table_aperture C = UVM_APERTURE_SYS \/ cfg_page_table_aperture C = UVM_APERTURE_DEFAULT ->
  type = UVM_PAGE_TREE_TYPE_KERNEL \/ cfg_va_space_ats_enabled C = false \/ cfg_no_ats_range_required C = false ->
  exists st s', uvm_page_tree_init C E fuel type big loc s = Returns (st, s') /\
    (st = NV_ERR_NO_MEMORY /\ root s' = None /\ dirs s' = ∅ /\ (exists sa, dirs sa = ∅ /\ refuses E sa (halloc (cfg_hal C) 0 UVM_PAGE_SIZE_AGNOSTIC)) \/
     status_ok st s' /\ idle_tree C F W s' ([], []) [] /\ exists rt t, root s' = Some rt /\ table_address (dirs s') rt = Some t /\
       (forall p d, dirs s' !! p = Some d -> p = rt /\ ref_count d = 0) /\
       forall ps a n, supported (cfg_hal C) ps = true -> Z.of_nat (S n) <= hdepth (cfg_hal C) ps -> path_free C (dirs s') rt W ps a (S n) ->
         global_status s' = NV_OK -> hw_walk C F (mem_of s') t ps a (S n) = None).
Proof.
  intros Hsys Hd Hkn Hbig Hloc Hv Hm Hap Hats. pose proof (sys_hal _ _ _ _ _ Hsys) as Hhal. pose proof (sys_env _ _ _ _ _ Hsys) as He.
  destruct (spec_returns _ _ _ (page_tree_init_spec C E F W G He (sys_small _ _ _ _ _ Hsys) type big loc fuel Hbig Hloc Hv Hm Hap (sys_nopromo _ _ _ _ _ Hsys) Hats s Hd Hkn))
    as (st & s' & Hrun & Hl & _ & Hlo & Hfew & Hres). exists st, s'. split; [done|]. destruct Hres as [(-> & Hr & Hno)|(Hst & rt & a & [T1 T2 Tk T3] & Hds)]; [by left|right].
  split; [done|]. split; [constructor; [done| |done|done]; by exists rt|]. rewrite Hds in *.
  assert (Ht : table_address (root_only C rt a) rt = Some (pa_addr a)) by (unfold table_address; by rewrite root_only_root).
  exists rt, (pa_addr a). split; [done|]. split; [done|]. split; [intros p d [-> ->]%root_only_lookup; done|].
  intros ps va n Hps Hn Hfree Hg.
  rewrite (hw_walk_follows C F (Hhal := sys_hal _ _ _ _ _ Hsys) (mem_of s') (root_only C rt a) rt [] [] [] W T2 (T3 Hg) ps Hps va (S n) (pa_addr a) Hn Hfree Ht).
  by rewrite root_only_walk.
Qed.

Lemma page_tree_init_coherent_witness : exists st s',
  uvm_page_tree_init (example_config example_memory) (example_env example_memory) GET_FUEL UVM_PAGE_TREE_TYPE_USER UVM_PAGE_SIZE_64K UVM_APERTURE_DEFAULT no_tree = Returns (st, s').
Proof.
  destruct (page_tree_init_coherent (example_config example_memory) (example_env example_memory) ver2_format nowhere eq no_tree GET_FUEL UVM_PAGE_TREE_TYPE_USER
    UVM_PAGE_SIZE_64K UVM_APERTURE_DEFAULT example_system eq_refl (or_introl eq_refl) eq_refl ltac:(auto) ltac:(discriminate) ltac:(discriminate) ltac:(left; reflexivity)
    ltac:(right; left; reflexivity)) as (st & s' & Hrun & _).
  exists st, s'. exact Hrun.
Defined.

(** ** A failure of single entries *)

(** [uvm_page_tree_get_entry] fails an assertion when there is no memory.  If the
    request behind it ends with NV_ERR_NO_MEMORY then the caller's range is as it was;
    the function asserts that it has one entry before it looks at the status, so that
    with any other range, such as one that was just cleared, the assertion fails
    instead of the error being returned. *)
Theorem get_entry_asserts C E fuel ps start flags single s s' : uvm_page_tree_get_ptes_async C E fuel ps start ps flags single s = Returns ((NV_ERR_NO_MEMORY, single), s') ->
  entry_count single <> 1 -> uvm_page_tree_get_entry C E fuel ps start flags single s = Fails.
Proof.
  intros Hrun Hc. unfold uvm_page_tree_get_entry, uvm_page_tree_get_ptes. erewrite sm_bind_run by (erewrite sm_bind_run by exact Hrun; reflexivity).
  cbn [fst snd]. rewrite (proj2 (Z.eqb_neq _ _) Hc). reflexivity.
Qed.

Lemma get_entry_asserts_witness : uvm_page_tree_get_entry (example_config example_memory) (example_env 8192) GET_FUEL UVM_PAGE_SIZE_4K 0 0 no_range (example_tree example_memory) = Fails.
Proof.
  assert (H : exists s', uvm_page_tree_get_ptes_async (example_config example_memory) (example_env 8192) GET_FUEL UVM_PAGE_SIZE_4K 0 UVM_PAGE_SIZE_4K 0 no_range
    (example_tree example_memory) = Returns ((NV_ERR_NO_MEMORY, no_range), s')) by (eexists; vm_compute; reflexivity).
  destruct H as [s' H]. apply (get_entry_asserts (example_config example_memory) (example_env 8192) GET_FUEL UVM_PAGE_SIZE_4K 0 0 no_range (example_tree example_memory) s' H). discriminate.
Defined.
